(* ===== verification/_CoqProject ===== *)
-Q . S2P
Prelude.v
F64.v
Json.v
Effects.v
Identifiers.v
Status.v
Errors.v
Config.v
Call.v
Invocation.v
Trigger.v
MemTrigger.v
OrchestratorState.v
MemOrchestrator.v
MemOrchestratorFacts.v
MemBroker.v
MemStateBackend.v
Workflow.v
ClientData.v
TaskCatalog.v
Ports.v
Orchestration.v
Routing.v
Contexts.v
TriggerManager.v
TriggerFacts.v
TriggerBuilder.v
TriggerLoop.v
Dispatch.v
Builder.v
Retrieval.v
Recovery.v
Execution.v
Pools.v
Subprocess.v
Runner.v
Management.v
Lifecycle.v
Typed.v
Handles.v
SqliteDb.v
SqliteBroker.v
SqliteOrchestrator.v
SqliteState.v
SqlitePublication.v
SqlitePublished.v
SqliteDelivery.v
SqliteRuntime.v
SqliteTrigger.v
SqliteTriggerFacts.v
SqliteTriggerRefinement.v
Lanes.v
Histogram.v
FamilyTree.v
Exporter.v
ExporterFacts.v
ExporterDelivery.v
