(* ===== verification/Prelude.v ===== *)
(** * Rustvello: a verification library for the Rust task-orchestration engine

    Rustvello runs tasks of several languages on shared backends: a call is
    registered as an invocation, routed to a broker, claimed by a runner under
    the concurrency limit of its task, executed in numbered attempts, and ends in a
    result, an error, a retry or a recovery; triggers start further invocations.
    The library models the engine without its input and output: every operation is
    a Rocq function of the state it works on, in the order of the source.

    ** How the source is represented

    Code in [src/crates/] becomes functions in the monad [M] of Effects.v: a clock,
    a state, and an outcome that is a value, an error or a panic.  Integers are
    [Z] with their width written out (Prelude.v), [f64] are bit patterns with the
    operations of binary64 (F64.v), strings are byte strings, hash maps are [gmap]s
    whose iteration order is the parameter [HashOrder].  Libraries the source calls
    (SHA-256, serde, chrono ranges, cron schedules, UUIDs, Unicode case, globs, the
    environment, shuffles) are type classes with the properties the code relies on;
    each class used by a theorem has an instance in its witness.  An in-memory
    operation is one step, as under the locks of the source.

    ** Files

    - Prelude, Effects, F64, Json: machine integers, sorting, iteration orders; the
      monad, its invariants ([respects], [keeps]) and loops; binary64; JSON values.
    - Identifiers, Status, Errors, Config, Call, Invocation, Trigger: the data of
      rustvello-proto and core/error.rs.  Status holds the transition table and the
      ownership rules, Trigger the conditions, filters and ids of triggers.
    - OrchestratorState, MemOrchestrator, MemOrchestratorFacts: the in-memory
      invocation control (rustvello-mem/src/orchestrator): status changes, the
      index of concurrency slots, waiters, heartbeats, stale scans, purges; its
      state invariant and the behaviour of each operation.
    - MemBroker, MemStateBackend, MemTrigger: broker.rs, state_backend.rs and
      trigger.rs of rustvello-mem.
    - Workflow: core/workflow.rs: the deterministic executor of workflow code, over
      any store of workflow data.
    - ClientData: core/client_data_store.rs and its in-memory store: large values
      behind content-addressed references, with an LRU cache as a parameter.
    - TaskCatalog: task_catalog.rs, task_config.rs, core/task.rs: registries and the
      layers of a task's configuration.
    - Ports: what the orchestrator uses of its backends, as the class [Ports]; the
      abstract [RuntimeView]; the class [PortLaws], the contract each operation of a
      backend without transactional publication keeps with respect to the view as
      long as it does not fail, proved for the in-memory backends ([mem_port_laws]);
      the calculus [yields] and [wp] for programs over ports.
    - Orchestration, Routing, Dispatch, Retrieval, Recovery, TriggerLoop: the files
      of rustvello/src/orchestration, proved against [PortLaws], or against the
      in-memory runtime where a property needs more than the view.
    - Contexts: core/context.rs: the contexts that running code finds in its locals,
      and the signal of an abandoned attempt as an interleaving of its threads.
    - TriggerManager, TriggerFacts, TriggerBuilder: core/trigger.rs over the class
      [TriggerStore], its behaviour on the in-memory store, and the fluent builder.
    - Builder: rustvello/src/builder: configuration files, the choice of the backends
      and the checks of [build].
    - Execution: runner/executor_common.rs and runner/attempt.rs: the claim of an
      invocation, middleware, attempt identity, supervision and outcome.
    - Pools, Subprocess, Runner, Management: the worker pools as transition systems,
      the protocol spoken with a worker process, what a runner process does around its
      claims, and the management loop of persistent_tokio/worker.rs.
    - Lifecycle, Typed, Handles: a submission followed to its stored result through
      routing, dispatch and execution; typed tasks and calls over a class of serde
      types (core/task.rs, core/call.rs); the calls of an application and the handles
      on which a caller waits (app/submission.rs, core/invocation.rs).
    - SqliteDb, SqliteBroker, SqliteOrchestrator, SqliteState, SqlitePublication: the
      SQLite backend: tables, transactions and the connection, then each file of
      rustvello-sqlite as operations on them.  SqlitePublished has the behaviour of
      the publications, SqliteDelivery the invariant of the queue over everything that
      processes on one file do, SqliteRuntime the ports over the file.
    - SqliteTrigger, SqliteTriggerFacts, SqliteTriggerRefinement: the trigger store on
      SQLite and its simulation by the in-memory store.
    - Lanes, Histogram, FamilyTree: the algorithms of rustvello-monitoring: the lanes
      of the timeline, the occupancy of the histogram, the tree of a family.
    - Exporter, ExporterFacts, ExporterDelivery: [BoundedAsyncEmitter] of
      core/observability.rs as threads over a shared state, its invariant, and what
      flush and shutdown promise.

    ** What the theorems show

    - End to end: a call that is submitted while its worker is idle is executed and
      its result is stored ([submitted_call_is_executed]); the value a typed task
      returns is the one the waiting caller receives ([typed_call_comes_back]), typed
      arguments surviving every encoding on the way; how a wait ends is characterised
      on every branch.
    - The status machine: the transition function is characterised by the table and
      the ownership rules; a foreign runner cannot move an owned invocation; every
      non-final status can reach a final one.
    - The in-memory backends: well-formedness invariants under every operation, the
      effect of status changes and slot requests on every branch, the order of
      deliveries, batch retrieval as a stable sort.
    - The orchestrator: reports of status, result, failure and retry, routing,
      submission, claims, batches, recovery and the outcome of an attempt, each as
      the exact change of the view on every branch, errors included.  Most of this is
      proved against [PortLaws], so it says nothing of backends that publish in a
      transaction (what SQLite does then is in SqlitePublished) or of operations that
      fail halfway; admission, batch candidates and the end-to-end passes are proved
      on the in-memory backends.  Each property states its setting.
    - Limits: a task never has more slot holders than its limit, a claimed
      invocation holds a slot, recovery is bounded, attempts are numbered upwards.
    - Triggers: an evaluation claims exactly the firings of the valid conditions;
      the ordered claim sequence refines the atomic one and converges when it is
      interrupted; a cron slot fires once; the publication of a run that stops at
      any boundary, any number of times, ends in one published invocation; an
      iteration of the loop drains the outbox; a built trigger fires.
    - SQLite: a publication happens completely or not at all wherever it is stopped;
      a submission is accepted once; an entry is delivered once per lease, and again
      when its lease has ended; an
      invocation that waits to run has exactly one queue entry in every reachable
      file; the trigger store answers as the in-memory one does, and interrupted
      claims can be repeated.
    - Processes and threads: the pools start what they claim; the management loop
      performs everything that is due, whatever fails; hooks of an abandoned attempt run once under every
      interleaving; the exporter loses and invents nothing, a flush delivers what was
      queued before it, a shutdown delivers everything and terminates, as long as no
      load of an atomic is stale; with a stale load an event can be lost.
    - Workflows and data: a workflow that is run again gets the values of its first
      run, whatever the clock says and wherever it failed; a stored value is
      resolved from its reference after any other use of the manager.
    - Monitoring: the chains of a lane do not overlap and no lane is wasted; a bucket of the
      histogram holds the invocations that occupy it, but for a span that reaches less than a
      millisecond into it; the walk to the root of
      a family ends and the tree stays within its limits.
    - Defects and divergences that the models make visible are theorems too, such
      as [turned_away_retry_is_lost] or [unroutable_runs_hold_up_the_outbox].

    ** Bounds

    Loops over lists are structural.  Loops with a bound in the source carry it:
    [MAX_CC_RETRIES] for claims, [retrieval_attempts] for batches, the number of
    polls in [supervise], whose termination is a theorem; the parsers recurse on
    their input.  No definition of these runs out of fuel before the source would
    stop.  The walk of [find_root] has as many steps as there are invocations, and one
    more; it is proved that it has stopped by then.  A wait of a caller without a
    timeout may never end in the source: the number of its polls is an argument, and
    [None] says that the caller still waits.  Threads are relations without fuel, and
    termination is a bound on the steps of the worker.

    ** Not modelled

    - The PostgreSQL, MongoDB, Redis and RabbitMQ backends, whose behaviour is that of
      queries, scripts and exchanges executed by external servers.
    - Of SQLite: schema creation, input and output errors, contention for locks, and
      the text of SQL (a JSON column of the trigger store is a parameter that says what
      reading it back gives; elsewhere it holds the written value).
    - Of the runner processes: sleeping, and the loops of the tasks of a process but
      for the management loop; their iterations are the operations of Runner and Pools.
    - Of the builders: setters, the resolver of layered configuration and the
      connections to servers.
    - Of observability: the data of events and their propagation to OpenTelemetry;
      logging.
    - Of monitoring: web views, coordinates and the text of SVG and HTML.
    - Macros, the command line, the Python bindings and the test suite: generated
      code, glue, or code that only calls the above.

    Interleavings of two runners are sequences of operations; the interleaving
    inside one orchestrator call is covered where a theorem quantifies over the
    states between its steps (fault boundaries, claims), inside the exporter and the
    abandon signal at the level of their atomic accesses. *)
From Stdlib Require Export ZArith Lia Ascii.
From stdpp Require Export base gmap strings list fin_maps sorting option numbers.

#[export] Set Default Goal Selector "!".
#[global] Open Scope Z_scope.

Declare Scope rustvello_scope.
Delimit Scope rustvello_scope with rv.
#[global] Open Scope rustvello_scope.

Create HintDb rustvello discriminated.
Create Rewrite HintDb rustvello_rw.
Create HintDb respects discriminated.

(** ** Machine integers

    A [w]-bit Rust integer is a [Z] in its range; the release profile wraps. *)

Definition u16_max : Z := 65535.
Definition u32_max : Z := 4294967295.
Definition i64_max : Z := 9223372036854775807.
Definition u64_max : Z := 18446744073709551615.

(** [+] on [u32] in the release profile. *)
Definition u32_wrapping_add (a b : Z) : Z := (a + b) mod 4294967296.

(** [u32::checked_add]. *)
Definition u32_checked_add (a b : Z) : option Z :=
  if a + b <=? u32_max then Some (a + b) else None.

(** [i64::try_from(n).unwrap_or(i64::MAX)] of an unsigned [n]. *)
Definition i64_saturating_of_u64 (n : Z) : Z := if n <=? i64_max then n else i64_max.

Lemma u32_wrapping_add_small a b :
  0 ≤ a → 0 ≤ b → a + b ≤ u32_max → u32_wrapping_add a b = a + b.
Proof. unfold u32_wrapping_add, u32_max. intros. apply Z.mod_small. lia. Qed.

Lemma u32_wrapping_add_range a b : 0 ≤ u32_wrapping_add a b ≤ u32_max.
Proof.
  unfold u32_wrapping_add, u32_max.
  pose proof (Z.mod_pos_bound (a + b) 4294967296 ltac:(lia)). lia.
Qed.

Lemma i64_saturating_of_u64_le n : i64_saturating_of_u64 n ≤ i64_max.
Proof. unfold i64_saturating_of_u64. destruct (Z.leb_spec n i64_max); lia. Qed.

(** ** Binary64 floats as bit patterns

    An [f64] is its 64-bit pattern: sign bit 63, exponent bits 52..62. *)

Abbreviation f64 := Z (only parsing).

Definition f64_sign (b : f64) : bool := Z.testbit b 63.
Definition f64_exponent (b : f64) : Z := Z.land (Z.shiftr b 52) 2047.
Definition f64_is_finite (b : f64) : bool := negb (f64_exponent b =? 2047).

(** The signed key that [f64::total_cmp] compares: the pattern read as an
    [i64], with the magnitude bits of negative numbers flipped. *)
Definition f64_key (b : f64) : Z :=
  if f64_sign b then - (b - 9223372036854775808) - 1 else b.

Definition f64_total_cmp (a b : f64) : comparison := (f64_key a ?= f64_key b)%Z.

(** IEEE [<=] of two non-NaN numbers: the two zeros are equal. *)
Definition f64_num (b : f64) : Z :=
  if f64_sign b then - (b - 9223372036854775808) else b.
Definition f64_le_finite (a b : f64) : bool := f64_num a <=? f64_num b.

Definition f64_is_nan (b : f64) : bool :=
  (f64_exponent b =? 2047) && negb (Z.land b 4503599627370495 =? 0).

(** [==] of two [f64]: a NaN differs from everything, the two zeros are equal. *)
Definition f64_eqb (a b : f64) : bool :=
  negb (f64_is_nan a) && negb (f64_is_nan b) && (f64_num a =? f64_num b).

(** [(lo..=hi).contains(&x)] for finite numbers. *)
Definition f64_in_range (lo hi x : f64) : bool := f64_le_finite lo x && f64_le_finite x hi.

(** ** Strings

    A Rust [str] is its sequence of UTF-8 bytes, a Rocq [string]. *)

Fixpoint str_contains_char (c : Ascii.ascii) (s : string) : bool :=
  match s with
  | EmptyString => false
  | String d s' => bool_decide (d = c) || str_contains_char c s'
  end.

(** [s.strip_prefix(c)] for one character. *)
Definition str_strip_char (c : Ascii.ascii) (s : string) : option string :=
  match s with
  | String e r => if bool_decide (e = c) then Some r else None
  | EmptyString => None
  end.

(** [s.split_once("::")]: the text before and after the first double colon. *)
Fixpoint str_split_first_cc (s : string) : option (string * string) :=
  match s with
  | EmptyString => None
  | String d s' =>
      match (if bool_decide (d = ":"%char) then str_strip_char ":" s' else None) with
      | Some r => Some (EmptyString, r)
      | None => (λ p, (String d p.1, p.2)) <$> str_split_first_cc s'
      end
  end.

Definition str_contains_cc (s : string) : bool := bool_decide (is_Some (str_split_first_cc s)).

(** [s.rsplit_once(c)]: the text before and after the last [c]. *)
Fixpoint str_rsplit (c : Ascii.ascii) (s : string) : option (string * string) :=
  match s with
  | EmptyString => None
  | String d s' =>
      match str_rsplit c s' with
      | Some p => Some (String d p.1, p.2)
      | None => if bool_decide (d = c) then Some (EmptyString, s') else None
      end
  end.

Fixpoint str_take (n : nat) (s : string) : string :=
  match n, s with
  | S n', String c s' => String c (str_take n' s')
  | _, _ => EmptyString
  end.

Fixpoint str_drop (n : nat) (s : string) : string :=
  match n, s with
  | S n', String _ s' => str_drop n' s'
  | _, _ => s
  end.

Fixpoint str_starts_with (p s : string) : bool :=
  match p, s with
  | EmptyString, _ => true
  | String a p', String b s' => bool_decide (a = b) && str_starts_with p' s'
  | String _ _, EmptyString => false
  end.

(** [s.contains(p)]. *)
Fixpoint str_contains (p s : string) : bool :=
  str_starts_with p s ||
  match s with EmptyString => false | String _ s' => str_contains p s' end.

Fixpoint str_join (sep : string) (l : list string) : string :=
  match l with
  | [] => ""
  | [s] => s
  | s :: l' => s +:+ sep +:+ str_join sep l'
  end.

Fixpoint str_all (p : Ascii.ascii → bool) (s : string) : bool :=
  match s with
  | EmptyString => true
  | String c s' => p c && str_all p s'
  end.

Fixpoint str_map (f : Ascii.ascii → Ascii.ascii) (s : string) : string :=
  match s with
  | EmptyString => EmptyString
  | String c s' => String (f c) (str_map f s')
  end.

Definition char_in (lo hi c : Ascii.ascii) : bool :=
  (N.leb (Ascii.N_of_ascii lo) (Ascii.N_of_ascii c) && N.leb (Ascii.N_of_ascii c) (Ascii.N_of_ascii hi))%bool.
Definition is_ascii_char (c : Ascii.ascii) : bool := N.ltb (Ascii.N_of_ascii c) 128.
Definition is_ascii_alphanumeric (c : Ascii.ascii) : bool :=
  char_in "0" "9" c || char_in "a" "z" c || char_in "A" "Z" c.
Definition ascii_upper_char (c : Ascii.ascii) : Ascii.ascii :=
  if char_in "a" "z" c then Ascii.ascii_of_N (Ascii.N_of_ascii c - 32) else c.
Definition ascii_lower_char (c : Ascii.ascii) : Ascii.ascii :=
  if char_in "A" "Z" c then Ascii.ascii_of_N (Ascii.N_of_ascii c + 32) else c.
Definition str_upper (s : string) : string := str_map ascii_upper_char s.
Definition str_lower (s : string) : string := str_map ascii_lower_char s.

#[global] Arguments String.append : simpl nomatch.

(** [str::parse] of an unsigned integer: an optional plus sign and decimal
    digits, at most [max]. *)
Definition digit_value (c : Ascii.ascii) : option Z :=
  if char_in "0" "9" c then Some (Z.of_N (Ascii.N_of_ascii c) - 48) else None.

Fixpoint parse_digits (max acc : Z) (s : string) : option Z :=
  match s with
  | EmptyString => Some acc
  | String c s' =>
      d ← digit_value c;
      let acc' := acc * 10 + d in
      if acc' <=? max then parse_digits max acc' s' else None
  end.

Definition parse_uint (max : Z) (s : string) : option Z :=
  let digits := match str_strip_char "+" s with Some r => r | None => s end in
  if bool_decide (digits = EmptyString) then None else parse_digits max 0 digits.

(** [str::parse::<bool>]. *)
Definition parse_bool (s : string) : option bool :=
  if bool_decide (s = "true"%string) then Some true
  else if bool_decide (s = "false"%string) then Some false else None.

(** Lowercase hexadecimal digits. *)
Definition hex_digit (n : Z) : Ascii.ascii :=
  Ascii.ascii_of_N (Z.to_N (if n <? 10 then 48 + n else 87 + n)).

(** [format!("{s:?}")]: the escapes of ASCII text; other bytes are kept. *)
Definition char_debug (c : Ascii.ascii) : string :=
  let n := Z.of_N (Ascii.N_of_ascii c) in
  let bs := "\"%char in
  if n =? 34 then String bs (String c "")
  else if n =? 92 then String bs (String bs "")
  else if n =? 10 then String bs "n"
  else if n =? 13 then String bs "r"
  else if n =? 9 then String bs "t"
  else if n =? 0 then String bs "0"
  else if (n <? 16) then String bs ("u{" +:+ String (hex_digit n) "}")
  else if (n <? 32) || (n =? 127) then
    String bs ("u{" +:+ String (hex_digit (n / 16)) (String (hex_digit (n mod 16)) "}"))
  else String c "".

Fixpoint str_debug_body (s : string) : string :=
  match s with
  | EmptyString => ""
  | String c s' => char_debug c +:+ str_debug_body s'
  end.

Definition double_quote : Ascii.ascii := Ascii.ascii_of_N 34.
Definition str_debug (s : string) : string :=
  String double_quote (str_debug_body s +:+ String double_quote "").

Section strings.
Implicit Types (s a b : string) (c : Ascii.ascii).

Lemma str_app_assoc a b s : (a +:+ b) +:+ s = a +:+ (b +:+ s).
Proof. induction a; simpl; congruence. Qed.

Lemma str_length_app a b : String.length (a +:+ b) = (String.length a + String.length b)%nat.
Proof. induction a; simpl; congruence. Qed.

Lemma str_take_app a b : str_take (String.length a) (a +:+ b) = a.
Proof. induction a; simpl; [by destruct b|congruence]. Qed.

Lemma str_drop_app a b : str_drop (String.length a) (a +:+ b) = b.
Proof. induction a; simpl; done. Qed.

Lemma str_take_drop n s : str_take n s +:+ str_drop n s = s.
Proof. revert s. induction n; intros [|c s]; simpl; try done. by rewrite IHn. Qed.

Lemma str_rsplit_none c s : str_rsplit c s = None ↔ str_contains_char c s = false.
Proof.
  induction s as [|d s IH]; simpl; [done|].
  destruct (str_rsplit c s) as [p|] eqn:E, (bool_decide_reflect (d = c)); simpl; intuition done.
Qed.

Lemma str_rsplit_app c a b :
  str_contains_char c b = false → str_rsplit c (a +:+ String c b) = Some (a, b).
Proof.
  intros Hb. induction a as [|d a IH]; simpl.
  - rewrite (proj2 (str_rsplit_none c b) Hb). by rewrite bool_decide_true.
  - by rewrite IH.
Qed.

Lemma str_rsplit_Some c s p :
  str_rsplit c s = Some p → s = p.1 +:+ String c p.2 ∧ str_contains_char c p.2 = false.
Proof.
  revert p. induction s as [|d s IH]; intros p; simpl; [done|].
  destruct (str_rsplit c s) as [q|] eqn:E.
  - intros [= <-]. destruct (IH q eq_refl) as [-> ?]. done.
  - case_bool_decide; [|done]. intros [= <-]. simpl. subst. split; [done|].
    by apply str_rsplit_none.
Qed.

Lemma str_split_first_cc_app a b :
  str_contains_char ":" a = false →
  str_split_first_cc (a +:+ String ":" (String ":" b)) = Some (a, b).
Proof.
  induction a as [|d a IH]; [done|]. intros Hd. simpl in Hd.
  apply orb_false_iff in Hd as [Hd Ha]. apply bool_decide_eq_false in Hd.
  simpl. rewrite (bool_decide_eq_false_2 (d = _)) by done. by rewrite (IH Ha).
Qed.

Lemma str_split_first_cc_Some s p :
  str_split_first_cc s = Some p → s = p.1 +:+ String ":" (String ":" p.2).
Proof.
  revert p. induction s as [|d s IH]; intros p; simpl; [done|].
  destruct (if bool_decide (d = ":"%char) then _ else _) as [r|] eqn:E.
  - intros [= <-]. case_bool_decide; [subst|done]. destruct s as [|e s]; simpl in *; [done|].
    case_bool_decide; naive_solver.
  - intros (q & Hq & ->)%fmap_Some. simpl. by rewrite <-(IH q Hq).
Qed.

Lemma str_contains_cc_false s : str_contains_cc s = false ↔ str_split_first_cc s = None.
Proof.
  unfold str_contains_cc. rewrite bool_decide_eq_false, <-eq_None_not_Some. done.
Qed.

Lemma str_contains_char_app c a b :
  str_contains_char c (a +:+ b) = str_contains_char c a || str_contains_char c b.
Proof. induction a as [|d a IH]; simpl; [done|]. rewrite IH. by rewrite orb_assoc. Qed.

Lemma str_no_colon_no_cc s : str_contains_char ":" s = false → str_contains_cc s = false.
Proof.
  intros H. apply str_contains_cc_false.
  destruct (str_split_first_cc s) as [p|] eqn:E; [|done].
  apply str_split_first_cc_Some in E. rewrite E in H.
  rewrite !str_contains_char_app in H. simpl in H.
  by rewrite orb_true_r in H.
Qed.

Lemma str_app_inj_length a a' b b' :
  String.length a = String.length a' → a +:+ b = a' +:+ b' → a = a' ∧ b = b'.
Proof.
  revert a'. induction a as [|c a IH]; intros [|c' a']; simpl; try done.
  intros [= Hl] [= -> Heq]. destruct (IH a' Hl Heq) as [-> ->]. done.
Qed.
End strings.

#[export] Hint Rewrite str_length_app str_take_app str_drop_app : rustvello_rw.

(** ** Byte-lexicographic order of strings ([str]'s [Ord]) *)

Fixpoint str_leb (a b : string) : bool :=
  match a, b with
  | EmptyString, _ => true
  | String _ _, EmptyString => false
  | String c a', String d b' =>
      if N.ltb (Ascii.N_of_ascii c) (Ascii.N_of_ascii d) then true
      else if N.eqb (Ascii.N_of_ascii c) (Ascii.N_of_ascii d) then str_leb a' b' else false
  end.

Definition str_le (a b : string) : Prop := str_leb a b = true.

Lemma N_of_ascii_inj c d : Ascii.N_of_ascii c = Ascii.N_of_ascii d → c = d.
Proof. intros H. by rewrite <-(Ascii.ascii_N_embedding c), <-(Ascii.ascii_N_embedding d), H. Qed.

#[export] Instance str_le_total : Total str_le.
Proof.
  intros a. unfold str_le. induction a as [|c a IH]; intros [|d b]; simpl; auto.
  specialize (IH b).
  destruct (N.ltb_spec (Ascii.N_of_ascii c) (Ascii.N_of_ascii d)); [by left|].
  destruct (N.eqb_spec (Ascii.N_of_ascii c) (Ascii.N_of_ascii d)) as [Heq|Hne].
  - rewrite Heq. rewrite N.ltb_irrefl, N.eqb_refl. done.
  - right. by rewrite (proj2 (N.ltb_lt _ _)) by lia.
Qed.

#[export] Instance str_le_trans : Transitive str_le.
Proof.
  intros a. unfold str_le. induction a as [|c a IH]; intros [|d b] [|e r]; simpl; try done.
  intros H1 H2. specialize (IH b r).
  destruct (N.ltb_spec (Ascii.N_of_ascii c) (Ascii.N_of_ascii d)),
    (N.ltb_spec (Ascii.N_of_ascii d) (Ascii.N_of_ascii e)),
    (N.ltb_spec (Ascii.N_of_ascii c) (Ascii.N_of_ascii e)),
    (N.eqb_spec (Ascii.N_of_ascii c) (Ascii.N_of_ascii d)),
    (N.eqb_spec (Ascii.N_of_ascii d) (Ascii.N_of_ascii e)),
    (N.eqb_spec (Ascii.N_of_ascii c) (Ascii.N_of_ascii e)); try done; try lia; auto.
Qed.

#[export] Instance str_le_antisymm : AntiSymm (=) str_le.
Proof.
  intros a. unfold str_le. induction a as [|c a IH]; intros [|d b]; simpl; try done.
  destruct (N.ltb_spec (Ascii.N_of_ascii c) (Ascii.N_of_ascii d)),
    (N.ltb_spec (Ascii.N_of_ascii d) (Ascii.N_of_ascii c)),
    (N.eqb_spec (Ascii.N_of_ascii c) (Ascii.N_of_ascii d)),
    (N.eqb_spec (Ascii.N_of_ascii d) (Ascii.N_of_ascii c)); intros; try done; try lia.
  f_equal; [by apply N_of_ascii_inj|by apply IH].
Qed.

(** ** Stable sorting ([slice::sort_by_key], [slice::sort]) *)

Section sort_by.
Context {A : Type} (leb : A → A → bool).

Fixpoint insert_by (x : A) (l : list A) : list A :=
  match l with
  | [] => [x]
  | y :: l' => if leb x y then x :: y :: l' else y :: insert_by x l'
  end.

Fixpoint sort_by (l : list A) : list A :=
  match l with
  | [] => []
  | x :: l' => insert_by x (sort_by l')
  end.

Lemma insert_by_perm x l : insert_by x l ≡ₚ x :: l.
Proof. induction l as [|y l IH]; simpl; [done|]. destruct (leb x y); [done|]. rewrite IH. apply Permutation_swap. Qed.

Lemma sort_by_perm l : sort_by l ≡ₚ l.
Proof. induction l as [|x l IH]; simpl; [done|]. by rewrite insert_by_perm, IH. Qed.

Definition le_of : relation A := λ x y, leb x y = true.

Lemma insert_by_sorted x l :
  Total le_of → Sorted le_of l → Sorted le_of (insert_by x l).
Proof.
  intros Htot. induction 1 as [|y l Hl IH Hy]; simpl; [by repeat constructor|].
  destruct (leb x y) eqn:E; [by repeat constructor|].
  constructor; [done|]. assert (le_of y x) as Hyx.
  { destruct (Htot y x) as [?|H]; [done|]. unfold le_of in H. congruence. }
  destruct l as [|z l]; simpl in *; [by constructor|].
  destruct (leb x z); constructor; [done|]. by inversion Hy.
Qed.

Lemma sort_by_sorted l : Total le_of → Sorted le_of (sort_by l).
Proof. intros Htot. induction l; simpl; [constructor|]. by apply insert_by_sorted. Qed.

Lemma sort_by_length l : length (sort_by l) = length l.
Proof. by rewrite sort_by_perm. Qed.

Lemma elem_of_sort_by x l : x ∈ sort_by l ↔ x ∈ l.
Proof. by rewrite sort_by_perm. Qed.

Lemma sort_by_proper l1 l2 :
  Total le_of → Transitive le_of → AntiSymm (=) le_of → l1 ≡ₚ l2 → sort_by l1 = sort_by l2.
Proof.
  intros ??? Hp. apply (Sorted_unique le_of); [by apply sort_by_sorted|by apply sort_by_sorted|].
  by rewrite !sort_by_perm.
Qed.
End sort_by.

Definition str_sort : list string → list string := sort_by str_leb.

#[export] Instance str_sort_proper : Proper ((≡ₚ) ==> (=)) str_sort.
Proof.
  intros l1 l2. apply sort_by_proper.
  - exact str_le_total.
  - exact str_le_trans.
  - exact str_le_antisymm.
Qed.

(** ** [Iterator::max_by]: the last of the maximal elements *)

Section max_by.
Context {A : Type} (cmp : A → A → comparison).

Definition later_max (acc y : A) : A := match cmp acc y with Gt => acc | _ => y end.

Definition max_by (l : list A) : option A :=
  match l with
  | [] => None
  | x :: l' => Some (fold_left later_max l' x)
  end.

(** [cmp] compares by an injective-enough key: [cmp x y <> Gt] is a total preorder. *)
Definition cmp_le : relation A := λ x y, cmp x y ≠ Gt.

Lemma fold_later_max_elem l x : fold_left later_max l x ∈ x :: l.
Proof.
  revert x. induction l as [|y l IH]; intros x; simpl; [set_solver|].
  specialize (IH (later_max x y)). unfold later_max in *. destruct (cmp x y); set_solver.
Qed.

Lemma fold_later_max_ge l x :
  Total cmp_le → Transitive cmp_le → ∀ y, y ∈ x :: l → cmp_le y (fold_left later_max l x).
Proof.
  intros Htot Htr. assert (∀ z, cmp_le z z) as Hrefl by (intros z; by destruct (Htot z z)).
  revert x. induction l as [|z l IH]; intros x y; simpl.
  { rewrite list_elem_of_singleton. intros ->. apply Hrefl. }
  assert (cmp_le x (later_max x z) ∧ cmp_le z (later_max x z)) as [H1 H2].
  { unfold later_max. destruct (cmp x z) eqn:E; split; try apply Hrefl;
      try (unfold cmp_le; congruence).
    destruct (Htot z x) as [?|H]; [done|by destruct H]. }
  pose proof (IH (later_max x z) (later_max x z) ltac:(set_solver)) as H3.
  rewrite !elem_of_cons. intros [->|[->|Hy]]; [by etrans|by etrans|].
  apply IH. set_solver.
Qed.

Lemma max_by_Some l m :
  Total cmp_le → Transitive cmp_le → max_by l = Some m → m ∈ l ∧ ∀ y, y ∈ l → cmp_le y m.
Proof.
  intros ??. destruct l as [|x l]; simpl; [done|]. intros [= <-].
  split; [apply fold_later_max_elem|by apply fold_later_max_ge].
Qed.

Lemma max_by_None l : max_by l = None ↔ l = [].
Proof. by destruct l. Qed.
End max_by.

Lemma total_cmp_le a b : cmp_le f64_total_cmp a b ↔ f64_key a ≤ f64_key b.
Proof. unfold cmp_le, f64_total_cmp. rewrite Z.compare_gt_iff. lia. Qed.

#[export] Instance total_cmp_total : Total (cmp_le f64_total_cmp).
Proof. intros a b. rewrite !total_cmp_le. lia. Qed.

#[export] Instance total_cmp_trans : Transitive (cmp_le f64_total_cmp).
Proof. intros a b c. rewrite !total_cmp_le. lia. Qed.

(** ** Iteration over hash maps

    The iteration order of a [HashMap] or [HashSet] is unspecified: [hash_order]
    permutes the contents in an arbitrary way. *)

Class HashOrder := {
  hash_order : ∀ {A : Type}, list A → list A;
  hash_order_perm : ∀ {A : Type} (l : list A), hash_order l ≡ₚ l
}.

(** The order in which the model's own enumeration lists the entries. *)
Definition identity_order : HashOrder :=
  {| hash_order := λ A l, l; hash_order_perm := λ A l, reflexivity l |}.

Section hash_iter.
Context `{HashOrder} `{Countable K} {V : Type}.

Definition map_iter (m : gmap K V) : list (K * V) := hash_order (map_to_list m).
Definition set_iter (X : gset K) : list K := hash_order (elements X).

Lemma elem_of_map_iter (m : gmap K V) k v : (k, v) ∈ map_iter m ↔ m !! k = Some v.
Proof. unfold map_iter. by rewrite hash_order_perm, elem_of_map_to_list. Qed.

Lemma elem_of_set_iter (X : gset K) k : k ∈ set_iter X ↔ k ∈ X.
Proof. unfold set_iter. by rewrite hash_order_perm, elem_of_elements. Qed.

Lemma NoDup_set_iter (X : gset K) : NoDup (set_iter X).
Proof. unfold set_iter. rewrite hash_order_perm. apply NoDup_elements. Qed.

Lemma NoDup_map_iter_fst (m : gmap K V) : NoDup (map_iter m).*1.
Proof. unfold map_iter. rewrite hash_order_perm. apply NoDup_fst_map_to_list. Qed.

Lemma length_set_iter (X : gset K) : length (set_iter X) = size X.
Proof. unfold set_iter. by rewrite hash_order_perm. Qed.

Lemma length_map_iter (m : gmap K V) : length (map_iter m) = size m.
Proof. unfold map_iter. rewrite hash_order_perm. apply length_map_to_list. Qed.

Lemma map_iter_empty : map_iter ∅ = [].
Proof. apply length_zero_iff_nil. by rewrite length_map_iter, map_size_empty. Qed.
End hash_iter.

(** Entries of a [BTreeMap] with string keys, in key order. *)
Definition btree_iter {V : Type} (m : gmap string V) : list (string * V) :=
  sort_by (λ p q, str_leb p.1 q.1) (map_to_list m).

Lemma elem_of_btree_iter {V : Type} (m : gmap string V) k v :
  (k, v) ∈ btree_iter m ↔ m !! k = Some v.
Proof. unfold btree_iter. by rewrite elem_of_sort_by, elem_of_map_to_list. Qed.

Lemma NoDup_btree_iter {V : Type} (m : gmap string V) : NoDup (btree_iter m).
Proof. unfold btree_iter. rewrite sort_by_perm. apply NoDup_map_to_list. Qed.

#[export] Hint Rewrite @elem_of_map_iter @elem_of_set_iter @elem_of_btree_iter
  @elem_of_sort_by : rustvello_rw.

(** ** Generic list facts *)

(** Boolean filter, as [Iterator::filter] with a closure. *)
Definition bfilter {A : Type} (p : A → bool) : list A → list A := List.filter p.

Lemma elem_of_bfilter {A : Type} (p : A → bool) l x : x ∈ bfilter p l ↔ p x = true ∧ x ∈ l.
Proof. unfold bfilter. rewrite !list_elem_of_In, filter_In. tauto. Qed.

Lemma NoDup_bfilter {A : Type} (p : A → bool) l : NoDup l → NoDup (bfilter p l).
Proof.
  induction 1 as [|x l Hx Hl IH]; [constructor|]. unfold bfilter in *. simpl.
  destruct (p x); [|done]. constructor; [|done]. by intros [_ ?]%elem_of_bfilter.
Qed.

Lemma bfilter_perm {A : Type} (p : A → bool) l1 l2 : l1 ≡ₚ l2 → bfilter p l1 ≡ₚ bfilter p l2.
Proof.
  intros Hp. unfold bfilter. induction Hp; simpl.
  - done.
  - destruct (p x); by rewrite IHHp.
  - destruct (p x), (p y); try done. apply Permutation_swap.
  - by etrans.
Qed.

#[export] Instance bfilter_proper {A : Type} (p : A → bool) :
  Proper ((≡ₚ) ==> (≡ₚ)) (bfilter p).
Proof. intros l1 l2. apply bfilter_perm. Qed.

#[export] Hint Rewrite @elem_of_bfilter : rustvello_rw.

Lemma sublist_take_drop {A : Type} n k (l : list A) : take k (drop n l) `sublist_of` l.
Proof. etrans; [apply sublist_take|apply sublist_drop]. Qed.

Lemma NoDup_fmap_bfilter {A B : Type} (f : A → B) (p : A → bool) l :
  NoDup (f <$> l) → NoDup (f <$> bfilter p l).
Proof.
  induction l as [|x l IH]; unfold bfilter in *; simpl; [done|].
  intros Hl. inversion Hl as [|? ? Hx Hl']; subst. destruct (p x); [|by apply IH].
  simpl. constructor; [|by apply IH].
  intros (y & Hy & [_ Hin]%elem_of_bfilter)%list_elem_of_fmap. apply Hx, list_elem_of_fmap. eauto.
Qed.

(** ** A codec over binary digits, for demonstrations *)
Fixpoint digits_of (p : positive) : string :=
  match p with
  | xH => EmptyString
  | xO p' => String "0" (digits_of p')
  | xI p' => String "1" (digits_of p')
  end.

Fixpoint of_digits (s : string) : positive :=
  match s with
  | EmptyString => xH
  | String "1" s' => xI (of_digits s')
  | String _ s' => xO (of_digits s')
  end.

Lemma of_digits_of p : of_digits (digits_of p) = p.
Proof. induction p as [p IH|p IH|]; simpl; by rewrite ?IH. Qed.
