(* ===== verification/F64.v ===== *)
(** * Binary64 arithmetic

    The float operations of the engine, on bit patterns: a pattern is decoded to
    a [spec_float] of the Standard Library, whose operations round to nearest,
    ties to even, as IEEE 754 prescribes.  Remainder, rounding to an integer and
    the saturating casts are computed exactly. *)
From Stdlib Require Import SpecFloat.
From S2P Require Import Prelude.

Definition f64_prec : Z := 53.
Definition f64_emax : Z := 1024.

(** The number a pattern stands for. *)
Definition f64_decode (b : f64) : spec_float :=
  let m := Z.land b 4503599627370495 in
  let e := f64_exponent b in
  if e =? 2047 then if m =? 0 then S754_infinity (f64_sign b) else S754_nan
  else if e =? 0 then
    match m with Zpos p => S754_finite (f64_sign b) p (-1074) | _ => S754_zero (f64_sign b) end
  else match m + 4503599627370496 with
       | Zpos p => S754_finite (f64_sign b) p (e - 1075)
       | _ => S754_zero (f64_sign b)
       end.

Definition f64_nan : f64 := 0x7FF8000000000000.
Definition sign_bit (s : bool) : Z := if s then 0x8000000000000000 else 0.

(** The pattern of a number in canonical form. *)
Definition f64_encode (x : spec_float) : f64 :=
  match x with
  | S754_zero s => sign_bit s
  | S754_infinity s => sign_bit s + 0x7FF0000000000000
  | S754_nan => f64_nan
  | S754_finite s m e =>
      if Zpos m <? 4503599627370496 then sign_bit s + Zpos m
      else sign_bit s + Z.shiftl (e + 1075) 52 + (Zpos m - 4503599627370496)
  end.

(** [n as f64] of an unsigned integer. *)
Definition f64_of_u64 (n : Z) : f64 := f64_encode (binary_normalize f64_prec f64_emax n 0 false).

Definition f64_mul (a b : f64) : f64 := f64_encode (SFmul f64_prec f64_emax (f64_decode a) (f64_decode b)).
Definition f64_add (a b : f64) : f64 := f64_encode (SFadd f64_prec f64_emax (f64_decode a) (f64_decode b)).
Definition f64_sub (a b : f64) : f64 := f64_encode (SFsub f64_prec f64_emax (f64_decode a) (f64_decode b)).
Definition f64_div (a b : f64) : f64 := f64_encode (SFdiv f64_prec f64_emax (f64_decode a) (f64_decode b)).

(** [<] and [<=]: false when an argument is a NaN. *)
Definition f64_ltb (a b : f64) : bool := SFltb (f64_decode a) (f64_decode b).
Definition f64_leb (a b : f64) : bool := SFleb (f64_decode a) (f64_decode b).

(** [f64::min] ignores a NaN. *)
Definition f64_min (a b : f64) : f64 :=
  if f64_is_nan a then b else if f64_is_nan b then a else if f64_ltb b a then b else a.

(** [f64::clamp] keeps a NaN. *)
Definition f64_clamp (x lo hi : f64) : f64 :=
  if f64_ltb x lo then lo else if f64_ltb hi x then hi else x.

(** A signed magnitude [m * 2^e]. *)
Definition f64_signed (s : bool) (m e : Z) : f64 :=
  if m =? 0 then sign_bit s
  else f64_encode (binary_normalize f64_prec f64_emax (if s then - m else m) e s).

(** [%]: the remainder of the exact quotient rounded to zero. *)
Definition f64_rem (a b : f64) : f64 :=
  match f64_decode a, f64_decode b with
  | S754_nan, _ | _, S754_nan | S754_infinity _, _ | _, S754_zero _ => f64_nan
  | S754_zero s, _ => sign_bit s
  | S754_finite _ _ _, S754_infinity _ => a
  | S754_finite s m e, S754_finite _ m' e' =>
      let low := Z.min e e' in
      f64_signed s (Z.shiftl (Zpos m) (e - low) mod Z.shiftl (Zpos m') (e' - low)) low
  end.

(** [f64::round]: to the nearest integer, ties away from zero. *)
Definition f64_round (a : f64) : f64 :=
  match f64_decode a with
  | S754_finite s m e =>
      if 0 <=? e then a
      else let d := Z.shiftl 1 (- e) in f64_signed s ((2 * Zpos m + d) / (2 * d)) 0
  | _ => a
  end.

(** [x as u64] saturates; a NaN is zero. *)
Definition u64_of_f64 (a : f64) : Z :=
  match f64_decode a with
  | S754_finite false m e => Z.min u64_max (Z.shiftl (Zpos m) e)
  | S754_infinity false => u64_max
  | _ => 0
  end.

(** [f64::powi]: the precision of the result is unspecified. *)
Class FloatPowi := { f64_powi : f64 → Z → f64 }.

Lemma u64_of_f64_range a : 0 ≤ u64_of_f64 a ≤ u64_max.
Proof.
  unfold u64_of_f64, u64_max. destruct (f64_decode a) as [s|[]| |[] m e]; try lia.
  assert (0 ≤ Z.shiftl (Z.pos m) e) by (by apply Z.shiftl_nonneg). lia.
Qed.

Example f64_arithmetic :
  f64_mul (f64_of_u64 7200) (f64_div (f64_of_u64 1) (f64_of_u64 3)) = f64_of_u64 2400 ∧
  f64_rem (f64_of_u64 305) (f64_of_u64 60) = f64_of_u64 5 ∧
  u64_of_f64 (f64_round (f64_div (f64_of_u64 5) (f64_of_u64 2))) = 3 ∧
  f64_encode (f64_decode 0x3FB999999999999A) = 0x3FB999999999999A ∧
  f64_add 0x3FB999999999999A 0x3FC999999999999A = 0x3FD3333333333334.
Proof. vm_compute. done. Qed.
