(* ===== verification/Json.v ===== *)
(** * JSON values

    [serde_json::Value] as the engine matches it: the constructors are those of
    the crate, an object lists its fields in key order ([Map] is a [BTreeMap]).
    Numbers, the parser and the compact printer are parameters.  [value_eqb] is
    the derived [==], and decides equality. *)
From stdpp Require Import pretty.
From S2P Require Import Prelude.

(** [serde_json::Number]. *)
Class JsonNumber := {
  number : Type;
  #[global] number_eq_dec :: EqDecision number;
  number_display : number → string
}.

Unset Elimination Schemes.
Inductive Value `{JsonNumber} : Type :=
| VNull
| VBool (b : bool)
| VNumber (n : number)
| VString (s : string)
| VArray (l : list Value)
| VObject (fields : list (string * Value)).
Set Elimination Schemes.

(** The text formats: [serde_json::from_str::<Value>], [serde_json::to_string],
    which may fail, and [Value::to_string]. *)
Class JsonValue := {
  #[global] json_number :: JsonNumber;
  json_from_str : string → option Value;
  json_to_string : Value → option string;
  json_display : Value → string
}.

Abbreviation json_value := Value (only parsing).

(** [Value::String]. *)
Definition json_text `{JsonValue} (s : string) : Value := VString s.

Section value.
Context `{JsonNumber}.

Definition Value_ind (P : Value → Prop) (Hnull : P VNull) (Hbool : ∀ b, P (VBool b))
    (Hnumber : ∀ n, P (VNumber n)) (Hstring : ∀ s, P (VString s))
    (Harray : ∀ l, Forall P l → P (VArray l))
    (Hobject : ∀ fields, Forall (λ p, P p.2) fields → P (VObject fields)) : ∀ v, P v :=
  fix go v :=
    match v with
    | VNull => Hnull
    | VBool b => Hbool b
    | VNumber n => Hnumber n
    | VString s => Hstring s
    | VArray l => Harray l ((fix all l : Forall P l :=
        match l with
        | [] => List.Forall_nil _
        | x :: l' => List.Forall_cons _ _ _ (go x) (all l')
        end) l)
    | VObject m => Hobject m ((fix all m : Forall (λ p, P p.2) m :=
        match m with
        | [] => List.Forall_nil _
        | p :: m' => List.Forall_cons _ _ _ (go p.2) (all m')
        end) m)
    end.

(** The derived [==]. *)
Fixpoint value_eqb (v w : Value) : bool :=
  match v, w with
  | VNull, VNull => true
  | VBool a, VBool b => Bool.eqb a b
  | VNumber a, VNumber b => bool_decide (a = b)
  | VString a, VString b => bool_decide (a = b)
  | VArray l, VArray l' =>
      (fix all l l' :=
         match l, l' with
         | [], [] => true
         | x :: l, y :: l' => value_eqb x y && all l l'
         | _, _ => false
         end) l l'
  | VObject m, VObject m' =>
      (fix all m m' :=
         match m, m' with
         | [], [] => true
         | p :: m, q :: m' => bool_decide (p.1 = q.1) && value_eqb p.2 q.2 && all m m'
         | _, _ => false
         end) m m'
  | _, _ => false
  end.

Lemma value_eqb_spec v w : value_eqb v w = true ↔ v = w.
Proof.
  revert w. induction v as [|b|n|s|l IH|m IH] using Value_ind; intros w; destruct w as [|b'|n'|s'|l'|m'];
    simpl; try (split; congruence).
  - rewrite eqb_true_iff. split; congruence.
  - rewrite bool_decide_eq_true. split; congruence.
  - rewrite bool_decide_eq_true. split; congruence.
  - revert l'. induction IH as [|x l Hx Hl IH]; intros [|y l']; simpl; try (split; congruence).
    rewrite andb_true_iff, Hx. specialize (IH l'). split.
    + intros [-> ?]. by apply IH in H0 as [= ->].
    + intros [= -> ->]. split; [done|]. by apply IH.
  - revert m'. induction IH as [|[k x] m Hx Hm IH]; intros [|[k' y] m']; simpl in *; try (split; congruence).
    rewrite !andb_true_iff, bool_decide_eq_true, Hx. specialize (IH m'). split.
    + intros [[-> ->] ?]. by apply IH in H0 as [= ->].
    + intros [= -> -> ->]. split; [done|]. by apply IH.
Qed.

#[export] Instance value_eq_dec : EqDecision Value.
Proof.
  refine (λ v w, match value_eqb v w as b return (value_eqb v w = b → Decision (v = w)) with
    | true => λ E, left (proj1 (value_eqb_spec v w) E)
    | false => λ E, right (λ F, _)
    end eq_refl).
  apply value_eqb_spec in F. congruence.
Defined.

(** [value.as_object()?.get(key)]: the map of an object has each key once. *)
Fixpoint field (k : string) (m : list (string * Value)) : option Value :=
  match m with
  | [] => None
  | (k', v) :: m' => if bool_decide (k = k') then Some v else field k m'
  end.

Definition as_object (v : Value) : option (list (string * Value)) :=
  match v with VObject m => Some m | _ => None end.
End value.

(** Numbers as integers, and texts that are all JSON strings: a model of the
    classes. *)
Definition integer_number : JsonNumber :=
  {| number := Z; number_display := λ n, pretty n |}.

Definition text_json : JsonValue :=
  {| json_number := integer_number;
     json_from_str s := Some (VString s);
     json_to_string v := match v with VString s => Some s | _ => None end;
     json_display v := match v with VString s => s | _ => "" end |}.
