(* ===== verification/Effects.v ===== *)
(** * Effects: outcomes, the clock, and the state-and-error monad

    Rust code of the engine returns [Result], panics, reads the wall clock and
    mutates the state behind a lock.  An operation on a state [S] is a function
    [M E S A]: it reads the clock, may change the state, and ends in an
    [outcome].  A change made before an early return ([?]) is kept, as in Rust,
    so the state is returned with every outcome. *)
From S2P Require Import Prelude.

(** ** Outcomes *)

Inductive outcome (E A : Type) : Type :=
| Ok (a : A)
| Err (e : E)
| Panic (msg : string).
Arguments Ok {E A} a.
Arguments Err {E A} e.
Arguments Panic {E A} msg.

Definition is_ok {E A} (o : outcome E A) : bool := match o with Ok _ => true | _ => false end.
Definition is_panic {E A} (o : outcome E A) : bool := match o with Panic _ => true | _ => false end.

#[export] Instance outcome_ret {E} : MRet (outcome E) := λ A a, Ok a.
#[export] Instance outcome_bind {E} : MBind (outcome E) := λ A B f o,
  match o with Ok a => f a | Err e => Err e | Panic m => Panic m end.

(** [Result::map_err]. *)
Definition map_err {E F A} (f : E → F) (o : outcome E A) : outcome F A :=
  match o with Ok a => Ok a | Err e => Err (f e) | Panic m => Panic m end.

(** [Option::ok_or]. *)
Definition ok_or {E A} (o : option A) (e : E) : outcome E A :=
  match o with Some a => Ok a | None => Err e end.

#[export] Instance outcome_eq_dec `{EqDecision E, EqDecision A} : EqDecision (outcome E A).
Proof. solve_decision. Defined.

Lemma bind_Ok {E A B} (o : outcome E A) (f : A → outcome E B) b :
  o ≫= f = Ok b ↔ ∃ a, o = Ok a ∧ f a = Ok b.
Proof. destruct o; simpl; naive_solver. Qed.

(** ** The wall clock

    [Utc::now()] reads the next value of an arbitrary sequence of instants.
    An instant is a number of nanoseconds. *)

Abbreviation DateTime := Z (only parsing).

Record Clock := mkClock { readings : nat → DateTime; tick : nat }.

Definition clock_next (c : Clock) : DateTime * Clock :=
  (readings c (tick c), {| readings := readings c; tick := S (tick c) |}).

(** A clock that shows one instant for ever. *)
Definition frozen_clock (t : DateTime) : Clock := {| readings := λ _, t; tick := 0 |}.

(** [chrono] durations.  [seconds] is [chrono::Duration::seconds], which panics
    ([None]) out of bounds; [before now d] is [now - d], which panics ([None])
    when the instant is out of [chrono]'s range; [elapsed_seconds a b] is
    [(a - b).num_seconds()].  The laws are the documented behaviour. *)
Class Chrono := {
  Duration : Type;
  datetime_min : DateTime;
  datetime_max : DateTime;
  seconds : Z → option Duration;
  before : DateTime → Duration → option DateTime;
  elapsed_seconds : DateTime → DateTime → Z;
  seconds_bounds n : is_Some (seconds n) ↔ - (i64_max / 1000) ≤ n ≤ i64_max / 1000;
  before_seconds n d t : seconds n = Some d →
    before t d = if bool_decide (datetime_min ≤ t - n * 1000000000 ≤ datetime_max)
                 then Some (t - n * 1000000000) else None;
  elapsed_seconds_quot a b : elapsed_seconds a b = Z.quot (a - b) 1000000000
}.

(** A model of the laws, with durations in whole seconds. *)
Definition chrono_in_seconds : Chrono.
Proof.
  refine {|
    Duration := Z;
    datetime_min := -8334601228800 * 1000000000;
    datetime_max := 8210266876800 * 1000000000 - 1;
    seconds n := if decide (- (i64_max / 1000) ≤ n ≤ i64_max / 1000) then Some n else None;
    before t d :=
      if bool_decide (-8334601228800 * 1000000000 ≤ t - d * 1000000000
                      ≤ 8210266876800 * 1000000000 - 1)
      then Some (t - d * 1000000000) else None;
    elapsed_seconds a b := Z.quot (a - b) 1000000000
  |}.
  - intros n. case_decide; split; intros; try done; eauto.
  - intros n d t. case_decide; naive_solver.
  - done.
Defined.

(** [now - chrono::Duration::seconds(n)]: [None] is a panic. *)
Definition seconds_before `{Chrono} (now : DateTime) (n : Z) : option DateTime :=
  d ← seconds n; before now d.

Lemma seconds_before_Some `{Chrono} now n t : seconds_before now n = Some t → t = now - n * 1000000000.
Proof.
  unfold seconds_before. intros (d & Hd & Ht)%bind_Some.
  rewrite (before_seconds _ _ _ Hd) in Ht. case_bool_decide; naive_solver.
Qed.

Lemma seconds_before_overflow `{Chrono} now n : i64_max / 1000 < n → seconds_before now n = None.
Proof.
  intros Hn. unfold seconds_before. destruct (seconds n) as [d|] eqn:E; [|done].
  assert (is_Some (seconds n)) as Hs by (rewrite E; eauto). apply seconds_bounds in Hs. lia.
Qed.

(** ** Stateful operations *)

Definition M (E S A : Type) : Type := Clock → S → outcome E A * Clock * S.

Section monad.
Context {E S : Type}.

#[export] Instance M_ret : MRet (M E S) := λ A a c s, (Ok a, c, s).
#[export] Instance M_bind : MBind (M E S) := λ A B f m c s,
  match m c s with
  | (Ok a, c', s') => f a c' s'
  | (Err e, c', s') => (Err e, c', s')
  | (Panic p, c', s') => (Panic p, c', s')
  end.

Definition get : M E S S := λ c s, (Ok s, c, s).
Definition gets {A} (f : S → A) : M E S A := λ c s, (Ok (f s), c, s).
Definition put (s' : S) : M E S unit := λ c _, (Ok tt, c, s').
Definition modify (f : S → S) : M E S unit := λ c s, (Ok tt, c, f s).
Definition throw {A} (e : E) : M E S A := λ c s, (Err e, c, s).
Definition panic {A} (p : string) : M E S A := λ c s, (Panic p, c, s).
Definition lift {A} (o : outcome E A) : M E S A := λ c s, (o, c, s).
Definition utc_now : M E S DateTime := λ c s,
  (Ok (clock_next c).1, (clock_next c).2, s).

(** A pure step that reads the clock only when it succeeds. *)
Definition lift_now {A} (f : DateTime → outcome E A) : M E S A := λ c s,
  match f (clock_next c).1 with
  | Ok a => (Ok a, (clock_next c).2, s)
  | r => (r, c, s)
  end.

(** [match op.await { Ok(a) => .., Err(e) => .. }]: a panic is not caught. *)
Definition attempt {A} (m : M E S A) : M E S (A + E) := λ c s,
  match m c s with
  | (Ok a, c', s') => (Ok (inl a), c', s')
  | (Err e, c', s') => (Ok (inr e), c', s')
  | (Panic p, c', s') => (Panic p, c', s')
  end.

(** [for x in l { f(x).await?; }]. *)
Fixpoint for_each {A} (f : A → M E S unit) (l : list A) : M E S unit :=
  match l with
  | [] => mret tt
  | x :: l' => f x ≫= λ _, for_each f l'
  end.

(** [for x in l { acc = f(acc, x).await?; }]. *)
Fixpoint for_fold {A B} (f : B → A → M E S B) (acc : B) (l : list A) : M E S B :=
  match l with
  | [] => mret acc
  | x :: l' => f acc x ≫= λ acc', for_fold f acc' l'
  end.

Definition unwrap_or_panic {A} (o : option A) (msg : string) : M E S A :=
  match o with Some a => mret a | None => panic msg end.
End monad.

(** An operation on a component of a larger state. *)
Definition zoom {E S T A} (get : T → S) (set : S → T → T) (m : M E S A) : M E T A := λ c t,
  match m c (get t) with (r, c', s') => (r, c', set s' t) end.

(** [iter.filter(f)] where the closure may panic ([None]). *)
Fixpoint filter_panicking {A} (f : A → option bool) (l : list A) : option (list A) :=
  match l with
  | [] => Some []
  | x :: l' => b ← f x; r ← filter_panicking f l'; Some (if b : bool then x :: r else r)
  end.

Lemma filter_panicking_Some {A} (f : A → option bool) l r :
  filter_panicking f l = Some r → ∀ x, x ∈ r ↔ x ∈ l ∧ f x = Some true.
Proof.
  revert r. induction l as [|y l IH]; intros r; simpl.
  { intros [= <-] x. set_solver. }
  intros (b & Hb & (r' & Hr' & [= <-])%bind_Some)%bind_Some x.
  destruct b; rewrite ?elem_of_cons, (IH r' Hr'); naive_solver.
Qed.

(** The three parts of a run. *)
Definition result_of {E S A} (m : M E S A) (c : Clock) (s : S) : outcome E A := (m c s).1.1.
Definition state_after {E S A} (m : M E S A) (c : Clock) (s : S) : S := (m c s).2.

(** Runs of a sequence, by the run of its first part. *)
Lemma bind_run {E S A B} (m : M E S A) (f : A → M E S B) c s a c' s' :
  m c s = (Ok a, c', s') → (m ≫= f) c s = f a c' s'.
Proof. unfold mbind, M_bind. by intros ->. Qed.

Lemma bind_Ok_run {E S A B} (m : M E S A) (f : A → M E S B) c s b c' s' :
  (m ≫= f) c s = (Ok b, c', s') → ∃ a c1 s1, m c s = (Ok a, c1, s1) ∧ f a c1 s1 = (Ok b, c', s').
Proof.
  unfold mbind, M_bind. destruct (m c s) as [[[a|e|p] c1] s1]; intros Hr; simplify_eq; eauto 10.
Qed.

Lemma bind_assoc_run {E S A B C} (m : M E S A) (f : A → M E S B) (g : B → M E S C) c s :
  (m ≫= λ a, f a ≫= g) c s = ((m ≫= f) ≫= g) c s.
Proof. unfold mbind, M_bind. by destruct (m c s) as [[[a|e|p] c1] s1]. Qed.

(** ** Relational reasoning: [respects R m] says every run of [m], whatever its
    outcome, relates the state before to the state after by [R].  With a
    preorder [R] this covers invariants ([R s s' := I s → I s']), frames and
    monotonicity alike. *)

Definition respects {E S A} (R : relation S) (m : M E S A) : Prop :=
  ∀ c s, R s (state_after m c s).

(** The preorder of an invariant. *)
Definition keeps {S} (I : S → Prop) : relation S := λ s s', I s → I s'.

#[export] Instance keeps_preorder {S} (I : S → Prop) : PreOrder (keeps I).
Proof. split; unfold keeps; repeat intro; auto. Qed.

Section respects.
Context {E S : Type} (R : relation S) `{!PreOrder R}.

Lemma respects_ret {A} (a : A) : respects (E := E) R (mret a).
Proof. intros c s. reflexivity. Qed.

Lemma respects_bind {A B} (m : M E S A) (f : A → M E S B) :
  respects R m → (∀ a, respects R (f a)) → respects R (m ≫= f).
Proof.
  intros Hm Hf c s. specialize (Hm c s). unfold state_after in *. simpl.
  unfold mbind, M_bind. destruct (m c s) as [[[a|e|p] c'] s']; simpl in *; [|done|done].
  etrans; [done|]. apply (Hf a c' s').
Qed.

Lemma respects_get : respects (E := E) R get.
Proof. intros c s. reflexivity. Qed.
Lemma respects_gets {A} (f : S → A) : respects (E := E) R (gets f).
Proof. intros c s. reflexivity. Qed.
Lemma respects_throw {A} (e : E) : respects (A := A) R (throw e).
Proof. intros c s. reflexivity. Qed.
Lemma respects_panic {A} p : respects (E := E) (A := A) R (panic p).
Proof. intros c s. reflexivity. Qed.
Lemma respects_lift {A} (o : outcome E A) : respects R (lift o).
Proof. intros c s. reflexivity. Qed.
Lemma respects_utc_now : respects (E := E) R utc_now.
Proof. intros c s. reflexivity. Qed.
Lemma respects_lift_now {A} (f : DateTime → outcome E A) : respects R (lift_now f).
Proof. intros c s. unfold state_after, lift_now. destruct (f _); reflexivity. Qed.
Lemma respects_unwrap {A} (o : option A) p : respects (E := E) R (unwrap_or_panic o p).
Proof. destruct o; intros c s; reflexivity. Qed.

Lemma respects_modify f : (∀ s, R s (f s)) → respects (E := E) R (modify f).
Proof. intros H c s. apply H. Qed.

Lemma respects_attempt {A} (m : M E S A) : respects R m → respects R (attempt m).
Proof.
  intros Hm c s. specialize (Hm c s). unfold state_after, attempt in *.
  by destruct (m c s) as [[[a|e|p] c'] s'].
Qed.

Lemma respects_for_each {A} (f : A → M E S unit) l :
  (∀ x, respects R (f x)) → respects R (for_each f l).
Proof.
  intros Hf. induction l as [|x l IH]; simpl; [apply respects_ret|].
  apply respects_bind; auto.
Qed.

Lemma respects_for_fold_in {A B} (f : B → A → M E S B) acc l :
  (∀ b x, x ∈ l → respects R (f b x)) → respects R (for_fold f acc l).
Proof.
  revert acc. induction l as [|x l IH]; intros acc Hf; simpl; [apply respects_ret|].
  apply respects_bind; [apply Hf; by left|]. intros b. apply IH. intros b' y Hy. apply Hf. by right.
Qed.

Lemma respects_for_fold {A B} (f : B → A → M E S B) acc l :
  (∀ b x, respects R (f b x)) → respects R (for_fold f acc l).
Proof. intros Hf. by apply respects_for_fold_in. Qed.
End respects.

Lemma respects_zoom {E S T A} (R : relation S) (R' : relation T) get set (m : M E S A) :
  (∀ t s', R (get t) s' → R' t (set s' t)) → respects R m → respects R' (zoom get set m).
Proof.
  intros H Hm c t. specialize (Hm c (get t)). unfold state_after, zoom in *.
  destruct (m c (get t)) as [[r c'] s']. by apply H.
Qed.

(** A read-only operation leaves the state alone. *)
Definition read_only {E S A} (m : M E S A) : Prop := respects (=) m.

Lemma read_only_respects {E S A} (R : relation S) `{!PreOrder R} (m : M E S A) :
  read_only m → respects R m.
Proof. intros H c s. rewrite <-(H c s). reflexivity. Qed.

#[export] Hint Resolve respects_ret respects_get respects_gets respects_throw respects_panic
  respects_lift respects_lift_now respects_utc_now respects_unwrap : respects.

(** Walks through a monadic program down to its calls and state changes. *)
Ltac respects_step :=
  match goal with
  | |- respects _ (mbind _ _) => apply respects_bind; [try apply _| |intros ?]
  | |- respects _ (for_each _ _) => apply respects_for_each; [try apply _|intros ?]
  | |- respects _ (for_fold _ _ _) => apply respects_for_fold; [try apply _|intros ? ?]
  | |- respects _ (attempt _) => apply respects_attempt
  | |- respects _ (mret _) => apply respects_ret; try apply _
  | |- respects _ (throw _) => apply respects_throw; try apply _
  | |- respects _ (panic _) => apply respects_panic; try apply _
  | |- respects _ (lift _) => apply respects_lift; try apply _
  | |- respects _ (lift_now _) => apply respects_lift_now; try apply _
  | |- respects _ get => apply respects_get; try apply _
  | |- respects _ (gets _) => apply respects_gets; try apply _
  | |- respects _ utc_now => apply respects_utc_now; try apply _
  | |- respects _ (unwrap_or_panic _ _) => apply respects_unwrap; try apply _
  | |- respects _ (match ?x with _ => _ end) => destruct x
  end.
Ltac solve_respects := repeat (respects_step || (solve [auto with respects])).

(** ** Outcome reasoning: [triple P m Q] relates the starting state, the
    outcome and the final state of every run. *)

Definition triple {E S A} (P : S → Prop) (m : M E S A) (Q : outcome E A → S → Prop) : Prop :=
  ∀ c s, P s → Q (result_of m c s) (state_after m c s).

Lemma triple_bind {E S A B} (P : S → Prop) (m : M E S A) (f : A → M E S B) Q R :
  triple P m Q → (∀ a, triple (Q (Ok a)) (f a) R) →
  (∀ e s, Q (Err e) s → R (Err e) s) → (∀ p s, Q (Panic p) s → R (Panic p) s) →
  triple P (m ≫= f) R.
Proof.
  intros Hm Hf He Hp c s HP. specialize (Hm c s HP).
  unfold result_of, state_after in *. unfold mbind, M_bind.
  destruct (m c s) as [[[a|e|p] c'] s']; simpl in *; [|auto|auto].
  apply (Hf a c' s' Hm).
Qed.

Lemma triple_conseq {E S A} (P P' : S → Prop) (m : M E S A) (Q Q' : outcome E A → S → Prop) :
  triple P m Q → (∀ s, P' s → P s) → (∀ r s, Q r s → Q' r s) → triple P' m Q'.
Proof. intros Hm HP HQ c s Hs. apply HQ, Hm, HP, Hs. Qed.
