(* ===== verification/Identifiers.v ===== *)
(** * Identifiers: task, call, invocation and runner ids

    Models [rustvello-proto/src/identifiers.rs]: the packed representation of
    [TaskId], its validating constructors, the textual forms of task and call
    ids and their parsers.  Each message text of a parse error is a constructor
    carrying the values the message shows. *)
From S2P Require Import Prelude Effects.

(** ** Languages and executors *)

(* @src rustvello-proto/src/identifiers.rs 12-18 TaskLanguage *)
Inductive TaskLanguage := Rust | Python.

#[export] Instance TaskLanguage_eq_dec : EqDecision TaskLanguage.
Proof. solve_decision. Defined.

#[export] Instance TaskLanguage_countable : Countable TaskLanguage.
Proof.
  refine (inj_countable' (λ l, bool_decide (l = Rust)) (λ b : bool, if b then Rust else Python) _).
  by intros [].
Defined.

(* @src rustvello-proto/src/identifiers.rs 20-30 TaskLanguage::as_str *)
Definition language_as_str (l : TaskLanguage) : string :=
  match l with Rust => "rust" | Python => "python" end.

(** The messages of [ParseTaskIdError]. *)
(* @src rustvello-proto/src/identifiers.rs 267-275 ParseTaskIdError *)
Inductive ParseTaskIdError :=
| UnsupportedLanguage (value : string)
| UnsupportedExecutorKind (value : string)
| NameEmpty
| NameInvalid (name : string)
| ModuleEmpty
| ModuleInvalid (module : string)
| EmptyTaskIdString
| EmptyLanguage
| NoDotSeparator (s : string)
| EmptyModuleIn (s : string)
| EmptyNameIn (s : string).

#[export] Instance ParseTaskIdError_eq_dec : EqDecision ParseTaskIdError.
Proof. solve_decision. Defined.

(* @src rustvello-proto/src/identifiers.rs 38-50 TaskLanguage::from_str *)
Definition language_from_str (value : string) : outcome ParseTaskIdError TaskLanguage :=
  if decide (value = "rust") then Ok Rust
  else if decide (value = "Rust") then Ok Rust
  else if decide (value = "python") then Ok Python
  else if decide (value = "Python") then Ok Python
  else Err (UnsupportedLanguage value).

(* @src rustvello-proto/src/identifiers.rs 53-62 ExecutorKind *)
Inductive ExecutorKind := Tokio | TokioBlocking | Rayon | PythonExecutor.

(* @src rustvello-proto/src/identifiers.rs 64-73 ExecutorKind::as_str *)
Definition executor_as_str (k : ExecutorKind) : string :=
  match k with
  | Tokio => "tokio"
  | TokioBlocking => "tokio_blocking"
  | Rayon => "rayon"
  | PythonExecutor => "python"
  end.

(* @src rustvello-proto/src/identifiers.rs 81-95 ExecutorKind::from_str *)
Definition executor_from_str (value : string) : outcome ParseTaskIdError ExecutorKind :=
  if decide (value = "tokio") then Ok Tokio
  else if decide (value = "tokio_blocking" ∨ value = "tokio-blocking") then Ok TokioBlocking
  else if decide (value = "rayon") then Ok Rayon
  else if decide (value = "python") then Ok PythonExecutor
  else Err (UnsupportedExecutorKind value).

(** ** Task ids *)

(* @src rustvello-proto/src/identifiers.rs 97-117 TaskId *)
Record TaskId := mkTaskId {
  tid_language : TaskLanguage;
  tid_packed : string;
  tid_module_end : nat
}.

#[export] Instance TaskId_eq_dec : EqDecision TaskId.
Proof. solve_decision. Defined.

#[export] Instance TaskId_countable : Countable TaskId.
Proof.
  refine (inj_countable' (λ t, (tid_language t, tid_packed t, tid_module_end t))
    (λ p, mkTaskId p.1.1 p.1.2 p.2) _).
  by intros [].
Defined.

(** Asserts that the length of the module fits the [u16] offset. *)
(* @src rustvello-proto/src/identifiers.rs 120-138 TaskId::from_parts *)
Definition task_id_from_parts {E} (language : TaskLanguage) (module name : string) : outcome E TaskId :=
  if Z.of_nat (String.length module) <=? u16_max
  then Ok {| tid_language := language; tid_packed := module +:+ name;
             tid_module_end := String.length module |}
  else Panic "TaskId module exceeds u16::MAX bytes".

(* @src rustvello-proto/src/identifiers.rs 170-197 TaskId::try_for_language *)
Definition try_for_language (language : TaskLanguage) (module name : string)
    : outcome ParseTaskIdError TaskId :=
  if decide (name = "") then Err NameEmpty
  else if str_contains_char "." name || str_contains_cc name then Err (NameInvalid name)
  else if decide (module = "") then Err ModuleEmpty
  else if str_contains_cc module then Err (ModuleInvalid module)
  else task_id_from_parts language module name.

(* @src rustvello-proto/src/identifiers.rs 151-159 TaskId::try_new *)
Definition task_id_try_new (module name : string) : outcome ParseTaskIdError TaskId :=
  try_for_language Rust module name.

(** Unwraps: every error is a panic. *)
(* @src rustvello-proto/src/identifiers.rs 161-168 TaskId::for_language *)
Definition task_id_for_language {E} (language : TaskLanguage) (module name : string) : outcome E TaskId :=
  match try_for_language language module name with
  | Ok t => Ok t
  | Err _ => Panic "invalid TaskId"
  | Panic p => Panic p
  end.

(* @src rustvello-proto/src/identifiers.rs 140-149 TaskId::new *)
Definition task_id_new {E} (module name : string) : outcome E TaskId :=
  task_id_for_language Rust module name.

(* @src rustvello-proto/src/identifiers.rs 199-202 TaskId::language *)
Definition task_language (t : TaskId) : TaskLanguage := tid_language t.

(* @src rustvello-proto/src/identifiers.rs 204-207 TaskId::module *)
Definition task_module (t : TaskId) : string := str_take (tid_module_end t) (tid_packed t).

(* @src rustvello-proto/src/identifiers.rs 209-212 TaskId::name *)
Definition task_name (t : TaskId) : string := str_drop (tid_module_end t) (tid_packed t).

(* @src rustvello-proto/src/identifiers.rs 261-265 TaskId::fmt *)
Definition task_id_display (t : TaskId) : string :=
  language_as_str (task_language t) +:+ "::" +:+ task_module t +:+ "." +:+ task_name t.

(* @src rustvello-proto/src/identifiers.rs 214-222 TaskId::config_key *)
Definition task_config_key (t : TaskId) : string :=
  language_as_str (task_language t) +:+ "_" +:+
  str_map (λ c, if bool_decide (c = "."%char) then "_"%char else c) (task_module t) +:+
  "_" +:+ task_name t.

(* @src rustvello-proto/src/identifiers.rs 279-323 TaskId::from_str *)
Definition task_id_from_str (s : string) : outcome ParseTaskIdError TaskId :=
  if decide (s = "") then Err EmptyTaskIdString
  else
    '(language, rest) ← match str_split_first_cc s with
      | Some (lang, rest) =>
          if decide (lang = "") then Err EmptyLanguage
          else l ← language_from_str lang; Ok (l, rest)
      | None => Ok (Rust, s)
      end;
    match str_rsplit "." rest with
    | None => Err (NoDotSeparator s)
    | Some (module, name) =>
        if decide (module = "") then Err (EmptyModuleIn s)
        else if decide (name = "") then Err (EmptyNameIn s)
        else try_for_language language module name
    end.

(** The wire form of a task id: the decoded fields go through the validating
    constructor, a missing language means Rust. *)
(* @src rustvello-proto/src/identifiers.rs 246-259 TaskId::deserialize *)
Definition task_id_of_fields (language : option TaskLanguage) (module name : string)
    : outcome ParseTaskIdError TaskId :=
  try_for_language (default Rust language) module name.

(* @src rustvello-proto/src/identifiers.rs 235-244 TaskId::serialize *)
Definition task_id_fields (t : TaskId) : TaskLanguage * string * string :=
  (task_language t, task_module t, task_name t).

(** ** Call ids *)

(* @src rustvello-proto/src/identifiers.rs 325-333 CallId *)
Record CallId := mkCallId { call_task_id : TaskId; args_id : string }.

#[export] Instance CallId_eq_dec : EqDecision CallId.
Proof. solve_decision. Defined.

(** The assertion on [args_id] is compiled in debug builds only. *)
(* @src rustvello-proto/src/identifiers.rs 335-344 CallId::new *)
Definition call_id_new (task_id : TaskId) (args_id : string) : CallId :=
  {| call_task_id := task_id; args_id := args_id |}.

(* @src rustvello-proto/src/identifiers.rs 346-350 CallId::fmt *)
Definition call_id_display (c : CallId) : string :=
  task_id_display (call_task_id c) +:+ ":" +:+ args_id c.

(* @src rustvello-proto/src/identifiers.rs 352-360 ParseCallIdError *)
Inductive ParseCallIdError :=
| NoColonSeparator (s : string)
| EmptyArgsId (s : string)
| CallTaskId (e : ParseTaskIdError).

#[export] Instance ParseCallIdError_eq_dec : EqDecision ParseCallIdError.
Proof. solve_decision. Defined.

(* @src rustvello-proto/src/identifiers.rs 380-402 CallId::from_str *)
Definition call_id_from_str (s : string) : outcome ParseCallIdError CallId :=
  match str_rsplit ":" s with
  | None => Err (NoColonSeparator s)
  | Some (task_str, args_id) =>
      if decide (args_id = "") then Err (EmptyArgsId s)
      else
        task_id ← map_err CallTaskId (task_id_from_str task_str);
        Ok (call_id_new task_id args_id)
  end.

(** ** Invocation and runner ids: strings *)

Abbreviation InvocationId := string (only parsing).
Abbreviation RunnerId := string (only parsing).

(** UUID generation ([uuid] crate): a name-based id is a function of the
    namespace and the name. *)
Class Uuid := { uuid_v5 : list Z → string → string }.

(* @src rustvello-proto/src/identifiers.rs 447-451 IDEMPOTENCY_KEY_NAMESPACE *)
Definition idempotency_key_namespace : list Z :=
  [0x9b; 0x3f; 0x51; 0x0c; 0x6e; 0x2a; 0x4c; 0x7d; 0xa4; 0x18; 0x02; 0x5e; 0xd7; 0x93; 0x6b; 0x41].

Definition newline : string := String (Ascii.ascii_of_nat 10) "".

(* @src rustvello-proto/src/identifiers.rs 427-439 InvocationId::from_key *)
Definition invocation_id_from_key `{Uuid} (task_id : TaskId) (key : string) : InvocationId :=
  uuid_v5 idempotency_key_namespace (task_id_display task_id +:+ newline +:+ key).

(** ** Well-formed task ids *)

(** What the validating constructor guarantees. *)
Definition task_id_valid (t : TaskId) : Prop :=
  (tid_module_end t ≤ String.length (tid_packed t))%nat ∧
  Z.of_nat (tid_module_end t) ≤ u16_max ∧
  task_name t ≠ "" ∧ str_contains_char "." (task_name t) = false ∧
  str_contains_cc (task_name t) = false ∧
  task_module t ≠ "" ∧ str_contains_cc (task_module t) = false.

Lemma task_id_module_name l m n :
  let t := mkTaskId l (m +:+ n) (String.length m) in task_module t = m ∧ task_name t = n.
Proof. unfold task_module, task_name. simpl. by rewrite str_take_app, str_drop_app. Qed.

Lemma language_from_as_str l : language_from_str (language_as_str l) = Ok l.
Proof. by destruct l. Qed.

Lemma language_no_colon l : str_contains_char ":" (language_as_str l) = false.
Proof. by destruct l. Qed.

Lemma try_for_language_Ok l m n t :
  try_for_language l m n = Ok t ↔
    t = mkTaskId l (m +:+ n) (String.length m) ∧
    n ≠ "" ∧ str_contains_char "." n = false ∧ str_contains_cc n = false ∧
    m ≠ "" ∧ str_contains_cc m = false ∧ Z.of_nat (String.length m) ≤ u16_max.
Proof.
  unfold try_for_language, task_id_from_parts.
  case_decide; [split; [done|naive_solver]|].
  destruct (str_contains_char "." n); [split; [done|naive_solver]|].
  destruct (str_contains_cc n); [split; [done|naive_solver]|]. simpl.
  case_decide; [split; [done|naive_solver]|].
  destruct (str_contains_cc m); [split; [done|naive_solver]|].
  destruct (Z.leb_spec (Z.of_nat (String.length m)) u16_max); [naive_solver|].
  split; [done|]. intros (_&_&_&_&_&_&?). lia.
Qed.

Lemma try_for_language_valid l m n t : try_for_language l m n = Ok t → task_id_valid t.
Proof.
  intros (->&?&?&?&?&?&?)%try_for_language_Ok. unfold task_id_valid.
  destruct (task_id_module_name l m n) as [-> ->]. simpl.
  rewrite str_length_app. split_and!; auto. lia.
Qed.

(** A valid id is rebuilt from its components. *)
Lemma task_id_valid_rebuild t :
  task_id_valid t → try_for_language (task_language t) (task_module t) (task_name t) = Ok t.
Proof.
  intros (Hle&Hmax&Hn&Hd&Hc&Hm&Hmc). apply try_for_language_Ok.
  assert (String.length (task_module t) = tid_module_end t) as Hlen.
  { unfold task_module. clear -Hle. revert Hle. destruct t as [l p e]; simpl. revert p.
    induction e as [|e IH]; intros [|c p]; simpl; try lia. intros. f_equal. apply IH. lia. }
  split_and!; auto.
  - destruct t as [l p e]; unfold task_module, task_name, task_language in *; simpl in *.
    by rewrite str_take_drop, Hlen.
  - lia.
Qed.

Lemma task_id_from_str_display l m n :
  n ≠ "" → m ≠ "" → str_contains_char "." n = false →
  task_id_from_str (language_as_str l +:+ "::" +:+ m +:+ "." +:+ n) = try_for_language l m n.
Proof.
  intros Hn Hm Hdot. unfold task_id_from_str.
  rewrite decide_False by by destruct l.
  change ("::" +:+ m +:+ "." +:+ n) with (String ":" (String ":" (m +:+ String "." n))).
  rewrite str_split_first_cc_app by apply language_no_colon.
  rewrite decide_False by by destruct l.
  rewrite language_from_as_str. simpl.
  rewrite str_rsplit_app by done. by rewrite !decide_False.
Qed.


Lemma task_id_parse_display (t : TaskId) :
  task_id_valid t → task_id_from_str (task_id_display t) = Ok t.
Proof.
  intros Hv. pose proof Hv as (_&_&Hn&Hd&_&Hm&_). unfold task_id_display.
  rewrite task_id_from_str_display by done. by apply task_id_valid_rebuild.
Qed.

Lemma task_id_from_str_valid s t : task_id_from_str s = Ok t → task_id_valid t.
Proof.
  unfold task_id_from_str. case_decide; [done|].
  intros ([l rest] & _ & H')%bind_Ok. destruct (str_rsplit "." rest) as [[m n]|]; [|done].
  repeat case_decide; [done|done|]. by eapply try_for_language_valid.
Qed.

(** Distinct valid ids have distinct texts: the text is a faithful map key. *)
Lemma task_id_display_inj t1 t2 :
  task_id_valid t1 → task_id_valid t2 → task_id_display t1 = task_id_display t2 → t1 = t2.
Proof.
  intros H1%task_id_parse_display H2%task_id_parse_display Heq. rewrite Heq in H1. congruence.
Qed.

Lemma call_id_parse_display (c : CallId) :
  task_id_valid (call_task_id c) → args_id c ≠ "" → str_contains_char ":" (args_id c) = false →
  call_id_from_str (call_id_display c) = Ok c.
Proof.
  intros Hv Ha Hc. unfold call_id_from_str, call_id_display.
  change (":" +:+ args_id c) with (String ":" (args_id c)).
  rewrite str_rsplit_app by done. rewrite decide_False by done.
  rewrite task_id_parse_display by done. by destruct c.
Qed.

(** A module too long for the offset makes the fallible constructors panic. *)
Lemma try_for_language_long_module l m n :
  n ≠ "" → str_contains_char "." n = false → str_contains_cc n = false →
  str_contains_cc m = false → u16_max < Z.of_nat (String.length m) →
  is_panic (try_for_language l m n) = true.
Proof.
  intros Hn Hd Hc Hm Hl. unfold try_for_language, task_id_from_parts.
  assert (m ≠ "") by (intros ->; unfold u16_max in Hl; simpl in Hl; lia).
  rewrite !decide_False, Hd, Hc, Hm by done. simpl.
  by rewrite (proj2 (Z.leb_gt _ _)).
Qed.

(** ** Properties *)

(** the text of a valid task id parses back to the same id; everything the
    parser accepts is a valid id, so printing normalises it once and for all;
    and distinct valid ids have distinct texts, which the engine uses as keys. *)
Theorem task_id_text_roundtrip (s : string) (t t' : TaskId) :
  task_id_from_str s = Ok t → task_id_valid t' →
  task_id_valid t ∧
  task_id_from_str (task_id_display t) = Ok t ∧
  task_id_from_str (task_id_display t') = Ok t' ∧
  (task_id_display t = task_id_display t' → t = t').
Proof.
  intros Hv%task_id_from_str_valid Hv'.
  split_and!; [done|by apply task_id_parse_display..|by apply task_id_display_inj].
Qed.

Lemma task_id_text_roundtrip_witness :
  task_id_display (mkTaskId Rust "app.tasksadd" 9) = "rust::app.tasks.add" ∧
  (task_id_valid (mkTaskId Rust "app.tasksadd" 9) ∧
   task_id_from_str (task_id_display (mkTaskId Rust "app.tasksadd" 9))
     = Ok (mkTaskId Rust "app.tasksadd" 9) ∧
   task_id_from_str (task_id_display (mkTaskId Python "mlfit" 2)) = Ok (mkTaskId Python "mlfit" 2) ∧
   (task_id_display (mkTaskId Rust "app.tasksadd" 9) = task_id_display (mkTaskId Python "mlfit" 2) →
    mkTaskId Rust "app.tasksadd" 9 = mkTaskId Python "mlfit" 2)).
Proof.
  split; [reflexivity|].
  apply (task_id_text_roundtrip "app.tasks.add"); [reflexivity|].
  vm_compute. split_and!; try reflexivity; try discriminate; lia.
Defined.

(** the text of a call id parses back to it when its [args_id] is not empty
    and has no colon (hex digests and ["no_args"] are such). *)
Theorem call_id_text_roundtrip (c : CallId) :
  task_id_valid (call_task_id c) → args_id c ≠ "" → str_contains_char ":" (args_id c) = false →
  call_id_from_str (call_id_display c) = Ok c.
Proof. apply call_id_parse_display. Qed.

Lemma call_id_text_roundtrip_witness :
  call_id_display (mkCallId (mkTaskId Python "mlfit" 2) "no_args") = "python::ml.fit:no_args" ∧
  call_id_from_str (call_id_display (mkCallId (mkTaskId Python "mlfit" 2) "no_args"))
    = Ok (mkCallId (mkTaskId Python "mlfit" 2) "no_args").
Proof.
  split; [reflexivity|].
  apply call_id_text_roundtrip; [|discriminate|reflexivity].
  vm_compute. split_and!; try reflexivity; try discriminate; lia.
Defined.

(** the fallible constructor and the parser check emptiness, dots and
    double colons and report them as errors, but a module of more than 65535
    bytes makes both panic. *)
Theorem fallible_task_id_panics_on_long_module (l : TaskLanguage) (m n : string) :
  n ≠ "" → str_contains_char "." n = false → str_contains_cc n = false →
  str_contains_cc m = false → u16_max < Z.of_nat (String.length m) →
  is_panic (try_for_language l m n) = true ∧
  is_panic (task_id_from_str (language_as_str l +:+ "::" +:+ m +:+ "." +:+ n)) = true.
Proof.
  intros Hn Hd Hc Hm Hl.
  assert (m ≠ "") by (intros ->; unfold u16_max in Hl; simpl in Hl; lia).
  rewrite task_id_from_str_display by done.
  split; by apply try_for_language_long_module.
Qed.

Fixpoint repeat_char (c : Ascii.ascii) (n : nat) : string :=
  match n with O => "" | S n' => String c (repeat_char c n') end.

Lemma repeat_char_facts c n :
  String.length (repeat_char c n) = n ∧
  (c ≠ ":"%char → str_contains_char ":" (repeat_char c n) = false).
Proof.
  induction n as [|n [IH1 IH2]]; [done|]. simpl. split; [by rewrite IH1|].
  intros Hc. by rewrite bool_decide_false, IH2.
Qed.

Lemma fallible_task_id_panics_on_long_module_witness :
  let m := repeat_char "m" (Z.to_nat 65536) in
  is_panic (try_for_language Rust m "f") = true ∧
  is_panic (task_id_from_str ("rust" +:+ "::" +:+ m +:+ "." +:+ "f")) = true.
Proof.
  intros m. apply (fallible_task_id_panics_on_long_module Rust m "f");
    [discriminate|reflexivity|reflexivity| |].
  - apply str_no_colon_no_cc, repeat_char_facts. discriminate.
  - unfold m. rewrite (proj1 (repeat_char_facts _ _)). rewrite Z2Nat.id by lia. reflexivity.
Defined.
