(* ===== verification/Status.v ===== *)
(** * The invocation status machine

    Models [rustvello-proto/src/status]: the fourteen statuses, the declarative
    table of their rules, and the validated transition of a status record
    ([machine.rs]).  The theorems describe the table (terminal statuses,
    cancellation), characterise a transition completely, and prove ownership
    fencing and progress for every record a lifecycle can reach. *)
From S2P Require Import Prelude Effects Identifiers.

(** ** Statuses *)

(* @src rustvello-proto/src/status/mod.rs 24-64 InvocationStatus *)
Inductive InvocationStatus :=
| Registered
| ConcurrencyControlled
| ConcurrencyControlledFinal
| Rerouted
| Pending
| PendingRecovery
| Running
| RunningRecovery
| Paused
| Killed
| Success
| Failed
| Retry
| Cancelled.

#[export] Instance InvocationStatus_eq_dec : EqDecision InvocationStatus.
Proof. solve_decision. Defined.

(* @src rustvello-proto/src/status/mod.rs 66-82 ALL_STATUSES *)
Definition ALL_STATUSES : list InvocationStatus :=
  [Registered; ConcurrencyControlled; ConcurrencyControlledFinal; Rerouted; Pending;
   PendingRecovery; Running; RunningRecovery; Paused; Killed; Success; Failed; Retry; Cancelled].

(* @src rustvello-proto/src/status/mod.rs 120-139 InvocationStatus::fmt *)
Definition status_display (s : InvocationStatus) : string :=
  match s with
  | Registered => "REGISTERED"
  | ConcurrencyControlled => "CONCURRENCY_CONTROLLED"
  | ConcurrencyControlledFinal => "CONCURRENCY_CONTROLLED_FINAL"
  | Rerouted => "REROUTED"
  | Pending => "PENDING"
  | PendingRecovery => "PENDING_RECOVERY"
  | Running => "RUNNING"
  | RunningRecovery => "RUNNING_RECOVERY"
  | Paused => "PAUSED"
  | Killed => "KILLED"
  | Success => "SUCCESS"
  | Failed => "FAILED"
  | Retry => "RETRY"
  | Cancelled => "CANCELLED"
  end.

(** [str::to_uppercase] and [str::to_lowercase] map all of Unicode; on ASCII
    text they change the ASCII letters. *)
Class UnicodeCase := {
  to_uppercase : string → string;
  to_lowercase : string → string;
  to_uppercase_ascii s : str_all is_ascii_char s = true → to_uppercase s = str_upper s;
  to_lowercase_ascii s : str_all is_ascii_char s = true → to_lowercase s = str_lower s
}.

(** Case mapping restricted to ASCII letters. *)
Definition ascii_case : UnicodeCase := {|
  to_uppercase := str_upper; to_lowercase := str_lower;
  to_uppercase_ascii := λ _ _, eq_refl; to_lowercase_ascii := λ _ _, eq_refl
|}.

(* @src rustvello-proto/src/status/mod.rs 141-163 InvocationStatus::from_str *)
Definition status_from_str `{UnicodeCase} (s : string) : outcome string InvocationStatus :=
  let u := to_uppercase s in
  if decide (u = "REGISTERED") then Ok Registered
  else if decide (u = "CONCURRENCY_CONTROLLED") then Ok ConcurrencyControlled
  else if decide (u = "CONCURRENCY_CONTROLLED_FINAL") then Ok ConcurrencyControlledFinal
  else if decide (u = "REROUTED") then Ok Rerouted
  else if decide (u = "PENDING") then Ok Pending
  else if decide (u = "PENDING_RECOVERY") then Ok PendingRecovery
  else if decide (u = "RUNNING") then Ok Running
  else if decide (u = "RUNNING_RECOVERY") then Ok RunningRecovery
  else if decide (u = "PAUSED") then Ok Paused
  else if decide (u = "KILLED") then Ok Killed
  else if decide (u = "SUCCESS") then Ok Success
  else if decide (u = "FAILED") then Ok Failed
  else if decide (u = "RETRY") then Ok Retry
  else if decide (u = "CANCELLED") then Ok Cancelled
  else Err ("unknown invocation status: " +:+ u).

(** ** Status records *)

(* @src rustvello-proto/src/status/mod.rs 169-175 InvocationStatusRecord *)
Record InvocationStatusRecord := mkRecord {
  rec_status : InvocationStatus;
  rec_runner_id : option RunnerId;
  rec_timestamp : DateTime
}.

#[export] Instance InvocationStatusRecord_eq_dec : EqDecision InvocationStatusRecord.
Proof. solve_decision. Defined.

(** [now] is the clock reading taken by the constructor. *)
(* @src rustvello-proto/src/status/mod.rs 177-185 InvocationStatusRecord::new *)
Definition status_record_new (now : DateTime) (status : InvocationStatus)
    (runner_id : option RunnerId) : InvocationStatusRecord :=
  {| rec_status := status; rec_runner_id := runner_id; rec_timestamp := now |}.

(** ** The table of rules *)

(* @src rustvello-proto/src/status/mod.rs 191-210 StatusDefinition *)
Record StatusDefinition := mkStatusDefinition {
  allowed_transitions : list InvocationStatus;
  is_final : bool;
  available_for_run : bool;
  requires_ownership : bool;
  acquires_ownership : bool;
  releases_ownership : bool;
  overrides_ownership : bool
}.

(* @src rustvello-proto/src/status/mod.rs 212-224 StatusDefinition::new *)
Definition status_definition_new : StatusDefinition :=
  {| allowed_transitions := []; is_final := false; available_for_run := false;
     requires_ownership := false; acquires_ownership := false;
     releases_ownership := false; overrides_ownership := false |}.

(* @src rustvello-proto/src/status/mod.rs 230-240 StatusConfiguration *)
Record StatusConfiguration := mkStatusConfiguration {
  initial : StatusDefinition;
  definitions : list (InvocationStatus * StatusDefinition);
  cfg_final_statuses : list InvocationStatus;
  cfg_available_for_run_statuses : list InvocationStatus
}.

Definition row (s : InvocationStatus) (next : list InvocationStatus)
    (fin avail req acq rel over : bool) : InvocationStatus * StatusDefinition :=
  (s, {| allowed_transitions := next; is_final := fin; available_for_run := avail;
         requires_ownership := req; acquires_ownership := acq;
         releases_ownership := rel; overrides_ownership := over |}).

(** One row per status: next statuses, then the flags [is_final],
    [available_for_run], [requires_ownership], [acquires_ownership],
    [releases_ownership], [overrides_ownership]. *)
(* @src rustvello-proto/src/status/mod.rs 263-398 build_config *)
Definition status_table : list (InvocationStatus * StatusDefinition) :=
  [ row Registered [Pending; ConcurrencyControlled; ConcurrencyControlledFinal; Cancelled]
      false true false false true false;
    row ConcurrencyControlled [Rerouted; Cancelled] false false false false true false;
    row Rerouted [Pending; ConcurrencyControlled; Cancelled] false true false false true false;
    row Pending [Running; Killed; Rerouted; PendingRecovery; Cancelled]
      false false true true false false;
    row PendingRecovery [Rerouted; Failed; Cancelled] false false false false true true;
    row Running [Paused; Killed; Retry; Success; Failed; RunningRecovery; Cancelled]
      false false true false false false;
    row RunningRecovery [Rerouted; Failed; Cancelled] false false false false true true;
    row Paused [Running; Killed; Cancelled] false false true false false false;
    row Killed [Rerouted; Cancelled] false false false false true false;
    row Retry [Pending; Cancelled] false true false false true false;
    row Success [] true false false false true false;
    row Failed [] true false false false true false;
    row Cancelled [] true false false false true true;
    row ConcurrencyControlledFinal [] true false false false true false ].

(* @src rustvello-proto/src/status/mod.rs 254-418 build_config *)
Definition build_config : StatusConfiguration :=
  let initial := {| allowed_transitions := [Registered]; is_final := false;
    available_for_run := false; requires_ownership := false; acquires_ownership := false;
    releases_ownership := false; overrides_ownership := false |} in
  {| initial := initial;
     definitions := status_table;
     cfg_final_statuses := (bfilter (λ p, is_final p.2) status_table).*1;
     cfg_available_for_run_statuses := (bfilter (λ p, available_for_run p.2) status_table).*1 |}.

(** [None] is the panic on a status without a row. *)
(* @src rustvello-proto/src/status/mod.rs 242-252 StatusConfiguration::definition *)
Definition definition (cfg : StatusConfiguration) (s : InvocationStatus) : option StatusDefinition :=
  snd <$> List.find (λ p, bool_decide (p.1 = s)) (definitions cfg).

(** Every status has a row ([definition_total]), so the default is never used. *)
(* @src rustvello-proto/src/status/mod.rs 420-425 get_status_definition *)
Definition get_status_definition (s : InvocationStatus) : StatusDefinition :=
  default status_definition_new (definition build_config s).

(* @src rustvello-proto/src/status/mod.rs 427-430 get_initial_definition *)
Definition get_initial_definition : StatusDefinition := initial build_config.

(* @src rustvello-proto/src/status/mod.rs 85-89 InvocationStatus::is_terminal *)
Definition is_terminal (s : InvocationStatus) : bool := is_final (get_status_definition s).

(* @src rustvello-proto/src/status/mod.rs 91-95 InvocationStatus::is_available_for_run *)
Definition is_available_for_run (s : InvocationStatus) : bool :=
  available_for_run (get_status_definition s).

(* @src rustvello-proto/src/status/mod.rs 97-101 InvocationStatus::valid_transitions *)
Definition valid_transitions (s : InvocationStatus) : list InvocationStatus :=
  allowed_transitions (get_status_definition s).

(* @src rustvello-proto/src/status/mod.rs 103-107 InvocationStatus::can_transition_to *)
Definition can_transition_to (s next : InvocationStatus) : bool :=
  bool_decide (next ∈ valid_transitions s).

(* @src rustvello-proto/src/status/mod.rs 109-112 InvocationStatus::final_statuses *)
Definition final_statuses : list InvocationStatus := cfg_final_statuses build_config.

(* @src rustvello-proto/src/status/mod.rs 114-117 InvocationStatus::available_for_run_statuses *)
Definition available_for_run_statuses : list InvocationStatus :=
  cfg_available_for_run_statuses build_config.

(** ** Transitions *)

(* @src rustvello-proto/src/status/machine.rs 11-26 StatusTransitionError *)
Record StatusTransitionError := mkTransitionError {
  te_from : option InvocationStatus;
  te_to : InvocationStatus;
  te_allowed : list InvocationStatus
}.

(* @src rustvello-proto/src/status/machine.rs 28-46 OwnershipError *)
Record OwnershipError := mkOwnershipError {
  oe_from_status : InvocationStatus;
  oe_to_status : InvocationStatus;
  oe_current_owner : option string;
  oe_attempted_owner : option string;
  oe_reason : string
}.

(* @src rustvello-proto/src/status/machine.rs 48-54 StatusMachineError *)
Inductive StatusMachineError :=
| TransitionE (e : StatusTransitionError)
| OwnershipE (e : OwnershipError).

(* @src rustvello-proto/src/status/machine.rs 80-98 validate_transition *)
Definition validate_transition (from_status : option InvocationStatus) (to_status : InvocationStatus)
    : outcome StatusTransitionError unit :=
  let def := match from_status with
    | Some s => get_status_definition s
    | None => get_initial_definition
    end in
  if bool_decide (to_status ∈ allowed_transitions def) then Ok tt
  else Err {| te_from := from_status; te_to := to_status; te_allowed := allowed_transitions def |}.

(* @src rustvello-proto/src/status/machine.rs 100-151 validate_ownership *)
Definition validate_ownership (current_record : option InvocationStatusRecord)
    (new_status : InvocationStatus) (runner_id : option RunnerId) : outcome OwnershipError unit :=
  match current_record with
  | None => Ok tt
  | Some cur =>
      let new_def := get_status_definition new_status in
      if overrides_ownership new_def then Ok tt
      else
        let current_def := get_status_definition (rec_status cur) in
        if requires_ownership current_def && negb (bool_decide (runner_id = rec_runner_id cur)) then
          Err {| oe_from_status := rec_status cur; oe_to_status := new_status;
                 oe_current_owner := rec_runner_id cur; oe_attempted_owner := runner_id;
                 oe_reason := "status requires ownership by runner '" +:+
                   default "<none>" (rec_runner_id cur) +:+ "'" |}
        else if acquires_ownership new_def && bool_decide (runner_id = None) then
          Err {| oe_from_status := rec_status cur; oe_to_status := new_status;
                 oe_current_owner := rec_runner_id cur; oe_attempted_owner := None;
                 oe_reason := "status " +:+ status_display new_status +:+
                   " requires a runner_id to acquire ownership" |}
        else Ok tt
  end.

(* @src rustvello-proto/src/status/machine.rs 153-167 compute_new_owner *)
Definition compute_new_owner (current_record : option InvocationStatusRecord)
    (new_status : InvocationStatus) (runner_id : option RunnerId) : option RunnerId :=
  let new_def := get_status_definition new_status in
  if releases_ownership new_def then None
  else if acquires_ownership new_def then runner_id
  else current_record ≫= rec_runner_id.

(* @src rustvello-proto/src/status/machine.rs 169-185 status_record_transition *)
Definition status_record_transition (now : DateTime) (current_record : option InvocationStatusRecord)
    (new_status : InvocationStatus) (runner_id : option RunnerId)
    : outcome StatusMachineError InvocationStatusRecord :=
  _ ← map_err TransitionE (validate_transition (rec_status <$> current_record) new_status);
  _ ← map_err OwnershipE (validate_ownership current_record new_status runner_id);
  Ok (status_record_new now new_status (compute_new_owner current_record new_status runner_id)).

(** ** Concurrency control types *)

(* @src rustvello-proto/src/status/concurrency.rs 4-20 ConcurrencyControlType *)
Inductive ConcurrencyControlType := Unlimited | CCTask | CCArgument | CCNone.

#[export] Instance ConcurrencyControlType_eq_dec : EqDecision ConcurrencyControlType.
Proof. solve_decision. Defined.

(* @src rustvello-proto/src/status/concurrency.rs 22-31 ConcurrencyControlType::fmt *)
Definition cc_type_display (t : ConcurrencyControlType) : string :=
  match t with
  | Unlimited => "Unlimited" | CCTask => "Task" | CCArgument => "Argument" | CCNone => "None"
  end.

(* @src rustvello-proto/src/status/concurrency.rs 33-45 ConcurrencyControlType::from_str *)
Definition cc_type_from_str `{UnicodeCase} (s : string) : outcome string ConcurrencyControlType :=
  let u := to_uppercase s in
  if decide (u = "UNLIMITED" ∨ u = "DISABLED") then Ok Unlimited
  else if decide (u = "TASK") then Ok CCTask
  else if decide (u = "ARGUMENT" ∨ u = "ARGUMENTS" ∨ u = "KEYS") then Ok CCArgument
  else if decide (u = "NONE") then Ok CCNone
  else Err ("unknown ConcurrencyControlType: " +:+ s).

#[global] Arguments validate_ownership : simpl never.
#[global] Arguments validate_transition : simpl never.
#[global] Arguments status_record_transition : simpl never.
#[global] Arguments get_status_definition : simpl never.
#[global] Arguments is_terminal : simpl never.
#[global] Arguments is_available_for_run : simpl never.
#[global] Arguments can_transition_to : simpl never.
#[global] Arguments String.append : simpl nomatch.

(** ** The table *)

Definition flags (s : InvocationStatus) : StatusDefinition := get_status_definition s.

Lemma definition_total s : definition build_config s = Some (get_status_definition s).
Proof. by destruct s. Qed.

Lemma ALL_STATUSES_complete s : s ∈ ALL_STATUSES.
Proof. destruct s; vm_compute; set_solver. Qed.

(** A statement about every status is checked on the fourteen of them. *)
Ltac by_status s := destruct s; try by vm_compute.

Lemma can_transition_to_elem s t : can_transition_to s t = true ↔ t ∈ valid_transitions s.
Proof. unfold can_transition_to. apply bool_decide_eq_true. Qed.

Lemma terminal_no_transition s t : is_terminal s = true → can_transition_to s t = false.
Proof. by_status s; by_status t. Qed.

Lemma pending_is_available s : can_transition_to s Pending = is_available_for_run s.
Proof. by_status s. Qed.

(** The three ways a status treats ownership are exclusive. *)
Lemma owner_flags s :
  (releases_ownership (flags s) = true ∧ requires_ownership (flags s) = false) ∨
  (releases_ownership (flags s) = false ∧ requires_ownership (flags s) = true).
Proof. destruct s; vm_compute; auto. Qed.

(** ** Specification of a transition *)

(** Who may move a record to a status: the table allows it, and either the
    status overrides ownership, or the requester is the owner where the current
    status requires one and gives its id where the new status claims one. *)
Definition ownership_ok (cur : InvocationStatusRecord) (st : InvocationStatus)
    (r : option RunnerId) : Prop :=
  overrides_ownership (flags st) = true ∨
  ((requires_ownership (flags (rec_status cur)) = true → r = rec_runner_id cur) ∧
   (acquires_ownership (flags st) = true → r ≠ None)).

Definition may_transition (cur : InvocationStatusRecord) (st : InvocationStatus)
    (r : option RunnerId) : Prop :=
  can_transition_to (rec_status cur) st = true ∧ ownership_ok cur st r.

#[export] Instance ownership_ok_dec cur st r : Decision (ownership_ok cur st r).
Proof. unfold ownership_ok. apply _. Defined.

#[export] Instance may_transition_dec cur st r : Decision (may_transition cur st r).
Proof. unfold may_transition. apply _. Defined.

(** The record a permitted transition produces. *)
Definition moved (now : DateTime) (cur : InvocationStatusRecord) (st : InvocationStatus)
    (r : option RunnerId) : InvocationStatusRecord :=
  {| rec_status := st;
     rec_runner_id :=
       if releases_ownership (flags st) then None
       else if acquires_ownership (flags st) then r else rec_runner_id cur;
     rec_timestamp := now |}.

Lemma validate_transition_some s t :
  validate_transition (Some s) t =
    if can_transition_to s t then Ok tt
    else Err {| te_from := Some s; te_to := t; te_allowed := valid_transitions s |}.
Proof. done. Qed.

Lemma validate_ownership_Ok cur st r :
  validate_ownership (Some cur) st r = Ok tt ↔ ownership_ok cur st r.
Proof.
  unfold validate_ownership, ownership_ok, flags.
  destruct (overrides_ownership _); [naive_solver|].
  destruct (requires_ownership _), (bool_decide_reflect (r = rec_runner_id cur)),
    (acquires_ownership _), (bool_decide_reflect (r = None)); simpl; naive_solver.
Qed.

Lemma validate_ownership_cases cur st r :
  validate_ownership (Some cur) st r = Ok tt ∨
  ∃ e, validate_ownership (Some cur) st r = Err e ∧
       oe_from_status e = rec_status cur ∧ oe_to_status e = st.
Proof.
  unfold validate_ownership.
  destruct (overrides_ownership _); [by left|].
  destruct (requires_ownership _ && _); [right; eauto|].
  destruct (acquires_ownership _ && _); [right; eauto|by left].
Qed.

Lemma transition_Ok now cur st r rec' :
  status_record_transition now (Some cur) st r = Ok rec' ↔
    may_transition cur st r ∧ rec' = moved now cur st r.
Proof.
  unfold status_record_transition, may_transition. simpl.
  rewrite validate_transition_some, <-validate_ownership_Ok.
  destruct (can_transition_to (rec_status cur) st); simpl.
  2: { split; [done|]. by intros [[? ?] ?]. }
  destruct (validate_ownership (Some cur) st r) as [[]|e|p]; simpl.
  - split; [by intros [= <-]|by intros [_ ->]].
  - split; [done|]. by intros [[? ?] ?].
  - split; [done|]. by intros [[? ?] ?].
Qed.

Lemma transition_never_panics now cur st r : is_panic (status_record_transition now cur st r) = false.
Proof.
  unfold status_record_transition, validate_transition.
  destruct cur as [cur|]; simpl; destruct (bool_decide (st ∈ _)); simpl; try done.
  by destruct (validate_ownership_cases cur st r) as [->|(e&->&_)].
Qed.

Lemma transition_invalid now cur st r :
  can_transition_to (rec_status cur) st = false →
  status_record_transition now (Some cur) st r =
    Err (TransitionE {| te_from := Some (rec_status cur); te_to := st;
                        te_allowed := valid_transitions (rec_status cur) |}).
Proof.
  intros H. unfold status_record_transition. simpl. by rewrite validate_transition_some, H.
Qed.

Lemma transition_not_owner now cur st r :
  can_transition_to (rec_status cur) st = true → ¬ ownership_ok cur st r →
  ∃ e, status_record_transition now (Some cur) st r = Err (OwnershipE e) ∧
       oe_from_status e = rec_status cur ∧ oe_to_status e = st.
Proof.
  intros H Ho. unfold status_record_transition. simpl. rewrite validate_transition_some, H. simpl.
  destruct (validate_ownership_cases cur st r) as [Hok|(e&He&?&?)].
  - by apply validate_ownership_Ok in Hok.
  - rewrite He. simpl. eauto.
Qed.

(** ** Lifecycles *)

(** The records an invocation can have: registered by some runner, then moved
    by successful transitions. *)
Inductive lifecycle : InvocationStatusRecord → Prop :=
| life_registered now r : lifecycle (status_record_new now Registered r)
| life_step now rec st r rec' :
    lifecycle rec → status_record_transition now (Some rec) st r = Ok rec' → lifecycle rec'.

(** One transition by some runner at some time. *)
Definition moves (rec rec' : InvocationStatusRecord) : Prop :=
  ∃ now st r, status_record_transition now (Some rec) st r = Ok rec'.

Lemma lifecycle_owner rec :
  lifecycle rec →
  (requires_ownership (flags (rec_status rec)) = true → rec_runner_id rec ≠ None) ∧
  (requires_ownership (flags (rec_status rec)) = false → rec_status rec ≠ Registered →
   rec_runner_id rec = None).
Proof.
  induction 1 as [now r|now rec st r rec' Hl IH Ht]; [by split|].
  apply transition_Ok in Ht as [[Hc Ho] ->]. unfold moved, ownership_ok in *. simpl in *.
  destruct IH as [IH1 IH2]. destruct rec as [s o t]; simpl in *.
  destruct (owner_flags st) as [[-> ->]|[-> Hq]]; [by split|].
  rewrite Hq. split; [intros _|done].
  destruct Ho as [Ho|[Ho1 Ho2]]; [by destruct st|].
  destruct (acquires_ownership (flags st)) eqn:Ha; [auto|].
  apply IH1. by destruct st, s.
Qed.

Lemma move_to now rec st r rec' :
  may_transition rec st r → moved now rec st r = rec' → moves rec rec'.
Proof. intros Hm <-. exists now, st, r. by apply transition_Ok. Qed.

(** A requester that is the owner, where the new status claims nothing. *)
Lemma move_by_owner now rec st rec' :
  can_transition_to (rec_status rec) st = true → acquires_ownership (flags st) = false →
  moved now rec st (rec_runner_id rec) = rec' → moves rec rec'.
Proof.
  intros Hc Ha. apply move_to. split; [done|]. right. split; [done|]. by rewrite Ha.
Qed.

Lemma move_unowned now rec st r rec' :
  can_transition_to (rec_status rec) st = true →
  requires_ownership (flags (rec_status rec)) = false →
  moved now rec st (Some r) = rec' → moves rec rec'.
Proof. intros Hc Hr. apply move_to. split; [done|]. right. by rewrite Hr. Qed.

(** A runner can bring every unfinished record to [Success]. *)
Lemma reach_success_from_running now o t :
  moves (mkRecord Running o t) (mkRecord Success None now).
Proof. by apply (move_by_owner now _ Success). Qed.

Lemma reach_success_from_pending now o t :
  rtc moves (mkRecord Pending o t) (mkRecord Success None now).
Proof.
  eapply rtc_l; [by apply (move_by_owner now _ Running)|].
  apply rtc_once, reach_success_from_running.
Qed.

Lemma reach_success_from_available now rec :
  is_available_for_run (rec_status rec) = true → rtc moves rec (mkRecord Success None now).
Proof.
  intros Ha. eapply (rtc_l _ _ (mkRecord Pending (Some "r") now)).
  - apply (move_unowned now _ Pending "r"); [by rewrite pending_is_available| |done].
    by destruct rec as [[] o t].
  - apply reach_success_from_pending.
Qed.

Lemma reach_success_from_rerouted now o t :
  rtc moves (mkRecord Rerouted o t) (mkRecord Success None now).
Proof. by apply reach_success_from_available. Qed.

Lemma reach_success now rec :
  is_terminal (rec_status rec) = false → rtc moves rec (mkRecord Success None now).
Proof.
  intros Ht. destruct (is_available_for_run (rec_status rec)) eqn:Ha;
    [by apply reach_success_from_available|].
  destruct rec as [s o t]; simpl in *. destruct s; try done;
    try (eapply rtc_l; [by apply (move_unowned now _ Rerouted "r")|]; apply reach_success_from_rerouted).
  - apply reach_success_from_pending.
  - apply rtc_once, reach_success_from_running.
  - eapply rtc_l; [by apply (move_by_owner now _ Running)|].
    apply rtc_once, reach_success_from_running.
Qed.

(** ** Texts *)

Lemma status_display_upper s :
  str_upper (status_display s) = status_display s ∧
  str_upper (str_lower (status_display s)) = status_display s ∧
  str_all is_ascii_char (status_display s) = true ∧
  str_all is_ascii_char (str_lower (status_display s)) = true.
Proof. by destruct s. Qed.

Lemma status_from_upper `{UnicodeCase} s x :
  to_uppercase x = status_display s → status_from_str x = Ok s.
Proof. unfold status_from_str. intros ->. by destruct s. Qed.

(** ** Properties *)

(** every status has a row in the table (the lookup never panics); a status
    is terminal exactly when it has no next status; [Cancelled] can be entered
    from exactly the unfinished statuses; a status can move to [Pending] exactly
    when it is marked available for a runner. *)
Theorem status_table_rules (s : InvocationStatus) :
  (∃ d, definition build_config s = Some d) ∧
  (is_terminal s = true ↔ valid_transitions s = []) ∧
  (can_transition_to s Cancelled = negb (is_terminal s)) ∧
  (can_transition_to s Pending = is_available_for_run s) ∧
  (s ∈ final_statuses ↔ is_terminal s = true) ∧
  (s ∈ available_for_run_statuses ↔ is_available_for_run s = true).
Proof.
  split_and!.
  - eexists. apply definition_total.
  - by_status s.
  - by_status s.
  - apply pending_is_available.
  - destruct s; vm_compute; set_solver.
  - destruct s; vm_compute; set_solver.
Qed.

(** C3: a transition of a record succeeds exactly when the table allows the move
    and the requester satisfies the ownership rules, and then yields the record
    with the new status, the computed owner and the clock reading; a move the
    table forbids is a transition error listing the allowed statuses, a move
    only ownership forbids is an ownership error; it never panics. *)
Theorem transition_characterised (now : DateTime) (cur : InvocationStatusRecord)
    (st : InvocationStatus) (r : option RunnerId) :
  match status_record_transition now (Some cur) st r with
  | Ok rec' => may_transition cur st r ∧ rec' = moved now cur st r
  | Err (TransitionE e) =>
      can_transition_to (rec_status cur) st = false ∧
      e = {| te_from := Some (rec_status cur); te_to := st;
             te_allowed := valid_transitions (rec_status cur) |}
  | Err (OwnershipE e) =>
      can_transition_to (rec_status cur) st = true ∧ ¬ ownership_ok cur st r ∧
      oe_from_status e = rec_status cur ∧ oe_to_status e = st
  | Panic _ => False
  end.
Proof.
  destruct (can_transition_to (rec_status cur) st) eqn:Hc.
  2: { by rewrite transition_invalid. }
  destruct (validate_ownership_cases cur st r) as [Ho|(e&He&?&?)].
  - apply validate_ownership_Ok in Ho.
    by rewrite (proj2 (transition_Ok now cur st r (moved now cur st r))).
  - assert (¬ ownership_ok cur st r) as Hn
      by (intros Hok%validate_ownership_Ok; congruence).
    by destruct (transition_not_owner now cur st r Hc Hn) as (e'&->&?&?).
Qed.

(** ownership fencing.  In every record a lifecycle reaches, [Pending],
    [Running] and [Paused] have an owner; a runner that is not the owner (or a
    caller without a runner id) can move such a record only to a recovery status
    or to [Cancelled]. *)
Theorem ownership_fencing (now : DateTime) (rec rec' : InvocationStatusRecord)
    (st : InvocationStatus) (r : option RunnerId) :
  lifecycle rec → requires_ownership (flags (rec_status rec)) = true →
  status_record_transition now (Some rec) st r = Ok rec' →
  (∃ o, rec_runner_id rec = Some o) ∧
  (r ≠ rec_runner_id rec → st ∈ [PendingRecovery; RunningRecovery; Cancelled]).
Proof.
  intros Hl Hq [[Hc Ho] _]%transition_Ok. destruct (lifecycle_owner rec Hl) as [Hown _].
  split; [destruct (rec_runner_id rec) as [o|]; [eauto|by destruct (Hown Hq)]|].
  intros Hr. destruct Ho as [Ho|[Ho _]]; [|by destruct Hr; auto].
  destruct st; vm_compute in Ho; try done; set_solver.
Qed.

Lemma ownership_fencing_witness :
  lifecycle (mkRecord Pending (Some "r1") 1) ∧
  ((∃ o, Some "r1" = Some o) ∧
   (Some "r2" ≠ Some "r1" → Cancelled ∈ [PendingRecovery; RunningRecovery; Cancelled])).
Proof.
  assert (lifecycle (mkRecord Pending (Some "r1") 1)) as Hl.
  { apply (life_step 1 (mkRecord Registered None 0) Pending (Some "r1")); [|reflexivity].
    apply (life_registered 0 None). }
  split; [exact Hl|].
  apply (ownership_fencing 2 (mkRecord Pending (Some "r1") 1) (mkRecord Cancelled None 2)
           Cancelled (Some "r2") Hl); reflexivity.
Defined.

(** progress.  From a terminal record no transition succeeds, whoever asks;
    from every other record some sequence of successful transitions ends in
    [Success]. *)
Theorem status_progress (now : DateTime) (rec : InvocationStatusRecord) :
  if is_terminal (rec_status rec)
  then ∀ rec', ¬ moves rec rec'
  else rtc moves rec (mkRecord Success None now).
Proof.
  destruct (is_terminal (rec_status rec)) eqn:Ht.
  - intros rec' (n & st & r & [[Hc _] _]%transition_Ok).
    by rewrite (terminal_no_transition _ _ Ht) in Hc.
  - by apply reach_success.
Qed.

(** the text of a status parses back to it, in upper case (as [Display]
    prints it) and in lower case. *)
Theorem status_text_roundtrip `{UnicodeCase} (s : InvocationStatus) :
  status_from_str (status_display s) = Ok s ∧
  status_from_str (to_lowercase (status_display s)) = Ok s.
Proof.
  destruct (status_display_upper s) as (H1&H2&H3&H4).
  split; apply status_from_upper.
  - by rewrite to_uppercase_ascii, H1.
  - by rewrite to_lowercase_ascii, to_uppercase_ascii.
Qed.
