(* ===== verification/Errors.v ===== *)
(** * Errors of the engine

    Models [rustvello-core/src/error.rs]: the error type every operation
    returns, the error stored with a failed invocation, and the conversion of
    the status machine's errors. *)
From S2P Require Import Prelude Effects Identifiers Status.

(* @src rustvello-core/src/error.rs 5-22 InfraErrorKind *)
Inductive InfraErrorKind := Connection | Timeout | Query | DataCorruption | Other.

#[export] Instance InfraErrorKind_eq_dec : EqDecision InfraErrorKind.
Proof. solve_decision. Defined.

(* @src rustvello-core/src/error.rs 24-34 InfraErrorKind::fmt *)
Definition infra_kind_display (k : InfraErrorKind) : string :=
  match k with
  | Connection => "connection" | Timeout => "timeout" | Query => "query"
  | DataCorruption => "data_corruption" | Other => "other"
  end.

(* @src rustvello-core/src/error.rs 36-41 InfraErrorKind::is_retriable *)
Definition is_retriable (k : InfraErrorKind) : bool :=
  match k with Connection | Timeout => true | _ => false end.

(** The boxed source of an infrastructure error is kept as its text. *)
(* @src rustvello-core/src/error.rs 43-171 RustvelloError *)
Inductive RustvelloError :=
| ERetry (reason : string)
| EConcurrencyRetry (task_id : TaskId) (reason : string)
| ESerialization (message : string)
| ETaskNotFound (task_id : TaskId)
| ETaskNotRegistered (task_id : TaskId)
| ECycleDetected (task_id : TaskId) (message : string)
| ERunnerNotExecutable (task_id : TaskId) (message : string)
| ETaskClassNotFound (task_id : TaskId)
| EInvocationNotFound (invocation_id : InvocationId)
| EInvalidStatusTransition (invocation_id : InvocationId) (from_status to_status : InvocationStatus)
    (allowed_statuses : list InvocationStatus)
| EOwnershipViolation (invocation_id : InvocationId) (from_status to_status : InvocationStatus)
    (current_owner attempted_owner reason : string)
| EStatusRaceCondition (invocation_id : InvocationId)
    (previous_status expected_status actual_status : InvocationStatus)
| EInvocationCancelled (invocation_id : InvocationId)
| ETaskExecution (error_type message : string) (traceback : option string)
| EInfrastructure (kind : InfraErrorKind) (message : string) (source : option string)
| EConfiguration (message : string)
| EWorkflowContextUnavailable
| EWorkflowMembershipRequired (invocation_id : InvocationId)
| EWorkflowRootRequired (invocation_id workflow_id : InvocationId)
| EInternal (message : string)
| ENotSupported (backend method : string).

#[export] Instance RustvelloError_eq_dec : EqDecision RustvelloError.
Proof. solve_decision. Defined.

(** The text of an error, from the formats of the variants. *)
(* @src rustvello-core/src/error.rs 50-170 RustvelloError::fmt *)
Definition error_display (e : RustvelloError) : string :=
  match e with
  | ERetry reason => "retry requested: " +:+ reason
  | EConcurrencyRetry t reason =>
      "concurrency retry: task " +:+ task_id_display t +:+ " — " +:+ reason
  | ESerialization m => "serialization error: " +:+ m
  | ETaskNotFound t => "task not found: " +:+ task_id_display t
  | ETaskNotRegistered t => "task not registered: " +:+ task_id_display t
  | ECycleDetected t m => "cycle detected: " +:+ task_id_display t +:+ " — " +:+ m
  | ERunnerNotExecutable t m => "runner not executable: " +:+ task_id_display t +:+ " — " +:+ m
  | ETaskClassNotFound t => "task class not found: " +:+ task_id_display t
  | EInvocationNotFound i => "invocation not found: " +:+ i
  | EInvalidStatusTransition _ from to _ =>
      "invalid status transition: " +:+ status_display from +:+ " -> " +:+ status_display to
  | EOwnershipViolation _ from to owner requester _ =>
      "ownership violation: " +:+ status_display from +:+ " -> " +:+ status_display to +:+
      ", owner=" +:+ owner +:+ ", requester=" +:+ requester
  | EStatusRaceCondition i _ _ _ => "status race condition on " +:+ i
  | EInvocationCancelled i => "invocation " +:+ i +:+ " was cancelled"
  | ETaskExecution t m _ => "task execution error (" +:+ t +:+ "): " +:+ m
  | EInfrastructure k m _ => "infrastructure error (" +:+ infra_kind_display k +:+ "): " +:+ m
  | EConfiguration m => "configuration error: " +:+ m
  | EWorkflowContextUnavailable => "workflow context is unavailable outside a running invocation"
  | EWorkflowMembershipRequired i => "invocation " +:+ i +:+ " is not a workflow member"
  | EWorkflowRootRequired i w =>
      "invocation " +:+ i +:+ " is not the defining root of workflow " +:+ w
  | EInternal m => "internal error: " +:+ m
  | ENotSupported b m => b +:+ " backend does not support " +:+ m
  end.

(* @src rustvello-core/src/error.rs 174-181 RustvelloError::state_backend *)
Definition state_backend_err (message : string) : RustvelloError :=
  EInfrastructure Query message None.

(* @src rustvello-core/src/error.rs 183-190 RustvelloError::broker_err *)
Definition broker_err (message : string) : RustvelloError := EInfrastructure Query message None.

(* @src rustvello-core/src/error.rs 192-199 RustvelloError::runner_err *)
Definition runner_err (message : string) : RustvelloError := EInfrastructure Other message None.

(* @src rustvello-core/src/error.rs 201-208 RustvelloError::connection_err *)
Definition connection_err (message : string) : RustvelloError :=
  EInfrastructure Connection message None.

Abbreviation RustvelloResult := (outcome RustvelloError) (only parsing).

(* @src rustvello-core/src/error.rs 224-230 TaskError *)
Record TaskError := mkTaskError {
  error_type : string;
  error_message : string;
  traceback : option string
}.

#[export] Instance TaskError_eq_dec : EqDecision TaskError.
Proof. solve_decision. Defined.

(* @src rustvello-core/src/error.rs 232-236 TaskError::fmt *)
Definition task_error_display (e : TaskError) : string := error_type e +:+ ": " +:+ error_message e.

(* @src rustvello-core/src/error.rs 238-266 status_machine_error_to_rustvello *)
Definition status_machine_error_to_rustvello (e : StatusMachineError) (invocation_id : InvocationId)
    (fallback_from_status : InvocationStatus) : RustvelloError :=
  match e with
  | TransitionE t =>
      EInvalidStatusTransition invocation_id (default fallback_from_status (te_from t))
        (te_to t) (te_allowed t)
  | OwnershipE o =>
      EOwnershipViolation invocation_id (oe_from_status o) (oe_to_status o)
        (default "" (oe_current_owner o)) (default "" (oe_attempted_owner o)) (oe_reason o)
  end.

(** The errors that name an invocation, and the one they name: callers match on
    them to tell a lost invocation from a refused transition. *)
Definition error_invocation (e : RustvelloError) : option InvocationId :=
  match e with
  | EInvocationNotFound i | EInvalidStatusTransition i _ _ _ | EOwnershipViolation i _ _ _ _ _
  | EStatusRaceCondition i _ _ _ | EInvocationCancelled i | EWorkflowMembershipRequired i
  | EWorkflowRootRequired i _ => Some i
  | _ => None
  end.

Lemma status_machine_error_names e i s :
  error_invocation (status_machine_error_to_rustvello e i s) = Some i.
Proof. by destruct e. Qed.

#[export] Hint Rewrite status_machine_error_names : rustvello_rw.
