(* ===== verification/Config.v ===== *)
(** * Configuration

    Models [rustvello-proto/src/config.rs] (task and application settings,
    their enumerations and parsers) and the routing validation of
    [rustvello-core/src/broker.rs].  Floats are bit patterns; the decimal parser
    of [f64] is an argument. *)
From S2P Require Import Prelude F64 Effects Identifiers Status Errors.

(* @src rustvello-proto/src/config.rs 6-6 DEFAULT_QUEUE *)
Definition DEFAULT_QUEUE : string := "default".
(* @src rustvello-proto/src/config.rs 7-7 MIN_PRIORITY *)
Definition MIN_PRIORITY : f64 := 0xC059000000000000.
(* @src rustvello-proto/src/config.rs 8-8 MAX_PRIORITY *)
Definition MAX_PRIORITY : f64 := 0x4059000000000000.
(* @src rustvello-proto/src/config.rs 9-9 DEFAULT_PRIORITY *)
Definition DEFAULT_PRIORITY : f64 := 0.

Definition f64_half : f64 := 0x3FE0000000000000.
Definition f64_one : f64 := 0x3FF0000000000000.
Definition f64_two : f64 := 0x4000000000000000.
Definition f64_five : f64 := 0x4014000000000000.

(** [str::parse::<f64>]: the correctly rounded decimal conversion. *)
Class ParseF64 := { parse_f64 : string → option f64 }.

(* @src rustvello-proto/src/config.rs 11-16 BrokerPriorityRule *)
Record BrokerPriorityRule := mkRule { rule_task_id : string; rule_priority : f64 }.

(** The texts of [ConfigParseError]. *)
(* @src rustvello-proto/src/config.rs 45-47 ConfigParseError *)
Inductive ConfigParseError :=
| RuleWithoutEquals (value : string)
| RulePriorityNotFloat (value : string)
| RuleOutOfRange (value : string)
| InvalidEnum (enum value : string).

#[export] Instance ConfigParseError_eq_dec : EqDecision ConfigParseError.
Proof. solve_decision. Defined.

(* @src rustvello-proto/src/config.rs 18-43 BrokerPriorityRule::from_str *)
Definition priority_rule_from_str `{ParseF64} (value : string)
    : outcome ConfigParseError BrokerPriorityRule :=
  '(task_id, priority) ← ok_or (str_rsplit "=" value) (RuleWithoutEquals value);
  p ← ok_or (parse_f64 priority) (RulePriorityNotFloat value);
  if bool_decide (task_id = "") || negb (f64_is_finite p) ||
     negb (f64_in_range MIN_PRIORITY MAX_PRIORITY p)
  then Err (RuleOutOfRange value)
  else Ok {| rule_task_id := task_id; rule_priority := p |}.

(* @src rustvello-proto/src/config.rs 57-67 LogFormat *)
Inductive LogFormat := LogText | LogJson.

(* @src rustvello-proto/src/config.rs 69-78 LogFormat::from_str *)
Definition log_format_from_str `{UnicodeCase} (s : string) : outcome ConfigParseError LogFormat :=
  let l := to_lowercase s in
  if decide (l = "text") then Ok LogText
  else if decide (l = "json") then Ok LogJson
  else Err (InvalidEnum "LogFormat" s).

(* @src rustvello-proto/src/config.rs 80-94 ArgumentPrintMode *)
Inductive ArgumentPrintMode := PrintFull | PrintKeys | PrintTruncated | PrintHidden.

(* @src rustvello-proto/src/config.rs 96-105 QueueSelectionStrategy *)
Inductive QueueSelectionStrategy := RoundRobin | Ordered | Random.

#[export] Instance QueueSelectionStrategy_eq_dec : EqDecision QueueSelectionStrategy.
Proof. solve_decision. Defined.

(* @src rustvello-proto/src/config.rs 107-120 QueueSelectionStrategy::from_str *)
Definition strategy_from_str (value : string) : outcome ConfigParseError QueueSelectionStrategy :=
  let l := str_lower value in
  if decide (l = "round_robin") then Ok RoundRobin
  else if decide (l = "ordered") then Ok Ordered
  else if decide (l = "random") then Ok Random
  else Err (InvalidEnum "QueueSelectionStrategy" value).

(* @src rustvello-proto/src/config.rs 122-133 ArgumentPrintMode::from_str *)
Definition print_mode_from_str `{UnicodeCase} (s : string)
    : outcome ConfigParseError ArgumentPrintMode :=
  let l := to_lowercase s in
  if decide (l = "full") then Ok PrintFull
  else if decide (l = "keys") then Ok PrintKeys
  else if decide (l = "truncated") then Ok PrintTruncated
  else if decide (l = "hidden") then Ok PrintHidden
  else Err (InvalidEnum "ArgumentPrintMode" s).

(* @src rustvello-proto/src/config.rs 135-152 RetryJitter *)
Inductive RetryJitter := JitterNone | JitterFull | JitterEqual.

#[export] Instance RetryJitter_eq_dec : EqDecision RetryJitter.
Proof. solve_decision. Defined.

(* @src rustvello-proto/src/config.rs 154-167 RetryJitter::from_str *)
Definition jitter_from_str (value : string) : outcome ConfigParseError RetryJitter :=
  let l := str_lower value in
  if decide (l = "none") then Ok JitterNone
  else if decide (l = "full") then Ok JitterFull
  else if decide (l = "equal") then Ok JitterEqual
  else Err (InvalidEnum "RetryJitter" value).

(* @src rustvello-proto/src/config.rs 169-177 RetryJitter::fmt *)
Definition jitter_display (j : RetryJitter) : string :=
  match j with JitterNone => "none" | JitterFull => "full" | JitterEqual => "equal" end.

(* @src rustvello-proto/src/config.rs 179-180 TASK_TIMEOUT_ERROR *)
Definition TASK_TIMEOUT_ERROR : string := "TaskTimeoutError".
(* @src rustvello-proto/src/config.rs 182-183 DEFAULT_RETRY_MAX_DELAY_MS *)
Definition DEFAULT_RETRY_MAX_DELAY_MS : Z := 300000.
(* @src rustvello-proto/src/config.rs 185-186 DEFAULT_RETRY_BACKOFF *)
Definition DEFAULT_RETRY_BACKOFF : f64 := f64_two.

(** ** Task configuration *)

(* @src rustvello-proto/src/config.rs 200-263 TaskConfig *)
Record TaskConfig := mkTaskConfig {
  tc_queue : string;
  tc_priority : f64;
  tc_max_retries : Z;
  tc_retry_for_errors : list string;
  tc_concurrency_control : ConcurrencyControlType;
  tc_running_concurrency : option Z;
  tc_registration_concurrency : ConcurrencyControlType;
  tc_cache_results : bool;
  tc_key_arguments : list string;
  tc_disable_cache_args : list string;
  tc_on_diff_non_key_args_raise : bool;
  tc_parallel_batch_size : Z;
  tc_is_workflow_task : bool;
  tc_reroute_on_cc : bool;
  tc_blocking : bool;
  tc_retry_delay_ms : Z;
  tc_retry_max_delay_ms : Z;
  tc_retry_backoff : f64;
  tc_retry_jitter : RetryJitter;
  tc_timeout_ms : option Z;
  tc_retry_on_timeout : bool
}.

(* @src rustvello-proto/src/config.rs 305-331 TaskConfig::default *)
Definition task_config_default : TaskConfig :=
  {| tc_queue := DEFAULT_QUEUE;
     tc_priority := DEFAULT_PRIORITY;
     tc_max_retries := 0;
     tc_retry_for_errors := [];
     tc_concurrency_control := Unlimited;
     tc_running_concurrency := None;
     tc_registration_concurrency := Unlimited;
     tc_cache_results := false;
     tc_key_arguments := [];
     tc_disable_cache_args := [];
     tc_on_diff_non_key_args_raise := false;
     tc_parallel_batch_size := 100;
     tc_is_workflow_task := false;
     tc_reroute_on_cc := false;
     tc_blocking := false;
     tc_retry_delay_ms := 0;
     tc_retry_max_delay_ms := DEFAULT_RETRY_MAX_DELAY_MS;
     tc_retry_backoff := DEFAULT_RETRY_BACKOFF;
     tc_retry_jitter := JitterEqual;
     tc_timeout_ms := None;
     tc_retry_on_timeout := true |}.

(** The deadline in milliseconds. *)
(* @src rustvello-proto/src/config.rs 297-302 TaskConfig::timeout *)
Definition task_timeout (c : TaskConfig) : option Z :=
  match tc_timeout_ms c with Some ms => if 0 <? ms then Some ms else None | None => None end.

(** The delay in milliseconds. *)
(* @src rustvello-proto/src/config.rs 266-295 TaskConfig::retry_delay *)
Definition retry_delay `{FloatPowi} (c : TaskConfig) (retry_count : Z) (random_unit : f64) : Z :=
  if tc_retry_delay_ms c =? 0 then 0
  else
    let factor :=
      if f64_is_finite (tc_retry_backoff c) && f64_le_finite f64_one (tc_retry_backoff c)
      then tc_retry_backoff c else f64_one in
    let cap := f64_of_u64 (Z.max (tc_retry_max_delay_ms c) 1) in
    let exponent := if retry_count <=? 2147483647 then retry_count else 2147483647 in
    let base := f64_min (f64_mul (f64_of_u64 (tc_retry_delay_ms c)) (f64_powi factor exponent)) cap in
    let unit := if f64_is_finite random_unit then f64_clamp random_unit 0 f64_one else 0 in
    let millis := match tc_retry_jitter c with
      | JitterNone => base
      | JitterFull => f64_mul base unit
      | JitterEqual => f64_add (f64_div base f64_two) (f64_mul (f64_div base f64_two) unit)
      end in
    u64_of_f64 (f64_round millis).

(** ** Application configuration *)

(* @src rustvello-proto/src/config.rs 333-434 AppConfig *)
Record AppConfig := mkAppConfig {
  ac_app_id : string;
  ac_broker_queues : list string;
  ac_runner_queues : list string;
  ac_queue_selection_strategy : QueueSelectionStrategy;
  ac_priority_rules : list BrokerPriorityRule;
  ac_dev_mode_force_sync : bool;
  ac_max_pending_seconds : Z;
  ac_heartbeat_interval_seconds : Z;
  ac_runner_dead_after_seconds : Z;
  ac_recovery_check_interval_seconds : Z;
  ac_max_invocation_recoveries : Z;
  ac_print_arguments : bool;
  ac_argument_print_mode : ArgumentPrintMode;
  ac_truncate_arguments_length : Z;
  ac_recover_pending_cron : string;
  ac_recover_running_cron : string;
  ac_trigger_task_modules : list string;
  ac_cached_status_time_seconds : f64;
  ac_logging_level : string;
  ac_log_format : LogFormat;
  ac_log_use_colors : option bool;
  ac_compact_log_context : bool;
  ac_blocking_control : bool;
  ac_auto_final_invocation_purge_hours : f64;
  ac_scheduler_interval_seconds : Z;
  ac_enable_scheduler : bool;
  ac_atomic_service_interval_minutes : f64;
  ac_atomic_service_spread_margin_minutes : f64;
  ac_atomic_service_check_interval_minutes : f64;
  ac_cancellation_check_interval_seconds : f64
}.

(* @src rustvello-proto/src/config.rs 440-484 AppConfig::default *)
Definition app_config_new (app_id : string) : AppConfig :=
  {| ac_app_id := app_id;
     ac_broker_queues := [DEFAULT_QUEUE];
     ac_runner_queues := [];
     ac_queue_selection_strategy := RoundRobin;
     ac_priority_rules := [];
     ac_dev_mode_force_sync := false;
     ac_max_pending_seconds := 300;
     ac_heartbeat_interval_seconds := 30;
     ac_runner_dead_after_seconds := 300;
     ac_recovery_check_interval_seconds := 60;
     ac_max_invocation_recoveries := 3;
     ac_print_arguments := true;
     ac_argument_print_mode := PrintTruncated;
     ac_truncate_arguments_length := 32;
     ac_recover_pending_cron := "*/5 * * * *";
     ac_recover_running_cron := "*/15 * * * *";
     ac_trigger_task_modules := [];
     ac_cached_status_time_seconds := 0;
     ac_logging_level := "info";
     ac_log_format := LogText;
     ac_log_use_colors := None;
     ac_compact_log_context := true;
     ac_blocking_control := true;
     ac_auto_final_invocation_purge_hours := 0;
     ac_scheduler_interval_seconds := 60;
     ac_enable_scheduler := true;
     ac_atomic_service_interval_minutes := f64_five;
     ac_atomic_service_spread_margin_minutes := f64_one;
     ac_atomic_service_check_interval_minutes := f64_half;
     ac_cancellation_check_interval_seconds := f64_one |}.

(* @src rustvello-proto/src/config.rs 486-508 ClientDataStoreConfig *)
Record ClientDataStoreConfig := mkClientDataStoreConfig {
  cd_disabled : bool;
  cd_min_size_to_cache : Z;
  cd_max_size_to_cache : Z;
  cd_local_cache_size : Z;
  cd_warn_threshold : Z
}.

(* @src rustvello-proto/src/config.rs 510-520 ClientDataStoreConfig::default *)
Definition client_data_store_config_default : ClientDataStoreConfig :=
  {| cd_disabled := false; cd_min_size_to_cache := 1024; cd_max_size_to_cache := 0;
     cd_local_cache_size := 1024; cd_warn_threshold := 10485760 |}.

(** ** Routing validation *)

Definition queue_char (c : Ascii.ascii) : bool :=
  is_ascii_alphanumeric c || bool_decide (c ∈ ["_"%char; "."%char; "-"%char]).

Definition valid_queue_name (q : string) : bool :=
  negb (bool_decide (q = "")) && str_all queue_char q.

Definition valid_priority (p : f64) : bool :=
  f64_is_finite p && f64_in_range MIN_PRIORITY MAX_PRIORITY p.

(* @src rustvello-core/src/broker.rs 13-32 validate_routing *)
Definition validate_routing (queue_name : string) (priority : f64) : RustvelloResult unit :=
  if negb (valid_queue_name queue_name) then
    Err (EConfiguration ("invalid queue name " +:+ str_debug queue_name +:+
                         "; expected [A-Za-z0-9_.-]+"))
  else if negb (valid_priority priority) then
    Err (EConfiguration "priority must be a finite float between -100 and 100")
  else Ok tt.

#[global] Arguments validate_routing : simpl never.

Lemma validate_routing_Ok q p :
  validate_routing q p = Ok tt ↔ valid_queue_name q = true ∧ valid_priority p = true.
Proof. unfold validate_routing. destruct (valid_queue_name q), (valid_priority p); naive_solver. Qed.

Lemma validate_routing_cases q p :
  (validate_routing q p = Ok tt ∧ valid_queue_name q = true ∧ valid_priority p = true) ∨
  ∃ m, validate_routing q p = Err (EConfiguration m) ∧
       (valid_queue_name q = false ∨ valid_priority p = false).
Proof. unfold validate_routing. destruct (valid_queue_name q), (valid_priority p); naive_solver. Qed.

(** The default route is always accepted. *)
Lemma validate_routing_default : validate_routing DEFAULT_QUEUE DEFAULT_PRIORITY = Ok tt.
Proof. reflexivity. Qed.

Example priority_bounds :
  valid_priority MIN_PRIORITY = true ∧ valid_priority MAX_PRIORITY = true ∧
  valid_priority 0x4059400000000000 = false ∧ valid_priority 0x7FF8000000000000 = false ∧
  valid_priority 0x8000000000000000 = true.
Proof. by vm_compute. Qed.

#[export] Hint Resolve validate_routing_default : rustvello.
