(* ===== verification/Call.v ===== *)
(** * Calls: serialized arguments and their digest

    Models [rustvello-proto/src/call.rs] and [hex.rs].  The digest function and
    the JSON encoder of strings are arguments; the theorem says that equal
    argument ids mean equal arguments, up to a collision of the digest. *)
From S2P Require Import Prelude Effects Identifiers Config.

(** The bytes of a text. *)
Fixpoint str_bytes (s : string) : list Z :=
  match s with
  | EmptyString => []
  | String c s' => Z.of_N (Ascii.N_of_ascii c) :: str_bytes s'
  end.

(** SHA-256 ([sha2] crate): 32 bytes. *)
Class Sha256 := {
  sha256 : list Z → list Z;
  sha256_length bs : length (sha256 bs) = 32%nat;
  sha256_bytes bs : Forall (λ b, 0 ≤ b < 256) (sha256 bs)
}.

(** [serde_json::to_string] of a text: it cannot fail, and a JSON string literal
    is self-delimiting and determines the text. *)
Class SerdeString := {
  json_string : string → option string;
  json_string_total s : is_Some (json_string s);
  json_string_prefix a b ja jb r r' :
    json_string a = Some ja → json_string b = Some jb → ja +:+ r = jb +:+ r' → a = b ∧ r = r'
}.

(* @src rustvello-proto/src/hex.rs 5-13 lower_hex *)
Fixpoint lower_hex (bytes : list Z) : string :=
  match bytes with
  | [] => ""
  | b :: bs => String (hex_digit (b / 16)) (String (hex_digit (b mod 16)) (lower_hex bs))
  end.

(* @src rustvello-proto/src/call.rs 7-13 SerializedArguments *)
Definition SerializedArguments : Type := gmap string string.

(* @src rustvello-proto/src/call.rs 16-18 SerializedArguments::new *)
Definition arguments_new : SerializedArguments := ∅.

(* @src rustvello-proto/src/call.rs 20-22 SerializedArguments::insert *)
Definition arguments_insert (k v : string) (a : SerializedArguments) : SerializedArguments :=
  <[k := v]> a.

Definition arguments_empty (a : SerializedArguments) : bool := bool_decide (a = ∅).

(** What the loop of [compute_args_id] feeds to the digest. *)
(* @src rustvello-proto/src/call.rs 33-41 SerializedArguments::compute_args_id *)
Fixpoint digest_input `{SerdeString} (pairs : list (string * string)) : string :=
  match pairs with
  | [] => ""
  | (k, v) :: rest =>
      default k (json_string k) +:+ "=" +:+ (default v (json_string v) +:+ ";" +:+ digest_input rest)
  end.

(* @src rustvello-proto/src/call.rs 24-43 SerializedArguments::compute_args_id *)
Definition compute_args_id `{Sha256} `{SerdeString} (a : SerializedArguments) : string :=
  if arguments_empty a then "no_args"
  else lower_hex (sha256 (str_bytes (digest_input (btree_iter a)))).

(* @src rustvello-proto/src/call.rs 53-69 SerializedArguments::cc_arg_pairs *)
Definition cc_arg_pairs (a : SerializedArguments) : list (string * string) :=
  if arguments_empty a then [("", "")] else btree_iter a.

(* @src rustvello-proto/src/call.rs 73-83 SerializedArguments::cc_key *)
Definition cc_key `{Sha256} `{SerdeString} (args : option SerializedArguments) : string :=
  match args with
  | None => ""
  | Some a => if arguments_empty a then "" else compute_args_id a
  end.

(** [v.char_indices().nth(n)]: the bytes before the [n]-th character of UTF-8
    text, a byte of the form [10xxxxxx] continuing a character. *)
Definition utf8_continuation (c : Ascii.ascii) : bool :=
  (N.leb 128 (Ascii.N_of_ascii c) && N.ltb (Ascii.N_of_ascii c) 192)%bool.

Fixpoint str_take_chars (n : nat) (s : string) : string :=
  match s with
  | EmptyString => EmptyString
  | String c s' =>
      if utf8_continuation c then String c (str_take_chars n s')
      else match n with O => EmptyString | S n' => String c (str_take_chars n' s') end
  end.

(* @src rustvello-proto/src/call.rs 85-120 SerializedArguments::display *)
Definition arguments_display (mode : ArgumentPrintMode) (truncate_length : nat)
    (a : SerializedArguments) : string :=
  if arguments_empty a then "<no_args>"
  else
    match mode with
    | PrintHidden => "<arguments hidden>"
    | PrintKeys => "{" +:+ str_join ", " (btree_iter a).*1 +:+ "}"
    | PrintFull => "{" +:+ str_join ", " ((λ p, p.1 +:+ ": " +:+ p.2) <$> btree_iter a) +:+ "}"
    | PrintTruncated =>
        "{" +:+ str_join ", " ((λ p,
          if (truncate_length <? String.length p.2)%nat
          then p.1 +:+ ": " +:+ str_take_chars truncate_length p.2 +:+ "..."
          else p.1 +:+ ": " +:+ p.2) <$> btree_iter a) +:+ "}"
    end.

(* @src rustvello-proto/src/call.rs 123-131 CallDTO *)
Record CallDTO := mkCallDTO {
  cd_call_id : CallId;
  cd_task_id : TaskId;
  cd_serialized_arguments : SerializedArguments
}.

#[export] Instance CallDTO_eq_dec : EqDecision CallDTO.
Proof. solve_decision. Defined.

(* @src rustvello-proto/src/call.rs 133-143 CallDTO::new *)
Definition call_dto_new `{Sha256} `{SerdeString} (task_id : TaskId) (args : SerializedArguments)
    : CallDTO :=
  {| cd_call_id := call_id_new task_id (compute_args_id args); cd_task_id := task_id;
     cd_serialized_arguments := args |}.

(* @src rustvello-proto/src/call.rs 145-160 CallDTO::fmt *)
Definition call_dto_display (c : CallDTO) : string :=
  "Call(task=" +:+ task_id_display (cd_task_id c) +:+ ", arguments=[" +:+
  str_join ", " (btree_iter (cd_serialized_arguments c)).*1 +:+ "])".

#[global] Arguments compute_args_id : simpl never.

(** ** Facts about the digest input *)

Lemma hex_digit_inj n m : 0 ≤ n < 16 → 0 ≤ m < 16 → hex_digit n = hex_digit m → n = m.
Proof.
  intros Hn Hm Heq.
  assert (n ∈ seqZ 0 16 ∧ m ∈ seqZ 0 16) as [Hn' Hm'] by (rewrite !elem_of_seqZ; lia).
  clear Hn Hm. vm_compute in Hn', Hm'.
  repeat (apply elem_of_cons in Hn' as [->|Hn']; [repeat (apply elem_of_cons in Hm' as [->|Hm'];
    [first [done|by vm_compute in Heq]|]); by apply elem_of_nil in Hm'|]).
  by apply elem_of_nil in Hn'.
Qed.

Lemma lower_hex_inj bs bs' :
  Forall (λ b, 0 ≤ b < 256) bs → Forall (λ b, 0 ≤ b < 256) bs' →
  lower_hex bs = lower_hex bs' → bs = bs'.
Proof.
  intros Hbs. revert bs'. induction Hbs as [|b bs Hb Hbs IH]; intros [|b' bs'] Hbs'; simpl; try done.
  inversion_clear Hbs' as [|? ? Hb' Hbs'']. intros [= H1 H2 H3].
  apply hex_digit_inj in H1; [|split; [apply Z.div_pos; lia|apply Z.div_lt_upper_bound; lia]..].
  apply hex_digit_inj in H2; [|by apply Z.mod_pos_bound..].
  rewrite (Z.div_mod b 16), (Z.div_mod b' 16), H1, H2 by lia. f_equal. by apply IH.
Qed.

Lemma lower_hex_length bs : String.length (lower_hex bs) = (2 * length bs)%nat.
Proof. induction bs as [|b bs IH]; simpl; [done|]. rewrite IH. lia. Qed.

Lemma str_bytes_inj s s' : str_bytes s = str_bytes s' → s = s'.
Proof.
  revert s'. induction s as [|c s IH]; intros [|c' s']; simpl; try done.
  intros [= Hc Hs]. apply N2Z.inj in Hc. f_equal; [by apply N_of_ascii_inj|by apply IH].
Qed.

Lemma digest_input_inj `{SerdeString} l l' : digest_input l = digest_input l' → l = l'.
Proof.
  revert l'. induction l as [|[k v] l IH]; intros [|[k' v'] l'].
  - done.
  - destruct (json_string_total k') as [j Hj]. simpl. rewrite Hj. simpl. by destruct j.
  - destruct (json_string_total k) as [j Hj]. simpl. rewrite Hj. simpl. by destruct j.
  - destruct (json_string_total k) as [jk Hk], (json_string_total k') as [jk' Hk'],
      (json_string_total v) as [jv Hv], (json_string_total v') as [jv' Hv'].
    simpl. rewrite Hk, Hk', Hv, Hv'. simpl. intros Heq.
    destruct (json_string_prefix _ _ _ _ _ _ Hk Hk' Heq) as [-> [= Heq']].
    destruct (json_string_prefix _ _ _ _ _ _ Hv Hv' Heq') as [-> [= Heq'']].
    by rewrite (IH l').
Qed.

Lemma btree_iter_inj {V} (m m' : gmap string V) : btree_iter m = btree_iter m' → m = m'.
Proof.
  intros Heq. apply map_eq. intros k. apply option_eq. intros v.
  by rewrite <-!elem_of_btree_iter, Heq.
Qed.

Lemma hex_not_no_args `{Sha256} bs : lower_hex (sha256 bs) ≠ "no_args".
Proof.
  intros Heq. apply (f_equal String.length) in Heq.
  rewrite lower_hex_length, sha256_length in Heq. vm_compute in Heq. done.
Qed.

(** ** Argument ids *)

(** A collision of the digest: two inputs with one image. *)
Definition sha256_collision `{Sha256} : Prop := ∃ a b, a ≠ b ∧ sha256 a = sha256 b.

(** the argument id identifies the arguments: two argument maps with the
    same id are the same map, unless the digest itself collides.  Keys and
    values that contain the delimiters cannot be confused, and the id of the
    empty map is not the id of any other. *)
Theorem args_id_faithful `{Sha256} `{SerdeString} (a b : SerializedArguments) :
  compute_args_id a = compute_args_id b → a = b ∨ sha256_collision.
Proof.
  unfold compute_args_id, arguments_empty. repeat case_bool_decide; intros Heq.
  - left. congruence.
  - by destruct (hex_not_no_args (str_bytes (digest_input (btree_iter b)))).
  - by destruct (hex_not_no_args (str_bytes (digest_input (btree_iter a)))).
  - apply lower_hex_inj in Heq; [|apply sha256_bytes..].
    destruct (decide (str_bytes (digest_input (btree_iter a)) =
                      str_bytes (digest_input (btree_iter b)))) as [Hin|Hin].
    + left. by apply btree_iter_inj, digest_input_inj, str_bytes_inj.
    + right. by exists (str_bytes (digest_input (btree_iter a))),
        (str_bytes (digest_input (btree_iter b))).
Qed.

(** A JSON encoder for the witness: quotes and backslashes are escaped. *)
Fixpoint json_escape (s : string) : string :=
  match s with
  | EmptyString => ""
  | String c s' =>
      if bool_decide (c = double_quote ∨ c = Ascii.ascii_of_N 92)
      then String (Ascii.ascii_of_N 92) (String c (json_escape s'))
      else String c (json_escape s')
  end.

Lemma json_escape_prefix a b r r' :
  json_escape a +:+ String double_quote r = json_escape b +:+ String double_quote r' →
  a = b ∧ r = r'.
Proof.
  revert b. induction a as [|c a IH]; intros [|d b]; simpl.
  - by intros [= ->].
  - case_bool_decide; simpl; [done|]. intros [= Hd _]. naive_solver.
  - case_bool_decide; simpl; [done|]. intros [= Hc _]. naive_solver.
  - repeat case_bool_decide; simpl; intros Heq; injection Heq as Hc; try naive_solver;
      subst; destruct (IH b) as [-> ->]; naive_solver.
Qed.

Definition json_quotes : SerdeString.
Proof.
  refine {| json_string s := Some (String double_quote (json_escape s +:+ String double_quote "")) |}.
  - by eexists.
  - intros a b ja jb r r' [= <-] [= <-]. simpl. rewrite !str_app_assoc. simpl.
    intros [= Heq]. by apply json_escape_prefix in Heq.
Defined.

(** A digest for the witness: the input's first bytes, padded. *)
Definition pad_digest : Sha256.
Proof.
  refine {| sha256 bs := take 32 (((λ b, b mod 256) <$> bs) ++ replicate 32 0) |}.
  - intros bs. rewrite length_take, length_app, length_replicate. lia.
  - intros bs. apply Forall_take, Forall_app. split.
    + apply Forall_fmap, Forall_true. intros b. simpl. by apply Z.mod_pos_bound.
    + apply Forall_replicate. lia.
Defined.

Lemma args_id_faithful_witness :
  let a := arguments_insert "x" "1" arguments_new in
  @compute_args_id pad_digest json_quotes a = @compute_args_id pad_digest json_quotes (<["x" := "1"]> ∅) ∧
  (a = <["x" := "1"]> ∅ ∨ @sha256_collision pad_digest).
Proof.
  intros a. split; [reflexivity|].
  apply (@args_id_faithful pad_digest json_quotes). reflexivity.
Defined.

Example args_display_utf8 :
  arguments_display PrintTruncated 3 (<["k" := "abcdef"]> ∅) = "{k: abc...}".
Proof. reflexivity. Qed.
