(* ===== verification/Invocation.v ===== *)
(** * Invocations, history entries and workflow identities

    Models [rustvello-proto/src/invocation.rs].  Constructors that read the
    clock take the reading as the argument [now]. *)
From S2P Require Import Prelude Effects Identifiers Status.

(* @src rustvello-proto/src/invocation.rs 7-18 TraceContextCarrier *)
Record TraceContextCarrier := mkTraceContext {
  traceparent : option string;
  tracestate : option string
}.

#[export] Instance TraceContextCarrier_eq_dec : EqDecision TraceContextCarrier.
Proof. solve_decision. Defined.

(* @src rustvello-proto/src/invocation.rs 12-12 TraceContextCarrier::default *)
Definition trace_context_default : TraceContextCarrier :=
  {| traceparent := None; tracestate := None |}.

(* @src rustvello-proto/src/invocation.rs 20-24 TraceContextCarrier::is_empty *)
Definition trace_context_is_empty (t : TraceContextCarrier) : bool :=
  bool_decide (traceparent t = None) && bool_decide (tracestate t = None).

(* @src rustvello-proto/src/invocation.rs 26-34 ExecutionAttemptIdentity *)
Record ExecutionAttemptIdentity := mkAttemptIdentity {
  attempt_number : Z;
  execution_trace_context : TraceContextCarrier;
  previous_attempt_trace_context : TraceContextCarrier
}.

#[export] Instance ExecutionAttemptIdentity_eq_dec : EqDecision ExecutionAttemptIdentity.
Proof. solve_decision. Defined.

(** ** Workflow identity *)

(* @src rustvello-proto/src/invocation.rs 152-166 WorkflowIdentity *)
Record WorkflowIdentity := mkWorkflow {
  workflow_id : InvocationId;
  workflow_type : TaskId;
  wf_parent_id : option InvocationId;
  wf_depth : Z
}.

#[export] Instance WorkflowIdentity_eq_dec : EqDecision WorkflowIdentity.
Proof. solve_decision. Defined.

(* @src rustvello-proto/src/invocation.rs 169-177 WorkflowIdentity::root *)
Definition workflow_root (wid : InvocationId) (wtype : TaskId) : WorkflowIdentity :=
  {| workflow_id := wid; workflow_type := wtype; wf_parent_id := None; wf_depth := 0 |}.

(* @src rustvello-proto/src/invocation.rs 179-192 WorkflowIdentity::child *)
Definition workflow_child (wid : InvocationId) (wtype : TaskId) (parent_id : InvocationId)
    (depth : Z) : WorkflowIdentity :=
  {| workflow_id := wid; workflow_type := wtype; wf_parent_id := Some parent_id;
     wf_depth := depth |}.

(* @src rustvello-proto/src/invocation.rs 194-206 WorkflowIdentity::sub_workflow *)
Definition sub_workflow (wid : InvocationId) (wtype : TaskId) (parent_workflow_id : InvocationId)
    : WorkflowIdentity :=
  {| workflow_id := wid; workflow_type := wtype; wf_parent_id := Some parent_workflow_id;
     wf_depth := 0 |}.

(* @src rustvello-proto/src/invocation.rs 208-211 WorkflowIdentity::is_sub_workflow *)
Definition is_sub_workflow (w : WorkflowIdentity) : bool := bool_decide (is_Some (wf_parent_id w)).

(** ** Invocations *)

(* @src rustvello-proto/src/invocation.rs 36-55 InvocationDTO *)
Record InvocationDTO := mkInvocation {
  inv_id : InvocationId;
  inv_task_id : TaskId;
  inv_call_id : CallId;
  inv_status : InvocationStatus;
  inv_created_at : DateTime;
  inv_updated_at : DateTime;
  inv_parent : option InvocationId;
  inv_workflow : option WorkflowIdentity;
  inv_trace_context : TraceContextCarrier
}.

#[export] Instance InvocationDTO_eq_dec : EqDecision InvocationDTO.
Proof. solve_decision. Defined.

(* @src rustvello-proto/src/invocation.rs 58-71 InvocationDTO::new *)
Definition invocation_new (now : DateTime) (id : InvocationId) (task_id : TaskId)
    (call_id : CallId) : InvocationDTO :=
  {| inv_id := id; inv_task_id := task_id; inv_call_id := call_id; inv_status := Registered;
     inv_created_at := now; inv_updated_at := now; inv_parent := None; inv_workflow := None;
     inv_trace_context := trace_context_default |}.

(* @src rustvello-proto/src/invocation.rs 73-93 InvocationDTO::with_workflow *)
Definition invocation_with_workflow (now : DateTime) (id : InvocationId) (task_id : TaskId)
    (call_id : CallId) (parent : option InvocationId) (w : WorkflowIdentity) : InvocationDTO :=
  {| inv_id := id; inv_task_id := task_id; inv_call_id := call_id; inv_status := Registered;
     inv_created_at := now; inv_updated_at := now; inv_parent := parent; inv_workflow := Some w;
     inv_trace_context := trace_context_default |}.

(* @src rustvello-proto/src/invocation.rs 95-99 InvocationDTO::with_trace_context *)
Definition with_trace_context (t : TraceContextCarrier) (i : InvocationDTO) : InvocationDTO :=
  {| inv_id := inv_id i; inv_task_id := inv_task_id i; inv_call_id := inv_call_id i;
     inv_status := inv_status i; inv_created_at := inv_created_at i;
     inv_updated_at := inv_updated_at i; inv_parent := inv_parent i;
     inv_workflow := inv_workflow i; inv_trace_context := t |}.

(* @src rustvello-proto/src/invocation.rs 101-106 InvocationDTO::is_workflow_defining *)
Definition is_workflow_defining (i : InvocationDTO) : bool :=
  match inv_workflow i with
  | Some w => bool_decide (workflow_id w = inv_id i)
  | None => false
  end.

(** Assignments [invocation.status = s; invocation.updated_at = t]. *)
Definition set_status_fields (s : InvocationStatus) (t : DateTime) (i : InvocationDTO)
    : InvocationDTO :=
  {| inv_id := inv_id i; inv_task_id := inv_task_id i; inv_call_id := inv_call_id i;
     inv_status := s; inv_created_at := inv_created_at i; inv_updated_at := t;
     inv_parent := inv_parent i; inv_workflow := inv_workflow i;
     inv_trace_context := inv_trace_context i |}.

(** ** History *)

(* @src rustvello-proto/src/invocation.rs 109-123 InvocationHistory *)
Record InvocationHistory := mkHistory {
  hist_invocation_id : InvocationId;
  hist_status_record : InvocationStatusRecord;
  hist_message : option string;
  hist_runner_id : option RunnerId;
  hist_registered_by : option InvocationId;
  hist_timestamp : option DateTime
}.

#[export] Instance InvocationHistory_eq_dec : EqDecision InvocationHistory.
Proof. solve_decision. Defined.

(* @src rustvello-proto/src/invocation.rs 126-139 InvocationHistory::new *)
Definition history_new (id : InvocationId) (rec : InvocationStatusRecord) (message : option string)
    : InvocationHistory :=
  {| hist_invocation_id := id; hist_status_record := rec; hist_message := message;
     hist_runner_id := None; hist_registered_by := None; hist_timestamp := None |}.

(* @src rustvello-proto/src/invocation.rs 141-144 InvocationHistory::with_runner *)
Definition with_runner (runner_id : RunnerId) (h : InvocationHistory) : InvocationHistory :=
  {| hist_invocation_id := hist_invocation_id h; hist_status_record := hist_status_record h;
     hist_message := hist_message h; hist_runner_id := Some runner_id;
     hist_registered_by := hist_registered_by h; hist_timestamp := hist_timestamp h |}.

(* @src rustvello-proto/src/invocation.rs 146-149 InvocationHistory::with_registered_by *)
Definition with_registered_by (by_inv : InvocationId) (h : InvocationHistory) : InvocationHistory :=
  {| hist_invocation_id := hist_invocation_id h; hist_status_record := hist_status_record h;
     hist_message := hist_message h; hist_runner_id := hist_runner_id h;
     hist_registered_by := Some by_inv; hist_timestamp := hist_timestamp h |}.

Lemma set_status_fields_id s t i : inv_id (set_status_fields s t i) = inv_id i.
Proof. done. Qed.
Lemma set_status_fields_status s t i : inv_status (set_status_fields s t i) = s.
Proof. done. Qed.
Lemma set_status_fields_task s t i : inv_task_id (set_status_fields s t i) = inv_task_id i.
Proof. done. Qed.

#[export] Hint Rewrite set_status_fields_id set_status_fields_status set_status_fields_task
  : rustvello_rw.
