(* ===== verification/Trigger.v ===== *)
(** * Trigger data: conditions, contexts, definitions, run records

    Models [rustvello-proto/src/trigger/]: the condition types with their
    filters and identifiers, the contexts they are checked against, trigger
    definitions, valid conditions and the monitoring records.  The theorems: a
    filter matches exactly the subsets it describes, identifiers do not depend on
    the order in which their parts are given, and what the identifiers and
    composite conditions do not distinguish. *)
From S2P Require Import Prelude Json Identifiers Status Call.

(** [DateTime::to_rfc3339]. *)
Class Rfc3339 := { to_rfc3339 : Z → string }.

(** [s.replace(c, r)] for one character. *)
Fixpoint str_replace_char (c : Ascii.ascii) (r s : string) : string :=
  match s with
  | EmptyString => ""
  | String d s' => (if bool_decide (d = c) then r else String d "") +:+ str_replace_char c r s'
  end.

(** ** Filters *)

Section filters.
Context {J : JsonValue}.

(** The escapes of [value_to_python_json]: backslash, then double quote. *)
(* @src rustvello-proto/src/trigger/filter.rs 58-59 python_compatible_json *)
Definition python_escape (s : string) : string :=
  let backslash := "\"%char in
  str_replace_char double_quote (String backslash (String double_quote ""))
    (str_replace_char backslash (String backslash (String backslash "")) s).

Definition quoted (s : string) : string :=
  String double_quote (python_escape s +:+ String double_quote "").

(* @src rustvello-proto/src/trigger/filter.rs 46-79 python_compatible_json *)
Fixpoint value_to_python_json (v : Value) : string :=
  match v with
  | VNull => "null"
  | VBool b => if b then "true" else "false"
  | VNumber n => number_display n
  | VString s => quoted s
  | VArray l => "[" +:+ str_join ", " (List.map value_to_python_json l) +:+ "]"
  | VObject m =>
      "{" +:+ str_join ", " (List.map (λ p, quoted p.1 +:+ ": " +:+ value_to_python_json p.2) m) +:+ "}"
  end.

(* @src rustvello-proto/src/trigger/filter.rs 41-92 python_compatible_json *)
Definition python_compatible_json (m : gmap string Value) : string :=
  "{" +:+ str_join ", " ((λ p, quoted p.1 +:+ ": " +:+ value_to_python_json p.2) <$> btree_iter m) +:+ "}".

(* @src rustvello-proto/src/trigger/filter.rs 6-23 argument_filter_id *)
Definition argument_filter_id `{Sha256} (filter : option (gmap string Value)) : string :=
  match filter with
  | None => "static_no_args"
  | Some f =>
      if bool_decide (f = ∅) then "static_no_args"
      else "static_" +:+ lower_hex (sha256 (str_bytes (python_compatible_json f)))
  end.

(* @src rustvello-proto/src/trigger/filter.rs 25-37 result_filter_id *)
Definition result_filter_id `{Sha256} (filter : option Value) : string :=
  match filter with
  | None => "no_result_filter"
  | Some v => lower_hex (sha256 (str_bytes (default "" (json_to_string v))))
  end.

(* @src rustvello-proto/src/trigger/filter.rs 94-110 check_argument_filter *)
Definition check_argument_filter (filter : option (gmap string Value)) (args : SerializedArguments)
    : bool :=
  match filter with
  | None => true
  | Some expected =>
      forallb (λ p, match (s ← args !! p.1; json_from_str s) with
                    | Some actual => value_eqb actual p.2
                    | None => false
                    end) (btree_iter expected)
  end.

(* @src rustvello-proto/src/trigger/filter.rs 112-121 check_result_filter *)
Definition check_result_filter (filter : option Value) (result : Value) : bool :=
  match filter with
  | None => true
  | Some expected => value_eqb expected result
  end.

(* @src rustvello-proto/src/trigger/filter.rs 123-139 check_payload_filter *)
Definition check_payload_filter (filter : option (gmap string Value)) (payload : Value) : bool :=
  match filter with
  | None => true
  | Some expected =>
      match as_object payload with
      | None => bool_decide (expected = ∅)
      | Some obj =>
          forallb (λ p, match field p.1 obj with Some v => value_eqb v p.2 | None => false end)
            (btree_iter expected)
      end
  end.
End filters.

(** ** Identifiers and logic *)

(** [ConditionId], [TriggerDefinitionId] and [TriggerRunId] wrap a string. *)
Abbreviation ConditionId := string (only parsing).
Abbreviation TriggerDefinitionId := string (only parsing).
Abbreviation TriggerRunId := string (only parsing).

(* @src rustvello-proto/src/trigger/mod.rs 141-149 TriggerLogic *)
Inductive TriggerLogic := LogicAnd | LogicOr.

#[export] Instance TriggerLogic_eq_dec : EqDecision TriggerLogic.
Proof. solve_decision. Defined.

(* @src rustvello-proto/src/trigger/mod.rs 151-158 TriggerLogic::fmt *)
Definition trigger_logic_display (l : TriggerLogic) : string :=
  match l with LogicAnd => "AND" | LogicOr => "OR" end.

(** ** Contexts *)

(* @src rustvello-proto/src/trigger/context.rs 10-15 CronContext *)
Record CronContext := mkCronContext {
  crc_timestamp : Z;
  crc_last_execution : option Z
}.

(* @src rustvello-proto/src/trigger/context.rs 17-26 StatusContext *)
Record StatusContext := mkStatusContext {
  sc_invocation_id : InvocationId;
  sc_task_id : TaskId;
  sc_status : InvocationStatus;
  sc_arguments : SerializedArguments
}.

(* @src rustvello-proto/src/trigger/context.rs 28-34 EventContext *)
Record EventContext `{JsonValue} := mkEventContext {
  evc_event_id : string;
  evc_event_code : string;
  evc_payload : Value
}.

(* @src rustvello-proto/src/trigger/context.rs 36-46 ResultContext *)
Record ResultContext `{JsonValue} := mkResultContext {
  rsc_invocation_id : InvocationId;
  rsc_task_id : TaskId;
  rsc_result : Value;
  rsc_arguments : SerializedArguments
}.

(* @src rustvello-proto/src/trigger/context.rs 48-58 ExceptionContext *)
Record ExceptionContext := mkExceptionContext {
  exc_invocation_id : InvocationId;
  exc_task_id : TaskId;
  exc_error_type : string;
  exc_error_message : string;
  exc_arguments : SerializedArguments
}.

(* @src rustvello-proto/src/trigger/context.rs 60-69 ConditionContext *)
Inductive ConditionContext `{JsonValue} :=
| CtxCron (c : CronContext)
| CtxStatus (c : StatusContext)
| CtxEvent (c : EventContext)
| CtxResult (c : ResultContext)
| CtxException (c : ExceptionContext).

(** The text that is hashed. *)
Definition context_text `{JsonValue} `{Rfc3339} (ctx : ConditionContext) : string :=
  match ctx with
  | CtxCron c => "cron_ctx:" +:+ to_rfc3339 (crc_timestamp c)
  | CtxStatus c => "status_ctx:" +:+ sc_invocation_id c +:+ ":" +:+ status_display (sc_status c)
  | CtxEvent c => "event_ctx:" +:+ evc_event_id c
  | CtxResult c => "result_ctx:" +:+ rsc_invocation_id c
  | CtxException c => "exception_ctx:" +:+ exc_invocation_id c
  end.

(* @src rustvello-proto/src/trigger/context.rs 83-112 ConditionContext::context_id *)
Definition context_id `{JsonValue} `{Rfc3339} `{Sha256} (ctx : ConditionContext) : string :=
  lower_hex (sha256 (str_bytes (context_text ctx))).

(** ** Conditions *)

(* @src rustvello-proto/src/trigger/condition.rs 18-25 CronCondition *)
Record CronCondition := mkCronCondition {
  crn_expression : string;
  crn_min_interval_seconds : Z
}.

(* @src rustvello-proto/src/trigger/condition.rs 27-37 StatusCondition *)
Record StatusCondition `{JsonValue} := mkStatusCondition {
  stc_task_id : TaskId;
  stc_statuses : list InvocationStatus;
  stc_argument_filter : option (gmap string Value)
}.

(* @src rustvello-proto/src/trigger/condition.rs 39-47 EventCondition *)
Record EventCondition `{JsonValue} := mkEventCondition {
  evn_event_code : string;
  evn_payload_filter : option (gmap string Value)
}.

(* @src rustvello-proto/src/trigger/condition.rs 49-60 ResultCondition *)
Record ResultCondition `{JsonValue} := mkResultCondition {
  rsl_task_id : TaskId;
  rsl_argument_filter : option (gmap string Value);
  rsl_result_filter : option Value
}.

(* @src rustvello-proto/src/trigger/condition.rs 62-72 ExceptionCondition *)
Record ExceptionCondition `{JsonValue} := mkExceptionCondition {
  exn_task_id : TaskId;
  exn_exception_types : list string;
  exn_argument_filter : option (gmap string Value)
}.

(* @src rustvello-proto/src/trigger/condition.rs 78-84 CompositeLogic *)
Inductive CompositeLogic := CompositeAnd | CompositeOr.

Unset Elimination Schemes.
(* @src rustvello-proto/src/trigger/condition.rs 86-106 TriggerCondition *)
Inductive TriggerCondition `{JsonValue} :=
| CondCron (c : CronCondition)
| CondStatus (c : StatusCondition)
| CondEvent (c : EventCondition)
| CondResult (c : ResultCondition)
| CondException (c : ExceptionCondition)
| CondComposite (logic : CompositeLogic) (children : list TriggerCondition).
Set Elimination Schemes.

Definition TriggerCondition_ind `{JsonValue} (P : TriggerCondition → Prop)
    (Hcron : ∀ c, P (CondCron c)) (Hstatus : ∀ c, P (CondStatus c)) (Hevent : ∀ c, P (CondEvent c))
    (Hresult : ∀ c, P (CondResult c)) (Hexception : ∀ c, P (CondException c))
    (Hcomposite : ∀ logic children, Forall P children → P (CondComposite logic children)) : ∀ c, P c :=
  fix go c :=
    match c with
    | CondCron c => Hcron c
    | CondStatus c => Hstatus c
    | CondEvent c => Hevent c
    | CondResult c => Hresult c
    | CondException c => Hexception c
    | CondComposite logic children => Hcomposite logic children
        ((fix all l : Forall P l :=
            match l with
            | [] => List.Forall_nil _
            | x :: l' => List.Forall_cons _ _ _ (go x) (all l')
            end) children)
    end.

Section conditions.
Context {J : JsonValue}.

(** The id of a status condition, on which those of results and failures build. *)
(* @src rustvello-proto/src/trigger/condition.rs 130-143 TriggerCondition::condition_id *)
Definition status_condition_id `{Sha256} (task_id : TaskId) (statuses : list InvocationStatus)
    (filter : option (gmap string Value)) : ConditionId :=
  "condition#" +:+ task_id_display task_id +:+ "#" +:+
  str_join "_" (str_sort (str_lower ∘ status_display <$> statuses)) +:+ "#" +:+ argument_filter_id filter.

(* @src rustvello-proto/src/trigger/condition.rs 122-183 TriggerCondition::condition_id *)
Fixpoint condition_id `{Sha256} (cond : TriggerCondition) : ConditionId :=
  match cond with
  | CondCron c => "cron_" +:+ crn_expression c
  | CondStatus c => status_condition_id (stc_task_id c) (stc_statuses c) (stc_argument_filter c)
  | CondEvent c => "event#" +:+ evn_event_code c +:+ "#" +:+ argument_filter_id (evn_payload_filter c)
  | CondResult c =>
      status_condition_id (rsl_task_id c) [Success] (rsl_argument_filter c) +:+ "_result_" +:+
      result_filter_id (rsl_result_filter c)
  | CondException c =>
      status_condition_id (exn_task_id c) [Failed] (exn_argument_filter c) +:+ "_exception_" +:+
      (if bool_decide (exn_exception_types c = []) then "any"
       else str_join "_" (str_sort (exn_exception_types c)))
  | CondComposite logic children =>
      "composite#" +:+ (match logic with CompositeAnd => "and" | CompositeOr => "or" end) +:+ "#" +:+
      str_join "," (str_sort (List.map condition_id children))
  end.

(** [Vec::dedup_by] with an equality of neighbours. *)
Fixpoint dedup_by {A} (eqb : A → A → bool) (l : list A) : list A :=
  match l with
  | [] => []
  | x :: l' =>
      match dedup_by eqb l' with
      | [] => [x]
      | y :: r => if eqb x y then x :: r else x :: y :: r
      end
  end.

(* @src rustvello-proto/src/trigger/condition.rs 185-200 TriggerCondition::source_task_ids *)
Fixpoint source_task_ids (cond : TriggerCondition) : list TaskId :=
  match cond with
  | CondCron _ | CondEvent _ => []
  | CondStatus c => [stc_task_id c]
  | CondResult c => [rsl_task_id c]
  | CondException c => [exn_task_id c]
  | CondComposite _ children =>
      dedup_by (λ a b, bool_decide (task_id_display a = task_id_display b))
        (sort_by (λ a b, str_leb (task_id_display a) (task_id_display b))
           (List.flat_map source_task_ids children))
  end.

(* @src rustvello-proto/src/trigger/condition.rs 202-237 TriggerCondition::is_satisfied_by *)
Fixpoint is_satisfied_by (cond : TriggerCondition) (ctx : ConditionContext) : bool :=
  match cond, ctx with
  | CondCron _, CtxCron _ => true
  | CondStatus c, CtxStatus x =>
      bool_decide (stc_task_id c = sc_task_id x) && bool_decide (sc_status x ∈ stc_statuses c) &&
      check_argument_filter (stc_argument_filter c) (sc_arguments x)
  | CondEvent c, CtxEvent x =>
      bool_decide (evn_event_code c = evc_event_code x) &&
      check_payload_filter (evn_payload_filter c) (evc_payload x)
  | CondResult c, CtxResult x =>
      bool_decide (rsl_task_id c = rsc_task_id x) &&
      check_argument_filter (rsl_argument_filter c) (rsc_arguments x) &&
      check_result_filter (rsl_result_filter c) (rsc_result x)
  | CondException c, CtxException x =>
      bool_decide (exn_task_id c = exc_task_id x) &&
      (bool_decide (exn_exception_types c = []) || bool_decide (exc_error_type x ∈ exn_exception_types c)) &&
      check_argument_filter (exn_argument_filter c) (exc_arguments x)
  | CondComposite logic children, _ =>
      match logic with
      | CompositeAnd => List.forallb (λ c, is_satisfied_by c ctx) children
      | CompositeOr => List.existsb (λ c, is_satisfied_by c ctx) children
      end
  | _, _ => false
  end.
End conditions.

(** ** Definitions and valid conditions *)

(* @src rustvello-proto/src/trigger/definition.rs 11-23 TriggerDefinitionDTO *)
Record TriggerDefinitionDTO `{JsonValue} := mkTriggerDefinition {
  td_trigger_id : TriggerDefinitionId;
  td_task_id : TaskId;
  td_condition_ids : list ConditionId;
  td_logic : TriggerLogic;
  td_argument_template : option Value
}.

(** The text that is hashed. *)
Definition trigger_text (task_id : TaskId) (condition_ids : list ConditionId) (logic : TriggerLogic)
    : string :=
  task_id_display task_id +:+ "|" +:+
  String.concat "" ((λ id : string, id +:+ ",") <$> str_sort condition_ids) +:+ "|" +:+
  trigger_logic_display logic.

(* @src rustvello-proto/src/trigger/definition.rs 25-44 TriggerDefinitionDTO::compute_trigger_id *)
Definition compute_trigger_id `{Sha256} (task_id : TaskId) (condition_ids : list ConditionId)
    (logic : TriggerLogic) : TriggerDefinitionId :=
  lower_hex (sha256 (str_bytes (trigger_text task_id condition_ids logic))).

(* @src rustvello-proto/src/trigger/definition.rs 47-56 ValidCondition *)
Record ValidCondition `{JsonValue} := mkValidCondition {
  vc_valid_condition_id : string;
  vc_condition_id : ConditionId;
  vc_context : ConditionContext
}.

(* @src rustvello-proto/src/trigger/definition.rs 58-67 ValidCondition::new *)
Definition valid_condition_new `{JsonValue} `{Rfc3339} `{Sha256} (id : ConditionId)
    (context : ConditionContext) : ValidCondition :=
  {| vc_valid_condition_id := "valid_" +:+ id +:+ "_" +:+ context_id context;
     vc_condition_id := id; vc_context := context |}.

(** ** Monitoring records *)

(* @src rustvello-proto/src/trigger/monitoring.rs 10-23 EventRecord *)
Record EventRecord `{JsonValue} := mkEventRecord {
  er_event_id : string;
  er_event_code : string;
  er_payload : Value;
  er_timestamp : Z;
  er_matched_condition_ids : list ConditionId;
  er_valid_condition_ids : list string;
  er_triggered_invocation_ids : list InvocationId;
  er_emitted_by_invocation_id : option InvocationId;
  er_emitted_by_task_id : option TaskId;
  er_emitted_by_runner_id : option RunnerId
}.

(* @src rustvello-proto/src/trigger/monitoring.rs 26-28 EventRecord::is_matched *)
Definition is_matched `{JsonValue} (e : EventRecord) : bool :=
  negb (bool_decide (er_matched_condition_ids e = [])).

(* @src rustvello-proto/src/trigger/monitoring.rs 30-32 EventRecord::is_triggered *)
Definition is_triggered `{JsonValue} (e : EventRecord) : bool :=
  negb (bool_decide (er_triggered_invocation_ids e = [])).

(* @src rustvello-proto/src/trigger/monitoring.rs 35-44 TriggerRunParticipant *)
Record TriggerRunParticipant := mkParticipant {
  pt_context_type : string;
  pt_condition_id : ConditionId;
  pt_valid_condition_id : string;
  pt_event_id : option string;
  pt_source_invocation_id : option InvocationId;
  pt_context_summary : string
}.

(* @src rustvello-proto/src/trigger/monitoring.rs 46-68 TriggerRunRecord *)
Record TriggerRunRecord `{JsonValue} := mkTriggerRun {
  tr_trigger_run_id : TriggerRunId;
  tr_trigger_id : TriggerDefinitionId;
  tr_task_id : TaskId;
  tr_logic : TriggerLogic;
  tr_arguments : Value;
  tr_participants : list TriggerRunParticipant;
  tr_claimed_at : Z;
  tr_executed_at : option Z;
  tr_planned_invocation_id : option InvocationId;
  tr_triggered_invocation_id : option InvocationId;
  tr_atomic_service_run_id : option string;
  tr_atomic_service_runner_id : option RunnerId
}.

(* @src rustvello-proto/src/trigger/monitoring.rs 71-74 TriggerRunRecord::is_pending *)
Definition is_pending `{JsonValue} (r : TriggerRunRecord) : bool :=
  bool_decide (is_Some (tr_planned_invocation_id r)) && bool_decide (tr_triggered_invocation_id r = None).

(* @src rustvello-proto/src/trigger/monitoring.rs 76-81 TriggerRunRecord::event_ids *)
Definition event_ids `{JsonValue} (r : TriggerRunRecord) : list string :=
  omap pt_event_id (tr_participants r).

(* @src rustvello-proto/src/trigger/monitoring.rs 83-88 TriggerRunRecord::source_invocation_ids *)
Definition source_invocation_ids `{JsonValue} (r : TriggerRunRecord) : list InvocationId :=
  omap pt_source_invocation_id (tr_participants r).

(** Attaches the invocation of a run. *)
Definition run_completed `{JsonValue} (id : InvocationId) (now : Z) (r : TriggerRunRecord)
    : TriggerRunRecord :=
  {| tr_trigger_run_id := tr_trigger_run_id r; tr_trigger_id := tr_trigger_id r;
     tr_task_id := tr_task_id r; tr_logic := tr_logic r; tr_arguments := tr_arguments r;
     tr_participants := tr_participants r; tr_claimed_at := tr_claimed_at r;
     tr_executed_at := Some now; tr_planned_invocation_id := tr_planned_invocation_id r;
     tr_triggered_invocation_id := Some id; tr_atomic_service_run_id := tr_atomic_service_run_id r;
     tr_atomic_service_runner_id := tr_atomic_service_runner_id r |}.

(** A claimed firing that is ready for its invocation. *)
(* @src rustvello-core/src/trigger.rs 255-264 TriggerExecution *)
Record TriggerExecution `{JsonValue} := mkExecution {
  ex_run_id : TriggerRunId;
  ex_trigger : TriggerDefinitionDTO;
  ex_arguments : Value;
  ex_invocation_id : InvocationId
}.

(* @src rustvello-proto/src/trigger/monitoring.rs 91-102 EventQuery *)
Record EventQuery := mkEventQuery {
  eq_event_code : option string;
  eq_emitted_by_invocation_id : option InvocationId;
  eq_start : option Z;
  eq_end : option Z;
  eq_matched : option bool;
  eq_triggered : option bool;
  eq_offset : option Z;
  eq_limit : option Z
}.

(* @src rustvello-proto/src/trigger/monitoring.rs 104-113 TriggerRunQuery *)
Record TriggerRunQuery := mkTriggerRunQuery {
  tq_event_id : option string;
  tq_source_invocation_id : option InvocationId;
  tq_triggered_invocation_id : option InvocationId;
  tq_start : option Z;
  tq_end : option Z;
  tq_limit : option Z
}.

(** ** Lemmas *)

Lemma forallb_btree_iter {V} (p : string * V → bool) (m : gmap string V) :
  List.forallb p (btree_iter m) = true ↔ ∀ k v, m !! k = Some v → p (k, v) = true.
Proof.
  rewrite List.forallb_forall. split.
  - intros Hall k v Hk. apply Hall, list_elem_of_In. by apply elem_of_btree_iter.
  - intros Hall [k v] Hin%list_elem_of_In. apply Hall. by apply elem_of_btree_iter.
Qed.

Lemma join_sort_perm sep l1 l2 : l1 ≡ₚ l2 → str_join sep (str_sort l1) = str_join sep (str_sort l2).
Proof. by intros ->. Qed.

Section facts.
Context {J : JsonValue}.

(** What a filter asks of the arguments. *)
Definition arguments_match (filter : option (gmap string Value)) (args : SerializedArguments) : Prop :=
  ∀ f k v, filter = Some f → f !! k = Some v → ∃ s, args !! k = Some s ∧ json_from_str s = Some v.

Lemma check_argument_filter_spec filter args :
  check_argument_filter filter args = true ↔ arguments_match filter args.
Proof.
  unfold check_argument_filter, arguments_match. destruct filter as [f|]; [|naive_solver].
  rewrite forallb_btree_iter. split.
  - intros Hall f' k v [= <-] Hk. specialize (Hall k v Hk). simpl in Hall.
    destruct (args !! k) as [s|] eqn:Hs; simpl in Hall; [|done].
    destruct (json_from_str s) as [w|] eqn:Hw; [|done].
    apply value_eqb_spec in Hall as ->. eauto.
  - intros Hall k v Hk. destruct (Hall f k v eq_refl Hk) as (s & Hs & Hv). simpl.
    rewrite Hs. simpl. rewrite Hv. by apply value_eqb_spec.
Qed.

(** What a filter asks of an event's payload: the empty filter takes every
    payload, another one needs an object. *)
Definition payload_match (filter : option (gmap string Value)) (payload : Value) : Prop :=
  ∀ f k v, filter = Some f → f !! k = Some v →
    ∃ fields, payload = VObject fields ∧ field k fields = Some v.

Lemma check_payload_filter_spec filter payload :
  check_payload_filter filter payload = true ↔ payload_match filter payload.
Proof.
  unfold check_payload_filter, payload_match. destruct filter as [f|]; [|naive_solver].
  destruct (as_object payload) as [obj|] eqn:Hobj.
  - destruct payload as [| | | | |fields]; simplify_eq/=. rewrite forallb_btree_iter. split.
    + intros Hall f' k v [= <-] Hk. specialize (Hall k v Hk). simpl in Hall.
      destruct (field k obj) as [w|] eqn:Hw; [|done]. apply value_eqb_spec in Hall as ->. eauto.
    + intros Hall k v Hk. destruct (Hall f k v eq_refl Hk) as (? & [= <-] & Hv). simpl.
      rewrite Hv. by apply value_eqb_spec.
  - rewrite bool_decide_eq_true. split.
    + intros -> f' k v [= <-] Hk. by rewrite lookup_empty in Hk.
    + intros Hall. apply map_eq. intros k. rewrite lookup_empty.
      destruct (f !! k) as [v|] eqn:Hk; [|done].
      destruct (Hall f k v eq_refl Hk) as (fields & -> & _). done.
Qed.

(** When a condition is satisfied: the declarative reading. *)
Fixpoint satisfied (cond : TriggerCondition) (ctx : ConditionContext) : Prop :=
  match cond, ctx with
  | CondCron _, CtxCron _ => True
  | CondStatus c, CtxStatus x =>
      stc_task_id c = sc_task_id x ∧ sc_status x ∈ stc_statuses c ∧
      arguments_match (stc_argument_filter c) (sc_arguments x)
  | CondEvent c, CtxEvent x =>
      evn_event_code c = evc_event_code x ∧ payload_match (evn_payload_filter c) (evc_payload x)
  | CondResult c, CtxResult x =>
      rsl_task_id c = rsc_task_id x ∧ arguments_match (rsl_argument_filter c) (rsc_arguments x) ∧
      ∀ v, rsl_result_filter c = Some v → rsc_result x = v
  | CondException c, CtxException x =>
      exn_task_id c = exc_task_id x ∧
      (exn_exception_types c = [] ∨ exc_error_type x ∈ exn_exception_types c) ∧
      arguments_match (exn_argument_filter c) (exc_arguments x)
  | CondComposite CompositeAnd children, _ =>
      (fix all l := match l with [] => True | c :: l' => satisfied c ctx ∧ all l' end) children
  | CondComposite CompositeOr children, _ =>
      (fix any l := match l with [] => False | c :: l' => satisfied c ctx ∨ any l' end) children
  | _, _ => False
  end.

(** A condition check accepts exactly the contexts that satisfy the
    condition: a status condition its task, one of its statuses and arguments
    that contain the filter's; an event condition its code and a payload with
    the filter's fields; a result condition the filter's value; a failure
    condition one of its error types, or any when it names none; a composite
    all or any of its children against the one context; a context of another
    kind satisfies none of the simple conditions. *)
Theorem condition_check_behaviour cond ctx : is_satisfied_by cond ctx = true ↔ satisfied cond ctx.
Proof.
  revert ctx. induction cond as [c|c|c|c|c|logic children IH] using TriggerCondition_ind; intros ctx.
  6: { destruct logic; simpl; induction IH as [|c l Hc Hl IHl]; simpl; try done.
    - by rewrite andb_true_iff, Hc, IHl.
    - by rewrite orb_true_iff, Hc, IHl. }
  all: destruct ctx as [x|x|x|x|x]; simpl; try done;
    rewrite ?andb_true_iff, ?orb_true_iff, ?bool_decide_eq_true,
      ?check_argument_filter_spec, ?check_payload_filter_spec; try tauto.
  assert (check_result_filter (rsl_result_filter c) (rsc_result x) = true ↔
    ∀ v, rsl_result_filter c = Some v → rsc_result x = v) as ->; [|tauto].
  unfold check_result_filter. destruct (rsl_result_filter c) as [v|]; [|naive_solver].
  rewrite value_eqb_spec. naive_solver.
Qed.

(** ** Identifiers *)

(** Conditions that differ in the order in which their parts are listed. *)
Inductive reordered : TriggerCondition → TriggerCondition → Prop :=
| ReorderedStatuses t f l l' : l ≡ₚ l' →
    reordered (CondStatus (mkStatusCondition _ t l f)) (CondStatus (mkStatusCondition _ t l' f))
| ReorderedTypes t f l l' : l ≡ₚ l' →
    reordered (CondException (mkExceptionCondition _ t l f)) (CondException (mkExceptionCondition _ t l' f))
| ReorderedChildren logic l l' : l ≡ₚ l' →
    reordered (CondComposite logic l) (CondComposite logic l').

(** The ids of conditions and of trigger definitions do not depend on the
    order of their statuses, error types, children or condition ids. *)
Theorem identifiers_ignore_order `{Sha256} :
  (∀ a b, reordered a b → condition_id a = condition_id b) ∧
  (∀ t l l' logic, l ≡ₚ l' → compute_trigger_id t l logic = compute_trigger_id t l' logic).
Proof.
  split.
  - intros a b [t f l l' Hl|t f l l' Hl|logic l l' Hl]; simpl.
    + unfold status_condition_id. by rewrite (fmap_Permutation _ _ _ Hl).
    + rewrite (join_sort_perm "_" _ _ Hl).
      destruct (bool_decide_reflect (l = [])) as [->|Hn], (bool_decide_reflect (l' = [])) as [->|Hn'];
        try done; [by apply Permutation_nil_l in Hl|by symmetry in Hl; apply Permutation_nil_l in Hl].
    + by rewrite (join_sort_perm "," _ _ (Permutation_map condition_id Hl)).
  - intros t l l' logic Hl. unfold compute_trigger_id, trigger_text.
    by rewrite (str_sort_proper _ _ Hl).
Qed.

(** Error types are joined with an underscore, which may occur in a name:
    conditions on different error types share an id, and so share the entry of
    a trigger store. *)
Theorem exception_condition_ids_collide `{Sha256} t f (ctx : ExceptionContext) :
  let two := CondException (mkExceptionCondition _ t ["Error"; "Timeout"] f) in
  let joined := CondException (mkExceptionCondition _ t ["Error_Timeout"] f) in
  condition_id two = condition_id joined ∧
  (exc_error_type ctx = "Error" → exc_task_id ctx = t → arguments_match f (exc_arguments ctx) →
   satisfied two (CtxException ctx) ∧ ¬ satisfied joined (CtxException ctx)).
Proof.
  split; [reflexivity|]. intros He Ht Hf. simpl. rewrite He, Ht. split_and!; try done.
  - right. by left.
  - intros (_ & [?|Hin] & _); [done|]. by apply list_elem_of_singleton in Hin.
Qed.
End facts.
