(* ===== verification/MemTrigger.v ===== *)
(** * The in-memory trigger store

    Models [rustvello-mem/src/trigger.rs]: the indexes of registered conditions
    and triggers, the pending valid conditions, the cron and run claims and the
    monitoring records.  The state behind the lock is [TriggerState]; every
    operation takes the lock once. *)
From S2P Require Import Prelude Effects Json Identifiers Status Errors Call Trigger.

(* @src rustvello-mem/src/trigger.rs 16-33 TriggerState *)
Record TriggerState `{JsonValue} := mkTriggerState {
  t_conditions : gmap ConditionId TriggerCondition;
  t_source_task_conditions : gmap string (list ConditionId);
  t_event_conditions : gmap string (list ConditionId);
  t_cron_condition_ids : list ConditionId;
  t_triggers : gmap TriggerDefinitionId TriggerDefinitionDTO;
  t_condition_triggers : gmap ConditionId (list TriggerDefinitionId);
  t_valid_conditions : gmap string ValidCondition;
  t_cron_executions : gmap ConditionId DateTime;
  t_trigger_run_claims : gmap TriggerRunId DateTime;
  t_events : gmap string EventRecord;
  t_trigger_runs : gmap TriggerRunId TriggerRunRecord
}.

(* @src rustvello-mem/src/trigger.rs 41-57 MemTriggerStore::new *)
Definition trigger_store_new `{JsonValue} : TriggerState :=
  mkTriggerState _ ∅ ∅ ∅ [] ∅ ∅ ∅ ∅ ∅ ∅ ∅.

(** The ids an index holds under a key. *)
Definition ids_at (index : gmap string (list string)) (key : string) : list string :=
  default [] (index !! key).

(** [if !vec.contains(&id) { vec.push(id) }] on [index.entry(key).or_default()]. *)
Definition push_once (id : string) (l : list string) : list string :=
  if bool_decide (id ∈ l) then l else l ++ [id].
Definition index_once (key id : string) (index : gmap string (list string))
    : gmap string (list string) :=
  <[key := push_once id (ids_at index key)]> index.

(** [slice.truncate(n)] with a [usize] bound. *)
Definition truncate {A} (n : Z) (l : list A) : list A :=
  if Z.of_nat (length l) <=? n then l else take (Z.to_nat n) l.

Lemma truncate_all {A} n (l : list A) : Z.of_nat (length l) ≤ n → truncate n l = l.
Proof. intros Hn. unfold truncate. by rewrite (proj2 (Z.leb_le _ _) Hn). Qed.

Lemma truncate_to_nat {A} n (l : list A) : truncate n l = take (Z.to_nat n) l.
Proof. unfold truncate. destruct (Z.leb_spec (Z.of_nat (length l)) n); [|done]. rewrite take_ge; [done|lia]. Qed.

Section store.
Context {J : JsonValue}.
Implicit Types (s : TriggerState).

Definition set_conditions (cs : gmap ConditionId TriggerCondition)
    (tasks events : gmap string (list ConditionId)) (crons : list ConditionId) s : TriggerState :=
  mkTriggerState _ cs tasks events crons (t_triggers s) (t_condition_triggers s) (t_valid_conditions s)
    (t_cron_executions s) (t_trigger_run_claims s) (t_events s) (t_trigger_runs s).
Definition set_triggers (ts : gmap TriggerDefinitionId TriggerDefinitionDTO)
    (index : gmap ConditionId (list TriggerDefinitionId)) s : TriggerState :=
  mkTriggerState _ (t_conditions s) (t_source_task_conditions s) (t_event_conditions s)
    (t_cron_condition_ids s) ts index (t_valid_conditions s)
    (t_cron_executions s) (t_trigger_run_claims s) (t_events s) (t_trigger_runs s).
Definition set_valid (f : gmap string ValidCondition → gmap string ValidCondition) s : TriggerState :=
  mkTriggerState _ (t_conditions s) (t_source_task_conditions s) (t_event_conditions s)
    (t_cron_condition_ids s) (t_triggers s) (t_condition_triggers s) (f (t_valid_conditions s))
    (t_cron_executions s) (t_trigger_run_claims s) (t_events s) (t_trigger_runs s).
Definition set_cron_executions (f : gmap ConditionId DateTime → gmap ConditionId DateTime) s
    : TriggerState :=
  mkTriggerState _ (t_conditions s) (t_source_task_conditions s) (t_event_conditions s)
    (t_cron_condition_ids s) (t_triggers s) (t_condition_triggers s) (t_valid_conditions s)
    (f (t_cron_executions s)) (t_trigger_run_claims s) (t_events s) (t_trigger_runs s).
Definition set_runs (claims : gmap TriggerRunId DateTime) (runs : gmap TriggerRunId TriggerRunRecord) s
    : TriggerState :=
  mkTriggerState _ (t_conditions s) (t_source_task_conditions s) (t_event_conditions s)
    (t_cron_condition_ids s) (t_triggers s) (t_condition_triggers s) (t_valid_conditions s)
    (t_cron_executions s) claims (t_events s) runs.
Definition set_events (f : gmap string EventRecord → gmap string EventRecord) s : TriggerState :=
  mkTriggerState _ (t_conditions s) (t_source_task_conditions s) (t_event_conditions s)
    (t_cron_condition_ids s) (t_triggers s) (t_condition_triggers s) (t_valid_conditions s)
    (t_cron_executions s) (t_trigger_run_claims s) (f (t_events s)) (t_trigger_runs s).

(** ** Conditions *)

(** The state after a condition is stored and indexed. *)
Definition condition_registered `{Sha256} (cond : TriggerCondition) s : TriggerState :=
  let id := condition_id cond in
  set_conditions (<[id := cond]> (t_conditions s))
    (fold_left (λ index t, index_once (task_id_display t) id index) (source_task_ids cond)
       (t_source_task_conditions s))
    (match cond with
     | CondEvent c => index_once (evn_event_code c) id (t_event_conditions s)
     | _ => t_event_conditions s
     end)
    (match cond with
     | CondCron _ => push_once id (t_cron_condition_ids s)
     | _ => t_cron_condition_ids s
     end) s.

(* @src rustvello-mem/src/trigger.rs 68-109 MemTriggerStore::register_condition *)
Definition mem_register_condition `{Sha256} (cond : TriggerCondition)
    : M RustvelloError TriggerState ConditionId :=
  modify (condition_registered cond);; mret (condition_id cond).

(* @src rustvello-mem/src/trigger.rs 111-114 MemTriggerStore::get_condition *)
Definition mem_get_condition (id : ConditionId) : M RustvelloError TriggerState (option TriggerCondition) :=
  gets (λ s, t_conditions s !! id).

(** The registered conditions among the ids. *)
Definition conditions_of (ids : list ConditionId) s : list (ConditionId * TriggerCondition) :=
  omap (λ id, (λ cond, (id, cond)) <$> t_conditions s !! id) ids.

(* @src rustvello-mem/src/trigger.rs 116-133 MemTriggerStore::get_conditions_for_task *)
Definition mem_get_conditions_for_task (task_id : TaskId)
    : M RustvelloError TriggerState (list (ConditionId * TriggerCondition)) :=
  gets (λ s, conditions_of (ids_at (t_source_task_conditions s) (task_id_display task_id)) s).

(* @src rustvello-mem/src/trigger.rs 135-144 MemTriggerStore::get_cron_conditions *)
Definition mem_get_cron_conditions : M RustvelloError TriggerState (list (ConditionId * TriggerCondition)) :=
  gets (λ s, conditions_of (t_cron_condition_ids s) s).

(* @src rustvello-mem/src/trigger.rs 146-162 MemTriggerStore::get_event_conditions *)
Definition mem_get_event_conditions (event_code : string)
    : M RustvelloError TriggerState (list (ConditionId * TriggerCondition)) :=
  gets (λ s, conditions_of (ids_at (t_event_conditions s) event_code) s).

(* @src rustvello-mem/src/trigger.rs 445-452 MemTriggerStore::get_all_conditions *)
Definition mem_get_all_conditions `{HashOrder}
    : M RustvelloError TriggerState (list (ConditionId * TriggerCondition)) :=
  gets (λ s, map_iter (t_conditions s)).

(** ** Trigger definitions *)

(* @src rustvello-mem/src/trigger.rs 164-183 MemTriggerStore::register_trigger *)
Definition mem_register_trigger (trigger : TriggerDefinitionDTO) : M RustvelloError TriggerState unit :=
  modify (λ s, set_triggers (<[td_trigger_id trigger := trigger]> (t_triggers s))
    (fold_left (λ index cid, index_once cid (td_trigger_id trigger) index) (td_condition_ids trigger)
       (t_condition_triggers s)) s).

(* @src rustvello-mem/src/trigger.rs 185-191 MemTriggerStore::get_trigger *)
Definition mem_get_trigger (id : TriggerDefinitionId)
    : M RustvelloError TriggerState (option TriggerDefinitionDTO) :=
  gets (λ s, t_triggers s !! id).

(** The registered triggers indexed under a condition. *)
Definition triggers_at s (id : ConditionId) : list TriggerDefinitionDTO :=
  omap (λ tid, t_triggers s !! tid) (ids_at (t_condition_triggers s) id).

(* @src rustvello-mem/src/trigger.rs 193-209 MemTriggerStore::get_triggers_for_condition *)
Definition mem_get_triggers_for_condition (id : ConditionId)
    : M RustvelloError TriggerState (list TriggerDefinitionDTO) :=
  gets (λ s, triggers_at s id).

(** [tids.retain(|tid| tid != id)] on the index of one condition. *)
Definition unindex (id : TriggerDefinitionId) (index : gmap ConditionId (list TriggerDefinitionId))
    (cid : ConditionId) : gmap ConditionId (list TriggerDefinitionId) :=
  match index !! cid with
  | Some tids => <[cid := bfilter (λ tid, negb (bool_decide (tid = id))) tids]> index
  | None => index
  end.

Definition trigger_removed s (id : TriggerDefinitionId) : TriggerState :=
  match t_triggers s !! id with
  | Some trigger =>
      set_triggers (delete id (t_triggers s))
        (fold_left (unindex id) (td_condition_ids trigger) (t_condition_triggers s)) s
  | None => s
  end.

(* @src rustvello-mem/src/trigger.rs 211-235 MemTriggerStore::remove_triggers_for_task *)
Definition mem_remove_triggers_for_task `{HashOrder} (task_id : TaskId)
    : M RustvelloError TriggerState Z :=
  s ← get;
  let ids := (bfilter (λ p, bool_decide (task_id_display (td_task_id p.2) = task_id_display task_id))
                (map_iter (t_triggers s))).*1 in
  modify (λ s, fold_left trigger_removed ids s);;
  mret (Z.min (Z.of_nat (length ids)) u32_max).

(** ** Valid conditions and cron executions *)

(* @src rustvello-mem/src/trigger.rs 237-243 MemTriggerStore::record_valid_condition *)
Definition mem_record_valid_condition (vc : ValidCondition) : M RustvelloError TriggerState unit :=
  modify (set_valid <[vc_valid_condition_id vc := vc]>).

(* @src rustvello-mem/src/trigger.rs 245-248 MemTriggerStore::get_valid_conditions *)
Definition mem_get_valid_conditions `{HashOrder} : M RustvelloError TriggerState (list ValidCondition) :=
  gets (λ s, (map_iter (t_valid_conditions s)).*2).

Definition clear_ids {V} (ids : list string) (m : gmap string V) : gmap string V :=
  fold_left (λ m id, delete id m) ids m.

(* @src rustvello-mem/src/trigger.rs 250-256 MemTriggerStore::clear_valid_conditions *)
Definition mem_clear_valid_conditions (ids : list string) : M RustvelloError TriggerState unit :=
  modify (set_valid (clear_ids ids)).

(* @src rustvello-mem/src/trigger.rs 258-264 MemTriggerStore::get_last_cron_execution *)
Definition mem_get_last_cron_execution (id : ConditionId)
    : M RustvelloError TriggerState (option DateTime) :=
  gets (λ s, t_cron_executions s !! id).

(* @src rustvello-mem/src/trigger.rs 266-284 MemTriggerStore::store_cron_execution *)
Definition mem_store_cron_execution (id : ConditionId) (time : DateTime) (expected : option DateTime)
    : M RustvelloError TriggerState bool :=
  s ← get;
  if bool_decide (t_cron_executions s !! id = expected)
  then modify (set_cron_executions <[id := time]>);; mret true
  else mret false.

(** ** Runs *)

(* @src rustvello-mem/src/trigger.rs 286-296 MemTriggerStore::claim_trigger_run *)
Definition mem_claim_trigger_run (id : TriggerRunId) : M RustvelloError TriggerState bool :=
  s ← get;
  if bool_decide (is_Some (t_trigger_run_claims s !! id)) then mret false
  else
    now ← utc_now;
    modify (λ s, set_runs (<[id := now]> (t_trigger_run_claims s)) (t_trigger_runs s) s);;
    mret true.

(* @src rustvello-mem/src/trigger.rs 346-353 MemTriggerStore::store_trigger_run *)
Definition mem_store_trigger_run (run : TriggerRunRecord) : M RustvelloError TriggerState unit :=
  modify (λ s, set_runs (t_trigger_run_claims s) (<[tr_trigger_run_id run := run]> (t_trigger_runs s)) s).

(* @src rustvello-mem/src/trigger.rs 355-366 MemTriggerStore::get_trigger_run *)
Definition mem_get_trigger_run (id : TriggerRunId)
    : M RustvelloError TriggerState (option TriggerRunRecord) :=
  gets (λ s, t_trigger_runs s !! id).

(** [option.is_none_or(f)]. *)
Definition is_none_or {A} (o : option A) (f : A → bool) : bool :=
  match o with None => true | Some a => f a end.

(** Newest first. *)
Definition by_claim_desc (a b : TriggerRunRecord) : bool := tr_claimed_at b <=? tr_claimed_at a.

Definition run_selected (q : TriggerRunQuery) (run : TriggerRunRecord) : bool :=
  is_none_or (tq_event_id q) (λ id, bool_decide (id ∈ event_ids run)) &&
  is_none_or (tq_source_invocation_id q) (λ id, bool_decide (id ∈ source_invocation_ids run)) &&
  is_none_or (tq_triggered_invocation_id q) (λ id, bool_decide (tr_triggered_invocation_id run = Some id)) &&
  is_none_or (tq_start q) (λ start, start <=? tr_claimed_at run) &&
  is_none_or (tq_end q) (λ stop, tr_claimed_at run <=? stop).

(* @src rustvello-mem/src/trigger.rs 368-399 MemTriggerStore::get_trigger_runs *)
Definition mem_get_trigger_runs `{HashOrder} (q : TriggerRunQuery)
    : M RustvelloError TriggerState (list TriggerRunRecord) :=
  gets (λ s,
    let runs := sort_by by_claim_desc (bfilter (run_selected q) (map_iter (t_trigger_runs s)).*2) in
    match tq_limit q with Some limit => truncate limit runs | None => runs end).

(** One record of a batch: claimed unless it was, and stored unless it was both
    claimed and stored. *)
(* @src rustvello-mem/src/trigger.rs 408-418 MemTriggerStore::claim_trigger_runs_with_records *)
Definition claim_record (claimed : list bool) (record : TriggerRunRecord)
    : M RustvelloError TriggerState (list bool) :=
  let key := tr_trigger_run_id record in
  s ← get;
  let first := negb (bool_decide (is_Some (t_trigger_run_claims s !! key))) in
  (if first then
     now ← utc_now;
     modify (λ s, set_runs (<[key := now]> (t_trigger_run_claims s)) (t_trigger_runs s) s)
   else mret tt);;
  (if first || negb (bool_decide (is_Some (t_trigger_runs s !! key))) then
     modify (λ s, set_runs (t_trigger_run_claims s) (<[key := record]> (t_trigger_runs s)) s)
   else mret tt);;
  mret (claimed ++ [first]).

(* @src rustvello-mem/src/trigger.rs 401-423 MemTriggerStore::claim_trigger_runs_with_records *)
Definition mem_claim_trigger_runs_with_records (records : list TriggerRunRecord) (consumed : list string)
    : M RustvelloError TriggerState (list bool) :=
  claimed ← for_fold claim_record [] records;
  modify (set_valid (clear_ids consumed));;
  mret claimed.

(** ** Events *)

(* @src rustvello-mem/src/trigger.rs 298-305 MemTriggerStore::store_event *)
Definition mem_store_event (event : EventRecord) : M RustvelloError TriggerState unit :=
  modify (set_events <[er_event_id event := event]>).

(* @src rustvello-mem/src/trigger.rs 307-309 MemTriggerStore::get_event *)
Definition mem_get_event (id : string) : M RustvelloError TriggerState (option EventRecord) :=
  gets (λ s, t_events s !! id).

Definition event_selected (q : EventQuery) (e : EventRecord) : bool :=
  is_none_or (eq_event_code q) (λ code, bool_decide (er_event_code e = code)) &&
  is_none_or (eq_emitted_by_invocation_id q)
    (λ id, bool_decide (er_emitted_by_invocation_id e = Some id)) &&
  is_none_or (eq_start q) (λ start, start <=? er_timestamp e) &&
  is_none_or (eq_end q) (λ stop, er_timestamp e <=? stop) &&
  is_none_or (eq_matched q) (λ m, Bool.eqb (is_matched e) m) &&
  is_none_or (eq_triggered q) (λ t, Bool.eqb (is_triggered e) t).

(* @src rustvello-mem/src/trigger.rs 311-344 MemTriggerStore::get_events *)
Definition mem_get_events `{HashOrder} (q : EventQuery) : M RustvelloError TriggerState (list EventRecord) :=
  gets (λ s,
    let events := sort_by (λ a b, er_timestamp b <=? er_timestamp a)
                    (bfilter (event_selected q) (map_iter (t_events s)).*2) in
    let events := match eq_offset q with Some offset => drop (Z.to_nat offset) events | None => events end in
    match eq_limit q with Some limit => truncate limit events | None => events end).

(* @src rustvello-mem/src/trigger.rs 429-443 MemTriggerStore::purge *)
Definition mem_purge_triggers : M RustvelloError TriggerState unit := modify (λ _, trigger_store_new).
End store.
