(* ===== verification/OrchestratorState.v ===== *)
(** * The state of the in-memory orchestrator

    Models the data of [rustvello-mem/src/orchestrator/mod.rs] and the records
    of [rustvello-core/src/orchestrator.rs] it stores, with one update function
    per field.  Every map is keyed by the text of an id, as in the code. *)
From S2P Require Import Prelude Effects Identifiers Status Invocation.

(* @src rustvello-core/src/orchestrator.rs 13-19 AtomicServiceExecution *)
Record AtomicServiceExecution := mkServiceExecution {
  ase_runner_id : string;
  ase_start : DateTime;
  ase_end : DateTime
}.

(* @src rustvello-core/src/orchestrator.rs 27-41 ActiveRunnerInfo *)
Record ActiveRunnerInfo := mkActiveRunner {
  ari_runner_id : RunnerId;
  ari_creation_time : DateTime;
  ari_last_heartbeat : DateTime;
  ari_can_run_atomic_service : bool;
  ari_last_service_start : option DateTime;
  ari_last_service_end : option DateTime
}.

(** [(task_id, arg_key, arg_value)]. *)
Abbreviation cc_key_type := (string * string * string)%type (only parsing).

(* @src rustvello-mem/src/orchestrator/mod.rs 21-57 OrchestratorState *)
Record OrchestratorState := mkOrchestratorState {
  invocations : gmap InvocationId InvocationDTO;
  status_records : gmap InvocationId InvocationStatusRecord;
  task_invocations : gmap string (gset InvocationId);
  call_invocations : gmap string (gset InvocationId);
  waiting_for : gmap InvocationId InvocationId;
  waiters : gmap InvocationId (gset InvocationId);
  cc_index : gmap cc_key_type (gset InvocationId);
  cc_reverse : gmap InvocationId (list cc_key_type);
  retries : gmap InvocationId Z;
  heartbeats : gmap RunnerId DateTime;
  runner_created : gmap RunnerId DateTime;
  runner_atomic_eligible : gmap RunnerId bool;
  runner_last_service_start : gmap RunnerId DateTime;
  runner_last_service_end : gmap RunnerId DateTime;
  atomic_timeline : list AtomicServiceExecution;
  auto_purge_queue : gmap InvocationId DateTime
}.

(* @src rustvello-mem/src/orchestrator/mod.rs 64-87 MemOrchestrator::new *)
Definition orchestrator_new : OrchestratorState :=
  {| invocations := ∅;
     status_records := ∅;
     task_invocations := ∅;
     call_invocations := ∅;
     waiting_for := ∅;
     waiters := ∅;
     cc_index := ∅;
     cc_reverse := ∅;
     retries := ∅;
     heartbeats := ∅;
     runner_created := ∅;
     runner_atomic_eligible := ∅;
     runner_last_service_start := ∅;
     runner_last_service_end := ∅;
     atomic_timeline := [];
     auto_purge_queue := ∅ |}.

(** ** Field updates *)

Definition with_invocations (f : gmap InvocationId InvocationDTO → gmap InvocationId InvocationDTO)
    (s : OrchestratorState) : OrchestratorState :=
  {| invocations := f (invocations s); status_records := status_records s;
     task_invocations := task_invocations s; call_invocations := call_invocations s;
     waiting_for := waiting_for s; waiters := waiters s; cc_index := cc_index s;
     cc_reverse := cc_reverse s; retries := retries s; heartbeats := heartbeats s;
     runner_created := runner_created s; runner_atomic_eligible := runner_atomic_eligible s;
     runner_last_service_start := runner_last_service_start s;
     runner_last_service_end := runner_last_service_end s; atomic_timeline := atomic_timeline s;
     auto_purge_queue := auto_purge_queue s |}.

Definition with_status_records (f : gmap InvocationId InvocationStatusRecord → gmap InvocationId InvocationStatusRecord)
    (s : OrchestratorState) : OrchestratorState :=
  {| invocations := invocations s; status_records := f (status_records s);
     task_invocations := task_invocations s; call_invocations := call_invocations s;
     waiting_for := waiting_for s; waiters := waiters s; cc_index := cc_index s;
     cc_reverse := cc_reverse s; retries := retries s; heartbeats := heartbeats s;
     runner_created := runner_created s; runner_atomic_eligible := runner_atomic_eligible s;
     runner_last_service_start := runner_last_service_start s;
     runner_last_service_end := runner_last_service_end s; atomic_timeline := atomic_timeline s;
     auto_purge_queue := auto_purge_queue s |}.

Definition with_task_invocations (f : gmap string (gset InvocationId) → gmap string (gset InvocationId))
    (s : OrchestratorState) : OrchestratorState :=
  {| invocations := invocations s; status_records := status_records s;
     task_invocations := f (task_invocations s); call_invocations := call_invocations s;
     waiting_for := waiting_for s; waiters := waiters s; cc_index := cc_index s;
     cc_reverse := cc_reverse s; retries := retries s; heartbeats := heartbeats s;
     runner_created := runner_created s; runner_atomic_eligible := runner_atomic_eligible s;
     runner_last_service_start := runner_last_service_start s;
     runner_last_service_end := runner_last_service_end s; atomic_timeline := atomic_timeline s;
     auto_purge_queue := auto_purge_queue s |}.

Definition with_call_invocations (f : gmap string (gset InvocationId) → gmap string (gset InvocationId))
    (s : OrchestratorState) : OrchestratorState :=
  {| invocations := invocations s; status_records := status_records s;
     task_invocations := task_invocations s; call_invocations := f (call_invocations s);
     waiting_for := waiting_for s; waiters := waiters s; cc_index := cc_index s;
     cc_reverse := cc_reverse s; retries := retries s; heartbeats := heartbeats s;
     runner_created := runner_created s; runner_atomic_eligible := runner_atomic_eligible s;
     runner_last_service_start := runner_last_service_start s;
     runner_last_service_end := runner_last_service_end s; atomic_timeline := atomic_timeline s;
     auto_purge_queue := auto_purge_queue s |}.

Definition with_waiting_for (f : gmap InvocationId InvocationId → gmap InvocationId InvocationId)
    (s : OrchestratorState) : OrchestratorState :=
  {| invocations := invocations s; status_records := status_records s;
     task_invocations := task_invocations s; call_invocations := call_invocations s;
     waiting_for := f (waiting_for s); waiters := waiters s; cc_index := cc_index s;
     cc_reverse := cc_reverse s; retries := retries s; heartbeats := heartbeats s;
     runner_created := runner_created s; runner_atomic_eligible := runner_atomic_eligible s;
     runner_last_service_start := runner_last_service_start s;
     runner_last_service_end := runner_last_service_end s; atomic_timeline := atomic_timeline s;
     auto_purge_queue := auto_purge_queue s |}.

Definition with_waiters (f : gmap InvocationId (gset InvocationId) → gmap InvocationId (gset InvocationId))
    (s : OrchestratorState) : OrchestratorState :=
  {| invocations := invocations s; status_records := status_records s;
     task_invocations := task_invocations s; call_invocations := call_invocations s;
     waiting_for := waiting_for s; waiters := f (waiters s); cc_index := cc_index s;
     cc_reverse := cc_reverse s; retries := retries s; heartbeats := heartbeats s;
     runner_created := runner_created s; runner_atomic_eligible := runner_atomic_eligible s;
     runner_last_service_start := runner_last_service_start s;
     runner_last_service_end := runner_last_service_end s; atomic_timeline := atomic_timeline s;
     auto_purge_queue := auto_purge_queue s |}.

Definition with_cc_index (f : gmap cc_key_type (gset InvocationId) → gmap cc_key_type (gset InvocationId))
    (s : OrchestratorState) : OrchestratorState :=
  {| invocations := invocations s; status_records := status_records s;
     task_invocations := task_invocations s; call_invocations := call_invocations s;
     waiting_for := waiting_for s; waiters := waiters s; cc_index := f (cc_index s);
     cc_reverse := cc_reverse s; retries := retries s; heartbeats := heartbeats s;
     runner_created := runner_created s; runner_atomic_eligible := runner_atomic_eligible s;
     runner_last_service_start := runner_last_service_start s;
     runner_last_service_end := runner_last_service_end s; atomic_timeline := atomic_timeline s;
     auto_purge_queue := auto_purge_queue s |}.

Definition with_cc_reverse (f : gmap InvocationId (list cc_key_type) → gmap InvocationId (list cc_key_type))
    (s : OrchestratorState) : OrchestratorState :=
  {| invocations := invocations s; status_records := status_records s;
     task_invocations := task_invocations s; call_invocations := call_invocations s;
     waiting_for := waiting_for s; waiters := waiters s; cc_index := cc_index s;
     cc_reverse := f (cc_reverse s); retries := retries s; heartbeats := heartbeats s;
     runner_created := runner_created s; runner_atomic_eligible := runner_atomic_eligible s;
     runner_last_service_start := runner_last_service_start s;
     runner_last_service_end := runner_last_service_end s; atomic_timeline := atomic_timeline s;
     auto_purge_queue := auto_purge_queue s |}.

Definition with_retries (f : gmap InvocationId Z → gmap InvocationId Z)
    (s : OrchestratorState) : OrchestratorState :=
  {| invocations := invocations s; status_records := status_records s;
     task_invocations := task_invocations s; call_invocations := call_invocations s;
     waiting_for := waiting_for s; waiters := waiters s; cc_index := cc_index s;
     cc_reverse := cc_reverse s; retries := f (retries s); heartbeats := heartbeats s;
     runner_created := runner_created s; runner_atomic_eligible := runner_atomic_eligible s;
     runner_last_service_start := runner_last_service_start s;
     runner_last_service_end := runner_last_service_end s; atomic_timeline := atomic_timeline s;
     auto_purge_queue := auto_purge_queue s |}.

Definition with_heartbeats (f : gmap RunnerId DateTime → gmap RunnerId DateTime)
    (s : OrchestratorState) : OrchestratorState :=
  {| invocations := invocations s; status_records := status_records s;
     task_invocations := task_invocations s; call_invocations := call_invocations s;
     waiting_for := waiting_for s; waiters := waiters s; cc_index := cc_index s;
     cc_reverse := cc_reverse s; retries := retries s; heartbeats := f (heartbeats s);
     runner_created := runner_created s; runner_atomic_eligible := runner_atomic_eligible s;
     runner_last_service_start := runner_last_service_start s;
     runner_last_service_end := runner_last_service_end s; atomic_timeline := atomic_timeline s;
     auto_purge_queue := auto_purge_queue s |}.

Definition with_runner_created (f : gmap RunnerId DateTime → gmap RunnerId DateTime)
    (s : OrchestratorState) : OrchestratorState :=
  {| invocations := invocations s; status_records := status_records s;
     task_invocations := task_invocations s; call_invocations := call_invocations s;
     waiting_for := waiting_for s; waiters := waiters s; cc_index := cc_index s;
     cc_reverse := cc_reverse s; retries := retries s; heartbeats := heartbeats s;
     runner_created := f (runner_created s); runner_atomic_eligible := runner_atomic_eligible s;
     runner_last_service_start := runner_last_service_start s;
     runner_last_service_end := runner_last_service_end s; atomic_timeline := atomic_timeline s;
     auto_purge_queue := auto_purge_queue s |}.

Definition with_runner_atomic_eligible (f : gmap RunnerId bool → gmap RunnerId bool)
    (s : OrchestratorState) : OrchestratorState :=
  {| invocations := invocations s; status_records := status_records s;
     task_invocations := task_invocations s; call_invocations := call_invocations s;
     waiting_for := waiting_for s; waiters := waiters s; cc_index := cc_index s;
     cc_reverse := cc_reverse s; retries := retries s; heartbeats := heartbeats s;
     runner_created := runner_created s; runner_atomic_eligible := f (runner_atomic_eligible s);
     runner_last_service_start := runner_last_service_start s;
     runner_last_service_end := runner_last_service_end s; atomic_timeline := atomic_timeline s;
     auto_purge_queue := auto_purge_queue s |}.

Definition with_runner_last_service_start (f : gmap RunnerId DateTime → gmap RunnerId DateTime)
    (s : OrchestratorState) : OrchestratorState :=
  {| invocations := invocations s; status_records := status_records s;
     task_invocations := task_invocations s; call_invocations := call_invocations s;
     waiting_for := waiting_for s; waiters := waiters s; cc_index := cc_index s;
     cc_reverse := cc_reverse s; retries := retries s; heartbeats := heartbeats s;
     runner_created := runner_created s; runner_atomic_eligible := runner_atomic_eligible s;
     runner_last_service_start := f (runner_last_service_start s);
     runner_last_service_end := runner_last_service_end s; atomic_timeline := atomic_timeline s;
     auto_purge_queue := auto_purge_queue s |}.

Definition with_runner_last_service_end (f : gmap RunnerId DateTime → gmap RunnerId DateTime)
    (s : OrchestratorState) : OrchestratorState :=
  {| invocations := invocations s; status_records := status_records s;
     task_invocations := task_invocations s; call_invocations := call_invocations s;
     waiting_for := waiting_for s; waiters := waiters s; cc_index := cc_index s;
     cc_reverse := cc_reverse s; retries := retries s; heartbeats := heartbeats s;
     runner_created := runner_created s; runner_atomic_eligible := runner_atomic_eligible s;
     runner_last_service_start := runner_last_service_start s;
     runner_last_service_end := f (runner_last_service_end s);
     atomic_timeline := atomic_timeline s; auto_purge_queue := auto_purge_queue s |}.

Definition with_atomic_timeline (f : list AtomicServiceExecution → list AtomicServiceExecution)
    (s : OrchestratorState) : OrchestratorState :=
  {| invocations := invocations s; status_records := status_records s;
     task_invocations := task_invocations s; call_invocations := call_invocations s;
     waiting_for := waiting_for s; waiters := waiters s; cc_index := cc_index s;
     cc_reverse := cc_reverse s; retries := retries s; heartbeats := heartbeats s;
     runner_created := runner_created s; runner_atomic_eligible := runner_atomic_eligible s;
     runner_last_service_start := runner_last_service_start s;
     runner_last_service_end := runner_last_service_end s;
     atomic_timeline := f (atomic_timeline s); auto_purge_queue := auto_purge_queue s |}.

Definition with_auto_purge_queue (f : gmap InvocationId DateTime → gmap InvocationId DateTime)
    (s : OrchestratorState) : OrchestratorState :=
  {| invocations := invocations s; status_records := status_records s;
     task_invocations := task_invocations s; call_invocations := call_invocations s;
     waiting_for := waiting_for s; waiters := waiters s; cc_index := cc_index s;
     cc_reverse := cc_reverse s; retries := retries s; heartbeats := heartbeats s;
     runner_created := runner_created s; runner_atomic_eligible := runner_atomic_eligible s;
     runner_last_service_start := runner_last_service_start s;
     runner_last_service_end := runner_last_service_end s; atomic_timeline := atomic_timeline s;
     auto_purge_queue := f (auto_purge_queue s) |}.

(** [map.entry(k).or_default().insert(x)]. *)
Definition insert_member `{Countable K} (k : K) (x : string) (m : gmap K (gset string))
    : gmap K (gset string) :=
  <[k := {[x]} ∪ default ∅ (m !! k)]> m.

(** The members recorded under a key. *)
Definition members `{Countable K} (m : gmap K (gset string)) (k : K) : gset string :=
  default ∅ (m !! k).

Section members.
Context `{Countable K}.
Implicit Types (m : gmap K (gset string)) (k : K) (x : string).

Lemma members_insert_member m k x k' :
  members (insert_member k x m) k' = if decide (k = k') then {[x]} ∪ members m k' else members m k'.
Proof.
  unfold members, insert_member. case_decide as Hk.
  - subst. by rewrite lookup_insert_eq.
  - by rewrite lookup_insert_ne.
Qed.

Lemma elem_of_insert_member m k x k' y :
  y ∈ members (insert_member k x m) k' ↔ (k = k' ∧ y = x) ∨ y ∈ members m k'.
Proof. rewrite members_insert_member. case_decide; set_solver. Qed.

Lemma members_empty k : members (∅ : gmap K (gset string)) k = ∅.
Proof. unfold members. by rewrite lookup_empty. Qed.

Lemma elem_of_members m k x : x ∈ members m k ↔ ∃ X, m !! k = Some X ∧ x ∈ X.
Proof. unfold members. destruct (m !! k); set_solver. Qed.
End members.
