(* ===== verification/MemOrchestrator.v ===== *)
(** * The in-memory orchestrator: lifecycle, concurrency slots, waiting,
      recovery data and queries

    Models [rustvello-mem/src/orchestrator]: [status.rs], [concurrency.rs],
    [blocking.rs], [recovery.rs] and [query.rs].  Each operation holds the
    state's lock from its first to its last access (the automatic purge takes it
    several times), so an operation is one run of a program over the state.
    The theorems: every reachable state is well formed, a status change is
    described on every branch, a concurrency slot is granted only below the
    limit, stale detection and pagination return exactly what they promise. *)
From S2P Require Import Prelude Effects Identifiers Status Errors Config Call Invocation OrchestratorState.

Abbreviation Op A := (M RustvelloError OrchestratorState A) (only parsing).

(** ** Registration and status ([status.rs]) *)

(** The inserts of [register_invocation_with_id]. *)
Definition insert_invocation (id : InvocationId) (call : CallDTO) (dto : InvocationDTO)
    (rec : InvocationStatusRecord) (s : OrchestratorState) : OrchestratorState :=
  with_call_invocations (insert_member (call_id_display (cd_call_id call)) id)
    (with_task_invocations (insert_member (task_id_display (cd_task_id call)) id)
      (with_status_records <[id := rec]> (with_invocations <[id := dto]> s))).

(* @src rustvello-mem/src/orchestrator/status.rs 31-65 MemOrchestrator::register_invocation_with_id *)
Definition mem_register_invocation_with_id (id : InvocationId) (call : CallDTO)
    (runner_id : option RunnerId) : Op InvocationStatusRecord :=
  now ← utc_now;
  let dto := invocation_new now id (cd_task_id call) (cd_call_id call) in
  now' ← utc_now;
  let rec := status_record_new now' Registered runner_id in
  modify (insert_invocation id call dto rec);;
  mret rec.

(** [fresh] is the random id of [InvocationId::new()]. *)
(* @src rustvello-mem/src/orchestrator/status.rs 23-29 MemOrchestrator::register_invocation *)
Definition mem_register_invocation (fresh : InvocationId) (call : CallDTO) : Op InvocationId :=
  mem_register_invocation_with_id fresh call None;;
  mret fresh.

(* @src rustvello-mem/src/orchestrator/status.rs 67-78 MemOrchestrator::increment_invocation_retries *)
Definition mem_increment_invocation_retries (id : InvocationId) : Op Z :=
  s ← get;
  let count := u32_wrapping_add (default 0 (retries s !! id)) 1 in
  modify (with_retries <[id := count]>);;
  mret count.

(* @src rustvello-mem/src/orchestrator/status.rs 80-87 MemOrchestrator::get_invocation_retries *)
Definition mem_get_invocation_retries (id : InvocationId) : Op Z :=
  gets (λ s, default 0 (retries s !! id)).

(** [for key in &triples { if let Some(inv_set) = cc_index.get_mut(key) { .. } }]:
    the loop that drops an invocation from the index, and empty sets with it. *)
Definition drop_member (id : InvocationId) (key : cc_key_type)
    (m : gmap cc_key_type (gset InvocationId)) : gmap cc_key_type (gset InvocationId) :=
  match m !! key with
  | Some X => if decide (X ∖ {[id]} = ∅) then delete key m else <[key := X ∖ {[id]}]> m
  | None => m
  end.

(** [if let Some(triples) = cc_reverse.remove(id) { .. }]. *)
(* @src rustvello-mem/src/orchestrator/status.rs 167-179 MemOrchestrator::set_invocation_status *)
Definition prune_cc (id : InvocationId) (s : OrchestratorState) : OrchestratorState :=
  match cc_reverse s !! id with
  | Some triples =>
      with_cc_index (λ m, fold_left (λ m key, drop_member id key m) triples m)
        (with_cc_reverse (delete id) s)
  | None => s
  end.

(* @src rustvello-mem/src/orchestrator/status.rs 89-114 MemOrchestrator::remove_invocation *)
Definition mem_remove_invocation (id : InvocationId) : Op unit :=
  modify (λ s,
    with_waiters (delete id) (with_waiting_for (delete id)
      (prune_cc id
        (with_call_invocations (fmap (λ X, X ∖ {[id]}))
          (with_task_invocations (fmap (λ X, X ∖ {[id]}))
            (with_retries (delete id)
              (with_status_records (delete id) (with_invocations (delete id) s)))))))).

(* @src rustvello-mem/src/orchestrator/status.rs 116-128 MemOrchestrator::get_invocation_status *)
Definition mem_get_invocation_status (id : InvocationId) : Op InvocationStatusRecord :=
  s ← get;
  lift (ok_or (status_records s !! id) (EInvocationNotFound id)).

(* @src rustvello-mem/src/orchestrator/status.rs 130-182 MemOrchestrator::set_invocation_status *)
Definition mem_set_invocation_status (id : InvocationId) (status : InvocationStatus)
    (runner_id : option RunnerId) : Op InvocationStatusRecord :=
  s ← get;
  current ← lift (ok_or (status_records s !! id) (EInvocationNotFound id));
  new_record ← lift_now (λ now,
    map_err (λ e, status_machine_error_to_rustvello e id (rec_status current))
      (status_record_transition now (Some current) status runner_id));
  modify (with_status_records <[id := new_record]>);;
  match invocations s !! id with
  | Some dto =>
      now ← utc_now;
      modify (with_invocations <[id := set_status_fields status now dto]>)
  | None => mret tt
  end;;
  (if is_terminal status then modify (prune_cc id) else mret tt);;
  mret new_record.

(* @src rustvello-mem/src/orchestrator/status.rs 229-244 MemOrchestrator::purge *)
Definition mem_purge : Op unit :=
  modify (λ s,
    with_auto_purge_queue (λ _, ∅) (with_retries (λ _, ∅)
      (with_cc_reverse (λ _, ∅) (with_cc_index (λ _, ∅)
        (with_waiters (λ _, ∅) (with_waiting_for (λ _, ∅)
          (with_call_invocations (λ _, ∅) (with_task_invocations (λ _, ∅)
            (with_status_records (λ _, ∅) (with_invocations (λ _, ∅) s)))))))))).

(* @src rustvello-mem/src/orchestrator/status.rs 246-252 MemOrchestrator::schedule_auto_purge *)
Definition mem_schedule_auto_purge (id : InvocationId) : Op unit :=
  now ← utc_now;
  modify (with_auto_purge_queue <[id := now]>).

(** [let threshold = Utc::now() - Duration::seconds(n)], which may panic. *)
Definition threshold_before `{Chrono} (now : DateTime) (n : Z) : Op DateTime :=
  unwrap_or_panic (seconds_before now (i64_saturating_of_u64 n)) "Duration::seconds out of bounds".

Section operations.
Context `{HashOrder} `{Chrono}.

(* @src rustvello-mem/src/orchestrator/status.rs 254-282 MemOrchestrator::run_auto_purge *)
Definition mem_run_auto_purge (max_age_secs : Z) : Op (list InvocationId) :=
  now ← utc_now;
  threshold ← threshold_before now max_age_secs;
  s ← get;
  let expired := (bfilter (λ p, p.2 <=? threshold) (map_iter (auto_purge_queue s))).*1 in
  for_each (λ id, modify (with_auto_purge_queue (delete id))) expired;;
  for_fold (λ purged id,
    r ← attempt (mem_remove_invocation id);
    mret (match r with inl _ => purged ++ [id] | inr _ => purged end)) [] expired.

(** ** Concurrency control ([concurrency.rs]) *)

Definition running_or_pending (s : OrchestratorState) (id : InvocationId) : bool :=
  match status_records s !! id with
  | Some r => bool_decide (rec_status r = Pending) || bool_decide (rec_status r = Running)
  | None => false
  end.

(** The loop that intersects the members of the remaining pairs; it stops on an
    empty set. *)
Fixpoint retain_members (s : OrchestratorState) (task_key : string)
    (pairs : list (string * string)) (result : gset InvocationId) : gset InvocationId :=
  match pairs with
  | [] => result
  | (k, v) :: rest =>
      let result' := result ∩ members (cc_index s) (task_key, k, v) in
      if decide (result' = ∅) then result' else retain_members s task_key rest result'
  end.

(** The candidates of [check_running_concurrency] and [get_existing_invocations];
    [None] is the early return on an empty list of pairs. *)
(* @src rustvello-mem/src/orchestrator/query.rs 197-238 MemOrchestrator::get_existing_invocations *)
Definition cc_candidates (s : OrchestratorState) (task_key : string)
    (cc_args : option SerializedArguments) : option (gset InvocationId) :=
  match cc_args with
  | Some args =>
      match cc_arg_pairs args with
      | [] => None
      | (k, v) :: rest =>
          Some (retain_members s task_key rest (members (cc_index s) (task_key, k, v)))
      end
  | None => Some (members (task_invocations s) task_key)
  end.

Definition concurrency_limit (config : TaskConfig) : Z := default 1 (tc_running_concurrency config).

(* @src rustvello-mem/src/orchestrator/concurrency.rs 18-89 MemOrchestrator::check_running_concurrency *)
Definition mem_check_running_concurrency (task_id : TaskId) (config : TaskConfig)
    (cc_args : option SerializedArguments) : Op bool :=
  if decide (tc_concurrency_control config = Unlimited) then mret true
  else
    s ← get;
    match cc_candidates s (task_id_display task_id) cc_args with
    | None => mret true
    | Some candidates =>
        let count := length (bfilter (running_or_pending s) (set_iter candidates)) in
        mret (Z.of_nat count <? concurrency_limit config)
    end.

(** Adds an invocation under every key: to the index and to its reverse list. *)
Definition index_triples (id : InvocationId) (triples : list cc_key_type) (s : OrchestratorState)
    : OrchestratorState :=
  with_cc_reverse (λ m, <[id := default [] (m !! id) ++ triples]> m)
    (with_cc_index (λ m, fold_left (λ m key, insert_member key id m) triples m) s).

Definition triples_of (task_key : string) (pairs : list (string * string)) : list cc_key_type :=
  (λ p, (task_key, p.1, p.2)) <$> pairs.

(* @src rustvello-mem/src/orchestrator/concurrency.rs 91-128 MemOrchestrator::index_for_concurrency_control *)
Definition mem_index_for_concurrency_control (id : InvocationId) (task_id : TaskId)
    (cc_args : option SerializedArguments) : Op unit :=
  let pairs := match cc_args with Some args => cc_arg_pairs args | None => [] end in
  let triples := triples_of (task_id_display task_id) pairs in
  if decide (triples = []) then mret tt else modify (index_triples id triples).

(** The members indexed under every pair: [None] when there is no pair. *)
Fixpoint intersect_members (s : OrchestratorState) (task_key : string)
    (pairs : list (string * string)) (acc : option (gset InvocationId))
    : option (gset InvocationId) :=
  match pairs with
  | [] => acc
  | (k, v) :: rest =>
      let indexed := members (cc_index s) (task_key, k, v) in
      intersect_members s task_key rest
        (Some (match acc with Some previous => previous ∩ indexed | None => indexed end))
  end.

(* @src rustvello-mem/src/orchestrator/concurrency.rs 130-186 MemOrchestrator::try_acquire_concurrency_slot *)
Definition mem_try_acquire_concurrency_slot (id : InvocationId) (task_id : TaskId)
    (config : TaskConfig) (cc_args : option SerializedArguments) : Op bool :=
  if decide (tc_concurrency_control config = Unlimited) then mret true
  else
    s ← get;
    let task_key := task_id_display task_id in
    let pairs := cc_arg_pairs (default arguments_new cc_args) in
    let reserved := match intersect_members s task_key pairs None with
      | Some holders => size (holders ∖ {[id]})
      | None => O
      end in
    if concurrency_limit config <=? Z.of_nat reserved then mret false
    else
      modify (index_triples id (triples_of task_key pairs));;
      mret true.

(* @src rustvello-mem/src/orchestrator/concurrency.rs 188-206 MemOrchestrator::remove_from_concurrency_index *)
Definition mem_remove_from_concurrency_index (id : InvocationId) : Op unit := modify (prune_cc id).

(** ** Waiting ([blocking.rs]) *)

(* @src rustvello-mem/src/orchestrator/blocking.rs 13-28 MemOrchestrator::set_waiting_for *)
Definition mem_set_waiting_for (waiter waited_on : InvocationId) : Op unit :=
  modify (λ s, with_waiters (insert_member waited_on waiter)
                 (with_waiting_for <[waiter := waited_on]> s)).

(* @src rustvello-mem/src/orchestrator/blocking.rs 30-41 MemOrchestrator::get_waiters *)
Definition mem_get_waiters (waited_on : InvocationId) : Op (list InvocationId) :=
  gets (λ s, match waiters s !! waited_on with Some X => set_iter X | None => [] end).

(* @src rustvello-mem/src/orchestrator/blocking.rs 43-57 MemOrchestrator::release_waiters *)
Definition mem_release_waiters (completed : InvocationId) : Op (list InvocationId) :=
  s ← get;
  let released := set_iter (members (waiters s) completed) in
  modify (λ s, with_waiting_for (λ m, fold_left (λ m w, delete w m) released m)
                 (with_waiters (delete completed) s));;
  mret released.

(** ** Recovery and heartbeats ([recovery.rs]) *)

(* @src rustvello-mem/src/orchestrator/recovery.rs 17-34 MemOrchestrator::register_heartbeat *)
Definition mem_register_heartbeat (runner_id : RunnerId) (can_run_atomic_service : bool) : Op unit :=
  now ← utc_now;
  modify (with_heartbeats <[runner_id := now]>);;
  s ← get;
  match runner_created s !! runner_id with
  | Some _ => mret tt
  | None => created ← utc_now; modify (with_runner_created <[runner_id := created]>)
  end;;
  modify (with_runner_atomic_eligible <[runner_id := can_run_atomic_service]>).

Definition stale_pending (threshold : DateTime) (p : InvocationId * InvocationStatusRecord) : bool :=
  bool_decide (rec_status p.2 = Pending) && (rec_timestamp p.2 <? threshold).

(* @src rustvello-mem/src/orchestrator/recovery.rs 36-53 MemOrchestrator::get_stale_pending_invocations *)
Definition mem_get_stale_pending_invocations (max_pending_seconds : Z) : Op (list InvocationId) :=
  s ← get;
  now ← utc_now;
  threshold ← threshold_before now max_pending_seconds;
  mret (bfilter (stale_pending threshold) (map_iter (status_records s))).*1.

(** Whether the owner of a running invocation is dead; [None] is a panic. *)
Definition owner_dead (s : OrchestratorState) (now : DateTime) (dead_seconds : Z)
    (p : InvocationId * InvocationStatusRecord) : option bool :=
  if decide (rec_status p.2 = Running) then
    match rec_runner_id p.2 with
    | Some runner_id =>
        match heartbeats s !! runner_id with
        | Some last_hb => Some (dead_seconds <? elapsed_seconds now last_hb)
        | None => t ← seconds_before now dead_seconds; Some (rec_timestamp p.2 <? t)
        end
    | None => Some true
    end
  else Some false.

(* @src rustvello-mem/src/orchestrator/recovery.rs 55-85 MemOrchestrator::get_stale_running_invocations *)
Definition mem_get_stale_running_invocations (runner_dead_after_seconds : Z) : Op (list InvocationId) :=
  s ← get;
  now ← utc_now;
  let dead_seconds := i64_saturating_of_u64 runner_dead_after_seconds in
  stale ← unwrap_or_panic
    (filter_panicking (owner_dead s now dead_seconds) (map_iter (status_records s)))
    "Duration::seconds out of bounds";
  mret stale.*1.

Definition heartbeat_within (now timeout : Z) (p : RunnerId * DateTime) : bool :=
  elapsed_seconds now p.2 <=? timeout.

(* @src rustvello-mem/src/orchestrator/recovery.rs 87-98 MemOrchestrator::get_active_runner_ids *)
Definition mem_get_active_runner_ids (timeout_seconds : Z) : Op (list RunnerId) :=
  s ← get;
  now ← utc_now;
  let timeout := i64_saturating_of_u64 timeout_seconds in
  mret (bfilter (heartbeat_within now timeout) (map_iter (heartbeats s))).*1.

Definition runner_info (s : OrchestratorState) (p : RunnerId * DateTime) : ActiveRunnerInfo :=
  {| ari_runner_id := p.1;
     ari_creation_time := default p.2 (runner_created s !! p.1);
     ari_last_heartbeat := p.2;
     ari_can_run_atomic_service := default false (runner_atomic_eligible s !! p.1);
     ari_last_service_start := runner_last_service_start s !! p.1;
     ari_last_service_end := runner_last_service_end s !! p.1 |}.

(* @src rustvello-mem/src/orchestrator/recovery.rs 100-146 MemOrchestrator::get_active_runners *)
Definition mem_get_active_runners (timeout_seconds : Z) (can_run_atomic_service : option bool)
    : Op (list ActiveRunnerInfo) :=
  s ← get;
  now ← utc_now;
  let timeout := i64_saturating_of_u64 timeout_seconds in
  let eligible (p : RunnerId * DateTime) := match can_run_atomic_service with
    | Some wanted => Bool.eqb (default false (runner_atomic_eligible s !! p.1)) wanted
    | None => true
    end in
  let runners := runner_info s <$>
    bfilter eligible (bfilter (heartbeat_within now timeout) (map_iter (heartbeats s))) in
  mret (sort_by (λ a b, ari_creation_time a <=? ari_creation_time b) runners).

(** Pushes an entry and keeps the 200 most recent ones. *)
Definition push_execution (e : AtomicServiceExecution) (l : list AtomicServiceExecution)
    : list AtomicServiceExecution :=
  let l' := l ++ [e] in
  if (200 <? length l')%nat then drop (length l' - 200) l' else l'.

(* @src rustvello-mem/src/orchestrator/recovery.rs 148-171 MemOrchestrator::record_atomic_service_execution *)
Definition mem_record_atomic_service_execution (runner_id : RunnerId) (start finish : DateTime)
    : Op unit :=
  modify (λ s,
    with_atomic_timeline (push_execution (mkServiceExecution runner_id start finish))
      (with_runner_last_service_end <[runner_id := finish]>
        (with_runner_last_service_start <[runner_id := start]> s))).

(* @src rustvello-mem/src/orchestrator/recovery.rs 173-178 MemOrchestrator::get_atomic_service_timeline *)
Definition mem_get_atomic_service_timeline : Op (list AtomicServiceExecution) :=
  gets (λ s, sort_by (λ a b, ase_start b <=? ase_start a) (atomic_timeline s)).

(** ** Queries ([query.rs]) *)

(* @src rustvello-mem/src/orchestrator/query.rs 16-30 MemOrchestrator::get_invocations_by_task *)
Definition mem_get_invocations_by_task (task_id : TaskId) : Op (list InvocationId) :=
  gets (λ s, match task_invocations s !! task_id_display task_id with
             | Some X => set_iter X | None => [] end).

(* @src rustvello-mem/src/orchestrator/query.rs 32-46 MemOrchestrator::get_invocations_by_call *)
Definition mem_get_invocations_by_call (call_id : CallId) : Op (list InvocationId) :=
  gets (λ s, match call_invocations s !! call_id_display call_id with
             | Some X => set_iter X | None => [] end).

(** The two optional filters of the queries. *)
Definition task_filter (s : OrchestratorState) (task_id : option TaskId) (id : InvocationId) : bool :=
  match task_id with
  | Some t => bool_decide (id ∈ members (task_invocations s) (task_id_display t))
  | None => true
  end.

Definition status_filter (statuses : option (list InvocationStatus)) (st : InvocationStatus) : bool :=
  match statuses with Some l => bool_decide (st ∈ l) | None => true end.

Definition query_filter (s : OrchestratorState) (task_id : option TaskId)
    (statuses : option (list InvocationStatus)) (p : InvocationId * InvocationStatusRecord) : bool :=
  status_filter statuses (rec_status p.2) && task_filter s task_id p.1.

(* @src rustvello-mem/src/orchestrator/query.rs 48-71 MemOrchestrator::get_invocations_by_status *)
Definition mem_get_invocations_by_status (status : InvocationStatus) (task_id : option TaskId)
    : Op (list InvocationId) :=
  gets (λ s,
    (bfilter (λ p : InvocationId * InvocationStatusRecord, task_filter s task_id p.1)
      (bfilter (λ p, bool_decide (rec_status p.2 = status)) (map_iter (status_records s)))).*1).

(* @src rustvello-mem/src/orchestrator/query.rs 73-101 MemOrchestrator::count_invocations *)
Definition mem_count_invocations (task_id : option TaskId)
    (statuses : option (list InvocationStatus)) : Op nat :=
  gets (λ s, length (bfilter (query_filter s task_id statuses) (map_iter (status_records s)))).

(* @src rustvello-mem/src/orchestrator/query.rs 103-142 MemOrchestrator::get_invocation_ids_paginated *)
Definition mem_get_invocation_ids_paginated (task_id : option TaskId)
    (statuses : option (list InvocationStatus)) (limit offset : nat) : Op (list InvocationId) :=
  gets (λ s,
    let ids := (bfilter (query_filter s task_id statuses) (map_iter (status_records s))).*1 in
    take limit (drop offset (str_sort ids))).

(* @src rustvello-mem/src/orchestrator/query.rs 144-161 MemOrchestrator::filter_by_status *)
Definition mem_filter_by_status (ids : list InvocationId) (statuses : list InvocationStatus)
    : Op (list InvocationId) :=
  gets (λ s, bfilter (λ id, match status_records s !! id with
                            | Some r => bool_decide (rec_status r ∈ statuses)
                            | None => false end) ids).

(** An entry of [waiters] that the loop of [get_blocking_invocations] pushes. *)
Definition is_blocking (s : OrchestratorState) (p : InvocationId * gset InvocationId) : bool :=
  negb (bool_decide (p.2 = ∅)) && negb (bool_decide (is_Some (waiting_for s !! p.1))) &&
  match status_records s !! p.1 with
  | Some r => is_available_for_run (rec_status r)
  | None => false
  end.

Fixpoint blocking_loop (s : OrchestratorState) (max_num : nat)
    (entries : list (InvocationId * gset InvocationId)) (result : list InvocationId)
    : list InvocationId :=
  match entries with
  | [] => result
  | p :: rest =>
      if is_blocking s p then
        let result' := result ++ [p.1] in
        if (max_num <=? length result')%nat then result' else blocking_loop s max_num rest result'
      else blocking_loop s max_num rest result
  end.

(* @src rustvello-mem/src/orchestrator/query.rs 163-186 MemOrchestrator::get_blocking_invocations *)
Definition mem_get_blocking_invocations (max_num : nat) : Op (list InvocationId) :=
  gets (λ s, blocking_loop s max_num (map_iter (waiters s)) []).

(* @src rustvello-mem/src/orchestrator/query.rs 188-256 MemOrchestrator::get_existing_invocations *)
Definition mem_get_existing_invocations (task_id : TaskId) (cc_args : option SerializedArguments)
    (statuses : list InvocationStatus) : Op (list InvocationId) :=
  gets (λ s,
    match cc_candidates s (task_id_display task_id) cc_args with
    | None => []
    | Some candidates =>
        bfilter (λ id, bool_decide (statuses = []) ||
                       match status_records s !! id with
                       | Some r => bool_decide (rec_status r ∈ statuses)
                       | None => false
                       end) (set_iter candidates)
    end).
End operations.
