(* ===== verification/MemOrchestratorFacts.v ===== *)
(** * The in-memory orchestrator: invariant and functional behaviour

    The well-formedness invariant of the state and its preservation by every
    operation, then what the operations promise: status changes, concurrency
    slots, waiting, stale detection, pagination, the service timeline. *)
From S2P Require Import Prelude Effects Identifiers Status Errors Config Call Invocation OrchestratorState MemOrchestrator.

(** ** The index and its reverse lists *)

Lemma members_drop_member id key m k :
  members (drop_member id key m) k = if decide (k = key) then members m k ∖ {[id]} else members m k.
Proof.
  unfold drop_member, members. destruct (decide (k = key)) as [->|Hk].
  - destruct (m !! key) as [X|] eqn:Hm; [|rewrite Hm; set_solver].
    case_decide as HX; [by rewrite lookup_delete_eq|by rewrite lookup_insert_eq].
  - destruct (m !! key) as [X|]; [|done].
    case_decide; [by rewrite lookup_delete_ne|by rewrite lookup_insert_ne].
Qed.

Lemma members_drop_all id triples m k :
  members (fold_left (λ m key, drop_member id key m) triples m) k =
    if decide (k ∈ triples) then members m k ∖ {[id]} else members m k.
Proof.
  revert m. induction triples as [|key triples IH]; intros m; cbn [fold_left].
  { rewrite decide_False by set_solver. done. }
  rewrite IH, members_drop_member. repeat case_decide; set_solver.
Qed.

Definition no_empty_set (m : gmap cc_key_type (gset InvocationId)) : Prop :=
  ∀ key X, m !! key = Some X → X ≠ ∅.

Lemma drop_all_no_empty id triples m :
  no_empty_set m → no_empty_set (fold_left (λ m key, drop_member id key m) triples m).
Proof.
  revert m. induction triples as [|key triples IH]; intros m Hm; simpl; [done|].
  apply IH. intros k X. unfold drop_member. destruct (m !! key) as [Y|] eqn:HY; [|apply Hm].
  case_decide as HE.
  - rewrite lookup_delete_Some. intros [_ ?]. by eapply Hm.
  - rewrite lookup_insert_Some. intros [[_ <-]|[_ ?]]; [done|by eapply Hm].
Qed.

Lemma elem_of_insert_all id (triples : list cc_key_type) m k x :
  x ∈ members (fold_left (λ m key, insert_member key id m) triples m) k ↔
    (x = id ∧ k ∈ triples) ∨ x ∈ members m k.
Proof.
  revert m. induction triples as [|key triples IH]; intros m; simpl; [set_solver|].
  rewrite IH, elem_of_insert_member, elem_of_cons. naive_solver.
Qed.

Lemma insert_all_no_empty id (triples : list cc_key_type) m :
  no_empty_set m → no_empty_set (fold_left (λ m key, insert_member key id m) triples m).
Proof.
  revert m. induction triples as [|key triples IH]; intros m Hm; simpl; [done|].
  apply IH. intros k X. unfold insert_member. rewrite lookup_insert_Some.
  intros [[_ <-]|[_ ?]]; [set_solver|by eapply Hm].
Qed.

(** ** Well-formed states *)

(** The index and the reverse lists describe the same relation, and no key is
    kept for an empty set. *)
Record cc_wf (s : OrchestratorState) : Prop := {
  cc_agree : ∀ key id, id ∈ members (cc_index s) key ↔ key ∈ default [] (cc_reverse s !! id);
  cc_nonempty : no_empty_set (cc_index s)
}.

(** The lifecycle part: one record and one DTO per invocation, which agree;
    every record is one a lifecycle reaches; the task and call indexes list
    exactly live invocations. *)
Record life_wf (s : OrchestratorState) : Prop := {
  life_dom : ∀ id, is_Some (invocations s !! id) ↔ is_Some (status_records s !! id);
  life_mirror : ∀ id dto rec, invocations s !! id = Some dto → status_records s !! id = Some rec →
    inv_id dto = id ∧ inv_status dto = rec_status rec;
  life_records : ∀ id rec, status_records s !! id = Some rec → lifecycle rec;
  life_task : ∀ id dto, invocations s !! id = Some dto →
    id ∈ members (task_invocations s) (task_id_display (inv_task_id dto));
  life_call : ∀ id dto, invocations s !! id = Some dto →
    id ∈ members (call_invocations s) (call_id_display (inv_call_id dto));
  life_task_live : ∀ t id, id ∈ members (task_invocations s) t → is_Some (status_records s !! id);
  life_call_live : ∀ c id, id ∈ members (call_invocations s) c → is_Some (status_records s !! id)
}.

Record orch_wf (s : OrchestratorState) : Prop := {
  orch_cc : cc_wf s;
  orch_life : life_wf s;
  orch_retries : ∀ id n, retries s !! id = Some n → 0 ≤ n ≤ u32_max;
  orch_timeline : (length (atomic_timeline s) ≤ 200)%nat
}.

Lemma orch_wf_new : orch_wf orchestrator_new.
Proof.
  split; [split|split| |]; simpl; try (intros; by rewrite ?members_empty, ?lookup_empty in * ).
  - intros key id. rewrite members_empty, lookup_empty. set_solver.
  - lia.
Qed.

(** *** Pruning *)

Lemma prune_cc_fields id s :
  invocations (prune_cc id s) = invocations s ∧ status_records (prune_cc id s) = status_records s ∧
  task_invocations (prune_cc id s) = task_invocations s ∧
  call_invocations (prune_cc id s) = call_invocations s ∧
  retries (prune_cc id s) = retries s ∧ atomic_timeline (prune_cc id s) = atomic_timeline s ∧
  cc_reverse (prune_cc id s) = delete id (cc_reverse s).
Proof.
  unfold prune_cc. destruct (cc_reverse s !! id) eqn:E; [done|].
  split_and!; try done. by rewrite delete_id.
Qed.

Lemma members_prune_cc id s key :
  cc_wf s → members (cc_index (prune_cc id s)) key = members (cc_index s) key ∖ {[id]}.
Proof.
  intros [Hag _]. unfold prune_cc. specialize (Hag key id).
  destruct (cc_reverse s !! id) as [triples|]; simpl in *.
  - rewrite members_drop_all. case_decide; set_solver.
  - set_solver.
Qed.

Lemma cc_wf_prune id s : cc_wf s → cc_wf (prune_cc id s).
Proof.
  intros Hwf. split.
  - intros key x. rewrite members_prune_cc by done.
    destruct (prune_cc_fields id s) as (_&_&_&_&_&_&->).
    rewrite elem_of_difference, elem_of_singleton, (cc_agree s Hwf).
    destruct (decide (x = id)) as [->|Hne]; [rewrite lookup_delete_eq; set_solver|].
    rewrite lookup_delete_ne by done. naive_solver.
  - unfold prune_cc. destruct (cc_reverse s !! id); [|apply Hwf].
    simpl. apply drop_all_no_empty, Hwf.
Qed.

(** *** Indexing *)

Lemma cc_wf_index id triples s : cc_wf s → cc_wf (index_triples id triples s).
Proof.
  intros Hwf. split; simpl; [|apply insert_all_no_empty, Hwf].
  intros key x. rewrite elem_of_insert_all, (cc_agree s Hwf).
  destruct (decide (x = id)) as [->|Hne].
  - rewrite lookup_insert_eq. simpl. rewrite elem_of_app. naive_solver.
  - rewrite lookup_insert_ne by done. naive_solver.
Qed.

(** A part of the invariant depends only on the fields it mentions. *)
Lemma cc_wf_proper s s' :
  cc_index s' = cc_index s → cc_reverse s' = cc_reverse s → cc_wf s → cc_wf s'.
Proof. intros H1 H2 [? ?]. split; by rewrite ?H1, ?H2. Qed.

Lemma life_wf_proper s s' :
  invocations s' = invocations s → status_records s' = status_records s →
  task_invocations s' = task_invocations s → call_invocations s' = call_invocations s →
  life_wf s → life_wf s'.
Proof. intros H1 H2 H3 H4 []. split; rewrite ?H1, ?H2, ?H3, ?H4; auto. Qed.

(** A state that differs in other fields only. *)
Lemma orch_wf_frame s s' :
  cc_index s' = cc_index s → cc_reverse s' = cc_reverse s →
  invocations s' = invocations s → status_records s' = status_records s →
  task_invocations s' = task_invocations s → call_invocations s' = call_invocations s →
  retries s' = retries s → atomic_timeline s' = atomic_timeline s →
  orch_wf s → orch_wf s'.
Proof.
  intros ?????? Hr Ht [Hc Hl ??]. split; [by apply (cc_wf_proper s)|by apply (life_wf_proper s)| |].
  - by rewrite Hr.
  - by rewrite Ht.
Qed.

Lemma orch_wf_prune id s : orch_wf s → orch_wf (prune_cc id s).
Proof.
  intros [Hc Hl ??]. destruct (prune_cc_fields id s) as (?&?&?&?&Hr&Ht&?).
  split; [by apply cc_wf_prune|by apply (life_wf_proper s)|by rewrite Hr|by rewrite Ht].
Qed.

Lemma orch_wf_waiting f g s : orch_wf s → orch_wf (with_waiters f (with_waiting_for g s)).
Proof. by apply orch_wf_frame. Qed.

Lemma orch_wf_index id triples s : orch_wf s → orch_wf (index_triples id triples s).
Proof. intros [Hc Hl ??]. split; [by apply cc_wf_index|by apply (life_wf_proper s)|done|done]. Qed.

(** *** Registration and removal *)

Lemma orch_wf_insert id call now now' r s :
  orch_wf s →
  orch_wf (insert_invocation id call (invocation_new now id (cd_task_id call) (cd_call_id call))
             (status_record_new now' Registered r) s).
Proof.
  intros [Hc [Hd Hm Hr Ht Hca Htl Hcl] ??].
  split; [by apply (cc_wf_proper s)| |done|done]. split; simpl.
  - intros x. rewrite !lookup_insert_is_Some, Hd. done.
  - intros x dto rec. rewrite !lookup_insert_Some. naive_solver.
  - intros x rec. rewrite lookup_insert_Some. intros [[_ <-]|[_ ?]]; [constructor|by apply (Hr x)].
  - intros x dto. rewrite lookup_insert_Some, elem_of_insert_member. naive_solver.
  - intros x dto. rewrite lookup_insert_Some, elem_of_insert_member. naive_solver.
  - intros t x. rewrite elem_of_insert_member, lookup_insert_is_Some'. intros [[_ ->]|?]; eauto.
  - intros t x. rewrite elem_of_insert_member, lookup_insert_is_Some'. intros [[_ ->]|?]; eauto.
Qed.

Lemma members_fmap_difference (m : gmap string (gset string)) id k :
  members ((λ X, X ∖ {[id]}) <$> m) k = members m k ∖ {[id]}.
Proof. unfold members. rewrite lookup_fmap. destruct (m !! k); simpl; set_solver. Qed.

(** The state after [remove_invocation], before the index is pruned. *)
Definition dropped (id : InvocationId) (s : OrchestratorState) : OrchestratorState :=
  with_call_invocations (fmap (λ X, X ∖ {[id]}))
    (with_task_invocations (fmap (λ X, X ∖ {[id]}))
      (with_retries (delete id) (with_status_records (delete id) (with_invocations (delete id) s)))).

Lemma orch_wf_dropped id s : orch_wf s → orch_wf (dropped id s).
Proof.
  intros [Hc [Hd Hm Hr Ht Hca Htl Hcl] Hre ?].
  split; [by apply (cc_wf_proper s)| | |done].
  - split; simpl.
    + intros x. rewrite !lookup_delete_is_Some, Hd. done.
    + intros x dto rec. rewrite !lookup_delete_Some. naive_solver.
    + intros x rec. rewrite lookup_delete_Some. intros [_ ?]. eauto.
    + intros x dto. rewrite lookup_delete_Some, members_fmap_difference. set_solver.
    + intros x dto. rewrite lookup_delete_Some, members_fmap_difference. set_solver.
    + intros t x. rewrite members_fmap_difference, lookup_delete_is_Some. set_solver.
    + intros t x. rewrite members_fmap_difference, lookup_delete_is_Some. set_solver.
  - intros x n. simpl. rewrite lookup_delete_Some. intros [_ ?]. eauto.
Qed.

Lemma orch_wf_purged s :
  orch_wf s → orch_wf (state_after mem_purge (frozen_clock 0) s).
Proof.
  intros [_ _ _ ?]. split; [split|split| |done]; simpl;
    try (intros; by rewrite ?members_empty, ?lookup_empty in * ).
  intros key id. rewrite members_empty, lookup_empty. set_solver.
Qed.

(** ** A status change, completely *)

(** The state after a permitted change to the record [rec']; [now] stamps the
    DTO. *)
Definition status_changed (id : InvocationId) (rec' : InvocationStatusRecord) (now : DateTime)
    (s : OrchestratorState) : OrchestratorState :=
  let s1 := with_status_records <[id := rec']> s in
  let s2 := match invocations s !! id with
    | Some dto => with_invocations <[id := set_status_fields (rec_status rec') now dto]> s1
    | None => s1
    end in
  if is_terminal (rec_status rec') then prune_cc id s2 else s2.

Lemma set_status_unknown c s id st r :
  status_records s !! id = None →
  mem_set_invocation_status id st r c s = (Err (EInvocationNotFound id), c, s).
Proof.
  intros Hn. unfold mem_set_invocation_status, mbind, M_bind, get, lift. simpl. by rewrite Hn.
Qed.

Lemma set_status_refused c s id st r cur e :
  status_records s !! id = Some cur →
  status_record_transition (clock_next c).1 (Some cur) st r = Err e →
  mem_set_invocation_status id st r c s =
    (Err (status_machine_error_to_rustvello e id (rec_status cur)), c, s).
Proof.
  intros Hs He. unfold mem_set_invocation_status, mbind, M_bind, get, lift, lift_now. simpl in *.
  rewrite Hs. simpl. by rewrite He.
Qed.

Lemma set_status_run c s id st r cur :
  status_records s !! id = Some cur → may_transition cur st r →
  ∃ c' now,
    mem_set_invocation_status id st r c s =
      (Ok (moved (clock_next c).1 cur st r), c',
       status_changed id (moved (clock_next c).1 cur st r) now s).
Proof.
  intros Hs Hm.
  pose proof (proj2 (transition_Ok (clock_next c).1 cur st r _) (conj Hm eq_refl)) as Ht.
  unfold mem_set_invocation_status, mbind, M_bind, get, lift, lift_now, modify, mret, M_ret,
    utc_now, status_changed. simpl in *.
  rewrite Hs. simpl. rewrite Ht. simpl.
  destruct (invocations s !! id) as [dto|]; simpl.
  - destruct (is_terminal st); simpl; eauto.
  - destruct (is_terminal st); simpl; by exists (clock_next c).2, 0.
Qed.

(** A change either succeeds as the status machine says or changes nothing. *)
Lemma set_status_cases c s id st r :
  (∃ e c', mem_set_invocation_status id st r c s = (Err e, c', s)) ∨
  (∃ cur c' now, status_records s !! id = Some cur ∧ may_transition cur st r ∧
     mem_set_invocation_status id st r c s =
       (Ok (moved (clock_next c).1 cur st r), c',
        status_changed id (moved (clock_next c).1 cur st r) now s)).
Proof.
  destruct (status_records s !! id) as [cur|] eqn:Hs.
  2: { left. exists (EInvocationNotFound id), c. by apply set_status_unknown. }
  destruct (status_record_transition (clock_next c).1 (Some cur) st r) as [rec'|e|p] eqn:Ht.
  - right. pose proof Ht as [Hm ->]%transition_Ok.
    destruct (set_status_run c s id st r cur Hs Hm) as (c'&now&Hr). eauto 7.
  - left. do 2 eexists. by eapply set_status_refused.
  - pose proof (transition_never_panics (clock_next c).1 (Some cur) st r) as Hp.
    by rewrite Ht in Hp.
Qed.

Lemma status_changed_records id rec' now s :
  status_records (status_changed id rec' now s) = <[id := rec']> (status_records s).
Proof.
  unfold status_changed. destruct (is_terminal _).
  - rewrite (proj1 (proj2 (prune_cc_fields id _))). by destruct (invocations s !! id).
  - by destruct (invocations s !! id).
Qed.

Lemma status_changed_retries id rec' now s :
  retries (status_changed id rec' now s) = retries s.
Proof.
  unfold status_changed. destruct (is_terminal _).
  - destruct (prune_cc_fields id
      match invocations s !! id with
      | Some dto => with_invocations <[id := set_status_fields (rec_status rec') now dto]>
                      (with_status_records <[id := rec']> s)
      | None => with_status_records <[id := rec']> s
      end) as (_&_&_&_&->&_&_). by destruct (invocations s !! id).
  - by destruct (invocations s !! id).
Qed.

Lemma status_changed_cc id rec' now s :
  cc_wf s →
  cc_wf (status_changed id rec' now s) ∧
  (∀ key, members (cc_index (status_changed id rec' now s)) key =
    if is_terminal (rec_status rec') then members (cc_index s) key ∖ {[id]}
    else members (cc_index s) key).
Proof.
  intros Hc. unfold status_changed.
  set (s2 := match invocations s !! id with Some dto => _ | None => _ end).
  assert (cc_index s2 = cc_index s ∧ cc_reverse s2 = cc_reverse s) as [H1 H2]
    by (subst s2; by destruct (invocations s !! id)).
  assert (cc_wf s2) as Hc2 by by apply (cc_wf_proper s).
  destruct (is_terminal _).
  - split; [by apply cc_wf_prune|]. intros key. by rewrite members_prune_cc, H1.
  - split; [done|]. intros key. by rewrite H1.
Qed.

Lemma orch_wf_status_changed id cur st r t now s :
  orch_wf s → status_records s !! id = Some cur → may_transition cur st r →
  orch_wf (status_changed id (moved t cur st r) now s).
Proof.
  intros Hwf Hs Hm. destruct Hwf as [Hc [Hd Hmi Hr Ht Hca Htl Hcl] ??].
  assert (lifecycle (moved t cur st r)) as Hl.
  { apply (life_step t cur st r); [by apply (Hr id)|by apply transition_Ok]. }
  destruct (proj2 (Hd id) ltac:(eauto)) as [dto Hdto].
  destruct (Hmi id dto cur Hdto Hs) as [Hid _].
  unfold status_changed. rewrite Hdto.
  set (s2 := with_invocations _ _).
  assert (orch_wf s2) as Hwf2; [|by destruct (is_terminal _); [apply orch_wf_prune|]].
  split; [by apply (cc_wf_proper s)| |done|done]. split; simpl.
  - intros x. rewrite !lookup_insert_is_Some', Hd. done.
  - intros x d rec. rewrite !lookup_insert_Some. intros [[<- <-]|[? ?]] [[? <-]|[? ?]]; try done.
    by apply Hmi.
  - intros x rec. rewrite lookup_insert_Some. intros [[_ <-]|[_ ?]]; [done|by apply (Hr x)].
  - intros x d. rewrite lookup_insert_Some. intros [[<- <-]|[_ ?]]; [by apply (Ht id dto)|by apply Ht].
  - intros x d. rewrite lookup_insert_Some. intros [[<- <-]|[_ ?]]; [by apply (Hca id dto)|by apply Hca].
  - intros k x Hx. apply lookup_insert_is_Some'. right. by apply (Htl k).
  - intros k x Hx. apply lookup_insert_is_Some'. right. by apply (Hcl k).
Qed.

(** ** Every operation preserves the invariant *)

(** The calls that change the state. *)
Inductive orch_op :=
| OpRegister (id : InvocationId) (call : CallDTO) (r : option RunnerId)
| OpIncrementRetries (id : InvocationId)
| OpRemove (id : InvocationId)
| OpSetStatus (id : InvocationId) (st : InvocationStatus) (r : option RunnerId)
| OpPurge
| OpScheduleAutoPurge (id : InvocationId)
| OpRunAutoPurge (max_age_secs : Z)
| OpIndex (id : InvocationId) (t : TaskId) (args : option SerializedArguments)
| OpAcquire (id : InvocationId) (t : TaskId) (cfg : TaskConfig) (args : option SerializedArguments)
| OpRelease (id : InvocationId)
| OpWait (waiter waited_on : InvocationId)
| OpReleaseWaiters (id : InvocationId)
| OpHeartbeat (r : RunnerId) (eligible : bool)
| OpRecordService (r : RunnerId) (start finish : DateTime).

Section preservation.
Context `{HashOrder} `{Chrono}.

Definition run_op (op : orch_op) : M RustvelloError OrchestratorState unit :=
  match op with
  | OpRegister id call r => mem_register_invocation_with_id id call r;; mret tt
  | OpIncrementRetries id => mem_increment_invocation_retries id;; mret tt
  | OpRemove id => mem_remove_invocation id
  | OpSetStatus id st r => mem_set_invocation_status id st r;; mret tt
  | OpPurge => mem_purge
  | OpScheduleAutoPurge id => mem_schedule_auto_purge id
  | OpRunAutoPurge n => mem_run_auto_purge n;; mret tt
  | OpIndex id t args => mem_index_for_concurrency_control id t args
  | OpAcquire id t cfg args => mem_try_acquire_concurrency_slot id t cfg args;; mret tt
  | OpRelease id => mem_remove_from_concurrency_index id
  | OpWait w x => mem_set_waiting_for w x
  | OpReleaseWaiters id => mem_release_waiters id;; mret tt
  | OpHeartbeat r e => mem_register_heartbeat r e
  | OpRecordService r a b => mem_record_atomic_service_execution r a b
  end.

(** A call by some client at some time, whatever its outcome. *)
Definition orch_step (s s' : OrchestratorState) : Prop :=
  ∃ op c, s' = state_after (run_op op) c s.

Lemma wf_modify f : (∀ s, orch_wf s → orch_wf (f s)) → respects (E := RustvelloError) (keeps orch_wf) (modify f).
Proof. intros Hf. apply respects_modify. exact Hf. Qed.

(** An update of fields the invariant does not mention. *)
Ltac wf_frame := apply wf_modify; intros s Hs; by apply (orch_wf_frame s).

Lemma wf_register id call r : respects (keeps orch_wf) (mem_register_invocation_with_id id call r).
Proof.
  unfold mem_register_invocation_with_id. solve_respects. apply wf_modify.
  intros s Hs. by apply orch_wf_insert.
Qed.

Lemma wf_increment id : respects (keeps orch_wf) (mem_increment_invocation_retries id).
Proof.
  unfold mem_increment_invocation_retries. solve_respects. apply wf_modify.
  intros s [Hc Hl Hr ?]. split; [by apply (cc_wf_proper s)|by apply (life_wf_proper s)| |done].
  intros x n. simpl. rewrite lookup_insert_Some. intros [[_ <-]|[_ ?]]; [|by apply (Hr x)].
  apply u32_wrapping_add_range.
Qed.

Lemma wf_remove id : respects (keeps orch_wf) (mem_remove_invocation id).
Proof.
  apply wf_modify. intros s Hs.
  by apply orch_wf_waiting, orch_wf_prune, orch_wf_dropped.
Qed.

Lemma wf_set_status id st r : respects (keeps orch_wf) (mem_set_invocation_status id st r).
Proof.
  intros c s Hs. unfold state_after.
  destruct (set_status_cases c s id st r) as [(e&c'&->)|(cur&c'&now&Hcur&Hm&->)]; [done|].
  by apply orch_wf_status_changed.
Qed.

Lemma wf_run_auto_purge n : respects (keeps orch_wf) (mem_run_auto_purge n).
Proof.
  unfold mem_run_auto_purge, threshold_before. solve_respects; [wf_frame|apply wf_remove].
Qed.

Lemma wf_run_op op : respects (keeps orch_wf) (run_op op).
Proof.
  destruct op; simpl;
    try (apply respects_bind; [apply _| |intros ?; apply respects_ret; apply _]).
  - apply wf_register.
  - apply wf_increment.
  - apply wf_remove.
  - apply wf_set_status.
  - apply wf_modify. intros s. apply orch_wf_purged.
  - unfold mem_schedule_auto_purge. solve_respects. wf_frame.
  - apply wf_run_auto_purge.
  - unfold mem_index_for_concurrency_control. case_decide; [apply respects_ret; apply _|].
    apply wf_modify. intros s. apply orch_wf_index.
  - unfold mem_try_acquire_concurrency_slot. case_decide; [apply respects_ret; apply _|].
    solve_respects. apply wf_modify. intros s. apply orch_wf_index.
  - apply wf_modify. intros s. apply orch_wf_prune.
  - wf_frame.
  - unfold mem_release_waiters. solve_respects. wf_frame.
  - unfold mem_register_heartbeat. solve_respects; wf_frame.
  - apply wf_modify. intros s [Hc Hl ??].
    split; [by apply (cc_wf_proper s)|by apply (life_wf_proper s)|done|].
    simpl. unfold push_execution.
    destruct (Nat.ltb_spec 200 (length (atomic_timeline s ++ [mkServiceExecution r start finish])));
      rewrite ?length_drop; lia.
Qed.

Lemma reachable_wf s : rtc orch_step orchestrator_new s → orch_wf s.
Proof.
  intros Hr. assert (orch_wf orchestrator_new) as Hnew by apply orch_wf_new.
  induction Hr as [|x y z (op&c&->) _ IH]; [done|]. apply IH. by apply wf_run_op.
Qed.
End preservation.

(** ** Concurrency slots *)

(** The invocations indexed under every argument pair of a call. *)
Definition slot_holders (s : OrchestratorState) (task_key : string) (pairs : list (string * string))
    : gset InvocationId :=
  default ∅ (intersect_members s task_key pairs None).

Lemma intersect_members_Some s k pairs X :
  ∃ Y, intersect_members s k pairs (Some X) = Some Y ∧
    ∀ x, x ∈ Y ↔ x ∈ X ∧ ∀ p, p ∈ pairs → x ∈ members (cc_index s) (k, p.1, p.2).
Proof.
  revert X. induction pairs as [|[a b] pairs IH]; intros X; simpl.
  { exists X. split; [done|]. set_solver. }
  destruct (IH (X ∩ members (cc_index s) (k, a, b))) as (Y&->&HY). exists Y. split; [done|].
  intros x. rewrite HY, elem_of_intersection. setoid_rewrite elem_of_cons.
  split.
  - intros [[? ?] ?]. split; [done|]. intros p [->|?]; auto.
  - intros [? Hall]. split_and!; [done|apply (Hall (a, b)); by left|intros p ?; apply Hall; by right].
Qed.

Lemma elem_of_slot_holders s k pairs x :
  pairs ≠ [] →
  x ∈ slot_holders s k pairs ↔ ∀ p, p ∈ pairs → x ∈ members (cc_index s) (k, p.1, p.2).
Proof.
  destruct pairs as [|[a b] pairs]; [done|]. intros _. unfold slot_holders. simpl.
  destruct (intersect_members_Some s k pairs (members (cc_index s) (k, a, b))) as (Y&->&HY).
  simpl. rewrite HY. setoid_rewrite elem_of_cons.
  split.
  - intros [? ?] p [->|?]; auto.
  - intros Hall. split; [apply (Hall (a, b)); by left|intros p ?; apply Hall; by right].
Qed.

Lemma cc_arg_pairs_nonempty args : cc_arg_pairs args ≠ [].
Proof.
  unfold cc_arg_pairs, arguments_empty. case_bool_decide as He; [done|].
  intros Hn. apply He, (map_empty (M := gmap string)). intros i. apply eq_None_not_Some.
  intros [v Hv]. apply elem_of_btree_iter in Hv. rewrite Hn in Hv. by apply elem_of_nil in Hv.
Qed.

Lemma elem_of_triples_of t pairs t' k v :
  (t', k, v) ∈ triples_of t pairs ↔ t' = t ∧ (k, v) ∈ pairs.
Proof.
  unfold triples_of. rewrite list_elem_of_fmap. split.
  - intros ([a b] & [= -> -> ->] & ?). done.
  - intros [-> ?]. by exists (k, v).
Qed.

Lemma members_index_triples id t pairs s t' k v x :
  x ∈ members (cc_index (index_triples id (triples_of t pairs) s)) (t', k, v) ↔
    (x = id ∧ t' = t ∧ (k, v) ∈ pairs) ∨ x ∈ members (cc_index s) (t', k, v).
Proof. simpl. by rewrite elem_of_insert_all, elem_of_triples_of. Qed.

(** Indexing under the same pairs adds the invocation to the holders. *)
Lemma slot_holders_index id t pairs s :
  pairs ≠ [] →
  slot_holders (index_triples id (triples_of t pairs) s) t pairs = {[id]} ∪ slot_holders s t pairs.
Proof.
  intros Hp. apply set_eq. intros x. rewrite elem_of_union, elem_of_singleton.
  rewrite !elem_of_slot_holders by done.
  setoid_rewrite members_index_triples. split.
  - intros Hx. destruct (decide (x = id)) as [->|Hne]; [by left|right].
    intros p Hp'. destruct (Hx p Hp') as [[? _]|?]; done.
  - intros [->|Hx] [a b] Hin; [by left|right; by apply (Hx (a, b))].
Qed.

(** The outcome of asking for a slot. *)
Lemma try_acquire_cases c s id t cfg args :
  tc_concurrency_control cfg ≠ Unlimited →
  let key := task_id_display t in
  let pairs := cc_arg_pairs (default arguments_new args) in
  let others := size (slot_holders s key pairs ∖ {[id]}) in
  mem_try_acquire_concurrency_slot id t cfg args c s =
    if concurrency_limit cfg <=? Z.of_nat others then (Ok false, c, s)
    else (Ok true, c, index_triples id (triples_of key pairs) s).
Proof.
  intros Hcc key pairs others. unfold mem_try_acquire_concurrency_slot. rewrite decide_False by done.
  unfold mbind, M_bind, get. fold key. fold pairs.
  assert (match intersect_members s key pairs None with
          | Some holders => size (holders ∖ {[id]}) | None => O end = others) as ->.
  { unfold others, slot_holders. destruct (intersect_members s key pairs None); [done|].
    change (default ∅ None) with (∅ : gset InvocationId).
    symmetry. apply size_empty_iff. set_solver. }
  by destruct (concurrency_limit cfg <=? Z.of_nat others).
Qed.

(** Operations that only remove members from the index. *)
Definition shrinks (s s' : OrchestratorState) : Prop :=
  ∀ key, members (cc_index s') key ⊆ members (cc_index s) key.

#[export] Instance shrinks_preorder : PreOrder shrinks.
Proof.
  split; [by intros s key|]. intros s1 s2 s3 H12 H23 key. etrans; [apply H23|apply H12].
Qed.

Lemma shrinks_frame s s' : cc_index s' = cc_index s → shrinks s s'.
Proof. intros He key. by rewrite He. Qed.

Lemma shrinks_prune id s : shrinks s (prune_cc id s).
Proof.
  intros key. unfold prune_cc. destruct (cc_reverse s !! id); [|done]. simpl.
  rewrite members_drop_all. case_decide; set_solver.
Qed.

Lemma slot_holders_shrinks s s' k pairs :
  pairs ≠ [] → shrinks s s' → slot_holders s' k pairs ⊆ slot_holders s k pairs.
Proof.
  intros Hp Hs x. rewrite !elem_of_slot_holders by done. intros Hx p Hp'. by apply Hs, Hx.
Qed.

Section slots.
Context `{HashOrder} `{Chrono}.

Ltac shrinks_frame := apply respects_modify; intros s; by apply shrinks_frame.

Lemma shrinks_status_changed id rec now s : shrinks s (status_changed id rec now s).
Proof.
  unfold status_changed.
  set (s2 := match invocations s !! id with Some dto => _ | None => _ end).
  assert (cc_index s2 = cc_index s) as H1 by (subst s2; by destruct (invocations s !! id)).
  destruct (is_terminal _); [|by apply shrinks_frame].
  etrans; [by apply (shrinks_frame s s2)|apply shrinks_prune].
Qed.

Lemma shrinks_remove id : respects shrinks (mem_remove_invocation id).
Proof.
  apply respects_modify. intros s. etrans; [by apply (shrinks_frame s (dropped id s))|].
  etrans; [apply (shrinks_prune id)|]. by apply shrinks_frame.
Qed.

(** Every operation but indexing and acquiring shrinks the index. *)
Lemma shrinks_run_op op :
  match op with OpIndex _ _ _ | OpAcquire _ _ _ _ => True | _ => respects shrinks (run_op op) end.
Proof.
  destruct op; simpl; try done;
    try (apply respects_bind; [apply _| |intros ?; apply respects_ret; apply _]).
  - unfold mem_register_invocation_with_id. solve_respects. shrinks_frame.
  - unfold mem_increment_invocation_retries. solve_respects. shrinks_frame.
  - apply shrinks_remove.
  - intros c s. unfold state_after.
    destruct (set_status_cases c s id st r) as [(e&c'&->)|(cur&c'&now&_&_&->)]; [done|].
    apply shrinks_status_changed.
  - unfold mem_schedule_auto_purge. solve_respects. shrinks_frame.
  - unfold mem_run_auto_purge, threshold_before. solve_respects;
      [shrinks_frame|apply shrinks_remove].
  - apply respects_modify. intros s. apply shrinks_prune.
  - shrinks_frame.
  - unfold mem_release_waiters. solve_respects. shrinks_frame.
  - unfold mem_register_heartbeat. solve_respects; shrinks_frame.
  - shrinks_frame.
Qed.

(** *** The limit over any history of operations *)

Context (task : TaskId) (cfg : TaskConfig) (pairs_of : InvocationId → list (string * string)).

(** The clients of a limited task: slots are only taken by
    [try_acquire_concurrency_slot], with the task's configuration and the
    argument pairs of the invocation; everything else is unrestricted. *)
Definition slot_client (op : orch_op) : Prop :=
  match op with
  | OpIndex _ t _ => task_id_display t ≠ task_id_display task
  | OpAcquire id t cfg' args =>
      task_id_display t = task_id_display task →
      cfg' = cfg ∧ cc_arg_pairs (default arguments_new args) = pairs_of id
  | _ => True
  end.

Definition slot_step (s s' : OrchestratorState) : Prop :=
  ∃ op c, slot_client op ∧ s' = state_after (run_op op) c s.

(** Every member of the task's index entries is there under its own pairs. *)
Definition indexed_by_own_pairs (s : OrchestratorState) : Prop :=
  ∀ k v x, x ∈ members (cc_index s) (task_id_display task, k, v) → (k, v) ∈ pairs_of x.

Definition within_limit (P : list (string * string)) (s : OrchestratorState) : Prop :=
  Z.of_nat (size (slot_holders s (task_id_display task) P)) ≤ concurrency_limit cfg.

(** Indexing for another task changes nothing of this one. *)
Lemma index_other_task id t' pairs' s k v :
  t' ≠ task_id_display task →
  members (cc_index (index_triples id (triples_of t' pairs') s)) (task_id_display task, k, v) =
    members (cc_index s) (task_id_display task, k, v).
Proof.
  intros Ht. apply set_eq. intros x. rewrite members_index_triples. naive_solver.
Qed.

Lemma slot_holders_other_task id t' pairs' s P :
  P ≠ [] → t' ≠ task_id_display task →
  slot_holders (index_triples id (triples_of t' pairs') s) (task_id_display task) P =
    slot_holders s (task_id_display task) P.
Proof.
  intros HP Ht. apply set_eq. intros x. rewrite !elem_of_slot_holders by done.
  by setoid_rewrite index_other_task.
Qed.

Lemma slot_step_limit P s s' :
  tc_concurrency_control cfg ≠ Unlimited → P ≠ [] →
  (∀ x, (∀ p, p ∈ P → p ∈ pairs_of x) → pairs_of x = P) →
  slot_step s s' →
  indexed_by_own_pairs s ∧ within_limit P s → indexed_by_own_pairs s' ∧ within_limit P s'.
Proof.
  intros Hcc HP Hsame (op & c & Hcl & ->) [Hown Hlim].
  assert (∀ s'', shrinks s s'' → indexed_by_own_pairs s'' ∧ within_limit P s'') as Hshrink.
  { intros s'' Hs. split; [intros k v x Hx; by apply Hown, Hs|].
    unfold within_limit in *. pose proof (slot_holders_shrinks s s'' (task_id_display task) P HP Hs)
      as Hsub%subseteq_size. lia. }
  assert (∀ id t' pairs', t' ≠ task_id_display task →
    indexed_by_own_pairs (index_triples id (triples_of t' pairs') s) ∧
    within_limit P (index_triples id (triples_of t' pairs') s)) as Hforeign.
  { intros id t' pairs' Ht. split.
    - intros k v x. rewrite index_other_task by done. apply Hown.
    - unfold within_limit. by rewrite slot_holders_other_task. }
  pose proof (shrinks_run_op op) as Hop.
  destruct op as [| | | | | | |id t' args|id t' cfg' args| | | | |];
    try (apply Hshrink, Hop); simpl in Hcl; unfold run_op, state_after.
  - unfold mem_index_for_concurrency_control. case_decide; [done|]. by apply Hforeign.
  - destruct (decide (tc_concurrency_control cfg' = Unlimited)) as [Hu|Hu].
    { unfold mem_try_acquire_concurrency_slot. by rewrite decide_True. }
    unfold mbind, M_bind. rewrite try_acquire_cases by done.
    destruct (Z.leb_spec (concurrency_limit cfg') (Z.of_nat (size (slot_holders s
      (task_id_display t') (cc_arg_pairs (default arguments_new args)) ∖ {[id]}))));
      [done|]. simpl.
    destruct (decide (task_id_display t' = task_id_display task)) as [Ht|Ht]; [|by apply Hforeign].
    destruct (Hcl Ht) as [-> Hpairs]. rewrite Ht, Hpairs in *. split.
    + intros k v x. rewrite members_index_triples. intros [(->&_&Hin)|?]; [done|by apply Hown].
    + unfold within_limit in *. destruct (decide (pairs_of id = P)) as [He|He].
      * rewrite He in *. rewrite slot_holders_index by done.
        replace ({[id]} ∪ slot_holders s (task_id_display task) P) with
          ({[id]} ∪ slot_holders s (task_id_display task) P ∖ {[id]}) by
          (apply set_eq; intros x; destruct (decide (x = id)); set_solver).
        rewrite size_union by set_solver. rewrite size_singleton. lia.
      * assert (slot_holders (index_triples id (triples_of (task_id_display task) (pairs_of id)) s)
                  (task_id_display task) P ⊆ slot_holders s (task_id_display task) P)
          as Hsub%subseteq_size; [|lia].
        intros x. rewrite !elem_of_slot_holders by done. setoid_rewrite members_index_triples.
        intros Hx p Hp. destruct (Hx p Hp) as [(->&_&_)|]; [|done].
        exfalso. apply He, Hsame. intros q Hq. destruct (Hx q Hq) as [(_&_&?)|Hq'].
        -- by destruct q.
        -- apply Hown in Hq'. by destruct q.
Qed.
End slots.

(** ** Waiting, recovery scans and queries *)

Section scans.
Context `{HashOrder} `{Chrono}.

Lemma NoDup_filter_fst {V} (f : string * V → bool) (m : gmap string V) :
  NoDup (bfilter f (map_iter m)).*1.
Proof.
  pose proof (NoDup_map_iter_fst m) as Hnd. revert Hnd. generalize (map_iter m) as l.
  induction l as [|[k v] l IH]; intros Hnd; [constructor|].
  inversion_clear Hnd as [|? ? Hk Hl]. unfold bfilter in *. simpl.
  destruct (f (k, v)); [|by apply IH]. simpl. constructor; [|by apply IH].
  intros Hin. apply Hk. apply list_elem_of_fmap in Hin as ([k' v'] & -> & Hin).
  apply elem_of_bfilter in Hin as [_ Hin]. apply list_elem_of_fmap. by exists (k', v').
Qed.

Lemma elem_of_filter_fst {V} (f : string * V → bool) (m : gmap string V) k :
  k ∈ (bfilter f (map_iter m)).*1 ↔ ∃ v, m !! k = Some v ∧ f (k, v) = true.
Proof.
  rewrite list_elem_of_fmap. split.
  - intros ([k' v] & -> & [Hf Hin]%elem_of_bfilter). apply elem_of_map_iter in Hin. eauto.
  - intros (v & Hm & Hf). exists (k, v). split; [done|]. apply elem_of_bfilter.
    split; [done|by apply elem_of_map_iter].
Qed.

(** The stale pending scan, when the threshold is representable. *)
Lemma stale_pending_run c s n t :
  seconds_before (clock_next c).1 (i64_saturating_of_u64 n) = Some t →
  mem_get_stale_pending_invocations n c s =
    (Ok (bfilter (stale_pending t) (map_iter (status_records s))).*1, (clock_next c).2, s).
Proof.
  intros Ht. unfold mem_get_stale_pending_invocations, threshold_before, mbind, M_bind, get, utc_now.
  by rewrite Ht.
Qed.

Lemma threshold_overflow n : i64_max / 1000 < n → i64_max / 1000 < i64_saturating_of_u64 n.
Proof.
  intros Hn. unfold i64_saturating_of_u64. destruct (Z.leb_spec n i64_max); [done|].
  by vm_compute.
Qed.

(** The owner of a running invocation is dead: silent for longer than allowed,
    or never heard of and running for longer than that. *)
Definition owner_is_dead (s : OrchestratorState) (now dead : Z) (rec : InvocationStatusRecord) : Prop :=
  match rec_runner_id rec with
  | None => True
  | Some r =>
      match heartbeats s !! r with
      | Some hb => dead < elapsed_seconds now hb
      | None => rec_timestamp rec < now - dead * 1000000000
      end
  end.

Lemma owner_dead_true s now dead id rec :
  owner_dead s now dead (id, rec) = Some true →
  rec_status rec = Running ∧ owner_is_dead s now dead rec.
Proof.
  unfold owner_dead, owner_is_dead. simpl. case_decide; [|done].
  destruct (rec_runner_id rec) as [r|]; [|done].
  destruct (heartbeats s !! r) as [hb|].
  - intros [= Hlt]. by apply Z.ltb_lt in Hlt.
  - intros (t & Ht & [= Hlt])%bind_Some. apply seconds_before_Some in Ht as ->.
    by apply Z.ltb_lt in Hlt.
Qed.

Lemma owner_dead_complete s now dead id rec b :
  owner_dead s now dead (id, rec) = Some b →
  rec_status rec = Running → owner_is_dead s now dead rec → b = true.
Proof.
  unfold owner_dead, owner_is_dead. simpl. case_decide; [|done].
  destruct (rec_runner_id rec) as [r|]; [|naive_solver].
  destruct (heartbeats s !! r) as [hb|].
  - intros [= <-] _ Hlt. by apply Z.ltb_lt.
  - intros (t & Ht & [= <-])%bind_Some _ Hlt. apply seconds_before_Some in Ht as ->.
    by apply Z.ltb_lt.
Qed.

Lemma filter_panicking_total {A} (f : A → option bool) l :
  (∀ x, x ∈ l → is_Some (f x)) → is_Some (filter_panicking f l).
Proof.
  induction l as [|y l IH]; intros Hf; simpl; [by eexists|].
  destruct (Hf y ltac:(set_solver)) as [b ->]. simpl.
  destruct IH as [r ->]; [intros x Hx; apply Hf; set_solver|]. simpl. by destruct b; eexists.
Qed.

Lemma filter_panicking_each {A} (f : A → option bool) l r :
  filter_panicking f l = Some r → ∀ x, x ∈ l → is_Some (f x).
Proof.
  revert r. induction l as [|y l IH]; intros r; simpl; [set_solver|].
  intros (b & Hb & (r' & Hr' & _)%bind_Some)%bind_Some x [->|Hx]%elem_of_cons; [by rewrite Hb|eauto].
Qed.

(** The blocking scan returns a prefix of the matching entries. *)
Lemma blocking_loop_spec s n entries acc :
  (length acc < Nat.max 1 n)%nat →
  blocking_loop s n entries acc =
    acc ++ take (Nat.max 1 n - length acc) (bfilter (is_blocking s) entries).*1.
Proof.
  revert acc. induction entries as [|p entries IH]; intros acc Hacc; cbn [blocking_loop].
  { simpl. by rewrite take_nil, app_nil_r. }
  unfold bfilter in *. cbn [List.filter]. destruct (is_blocking s p); [|by apply IH].
  rewrite fmap_cons, length_app. cbn [length].
  destruct (Nat.leb_spec n (length acc + 1)) as [Hle|Hlt].
  - by replace (Nat.max 1 n - length acc)%nat with 1%nat by lia.
  - rewrite IH by (rewrite length_app; cbn [length]; lia). rewrite length_app. cbn [length].
    replace (Nat.max 1 n - length acc)%nat with (S (Nat.max 1 n - (length acc + 1))) by lia.
    cbn [take]. by rewrite <-app_assoc.
Qed.

Lemma blocking_run s n :
  blocking_loop s n (map_iter (waiters s)) [] =
    take (Nat.max 1 n) (bfilter (is_blocking s) (map_iter (waiters s))).*1.
Proof. rewrite blocking_loop_spec by (cbn [length]; lia). by rewrite Nat.sub_0_r. Qed.

Lemma is_blocking_true s id X :
  is_blocking s (id, X) = true ↔ X ≠ ∅ ∧ waiting_for s !! id = None ∧
    ∃ rec, status_records s !! id = Some rec ∧ is_available_for_run (rec_status rec) = true.
Proof.
  unfold is_blocking. simpl.
  rewrite !andb_true_iff, !negb_true_iff, !bool_decide_eq_false, <-eq_None_not_Some.
  destruct (status_records s !! id) as [rec|]; naive_solver.
Qed.

(** Consecutive pages are disjoint pieces of one list. *)
Lemma page_concat {A} (l : list A) limit n :
  concat ((λ i, take limit (drop (i * limit) l)) <$> seq 0 n) = take (n * limit) l.
Proof.
  induction n as [|n IH]; [by rewrite take_0|].
  rewrite seq_S, fmap_app, concat_app, IH. simpl. rewrite app_nil_r.
  replace (limit + n * limit)%nat with (n * limit + limit)%nat by lia.
  by rewrite take_take_drop.
Qed.

(** Releasing: every waiter recorded under the invocation stops waiting. *)
Lemma release_run c s id :
  ∃ s', mem_release_waiters id c s = (Ok (set_iter (members (waiters s) id)), c, s') ∧
    waiters s' = delete id (waiters s) ∧
    (∀ w, waiting_for s' !! w = if decide (w ∈ members (waiters s) id) then None
                                else waiting_for s !! w).
Proof.
  unfold mem_release_waiters, mbind, M_bind, get, modify, mret, M_ret.
  eexists. split; [reflexivity|]. split; [done|]. intros w. simpl.
  assert (∀ (l : list InvocationId) (m : gmap InvocationId InvocationId),
    fold_left (λ m w, delete w m) l m !! w = if decide (w ∈ l) then None else m !! w) as Hfold.
  { induction l as [|x l IH]; intros m; cbn [fold_left].
    { rewrite decide_False by set_solver. done. }
    rewrite IH. destruct (decide (x = w)) as [->|Hne].
    - rewrite lookup_delete_eq. repeat case_decide; set_solver.
    - rewrite lookup_delete_ne by done. repeat case_decide; set_solver. }
  rewrite Hfold. repeat case_decide; try done.
  - by rewrite elem_of_set_iter in *.
  - by rewrite elem_of_set_iter in *.
Qed.

(** The timeline: the last two hundred executions. *)
Lemma push_execution_last e l :
  (length l ≤ 200)%nat →
  (length (push_execution e l) ≤ 200)%nat ∧
  push_execution e l = drop (length l + 1 - 200) (l ++ [e]) ∧ e ∈ push_execution e l.
Proof.
  intros Hl. unfold push_execution. rewrite length_app. cbn [length].
  destruct (Nat.ltb_spec 200 (length l + 1)).
  - rewrite length_drop, length_app. cbn [length]. split_and!; [lia|done|].
    rewrite drop_app_le by lia. set_solver.
  - rewrite length_app. cbn [length]. replace (length l + 1 - 200)%nat with 0%nat by lia.
    split_and!; [lia|done|set_solver].
Qed.
End scans.

(** ** Concrete data for the witnesses *)

Definition demo_task : TaskId := mkTaskId Rust "app.tasksadd" 9.
Definition demo_call : CallDTO :=
  {| cd_call_id := mkCallId demo_task "no_args"; cd_task_id := demo_task;
     cd_serialized_arguments := ∅ |}.
Definition demo_config : TaskConfig :=
  {| tc_queue := DEFAULT_QUEUE; tc_priority := DEFAULT_PRIORITY; tc_max_retries := 0;
     tc_retry_for_errors := []; tc_concurrency_control := CCTask;
     tc_running_concurrency := Some 1; tc_registration_concurrency := Unlimited;
     tc_cache_results := false; tc_key_arguments := []; tc_disable_cache_args := [];
     tc_on_diff_non_key_args_raise := false; tc_parallel_batch_size := 100;
     tc_is_workflow_task := false; tc_reroute_on_cc := false; tc_blocking := false;
     tc_retry_delay_ms := 0; tc_retry_max_delay_ms := DEFAULT_RETRY_MAX_DELAY_MS;
     tc_retry_backoff := DEFAULT_RETRY_BACKOFF; tc_retry_jitter := JitterEqual;
     tc_timeout_ms := None; tc_retry_on_timeout := true |}.

Definition demo_clock : Clock := {| readings := λ n, Z.of_nat n * 1000000000; tick := 0 |}.

(** One registered invocation, then claimed by a worker. *)
Definition demo_registered : OrchestratorState :=
  state_after (mem_register_invocation_with_id "i1" demo_call (Some "r0")) demo_clock orchestrator_new.
Definition demo_pending : OrchestratorState :=
  state_after (mem_set_invocation_status "i1" Pending (Some "w1")) demo_clock demo_registered.

(** ** Properties *)

Section properties.
Context `{HashOrder} `{Chrono}.

(** C39: whatever operations clients run, in whatever order and with whatever
    outcome, the state is well formed: every invocation has one status record
    and one stored invocation, with the same status; every record is one the
    status machine produces; the task and call indexes contain exactly live
    invocations; the concurrency index and its reverse lists agree and keep no
    empty set; retry counters stay in [u32]; the timeline has at most 200
    entries. *)
Theorem orchestrator_state_well_formed (s : OrchestratorState) :
  rtc orch_step orchestrator_new s → orch_wf s.
Proof. apply reachable_wf. Qed.

(** C5: a status change, on every branch, in a well-formed state.  It fails
    with the state untouched when the invocation is unknown or the status
    machine refuses the move; otherwise it stores exactly the record the status
    machine computes, the stored invocation shows the new status, no other
    record changes, and a terminal status frees every concurrency entry of this
    invocation and of no other.  It never panics. *)
Theorem status_change_behaviour (c : Clock) (s : OrchestratorState) (id : InvocationId)
    (st : InvocationStatus) (r : option RunnerId) :
  orch_wf s →
  match mem_set_invocation_status id st r c s with
  | (Ok rec', _, s') =>
      ∃ cur, status_records s !! id = Some cur ∧ may_transition cur st r ∧
        rec' = moved (clock_next c).1 cur st r ∧
        status_records s' = <[id := rec']> (status_records s) ∧
        (∃ dto', invocations s' !! id = Some dto' ∧ inv_status dto' = st) ∧
        (∀ key, members (cc_index s') key =
           if is_terminal st then members (cc_index s) key ∖ {[id]} else members (cc_index s) key)
  | (Err e, _, s') =>
      s' = s ∧
      match status_records s !! id with
      | None => e = EInvocationNotFound id
      | Some cur => ¬ may_transition cur st r ∧ error_invocation e = Some id ∧
                    e ≠ EInvocationNotFound id
      end
  | (Panic _, _, _) => False
  end.
Proof.
  intros Hwf. destruct (status_records s !! id) as [cur|] eqn:Hs; [|by rewrite set_status_unknown].
  pose proof (transition_Ok (clock_next c).1 cur st r) as Hok.
  pose proof (transition_never_panics (clock_next c).1 (Some cur) st r) as Hp.
  destruct (status_record_transition (clock_next c).1 (Some cur) st r) as [rec'|e|p] eqn:Ht; [| |done].
  - destruct (proj1 (Hok rec') eq_refl) as [Hm ->].
    destruct (set_status_run c s id st r cur Hs Hm) as (c'&now&->).
    destruct (status_changed_cc id (moved (clock_next c).1 cur st r) now s (orch_cc s Hwf)) as [_ Hcc].
    exists cur. split_and!; try done; [by rewrite status_changed_records| ].
    destruct (proj2 (life_dom s (orch_life s Hwf) id) ltac:(eauto)) as [dto Hdto].
    unfold status_changed. rewrite Hdto. exists (set_status_fields st now dto).
    split; [|done]. destruct (is_terminal _); [rewrite (proj1 (prune_cc_fields id _))|];
      simpl; by rewrite lookup_insert_eq.
  - erewrite set_status_refused by done. split; [done|]. split_and!.
    + intros Hm. by assert (Err e = Ok (moved (clock_next c).1 cur st r)) by by apply Hok.
    + apply status_machine_error_names.
    + by destruct e.
Qed.

(** asking for a concurrency slot of a limited task.  It is refused, with
    the state untouched, exactly when other invocations already hold the limit:
    an entry left by an earlier attempt of the same invocation never blocks it.
    When it is granted the invocation is among the holders and they do not
    exceed the limit. *)
Theorem slot_request_behaviour (c : Clock) (s : OrchestratorState) (id : InvocationId) (t : TaskId)
    (cfg : TaskConfig) (args : option SerializedArguments) :
  tc_concurrency_control cfg ≠ Unlimited →
  let holders s := slot_holders s (task_id_display t) (cc_arg_pairs (default arguments_new args)) in
  match mem_try_acquire_concurrency_slot id t cfg args c s with
  | (Ok true, _, s') =>
      holders s' = {[id]} ∪ holders s ∧ Z.of_nat (size (holders s')) ≤ concurrency_limit cfg
  | (Ok false, _, s') => s' = s ∧ concurrency_limit cfg ≤ Z.of_nat (size (holders s ∖ {[id]}))
  | _ => False
  end.
Proof.
  intros Hcc holders. rewrite try_acquire_cases by done. fold (holders s).
  destruct (Z.leb_spec (concurrency_limit cfg) (Z.of_nat (size (holders s ∖ {[id]})))); [done|].
  assert (holders (index_triples id (triples_of (task_id_display t)
    (cc_arg_pairs (default arguments_new args))) s) = {[id]} ∪ holders s) as Hh
    by apply slot_holders_index, cc_arg_pairs_nonempty.
  split; [done|]. rewrite Hh.
  replace ({[id]} ∪ holders s) with ({[id]} ∪ holders s ∖ {[id]})
    by (apply set_eq; intros x; destruct (decide (x = id)); set_solver).
  rewrite size_union by set_solver. rewrite size_singleton. lia.
Qed.

(** C4: The concurrency limit holds over any history, one set of argument pairs at a
    time.  If the slots of a task are taken only through [try_acquire_concurrency_slot]
    with the task's configuration and each invocation's own argument pairs, then
    whatever else clients do, no more invocations than the limit ever hold a slot for
    the pairs [P] - provided an invocation whose pairs contain all of [P] has exactly
    [P].  The proviso is needed: the index finds the holders of {a=1} by the pair a=1,
    so an invocation with {a=1, b=2} counts as a holder of {a=1} without having been
    tested against it.  It holds where all invocations of the task have the same keys,
    as those made by one signature or limited by the same key arguments. *)
Theorem concurrency_limit_never_exceeded (task : TaskId) (cfg : TaskConfig)
    (pairs_of : InvocationId → list (string * string)) (P : list (string * string))
    (s : OrchestratorState) :
  tc_concurrency_control cfg ≠ Unlimited → 0 ≤ concurrency_limit cfg → P ≠ [] →
  (∀ x, (∀ p, p ∈ P → p ∈ pairs_of x) → pairs_of x = P) →
  rtc (slot_step task cfg pairs_of) orchestrator_new s →
  Z.of_nat (size (slot_holders s (task_id_display task) P)) ≤ concurrency_limit cfg.
Proof.
  intros Hcc Hlim HP Hsame Hr.
  assert (indexed_by_own_pairs task pairs_of orchestrator_new ∧
          within_limit task cfg P orchestrator_new) as Hinit.
  { split.
    - intros k v x. simpl. rewrite members_empty. set_solver.
    - unfold within_limit. replace (slot_holders orchestrator_new _ P) with (∅ : gset InvocationId).
      + rewrite size_empty. lia.
      + symmetry. apply set_eq. intros x. rewrite elem_of_slot_holders by done.
        destruct P as [|p P]; [done|]. split; [|set_solver]. intros Hx.
        specialize (Hx p ltac:(set_solver)). simpl in Hx. by rewrite members_empty in Hx. }
  assert (indexed_by_own_pairs task pairs_of s ∧ within_limit task cfg P s) as [_ ?]; [|done].
  revert Hinit. induction Hr as [|x y z Hxy _ IH]; [done|]. intros Hx. apply IH.
  by apply (slot_step_limit task cfg pairs_of P x y).
Qed.

(** registration-time indexing shares the index of the running slots.  Two
    invocations that were only registered and indexed (as [route_call] does
    with [index_cc]) hold each other's slot: with a limit of one neither is ever
    admitted, although nothing runs. *)
Theorem registered_invocations_block_each_other (c : Clock) (s : OrchestratorState)
    (a b : InvocationId) (t : TaskId) (cfg : TaskConfig) (args : SerializedArguments) :
  a ≠ b → tc_concurrency_control cfg ≠ Unlimited → concurrency_limit cfg = 1 →
  let s' := state_after (mem_index_for_concurrency_control a t (Some args);;
                         mem_index_for_concurrency_control b t (Some args)) c s in
  result_of (mem_try_acquire_concurrency_slot a t cfg (Some args)) c s' = Ok false ∧
  result_of (mem_try_acquire_concurrency_slot b t cfg (Some args)) c s' = Ok false.
Proof.
  intros Hab Hcc Hlim s'.
  set (key := task_id_display t). set (pairs := cc_arg_pairs args).
  assert (pairs ≠ []) as Hp by apply cc_arg_pairs_nonempty.
  assert (triples_of key pairs ≠ []) as Htr by (by destruct pairs).
  assert (s' = index_triples b (triples_of key pairs) (index_triples a (triples_of key pairs) s)) as ->.
  { unfold s', state_after, mem_index_for_concurrency_control, mbind, M_bind. simpl.
    fold key pairs. by rewrite !decide_False. }
  set (s2 := index_triples b _ _).
  assert (∀ x y, x ≠ y → x ∈ slot_holders s2 key pairs → y ∈ slot_holders s2 key pairs →
    result_of (mem_try_acquire_concurrency_slot x t cfg (Some args)) c s2 = Ok false) as Hblock.
  { intros x y Hxy Hx Hy. pose proof (try_acquire_cases c s2 x t cfg (Some args) Hcc) as Heq.
    cbn zeta in Heq. change (cc_arg_pairs (default arguments_new (Some args))) with pairs in Heq.
    unfold result_of. rewrite Heq, Hlim. fold key. rewrite (proj2 (Z.leb_le 1 _)); [done|].
    destruct (decide (size (slot_holders s2 key pairs ∖ {[x]}) = 0%nat)) as [Hz%size_empty_inv|]; [|lia].
    set_solver. }
  unfold s2 in *. rewrite !slot_holders_index in * by done.
  split; [apply (Hblock a b)|apply (Hblock b a)]; set_solver.
Qed.

(** the stale pending scan.  For a threshold [chrono] can represent it
    returns, without duplicates, exactly the pending invocations whose status is
    older than the threshold; beyond that bound it panics instead of scanning. *)
Theorem stale_pending_scan (c : Clock) (s : OrchestratorState) (n : Z) :
  (∀ t, seconds_before (clock_next c).1 (i64_saturating_of_u64 n) = Some t →
    ∃ l, result_of (mem_get_stale_pending_invocations n) c s = Ok l ∧ NoDup l ∧
      ∀ id, id ∈ l ↔ ∃ rec, status_records s !! id = Some rec ∧ rec_status rec = Pending ∧
                            rec_timestamp rec < t) ∧
  (i64_max / 1000 < n →
    is_panic (result_of (mem_get_stale_pending_invocations n) c s) = true ∧
    is_panic (result_of (mem_run_auto_purge n) c s) = true).
Proof.
  split.
  - intros t Ht. unfold result_of. rewrite (stale_pending_run c s n t Ht).
    eexists. split; [reflexivity|]. split; [apply NoDup_filter_fst|].
    intros id. rewrite elem_of_filter_fst. unfold stale_pending. simpl.
    split; intros (rec & Hr & Hb); exists rec.
    + apply andb_true_iff in Hb as [Hb1%bool_decide_eq_true Hb2%Z.ltb_lt]. done.
    + destruct Hb as [Hb1 Hb2]. split; [done|]. apply andb_true_iff.
      by rewrite bool_decide_eq_true, Z.ltb_lt.
  - intros Hn%threshold_overflow.
    unfold result_of, mem_get_stale_pending_invocations, mem_run_auto_purge, threshold_before,
      mbind, M_bind, get, utc_now. simpl.
    by rewrite seconds_before_overflow.
Qed.

(** the stale running scan.  Whenever it returns, it returns exactly the
    running invocations whose owner is dead: silent for longer than allowed, or
    never heard of while the status itself is older than that.  A live runner's
    invocations are never among them. *)
Theorem stale_running_scan (c : Clock) (s : OrchestratorState) (n : Z) (l : list InvocationId) :
  let now := (clock_next c).1 in
  let dead := i64_saturating_of_u64 n in
  result_of (mem_get_stale_running_invocations n) c s = Ok l →
  ∀ id, id ∈ l ↔ ∃ rec, status_records s !! id = Some rec ∧ rec_status rec = Running ∧
                        owner_is_dead s now dead rec.
Proof.
  intros now dead. unfold result_of, mem_get_stale_running_invocations, mbind, M_bind, get, utc_now.
  simpl. change (readings c (tick c)) with now. fold dead.
  destruct (filter_panicking (owner_dead s now dead) (map_iter (status_records s))) as [r|] eqn:Hf; [|done].
  simpl. intros [= <-] id. rewrite list_elem_of_fmap. split.
  - intros ([x rec] & -> & [Hin Hd]%(filter_panicking_Some _ _ _ Hf)).
    apply elem_of_map_iter in Hin. apply owner_dead_true in Hd as [? ?]. eauto.
  - intros (rec & Hin & Hrun & Hdead). exists (id, rec). split; [done|].
    apply elem_of_map_iter in Hin. apply (filter_panicking_Some _ _ _ Hf). split; [done|].
    destruct (filter_panicking_each _ _ _ Hf _ Hin) as [b Hb]. rewrite Hb.
    f_equal. by apply (owner_dead_complete s now dead id rec).
Qed.

(** pagination.  The pages of a query, in order, concatenate to the first
    entries of one list that is sorted, has no duplicates and contains exactly
    the invocations that match the filters, whatever order the hash map
    iterates in; their number is the count query's answer. *)
Theorem pagination_is_a_window (c : Clock) (s : OrchestratorState) (task : option TaskId)
    (statuses : option (list InvocationStatus)) :
  ∃ l, NoDup l ∧ Sorted str_le l ∧
    (∀ id, id ∈ l ↔ ∃ rec, status_records s !! id = Some rec ∧
                           status_filter statuses (rec_status rec) = true ∧
                           task_filter s task id = true) ∧
    result_of (mem_count_invocations task statuses) c s = Ok (length l) ∧
    (∀ limit offset, result_of (mem_get_invocation_ids_paginated task statuses limit offset) c s =
                       Ok (take limit (drop offset l))) ∧
    (∀ limit n, concat ((λ i, take limit (drop (i * limit) l)) <$> seq 0 n) = take (n * limit) l).
Proof.
  exists (str_sort (bfilter (query_filter s task statuses) (map_iter (status_records s))).*1).
  unfold str_sort. split_and!.
  - rewrite sort_by_perm. apply NoDup_filter_fst.
  - apply sort_by_sorted. exact str_le_total.
  - intros id. rewrite elem_of_sort_by, elem_of_filter_fst. unfold query_filter. simpl.
    setoid_rewrite andb_true_iff. done.
  - unfold result_of. simpl. by rewrite sort_by_length, length_fmap.
  - done.
  - intros limit n. apply page_concat.
Qed.

(** the scan for blocking invocations returns, without duplicates,
    invocations that some other waits for, that wait for nothing themselves and
    that a runner may claim; it returns at most [max_num] of them, except that
    it returns one for [max_num = 0], and it misses none when it returns fewer. *)
Theorem blocking_scan (c : Clock) (s : OrchestratorState) (max_num : nat) :
  ∃ l, result_of (mem_get_blocking_invocations max_num) c s = Ok l ∧ NoDup l ∧
    (length l ≤ Nat.max 1 max_num)%nat ∧
    (∀ id, id ∈ l → members (waiters s) id ≠ ∅ ∧ waiting_for s !! id = None ∧
       ∃ rec, status_records s !! id = Some rec ∧ is_available_for_run (rec_status rec) = true) ∧
    ((length l < Nat.max 1 max_num)%nat →
     ∀ id rec, members (waiters s) id ≠ ∅ → waiting_for s !! id = None →
       status_records s !! id = Some rec → is_available_for_run (rec_status rec) = true → id ∈ l).
Proof.
  eexists. split; [reflexivity|]. rewrite blocking_run.
  set (all := (bfilter (is_blocking s) (map_iter (waiters s))).*1).
  assert (∀ id, id ∈ all ↔ members (waiters s) id ≠ ∅ ∧ waiting_for s !! id = None ∧
    ∃ rec, status_records s !! id = Some rec ∧ is_available_for_run (rec_status rec) = true) as Hall.
  { intros id. unfold all. rewrite elem_of_filter_fst. setoid_rewrite is_blocking_true.
    unfold members. destruct (waiters s !! id) as [X|]; simpl; naive_solver. }
  split_and!.
  - apply (sublist_NoDup _ all); [apply NoDup_filter_fst|apply sublist_take].
  - rewrite length_take. lia.
  - intros id (i & Hi & _)%elem_of_take. by apply Hall, (list_elem_of_lookup_2 _ i).
  - rewrite length_take. intros Hlt id rec ????. rewrite take_ge by lia. apply Hall. eauto 6.
Qed.

(** Releasing the waiters of a finished invocation returns exactly the
    invocations recorded as waiting for it, and afterwards none of them is
    marked as waiting and the invocation has no waiters left. *)
Theorem release_waiters_behaviour (c : Clock) (s : OrchestratorState) (id : InvocationId) :
  ∃ released s', mem_release_waiters id c s = (Ok released, c, s') ∧
    (∀ w, w ∈ released ↔ w ∈ members (waiters s) id) ∧
    members (waiters s') id = ∅ ∧
    (∀ w, w ∈ released → waiting_for s' !! w = None) ∧
    (∀ w, w ∉ released → waiting_for s' !! w = waiting_for s !! w).
Proof.
  destruct (release_run c s id) as (s' & Hrun & Hw & Hf). do 2 eexists. split; [exact Hrun|].
  split_and!.
  - intros w. apply elem_of_set_iter.
  - unfold members. by rewrite Hw, lookup_delete_eq.
  - intros w Hin. rewrite Hf, decide_True by (by apply elem_of_set_iter in Hin). done.
  - intros w Hin. rewrite Hf, decide_False by (by rewrite elem_of_set_iter in Hin). done.
Qed.
End properties.

(** ** Witnesses *)

(** A history: registration, then a claim. *)
Lemma demo_history : rtc (@orch_step identity_order chrono_in_seconds) orchestrator_new demo_pending.
Proof.
  eapply rtc_l.
  - exists (OpRegister "i1" demo_call (Some "r0")), demo_clock. reflexivity.
  - apply rtc_once. exists (OpSetStatus "i1" Pending (Some "w1")), demo_clock.
    vm_compute. reflexivity.
Qed.

Lemma orchestrator_state_well_formed_witness :
  rec_status <$> (status_records demo_pending !! "i1") = Some Pending ∧ orch_wf demo_pending.
Proof.
  split; [reflexivity|].
  apply (@orchestrator_state_well_formed identity_order chrono_in_seconds). exact demo_history.
Defined.

Lemma status_change_behaviour_witness :
  orch_wf demo_pending ∧
  ∃ cur, status_records demo_pending !! "i1" = Some cur ∧ may_transition cur Running (Some "w1").
Proof.
  assert (orch_wf demo_pending) as Hwf.
  { apply (@reachable_wf identity_order chrono_in_seconds). exact demo_history. }
  split; [exact Hwf|].
  pose proof (status_change_behaviour demo_clock demo_pending "i1" Running (Some "w1") Hwf) as Hb.
  destruct Hb as (cur & Hcur & Hm & _). exists cur. split; [exact Hcur|exact Hm].
Defined.

Lemma slot_request_behaviour_witness :
  (result_of (mem_try_acquire_concurrency_slot "i1" demo_task demo_config None) demo_clock demo_pending
     = Ok true) ∧
  let s' := state_after (mem_try_acquire_concurrency_slot "i1" demo_task demo_config None)
              demo_clock demo_pending in
  Z.of_nat (size (slot_holders s' (task_id_display demo_task) [("", "")])) ≤ 1.
Proof.
  split; [reflexivity|].
  pose proof (slot_request_behaviour demo_clock demo_pending "i1" demo_task demo_config None
                ltac:(discriminate)) as Hb.
  exact (proj2 Hb).
Defined.

Lemma concurrency_limit_never_exceeded_witness :
  let s' := state_after (run_op (H := identity_order) (H0 := chrono_in_seconds)
              (OpAcquire "i1" demo_task demo_config None)) demo_clock orchestrator_new in
  Z.of_nat (size (slot_holders s' (task_id_display demo_task) [("", "")])) ≤ 1.
Proof.
  intros s'.
  apply (@concurrency_limit_never_exceeded identity_order chrono_in_seconds demo_task demo_config
           (λ _, [("", "")]) [("", "")] s').
  - discriminate.
  - vm_compute. discriminate.
  - discriminate.
  - reflexivity.
  - apply rtc_once. exists (OpAcquire "i1" demo_task demo_config None), demo_clock.
    split; [|reflexivity]. intros _. split; reflexivity.
Defined.

Lemma registered_invocations_block_each_other_witness :
  let s' := state_after (mem_index_for_concurrency_control "a" demo_task (Some ∅);;
                         mem_index_for_concurrency_control "b" demo_task (Some ∅))
              demo_clock orchestrator_new in
  result_of (mem_try_acquire_concurrency_slot "a" demo_task demo_config (Some ∅)) demo_clock s' = Ok false ∧
  result_of (mem_try_acquire_concurrency_slot "b" demo_task demo_config (Some ∅)) demo_clock s' = Ok false.
Proof.
  apply (registered_invocations_block_each_other demo_clock orchestrator_new "a" "b" demo_task
           demo_config ∅); [discriminate|discriminate|reflexivity].
Defined.

Lemma stale_running_scan_witness :
  let s := state_after (mem_set_invocation_status "i1" Running (Some "w1")) demo_clock demo_pending in
  let c := frozen_clock 600000000000 in
  let scan := @mem_get_stale_running_invocations identity_order chrono_in_seconds 60 in
  result_of scan c s = Ok ["i1"] ∧
  ("i1" ∈ ["i1"] ↔ ∃ rec, status_records s !! "i1" = Some rec ∧ rec_status rec = Running ∧
                          @owner_is_dead chrono_in_seconds s 600000000000 60 rec).
Proof.
  intros s c scan. split; [vm_compute; reflexivity|].
  apply (@stale_running_scan identity_order chrono_in_seconds c s 60 ["i1"]).
  vm_compute. reflexivity.
Defined.
