(* ===== verification/MemBroker.v ===== *)
(** * The in-memory broker

    Models [rustvello-mem/src/broker.rs] and the default methods of the
    [Broker] trait in [rustvello-core/src/broker.rs].  The state is the queue
    behind the broker's lock; a monotonic instant is a clock reading.  Waking
    idle workers ([Notify]) is scheduling and not part of the state.

    The theorems: retrieval takes the oldest of the entries with the highest
    priority among those due and matching, draining a queue is a stable sort by
    priority, and no entry is lost or delivered twice. *)
From S2P Require Import Prelude Effects Identifiers Status Errors Config.

(* @src rustvello-mem/src/broker.rs 36-44 QueuedInvocation *)
Record QueuedInvocation := mkQueued {
  q_invocation_id : InvocationId;
  q_task_id : option TaskId;
  q_queue_name : string;
  q_priority : f64;
  q_not_before : option DateTime
}.

#[export] Instance QueuedInvocation_eq_dec : EqDecision QueuedInvocation.
Proof. solve_decision. Defined.

(* @src rustvello-mem/src/broker.rs 46-50 QueuedInvocation::is_due *)
Definition is_due (now : DateTime) (q : QueuedInvocation) : bool :=
  match q_not_before q with Some at_ => at_ <=? now | None => true end.

(** The queue behind the lock. *)
Abbreviation BrokerState := (list QueuedInvocation) (only parsing).

(* @src rustvello-mem/src/broker.rs 52-59 MemBroker::new *)
Definition broker_new : BrokerState := [].

Abbreviation BrokerOp A := (M RustvelloError BrokerState A) (only parsing).

Definition instant_now : BrokerOp DateTime := utc_now.

(** ** Routing *)

(* @src rustvello-mem/src/broker.rs 73-91 MemBroker::route_invocation_with_options *)
Definition mem_route_invocation_with_options (id : InvocationId) (task_id : option TaskId)
    (queue_name : string) (priority : f64) : BrokerOp unit :=
  lift (validate_routing queue_name priority);;
  modify (λ queue, queue ++
    [{| q_invocation_id := id; q_task_id := task_id; q_queue_name := queue_name;
        q_priority := priority; q_not_before := None |}]).

(* @src rustvello-mem/src/broker.rs 93-97 MemBroker::supports_delayed_delivery *)
Definition mem_supports_delayed_delivery : bool := true.

(** [delay] is in nanoseconds. *)
(* @src rustvello-mem/src/broker.rs 99-118 MemBroker::route_invocation_after *)
Definition mem_route_invocation_after (id : InvocationId) (task_id : option TaskId)
    (queue_name : string) (priority : f64) (delay : Z) : BrokerOp unit :=
  lift (validate_routing queue_name priority);;
  now ← instant_now;
  modify (λ queue, queue ++
    [{| q_invocation_id := id; q_task_id := task_id; q_queue_name := queue_name;
        q_priority := priority; q_not_before := Some (now + delay) |}]).

(* @src rustvello-mem/src/broker.rs 120-123 MemBroker::route_invocation *)
Definition mem_route_invocation (id : InvocationId) : BrokerOp unit :=
  mem_route_invocation_with_options id None DEFAULT_QUEUE 0.

(* @src rustvello-mem/src/broker.rs 125-132 MemBroker::route_invocation_for_task *)
Definition mem_route_invocation_for_task (id : InvocationId) (task_id : TaskId) : BrokerOp unit :=
  mem_route_invocation_with_options id (Some task_id) DEFAULT_QUEUE 0.

(* @src rustvello-core/src/broker.rs 135-142 Broker::route_invocations *)
Definition mem_route_invocations (ids : list InvocationId) : BrokerOp unit :=
  for_each mem_route_invocation ids.

(** ** Retrieval *)

(** The comparison of [max_by]: by priority, then the lower index is greater. *)
Definition candidate_cmp (l r : nat * QueuedInvocation) : comparison :=
  match f64_total_cmp (q_priority l.2) (q_priority r.2) with
  | Eq => Nat.compare r.1 l.1
  | c => c
  end.

Definition enumerate {A} (l : list A) : list (nat * A) := zip (seq 0 (length l)) l.

(** The shared tail of the two retrievals: the best matching entry is removed. *)
(* @src rustvello-mem/src/broker.rs 142-156 MemBroker::retrieve_invocation_from_queue *)
Definition retrieve_best (matching : QueuedInvocation → bool) (queue : BrokerState)
    : option InvocationId * BrokerState :=
  match max_by candidate_cmp (bfilter (λ p, matching p.2) (enumerate queue)) with
  | Some (index, _) =>
      match queue !! index with
      | Some item => (Some (q_invocation_id item), delete index queue)
      | None => (None, queue)
      end
  | None => (None, queue)
  end.

Definition task_matches (task_id : option TaskId) (q : QueuedInvocation) : bool :=
  match task_id with Some t => bool_decide (q_task_id q = Some t) | None => true end.

Definition matches_task (queue_name : string) (task_id : option TaskId) (now : DateTime)
    (q : QueuedInvocation) : bool :=
  bool_decide (q_queue_name q = queue_name) && is_due now q && task_matches task_id q.

(* @src rustvello-mem/src/broker.rs 134-157 MemBroker::retrieve_invocation_from_queue *)
Definition mem_retrieve_invocation_from_queue (queue_name : string) (task_id : option TaskId)
    : BrokerOp (option InvocationId) :=
  lift (validate_routing queue_name 0);;
  now ← instant_now;
  queue ← get;
  let '(selected, queue') := retrieve_best (matches_task queue_name task_id now) queue in
  put queue';;
  mret selected.

(* @src rustvello-mem/src/broker.rs 159-165 MemBroker::retrieve_invocation *)
Definition mem_retrieve_invocation (task_id : option TaskId) : BrokerOp (option InvocationId) :=
  mem_retrieve_invocation_from_queue DEFAULT_QUEUE task_id.

(** An entry without a task id is Rust work. *)
Definition matches_language (queue_name : string) (language : TaskLanguage) (now : DateTime)
    (q : QueuedInvocation) : bool :=
  if negb (bool_decide (q_queue_name q = queue_name)) || negb (is_due now q) then false
  else
    match q_task_id q with
    | Some t => bool_decide (task_language t = language)
    | None => bool_decide (language = Rust)
    end.

(* @src rustvello-mem/src/broker.rs 167-195 MemBroker::retrieve_invocation_for_language_from_queue *)
Definition mem_retrieve_invocation_for_language_from_queue (language : TaskLanguage)
    (queue_name : string) : BrokerOp (option InvocationId) :=
  lift (validate_routing queue_name 0);;
  now ← instant_now;
  queue ← get;
  let '(selected, queue') := retrieve_best (matches_language queue_name language now) queue in
  put queue';;
  mret selected.

(* @src rustvello-mem/src/broker.rs 197-203 MemBroker::retrieve_invocation_for_language *)
Definition mem_retrieve_invocation_for_language (language : TaskLanguage)
    : BrokerOp (option InvocationId) :=
  mem_retrieve_invocation_for_language_from_queue language DEFAULT_QUEUE.

(** The batch default: [fuel] is the capped maximum. *)
Fixpoint retrieve_loop (task_id : option TaskId) (fuel : nat) (results : list InvocationId)
    : BrokerOp (list InvocationId) :=
  match fuel with
  | O => mret results
  | S fuel' =>
      r ← mem_retrieve_invocation task_id;
      match r with
      | Some id => retrieve_loop task_id fuel' (results ++ [id])
      | None => mret results
      end
  end.

(* @src rustvello-core/src/broker.rs 163-182 Broker::retrieve_invocations *)
Definition mem_retrieve_invocations (max : Z) (task_id : option TaskId)
    : BrokerOp (list InvocationId) :=
  retrieve_loop task_id (Z.to_nat (Z.min max 10000)) [].

(** ** Counting and purging *)

(* @src rustvello-mem/src/broker.rs 205-223 MemBroker::count_invocations_in_queues *)
Definition mem_count_invocations_in_queues (queue_names : list string) (task_id : option TaskId)
    : BrokerOp nat :=
  for_each (λ queue_name, lift (validate_routing queue_name 0)) queue_names;;
  queue ← get;
  now ← instant_now;
  mret (length (bfilter (λ q, is_due now q &&
    (bool_decide (queue_names = []) || bool_decide (q_queue_name q ∈ queue_names)) &&
    task_matches task_id q) queue)).

(* @src rustvello-mem/src/broker.rs 225-227 MemBroker::count_invocations *)
Definition mem_count_queued (task_id : option TaskId) : BrokerOp nat :=
  mem_count_invocations_in_queues [] task_id.

(* @src rustvello-mem/src/broker.rs 229-236 MemBroker::purge *)
Definition mem_broker_purge (task_id : option TaskId) : BrokerOp unit :=
  modify (λ queue,
    match task_id with
    | Some t => bfilter (λ q, negb (bool_decide (q_task_id q = Some t))) queue
    | None => []
    end).

(** When an idle worker wakes without a notification: the earliest due time that
    is still ahead. *)
(* @src rustvello-mem/src/broker.rs 241-251 MemBroker::wait_for_work *)
Definition next_due (now : DateTime) (queue : BrokerState) : option DateTime :=
  match bfilter (λ t, now <? t) (omap q_not_before queue) with
  | [] => None
  | t :: ts => Some (fold_left Z.min ts t)
  end.

(** ** The selected entry *)

Definition priority_key (q : QueuedInvocation) : Z := f64_key (q_priority q).

Lemma candidate_cmp_spec l r :
  candidate_cmp l r ≠ Gt ↔
    priority_key l.2 < priority_key r.2 ∨ (priority_key l.2 = priority_key r.2 ∧ (r.1 ≤ l.1)%nat).
Proof.
  unfold candidate_cmp, f64_total_cmp, priority_key.
  destruct (Z.compare_spec (f64_key (q_priority l.2)) (f64_key (q_priority r.2))) as [He|Hl|Hg].
  - destruct (Nat.compare_spec r.1 l.1); split; try done; try lia; by right; lia.
  - split; [by left|done].
  - split; [done|lia].
Qed.

#[local] Instance candidate_total : Total (cmp_le candidate_cmp).
Proof. intros l r. unfold cmp_le. rewrite !candidate_cmp_spec. lia. Qed.

#[local] Instance candidate_trans : Transitive (cmp_le candidate_cmp).
Proof. intros l m r. unfold cmp_le. rewrite !candidate_cmp_spec. lia. Qed.

Lemma elem_of_enumerate {A} (l : list A) i x : (i, x) ∈ enumerate l ↔ l !! i = Some x.
Proof.
  unfold enumerate. rewrite list_elem_of_lookup. split.
  - intros (k & Hk). apply lookup_zip_with_Some in Hk as (a & b & [= -> ->] & Ha & Hb).
    apply lookup_seq in Ha as [-> _]. done.
  - intros Hl. exists i. apply lookup_zip_with_Some. exists i, x. split_and!; [done| |done].
    apply lookup_seq. split; [done|]. by apply lookup_lt_Some in Hl.
Qed.

(** [best matching item queue rest]: [item] is the oldest of the matching
    entries with the highest priority and [rest] is the queue without it. *)
Definition best (matching : QueuedInvocation → bool) (item : QueuedInvocation)
    (queue rest : BrokerState) : Prop :=
  ∃ older newer, queue = older ++ item :: newer ∧ rest = older ++ newer ∧ matching item = true ∧
    (∀ q, q ∈ older → matching q = true → priority_key q < priority_key item) ∧
    (∀ q, q ∈ newer → matching q = true → priority_key q ≤ priority_key item).

Lemma retrieve_best_spec matching queue :
  match retrieve_best matching queue with
  | (Some id, rest) => ∃ item, q_invocation_id item = id ∧ best matching item queue rest
  | (None, rest) => rest = queue ∧ ∀ q, q ∈ queue → matching q = false
  end.
Proof.
  unfold retrieve_best. set (cands := bfilter (λ p, matching p.2) (enumerate queue)).
  destruct (max_by candidate_cmp cands) as [[i x]|] eqn:Hm.
  - apply (max_by_Some _ _ _ _ _) in Hm as [Hin Hmax].
    apply elem_of_bfilter in Hin as [Hmx Hi%elem_of_enumerate]. simpl in Hmx.
    rewrite Hi. exists x. split; [done|].
    assert (∀ j q, queue !! j = Some q → matching q = true →
      priority_key q < priority_key x ∨ (priority_key q = priority_key x ∧ (i ≤ j)%nat)) as Hall.
    { intros j q Hj Hq. apply (candidate_cmp_spec (j, q) (i, x)), Hmax, elem_of_bfilter.
      split; [done|by apply elem_of_enumerate]. }
    exists (take i queue), (drop (S i) queue). split_and!.
    + by rewrite take_drop_middle.
    + by rewrite delete_take_drop.
    + done.
    + intros q (j & Hj & Hlt)%elem_of_take Hq. destruct (Hall j q Hj Hq) as [|[_ ?]]; lia.
    + intros q Hq Hmq. apply list_elem_of_lookup in Hq as (j & Hj). rewrite lookup_drop in Hj.
      destruct (Hall _ q Hj Hmq) as [|[-> _]]; lia.
  - split; [done|]. intros q Hq. apply max_by_None in Hm.
    apply list_elem_of_lookup in Hq as (j & Hj). destruct (matching q) eqn:Hmq; [|done].
    assert ((j, q) ∈ cands) as Hin by (apply elem_of_bfilter; split; [done|by apply elem_of_enumerate]).
    rewrite Hm in Hin. by apply elem_of_nil in Hin.
Qed.

Lemma best_perm matching item queue rest : best matching item queue rest → queue ≡ₚ item :: rest.
Proof. intros (older & newer & -> & -> & _). by rewrite Permutation_middle. Qed.

(** ** Draining is a stable sort *)

(** Higher priority first. *)
Definition by_priority (a b : QueuedInvocation) : bool := priority_key b <=? priority_key a.

Lemma sort_best older item newer :
  (∀ q, q ∈ older → priority_key q < priority_key item) →
  (∀ q, q ∈ newer → priority_key q ≤ priority_key item) →
  sort_by by_priority (older ++ item :: newer) = item :: sort_by by_priority (older ++ newer).
Proof.
  intros Ho Hn. induction older as [|x older IH]; simpl.
  - destruct (sort_by by_priority newer) as [|y l] eqn:E; [done|]. simpl.
    assert (y ∈ newer) as Hy by (apply (elem_of_sort_by by_priority); rewrite E; set_solver).
    unfold by_priority at 1. by rewrite (proj2 (Z.leb_le _ _) (Hn y Hy)).
  - rewrite IH by (intros; apply Ho; set_solver). simpl. unfold by_priority at 1.
    specialize (Ho x ltac:(set_solver)). by rewrite (proj2 (Z.leb_gt _ _) Ho).
Qed.

Lemma best_sort matching item queue rest :
  best matching item queue rest →
  sort_by by_priority (bfilter matching queue) = item :: sort_by by_priority (bfilter matching rest).
Proof.
  intros (older & newer & -> & -> & Hm & Ho & Hn). unfold bfilter.
  rewrite !List.filter_app. simpl. rewrite Hm. apply sort_best.
  - intros q [Hq Hin]%elem_of_bfilter. by apply Ho.
  - intros q [Hq Hin]%elem_of_bfilter. by apply Hn.
Qed.

Lemma no_match_filter matching (queue : BrokerState) :
  (∀ q, q ∈ queue → matching q = false) → bfilter matching queue = [].
Proof.
  intros Hn. induction queue as [|q queue IH]; [done|]. unfold bfilter in *. simpl.
  rewrite (Hn q) by set_solver. apply IH. intros; apply Hn; set_solver.
Qed.

(** One retrieval, as a function of the clock reading. *)
Lemma retrieve_run name task t q :
  valid_queue_name name = true →
  mem_retrieve_invocation_from_queue name task t q =
    (Ok (retrieve_best (matches_task name task (clock_next t).1) q).1, (clock_next t).2,
     (retrieve_best (matches_task name task (clock_next t).1) q).2).
Proof.
  intros Hv. unfold mem_retrieve_invocation_from_queue, mbind, M_bind, lift, instant_now, utc_now, get.
  rewrite (proj2 (validate_routing_Ok name 0)) by done. simpl.
  by destruct (retrieve_best _ q).
Qed.

Lemma retrieve_language_run lang name t q :
  valid_queue_name name = true →
  mem_retrieve_invocation_for_language_from_queue lang name t q =
    (Ok (retrieve_best (matches_language name lang (clock_next t).1) q).1, (clock_next t).2,
     (retrieve_best (matches_language name lang (clock_next t).1) q).2).
Proof.
  intros Hv. unfold mem_retrieve_invocation_for_language_from_queue, mbind, M_bind, lift, instant_now,
    utc_now, get.
  rewrite (proj2 (validate_routing_Ok name 0)) by done. simpl.
  by destruct (retrieve_best _ q).
Qed.

(** The clock shows the same instant to every retrieval of the batch. *)
Definition shows (c : Clock) (now : DateTime) : Prop := ∀ n, readings c n = now.

Lemma retrieve_loop_spec task now fuel acc c queue :
  shows c now →
  ∃ c' rest, retrieve_loop task fuel acc c queue =
    (Ok (acc ++ take fuel (q_invocation_id <$>
           sort_by by_priority (bfilter (matches_task DEFAULT_QUEUE task now) queue))), c', rest).
Proof.
  revert acc c queue. induction fuel as [|fuel IH]; intros acc c queue Hc; simpl.
  { rewrite app_nil_r. by eexists _, _. }
  unfold mbind, M_bind, mem_retrieve_invocation. rewrite retrieve_run by done. simpl.
  rewrite (Hc (tick c)).
  pose proof (retrieve_best_spec (matches_task DEFAULT_QUEUE task now) queue) as Hb.
  destruct (retrieve_best _ queue) as [[id|] rest]; simpl.
  - destruct Hb as (item & <- & Hb). rewrite (best_sort _ _ _ _ Hb).
    destruct (IH (acc ++ [q_invocation_id item]) {| readings := readings c; tick := S (tick c) |} rest Hc)
      as (c' & rest' & ->).
    rewrite <-app_assoc. simpl. by eexists _, _.
  - destruct Hb as [-> Hn]. rewrite no_match_filter by done. simpl. rewrite app_nil_r. by eexists _, _.
Qed.

(** ** Histories of routings and retrievals *)

Inductive broker_op :=
| BRoute (id : InvocationId) (task : option TaskId) (name : string) (priority : f64)
| BRouteAfter (id : InvocationId) (task : option TaskId) (name : string) (priority : f64) (delay : Z)
| BRetrieve (name : string) (task : option TaskId)
| BRetrieveLanguage (lang : TaskLanguage) (name : string).

(** What an operation adds to the queue and what it delivers. *)
Definition broker_step (op : broker_op) (c : Clock) (queue : BrokerState)
    : list InvocationId * list InvocationId * Clock * BrokerState :=
  match op with
  | BRoute id task name p =>
      let '(r, c', q') := mem_route_invocation_with_options id task name p c queue in
      ((if is_ok r then [id] else []), [], c', q')
  | BRouteAfter id task name p d =>
      let '(r, c', q') := mem_route_invocation_after id task name p d c queue in
      ((if is_ok r then [id] else []), [], c', q')
  | BRetrieve name task =>
      let '(r, c', q') := mem_retrieve_invocation_from_queue name task c queue in
      ([], match r with Ok (Some id) => [id] | _ => [] end, c', q')
  | BRetrieveLanguage lang name =>
      let '(r, c', q') := mem_retrieve_invocation_for_language_from_queue lang name c queue in
      ([], match r with Ok (Some id) => [id] | _ => [] end, c', q')
  end.

Fixpoint broker_history (ops : list broker_op) (c : Clock) (queue : BrokerState)
    : list InvocationId * list InvocationId * BrokerState :=
  match ops with
  | [] => ([], [], queue)
  | op :: rest =>
      let '(added, delivered, c', queue') := broker_step op c queue in
      let '(added', delivered', final) := broker_history rest c' queue' in
      (added ++ added', delivered ++ delivered', final)
  end.

Lemma retrieve_best_conserves matching queue :
  q_invocation_id <$> queue ≡ₚ
    (match (retrieve_best matching queue).1 with Some id => [id] | None => [] end) ++
    (q_invocation_id <$> (retrieve_best matching queue).2).
Proof.
  pose proof (retrieve_best_spec matching queue) as Hb.
  destruct (retrieve_best matching queue) as [[id|] rest]; simpl.
  - destruct Hb as (item & <- & Hb%best_perm). by rewrite Hb.
  - by destruct Hb as [-> _].
Qed.

Lemma broker_step_conserves op c queue :
  let '(added, delivered, _, queue') := broker_step op c queue in
  (q_invocation_id <$> queue) ++ added ≡ₚ delivered ++ (q_invocation_id <$> queue').
Proof.
  destruct op as [id task name p|id task name p d|name task|lang name]; unfold broker_step.
  - unfold mem_route_invocation_with_options, mbind, M_bind, lift.
    destruct (validate_routing_cases name p) as [(->&_&_)|(m&->&_)]; simpl.
    + by rewrite fmap_app.
    + by rewrite app_nil_r.
  - unfold mem_route_invocation_after, mbind, M_bind, lift.
    destruct (validate_routing_cases name p) as [(->&_&_)|(m&->&_)]; simpl.
    + by rewrite fmap_app.
    + by rewrite app_nil_r.
  - destruct (valid_queue_name name) eqn:Hv.
    + rewrite retrieve_run by done. rewrite app_nil_r.
      etrans; [apply (retrieve_best_conserves (matches_task name task (clock_next c).1))|].
      by destruct (retrieve_best _ queue) as [[id|] rest].
    + unfold mem_retrieve_invocation_from_queue, mbind, M_bind, lift.
      destruct (validate_routing_cases name 0) as [(_&?&_)|(m&->&_)]; [congruence|]. simpl.
      by rewrite app_nil_r.
  - destruct (valid_queue_name name) eqn:Hv.
    + rewrite retrieve_language_run by done. rewrite app_nil_r.
      etrans; [apply (retrieve_best_conserves (matches_language name lang (clock_next c).1))|].
      by destruct (retrieve_best _ queue) as [[id|] rest].
    + unfold mem_retrieve_invocation_for_language_from_queue, mbind, M_bind, lift.
      destruct (validate_routing_cases name 0) as [(_&?&_)|(m&->&_)]; [congruence|]. simpl.
      by rewrite app_nil_r.
Qed.

(** ** Properties *)

(** a retrieval from a valid queue removes exactly one entry: the oldest of
    those with the highest priority among the entries of that queue that are due
    and match the task filter; when it returns nothing, nothing matched and the
    queue is unchanged.  An invalid queue name is an error that changes
    nothing. *)
Theorem retrieval_takes_oldest_best (name : string) (task : option TaskId) (c : Clock)
    (queue : BrokerState) :
  match mem_retrieve_invocation_from_queue name task c queue with
  | (Ok (Some id), _, rest) =>
      ∃ item, q_invocation_id item = id ∧
        best (matches_task name task (clock_next c).1) item queue rest
  | (Ok None, _, rest) =>
      rest = queue ∧ ∀ q, q ∈ queue → matches_task name task (clock_next c).1 q = false
  | (Err e, _, rest) => rest = queue ∧ valid_queue_name name = false ∧ ∃ m, e = EConfiguration m
  | (Panic _, _, _) => False
  end.
Proof.
  destruct (valid_queue_name name) eqn:Hv.
  - rewrite retrieve_run by done.
    pose proof (retrieve_best_spec (matches_task name task (clock_next c).1) queue) as Hb.
    by destruct (retrieve_best _ queue) as [[id|] rest].
  - unfold mem_retrieve_invocation_from_queue, mbind, M_bind, lift.
    destruct (validate_routing_cases name 0) as [(_&?&_)|(m&->&_)]; [congruence|]. simpl. eauto.
Qed.

(** C40: the order of delivery, which docs/guarantees.md promises as priority, then
    FIFO, per queue: draining the default queue at one instant is a stable sort.  A
    batch retrieval of [max], without a task or for one, returns the first
    [min max 10000] matching entries that are due, in order of descending priority,
    entries of equal priority in the order they were routed, of whatever tasks they
    are.  (The comment on the type in broker.rs describes an older design with a
    queue for each task that take turns; the code has one list.) *)
Theorem batch_retrieval_is_stable_sort (max : Z) (task : option TaskId) (now : DateTime) (c : Clock)
    (queue : BrokerState) :
  shows c now →
  result_of (mem_retrieve_invocations max task) c queue =
    Ok (take (Z.to_nat (Z.min max 10000)) (q_invocation_id <$>
          sort_by by_priority (bfilter (matches_task DEFAULT_QUEUE task now) queue))).
Proof.
  intros Hc. unfold result_of, mem_retrieve_invocations.
  by destruct (retrieve_loop_spec task now (Z.to_nat (Z.min max 10000)) [] c queue Hc)
    as (c' & rest & ->).
Qed.

Lemma batch_retrieval_is_stable_sort_witness :
  let queue := [mkQueued "a" None "default" 0 None; mkQueued "b" None "default" MAX_PRIORITY None;
                mkQueued "c" None "default" 0 None; mkQueued "d" None "other" MAX_PRIORITY None;
                mkQueued "e" None "default" MAX_PRIORITY (Some 99)] in
  shows (frozen_clock 7) 7 ∧
  result_of (mem_retrieve_invocations 2 None) (frozen_clock 7) queue = Ok ["b"; "a"].
Proof.
  intros queue. assert (shows (frozen_clock 7) 7) as Hs by (intros n; reflexivity).
  split; [exact Hs|].
  exact (batch_retrieval_is_stable_sort 2 None 7 (frozen_clock 7) queue Hs).
Defined.

(** nothing is lost and nothing is delivered twice: over any history of
    routings and retrievals, the entries that were in the queue or were routed
    are, as a multiset, those delivered and those still queued. *)
Theorem deliveries_conserve_entries (ops : list broker_op) (c : Clock) (queue : BrokerState) :
  let '(added, delivered, final) := broker_history ops c queue in
  (q_invocation_id <$> queue) ++ added ≡ₚ delivered ++ (q_invocation_id <$> final).
Proof.
  revert c queue. induction ops as [|op ops IH]; intros c queue; simpl; [by rewrite app_nil_r|].
  pose proof (broker_step_conserves op c queue) as Hstep.
  destruct (broker_step op c queue) as [[[added delivered] c'] queue'].
  specialize (IH c' queue'). destruct (broker_history ops c' queue') as [[added' delivered'] final].
  by rewrite app_assoc, Hstep, <-app_assoc, IH, app_assoc.
Qed.

(** what a language worker receives comes from the queue it asked for, is due
    at the instant of the request, and is work of its own language: never another
    language's, and an entry without a task only for a Rust worker. *)
Theorem retrieval_respects_partition_and_delay (lang : TaskLanguage) (name : string) (c : Clock)
    (queue rest : BrokerState) (c' : Clock) (id : InvocationId) :
  mem_retrieve_invocation_for_language_from_queue lang name c queue = (Ok (Some id), c', rest) →
  ∃ item, item ∈ queue ∧ q_invocation_id item = id ∧ q_queue_name item = name ∧
    is_due (clock_next c).1 item = true ∧
    default Rust (task_language <$> q_task_id item) = lang.
Proof.
  intros Hr. destruct (valid_queue_name name) eqn:Hv.
  2: { revert Hr. unfold mem_retrieve_invocation_for_language_from_queue, mbind, M_bind, lift.
       by destruct (validate_routing_cases name 0) as [(_&?&_)|(m&->&_)]; [congruence|]. }
  rewrite retrieve_language_run in Hr by done.
  pose proof (retrieve_best_spec (matches_language name lang (clock_next c).1) queue) as Hb.
  destruct (retrieve_best _ queue) as [[id'|] rest']; simplify_eq/=.
  destruct Hb as (item & <- & Hb). exists item.
  pose proof (best_perm _ _ _ _ Hb) as Hperm. destruct Hb as (older & newer & _ & _ & Hm & _).
  split; [rewrite Hperm; set_solver|]. split; [done|]. revert Hm. unfold matches_language.
  case_bool_decide; simpl; [|done]. destruct (is_due _ item) eqn:Hd; [|done]. simpl.
  destruct (q_task_id item); simpl; intros ?%bool_decide_eq_true; naive_solver.
Qed.

Lemma retrieval_respects_partition_and_delay_witness :
  let py := mkTaskId Python "mlfit" 2 in
  let queue := [mkQueued "a" None "default" MAX_PRIORITY None;
                mkQueued "p" (Some py) "default" 0 (Some 3)] in
  ∃ item, item ∈ queue ∧ q_invocation_id item = "p" ∧ q_queue_name item = "default" ∧
    is_due 7 item = true ∧ default Rust (task_language <$> q_task_id item) = Python.
Proof.
  intros py queue.
  apply (retrieval_respects_partition_and_delay Python "default" (frozen_clock 7) queue
           [mkQueued "a" None "default" MAX_PRIORITY None] (clock_next (frozen_clock 7)).2 "p").
  reflexivity.
Defined.
