(* ===== verification/MemStateBackend.v ===== *)
(** * The in-memory state backend

    Models [rustvello-mem/src/state_backend.rs] and [StoredRunnerContext] of
    [rustvello-core/src/state_backend.rs]: invocations and calls, results and
    errors, the status history, workflow and runner indexes.  The theorems: the
    indexes stay free of duplicates and point to stored data, the history only
    grows, and the offset of a workflow run is its place in the paginated list. *)
From S2P Require Import Prelude Effects Identifiers Status Errors Call Invocation.

(* @src rustvello-core/src/state_backend.rs 11-39 StoredRunnerContext *)
Record StoredRunnerContext := mkRunnerContext {
  rc_runner_cls : string;
  rc_runner_language : TaskLanguage;
  rc_executor_kind : ExecutorKind;
  rc_runner_id : string;
  rc_pid : Z;
  rc_hostname : string;
  rc_thread_id : Z;
  rc_started_at : DateTime;
  rc_parent_runner_id : option string;
  rc_parent_runner_cls : option string
}.

(** What the process knows of itself: pid, host name, thread number. *)
Record ProcessInfo := mkProcess { p_pid : Z; p_hostname : string; p_thread_id : Z }.

(* @src rustvello-core/src/state_backend.rs 42-64 StoredRunnerContext::current *)
Definition runner_context_current (p : ProcessInfo) (now : DateTime) (runner_id runner_cls : string)
    : StoredRunnerContext :=
  {| rc_runner_cls := runner_cls; rc_runner_language := Rust; rc_executor_kind := Tokio;
     rc_runner_id := runner_id; rc_pid := p_pid p; rc_hostname := p_hostname p;
     rc_thread_id := p_thread_id p; rc_started_at := now; rc_parent_runner_id := None;
     rc_parent_runner_cls := None |}.

(* @src rustvello-core/src/state_backend.rs 66-78 StoredRunnerContext::new_child *)
Definition runner_context_new_child (p : ProcessInfo) (now : DateTime) (self : StoredRunnerContext)
    (child_runner_id child_runner_cls : string) : StoredRunnerContext :=
  {| rc_runner_cls := child_runner_cls; rc_runner_language := rc_runner_language self;
     rc_executor_kind := rc_executor_kind self; rc_runner_id := child_runner_id; rc_pid := p_pid p;
     rc_hostname := p_hostname p; rc_thread_id := p_thread_id p; rc_started_at := now;
     rc_parent_runner_id := Some (rc_runner_id self);
     rc_parent_runner_cls := Some (rc_runner_cls self) |}.

(** ** State *)

(* @src rustvello-mem/src/state_backend.rs 16-39 BackendState *)
Record BackendState := mkBackendState {
  b_invocations : gmap InvocationId InvocationDTO;
  b_calls : gmap string CallDTO;
  b_results : gmap InvocationId string;
  b_errors : gmap InvocationId TaskError;
  b_histories : gmap InvocationId (list InvocationHistory);
  b_workflow_members : gmap InvocationId (list InvocationId);
  b_children : gmap InvocationId (list InvocationId);
  b_runner_contexts : gmap string StoredRunnerContext;
  b_runner_invocations : gmap string (list InvocationId);
  b_workflow_types : list TaskId;
  b_workflow_runs : gmap string (list WorkflowIdentity);
  b_workflow_data : gmap InvocationId (gmap string string);
  b_app_infos : gmap string string;
  b_workflow_sub_invocations : gmap InvocationId (list InvocationId)
}.

(* @src rustvello-mem/src/state_backend.rs 49-70 MemStateBackend::new *)
Definition backend_new : BackendState :=
  {| b_invocations := ∅;
     b_calls := ∅;
     b_results := ∅;
     b_errors := ∅;
     b_histories := ∅;
     b_workflow_members := ∅;
     b_children := ∅;
     b_runner_contexts := ∅;
     b_runner_invocations := ∅;
     b_workflow_types := [];
     b_workflow_runs := ∅;
     b_workflow_data := ∅;
     b_app_infos := ∅;
     b_workflow_sub_invocations := ∅ |}.

Definition with_b_invocations (f : gmap InvocationId InvocationDTO → gmap InvocationId InvocationDTO)
    (s : BackendState) : BackendState :=
  {| b_invocations := f (b_invocations s); b_calls := b_calls s; b_results := b_results s;
     b_errors := b_errors s; b_histories := b_histories s;
     b_workflow_members := b_workflow_members s; b_children := b_children s;
     b_runner_contexts := b_runner_contexts s; b_runner_invocations := b_runner_invocations s;
     b_workflow_types := b_workflow_types s; b_workflow_runs := b_workflow_runs s;
     b_workflow_data := b_workflow_data s; b_app_infos := b_app_infos s;
     b_workflow_sub_invocations := b_workflow_sub_invocations s |}.

Definition with_b_calls (f : gmap string CallDTO → gmap string CallDTO)
    (s : BackendState) : BackendState :=
  {| b_invocations := b_invocations s; b_calls := f (b_calls s); b_results := b_results s;
     b_errors := b_errors s; b_histories := b_histories s;
     b_workflow_members := b_workflow_members s; b_children := b_children s;
     b_runner_contexts := b_runner_contexts s; b_runner_invocations := b_runner_invocations s;
     b_workflow_types := b_workflow_types s; b_workflow_runs := b_workflow_runs s;
     b_workflow_data := b_workflow_data s; b_app_infos := b_app_infos s;
     b_workflow_sub_invocations := b_workflow_sub_invocations s |}.

Definition with_b_results (f : gmap InvocationId string → gmap InvocationId string)
    (s : BackendState) : BackendState :=
  {| b_invocations := b_invocations s; b_calls := b_calls s; b_results := f (b_results s);
     b_errors := b_errors s; b_histories := b_histories s;
     b_workflow_members := b_workflow_members s; b_children := b_children s;
     b_runner_contexts := b_runner_contexts s; b_runner_invocations := b_runner_invocations s;
     b_workflow_types := b_workflow_types s; b_workflow_runs := b_workflow_runs s;
     b_workflow_data := b_workflow_data s; b_app_infos := b_app_infos s;
     b_workflow_sub_invocations := b_workflow_sub_invocations s |}.

Definition with_b_errors (f : gmap InvocationId TaskError → gmap InvocationId TaskError)
    (s : BackendState) : BackendState :=
  {| b_invocations := b_invocations s; b_calls := b_calls s; b_results := b_results s;
     b_errors := f (b_errors s); b_histories := b_histories s;
     b_workflow_members := b_workflow_members s; b_children := b_children s;
     b_runner_contexts := b_runner_contexts s; b_runner_invocations := b_runner_invocations s;
     b_workflow_types := b_workflow_types s; b_workflow_runs := b_workflow_runs s;
     b_workflow_data := b_workflow_data s; b_app_infos := b_app_infos s;
     b_workflow_sub_invocations := b_workflow_sub_invocations s |}.

Definition with_b_histories (f : gmap InvocationId (list InvocationHistory) → gmap InvocationId (list InvocationHistory))
    (s : BackendState) : BackendState :=
  {| b_invocations := b_invocations s; b_calls := b_calls s; b_results := b_results s;
     b_errors := b_errors s; b_histories := f (b_histories s);
     b_workflow_members := b_workflow_members s; b_children := b_children s;
     b_runner_contexts := b_runner_contexts s; b_runner_invocations := b_runner_invocations s;
     b_workflow_types := b_workflow_types s; b_workflow_runs := b_workflow_runs s;
     b_workflow_data := b_workflow_data s; b_app_infos := b_app_infos s;
     b_workflow_sub_invocations := b_workflow_sub_invocations s |}.

Definition with_b_workflow_members (f : gmap InvocationId (list InvocationId) → gmap InvocationId (list InvocationId))
    (s : BackendState) : BackendState :=
  {| b_invocations := b_invocations s; b_calls := b_calls s; b_results := b_results s;
     b_errors := b_errors s; b_histories := b_histories s;
     b_workflow_members := f (b_workflow_members s); b_children := b_children s;
     b_runner_contexts := b_runner_contexts s; b_runner_invocations := b_runner_invocations s;
     b_workflow_types := b_workflow_types s; b_workflow_runs := b_workflow_runs s;
     b_workflow_data := b_workflow_data s; b_app_infos := b_app_infos s;
     b_workflow_sub_invocations := b_workflow_sub_invocations s |}.

Definition with_b_children (f : gmap InvocationId (list InvocationId) → gmap InvocationId (list InvocationId))
    (s : BackendState) : BackendState :=
  {| b_invocations := b_invocations s; b_calls := b_calls s; b_results := b_results s;
     b_errors := b_errors s; b_histories := b_histories s;
     b_workflow_members := b_workflow_members s; b_children := f (b_children s);
     b_runner_contexts := b_runner_contexts s; b_runner_invocations := b_runner_invocations s;
     b_workflow_types := b_workflow_types s; b_workflow_runs := b_workflow_runs s;
     b_workflow_data := b_workflow_data s; b_app_infos := b_app_infos s;
     b_workflow_sub_invocations := b_workflow_sub_invocations s |}.

Definition with_b_runner_contexts (f : gmap string StoredRunnerContext → gmap string StoredRunnerContext)
    (s : BackendState) : BackendState :=
  {| b_invocations := b_invocations s; b_calls := b_calls s; b_results := b_results s;
     b_errors := b_errors s; b_histories := b_histories s;
     b_workflow_members := b_workflow_members s; b_children := b_children s;
     b_runner_contexts := f (b_runner_contexts s);
     b_runner_invocations := b_runner_invocations s; b_workflow_types := b_workflow_types s;
     b_workflow_runs := b_workflow_runs s; b_workflow_data := b_workflow_data s;
     b_app_infos := b_app_infos s; b_workflow_sub_invocations := b_workflow_sub_invocations s |}.

Definition with_b_runner_invocations (f : gmap string (list InvocationId) → gmap string (list InvocationId))
    (s : BackendState) : BackendState :=
  {| b_invocations := b_invocations s; b_calls := b_calls s; b_results := b_results s;
     b_errors := b_errors s; b_histories := b_histories s;
     b_workflow_members := b_workflow_members s; b_children := b_children s;
     b_runner_contexts := b_runner_contexts s;
     b_runner_invocations := f (b_runner_invocations s); b_workflow_types := b_workflow_types s;
     b_workflow_runs := b_workflow_runs s; b_workflow_data := b_workflow_data s;
     b_app_infos := b_app_infos s; b_workflow_sub_invocations := b_workflow_sub_invocations s |}.

Definition with_b_workflow_types (f : list TaskId → list TaskId)
    (s : BackendState) : BackendState :=
  {| b_invocations := b_invocations s; b_calls := b_calls s; b_results := b_results s;
     b_errors := b_errors s; b_histories := b_histories s;
     b_workflow_members := b_workflow_members s; b_children := b_children s;
     b_runner_contexts := b_runner_contexts s; b_runner_invocations := b_runner_invocations s;
     b_workflow_types := f (b_workflow_types s); b_workflow_runs := b_workflow_runs s;
     b_workflow_data := b_workflow_data s; b_app_infos := b_app_infos s;
     b_workflow_sub_invocations := b_workflow_sub_invocations s |}.

Definition with_b_workflow_runs (f : gmap string (list WorkflowIdentity) → gmap string (list WorkflowIdentity))
    (s : BackendState) : BackendState :=
  {| b_invocations := b_invocations s; b_calls := b_calls s; b_results := b_results s;
     b_errors := b_errors s; b_histories := b_histories s;
     b_workflow_members := b_workflow_members s; b_children := b_children s;
     b_runner_contexts := b_runner_contexts s; b_runner_invocations := b_runner_invocations s;
     b_workflow_types := b_workflow_types s; b_workflow_runs := f (b_workflow_runs s);
     b_workflow_data := b_workflow_data s; b_app_infos := b_app_infos s;
     b_workflow_sub_invocations := b_workflow_sub_invocations s |}.

Definition with_b_workflow_data (f : gmap InvocationId (gmap string string) → gmap InvocationId (gmap string string))
    (s : BackendState) : BackendState :=
  {| b_invocations := b_invocations s; b_calls := b_calls s; b_results := b_results s;
     b_errors := b_errors s; b_histories := b_histories s;
     b_workflow_members := b_workflow_members s; b_children := b_children s;
     b_runner_contexts := b_runner_contexts s; b_runner_invocations := b_runner_invocations s;
     b_workflow_types := b_workflow_types s; b_workflow_runs := b_workflow_runs s;
     b_workflow_data := f (b_workflow_data s); b_app_infos := b_app_infos s;
     b_workflow_sub_invocations := b_workflow_sub_invocations s |}.

Definition with_b_app_infos (f : gmap string string → gmap string string)
    (s : BackendState) : BackendState :=
  {| b_invocations := b_invocations s; b_calls := b_calls s; b_results := b_results s;
     b_errors := b_errors s; b_histories := b_histories s;
     b_workflow_members := b_workflow_members s; b_children := b_children s;
     b_runner_contexts := b_runner_contexts s; b_runner_invocations := b_runner_invocations s;
     b_workflow_types := b_workflow_types s; b_workflow_runs := b_workflow_runs s;
     b_workflow_data := b_workflow_data s; b_app_infos := f (b_app_infos s);
     b_workflow_sub_invocations := b_workflow_sub_invocations s |}.

Definition with_b_workflow_sub_invocations (f : gmap InvocationId (list InvocationId) → gmap InvocationId (list InvocationId))
    (s : BackendState) : BackendState :=
  {| b_invocations := b_invocations s; b_calls := b_calls s; b_results := b_results s;
     b_errors := b_errors s; b_histories := b_histories s;
     b_workflow_members := b_workflow_members s; b_children := b_children s;
     b_runner_contexts := b_runner_contexts s; b_runner_invocations := b_runner_invocations s;
     b_workflow_types := b_workflow_types s; b_workflow_runs := b_workflow_runs s;
     b_workflow_data := b_workflow_data s; b_app_infos := b_app_infos s;
     b_workflow_sub_invocations := f (b_workflow_sub_invocations s) |}.

(** [map.entry(k).or_default().push(x)]. *)
Definition push_entry {A} (k : string) (x : A) (m : gmap string (list A)) : gmap string (list A) :=
  <[k := default [] (m !! k) ++ [x]]> m.

(** [map.get(k).cloned().unwrap_or_default()]. *)
Definition entries {A} (m : gmap string (list A)) (k : string) : list A := default [] (m !! k).

Abbreviation BackendOp A := (M RustvelloError BackendState A) (only parsing).

(** ** Invocations, results, errors *)

(** The indexing of a new invocation under its workflow and its parent. *)
Definition index_new_invocation (invocation : InvocationDTO) (s : BackendState) : BackendState :=
  let s1 := match inv_workflow invocation with
    | Some wf => with_b_workflow_members (push_entry (workflow_id wf) (inv_id invocation)) s
    | None => s
    end in
  match inv_parent invocation with
  | Some parent => with_b_children (push_entry parent (inv_id invocation)) s1
  | None => s1
  end.

Definition store_invocation (invocation : InvocationDTO) (call : CallDTO) (s : BackendState)
    : BackendState :=
  with_b_calls <[call_id_display (cd_call_id call) := call]>
    (with_b_invocations <[inv_id invocation := invocation]> s).

(* @src rustvello-mem/src/state_backend.rs 80-119 MemStateBackend::upsert_invocation *)
Definition mem_upsert_invocation (invocation : InvocationDTO) (call : CallDTO) : BackendOp unit :=
  modify (λ s,
    let is_new := bool_decide (b_invocations s !! inv_id invocation = None) in
    store_invocation invocation call (if is_new then index_new_invocation invocation s else s)).

(* @src rustvello-mem/src/state_backend.rs 121-131 MemStateBackend::get_invocation *)
Definition mem_get_invocation (id : InvocationId) : BackendOp InvocationDTO :=
  s ← get; lift (ok_or (b_invocations s !! id) (EInvocationNotFound id)).

(* @src rustvello-mem/src/state_backend.rs 133-140 MemStateBackend::get_call *)
Definition mem_get_call (call_id : CallId) : BackendOp CallDTO :=
  s ← get;
  lift (ok_or (b_calls s !! call_id_display call_id)
          (state_backend_err ("call not found: " +:+ call_id_display call_id))).

(* @src rustvello-mem/src/state_backend.rs 142-153 MemStateBackend::store_result *)
Definition mem_store_result (id : InvocationId) (result : string) : BackendOp unit :=
  modify (with_b_results <[id := result]>).

(** The default of the trait, which the in-memory backend keeps: the runner is
    not checked. *)
(* @src rustvello-core/src/state_backend.rs 175-186 StateBackendCore::store_result_for_runner *)
Definition mem_store_result_for_runner (id : InvocationId) (result : string) (runner : RunnerId)
    : BackendOp unit := mem_store_result id result.

(* @src rustvello-mem/src/state_backend.rs 155-159 MemStateBackend::get_result *)
Definition mem_get_result (id : InvocationId) : BackendOp (option string) :=
  gets (λ s, b_results s !! id).

(* @src rustvello-mem/src/state_backend.rs 161-171 MemStateBackend::store_error *)
Definition mem_store_error (id : InvocationId) (error : TaskError) : BackendOp unit :=
  modify (with_b_errors <[id := error]>).

(* @src rustvello-core/src/state_backend.rs 198-206 StateBackendCore::store_error_for_runner *)
Definition mem_store_error_for_runner (id : InvocationId) (error : TaskError) (runner : RunnerId)
    : BackendOp unit := mem_store_error id error.

(* @src rustvello-mem/src/state_backend.rs 173-176 MemStateBackend::get_error *)
Definition mem_get_error (id : InvocationId) : BackendOp (option TaskError) :=
  gets (λ s, b_errors s !! id).

(** ** History *)

(** The runner an entry counts for: its own, or the owner in its record. *)
Definition history_runner (h : InvocationHistory) : option RunnerId :=
  match hist_runner_id h with Some r => Some r | None => rec_runner_id (hist_status_record h) end.

(** [if !entries.iter().any(..) { entries.push(..) }]. *)
Definition push_once (k x : string) (m : gmap string (list string)) : gmap string (list string) :=
  if decide (x ∈ entries m k) then <[k := entries m k]> m else push_entry k x m.

(* @src rustvello-mem/src/state_backend.rs 178-198 MemStateBackend::add_history *)
Definition mem_add_history (h : InvocationHistory) : BackendOp unit :=
  modify (λ s,
    with_b_histories (push_entry (hist_invocation_id h) h)
      match history_runner h with
      | Some r => with_b_runner_invocations (push_once r (hist_invocation_id h)) s
      | None => s
      end).

(* @src rustvello-mem/src/state_backend.rs 200-210 MemStateBackend::get_history *)
Definition mem_get_history (id : InvocationId) : BackendOp (list InvocationHistory) :=
  gets (λ s, entries (b_histories s) id).

(* @src rustvello-mem/src/state_backend.rs 212-229 MemStateBackend::purge *)
Definition mem_backend_purge : BackendOp unit := put backend_new.

(** ** Workflows *)

Definition str_gtb (a b : string) : bool := negb (str_leb a b).

(* @src rustvello-mem/src/state_backend.rs 268-285 MemStateBackend::get_workflow_run_offset *)
Definition mem_get_workflow_run_offset (wtype : TaskId) (wid : InvocationId)
    : BackendOp (option nat) :=
  gets (λ s,
    match b_workflow_runs s !! task_id_display wtype with
    | None => None
    | Some runs =>
        if List.existsb (λ run, bool_decide (workflow_id run = wid)) runs
        then Some (length (bfilter (λ run, str_gtb (workflow_id run) wid) runs))
        else None
    end).

(* @src rustvello-mem/src/state_backend.rs 287-303 MemStateBackend::get_workflow_invocations_page *)
Definition mem_get_workflow_invocations_page (wid : InvocationId) (limit offset : nat)
    : BackendOp (list InvocationId * nat) :=
  gets (λ s,
    match b_workflow_members s !! wid with
    | None => ([], 0%nat)
    | Some ids => (take limit (drop offset (str_sort ids)), length ids)
    end).

(* @src rustvello-mem/src/state_backend.rs 305-315 MemStateBackend::get_workflow_invocations *)
Definition mem_get_workflow_invocations (wid : InvocationId) : BackendOp (list InvocationId) :=
  gets (λ s, entries (b_workflow_members s) wid).

(* @src rustvello-mem/src/state_backend.rs 317-327 MemStateBackend::get_child_invocations *)
Definition mem_get_child_invocations (parent : InvocationId) : BackendOp (list InvocationId) :=
  gets (λ s, entries (b_children s) parent).

(* @src rustvello-mem/src/state_backend.rs 329-344 MemStateBackend::store_workflow_run *)
Definition mem_store_workflow_run (workflow : WorkflowIdentity) : BackendOp unit :=
  modify (λ s,
    let type_key := task_id_display (workflow_type workflow) in
    let s1 :=
      if List.existsb (λ t, bool_decide (task_id_display t = type_key)) (b_workflow_types s) then s
      else with_b_workflow_types (λ l, l ++ [workflow_type workflow]) s in
    let runs := entries (b_workflow_runs s1) type_key in
    with_b_workflow_runs <[type_key :=
      if List.existsb (λ r, bool_decide (workflow_id r = workflow_id workflow)) runs then runs
      else runs ++ [workflow]]> s1).

(* @src rustvello-mem/src/state_backend.rs 346-349 MemStateBackend::get_all_workflow_types *)
Definition mem_get_all_workflow_types : BackendOp (list TaskId) := gets b_workflow_types.

(* @src rustvello-mem/src/state_backend.rs 351-361 MemStateBackend::get_workflow_runs *)
Definition mem_get_workflow_runs (wtype : TaskId) : BackendOp (list WorkflowIdentity) :=
  gets (λ s, entries (b_workflow_runs s) (task_id_display wtype)).

(* @src rustvello-mem/src/state_backend.rs 363-369 MemStateBackend::count_workflow_runs *)
Definition mem_count_workflow_runs (wtype : TaskId) : BackendOp nat :=
  gets (λ s, length (entries (b_workflow_runs s) (task_id_display wtype))).

(** Descending order of workflow ids. *)
Definition run_order (a b : WorkflowIdentity) : bool := str_leb (workflow_id b) (workflow_id a).

(* @src rustvello-mem/src/state_backend.rs 371-385 MemStateBackend::get_workflow_runs_paginated *)
Definition mem_get_workflow_runs_paginated (wtype : TaskId) (limit offset : nat)
    : BackendOp (list WorkflowIdentity) :=
  gets (λ s, take limit (drop offset
    (sort_by run_order (entries (b_workflow_runs s) (task_id_display wtype))))).

(* @src rustvello-mem/src/state_backend.rs 387-400 MemStateBackend::set_workflow_data *)
Definition mem_set_workflow_data (wid : InvocationId) (key value : string) : BackendOp unit :=
  modify (with_b_workflow_data (λ m, <[wid := <[key := value]> (default ∅ (m !! wid))]> m)).

(* @src rustvello-mem/src/state_backend.rs 402-412 MemStateBackend::get_workflow_data *)
Definition mem_get_workflow_data (wid : InvocationId) (key : string) : BackendOp (option string) :=
  gets (λ s, b_workflow_data s !! wid ≫= λ m, m !! key).

(* @src rustvello-mem/src/state_backend.rs 414-420 MemStateBackend::store_app_info *)
Definition mem_store_app_info (app_id info_json : string) : BackendOp unit :=
  modify (with_b_app_infos <[app_id := info_json]>).

(* @src rustvello-mem/src/state_backend.rs 422-425 MemStateBackend::get_app_info *)
Definition mem_get_app_info (app_id : string) : BackendOp (option string) :=
  gets (λ s, b_app_infos s !! app_id).

(* @src rustvello-mem/src/state_backend.rs 436-448 MemStateBackend::store_workflow_sub_invocation *)
Definition mem_store_workflow_sub_invocation (wid sub_inv_id : InvocationId) : BackendOp unit :=
  modify (with_b_workflow_sub_invocations (push_entry wid sub_inv_id)).

(* @src rustvello-mem/src/state_backend.rs 450-460 MemStateBackend::get_workflow_sub_invocations *)
Definition mem_get_workflow_sub_invocations (wid : InvocationId) : BackendOp (list InvocationId) :=
  gets (λ s, entries (b_workflow_sub_invocations s) wid).

(** ** Runners *)

(* @src rustvello-mem/src/state_backend.rs 470-476 MemStateBackend::store_runner_context *)
Definition mem_store_runner_context (context : StoredRunnerContext) : BackendOp unit :=
  modify (with_b_runner_contexts <[rc_runner_id context := context]>).

(* @src rustvello-mem/src/state_backend.rs 478-484 MemStateBackend::get_runner_context *)
Definition mem_get_runner_context (runner_id : string) : BackendOp (option StoredRunnerContext) :=
  gets (λ s, b_runner_contexts s !! runner_id).

(** [limit] of 0 means no limit. *)
(* @src rustvello-mem/src/state_backend.rs 499-519 MemStateBackend::get_invocation_ids_by_runner *)
Definition mem_get_invocation_ids_by_runner (runner_id : string) (limit offset : nat)
    : BackendOp (list InvocationId) :=
  gets (λ s,
    match b_runner_invocations s !! runner_id with
    | Some v => if (0 <? limit)%nat then take limit (drop offset v) else drop offset v
    | None => []
    end).

(* @src rustvello-mem/src/state_backend.rs 521-527 MemStateBackend::count_invocations_by_runner *)
Definition mem_count_invocations_by_runner (runner_id : string) : BackendOp nat :=
  gets (λ s, length (entries (b_runner_invocations s) runner_id)).

(** The time an entry is filed under. *)
Definition history_time (h : InvocationHistory) : DateTime :=
  default (rec_timestamp (hist_status_record h)) (hist_timestamp h).

Section hash_ordered.
Context `{HashOrder}.

(* @src rustvello-mem/src/state_backend.rs 427-434 MemStateBackend::get_all_app_infos *)
Definition mem_get_all_app_infos : BackendOp (list (string * string)) :=
  gets (λ s, map_iter (b_app_infos s)).

(* @src rustvello-mem/src/state_backend.rs 462-465 MemStateBackend::get_all_workflow_runs *)
Definition mem_get_all_workflow_runs : BackendOp (list WorkflowIdentity) :=
  gets (λ s, concat (map_iter (b_workflow_runs s)).*2).

(* @src rustvello-mem/src/state_backend.rs 486-497 MemStateBackend::get_runner_contexts_by_parent *)
Definition mem_get_runner_contexts_by_parent (parent : string) : BackendOp (list StoredRunnerContext) :=
  gets (λ s, bfilter (λ ctx, bool_decide (rc_parent_runner_id ctx = Some parent))
               (map_iter (b_runner_contexts s)).*2).

(* @src rustvello-mem/src/state_backend.rs 529-555 MemStateBackend::get_history_in_timerange *)
Definition mem_get_history_in_timerange (start finish : DateTime) (limit offset : nat)
    : BackendOp (list InvocationHistory) :=
  gets (λ s,
    let all := bfilter (λ h, (start <=? history_time h) && (history_time h <=? finish))
                 (concat (map_iter (b_histories s)).*2) in
    let sorted := drop offset (sort_by (λ a b, history_time a <=? history_time b) all) in
    if (0 <? limit)%nat then take limit sorted else sorted).

(* @src rustvello-mem/src/state_backend.rs 557-568 MemStateBackend::get_matching_runner_contexts *)
Definition mem_get_matching_runner_contexts (partial_id : string)
    : BackendOp (list StoredRunnerContext) :=
  gets (λ s, bfilter (λ ctx, str_contains partial_id (rc_runner_id ctx))
               (map_iter (b_runner_contexts s)).*2).
End hash_ordered.

(** ** Well-formed backends *)

Section entries.
Context {A : Type}.
Implicit Types (m : gmap string (list A)) (k : string) (x : A).

Lemma entries_push k x m k' :
  entries (push_entry k x m) k' = if decide (k = k') then entries m k' ++ [x] else entries m k'.
Proof.
  unfold entries, push_entry. case_decide; subst; [by rewrite lookup_insert_eq|by rewrite lookup_insert_ne].
Qed.

Lemma elem_of_entries_push k x m k' y :
  y ∈ entries (push_entry k x m) k' ↔ (k = k' ∧ y = x) ∨ y ∈ entries m k'.
Proof. rewrite entries_push. case_decide; rewrite ?elem_of_app, ?list_elem_of_singleton; naive_solver. Qed.

Lemma NoDup_entries_push k x m :
  (∀ k', NoDup (entries m k')) → (∀ k', x ∉ entries m k') → ∀ k', NoDup (entries (push_entry k x m) k').
Proof.
  intros Hm Hx k'. rewrite entries_push. case_decide; [|done]. apply list.NoDup_app.
  split_and!; [done| |apply NoDup_singleton]. intros y Hy ->%list_elem_of_singleton. by destruct (Hx k').
Qed.

Lemma entries_empty k : entries (∅ : gmap string (list A)) k = [].
Proof. unfold entries. by rewrite lookup_empty. Qed.
End entries.

Lemma entries_push_once k x m k' :
  entries (push_once k x m) k' =
    if decide (k = k' ∧ x ∉ entries m k') then entries m k' ++ [x] else entries m k'.
Proof.
  unfold push_once. destruct (decide (x ∈ entries m k)) as [Hin|Hin].
  - rewrite decide_False by naive_solver. unfold entries at 1.
    destruct (decide (k = k')) as [->|]; [by rewrite lookup_insert_eq|by rewrite lookup_insert_ne].
  - rewrite entries_push. repeat case_decide; naive_solver.
Qed.

Lemma elem_of_push_once k x m k' y :
  y ∈ entries (push_once k x m) k' ↔ (k = k' ∧ y = x) ∨ y ∈ entries m k'.
Proof.
  rewrite entries_push_once. case_decide as Hc.
  - rewrite elem_of_app, list_elem_of_singleton. naive_solver.
  - split; [by right|]. intros [[-> ->]|?]; [|done].
    destruct (decide (x ∈ entries m k')); naive_solver.
Qed.

Lemma NoDup_push_once k x m k' :
  NoDup (entries m k') → NoDup (entries (push_once k x m) k').
Proof.
  intros Hm. rewrite entries_push_once. case_decide as Hc; [|done]. apply list.NoDup_app.
  split_and!; [done| |apply NoDup_singleton]. intros y Hy ->%list_elem_of_singleton. naive_solver.
Qed.

(** Index lists have no duplicates and name stored invocations; the runs of a
    type are distinct and of that type, and every type with runs is listed
    once; a runner's invocations are those with a history entry. *)
Record backend_wf (s : BackendState) : Prop := {
  bw_key : ∀ id i, b_invocations s !! id = Some i → inv_id i = id;
  bw_members : ∀ w, NoDup (entries (b_workflow_members s) w);
  bw_members_stored : ∀ w id, id ∈ entries (b_workflow_members s) w → is_Some (b_invocations s !! id);
  bw_children : ∀ p, NoDup (entries (b_children s) p);
  bw_children_stored : ∀ p id, id ∈ entries (b_children s) p → is_Some (b_invocations s !! id);
  bw_runner : ∀ r, NoDup (entries (b_runner_invocations s) r);
  bw_runner_history : ∀ r id, id ∈ entries (b_runner_invocations s) r ↔
    ∃ h, h ∈ entries (b_histories s) id ∧ history_runner h = Some r;
  bw_history_key : ∀ id h, h ∈ entries (b_histories s) id → hist_invocation_id h = id;
  bw_runs : ∀ k, NoDup (workflow_id <$> entries (b_workflow_runs s) k);
  bw_runs_type : ∀ k r, r ∈ entries (b_workflow_runs s) k → task_id_display (workflow_type r) = k;
  bw_types : NoDup (task_id_display <$> b_workflow_types s);
  bw_types_listed : ∀ k, entries (b_workflow_runs s) k ≠ [] → k ∈ task_id_display <$> b_workflow_types s
}.

Lemma backend_wf_new : backend_wf backend_new.
Proof.
  split; simpl; try (intros *; rewrite ?entries_empty, ?lookup_empty); try (by constructor); try set_solver.
Qed.

Lemma upsert_index_fields i s :
  let s' := index_new_invocation i s in
  b_invocations s' = b_invocations s ∧ b_histories s' = b_histories s ∧
  b_runner_invocations s' = b_runner_invocations s ∧ b_workflow_runs s' = b_workflow_runs s ∧
  b_workflow_types s' = b_workflow_types s ∧
  b_workflow_members s' = match inv_workflow i with
    | Some w => push_entry (workflow_id w) (inv_id i) (b_workflow_members s)
    | None => b_workflow_members s end ∧
  b_children s' = match inv_parent i with
    | Some p => push_entry p (inv_id i) (b_children s) | None => b_children s end.
Proof. unfold index_new_invocation. by destruct (inv_workflow i), (inv_parent i). Qed.

Lemma backend_wf_upsert i call s :
  backend_wf s →
  backend_wf (store_invocation i call
    (if bool_decide (b_invocations s !! inv_id i = None) then index_new_invocation i s else s)).
Proof.
  intros Hwf. pose proof Hwf as []. destruct (upsert_index_fields i s) as (E1&E2&E3&E4&E5&E6&E7).
  case_bool_decide as Hnew.
  - assert (∀ w, inv_id i ∉ entries (b_workflow_members s) w) as Hm.
    { intros w [? Hin]%bw_members_stored0. congruence. }
    assert (∀ w, inv_id i ∉ entries (b_children s) w) as Hc.
    { intros w [? Hin]%bw_children_stored0. congruence. }
    split; simpl; rewrite ?E1, ?E2, ?E3, ?E4, ?E5, ?E6, ?E7; try done.
    + intros id j. rewrite lookup_insert_Some. naive_solver.
    + destruct (inv_workflow i); [by apply NoDup_entries_push|done].
    + intros w id Hin. apply lookup_insert_is_Some'.
      destruct (inv_workflow i); [apply elem_of_entries_push in Hin as [[_ ->]|?]|]; eauto.
    + destruct (inv_parent i); [by apply NoDup_entries_push|done].
    + intros w id Hin. apply lookup_insert_is_Some'.
      destruct (inv_parent i); [apply elem_of_entries_push in Hin as [[_ ->]|?]|]; eauto.
  - split; simpl; try done.
    + intros id j. rewrite lookup_insert_Some. naive_solver.
    + intros w id Hin. apply lookup_insert_is_Some'. eauto.
    + intros w id Hin. apply lookup_insert_is_Some'. eauto.
Qed.

Lemma backend_wf_history h c s : backend_wf s → backend_wf (state_after (mem_add_history h) c s).
Proof.
  intros Hwf. pose proof Hwf as []. unfold state_after, mem_add_history, modify. simpl.
  destruct (history_runner h) as [r|] eqn:Hr; split; simpl; try done.
  - intros r'. by apply NoDup_push_once.
  - intros r' id. rewrite elem_of_push_once. setoid_rewrite elem_of_entries_push.
    rewrite bw_runner_history0. split.
    + intros [[-> ->]|(h' & ? & ?)]; [exists h; auto|exists h'; auto].
    + intros (h' & [[? ->]|?] & Hh'); [left; split; congruence|right; eauto].
  - intros id h'. rewrite elem_of_entries_push. naive_solver.
  - intros r' id. setoid_rewrite elem_of_entries_push. rewrite bw_runner_history0. split.
    + intros (h' & ? & ?). exists h'; auto.
    + intros (h' & [[? ->]|?] & Hh'); [congruence|eauto].
  - intros id h'. rewrite elem_of_entries_push. naive_solver.
Qed.

Lemma existsb_bool_decide {A B} `{EqDecision B} (f : A → B) b l :
  List.existsb (λ x, bool_decide (f x = b)) l = bool_decide (b ∈ f <$> l).
Proof.
  induction l as [|x l IH]; [done|]. cbn [List.existsb]. rewrite IH.
  repeat case_bool_decide; set_solver.
Qed.

Lemma entries_insert {A} k (l : list A) m k' :
  entries (<[k := l]> m) k' = if decide (k = k') then l else entries m k'.
Proof. unfold entries. case_decide; subst; [by rewrite lookup_insert_eq|by rewrite lookup_insert_ne]. Qed.

Lemma backend_wf_store_run w c s : backend_wf s → backend_wf (state_after (mem_store_workflow_run w) c s).
Proof.
  intros Hwf. pose proof Hwf as []. unfold state_after, mem_store_workflow_run, modify. simpl.
  rewrite !existsb_bool_decide.
  set (k := task_id_display (workflow_type w)) in *.
  set (s1 := if bool_decide _ then s else _).
  assert (b_workflow_runs s1 = b_workflow_runs s) as Hs1 by (unfold s1; by case_bool_decide).
  assert (NoDup (task_id_display <$> b_workflow_types s1) ∧
          ∀ k', k' ∈ task_id_display <$> b_workflow_types s1 ↔
                k' = k ∨ k' ∈ task_id_display <$> b_workflow_types s) as [Ht1 Ht2].
  { unfold s1. case_bool_decide as Hk; simpl; [naive_solver|]. rewrite fmap_app. split.
    - apply list.NoDup_app. split_and!; [done| |apply NoDup_singleton]. set_solver.
    - intros k'. rewrite elem_of_app. simpl. rewrite list_elem_of_singleton. naive_solver. }
  rewrite Hs1.
  assert (b_invocations s1 = b_invocations s ∧ b_workflow_members s1 = b_workflow_members s ∧
    b_children s1 = b_children s ∧ b_runner_invocations s1 = b_runner_invocations s ∧
    b_histories s1 = b_histories s) as (E1&E2&E3&E4&E5) by (unfold s1; by case_bool_decide).
  split; simpl; rewrite ?E1, ?E2, ?E3, ?E4, ?E5, ?Hs1; try done.
  - intros k'. rewrite entries_insert. case_decide; [subst k'|done].
    case_bool_decide as Hin; [done|]. rewrite fmap_app. apply list.NoDup_app.
    split_and!; [done| |apply NoDup_singleton]. set_solver.
  - intros k' r. rewrite entries_insert. case_decide; [subst k'|by auto].
    case_bool_decide; [by auto|]. rewrite elem_of_app, list_elem_of_singleton. intros [?| ->]; auto.
  - intros k'. rewrite entries_insert, Ht2. case_decide; [by left|]. auto.
Qed.

(** The calls that change the backend. *)
Inductive backend_op :=
| BUpsert (i : InvocationDTO) (c : CallDTO)
| BStoreResult (id : InvocationId) (result : string)
| BStoreError (id : InvocationId) (e : TaskError)
| BAddHistory (h : InvocationHistory)
| BStoreRun (w : WorkflowIdentity)
| BSetWorkflowData (w : InvocationId) (key value : string)
| BStoreAppInfo (app info : string)
| BStoreSubInvocation (w sub : InvocationId)
| BStoreRunnerContext (ctx : StoredRunnerContext)
| BPurge.

Definition run_backend_op (op : backend_op) : M RustvelloError BackendState unit :=
  match op with
  | BUpsert i c => mem_upsert_invocation i c
  | BStoreResult id r => mem_store_result id r
  | BStoreError id e => mem_store_error id e
  | BAddHistory h => mem_add_history h
  | BStoreRun w => mem_store_workflow_run w
  | BSetWorkflowData w k v => mem_set_workflow_data w k v
  | BStoreAppInfo a i => mem_store_app_info a i
  | BStoreSubInvocation w x => mem_store_workflow_sub_invocation w x
  | BStoreRunnerContext ctx => mem_store_runner_context ctx
  | BPurge => mem_backend_purge
  end.

Definition backend_step (s s' : BackendState) : Prop :=
  ∃ op c, s' = state_after (run_backend_op op) c s.

Lemma backend_wf_run op : respects (keeps backend_wf) (run_backend_op op).
Proof.
  intros c s Hwf. destruct op; simpl; try (destruct Hwf; by split).
  - by apply backend_wf_upsert.
  - by apply backend_wf_history.
  - by apply backend_wf_store_run.
  - apply backend_wf_new.
Qed.

Lemma backend_reachable_wf s : rtc backend_step backend_new s → backend_wf s.
Proof.
  intros Hr. pose proof backend_wf_new as Hnew.
  induction Hr as [|x y z (op&c&->) _ IH]; [done|]. apply IH. by apply backend_wf_run.
Qed.

(** ** The history only grows *)

Definition history_grows (s s' : BackendState) : Prop :=
  ∀ id, entries (b_histories s) id `prefix_of` entries (b_histories s') id.

#[export] Instance history_grows_preorder : PreOrder history_grows.
Proof.
  split; [intros s id; reflexivity|]. intros s1 s2 s3 H1 H2 id. etrans; [apply H1|apply H2].
Qed.

Lemma history_grows_same s s' : b_histories s' = b_histories s → history_grows s s'.
Proof. intros He id. by rewrite He. Qed.

Lemma history_grows_add h : respects history_grows (mem_add_history h).
Proof.
  intros c s id. unfold state_after, mem_add_history, modify.
  assert (∀ s0, entries (b_histories (with_b_histories (push_entry (hist_invocation_id h) h) s0)) id =
    entries (push_entry (hist_invocation_id h) h (b_histories s0)) id) as Hs0 by done.
  cbn [snd]. rewrite Hs0, entries_push.
  assert (b_histories match history_runner h with
    | Some r => with_b_runner_invocations (push_once r (hist_invocation_id h)) s
    | None => s end = b_histories s) as -> by by destruct (history_runner h).
  case_decide; [by apply prefix_app_r|done].
Qed.

Lemma history_grows_upsert i call : respects history_grows (mem_upsert_invocation i call).
Proof.
  intros c s. apply history_grows_same. unfold state_after, mem_upsert_invocation, modify. simpl.
  case_bool_decide; [|done]. apply (upsert_index_fields i s).
Qed.

Lemma history_grows_store_run w : respects history_grows (mem_store_workflow_run w).
Proof.
  intros c s. apply history_grows_same. unfold state_after, mem_store_workflow_run, modify. simpl.
  by destruct (List.existsb _ (b_workflow_types s)).
Qed.

(** ** Workflow runs in descending order *)

Definition run_ge : relation WorkflowIdentity := le_of run_order.

#[local] Instance run_ge_total : Total run_ge.
Proof. intros a b. destruct (str_le_total (workflow_id a) (workflow_id b)); [by right|by left]. Qed.

#[local] Instance run_ge_trans : Transitive run_ge.
Proof. intros a b c H1 H2. unfold run_ge, le_of, run_order in *. by eapply str_le_trans. Qed.

Lemma no_match (x : WorkflowIdentity) l :
  Forall (run_ge x) l → List.filter (λ r, str_gtb (workflow_id r) (workflow_id x)) l = [].
Proof.
  unfold str_gtb. induction 1 as [|r l Hr _ IH]; [done|]. simpl.
  unfold run_ge, le_of, run_order in Hr. by rewrite Hr.
Qed.

(** In a sorted list without duplicate ids, the ids greater than a member's are
    those before it. *)
Lemma greater_before (l1 l2 : list WorkflowIdentity) x :
  StronglySorted run_ge (l1 ++ x :: l2) → NoDup (workflow_id <$> l1 ++ x :: l2) →
  bfilter (λ r, str_gtb (workflow_id r) (workflow_id x)) (l1 ++ x :: l2) = l1.
Proof.
  induction l1 as [|y l1 IH]; intros Hs Hnd; unfold bfilter in *; simpl in *.
  - inversion_clear Hs as [|? ? _ Hall]. unfold str_gtb.
    assert (str_leb (workflow_id x) (workflow_id x) = true) as -> by (by destruct (str_le_total (workflow_id x) (workflow_id x))).
    simpl. apply (no_match x l2 Hall).
  - inversion_clear Hs as [|? ? Hs' Hall]. inversion_clear Hnd as [|? ? Hy Hnd'].
    rewrite IH by done. apply Forall_app, proj2, Forall_inv in Hall as Hyx.
    unfold str_gtb. destruct (str_leb (workflow_id y) (workflow_id x)) eqn:E; [|done]. exfalso.
    apply Hy. rewrite fmap_app. simpl.
    assert (workflow_id y = workflow_id x) as -> by by apply (anti_symm str_le). set_solver.
Qed.

Lemma existsb_run_elem w l :
  List.existsb (λ run, bool_decide (workflow_id run = w)) l = true ↔ w ∈ workflow_id <$> l.
Proof. by rewrite existsb_bool_decide, bool_decide_eq_true. Qed.

(** ** Properties *)

(** From an empty backend, whatever calls are made in whatever order, the
    indexes of the in-memory state backend stay well formed: workflow members
    and children are listed once and are stored invocations, a runner's list
    holds exactly the invocations with a history entry of that runner, runs are
    listed once, under their type, and every type with a run is listed once. *)
Theorem backend_indexes_well_formed s :
  rtc backend_step backend_new s → backend_wf s.
Proof. apply backend_reachable_wf. Qed.

(** The history of an invocation is append-only: no call but purge removes
    or changes an entry of any invocation; recording an entry puts it at the
    end of its own invocation's history and leaves the other histories alone,
    and reading returns the entries in that order. *)
Theorem history_is_append_only :
  (∀ op c s id, op ≠ BPurge →
     entries (b_histories s) id `prefix_of`
       entries (b_histories (state_after (run_backend_op op) c s)) id) ∧
  (∀ h c s id,
     result_of (mem_get_history id) c (state_after (mem_add_history h) c s) =
       Ok (entries (b_histories s) id ++
             if bool_decide (hist_invocation_id h = id) then [h] else [])).
Proof.
  split.
  - intros op c s id Hop. revert id. change (history_grows s (state_after (run_backend_op op) c s)).
    destruct op; simpl; try done; try (by apply history_grows_same).
    + apply history_grows_upsert.
    + apply history_grows_add.
    + apply history_grows_store_run.
  - intros h c s id. unfold result_of, mem_get_history, gets. cbn [fst]. f_equal.
    unfold state_after, mem_add_history, modify. cbn [snd].
    destruct (history_runner h); cbn [b_histories with_b_histories with_b_runner_invocations];
      rewrite entries_push; case_bool_decide; case_decide; simplify_eq; by rewrite ?app_nil_r.
Qed.

(** The offset reported for a workflow run is its place in the paginated
    listing: asking for one run at that offset returns that run, the offset is
    below the number of runs, and no offset is reported exactly when the type
    has no run with that id. *)
Theorem workflow_run_offset_is_its_place c s t w :
  rtc backend_step backend_new s →
  match result_of (mem_get_workflow_run_offset t w) c s with
  | Ok (Some n) =>
      (∃ r, result_of (mem_get_workflow_runs_paginated t 1 n) c s = Ok [r] ∧ workflow_id r = w) ∧
      ∃ k, result_of (mem_count_workflow_runs t) c s = Ok k ∧ (n < k)%nat
  | Ok None => w ∉ workflow_id <$> entries (b_workflow_runs s) (task_id_display t)
  | _ => False
  end.
Proof.
  intros Hs. apply backend_reachable_wf in Hs. pose proof (bw_runs s Hs (task_id_display t)) as Hnd.
  unfold result_of, mem_get_workflow_run_offset, mem_get_workflow_runs_paginated,
    mem_count_workflow_runs, gets. cbn [fst].
  unfold entries in *. destruct (b_workflow_runs s !! task_id_display t) as [runs|]; simpl in *; [|set_solver].
  destruct (List.existsb _ runs) eqn:Hex; [|intros Hin%existsb_run_elem; congruence].
  apply existsb_run_elem, list_elem_of_fmap in Hex as (r & -> & Hr).
  pose proof (sort_by_perm run_order runs) as Hp.
  apply elem_of_sort_by with (leb := run_order), list_elem_of_split in Hr as (l1 & l2 & Hl).
  assert (bfilter (λ run, str_gtb (workflow_id run) (workflow_id r)) runs ≡ₚ l1) as Hf.
  { rewrite <- Hp, Hl. erewrite greater_before; [done| |].
    - rewrite <- Hl. apply Sorted_StronglySorted; [apply _|]. apply sort_by_sorted, _.
    - rewrite <- Hl. by rewrite Hp. }
  rewrite (Permutation_length Hf). split.
  - exists r. rewrite Hl, drop_app_length. done.
  - eexists. split; [done|]. rewrite <- Hp, Hl, length_app. simpl. lia.
Qed.

(** A workflow task with two runs. *)
Definition demo_workflow_type : TaskId := mkTaskId Rust "appflow" 3.
Definition demo_runs : BackendState :=
  state_after (mem_store_workflow_run (workflow_root "w1" demo_workflow_type);;
               mem_store_workflow_run (workflow_root "w2" demo_workflow_type))
    (frozen_clock 0) backend_new.

Lemma demo_runs_reachable : rtc backend_step backend_new demo_runs.
Proof.
  eapply rtc_l; [|apply rtc_once].
  - by exists (BStoreRun (workflow_root "w1" demo_workflow_type)), (frozen_clock 0).
  - by exists (BStoreRun (workflow_root "w2" demo_workflow_type)), (frozen_clock 0).
Qed.

Lemma backend_indexes_well_formed_witness :
  length (b_workflow_types demo_runs) = 1%nat ∧ backend_wf demo_runs.
Proof.
  split; [reflexivity|]. apply backend_indexes_well_formed. exact demo_runs_reachable.
Defined.

Lemma history_is_append_only_witness :
  let h := history_new "i1" (mkRecord Registered None 5) None in
  BAddHistory h ≠ BPurge ∧
  result_of (mem_get_history "i1") (frozen_clock 0) (state_after (mem_add_history h) (frozen_clock 0) demo_runs)
    = Ok ([] ++ [h]).
Proof. intros h. split; [discriminate|]. exact (proj2 history_is_append_only h (frozen_clock 0) demo_runs "i1"). Defined.

Lemma workflow_run_offset_is_its_place_witness :
  result_of (mem_get_workflow_run_offset demo_workflow_type "w1") (frozen_clock 0) demo_runs = Ok (Some 1%nat) ∧
  ∃ r, result_of (mem_get_workflow_runs_paginated demo_workflow_type 1 1) (frozen_clock 0) demo_runs = Ok [r] ∧
       workflow_id r = "w1".
Proof.
  split; [vm_compute; reflexivity|].
  exact (proj1 (workflow_run_offset_is_its_place (frozen_clock 0) demo_runs demo_workflow_type "w1"
           demo_runs_reachable)).
Defined.
