(* ===== verification/Workflow.v ===== *)
(** * Deterministic workflow replay

    Models [rustvello-core/src/workflow.rs]: the operations a workflow root may use
    (random numbers, timestamps, UUIDs), whose values are derived from the workflow
    and stored, so that a replay of the workflow sees the values of the first run.

    The theorems: a replay, from any point where an earlier run stopped and with
    operations that fail in between, returns the value that belongs to the place of
    the operation; the first run fixes the base time once; only the defining
    invocation of a workflow gets the handle; and the largest seeds give the random
    number one, outside the documented range. *)
From stdpp Require Import pretty.
From S2P Require Import Prelude F64 Effects Identifiers Errors Config Call Invocation Trigger MemStateBackend.

(** [DateTime + Duration] panics ([None]) out of range. *)
Class ChronoAfter `{Chrono} := {
  after : DateTime → Duration → option DateTime;
  after_seconds n d t : seconds n = Some d →
    after t d = if bool_decide (datetime_min ≤ t + n * 1000000000 ≤ datetime_max)
                then Some (t + n * 1000000000) else None
}.

(** [DateTime::parse_from_rfc3339] reads what [to_rfc3339] writes for a year of four
    digits. *)
Class Rfc3339Parse `{Rfc3339} := {
  parse_from_rfc3339 : string → option DateTime;
  parse_rfc3339 t : - 62167219200 * 1000000000 ≤ t < 253402300800 * 1000000000 →
    parse_from_rfc3339 (to_rfc3339 t) = Some t
}.

(** [f64::to_string]; [uuid::Uuid::from_bytes(..).to_string()]. *)
Class FloatText := { f64_display : f64 → string }.
Class UuidText := { uuid_display : list Z → string }.

(** What the executor uses of the state backend: a map of texts per workflow.  Any
    operation may fail; a failed write may or may not have happened. *)
Class WorkflowStore (S : Type) := {
  ws_data : S → InvocationId → string → option string;
  ws_get : InvocationId → string → M RustvelloError S (option string);
  ws_set : InvocationId → string → string → M RustvelloError S unit;
  ws_get_reads w k c s :
    (∀ w' k', ws_data (state_after (ws_get w k) c s) w' k' = ws_data s w' k') ∧
    ∀ o, result_of (ws_get w k) c s = Ok o → o = ws_data s w k;
  ws_set_writes w k v c s :
    (∀ w' k', ws_data (state_after (ws_set w k v) c s) w' k' = ws_data s w' k' ∨
       w' = w ∧ k' = k ∧ ws_data (state_after (ws_set w k v) c s) w' k' = Some v) ∧
    (result_of (ws_set w k v) c s = Ok tt → ws_data (state_after (ws_set w k v) c s) w k = Some v)
}.

(** ** The executor *)

(** The store and the operation counters of one executor. *)
(* @src rustvello-core/src/workflow.rs 94-98 DeterministicExecutor *)
Record Replay (S : Type) := mkReplay {
  rp_store : S;
  rp_counters : gmap string Z
}.
#[global] Arguments mkReplay {S}.
#[global] Arguments rp_store {S}.
#[global] Arguments rp_counters {S}.

(* @src rustvello-core/src/workflow.rs 102-108 DeterministicExecutor::new *)
Definition executor_new {S} (s : S) : Replay S := mkReplay s ∅.

Section executor.
Context {S : Type} {WS : WorkflowStore S} `{Chrono} `{!ChronoAfter} `{Rfc3339} `{!Rfc3339Parse}
  `{Sha256} `{FloatText} `{ParseF64} `{UuidText}.

Definition on_store {A} (m : M RustvelloError S A) : M RustvelloError (Replay S) A :=
  zoom rp_store (λ s r, mkReplay s (rp_counters r)) m.

(** [+] on [u64] in the release profile. *)
Definition u64_wrapping_add (a b : Z) : Z := (a + b) mod 18446744073709551616.

(* @src rustvello-core/src/workflow.rs 111-118 DeterministicExecutor::get_next_sequence *)
Definition get_next_sequence (operation : string) : M RustvelloError (Replay S) Z :=
  r ← get;
  let counter := u64_wrapping_add (default 0 (rp_counters r !! operation)) 1 in
  modify (λ r, mkReplay (rp_store r) (<[operation := counter]> (rp_counters r)));;
  mret counter.

(* @src rustvello-core/src/workflow.rs 121-123 DeterministicExecutor::get_operation_count *)
Definition get_operation_count (operation : string) : M RustvelloError (Replay S) Z :=
  gets (λ r, default 0 (rp_counters r !! operation)).

Definition operation_key (operation : string) (sequence : Z) : string :=
  operation +:+ ":" +:+ pretty sequence.
Definition total_count_key (operation : string) : string := "counter:" +:+ operation.

(** The generator may panic ([None]). *)
(* @src rustvello-core/src/workflow.rs 130-177 DeterministicExecutor::deterministic_operation *)
Definition deterministic_operation (w : InvocationId) (operation : string) (generator : option string)
    : M RustvelloError (Replay S) string :=
  sequence ← get_next_sequence operation;
  stored ← on_store (ws_get w (operation_key operation sequence));
  match stored with
  | Some value => mret value
  | None =>
      value ← unwrap_or_panic generator "DateTime + Duration overflowed";
      on_store (ws_set w (operation_key operation sequence) value);;
      total ← on_store (ws_get w (total_count_key operation));
      on_store (ws_set w (total_count_key operation)
        (pretty (Z.max (default 0 (total ≫= parse_uint u64_max)) sequence)));;
      mret value
  end.

Definition base_time_key : string := "workflow:base_time".

(** A text that does not parse is replaced by the current time. *)
Definition parsed_or_now (text : string) : M RustvelloError (Replay S) DateTime :=
  match parse_from_rfc3339 text with
  | Some t => mret t
  | None => utc_now
  end.

(* @src rustvello-core/src/workflow.rs 180-198 DeterministicExecutor::get_base_time *)
Definition get_base_time (w : InvocationId) : M RustvelloError (Replay S) DateTime :=
  stored ← on_store (ws_get w base_time_key);
  match stored with
  | Some text => parsed_or_now text
  | None =>
      base_time ← utc_now;
      on_store (ws_set w base_time_key (to_rfc3339 base_time));;
      mret base_time
  end.

(** [u64::from_le_bytes]. *)
Fixpoint u64_from_le_bytes (bytes : list Z) : Z :=
  match bytes with
  | [] => 0
  | b :: rest => b + 256 * u64_from_le_bytes rest
  end.

Definition random_seed (w : InvocationId) (seq : Z) : Z :=
  u64_from_le_bytes (take 8 (sha256 (str_bytes (w +:+ ":random:" +:+ pretty seq)))).

Definition random_of_seed (seed : Z) : f64 := f64_div (f64_of_u64 seed) (f64_of_u64 u64_max).

(* @src rustvello-core/src/workflow.rs 201-221 DeterministicExecutor::random *)
Definition random (w : InvocationId) : M RustvelloError (Replay S) f64 :=
  count ← get_operation_count "random";
  let seq := u64_wrapping_add count 1 in
  value_str ← deterministic_operation w "random" (Some (f64_display (random_of_seed (random_seed w seq))));
  mret (default 0 (parse_f64 value_str)).

(** [seq as i64]. *)
Definition i64_of_u64 (n : Z) : Z := if n <=? i64_max then n else n - 18446744073709551616.

Definition time_value (base seq : Z) : option string :=
  d ← seconds (i64_of_u64 seq); t ← after base d; Some (to_rfc3339 t).

(* @src rustvello-core/src/workflow.rs 224-238 DeterministicExecutor::utc_now *)
Definition workflow_utc_now (w : InvocationId) : M RustvelloError (Replay S) DateTime :=
  base_time ← get_base_time w;
  count ← get_operation_count "time";
  let seq := u64_wrapping_add count 1 in
  value_str ← deterministic_operation w "time" (time_value base_time seq);
  parsed_or_now value_str.

(** The version and variant bits of a UUID. *)
Definition uuid_bytes (hash : list Z) : list Z :=
  imap (λ i b, if decide (i = 6%nat) then Z.lor (Z.land b 0x0f) 0x40
               else if decide (i = 8%nat) then Z.lor (Z.land b 0x3f) 0x80 else b) (take 16 hash).

Definition uuid_value (w : InvocationId) (seq : Z) : string :=
  uuid_display (uuid_bytes (sha256 (str_bytes (w +:+ ":uuid:" +:+ pretty seq)))).

(* @src rustvello-core/src/workflow.rs 241-259 DeterministicExecutor::uuid *)
Definition uuid (w : InvocationId) : M RustvelloError (Replay S) string :=
  count ← get_operation_count "uuid";
  let seq := u64_wrapping_add count 1 in
  deterministic_operation w "uuid" (Some (uuid_value w seq)).
End executor.

(** ** The root handle *)

(** What [WorkflowRoot::current] reads of the invocation context. *)
(* @src rustvello-core/src/context.rs 57-75 InvocationContext *)
Record RootContext := mkRootContext {
  rc_invocation_id : InvocationId;
  rc_workflow : option WorkflowIdentity;
  rc_is_workflow_defining : bool;
  rc_has_state_backend : bool
}.

(** The workflow whose executor the handle gets. *)
(* @src rustvello-core/src/workflow.rs 25-48 WorkflowRoot::current *)
Definition workflow_root_current (ctx : option RootContext) : RustvelloResult InvocationId :=
  ctx ← ok_or ctx EWorkflowContextUnavailable;
  workflow ← ok_or (rc_workflow ctx) (EWorkflowMembershipRequired (rc_invocation_id ctx));
  if negb (rc_is_workflow_defining ctx) || negb (bool_decide (workflow_id workflow = rc_invocation_id ctx))
  then Err (EWorkflowRootRequired (rc_invocation_id ctx) (workflow_id workflow))
  else if rc_has_state_backend ctx then Ok (workflow_id workflow)
  else Err EWorkflowContextUnavailable.

(** ** Replays *)

Inductive workflow_op := OpRandom | OpTime | OpUuid.

Inductive workflow_value :=
| ValRandom (x : f64)
| ValTime (t : DateTime)
| ValUuid (u : string).

Definition op_name (op : workflow_op) : string :=
  match op with OpRandom => "random" | OpTime => "time" | OpUuid => "uuid" end.

#[export] Instance workflow_op_eq_dec : EqDecision workflow_op.
Proof. solve_decision. Defined.

Section replay.
Context {S : Type} {WS : WorkflowStore S} `{Chrono} `{!ChronoAfter} `{Rfc3339} `{!Rfc3339Parse}
  `{Sha256} `{FloatText} `{ParseF64} `{UuidText}.
Context (w : InvocationId).
Implicit Types (r : Replay S).

Definition run_workflow_op (op : workflow_op) : M RustvelloError (Replay S) workflow_value :=
  match op with
  | OpRandom => x ← random w; mret (ValRandom x)
  | OpTime => t ← workflow_utc_now w; mret (ValTime t)
  | OpUuid => u ← uuid w; mret (ValUuid u)
  end.

(** A workflow that goes on when an operation fails. *)
Definition run_workflow_ops (ops : list workflow_op)
    : M RustvelloError (Replay S) (list (workflow_value + RustvelloError)) :=
  for_fold (λ acc op, v ← attempt (run_workflow_op op); mret (acc ++ [v])) [] ops.

(** The text and the value of the [seq]-th operation of a kind. *)
Definition canonical_text (base : DateTime) (op : workflow_op) (seq : Z) : option string :=
  match op with
  | OpRandom => Some (f64_display (random_of_seed (random_seed w seq)))
  | OpTime => time_value base seq
  | OpUuid => Some (uuid_value w seq)
  end.

Definition canonical (base : DateTime) (op : workflow_op) (seq : Z) : workflow_value :=
  match op with
  | OpRandom => ValRandom (default 0 (parse_f64 (f64_display (random_of_seed (random_seed w seq)))))
  | OpTime => ValTime (base + seq * 1000000000)
  | OpUuid => ValUuid (uuid_value w seq)
  end.

(** The data of a workflow whose base time is fixed: every stored value is the one
    of its place, however far earlier runs came. *)
Record settled (base : DateTime) (s : S) : Prop := {
  se_base : ws_data s w base_time_key = Some (to_rfc3339 base);
  se_values op seq v : ws_data s w (operation_key (op_name op) seq) = Some v →
    canonical_text base op seq = Some v
}.

Definition count_of r (op : workflow_op) : Z := default 0 (rp_counters r !! op_name op).

(** [n] operations after [base] are within the years of four digits. *)
Definition in_years (base n : Z) : Prop :=
  - 62167219200 * 1000000000 ≤ base ∧ base + n * 1000000000 < 253402300800 * 1000000000.

Lemma key_inj op op' seq seq' :
  operation_key (op_name op) seq = operation_key (op_name op') seq' → op = op' ∧ seq = seq'.
Proof.
  unfold operation_key. destruct op, op'; simpl; intros [=]; (split; [done|]); by apply (inj pretty).
Qed.

Lemma key_not_base op seq : operation_key (op_name op) seq ≠ base_time_key.
Proof. by destruct op. Qed.

Lemma key_not_total op op' seq : operation_key (op_name op) seq ≠ total_count_key op'.
Proof. by destruct op. Qed.

Lemma base_not_total op : base_time_key ≠ total_count_key op.
Proof. done. Qed.

(** A write of a value at its place keeps the data settled, whether or not it
    happens; so does a write beside the values. *)
Lemma settled_write base s s' k v :
  settled base s →
  (∀ w' k', ws_data s' w' k' = ws_data s w' k' ∨ w' = w ∧ k' = k ∧ ws_data s' w' k' = Some v) →
  (k = base_time_key → v = to_rfc3339 base) →
  (∀ op seq, k = operation_key (op_name op) seq → canonical_text base op seq = Some v) →
  settled base s'.
Proof.
  intros [Hb Hv] Hw Hbase Hval. split.
  - destruct (Hw w base_time_key) as [->|(_ & Hk & ->)]; [done|]. by rewrite Hbase.
  - intros op seq x. destruct (Hw w (operation_key (op_name op) seq)) as [->|(_ & Hk & ->)]; [apply Hv|].
    intros [= <-]. by apply Hval.
Qed.

Definition inv (base : DateTime) (counters : gmap string Z) (r : Replay S) : Prop :=
  settled base (rp_store r) ∧ rp_counters r = counters.

Lemma get_keeps base C k :
  triple (inv base C) (on_store (ws_get w k))
    (λ res r, inv base C r ∧ ∀ o, res = Ok o → o = ws_data (rp_store r) w k).
Proof.
  intros c r [Hs HC]. destruct (ws_get_reads w k c (rp_store r)) as [Hsame Hres].
  unfold result_of, state_after, on_store, zoom in *. destruct (ws_get w k c (rp_store r)) as [[res c'] s'].
  simpl in *. split; [split; [|done]|].
  - split; intros; rewrite ?Hsame in *; by apply Hs.
  - intros o Ho. by rewrite Hsame, (Hres o Ho).
Qed.

Lemma set_keeps base C k v :
  (k = base_time_key → v = to_rfc3339 base) →
  (∀ op seq, k = operation_key (op_name op) seq → canonical_text base op seq = Some v) →
  triple (inv base C) (on_store (ws_set w k v)) (λ _, inv base C).
Proof.
  intros Hb Hv c r [Hs HC]. destruct (ws_set_writes w k v c (rp_store r)) as [Hw _].
  unfold result_of, state_after, on_store, zoom in *. destruct (ws_set w k v c (rp_store r)) as [[res c'] s'].
  simpl in *. split; [|done]. by apply (settled_write base (rp_store r) s' k v).
Qed.

Lemma triple_ret {A} (P : Replay S → Prop) (a : A) :
  triple P (mret a) (λ res r, res = Ok (E := RustvelloError) a ∧ P r).
Proof. intros c r Hr. by split. Qed.

(** The part of an operation after its number is drawn. *)
Definition numbered_operation (operation : string) (generator : option string) (sequence : Z)
    : M RustvelloError (Replay S) string :=
  stored ← on_store (ws_get w (operation_key operation sequence));
  match stored with
  | Some value => mret value
  | None =>
      value ← unwrap_or_panic generator "DateTime + Duration overflowed";
      on_store (ws_set w (operation_key operation sequence) value);;
      total ← on_store (ws_get w (total_count_key operation));
      on_store (ws_set w (total_count_key operation)
        (pretty (Z.max (default 0 (total ≫= parse_uint u64_max)) sequence)));;
      mret value
  end.

Lemma numbered_triple base C op seq :
  triple (inv base C) (numbered_operation (op_name op) (canonical_text base op seq) seq) (λ res r,
    inv base C r ∧ ∀ v, res = Ok v → canonical_text base op seq = Some v).
Proof.
  unfold numbered_operation. eapply triple_bind; [apply get_keeps| |by intros e r [? _]|by intros e r [? _]].
  intros [value|]; simpl.
  { intros c r [Hr Hread]. split; [done|]. intros v [= <-]. apply (proj1 Hr). symmetry. by apply Hread. }
  destruct (canonical_text base op seq) as [value|] eqn:Hv; simpl.
  2: { intros c r [Hr _]. by split. }
  apply (triple_conseq (inv base C) _ _ (λ res r, inv base C r ∧ ∀ v, res = Ok v → Some value = Some v));
    [|by intros r [? _]|done].
  eapply triple_bind; [apply triple_ret| |by intros e r [? _]|by intros e r [? _]].
  intros value'. apply (triple_conseq (λ r, value' = value ∧ inv base C r) _ _
    (λ res r, inv base C r ∧ ∀ v, res = Ok v → Some value = Some v)); [|by intros r [[= ->] ?]|done].
  intros c r [-> Hr]. revert c r Hr.
  change (triple (inv base C) (on_store (ws_set w (operation_key (op_name op) seq) value);;
    total ← on_store (ws_get w (total_count_key (op_name op)));
    on_store (ws_set w (total_count_key (op_name op))
      (pretty (Z.max (default 0 (total ≫= parse_uint u64_max)) seq)));;
    mret value) (λ res r, inv base C r ∧ ∀ v, res = Ok v → Some value = Some v)).
  eapply triple_bind; [apply set_keeps| |done|done].
  { intros Hk. by apply key_not_base in Hk. }
  { intros op' seq' Hk. apply key_inj in Hk as [<- <-]. done. }
  intros []. eapply triple_bind; [apply get_keeps| |by intros e r [? _]|by intros e r [? _]].
  intros total. apply (triple_conseq (inv base C) _ _
    (λ res r, inv base C r ∧ ∀ v, res = Ok v → Some value = Some v)); [|by intros r [? _]|done].
  eapply triple_bind; [apply set_keeps| |done|done].
  { done. }
  { intros op' seq' Hk. symmetry in Hk. by apply key_not_total in Hk. }
  intros [] c r Hr. split; [done|]. by intros v [= <-].
Qed.

(** The value a deterministic operation returns is the one of its place. *)
Lemma deterministic_triple base C op seq :
  seq = default 0 (C !! op_name op) + 1 → 0 ≤ seq ≤ u64_max →
  triple (inv base C) (deterministic_operation w (op_name op) (canonical_text base op seq)) (λ res r,
    inv base (<[op_name op := seq]> C) r ∧ ∀ v, res = Ok v → canonical_text base op seq = Some v).
Proof.
  intros Hseq Hrange c r [Hs HC].
  assert (deterministic_operation w (op_name op) (canonical_text base op seq) c r =
    numbered_operation (op_name op) (canonical_text base op seq) seq c
      (mkReplay (rp_store r) (<[op_name op := seq]> C))) as Hrun.
  { assert (u64_wrapping_add (default 0 (rp_counters r !! op_name op)) 1 = seq) as Hnext.
    { rewrite HC. unfold u64_wrapping_add, u64_max in *. rewrite <-Hseq, Z.mod_small; lia. }
    unfold deterministic_operation, get_next_sequence. unfold mbind at 1, M_bind at 1.
    cbv [mbind M_bind get modify mret M_ret]. rewrite Hnext, HC. done. }
  unfold result_of, state_after. rewrite Hrun.
  apply (numbered_triple base (<[op_name op := seq]> C) op seq). by split.
Qed.

(** Reading a number that is known. *)
Lemma count_run {B} C op (f : Z → M RustvelloError (Replay S) B) c r :
  rp_counters r = C →
  (get_operation_count (op_name op) ≫= f) c r = f (default 0 (C !! op_name op)) c r.
Proof. intros <-. reflexivity. Qed.

Lemma next_of n : 0 ≤ n < u64_max → u64_wrapping_add n 1 = n + 1.
Proof. unfold u64_wrapping_add, u64_max. intros. apply Z.mod_small. lia. Qed.

Lemma base_triple base C :
  in_years base 0 →
  triple (inv base C) (get_base_time w) (λ res r, inv base C r ∧ ∀ t, res = Ok t → t = base).
Proof.
  intros Hyears. unfold get_base_time.
  eapply triple_bind; [apply get_keeps| |by intros e r [? _]|by intros e r [? _]].
  intros stored c r [Hr Hread]. specialize (Hread _ eq_refl). rewrite (se_base _ _ (proj1 Hr)) in Hread. subst.
  unfold parsed_or_now. rewrite parse_rfc3339 by (unfold in_years in Hyears; lia).
  split; [done|]. by intros t [= <-].
Qed.

Lemma time_text base seq v :
  0 ≤ seq → in_years base seq → time_value base seq = Some v → v = to_rfc3339 (base + seq * 1000000000).
Proof.
  intros Hseq [Hlo Hhi]. unfold time_value. intros (d & Hd & (t & Ht & [= <-])%bind_Some)%bind_Some.
  replace (i64_of_u64 seq) with seq in Hd.
  - rewrite (after_seconds _ _ _ Hd) in Ht. case_bool_decide; naive_solver.
  - unfold i64_of_u64, i64_max. destruct (Z.leb_spec seq 9223372036854775807); lia.
Qed.

(** Whatever happens, an operation draws at most its own next number and leaves
    the data settled; when it succeeds it has drawn the number and returned the
    value of it. *)
Definition op_post (base : DateTime) (C : gmap string Z) (op : workflow_op)
    (res : RustvelloResult workflow_value) (r : Replay S) : Prop :=
  let seq := default 0 (C !! op_name op) + 1 in
  (inv base C r ∨ inv base (<[op_name op := seq]> C) r) ∧
  ∀ v, res = Ok v → v = canonical base op seq ∧ inv base (<[op_name op := seq]> C) r.

Lemma value_step base C op (g : string → M RustvelloError (Replay S) workflow_value) :
  let n := default 0 (C !! op_name op) in
  0 ≤ n < u64_max →
  (∀ v c r, canonical_text base op (n + 1) = Some v → g v c r = (Ok (canonical base op (n + 1)), c, r)) →
  triple (inv base C) (deterministic_operation w (op_name op) (canonical_text base op (n + 1)) ≫= g)
    (op_post base C op).
Proof.
  intros n Hn Hg. eapply triple_bind; [apply deterministic_triple; [done|lia]| | |].
  - intros text c r [Hr Htext]. unfold result_of, state_after. rewrite (Hg _ c r (Htext _ eq_refl)).
    split; [by right|]. by intros v [= <-].
  - intros e r [Hr _]. split; [by right|done].
  - intros p r [Hr _]. split; [by right|done].
Qed.

Lemma triple_assoc {A B D} (P : Replay S → Prop) (m : M RustvelloError (Replay S) A)
    (f : A → M RustvelloError (Replay S) B) (g : B → M RustvelloError (Replay S) D) Q :
  triple P (m ≫= λ a, f a ≫= g) Q → triple P ((m ≫= f) ≫= g) Q.
Proof. intros Hm c r Hr. specialize (Hm c r Hr). unfold result_of, state_after in *. by rewrite <-bind_assoc_run. Qed.

Lemma op_triple base C op :
  let n := default 0 (C !! op_name op) in
  0 ≤ n < u64_max → in_years base 0 → (op = OpTime → in_years base (n + 1)) →
  triple (inv base C) (run_workflow_op op) (op_post base C op).
Proof.
  intros n Hn Hyears Htime. destruct op; simpl run_workflow_op.
  - intros c r Hr. set (g := λ text, mret (ValRandom (default 0 (parse_f64 text))) : M RustvelloError (Replay S) _).
    match goal with |- op_post _ _ _ (result_of ?m c r) _ => assert (m c r =
      (deterministic_operation w "random" (canonical_text base OpRandom (n + 1)) ≫= g) c r) as Hrun end.
    { unfold random. rewrite <-bind_assoc_run, (count_run C OpRandom) by apply Hr. fold n.
      rewrite next_of by done. by rewrite <-bind_assoc_run. }
    unfold result_of, state_after. rewrite Hrun. apply (value_step base C OpRandom g); [done| |done].
    intros v c' r' [= <-]. done.
  - unfold workflow_utc_now. apply triple_assoc.
    eapply triple_bind; [by apply base_triple| |intros e r [? _]; split; [by left|done]..].
    intros t c1 r1 [Hb Ht]. rewrite (Ht t eq_refl).
    set (g := λ text, (t ← parsed_or_now text; mret (ValTime t)) : M RustvelloError (Replay S) _).
    match goal with |- op_post _ _ _ (result_of ?m c1 r1) _ =>
      assert (m c1 r1 = (deterministic_operation w "time" (canonical_text base OpTime (n + 1)) ≫= g) c1 r1) as Hrun end.
    { rewrite <-bind_assoc_run, (count_run C OpTime) by apply Hb. fold n. rewrite next_of by done.
      by rewrite <-bind_assoc_run. }
    unfold result_of, state_after.
    rewrite Hrun. apply (value_step base C OpTime g); [done| |done].
    intros v c' r' Hv. apply time_text in Hv as ->; [|lia|by apply Htime]. unfold g, parsed_or_now.
    rewrite parse_rfc3339; [done|]. specialize (Htime eq_refl). destruct Htime, Hn. split; [lia|done].
  - intros c r Hr. set (g := λ text, mret (ValUuid text) : M RustvelloError (Replay S) _).
    match goal with |- op_post _ _ _ (result_of ?m c r) _ => assert (m c r =
      (deterministic_operation w "uuid" (canonical_text base OpUuid (n + 1)) ≫= g) c r) as Hrun end.
    { unfold uuid. rewrite <-bind_assoc_run, (count_run C OpUuid) by apply Hr. fold n. by rewrite next_of. }
    unfold result_of, state_after. rewrite Hrun. apply (value_step base C OpUuid g); [done| |done].
    intros v c' r' [= <-]. done.
Qed.

(** The values of a run that starts with the counters [C]: an operation that
    fails may or may not have drawn its number. *)
Inductive replayed (base : DateTime) :
    gmap string Z → list workflow_op → list (workflow_value + RustvelloError) → Prop :=
| replayed_nil C : replayed base C [] []
| replayed_value C op ops rs (seq := default 0 (C !! op_name op) + 1) :
    replayed base (<[op_name op := seq]> C) ops rs →
    replayed base C (op :: ops) (inl (canonical base op seq) :: rs)
| replayed_failed C C' op ops rs e :
    C' = C ∨ C' = <[op_name op := default 0 (C !! op_name op) + 1]> C →
    replayed base C' ops rs → replayed base C (op :: ops) (inr e :: rs).

(** The values of a run without failures. *)
Fixpoint expected (base : DateTime) (C : gmap string Z) (ops : list workflow_op) : list workflow_value :=
  match ops with
  | [] => []
  | op :: ops =>
      let seq := default 0 (C !! op_name op) + 1 in
      canonical base op seq :: expected base (<[op_name op := seq]> C) ops
  end.

Lemma replayed_expected base C ops vs : replayed base C ops (inl <$> vs) → vs = expected base C ops.
Proof.
  intros Hr. remember (inl <$> vs) as rs eqn:Hrs. revert vs Hrs.
  induction Hr as [C|C op ops rs seq Hr IH|C C' op ops rs e HC Hr IH]; intros [|v vs] Hrs; simplify_eq/=; [done|].
  f_equal. by apply IH.
Qed.

Definition counts_within (C : gmap string Z) (k : Z) : Prop :=
  ∀ op, 0 ≤ default 0 (C !! op_name op) ≤ k.

Lemma counts_within_next C k op :
  counts_within C k → counts_within (<[op_name op := default 0 (C !! op_name op) + 1]> C) (k + 1).
Proof.
  intros HC op'. destruct (decide (op' = op)) as [->|Hne].
  - rewrite lookup_insert_eq. simpl. specialize (HC op). lia.
  - rewrite lookup_insert_ne by (destruct op, op'; done). specialize (HC op'). lia.
Qed.

Lemma in_years_within base n m : in_years base n → 0 ≤ m ≤ n → in_years base m.
Proof. unfold in_years. lia. Qed.

Definition next (op : workflow_op) (C : gmap string Z) : gmap string Z :=
  <[op_name op := default 0 (C !! op_name op) + 1]> C.

(** One operation of a run: it contributes its value, or its failure. *)
Lemma attempt_triple base C op acc :
  triple (inv base C) (run_workflow_op op) (op_post base C op) →
  triple (inv base C) (v ← attempt (run_workflow_op op); mret (acc ++ [v])) (λ res r,
    settled base (rp_store r) ∧ ∀ acc', res = Ok (E := RustvelloError) acc' →
      ∃ v C', acc' = acc ++ [v] ∧ inv base C' r ∧
        (C' = next op C ∧ v = inl (canonical base op (default 0 (C !! op_name op) + 1)) ∨
         (C' = C ∨ C' = next op C) ∧ ∃ e, v = inr e)).
Proof.
  intros Hop c r Hr. specialize (Hop c r Hr). unfold op_post, result_of, state_after, attempt in *.
  cbv [mbind M_bind mret M_ret]. destruct (run_workflow_op op c r) as [[[v|e|p] c1] r1]; simpl in *.
  - destruct Hop as [_ Hv]. destruct (Hv v eq_refl) as [-> Hinv]. split; [apply Hinv|].
    intros acc' [= <-]. eexists _, _. split; [done|]. split; [exact Hinv|]. by left.
  - destruct Hop as [Hinv _]. split; [destruct Hinv as [Hinv|Hinv]; apply Hinv|].
    intros acc' [= <-]. destruct Hinv as [Hinv|Hinv]; eexists _, _; (split; [done|]); (split; [exact Hinv|]);
      right; (split; [|by eexists]); [by left|by right].
  - destruct Hop as [Hinv _]. split; [destruct Hinv as [Hinv|Hinv]; apply Hinv|done].
Qed.

Lemma ops_triple base C ops acc k :
  counts_within C k → 0 ≤ k → k + Z.of_nat (length ops) ≤ u64_max → in_years base (k + Z.of_nat (length ops)) →
  triple (inv base C)
    (for_fold (λ acc op, v ← attempt (run_workflow_op op); mret (acc ++ [v])) acc ops)
    (λ res r, settled base (rp_store r) ∧ ∀ rs, res = Ok rs → ∃ tl, rs = acc ++ tl ∧ replayed base C ops tl).
Proof.
  revert C acc k. induction ops as [|op ops IH]; intros C acc k HC Hk0 Hk Hyears; simpl in *.
  { intros c r Hr. split; [apply Hr|]. intros rs [= <-]. exists []. split; [by rewrite app_nil_r|constructor]. }
  eapply triple_bind; [apply attempt_triple, op_triple| |by intros e r [? _]|by intros p r [? _]].
  - specialize (HC op). lia.
  - eapply in_years_within; [done|lia].
  - intros _. eapply in_years_within; [done|]. specialize (HC op). lia.
  - intros acc' c r [_ Hstep]. destruct (Hstep _ eq_refl) as (v & C' & -> & Hinv & Hv).
    assert (counts_within C' (k + 1)) as HC'.
    { assert (counts_within C (k + 1)) by (intros op'; specialize (HC op'); lia).
      destruct Hv as [[-> _]|[[-> | ->] _]]; [by apply counts_within_next|done|by apply counts_within_next]. }
    destruct (IH C' (acc ++ [v]) (k + 1) HC' ltac:(lia) ltac:(lia)
      ltac:(eapply in_years_within; [done|lia]) c r Hinv) as [Hs Hrs].
    split; [done|]. intros rs Hr. destruct (Hrs rs Hr) as (tl & -> & Htl). exists (v :: tl).
    rewrite <-app_assoc. split; [done|].
    destruct Hv as [[-> ->]|[HC'' [e ->]]]; [by constructor|by eapply replayed_failed].
Qed.

(** C32: Replays are deterministic.  Once the base time of a workflow is stored,
    every run of its operations, from any data that earlier runs left wherever
    they stopped, and on a store that may fail at any access, returns for each
    operation the value of its kind and number: a function of the workflow, the
    base time and the number of operations of the kind before it (an operation
    that fails may use its number up).  Two runs without failures return the same
    values, and the data stays of that form. *)
Theorem replay_is_deterministic base ops c s :
  settled base s → Z.of_nat (length ops) ≤ u64_max → in_years base (Z.of_nat (length ops)) →
  let m := run_workflow_ops ops in
  settled base (rp_store (state_after m c (executor_new s))) ∧
  ∀ rs, result_of m c (executor_new s) = Ok rs →
    replayed base ∅ ops rs ∧ ∀ vs, rs = inl <$> vs → vs = expected base ∅ ops.
Proof.
  intros Hs Hlen Hyears m.
  assert (counts_within ∅ 0) as Hz by (intros op; rewrite lookup_empty; simpl; lia).
  destruct (ops_triple base ∅ ops [] 0 Hz ltac:(lia) ltac:(lia) ltac:(by rewrite Z.add_0_l) c (executor_new s))
    as [Hend Hrs]; [by split|].
  split; [exact Hend|]. intros rs Hr. destruct (Hrs rs Hr) as (tl & -> & Htl). split; [done|].
  intros vs Hvs. apply replayed_expected. by rewrite <-Hvs.
Qed.

(** The base time is fixed once: on a workflow without data, a call that
    succeeds returns the clock's time and leaves the data settled on it; once it
    is settled every later call returns it, whatever the clock shows. *)
Theorem base_time_is_fixed_once base c (r : Replay S) :
  (∀ k, ws_data (rp_store r) w k = None) →
  (let m := get_base_time w in
   ∀ t, result_of m c r = Ok t → settled t (rp_store (state_after m c r))) ∧
  (∀ c1 (r1 : Replay S) t, settled base (rp_store r1) → in_years base 0 →
   result_of (get_base_time w) c1 r1 = Ok t → t = base).
Proof.
  intros Hnone. split.
  - intros m t. unfold m, get_base_time, on_store, zoom, result_of, state_after. unfold mbind, M_bind.
    destruct (ws_get_reads w base_time_key c (rp_store r)) as [Hsame Hread].
    unfold result_of, state_after in Hsame, Hread.
    destruct (ws_get w base_time_key c (rp_store r)) as [[[o|e|p] c1] s1]; simpl in *; [|done..].
    rewrite (Hread o eq_refl), Hnone. unfold utc_now. simpl.
    set (now := readings c1 (tick c1)). set (c2 := {| readings := readings c1; tick := Datatypes.S (tick c1) |}).
    destruct (ws_set_writes w base_time_key (to_rfc3339 now) c2 s1) as [Hw Hok].
    unfold result_of, state_after in Hw, Hok.
    destruct (ws_set w base_time_key (to_rfc3339 now) c2 s1) as [[[[]|e|p] c3] s3]; simpl in *; [|done..].
    intros [= <-]. split; [by apply Hok|]. intros op seq v.
    destruct (Hw w (operation_key (op_name op) seq)) as [->|(_ & Hk & _)].
    + by rewrite Hsame, Hnone.
    + by apply key_not_base in Hk.
  - intros c1 r1 t Hs Hyears Ht.
    by apply (proj2 (base_triple base (rp_counters r1) Hyears c1 r1 (conj Hs eq_refl))).
Qed.
End replay.

(** ** The in-memory store *)

#[export] Instance mem_workflow_store : WorkflowStore BackendState.
Proof.
  refine {| ws_data s w k := b_workflow_data s !! w ≫= lookup k;
            ws_get := mem_get_workflow_data;
            ws_set := mem_set_workflow_data |}.
  - intros w k c s. split; [done|]. intros o [= <-]. done.
  - intros w k v c s. split.
    + intros w' k'. unfold state_after. simpl. destruct (decide (w' = w)) as [->|Hw].
      * rewrite lookup_insert_eq. simpl. destruct (decide (k' = k)) as [->|Hk].
        -- rewrite lookup_insert_eq. by right.
        -- rewrite lookup_insert_ne by done. left. by destruct (b_workflow_data s !! w).
      * rewrite lookup_insert_ne by done. by left.
    + intros _. unfold state_after. simpl. rewrite lookup_insert_eq. simpl. by rewrite lookup_insert_eq.
Defined.

(** ** The root handle and the range of random numbers *)

(** The handle is for the invocation that defines its workflow, and names it. *)
Lemma root_handle_is_the_defining_invocation ctx w :
  workflow_root_current ctx = Ok w ↔
  ∃ x wf, ctx = Some x ∧ rc_workflow x = Some wf ∧ rc_is_workflow_defining x = true ∧
    workflow_id wf = rc_invocation_id x ∧ rc_has_state_backend x = true ∧ w = rc_invocation_id x.
Proof.
  unfold workflow_root_current. split.
  - destruct ctx as [x|]; simpl; [|done]. destruct (rc_workflow x) as [wf|] eqn:Hwf; simpl; [|done].
    destruct (rc_is_workflow_defining x) eqn:Hd; simpl; [|done].
    case_bool_decide as Hid; simpl; [|done]. destruct (rc_has_state_backend x) eqn:Hb; [|done].
    intros [= <-]. exists x, wf. by split_and!.
  - intros (x & wf & -> & Hwf & Hd & Hid & Hb & ->). simpl. rewrite Hwf. simpl.
    rewrite Hd, Hb, Hid, bool_decide_true by done. done.
Qed.

Definition top_seeds : list Z := (λ n, 18446744073709550592 + Z.of_nat n) <$> seq 0 1024.

Lemma top_seeds_are_one : forallb (λ n, random_of_seed n =? f64_one) top_seeds = true.
Proof. vm_compute. reflexivity. Qed.

(** The random numbers of a workflow are documented to be below one; the
    largest 1024 of the 2^64 seeds give exactly one, because the quotient of the
    rounded seed by the rounded maximum is one. *)
Theorem random_reaches_one `{Sha256} w seq :
  (∀ seed, 18446744073709550592 ≤ seed ≤ u64_max → random_of_seed seed = f64_one) ∧
  (take 8 (sha256 (str_bytes (w +:+ ":random:" +:+ pretty seq))) = replicate 8 255 →
   random_of_seed (random_seed w seq) = f64_one ∧ f64_ltb (random_of_seed (random_seed w seq)) f64_one = false).
Proof.
  assert (∀ seed, 18446744073709550592 ≤ seed ≤ u64_max → random_of_seed seed = f64_one) as Hone.
  { intros seed Hs. apply Z.eqb_eq. pose proof (proj1 (forallb_forall _ _) top_seeds_are_one seed) as Hf.
    apply Hf, list_elem_of_In, list_elem_of_fmap. exists (Z.to_nat (seed - 18446744073709550592)).
    unfold u64_max in Hs. split; [lia|]. apply elem_of_seq. lia. }
  split; [exact Hone|]. intros Hb. unfold random_seed. rewrite Hb.
  assert (random_of_seed (u64_from_le_bytes (replicate 8 255)) = f64_one) as -> by (apply Hone; vm_compute; split; discriminate).
  by vm_compute.
Qed.

(** ** Witnesses *)

Definition chrono_after_in_seconds : @ChronoAfter chrono_in_seconds.
Proof.
  refine {| after := λ t (d : @Duration chrono_in_seconds),
    if bool_decide (@datetime_min chrono_in_seconds ≤ t + (d : Z) * 1000000000 ≤ @datetime_max chrono_in_seconds)
    then Some (t + (d : Z) * 1000000000) else None |}.
  intros n d t. simpl. case_decide; naive_solver.
Defined.

Definition binary_time : Rfc3339 := {| to_rfc3339 t := digits_of (encode t) |}.
Definition binary_time_parse : @Rfc3339Parse binary_time.
Proof.
  refine {| parse_from_rfc3339 s := decode (of_digits s) |}. intros t _. simpl. by rewrite of_digits_of, decode_encode.
Defined.
Definition decimal_floats : FloatText := {| f64_display x := pretty x |}.
Definition parse_decimal : ParseF64 := {| parse_f64 s := parse_uint u64_max s |}.
Definition hex_uuid : UuidText := {| uuid_display := lower_hex |}.

Definition demo_ops (ops : list workflow_op) :=
  @run_workflow_ops BackendState mem_workflow_store chrono_in_seconds chrono_after_in_seconds binary_time
    binary_time_parse pad_digest decimal_floats parse_decimal hex_uuid "wf" ops.

(** A first run that took one timestamp. *)
Definition demo_started : BackendState :=
  rp_store (state_after (demo_ops [OpTime]) (frozen_clock 5) (executor_new backend_new)).

Lemma demo_settled :
  @settled BackendState mem_workflow_store chrono_in_seconds chrono_after_in_seconds binary_time pad_digest
    decimal_floats hex_uuid "wf" 5 demo_started.
Proof.
  split; [vm_compute; reflexivity|]. intros op seq v. unfold demo_started.
  assert (b_workflow_data demo_started = {["wf" := list_to_map [("workflow:base_time", digits_of (encode 5));
    ("time:1", digits_of (encode 1000000005)); ("counter:time", "1")]]}) as Hdata.
  { vm_cast_no_check (eq_refl (b_workflow_data demo_started)). }
  unfold demo_started in Hdata. change (b_workflow_data (rp_store (state_after (demo_ops [OpTime]) (frozen_clock 5) (executor_new backend_new)))
    !! "wf" ≫= lookup (operation_key (op_name op) seq) = Some v → @canonical_text chrono_in_seconds
      chrono_after_in_seconds binary_time pad_digest decimal_floats hex_uuid "wf" 5 op seq = Some v).
  rewrite Hdata, lookup_singleton_eq. simpl.
  rewrite !lookup_insert_Some, lookup_empty.
  intros [[Hk _]|[_ [[Hk <-]|[_ [[Hk _]|[_ ?]]]]]]; [by destruct op| |by destruct op|done].
  apply (key_inj OpTime op 1 seq) in Hk as [<- <-]. vm_compute. reflexivity.
Qed.

Lemma replay_is_deterministic_witness :
  let m := demo_ops [OpRandom; OpTime; OpUuid; OpTime] in
  let r := executor_new demo_started in
  is_ok (result_of m (frozen_clock 77) r) = true ∧
  ∀ vs : list workflow_value, result_of m (frozen_clock 77) r = Ok (inl <$> vs) →
    vs = @expected pad_digest decimal_floats parse_decimal hex_uuid "wf" 5 ∅ [OpRandom; OpTime; OpUuid; OpTime].
Proof.
  intros m r. split; [vm_cast_no_check (eq_refl true)|]. intros vs Hvs.
  destruct (@replay_is_deterministic BackendState mem_workflow_store chrono_in_seconds chrono_after_in_seconds
    binary_time binary_time_parse pad_digest decimal_floats parse_decimal hex_uuid "wf" 5
    [OpRandom; OpTime; OpUuid; OpTime] (frozen_clock 77) demo_started demo_settled) as [_ Hrs].
  - vm_compute. discriminate.
  - split; vm_compute; [discriminate|reflexivity].
  - by apply (Hrs _ Hvs).
Defined.

Lemma base_time_is_fixed_once_witness :
  let m := @get_base_time BackendState mem_workflow_store binary_time binary_time_parse "wf" in
  @settled BackendState mem_workflow_store chrono_in_seconds chrono_after_in_seconds binary_time pad_digest
    decimal_floats hex_uuid "wf" 5 (rp_store (state_after m (frozen_clock 5) (executor_new backend_new))).
Proof.
  intros m.
  apply (proj1 (@base_time_is_fixed_once BackendState mem_workflow_store chrono_in_seconds
    chrono_after_in_seconds binary_time binary_time_parse pad_digest decimal_floats hex_uuid "wf" 0
    (frozen_clock 5) (executor_new backend_new) ltac:(reflexivity))).
  vm_compute. reflexivity.
Defined.
