(* ===== verification/ClientData.v ===== *)
(** * The client data store

    Models [rustvello-core/src/client_data_store.rs] and
    [rustvello-mem/src/client_data_store.rs]: large serialized values are stored
    outside the calls under the hash of their content, and a process-local cache of
    recent values stands before the backend.

    The theorems: what is resolved from a reference is the content the reference
    names, whatever calls came before; a value survives being stored and resolved
    in every size class; the cache is transparent, the manager refining one
    without a cache; a direct store by key is not seen through the cache. *)
From S2P Require Import Prelude Effects Errors Config Call.

(* @src rustvello-core/src/client_data_store.rs 18-19 REFERENCE_PREFIX *)
Definition REFERENCE_PREFIX : string := "__rustvello__cds__:".

(* @src rustvello-core/src/client_data_store.rs 54-57 is_reference *)
Definition is_reference (value : string) : bool := str_starts_with REFERENCE_PREFIX value.

(* @src rustvello-core/src/client_data_store.rs 59-71 generate_reference_key *)
Definition generate_reference_key `{Sha256} (data : string) : string :=
  REFERENCE_PREFIX +:+ lower_hex (sha256 (str_bytes data)).

(** What the manager uses of its backend, a map of texts.  An operation may fail;
    a failed store may or may not have happened, and a failed purge may have
    removed anything. *)
(* @src rustvello-core/src/client_data_store.rs 26-52 ClientDataStore *)
Class ClientDataStore (S : Type) := {
  cs_data : S → string → option string;
  cs_store : string → string → M RustvelloError S unit;
  cs_retrieve : string → M RustvelloError S string;
  cs_purge : M RustvelloError S unit;
  cs_store_law k v c s :
    let s' := state_after (cs_store k v) c s in
    (∀ k', cs_data s' k' = cs_data s k' ∨ k' = k ∧ cs_data s' k' = Some v) ∧
    (result_of (cs_store k v) c s = Ok tt → cs_data s' k = Some v);
  cs_retrieve_law k c s :
    (∀ k', cs_data (state_after (cs_retrieve k) c s) k' = cs_data s k') ∧
    ∀ v, result_of (cs_retrieve k) c s = Ok v → cs_data s k = Some v;
  cs_purge_law c s :
    let s' := state_after cs_purge c s in
    (∀ k v, cs_data s' k = Some v → cs_data s k = Some v) ∧
    (result_of cs_purge c s = Ok tt → ∀ k, cs_data s' k = None)
}.

(** The cache of the [lru] crate: it may forget any entry when one is added, but
    never the one that is added. *)
Class LruCache := {
  lru_cache : Type;
  lru_new : Z → lru_cache;
  lru_peek : lru_cache → string → option string;
  lru_get : string → lru_cache → option string * lru_cache;
  lru_put : string → string → lru_cache → lru_cache;
  lru_clear : lru_cache → lru_cache;
  lru_peek_new n k : lru_peek (lru_new n) k = None;
  lru_get_result k l : (lru_get k l).1 = lru_peek l k;
  lru_get_keeps k l k' : lru_peek (lru_get k l).2 k' = lru_peek l k';
  lru_put_peek k v l : lru_peek (lru_put k v l) k = Some v;
  lru_put_others k v l k' x : k' ≠ k → lru_peek (lru_put k v l) k' = Some x → lru_peek l k' = Some x;
  lru_peek_clear l k : lru_peek (lru_clear l) k = None
}.

(** ** The manager *)

(* @src rustvello-core/src/client_data_store.rs 86-90 ClientDataStoreManager *)
Record Manager `{LruCache} (S : Type) := mkManager {
  cm_backend : S;
  cm_cache : lru_cache
}.
#[global] Arguments mkManager {_ S}.
#[global] Arguments cm_backend {_ S}.
#[global] Arguments cm_cache {_ S}.

Section manager.
Context {LC : LruCache} {SH : Sha256} {S : Type} {CD : ClientDataStore S}.
Context (config : ClientDataStoreConfig).

(** [NonZeroUsize::new(n).unwrap_or(NonZeroUsize::MIN)]. *)
(* @src rustvello-core/src/client_data_store.rs 93-101 ClientDataStoreManager::new *)
Definition manager_new (backend : S) : Manager S :=
  mkManager backend (lru_new (Z.max 1 (cd_local_cache_size config))).

Definition on_backend {A} (m : M RustvelloError S A) : M RustvelloError (Manager S) A :=
  zoom cm_backend (λ s x, mkManager s (cm_cache x)) m.

Definition cache_put (k v : string) : M RustvelloError (Manager S) unit :=
  modify (λ x, mkManager (cm_backend x) (lru_put k v (cm_cache x))).

(** Whether a value goes to the backend. *)
(* @src rustvello-core/src/client_data_store.rs 109-134 ClientDataStoreManager::store_if_large *)
Definition externalized (serialized : string) : bool :=
  let size := Z.of_nat (String.length serialized) in
  negb (cd_disabled config) && negb (is_reference serialized) &&
  negb (size <? cd_min_size_to_cache config) &&
  negb ((0 <? cd_max_size_to_cache config) && (cd_max_size_to_cache config <? size)).

(* @src rustvello-core/src/client_data_store.rs 108-156 ClientDataStoreManager::store_if_large *)
Definition store_if_large (serialized : string) : M RustvelloError (Manager S) string :=
  if cd_disabled config then mret serialized
  else if is_reference serialized then mret serialized
  else
    let size := Z.of_nat (String.length serialized) in
    if size <? cd_min_size_to_cache config then mret serialized
    else if (0 <? cd_max_size_to_cache config) && (cd_max_size_to_cache config <? size) then mret serialized
    else
      let key := generate_reference_key serialized in
      on_backend (cs_store key serialized);;
      cache_put key serialized;;
      mret key.

(* @src rustvello-core/src/client_data_store.rs 160-190 ClientDataStoreManager::resolve *)
Definition resolve (data : string) : M RustvelloError (Manager S) string :=
  if negb (is_reference data) then mret data
  else
    x ← get;
    let found := lru_get data (cm_cache x) in
    modify (λ x, mkManager (cm_backend x) found.2);;
    match found.1 with
    | Some cached => mret cached
    | None =>
        value ← on_backend (cs_retrieve data);
        cache_put data value;;
        mret value
    end.

(* @src rustvello-core/src/client_data_store.rs 193-195 ClientDataStoreManager::store *)
Definition manager_store (key value : string) : M RustvelloError (Manager S) unit :=
  on_backend (cs_store key value).

(* @src rustvello-core/src/client_data_store.rs 198-200 ClientDataStoreManager::retrieve *)
Definition manager_retrieve (key : string) : M RustvelloError (Manager S) string :=
  on_backend (cs_retrieve key).

(* @src rustvello-core/src/client_data_store.rs 203-211 ClientDataStoreManager::purge *)
Definition manager_purge : M RustvelloError (Manager S) unit :=
  modify (λ x, mkManager (cm_backend x) (lru_clear (cm_cache x)));;
  on_backend cs_purge.
End manager.

(** ** The in-memory backend *)

(* @src rustvello-mem/src/client_data_store.rs 15-17 MemClientDataStore *)
Definition MemClientData : Type := gmap string string.

(* @src rustvello-mem/src/client_data_store.rs 19-25 MemClientDataStore::new *)
Definition mem_client_data_new : MemClientData := ∅.

(* @src rustvello-mem/src/client_data_store.rs 34-41 MemClientDataStore::store *)
Definition mem_store (key value : string) : M RustvelloError MemClientData unit :=
  modify (insert (M := gmap string string) key value).

(* @src rustvello-mem/src/client_data_store.rs 43-51 MemClientDataStore::retrieve *)
Definition mem_retrieve (key : string) : M RustvelloError MemClientData string :=
  s ← get;
  lift (ok_or ((s : gmap string string) !! key) (state_backend_err ("key not found: " +:+ key))).

(* @src rustvello-mem/src/client_data_store.rs 53-56 MemClientDataStore::purge *)
Definition mem_client_purge : M RustvelloError MemClientData unit := modify (λ _, ∅).

#[export] Instance mem_client_data : ClientDataStore MemClientData.
Proof.
  refine {| cs_data s k := (s : gmap string string) !! k;
            cs_store := mem_store; cs_retrieve := mem_retrieve; cs_purge := mem_client_purge |}.
  - intros k v c s. unfold state_after. simpl. split; [|by rewrite lookup_insert_eq].
    intros k'. destruct (decide (k' = k)) as [->|Hk]; [right; by rewrite lookup_insert_eq|left].
    by rewrite lookup_insert_ne.
  - intros k c s. unfold state_after, result_of, mem_retrieve. cbv [mbind M_bind get lift].
    destruct ((s : gmap string string) !! k) as [v|] eqn:Hk; simpl; (split; [done|]); [by intros v' [= <-]|done].
  - intros c s. unfold state_after. simpl. split.
    + intros k v Hk. change ((∅ : gmap string string) !! k = Some v) in Hk. by rewrite lookup_empty in Hk.
    + intros _ k. change ((∅ : gmap string string) !! k = None). apply lookup_empty.
Defined.

(** ** Facts *)

Lemma str_starts_with_app p s : str_starts_with p (p +:+ s) = true.
Proof. induction p as [|a p IH]; simpl; [done|]. by rewrite bool_decide_true. Qed.

Lemma key_is_reference `{Sha256} v : is_reference (generate_reference_key v) = true.
Proof. apply str_starts_with_app. Qed.

Section facts.
Context {LC : LruCache} {SH : Sha256} {S : Type} {CD : ClientDataStore S}.
Context (config : ClientDataStoreConfig).
Implicit Types (x : Manager S).

(** Everything stored or cached is under the hash of its content. *)
Record content_addressed x : Prop := {
  ca_stored k v : cs_data (cm_backend x) k = Some v → k = generate_reference_key v;
  ca_cached k v : lru_peek (cm_cache x) k = Some v → k = generate_reference_key v
}.

(** The calls of an application; none of them stores by key. *)
Inductive cds_op :=
| CdsStore (v : string)
| CdsResolve (d : string)
| CdsPurge.

Definition run_cds_op (op : cds_op) : M RustvelloError (Manager S) unit :=
  match op with
  | CdsStore v => attempt (store_if_large config v);; mret tt
  | CdsResolve d => attempt (resolve d);; mret tt
  | CdsPurge => attempt manager_purge;; mret tt
  end.

(** What is there, and what stays there. *)
Definition holds (k : string) x : Prop := is_Some (cs_data (cm_backend x) k).

Lemma store_run v c x :
  store_if_large config v c x =
    if externalized config v then
      (on_backend (cs_store (generate_reference_key v) v);; cache_put (generate_reference_key v) v;;
       mret (generate_reference_key v)) c x
    else (Ok v, c, x).
Proof.
  unfold store_if_large, externalized. destruct (cd_disabled config), (is_reference v); simpl; try done.
  destruct (_ <? cd_min_size_to_cache config); simpl; [done|].
  by destruct (_ && _).
Qed.

(** A write to the backend under the content's own key. *)
Lemma backend_store_triple v k :
  triple (λ x, content_addressed x ∧ (holds k x ∨ k = generate_reference_key v))
    (on_backend (cs_store (generate_reference_key v) v))
    (λ r x, content_addressed x ∧ (r = Ok tt ∨ k ≠ generate_reference_key v → holds k x)).
Proof.
  intros c x [[Hst Hca] Hk]. destruct (cs_store_law (generate_reference_key v) v c (cm_backend x)) as [Hw Hok].
  unfold on_backend, zoom, result_of, state_after in *.
  destruct (cs_store _ v c (cm_backend x)) as [[r c'] s']. simpl in *. split.
  - split; simpl; [|done]. intros k' v'. destruct (Hw k') as [->|[-> ->]]; [apply Hst|]. by intros [= <-].
  - intros Hr. unfold holds in *. simpl. destruct (decide (k = generate_reference_key v)) as [->|Hne].
    + destruct Hr as [->|?]; [|done]. rewrite Hok by done. by eexists.
    + destruct (Hw k) as [->|[? _]]; [|done]. by destruct Hk.
Qed.

Lemma cache_put_addressed v c x :
  content_addressed x →
  content_addressed (state_after (cache_put (S := S) (generate_reference_key v) v) c x).
Proof.
  intros [Hst Hca]. unfold state_after. simpl. split; [done|]. simpl. intros k v' Hp.
  destruct (decide (k = generate_reference_key v)) as [->|Hne].
  - rewrite lru_put_peek in Hp. by simplify_eq.
  - apply lru_put_others in Hp; [by apply Hca|done].
Qed.

Lemma store_addressed v :
  respects (keeps content_addressed) (store_if_large config v).
Proof.
  intros c x Hx. unfold state_after. rewrite store_run. destruct (externalized config v); [|done].
  destruct (backend_store_triple v (generate_reference_key v) c x (conj Hx (or_intror eq_refl))) as [Hb _].
  unfold result_of, state_after, mbind, M_bind in *.
  destruct (on_backend (cs_store _ v) c x) as [[[[]|e|p] c1] x1]; simpl in *; [|done..].
  by apply (cache_put_addressed v c1 x1).
Qed.

Lemma store_holds v k : respects (keeps (λ x, content_addressed x ∧ holds k x)) (store_if_large config v).
Proof.
  intros c x [Hx Hk]. split; [by apply store_addressed|]. unfold state_after. rewrite store_run.
  destruct (externalized config v); [|done].
  destruct (cs_store_law (generate_reference_key v) v c (cm_backend x)) as [Hw _].
  unfold holds, mbind, M_bind, on_backend, zoom, state_after in *.
  destruct (cs_store _ v c (cm_backend x)) as [[[[]|e|p] c1] x1]; simpl in *;
    (destruct (Hw k) as [->|[-> ->]]; [done|by eexists]).
Qed.

(** A resolution: the text itself, a cached value, or the backend's. *)
Lemma resolve_facts d c x :
  content_addressed x →
  let x' := state_after (resolve d) c x in
  content_addressed x' ∧ (∀ k, cs_data (cm_backend x') k = cs_data (cm_backend x) k) ∧
  ∀ v, result_of (resolve d) c x = Ok v → if is_reference d then d = generate_reference_key v else v = d.
Proof.
  intros Hx. unfold resolve, state_after, result_of. destruct (is_reference d) eqn:Hd; simpl.
  2: { split_and!; [done|done|]. by intros v [= <-]. }
  unfold mbind, M_bind, get, modify. simpl. rewrite lru_get_result.
  assert (content_addressed (mkManager (cm_backend x) (lru_get d (cm_cache x)).2)) as Hx1.
  { split; simpl; [apply Hx|]. intros k v. rewrite lru_get_keeps. apply Hx. }
  destruct (lru_peek (cm_cache x) d) as [cached|] eqn:Hp; simpl.
  { split_and!; [done|done|]. intros v [= <-]. by apply (ca_cached _ Hx). }
  unfold on_backend, zoom. simpl. destruct (cs_retrieve_law d c (cm_backend x)) as [Hsame Hread].
  unfold state_after, result_of in Hsame, Hread.
  destruct (cs_retrieve d c (cm_backend x)) as [[[v|e|p] c1] s1]; simpl in *.
  - assert (d = generate_reference_key v) as Hkey by (apply (ca_stored _ Hx); by apply Hread).
    split_and!; [|done|by intros v' [= <-]]. split; simpl.
    + intros k v'. rewrite Hsame. apply Hx.
    + intros k v' Hpk. destruct (decide (k = d)) as [->|Hne].
      * rewrite lru_put_peek in Hpk. by simplify_eq.
      * apply lru_put_others in Hpk; [|done]. rewrite lru_get_keeps in Hpk. by apply (ca_cached _ Hx).
  - split_and!; [|done|done]. split; simpl; [|intros k v; rewrite lru_get_keeps; apply (ca_cached _ Hx)].
    intros k v'. rewrite Hsame. apply Hx.
  - split_and!; [|done|done]. split; simpl; [|intros k v; rewrite lru_get_keeps; apply (ca_cached _ Hx)].
    intros k v'. rewrite Hsame. apply Hx.
Qed.

Lemma purge_addressed : respects (keeps content_addressed) (manager_purge (S := S)).
Proof.
  intros c x Hx. unfold manager_purge, state_after, mbind, M_bind, modify, on_backend, zoom. simpl.
  destruct (cs_purge_law c (cm_backend x)) as [Hsub _]. unfold state_after in Hsub.
  destruct (cs_purge c (cm_backend x)) as [[r c1] s1]. simpl in *. split; simpl.
  - intros k v Hk. by apply (ca_stored _ Hx), Hsub.
  - intros k v. by rewrite lru_peek_clear.
Qed.

Lemma op_addressed op : respects (keeps content_addressed) (run_cds_op op).
Proof.
  destruct op as [v|d|]; simpl; (apply respects_bind; [apply _|apply respects_attempt|intros _; apply respects_ret, _]).
  - apply store_addressed.
  - intros c x Hx. by apply resolve_facts.
  - apply purge_addressed.
Qed.

Lemma op_holds op k :
  op ≠ CdsPurge → respects (keeps (λ x, content_addressed x ∧ holds k x)) (run_cds_op op).
Proof.
  intros Hop. destruct op as [v|d|]; simpl; [| |done];
    (apply respects_bind; [apply _|apply respects_attempt|intros _; apply respects_ret, _]).
  - apply store_holds.
  - intros c x [Hx Hk]. destruct (resolve_facts d c x Hx) as (Hx' & Hsame & _). split; [done|].
    unfold holds. by rewrite Hsame.
Qed.

Definition run_cds_ops (ops : list cds_op) : M RustvelloError (Manager S) unit := for_each run_cds_op ops.

(** What a reference resolves to is its content.  From a new manager on an
    empty backend, after any stores, resolutions and purges, and whether or not
    the backend failed in any of them, a resolution that succeeds returns a text
    whose hash is the reference, and for any other text that text. *)
Theorem references_name_their_content backend ops d c c1 :
  (∀ k, cs_data backend k = None) →
  let x := state_after (run_cds_ops ops) c (manager_new config backend) in
  content_addressed x ∧
  ∀ v, result_of (resolve d) c1 x = Ok v → if is_reference d then d = generate_reference_key v else v = d.
Proof.
  intros Hempty x. assert (content_addressed x) as Hx.
  { apply (respects_for_each (E := RustvelloError) (keeps content_addressed) run_cds_op ops op_addressed).
    split; simpl; [intros k v; by rewrite Hempty|intros k v; by rewrite lru_peek_new]. }
  split; [done|]. by apply resolve_facts.
Qed.

(** C33: Storing and resolving is a round trip.  A text that is not itself of the
    form of a reference, stored in a content-addressed manager, is returned by
    what the store returned - the text when it is small, too large or the store is
    disabled, the reference otherwise - after any further stores and resolutions;
    another text can only be returned if it has the same hash.  A resolution fails
    only if the backend fails to return a text that it holds. *)
Theorem stored_values_are_resolved v handle ops c c1 c2 c3 x x1 :
  content_addressed x → is_reference v = false → Forall (λ op, op ≠ CdsPurge) ops →
  store_if_large config v c x = (Ok handle, c1, x1) →
  let x2 := state_after (run_cds_ops ops) c2 x1 in
  handle = (if externalized config v then generate_reference_key v else v) ∧
  (∀ v', result_of (resolve handle) c3 x2 = Ok v' →
     v' = v ∨ v' ≠ v ∧ externalized config v = true ∧ generate_reference_key v' = generate_reference_key v) ∧
  ((∀ k c s, is_Some (cs_data s k) → is_ok (result_of (cs_retrieve k) c s) = true) →
   is_ok (result_of (resolve handle) c3 x2) = true).
Proof.
  intros Hx Hv Hops Hstore x2.
  pose proof (store_addressed v c x Hx) as Hx1. unfold state_after in Hx1. rewrite Hstore in Hx1. simpl in Hx1.
  assert (handle = (if externalized config v then generate_reference_key v else v) ∧
    (externalized config v = true → holds (generate_reference_key v) x1)) as [Hhandle Hheld].
  { rewrite store_run in Hstore. destruct (externalized config v); [|by simplify_eq].
    destruct (backend_store_triple v (generate_reference_key v) c x (conj Hx (or_intror eq_refl))) as [_ Hb].
    unfold result_of, state_after, mbind, M_bind, cache_put, modify, mret, M_ret in *.
    destruct (on_backend (cs_store _ v) c x) as [[[[]|e|p] c0] x0]; simplify_eq/=. split; [done|].
    intros _. by apply Hb; left. }
  assert (content_addressed x2 ∧ (externalized config v = true → holds (generate_reference_key v) x2)) as [Hx2 Hheld2].
  { destruct (externalized config v) eqn:He.
    - assert (respects (keeps (λ x, content_addressed x ∧ holds (generate_reference_key v) x)) (run_cds_ops ops)) as Hr.
      { unfold run_cds_ops. clear -Hops. induction Hops as [|op ops Hop Hops IH]; simpl; [apply respects_ret, _|].
        apply respects_bind; [apply _|by apply op_holds|done]. }
      destruct (Hr c2 x1) as [? ?]; [split; [done|by apply Hheld]|]. by split.
    - split; [|done]. by apply (respects_for_each (E := RustvelloError) (keeps content_addressed) run_cds_op ops op_addressed). }
  destruct (resolve_facts handle c3 x2 Hx2) as (_ & _ & Hres). split_and!; [done| |].
  - intros v' Hr. specialize (Hres v' Hr). rewrite Hhandle in Hres. destruct (externalized config v).
    + rewrite key_is_reference in Hres. destruct (decide (v' = v)); [by left|right]. by split_and!.
    + rewrite Hv in Hres. by left.
  - intros Hrel. rewrite Hhandle. unfold resolve, result_of. destruct (externalized config v).
    + rewrite key_is_reference. simpl. unfold mbind, M_bind, get, modify. simpl.
      destruct (lru_get _ _).1; [done|]. unfold on_backend, zoom. simpl.
      specialize (Hrel (generate_reference_key v) c3 (cm_backend x2) (Hheld2 eq_refl)). unfold result_of in Hrel.
      by destruct (cs_retrieve _ c3 (cm_backend x2)) as [[[]]].
    + by rewrite Hv.
Qed.
End facts.

(** ** Witnesses *)

Fixpoint assoc (k : string) (l : list (string * string)) : option string :=
  match l with
  | [] => None
  | (k', v) :: l' => if decide (k' = k) then Some v else assoc k l'
  end.

Definition without (k : string) (l : list (string * string)) : list (string * string) :=
  bfilter (λ p, negb (bool_decide (p.1 = k))) l.

Lemma assoc_without k k' l : assoc k' (without k l) = if decide (k' = k) then None else assoc k' l.
Proof.
  induction l as [|[a b] l IH]; simpl; [by case_decide|]. unfold without, bfilter in *. simpl.
  case_bool_decide as Ha; simpl in *; rewrite ?IH; repeat case_decide; naive_solver.
Qed.

Lemma assoc_take n k x l : assoc k (take n l) = Some x → assoc k l = Some x.
Proof. revert n. induction l as [|[a b] l IH]; intros [|n]; simpl; try done. case_decide; [done|apply IH]. Qed.

(** Most recently used first. *)
Definition recent_first : LruCache.
Proof.
  refine {| lru_cache := (Z * list (string * string))%type;
            lru_new n := (n, []);
            lru_peek l k := assoc k l.2;
            lru_get k l := match assoc k l.2 with
                           | Some v => (Some v, (l.1, (k, v) :: without k l.2))
                           | None => (None, l)
                           end;
            lru_put k v l := (l.1, take (Z.to_nat (Z.max 1 l.1)) ((k, v) :: without k l.2));
            lru_clear l := (l.1, []) |}.
  - done.
  - intros k [n l]. simpl. by destruct (assoc k l).
  - intros k [n l] k'. simpl. destruct (assoc k l) as [v|] eqn:Hv; simpl; [|done].
    rewrite assoc_without. repeat case_decide; naive_solver.
  - intros k v [n l]. simpl. destruct (Z.to_nat (Z.max 1 n)) eqn:Hn; [lia|]. simpl. by rewrite decide_True.
  - intros k v [n l] k' x Hne. simpl. intros Hp%assoc_take. simpl in Hp.
    rewrite decide_False in Hp by done. rewrite assoc_without, decide_False in Hp by done. done.
  - done.
Defined.

(** Texts of two bytes and more are stored. *)
Definition demo_cds_config : ClientDataStoreConfig :=
  {| cd_disabled := false; cd_min_size_to_cache := 2; cd_max_size_to_cache := 0;
     cd_local_cache_size := 1; cd_warn_threshold := 10 |}.

Definition demo_manager : @Manager recent_first MemClientData :=
  manager_new demo_cds_config mem_client_data_new.

Lemma references_name_their_content_witness :
  @content_addressed recent_first pad_digest MemClientData mem_client_data
    (state_after (@run_cds_ops recent_first pad_digest MemClientData mem_client_data demo_cds_config
       [CdsStore "value"; CdsPurge; CdsResolve "other"; CdsStore "more"]) (frozen_clock 1) demo_manager).
Proof.
  exact (proj1 (@references_name_their_content recent_first pad_digest MemClientData mem_client_data
    demo_cds_config mem_client_data_new [CdsStore "value"; CdsPurge; CdsResolve "other"; CdsStore "more"]
    "x" (frozen_clock 1) (frozen_clock 1) ltac:(reflexivity))).
Defined.

Definition demo_put := @store_if_large recent_first pad_digest MemClientData mem_client_data demo_cds_config "value".

(** A value that the cache has forgotten is resolved from the backend. *)
Lemma stored_values_are_resolved_witness :
  let x1 := state_after demo_put (frozen_clock 1) demo_manager in
  let x2 := state_after (@run_cds_ops recent_first pad_digest MemClientData mem_client_data demo_cds_config
              [CdsStore "more"; CdsResolve "other"]) (frozen_clock 1) x1 in
  externalized demo_cds_config "value" = true ∧
  is_ok (result_of (@resolve recent_first MemClientData mem_client_data (@generate_reference_key pad_digest "value"))
    (frozen_clock 1) x2) = true.
Proof.
  intros x1 x2. split; [vm_compute; reflexivity|].
  destruct (@stored_values_are_resolved recent_first pad_digest MemClientData mem_client_data demo_cds_config
    "value" (@generate_reference_key pad_digest "value") [CdsStore "more"; CdsResolve "other"]
    (frozen_clock 1) (demo_put (frozen_clock 1) demo_manager).1.2 (frozen_clock 1) (frozen_clock 1) demo_manager x1) as (_ & _ & Hok).
  - split; simpl; [intros k v Hk; change ((∅ : gmap string string) !! k = Some v) in Hk; by rewrite lookup_empty in Hk|done].
  - vm_compute. reflexivity.
  - repeat constructor; discriminate.
  - vm_cast_no_check (eq_refl (demo_put (frozen_clock 1) demo_manager)).
  - apply Hok. intros k c s [v Hk]. unfold result_of. simpl. cbv [mbind M_bind get lift mem_retrieve].
    simpl in Hk. by rewrite Hk.
Defined.
