(* ===== verification/TaskCatalog.v ===== *)
(** * The task catalog: registered tasks and their effective configuration

    Models [rustvello/src/task_catalog.rs], [rustvello/src/task_config.rs] and
    the registry of [rustvello-core/src/task.rs].  The environment of the
    process, the glob matcher of the priority rules and the JSON encoder of the
    legacy adapter are arguments.  The theorems: which layer decides each field
    of a resolved configuration, what an environment variable can and cannot
    override, that the cache of environment overrides is invisible, and that a
    task is registered once. *)
From S2P Require Import Prelude Effects Identifiers Status Errors Config Call.

(** ** Partial configurations *)

(* @src rustvello/src/task_config.rs 10-43 TaskConfigOverride *)
Record TaskConfigOverride := mkOverride {
  ov_queue : option string;
  ov_priority : option f64;
  ov_max_retries : option Z;
  ov_concurrency_control : option ConcurrencyControlType;
  ov_running_concurrency : option (option Z);
  ov_registration_concurrency : option ConcurrencyControlType;
  ov_cache_results : option bool;
  ov_key_arguments : option (list string);
  ov_retry_for_errors : option (list string);
  ov_disable_cache_args : option (list string);
  ov_on_diff_non_key_args_raise : option bool;
  ov_parallel_batch_size : option Z;
  ov_is_workflow_task : option bool;
  ov_reroute_on_cc : option bool;
  ov_blocking : option bool;
  ov_retry_delay_ms : option Z;
  ov_retry_max_delay_ms : option Z;
  ov_retry_backoff : option f64;
  ov_retry_jitter : option RetryJitter;
  ov_timeout_ms : option (option Z);
  ov_retry_on_timeout : option bool
}.

#[export] Instance TaskConfigOverride_eq_dec : EqDecision TaskConfigOverride.
Proof. solve_decision. Defined.

(** The derived [Default]: nothing overridden. *)
(* @src rustvello/src/task_config.rs 13-14 TaskConfigOverride::default *)
Definition override_default : TaskConfigOverride :=
  mkOverride None None None None None None None None None None None None None None None None
    None None None None None.

(** Each [if let Some(v) = self.f { config.f = v }]. *)
(* @src rustvello/src/task_config.rs 69-134 TaskConfigOverride::apply_to *)
Definition apply_to (o : TaskConfigOverride) (c : TaskConfig) : TaskConfig :=
  {| tc_queue := default (tc_queue c) (ov_queue o);
     tc_priority := default (tc_priority c) (ov_priority o);
     tc_max_retries := default (tc_max_retries c) (ov_max_retries o);
     tc_retry_for_errors := default (tc_retry_for_errors c) (ov_retry_for_errors o);
     tc_concurrency_control := default (tc_concurrency_control c) (ov_concurrency_control o);
     tc_running_concurrency := default (tc_running_concurrency c) (ov_running_concurrency o);
     tc_registration_concurrency :=
       default (tc_registration_concurrency c) (ov_registration_concurrency o);
     tc_cache_results := default (tc_cache_results c) (ov_cache_results o);
     tc_key_arguments := default (tc_key_arguments c) (ov_key_arguments o);
     tc_disable_cache_args := default (tc_disable_cache_args c) (ov_disable_cache_args o);
     tc_on_diff_non_key_args_raise :=
       default (tc_on_diff_non_key_args_raise c) (ov_on_diff_non_key_args_raise o);
     tc_parallel_batch_size := default (tc_parallel_batch_size c) (ov_parallel_batch_size o);
     tc_is_workflow_task := default (tc_is_workflow_task c) (ov_is_workflow_task o);
     tc_reroute_on_cc := default (tc_reroute_on_cc c) (ov_reroute_on_cc o);
     tc_blocking := default (tc_blocking c) (ov_blocking o);
     tc_retry_delay_ms := default (tc_retry_delay_ms c) (ov_retry_delay_ms o);
     tc_retry_max_delay_ms := default (tc_retry_max_delay_ms c) (ov_retry_max_delay_ms o);
     tc_retry_backoff := default (tc_retry_backoff c) (ov_retry_backoff o);
     tc_retry_jitter := default (tc_retry_jitter c) (ov_retry_jitter o);
     tc_timeout_ms := default (tc_timeout_ms c) (ov_timeout_ms o);
     tc_retry_on_timeout := default (tc_retry_on_timeout c) (ov_retry_on_timeout o) |}.

(** The arguments that key a task's concurrency slot. *)
(* @src rustvello/src/task_config.rs 45-66 concurrency_arguments *)
Definition concurrency_arguments (mode : ConcurrencyControlType) (key_arguments : list string)
    (args : SerializedArguments) : option SerializedArguments :=
  match mode with
  | Unlimited => None
  | CCTask => Some arguments_new
  | CCArgument =>
      if bool_decide (key_arguments = []) then Some args
      else Some (fold_left (λ filtered key,
             match (args : gmap string string) !! key with
             | Some value => arguments_insert key value filtered
             | None => filtered
             end) key_arguments arguments_new)
  | CCNone => Some args
  end.

(* @src rustvello/src/task_config.rs 137-146 parse_concurrency_control_type *)
Definition parse_concurrency_control_type `{UnicodeCase} (s : string)
    : option ConcurrencyControlType :=
  let l := to_lowercase s in
  if decide (l = "unlimited") then Some Unlimited
  else if decide (l = "task") then Some CCTask
  else if decide (l = "argument") then Some CCArgument
  else if decide (l = "none") then Some CCNone
  else None.

(** ** The environment layer *)

(** The process environment: variables with a UTF-8 value. *)
Class Environment := { env_var : string → option string }.

Section environment.
Context `{Environment} `{ParseF64} `{UnicodeCase}.

(** [if let Some(val) = env(prefix, key) { if let Ok(v) = parse(val) { field = v } }]. *)
Definition env_parsed {A} (prefix key : string) (parse : string → option A) (field : A) : A :=
  default field (env_var (prefix +:+ key) ≫= parse).

Definition ok_of {E A} (o : outcome E A) : option A := match o with Ok a => Some a | _ => None end.

Definition positive_ms (val : string) : option Z :=
  match parse_uint u64_max val with Some ms => if 0 <? ms then Some ms else None | None => None end.

(* @src rustvello/src/task_config.rs 148-221 apply_task_env_overrides *)
Definition apply_task_env_overrides (prefix : string) (c : TaskConfig) : TaskConfig :=
  {| tc_queue := env_parsed prefix "QUEUE" Some (tc_queue c);
     tc_priority := env_parsed prefix "PRIORITY" parse_f64 (tc_priority c);
     tc_max_retries := env_parsed prefix "MAX_RETRIES" (parse_uint u32_max) (tc_max_retries c);
     tc_retry_for_errors := tc_retry_for_errors c;
     tc_concurrency_control :=
       env_parsed prefix "CONCURRENCY_CONTROL" parse_concurrency_control_type
         (tc_concurrency_control c);
     tc_running_concurrency :=
       match env_var (prefix +:+ "RUNNING_CONCURRENCY") with
       | Some val => parse_uint u32_max val
       | None => tc_running_concurrency c
       end;
     tc_registration_concurrency := tc_registration_concurrency c;
     tc_cache_results := env_parsed prefix "CACHE_RESULTS" parse_bool (tc_cache_results c);
     tc_key_arguments := tc_key_arguments c;
     tc_disable_cache_args := tc_disable_cache_args c;
     tc_on_diff_non_key_args_raise := tc_on_diff_non_key_args_raise c;
     tc_parallel_batch_size := tc_parallel_batch_size c;
     tc_is_workflow_task := env_parsed prefix "IS_WORKFLOW_TASK" parse_bool (tc_is_workflow_task c);
     tc_reroute_on_cc := env_parsed prefix "REROUTE_ON_CC" parse_bool (tc_reroute_on_cc c);
     tc_blocking := tc_blocking c;
     tc_retry_delay_ms :=
       env_parsed prefix "RETRY_DELAY_MS" (parse_uint u64_max) (tc_retry_delay_ms c);
     tc_retry_max_delay_ms :=
       env_parsed prefix "RETRY_MAX_DELAY_MS" (parse_uint u64_max) (tc_retry_max_delay_ms c);
     tc_retry_backoff := env_parsed prefix "RETRY_BACKOFF" parse_f64 (tc_retry_backoff c);
     tc_retry_jitter :=
       env_parsed prefix "RETRY_JITTER" (λ v, ok_of (jitter_from_str v)) (tc_retry_jitter c);
     tc_timeout_ms :=
       match env_var (prefix +:+ "TIMEOUT_MS") with
       | Some val => positive_ms val
       | None => tc_timeout_ms c
       end;
     tc_retry_on_timeout :=
       env_parsed prefix "RETRY_ON_TIMEOUT" parse_bool (tc_retry_on_timeout c) |}.

(** [(config.f != base.f).then_some(config.f)]. *)
Definition if_changed {A} `{EqDecision A} (new base : A) : option A :=
  if decide (new = base) then None else Some new.
Definition if_changed_f64 (new base : f64) : option f64 :=
  if f64_eqb new base then None else Some new.

(* @src rustvello/src/task_catalog.rs 191-191 TaskCatalog::get_or_load_env_override *)
Definition env_prefix (task_name : string) : string :=
  "RUSTVELLO__TASK__" +:+ to_uppercase task_name +:+ "__".

(* @src rustvello/src/task_catalog.rs 191-226 TaskCatalog::get_or_load_env_override *)
Definition load_env_override (task_name : string) : TaskConfigOverride :=
  let base := task_config_default in
  let config := apply_task_env_overrides (env_prefix task_name) task_config_default in
  {| ov_queue := if_changed (tc_queue config) (tc_queue base);
     ov_priority := if_changed_f64 (tc_priority config) (tc_priority base);
     ov_max_retries := if_changed (tc_max_retries config) (tc_max_retries base);
     ov_concurrency_control :=
       if_changed (tc_concurrency_control config) (tc_concurrency_control base);
     ov_running_concurrency :=
       if_changed (tc_running_concurrency config) (tc_running_concurrency base);
     ov_registration_concurrency := None;
     ov_cache_results := if_changed (tc_cache_results config) (tc_cache_results base);
     ov_key_arguments := None;
     ov_retry_for_errors := None;
     ov_disable_cache_args := None;
     ov_on_diff_non_key_args_raise := None;
     ov_parallel_batch_size := None;
     ov_is_workflow_task := if_changed (tc_is_workflow_task config) (tc_is_workflow_task base);
     ov_reroute_on_cc := if_changed (tc_reroute_on_cc config) (tc_reroute_on_cc base);
     ov_blocking := if_changed (tc_blocking config) (tc_blocking base);
     ov_retry_delay_ms := if_changed (tc_retry_delay_ms config) (tc_retry_delay_ms base);
     ov_retry_max_delay_ms :=
       if_changed (tc_retry_max_delay_ms config) (tc_retry_max_delay_ms base);
     ov_retry_backoff := if_changed_f64 (tc_retry_backoff config) (tc_retry_backoff base);
     ov_retry_jitter := if_changed (tc_retry_jitter config) (tc_retry_jitter base);
     ov_timeout_ms := if_changed (tc_timeout_ms config) (tc_timeout_ms base);
     ov_retry_on_timeout := if_changed (tc_retry_on_timeout config) (tc_retry_on_timeout base) |}.

(** The cache is filled on the first use of a name. *)
(* @src rustvello/src/task_catalog.rs 182-229 TaskCatalog::get_or_load_env_override *)
Definition get_or_load_env_override (task_name : string) (cache : gmap string TaskConfigOverride)
    : TaskConfigOverride * gmap string TaskConfigOverride :=
  match cache !! task_name with
  | Some cached => (cached, cache)
  | None => let o := load_env_override task_name in (o, <[task_name := o]> cache)
  end.
End environment.

(** ** The task registry *)

(** A registered task: its id, its configuration, and the function from
    serialized arguments to a serialized result.  Typed, legacy and foreign
    tasks differ in the function only. *)
(* @src rustvello-core/src/task.rs 148-167 DynTask *)
Record DynTask := mkDynTask {
  dt_task_id : TaskId;
  dt_config : TaskConfig;
  dt_execute : SerializedArguments → RustvelloResult string
}.

(* @src rustvello-core/src/task.rs 462-466 TaskDefinition *)
Record TaskDefinition := mkTaskDefinition {
  td_task_id : TaskId;
  td_config : TaskConfig;
  td_func : string → RustvelloResult string
}.

(** [serde_json::to_string] of the argument map. *)
Class SerdeMap := { json_map : gmap string string → RustvelloResult string }.

(* @src rustvello-core/src/task.rs 487-509 LegacyTaskAdapter *)
Definition legacy_adapter `{SerdeMap} (def : TaskDefinition) : DynTask :=
  {| dt_task_id := td_task_id def; dt_config := td_config def;
     dt_execute args := args_json ← json_map args; td_func def args_json |}.

(* @src rustvello-core/src/task.rs 413-443 TaskProxy *)
Definition task_proxy (task_id : TaskId) (config : TaskConfig) : DynTask :=
  {| dt_task_id := task_id; dt_config := config;
     dt_execute _ := Err (EConfiguration ("task proxy " +:+ task_id_display task_id +:+
       " cannot execute in this worker; it must be processed by a " +:+
       language_as_str (task_language task_id) +:+ " worker")) |}.

(* @src rustvello-core/src/task.rs 519-524 TaskRegistry *)
Record TaskRegistry := mkRegistry {
  tr_tasks : gmap TaskId DynTask;
  tr_legacy : gmap TaskId TaskDefinition
}.

(* @src rustvello-core/src/task.rs 526-529 TaskRegistry::new *)
Definition registry_new : TaskRegistry := {| tr_tasks := ∅; tr_legacy := ∅ |}.

Definition already_registered (t : TaskId) : RustvelloError :=
  EConfiguration ("task already registered: " +:+ task_id_display t).

(* @src rustvello-core/src/task.rs 531-541 TaskRegistry::register_typed *)
Definition register_typed (task : DynTask) (r : TaskRegistry) : RustvelloResult TaskRegistry :=
  match tr_tasks r !! dt_task_id task with
  | Some _ => Err (already_registered (dt_task_id task))
  | None => Ok {| tr_tasks := <[dt_task_id task := task]> (tr_tasks r); tr_legacy := tr_legacy r |}
  end.

(* @src rustvello-core/src/task.rs 548-563 TaskRegistry::register *)
Definition register_definition `{SerdeMap} (def : TaskDefinition) (r : TaskRegistry)
    : RustvelloResult TaskRegistry :=
  match tr_tasks r !! td_task_id def with
  | Some _ => Err (already_registered (td_task_id def))
  | None => Ok {| tr_tasks := <[td_task_id def := legacy_adapter def]> (tr_tasks r);
                  tr_legacy := <[td_task_id def := def]> (tr_legacy r) |}
  end.

(* @src rustvello-core/src/task.rs 565-582 TaskRegistry::register_task_proxy *)
Definition register_task_proxy (task_id : TaskId) (config : TaskConfig) (r : TaskRegistry)
    : RustvelloResult TaskRegistry :=
  match tr_tasks r !! task_id with
  | Some _ => Err (already_registered task_id)
  | None => Ok {| tr_tasks := <[task_id := task_proxy task_id config]> (tr_tasks r);
                  tr_legacy := tr_legacy r |}
  end.

(* @src rustvello-core/src/task.rs 584-589 TaskRegistry::unregister *)
Definition unregister (task_id : TaskId) (r : TaskRegistry) : bool * TaskRegistry :=
  (bool_decide (is_Some (tr_tasks r !! task_id)),
   {| tr_tasks := delete task_id (tr_tasks r); tr_legacy := delete task_id (tr_legacy r) |}).

(* @src rustvello-core/src/task.rs 591-594 TaskRegistry::get_dyn *)
Definition get_dyn (r : TaskRegistry) (task_id : TaskId) : option DynTask := tr_tasks r !! task_id.

(* @src rustvello-core/src/task.rs 596-599 TaskRegistry::get *)
Definition get_legacy (r : TaskRegistry) (task_id : TaskId) : option TaskDefinition :=
  tr_legacy r !! task_id.

(* @src rustvello-core/src/task.rs 601-604 TaskRegistry::contains *)
Definition registry_contains (r : TaskRegistry) (task_id : TaskId) : bool :=
  bool_decide (is_Some (tr_tasks r !! task_id)).

(** ** The catalog *)

(** [glob::Pattern::new(p)] with [matches]; an invalid pattern is [None]. *)
Class Glob := { glob_matches : string → string → option bool }.

(* @src rustvello/src/task_catalog.rs 19-24 TaskCatalog *)
Record TaskCatalog := mkCatalog {
  cat_registry : TaskRegistry;
  cat_task_config_overrides : gmap string TaskConfigOverride;
  cat_task_defaults_override : TaskConfigOverride;
  cat_env_override_cache : gmap string TaskConfigOverride
}.

(* @src rustvello/src/task_catalog.rs 57-64 TaskCatalog::new *)
Definition catalog_new : TaskCatalog := mkCatalog registry_new ∅ override_default ∅.

(* @src rustvello/src/task_catalog.rs 66-73 TaskCatalog::from_registry *)
Definition catalog_from_registry (r : TaskRegistry) : TaskCatalog := mkCatalog r ∅ override_default ∅.

(* @src rustvello/src/task_catalog.rs 113-115 TaskCatalog::get *)
Definition catalog_get (cat : TaskCatalog) (task_id : TaskId) : option DynTask :=
  get_dyn (cat_registry cat) task_id.

(* @src rustvello/src/task_catalog.rs 117-119 TaskCatalog::contains *)
Definition catalog_contains (cat : TaskCatalog) (task_id : TaskId) : bool :=
  registry_contains (cat_registry cat) task_id.

(* @src rustvello/src/task_catalog.rs 121-132 TaskCatalog::set_config_overrides *)
Definition set_config_overrides (overrides : gmap string TaskConfigOverride)
    (defaults : TaskConfigOverride) (cat : TaskCatalog) : TaskCatalog :=
  mkCatalog (cat_registry cat) overrides defaults ∅.

Definition with_registry (cat : TaskCatalog) (r : TaskRegistry) : TaskCatalog :=
  mkCatalog r (cat_task_config_overrides cat) (cat_task_defaults_override cat)
    (cat_env_override_cache cat).

(* @src rustvello/src/task_catalog.rs 87-95 TaskCatalog::register_task *)
Definition register_task `{SerdeMap} (task_id : TaskId) (config : TaskConfig)
    (func : string → RustvelloResult string) (cat : TaskCatalog) : RustvelloResult TaskCatalog :=
  r ← register_definition (mkTaskDefinition task_id config func) (cat_registry cat);
  Ok (with_registry cat r).

(* @src rustvello/src/task_catalog.rs 97-103 TaskCatalog::register_foreign_task *)
Definition register_foreign_task (task_id : TaskId) (config : TaskConfig) (cat : TaskCatalog)
    : RustvelloResult TaskCatalog :=
  r ← register_task_proxy task_id config (cat_registry cat);
  Ok (with_registry cat r).

(* @src rustvello/src/task_catalog.rs 105-107 TaskCatalog::register *)
Definition catalog_register (task : DynTask) (cat : TaskCatalog) : RustvelloResult TaskCatalog :=
  r ← register_typed task (cat_registry cat);
  Ok (with_registry cat r).

Section resolution.
Context `{Environment} `{ParseF64} `{UnicodeCase} `{Glob}.

(** The rules whose pattern matches a task, and their greatest priority. *)
(* @src rustvello/src/task_catalog.rs 150-158 TaskCatalog::resolve_config *)
Definition rule_priority_for (rules : list BrokerPriorityRule) (task_id : TaskId) : option f64 :=
  max_by f64_total_cmp
    (rule_priority <$>
      bfilter (λ rule, default false (glob_matches (rule_task_id rule) (task_id_display task_id)))
        rules).

Definition set_priority (p : f64) (c : TaskConfig) : TaskConfig :=
  {| tc_queue := tc_queue c; tc_priority := p; tc_max_retries := tc_max_retries c;
     tc_retry_for_errors := tc_retry_for_errors c;
     tc_concurrency_control := tc_concurrency_control c;
     tc_running_concurrency := tc_running_concurrency c;
     tc_registration_concurrency := tc_registration_concurrency c;
     tc_cache_results := tc_cache_results c; tc_key_arguments := tc_key_arguments c;
     tc_disable_cache_args := tc_disable_cache_args c;
     tc_on_diff_non_key_args_raise := tc_on_diff_non_key_args_raise c;
     tc_parallel_batch_size := tc_parallel_batch_size c; tc_is_workflow_task := tc_is_workflow_task c;
     tc_reroute_on_cc := tc_reroute_on_cc c; tc_blocking := tc_blocking c;
     tc_retry_delay_ms := tc_retry_delay_ms c; tc_retry_max_delay_ms := tc_retry_max_delay_ms c;
     tc_retry_backoff := tc_retry_backoff c; tc_retry_jitter := tc_retry_jitter c;
     tc_timeout_ms := tc_timeout_ms c; tc_retry_on_timeout := tc_retry_on_timeout c |}.

(** The layers over the base configuration, given the environment layer. *)
Definition layered (cat : TaskCatalog) (app_config : AppConfig) (task_id : TaskId)
    (env : TaskConfigOverride) (base : TaskConfig) : TaskConfig :=
  let config := apply_to (cat_task_defaults_override cat) base in
  let config :=
    match cat_task_config_overrides cat !! task_name task_id with
    | Some per_task => apply_to per_task config
    | None => config
    end in
  let config := apply_to env config in
  set_priority (default (tc_priority config) (rule_priority_for (ac_priority_rules app_config) task_id))
    config.

(** The configuration, and the catalog with the cache it may have filled. *)
(* @src rustvello/src/task_catalog.rs 134-162 TaskCatalog::resolve_config *)
Definition resolve_config (cat : TaskCatalog) (app_config : AppConfig) (task_id : TaskId)
    (base : TaskConfig) : TaskConfig * TaskCatalog :=
  let '(env, cache) := get_or_load_env_override (task_name task_id) (cat_env_override_cache cat) in
  (layered cat app_config task_id env base,
   mkCatalog (cat_registry cat) (cat_task_config_overrides cat) (cat_task_defaults_override cat) cache).

Definition resolved (cat : TaskCatalog) (app_config : AppConfig) (task_id : TaskId)
    (base : TaskConfig) : TaskConfig := (resolve_config cat app_config task_id base).1.

(* @src rustvello/src/task_catalog.rs 164-169 TaskCatalog::routing_for *)
Definition routing_for (cat : TaskCatalog) (app_config : AppConfig) (task_id : TaskId)
    : option (string * f64) :=
  match catalog_get cat task_id with
  | Some task =>
      let config := resolved cat app_config task_id (dt_config task) in
      Some (tc_queue config, tc_priority config)
  | None => None
  end.

(** One entry per registered task that has a route. *)
(* @src rustvello/src/task_catalog.rs 171-180 TaskCatalog::all_routing *)
Definition all_routing (cat : TaskCatalog) (app_config : AppConfig) : gmap TaskId (string * f64) :=
  map_imap (λ task_id _, routing_for cat app_config task_id) (tr_tasks (cat_registry cat)).

(** ** Lemmas on the layers *)

(** What the layers below the environment give. *)
Definition below_env (cat : TaskCatalog) (task_id : TaskId) (base : TaskConfig) : TaskConfig :=
  let config := apply_to (cat_task_defaults_override cat) base in
  match cat_task_config_overrides cat !! task_name task_id with
  | Some per_task => apply_to per_task config
  | None => config
  end.

Lemma layered_eq cat cfg t env base :
  layered cat cfg t env base =
    let config := apply_to env (below_env cat t base) in
    set_priority (default (tc_priority config) (rule_priority_for (ac_priority_rules cfg) t)) config.
Proof. reflexivity. Qed.

Lemma resolve_config_catalog cat cfg t base :
  let cat' := (resolve_config cat cfg t base).2 in
  cat_registry cat' = cat_registry cat ∧
  cat_task_config_overrides cat' = cat_task_config_overrides cat ∧
  cat_task_defaults_override cat' = cat_task_defaults_override cat ∧
  ∀ name, (get_or_load_env_override name (cat_env_override_cache cat')).1 =
          (get_or_load_env_override name (cat_env_override_cache cat)).1.
Proof.
  unfold resolve_config. destruct (get_or_load_env_override _ _) as [env cache] eqn:E. simpl.
  split_and!; [done..|]. intros name. revert E. unfold get_or_load_env_override.
  destruct (cat_env_override_cache cat !! task_name t) as [o|] eqn:Ho; intros [= <- <-]; [done|].
  destruct (decide (name = task_name t)) as [->|Hn].
  - by rewrite lookup_insert_eq, Ho.
  - rewrite lookup_insert_ne by congruence. by destruct (cat_env_override_cache cat !! name).
Qed.

Lemma resolved_eq cat cfg t base :
  resolved cat cfg t base =
    layered cat cfg t (get_or_load_env_override (task_name t) (cat_env_override_cache cat)).1 base.
Proof. unfold resolved, resolve_config. by destruct (get_or_load_env_override _ _). Qed.

Lemma resolved_uncached cat cfg t base :
  cat_env_override_cache cat !! task_name t = None →
  resolved cat cfg t base = layered cat cfg t (load_env_override (task_name t)) base.
Proof. intros Hc. rewrite resolved_eq. unfold get_or_load_env_override. by rewrite Hc. Qed.

(** ** Properties of the resolution *)

(** An environment variable overrides a task's setting unless its value is
    the built-in default: then the variable has no effect and the value from
    code or from the configuration file stays.  So [MAX_RETRIES=0] does not turn
    retries off, and [TIMEOUT_MS=0] (or any text that is not a positive number)
    does not clear a deadline. *)
Theorem env_override_behaviour cat cfg t base :
  cat_env_override_cache cat !! task_name t = None →
  let var key := env_var (env_prefix (task_name t) +:+ key) in
  (∀ n, var "MAX_RETRIES" ≫= parse_uint u32_max = Some n →
     tc_max_retries (resolved cat cfg t base) =
       if decide (n = 0) then tc_max_retries (below_env cat t base) else n) ∧
  (∀ q, var "QUEUE" = Some q →
     tc_queue (resolved cat cfg t base) =
       if decide (q = DEFAULT_QUEUE) then tc_queue (below_env cat t base) else q) ∧
  (∀ v, var "TIMEOUT_MS" = Some v →
     tc_timeout_ms (resolved cat cfg t base) =
       match positive_ms v with
       | Some ms => Some ms
       | None => tc_timeout_ms (below_env cat t base)
       end).
Proof.
  intros Hc var. rewrite (resolved_uncached _ _ _ _ Hc), layered_eq.
  split_and!;
    cbn [set_priority apply_to tc_max_retries tc_queue tc_timeout_ms];
    unfold load_env_override;
    cbn [apply_task_env_overrides tc_max_retries tc_queue tc_timeout_ms ov_max_retries ov_queue
         ov_timeout_ms];
    unfold if_changed, env_parsed.
  - intros n Hn. unfold var in Hn. rewrite Hn. simpl. by case_decide.
  - intros q Hq. unfold var in Hq. rewrite Hq. simpl. by case_decide.
  - intros v Hv. unfold var in Hv. rewrite Hv. destruct (positive_ms v); simpl; try case_decide; done.
Qed.

(** A priority rule that matches decides the priority: the resolved priority
    is that of a matching rule and no matching rule has a greater one, whatever
    the code, the configuration file and the environment say; without a matching
    rule those layers decide.  Nothing else depends on the rules. *)
Theorem priority_rules_decide cat cfg t base :
  let rule_matches rule :=
    default false (glob_matches (rule_task_id rule) (task_id_display t)) = true in
  let p := tc_priority (resolved cat cfg t base) in
  (((∃ rule, rule ∈ ac_priority_rules cfg ∧ rule_matches rule ∧ p = rule_priority rule) ∧
    ∀ rule, rule ∈ ac_priority_rules cfg → rule_matches rule → f64_key (rule_priority rule) ≤ f64_key p) ∨
   (∀ rule, rule ∈ ac_priority_rules cfg → ¬ rule_matches rule) ∧
   resolved cat cfg t base =
     apply_to (get_or_load_env_override (task_name t) (cat_env_override_cache cat)).1
       (below_env cat t base)).
Proof.
  intros rule_matches p. subst p. rewrite resolved_eq, layered_eq. cbn [set_priority tc_priority].
  unfold rule_priority_for. set (l := bfilter _ _).
  assert (∀ rule, rule ∈ l ↔ rule_matches rule ∧ rule ∈ ac_priority_rules cfg) as Hl
    by (intros rule; apply elem_of_bfilter).
  destruct (max_by f64_total_cmp (rule_priority <$> l)) as [m|] eqn:Hm; [left|right].
  - apply max_by_Some in Hm as [Hin Hge]; [|apply _..].
    apply list_elem_of_fmap in Hin as (rule & -> & Hr%Hl). split; [naive_solver|].
    intros rule' Hr' Hm'. specialize (Hge (rule_priority rule')).
    assert (rule_priority rule' ∈ rule_priority <$> l) as Hin
      by (apply list_elem_of_fmap; exists rule'; split; [done|by apply Hl]).
    apply total_cmp_le in Hge; done.
  - apply max_by_None, fmap_nil_inv in Hm. split.
    + intros rule Hr Hmatch. assert (rule ∈ l) as Hin by (by apply Hl). rewrite Hm in Hin.
      by apply elem_of_nil in Hin.
    + reflexivity.
Qed.

(** The cache of environment overrides is invisible: resolving one task
    changes no later resolution, of the same task or of another, nor any route,
    as long as the environment stays the same. *)
Theorem resolution_is_stable cat cfg t base cfg' t' base' :
  let cat' := (resolve_config cat cfg t base).2 in
  resolved cat' cfg' t' base' = resolved cat cfg' t' base' ∧
  routing_for cat' cfg' t' = routing_for cat cfg' t' ∧
  all_routing cat' cfg' = all_routing cat cfg'.
Proof.
  intros cat'. destruct (resolve_config_catalog cat cfg t base) as (Hr & Ho & Hd & He).
  fold cat' in Hr, Ho, Hd, He.
  assert (∀ c u b, resolved cat' c u b = resolved cat c u b) as Hres.
  { intros c u b. rewrite !resolved_eq, !layered_eq, He. unfold below_env. by rewrite Ho, Hd. }
  assert (∀ u, routing_for cat' cfg' u = routing_for cat cfg' u) as Hroute.
  { intros u. unfold routing_for, catalog_get. rewrite Hr.
    destruct (get_dyn _ _); [|done]. by rewrite Hres. }
  split_and!; [done|done|]. unfold all_routing. rewrite Hr. apply map_eq. intros u.
  rewrite !map_lookup_imap. by rewrite Hroute.
Qed.
End resolution.

(** ** The registry *)

Section registry.
Context `{SerdeMap}.

(** The calls that change a registry. *)
Inductive registry_op :=
| RegTyped (task : DynTask)
| RegDefinition (def : TaskDefinition)
| RegProxy (t : TaskId) (config : TaskConfig)
| RegRemove (t : TaskId).

(** An error leaves the registry as it is. *)
Definition run_registry_op (op : registry_op) (r : TaskRegistry) : TaskRegistry :=
  match op with
  | RegTyped task => match register_typed task r with Ok r' => r' | _ => r end
  | RegDefinition def => match register_definition def r with Ok r' => r' | _ => r end
  | RegProxy t config => match register_task_proxy t config r with Ok r' => r' | _ => r end
  | RegRemove t => (unregister t r).2
  end.

Definition registry_step (r r' : TaskRegistry) : Prop := ∃ op, r' = run_registry_op op r.

(** Every task is filed under its own id, and a legacy definition is the one
    the task of that id runs. *)
Definition registry_wf (r : TaskRegistry) : Prop :=
  (∀ t task, tr_tasks r !! t = Some task → dt_task_id task = t) ∧
  (∀ t def, tr_legacy r !! t = Some def → tr_tasks r !! t = Some (legacy_adapter def)).

Lemma registry_wf_run op r : registry_wf r → registry_wf (run_registry_op op r).
Proof.
  intros [Hid Hleg]. destruct op as [task|def|t config|t]; simpl.
  - unfold register_typed. destruct (tr_tasks r !! dt_task_id task) eqn:Ht; [done|].
    split; simpl; intros u x; [rewrite lookup_insert_Some; naive_solver|].
    intros Hu. rewrite lookup_insert_ne; [by auto|]. intros <-. apply Hleg in Hu. congruence.
  - unfold register_definition. destruct (tr_tasks r !! td_task_id def) eqn:Ht; [done|].
    split; simpl; intros u x; rewrite !lookup_insert_Some; [naive_solver|].
    intros [[<- <-]|[Hn Hu]]; [by left|by right; auto].
  - unfold register_task_proxy. destruct (tr_tasks r !! t) eqn:Ht; [done|].
    split; simpl; intros u x; [rewrite lookup_insert_Some; naive_solver|].
    intros Hu. rewrite lookup_insert_ne; [by auto|]. intros <-. apply Hleg in Hu. congruence.
  - split; simpl; intros u x; rewrite !lookup_delete_Some; naive_solver.
Qed.

Lemma registry_reachable_wf r : rtc registry_step registry_new r → registry_wf r.
Proof.
  intros Hr. assert (registry_wf registry_new) as Hnew by (split; by intros).
  induction Hr as [|x y z [op ->] _ IH]; [done|]. by apply IH, registry_wf_run.
Qed.

(** A task id is registered at most once until it is removed: registering
    an id that is taken, in any of the three ways, is a configuration error; on a
    free id it makes exactly that id available, filed under its own id, with a
    legacy definition being what the task of its id runs; and a removed id can be
    registered again. *)
Theorem tasks_are_registered_once r task :
  rtc registry_step registry_new r →
  match get_dyn r (dt_task_id task) with
  | Some _ =>
      register_typed task r = Err (already_registered (dt_task_id task)) ∧
      register_task_proxy (dt_task_id task) (dt_config task) r =
        Err (already_registered (dt_task_id task)) ∧
      (∀ f, register_definition (mkTaskDefinition (dt_task_id task) (dt_config task) f) r =
        Err (already_registered (dt_task_id task))) ∧
      is_ok (register_typed task (unregister (dt_task_id task) r).2) = true
  | None =>
      ∃ r', register_typed task r = Ok r' ∧ get_dyn r' (dt_task_id task) = Some task ∧
        ∀ t, t ≠ dt_task_id task → get_dyn r' t = get_dyn r t
  end ∧
  (∀ t x, get_dyn r t = Some x → dt_task_id x = t) ∧
  (∀ t def, get_legacy r t = Some def → get_dyn r t = Some (legacy_adapter def)).
Proof.
  intros [Hid Hleg]%registry_reachable_wf. split; [|split; [exact Hid|exact Hleg]].
  unfold get_dyn, register_typed, register_task_proxy, register_definition. simpl.
  destruct (tr_tasks r !! dt_task_id task) as [x|].
  - split_and!; try done. by rewrite lookup_delete_eq.
  - eexists. split; [done|]. simpl. split; [by rewrite lookup_insert_eq|].
    intros t Ht. by rewrite lookup_insert_ne.
Qed.
End registry.

(** ** Concurrency keys *)

Lemma filtered_arguments_lookup keys (args acc : SerializedArguments) k :
  (fold_left (λ filtered key,
     match (args : gmap string string) !! key with
     | Some value => arguments_insert key value filtered
     | None => filtered
     end) keys acc : gmap string string) !! k =
  if decide (k ∈ keys ∧ is_Some ((args : gmap string string) !! k))
  then (args : gmap string string) !! k else (acc : gmap string string) !! k.
Proof.
  revert acc. induction keys as [|key keys IH]; intros acc; cbn [fold_left].
  { by rewrite decide_False by set_solver. }
  rewrite IH. unfold arguments_insert, SerializedArguments in *.
  destruct (decide (k = key)) as [->|Hk].
  - destruct (args !! key) as [v|] eqn:Hv.
    + rewrite lookup_insert_eq, (decide_True (P := key ∈ key :: keys ∧ _)) by set_solver.
      by case_decide.
    + rewrite !decide_False by (intros [_ [? ?]]; congruence). done.
  - assert ((k ∈ key :: keys) ↔ k ∈ keys) as Hin by set_solver.
    destruct (args !! key) as [v|]; rewrite ?lookup_insert_ne by done;
      repeat case_decide; naive_solver.
Qed.

(** What keys a concurrency slot: no slot when concurrency is unlimited, one
    slot for the task when it is limited per task, and when it is limited per
    argument, two calls share a slot exactly when they agree on the key arguments
    (on all arguments if no key arguments are named). *)
Theorem concurrency_key_of_mode mode keys args args' :
  match mode with
  | Unlimited => concurrency_arguments mode keys args = None
  | CCTask => concurrency_arguments mode keys args = concurrency_arguments mode keys args'
  | CCArgument =>
      concurrency_arguments mode keys args = concurrency_arguments mode keys args' ↔
        ∀ k, (keys = [] ∨ k ∈ keys) →
          (args : gmap string string) !! k = (args' : gmap string string) !! k
  | CCNone =>
      concurrency_arguments mode keys args = concurrency_arguments mode keys args' ↔ args = args'
  end.
Proof.
  destruct mode; simpl; try done; [|naive_solver].
  case_bool_decide as Hk.
  - split; [intros [= ->] ??; done|]. intros He. f_equal. apply map_eq. intros k. by apply He; left.
  - split.
    + intros He k [?|Hin]; [done|].
      assert (∀ a a' : SerializedArguments, Some a = Some a' →
                (a : gmap string string) !! k = (a' : gmap string string) !! k) as Hinj by naive_solver.
      apply Hinj in He. rewrite !filtered_arguments_lookup in He.
      unfold arguments_new, SerializedArguments in *. rewrite !lookup_empty in He.
      destruct (args !! k) eqn:E1, (args' !! k) eqn:E2; repeat case_decide; naive_solver.
    + intros He. f_equal. apply (map_eq (M := gmap string)). intros k.
      rewrite !filtered_arguments_lookup. unfold SerializedArguments in *.
      destruct (decide (k ∈ keys)) as [Hin|Hin]; [by rewrite (He k (or_intror Hin))|].
      by rewrite !decide_False by naive_solver.
Qed.

(** ** Concrete instances and witnesses *)

Definition env_list (l : list (string * string)) : Environment :=
  {| env_var key := list_to_map (M := gmap string string) l !! key |}.

(** A decimal parser for whole numbers, as far as the witnesses need one. *)
Definition parse_one : ParseF64 := {| parse_f64 s := if decide (s = "1") then Some f64_one else None |}.

(** Patterns without wildcards, and the pattern that matches everything. *)
Definition literal_glob : Glob := {| glob_matches p s := Some (bool_decide (p = "*" ∨ p = s)) |}.

Definition json_keys : SerdeMap := {| json_map args := Ok (str_join "," (btree_iter args).*1) |}.

Definition fetch_task : TaskId := mkTaskId Rust "appfetch" 3.
Definition fetch_env : Environment :=
  env_list [("RUSTVELLO__TASK__FETCH__MAX_RETRIES", "0"); ("RUSTVELLO__TASK__FETCH__QUEUE", "slow");
            ("RUSTVELLO__TASK__FETCH__TIMEOUT_MS", "0")].
Definition fetch_config : TaskConfig :=
  apply_to {| ov_queue := None; ov_priority := None; ov_max_retries := Some 5;
    ov_concurrency_control := None; ov_running_concurrency := None;
    ov_registration_concurrency := None; ov_cache_results := None; ov_key_arguments := None;
    ov_retry_for_errors := None; ov_disable_cache_args := None;
    ov_on_diff_non_key_args_raise := None; ov_parallel_batch_size := None;
    ov_is_workflow_task := None; ov_reroute_on_cc := None; ov_blocking := None;
    ov_retry_delay_ms := None; ov_retry_max_delay_ms := None; ov_retry_backoff := None;
    ov_retry_jitter := None; ov_timeout_ms := Some (Some 2000); ov_retry_on_timeout := None |}
    task_config_default.

(** Five retries and a deadline set in code: "0" in the environment changes
    neither, while the queue is overridden. *)
Lemma env_override_behaviour_witness :
  let config := @resolved fetch_env parse_one ascii_case literal_glob catalog_new
                  (app_config_new "app") fetch_task fetch_config in
  tc_max_retries config = 5 ∧ tc_queue config = "slow" ∧ tc_timeout_ms config = Some 2000.
Proof.
  destruct (@env_override_behaviour fetch_env parse_one ascii_case literal_glob catalog_new
    (app_config_new "app") fetch_task fetch_config eq_refl) as (Hr & Hq & Ht).
  split; [|split].
  - exact (Hr 0 ltac:(vm_compute; reflexivity)).
  - exact (Hq "slow" ltac:(vm_compute; reflexivity)).
  - exact (Ht "0" ltac:(vm_compute; reflexivity)).
Defined.

Lemma tasks_are_registered_once_witness :
  let task := task_proxy fetch_task task_config_default in
  let r := run_registry_op (H := json_keys) (RegTyped task) registry_new in
  register_typed task r = Err (already_registered fetch_task) ∧
  is_ok (register_typed task (unregister fetch_task r).2) = true.
Proof.
  intros task r.
  assert (rtc (registry_step (H := json_keys)) registry_new r) as Hr
    by (apply rtc_once; exists (RegTyped task); reflexivity).
  destruct (tasks_are_registered_once (H := json_keys) r task Hr) as [(Ht & _ & _ & Hu) _].
  split; [exact Ht|exact Hu].
Defined.
