(* ===== verification/Ports.v ===== *)
(** * The ports of the orchestrator

    The orchestration service of [rustvello/src/orchestration] works against
    trait objects: invocation control, state backend, broker, trigger manager and
    the optional transactional publication.  [Ports] collects the operations it
    calls, over an arbitrary state; [PortLaws] states what most of the orchestrator's
    theorems rely on, as effects on an abstract [RuntimeView], for backends without
    transactional publication whose operations do not fail.  The in-memory backends
    implement the ports on a combined state ([mem_ports]), and [mem_port_laws] shows
    that they keep the laws.

    The data of the publication port is that of
    [rustvello-core/src/publication.rs]. *)
From S2P Require Import Prelude Effects Json Identifiers Status Errors Config Call Invocation Trigger OrchestratorState MemOrchestrator MemOrchestratorFacts MemBroker MemStateBackend.

(** ** The publication port *)

(* @src rustvello-core/src/publication.rs 17-21 PublicationRoute *)
Record PublicationRoute := mkRoute { route_queue : string; route_priority : f64 }.

(* @src rustvello-core/src/publication.rs 23-32 SubmissionPublication *)
Record SubmissionPublication := mkSubmission {
  sp_invocation : InvocationDTO;
  sp_call : CallDTO;
  sp_runner_id : RunnerId;
  sp_runner_context : option StoredRunnerContext;
  sp_workflow_root : bool;
  sp_cc_arguments : option SerializedArguments;
  sp_route : PublicationRoute
}.

(** The part of a submission that identifies it for every transactional publication. *)
Definition submission_content (s : SubmissionPublication) :=
  let call := sp_call s in
  let i := sp_invocation s in
  ((task_id_fields (call_task_id (cd_call_id call)), args_id (cd_call_id call),
    task_id_fields (cd_task_id call), cd_serialized_arguments call : gmap string string),
   inv_parent i,
   (λ w, (workflow_id w, task_id_fields (workflow_type w), wf_parent_id w, wf_depth w)) <$> inv_workflow i,
   (traceparent (inv_trace_context i), tracestate (inv_trace_context i)),
   route_queue (sp_route s), route_priority (sp_route s), sp_workflow_root s,
   (sp_cc_arguments s : option (gmap string string))).

(** [serde_json] on that part: a JSON object, which determines it. *)
Class SubmissionCodec := {
  submission_identity : SubmissionPublication → string;
  submission_identity_object s : submission_identity s ≠ "";
  submission_identity_faithful s s' :
    f64_is_finite (route_priority (sp_route s)) = true → f64_is_finite (route_priority (sp_route s')) = true →
    submission_identity s = submission_identity s' ↔ submission_content s = submission_content s'
}.

(* @src rustvello-core/src/publication.rs 34-54 PublicationChange *)
Inductive PublicationChange :=
| ChangeStatus (status : InvocationStatus)
| ChangeRetry (route : PublicationRoute)
| ChangeDelayedRetry (route : PublicationRoute) (delay : Z)
| ChangeReroute (route : PublicationRoute)
| ChangeConcurrencyReroute (route : PublicationRoute)
| ChangeRecover (status : InvocationStatus) (stale_after_seconds : Z) (route : PublicationRoute)
| ChangeSuccess (result : string)
| ChangeFailure (error : TaskError).

(* @src rustvello-core/src/publication.rs 56-87 RuntimePublication *)
Record RuntimePublication (S : Type) := mkPublication {
  pub_domain : string;
  pub_supports_delayed_retry : bool;
  pub_begin_execution : InvocationId → RunnerId → Z → TraceContextCarrier →
    M RustvelloError S ExecutionAttemptIdentity;
  pub_submit : SubmissionPublication → M RustvelloError S bool;
  pub_change : InvocationId → RunnerId → PublicationChange → bool →
    M RustvelloError S (option InvocationStatusRecord)
}.
#[global] Arguments pub_domain {S}.
#[global] Arguments pub_supports_delayed_retry {S}.
#[global] Arguments pub_begin_execution {S}.
#[global] Arguments pub_submit {S}.
#[global] Arguments pub_change {S}.

(** ** The trigger port *)

(** What the orchestrator asks of the trigger manager. *)
Record TriggerPort `{JsonValue} (S : Type) := mkTriggerPort {
  tm_report_status_change : StatusContext → M RustvelloError S unit;
  tm_report_result : ResultContext → M RustvelloError S unit;
  tm_report_failure : ExceptionContext → M RustvelloError S unit;
  tm_evaluate_cron_conditions : M RustvelloError S unit;
  tm_evaluate_trigger_runs : M RustvelloError S (list TriggerExecution);
  tm_pending_trigger_runs : Z → M RustvelloError S (list TriggerRunRecord);
  tm_complete_trigger_run : TriggerRunId → InvocationId → M RustvelloError S unit;
  tm_purge : M RustvelloError S unit
}.
#[global] Arguments tm_report_status_change {_ S}.
#[global] Arguments tm_report_result {_ S}.
#[global] Arguments tm_report_failure {_ S}.
#[global] Arguments tm_evaluate_cron_conditions {_ S}.
#[global] Arguments tm_evaluate_trigger_runs {_ S}.
#[global] Arguments tm_pending_trigger_runs {_ S}.
#[global] Arguments tm_complete_trigger_run {_ S}.
#[global] Arguments tm_purge {_ S}.

(** ** The ports *)

Class Ports `{JsonValue} (S : Type) := {
  ctl_runtime_publication : option (RuntimePublication S);
  ctl_register_invocation_with_id : InvocationId → CallDTO → option RunnerId →
    M RustvelloError S InvocationStatusRecord;
  ctl_increment_invocation_retries : InvocationId → M RustvelloError S Z;
  ctl_get_invocation_status : InvocationId → M RustvelloError S InvocationStatusRecord;
  ctl_set_invocation_status : InvocationId → InvocationStatus → option RunnerId →
    M RustvelloError S InvocationStatusRecord;
  ctl_schedule_auto_purge : InvocationId → M RustvelloError S unit;
  ctl_purge : M RustvelloError S unit;
  ctl_check_running_concurrency : TaskId → TaskConfig → option SerializedArguments →
    M RustvelloError S bool;
  ctl_index_for_concurrency_control : InvocationId → TaskId → option SerializedArguments →
    M RustvelloError S unit;
  ctl_remove_from_concurrency_index : InvocationId → M RustvelloError S unit;
  ctl_try_acquire_concurrency_slot : InvocationId → TaskId → TaskConfig →
    option SerializedArguments → M RustvelloError S bool;
  ctl_set_waiting_for : InvocationId → InvocationId → M RustvelloError S unit;
  ctl_release_waiters : InvocationId → M RustvelloError S (list InvocationId);
  ctl_get_invocations_by_status : InvocationStatus → option TaskId →
    M RustvelloError S (list InvocationId);
  ctl_get_blocking_invocations : nat → M RustvelloError S (list InvocationId);
  ctl_get_existing_invocations : TaskId → option SerializedArguments → list InvocationStatus →
    M RustvelloError S (list InvocationId);
  ctl_get_stale_pending_invocations : Z → M RustvelloError S (list InvocationId);
  ctl_get_stale_running_invocations : Z → M RustvelloError S (list InvocationId);
  ctl_register_heartbeat : RunnerId → bool → M RustvelloError S unit;
  ctl_get_active_runners : Z → option bool → M RustvelloError S (list ActiveRunnerInfo);
  ctl_record_atomic_service_execution : RunnerId → DateTime → DateTime → M RustvelloError S unit;

  sb_publication_domain : option string;
  sb_upsert_invocation : InvocationDTO → CallDTO → M RustvelloError S unit;
  sb_get_invocation : InvocationId → M RustvelloError S InvocationDTO;
  sb_get_call : CallId → M RustvelloError S CallDTO;
  sb_store_result_for_runner : InvocationId → string → RunnerId → M RustvelloError S unit;
  sb_store_error : InvocationId → TaskError → M RustvelloError S unit;
  sb_store_error_for_runner : InvocationId → TaskError → RunnerId → M RustvelloError S unit;
  sb_add_history : InvocationHistory → M RustvelloError S unit;
  sb_get_history : InvocationId → M RustvelloError S (list InvocationHistory);
  sb_store_workflow_run : WorkflowIdentity → M RustvelloError S unit;
  sb_get_runner_context : string → M RustvelloError S (option StoredRunnerContext);
  sb_store_runner_context : StoredRunnerContext → M RustvelloError S unit;
  sb_get_workflow_data : InvocationId → string → M RustvelloError S (option string);
  sb_set_workflow_data : InvocationId → string → string → M RustvelloError S unit;
  sb_purge : M RustvelloError S unit;

  br_publication_domain : option string;
  br_supports_delayed_delivery : bool;
  br_route_invocation_with_options : InvocationId → option TaskId → string → f64 →
    M RustvelloError S unit;
  br_route_invocation_after : InvocationId → option TaskId → string → f64 → Z →
    M RustvelloError S unit;
  br_retrieve_invocation_from_queue : string → option TaskId →
    M RustvelloError S (option InvocationId);
  br_retrieve_invocation_for_language_from_queue : TaskLanguage → string →
    M RustvelloError S (option InvocationId);
  br_purge : M RustvelloError S unit;

  tg_manager : option (TriggerPort S);

  (** The orchestrator's own fields and the process-wide queue counter. *)
  orch_auto_purge_delay_secs : Z;
  orch_runner_cached : string → M RustvelloError S bool;
  orch_cache_runner : string → M RustvelloError S unit;
  next_queue_index : M RustvelloError S Z;
  next_shuffle : M RustvelloError S nat
}.

(** ** The abstract view and the laws *)

(** What the orchestrator's theorems speak of: the status record and retry count
    of each invocation, the persisted invocations, calls, results, errors and
    histories, and the broker's queue. *)
Record RuntimeView := mkView {
  v_status : gmap InvocationId InvocationStatusRecord;
  v_retries : gmap InvocationId Z;
  v_invocations : gmap InvocationId InvocationDTO;
  v_calls : gmap string CallDTO;
  v_results : gmap InvocationId string;
  v_errors : gmap InvocationId TaskError;
  v_histories : gmap InvocationId (list InvocationHistory);
  v_queue : list QueuedInvocation;
  v_data : gmap InvocationId (gmap string string)
}.

Definition set_v_status (f : gmap InvocationId InvocationStatusRecord → gmap InvocationId InvocationStatusRecord)
    (v : RuntimeView) : RuntimeView :=
  mkView (f (v_status v)) (v_retries v) (v_invocations v) (v_calls v) (v_results v) (v_errors v)
    (v_histories v) (v_queue v) (v_data v).
Definition set_v_retries (f : gmap InvocationId Z → gmap InvocationId Z) (v : RuntimeView) : RuntimeView :=
  mkView (v_status v) (f (v_retries v)) (v_invocations v) (v_calls v) (v_results v) (v_errors v)
    (v_histories v) (v_queue v) (v_data v).
Definition set_v_stored (i : InvocationDTO) (c : CallDTO) (v : RuntimeView) : RuntimeView :=
  mkView (v_status v) (v_retries v) (<[inv_id i := i]> (v_invocations v))
    (<[call_id_display (cd_call_id c) := c]> (v_calls v)) (v_results v) (v_errors v)
    (v_histories v) (v_queue v) (v_data v).
Definition set_v_results (f : gmap InvocationId string → gmap InvocationId string) (v : RuntimeView)
    : RuntimeView :=
  mkView (v_status v) (v_retries v) (v_invocations v) (v_calls v) (f (v_results v)) (v_errors v)
    (v_histories v) (v_queue v) (v_data v).
Definition set_v_errors (f : gmap InvocationId TaskError → gmap InvocationId TaskError)
    (v : RuntimeView) : RuntimeView :=
  mkView (v_status v) (v_retries v) (v_invocations v) (v_calls v) (v_results v) (f (v_errors v))
    (v_histories v) (v_queue v) (v_data v).
Definition add_v_history (h : InvocationHistory) (v : RuntimeView) : RuntimeView :=
  mkView (v_status v) (v_retries v) (v_invocations v) (v_calls v) (v_results v) (v_errors v)
    (push_entry (hist_invocation_id h) h (v_histories v)) (v_queue v) (v_data v).
Definition set_v_queue (f : list QueuedInvocation → list QueuedInvocation) (v : RuntimeView)
    : RuntimeView :=
  mkView (v_status v) (v_retries v) (v_invocations v) (v_calls v) (v_results v) (v_errors v)
    (v_histories v) (f (v_queue v)) (v_data v).
(** The workflow data of [id]: [key] gets [value]. *)
Definition set_v_data (id : InvocationId) (key value : string) (v : RuntimeView) : RuntimeView :=
  mkView (v_status v) (v_retries v) (v_invocations v) (v_calls v) (v_results v) (v_errors v)
    (v_histories v) (v_queue v) (<[id := <[key := value]> (default ∅ (v_data v !! id))]> (v_data v)).
Definition v_datum (v : RuntimeView) (id : InvocationId) (key : string) : option string :=
  v_data v !! id ≫= λ m, m !! key.

(** The outcome a status change is bound to: not found, refused by the status
    machine, or the record the machine computes. *)
Definition status_change (v : RuntimeView) (id : InvocationId) (st : InvocationStatus)
    (r : option RunnerId) (now : DateTime) : RustvelloResult InvocationStatusRecord :=
  match v_status v !! id with
  | None => Err (EInvocationNotFound id)
  | Some cur =>
      match status_record_transition now (Some cur) st r with
      | Ok rec => Ok rec
      | Err e => Err (status_machine_error_to_rustvello e id (rec_status cur))
      | Panic p => Panic p
      end
  end.

(** A queue entry that is due at once, and one that is due after a delay. *)
Definition entry_now (id : InvocationId) (t : option TaskId) (q : string) (p : f64) : QueuedInvocation :=
  {| q_invocation_id := id; q_task_id := t; q_queue_name := q; q_priority := p; q_not_before := None |}.
Definition entry_after (now delay : Z) (id : InvocationId) (t : option TaskId) (q : string) (p : f64)
    : QueuedInvocation :=
  {| q_invocation_id := id; q_task_id := t; q_queue_name := q; q_priority := p;
     q_not_before := Some (now + delay) |}.

(** The view after an operation that changes it only when it succeeds. *)
Definition on_success {E A V} (r : outcome E A) (f : A → V) (v : V) : V :=
  match r with Ok a => f a | _ => v end.

Section yields.
Context {S : Type} (view : S → RuntimeView).

(** The run of [m] from [c], [s] ends with result [r] in a state that shows [v]. *)
Definition yields {A} (m : M RustvelloError S A) (c : Clock) (s : S) (r : RustvelloResult A)
    (v : RuntimeView) : Prop :=
  ∃ c' s', m c s = (r, c', s') ∧ view s' = v.

Lemma yields_bind {A B} (m : M RustvelloError S A) (f : A → M RustvelloError S B) c s a v r v' :
  yields m c s (Ok a) v → (∀ c' s', view s' = v → yields (f a) c' s' r v') → yields (m ≫= f) c s r v'.
Proof.
  intros (c1 & s1 & Hm & Hv) Hf. destruct (Hf c1 s1 Hv) as (c2 & s2 & Hf2 & Hv2).
  exists c2, s2. unfold mbind, M_bind. by rewrite Hm.
Qed.

(** The first step of a run, with what it leaves for the rest. *)
Lemma yields_step {A} (m : M RustvelloError S A) c s a v :
  yields m c s (Ok a) v →
  ∃ c1 s1, view s1 = v ∧
    ∀ B (f : A → M RustvelloError S B) r v', yields (f a) c1 s1 r v' → yields (m ≫= f) c s r v'.
Proof.
  intros (c1 & s1 & Hm & Hv). exists c1, s1. split; [done|].
  intros B f r v' (c2 & s2 & Hf & Hv2). exists c2, s2. unfold mbind, M_bind. by rewrite Hm.
Qed.

Lemma yields_bind_Err {A B} (m : M RustvelloError S A) (f : A → M RustvelloError S B) c s e v :
  yields m c s (Err e) v → yields (m ≫= f) c s (Err e) v.
Proof. intros (c1 & s1 & Hm & Hv). exists c1, s1. unfold mbind, M_bind. by rewrite Hm. Qed.

Lemma yields_bind_Panic {A B} (m : M RustvelloError S A) (f : A → M RustvelloError S B) c s p v :
  yields m c s (Panic p) v → yields (m ≫= f) c s (Panic p) v.
Proof. intros (c1 & s1 & Hm & Hv). exists c1, s1. unfold mbind, M_bind. by rewrite Hm. Qed.

Lemma yields_ret {A} (a : A) c s v : view s = v → yields (mret a) c s (Ok a) v.
Proof. intros Hv. by exists c, s. Qed.

Lemma yields_throw {A} e c s v : view s = v → yields (throw (A := A) e) c s (Err e) v.
Proof. intros Hv. by exists c, s. Qed.

Lemma yields_lift {A} (r : RustvelloResult A) c s v : view s = v → yields (lift r) c s r v.
Proof. intros Hv. by exists c, s. Qed.

Lemma yields_attempt {A} (m : M RustvelloError S A) c s r v :
  yields m c s r v →
  yields (attempt m) c s
    (match r with Ok a => Ok (inl a) | Err e => Ok (inr e) | Panic p => Panic p end) v.
Proof.
  intros (c1 & s1 & Hm & Hv). exists c1, s1. unfold attempt. rewrite Hm. by destruct r.
Qed.

(** Weakest preconditions on the view: the run of [m] ends in a result and a view
    that satisfy [Q]. *)
Definition wp {A} (m : M RustvelloError S A) (c : Clock) (s : S)
    (Q : RustvelloResult A → RuntimeView → Prop) : Prop :=
  ∃ r v, yields m c s r v ∧ Q r v.

Lemma wp_yields {A} (m : M RustvelloError S A) c s r v (Q : RustvelloResult A → RuntimeView → Prop) :
  yields m c s r v → Q r v → wp m c s Q.
Proof. intros ??. by exists r, v. Qed.

Lemma wp_ret {A} (a : A) c s (Q : RustvelloResult A → RuntimeView → Prop) :
  Q (Ok a) (view s) → wp (mret a) c s Q.
Proof. intros HQ. exists (Ok a), (view s). split; [by exists c, s|done]. Qed.

Lemma wp_throw {A} e c s (Q : RustvelloResult A → RuntimeView → Prop) :
  Q (Err e) (view s) → wp (throw e) c s Q.
Proof. intros HQ. exists (Err e), (view s). split; [by exists c, s|done]. Qed.

(** A step whose result and view are known. *)
Lemma wp_step {A B} (m : M RustvelloError S A) (f : A → M RustvelloError S B) c s r v
    (Q : RustvelloResult B → RuntimeView → Prop) :
  yields m c s r v →
  match r with
  | Ok a => ∀ c1 s1, view s1 = v → wp (f a) c1 s1 Q
  | Err e => Q (Err e) v
  | Panic p => Q (Panic p) v
  end → wp (m ≫= f) c s Q.
Proof.
  intros (c1 & s1 & Hm & Hv) Hr. destruct r as [a|e|p].
  - destruct (Hr c1 s1 Hv) as (r & v' & (c2 & s2 & Hf & Hv2) & HQ). exists r, v'. split; [|done].
    exists c2, s2. unfold mbind, M_bind. by rewrite Hm.
  - exists (Err e), v. split; [|done]. exists c1, s1. unfold mbind, M_bind. by rewrite Hm.
  - exists (Panic p), v. split; [|done]. exists c1, s1. unfold mbind, M_bind. by rewrite Hm.
Qed.

(** A step whose run is known. *)
Lemma wp_run {A B} (m : M RustvelloError S A) (f : A → M RustvelloError S B) c s a c1 s1
    (Q : RustvelloResult B → RuntimeView → Prop) :
  m c s = (Ok a, c1, s1) → wp (f a) c1 s1 Q → wp (m ≫= f) c s Q.
Proof.
  intros Hm (r & v & (c2 & s2 & Hf & Hv) & HQ). exists r, v. split; [|done]. exists c2, s2.
  unfold mbind, M_bind. by rewrite Hm.
Qed.

Lemma wp_now {B} (f : DateTime → M RustvelloError S B) c s (Q : RustvelloResult B → RuntimeView → Prop) :
  wp (f (clock_next c).1) (clock_next c).2 s Q → wp (utc_now ≫= f) c s Q.
Proof.
  intros (r & v & (c1 & s1 & Hf & Hv) & HQ). exists r, v. split; [|done]. exists c1, s1. by rewrite <-Hf.
Qed.

Lemma wp_lift {A B} (o : RustvelloResult A) (f : A → M RustvelloError S B) c s
    (Q : RustvelloResult B → RuntimeView → Prop) :
  match o with
  | Ok a => wp (f a) c s Q
  | Err e => Q (Err e) (view s)
  | Panic p => Q (Panic p) (view s)
  end → wp (lift o ≫= f) c s Q.
Proof.
  destruct o as [a|e|p]; intros H; [done| |].
  - exists (Err e), (view s). split; [by exists c, s|done].
  - exists (Panic p), (view s). split; [by exists c, s|done].
Qed.

Lemma wp_bind {A B} (m : M RustvelloError S A) (f : A → M RustvelloError S B) c s
    (Q : RustvelloResult B → RuntimeView → Prop) :
  wp m c s (λ r v, match r with
    | Ok a => ∀ c1 s1, view s1 = v → wp (f a) c1 s1 Q
    | Err e => Q (Err e) v
    | Panic p => Q (Panic p) v
    end) → wp (m ≫= f) c s Q.
Proof. intros (r & v & Hy & HQ). by eapply wp_step. Qed.

Lemma wp_conseq {A} (m : M RustvelloError S A) c s (Q Q' : RustvelloResult A → RuntimeView → Prop) :
  wp m c s Q → (∀ r v, Q r v → Q' r v) → wp m c s Q'.
Proof. intros (r & v & Hy & HQ) H. exists r, v. auto. Qed.

Lemma wp_result {A} (m : M RustvelloError S A) c s (Q : RustvelloResult A → RuntimeView → Prop) :
  wp m c s Q ↔ Q (result_of m c s) (view (state_after m c s)).
Proof.
  unfold result_of, state_after. split.
  - intros (r & v & (c1 & s1 & Hm & <-) & HQ). by rewrite Hm.
  - destruct (m c s) as [[r c1] s1] eqn:Hm. intros HQ. exists r, (view s1). split; [|done].
    by exists c1, s1.
Qed.

Lemma yields_result {A} (m : M RustvelloError S A) c s r v :
  yields m c s r v → result_of m c s = r ∧ view (state_after m c s) = v.
Proof. intros (c1 & s1 & Hm & Hv). unfold result_of, state_after. by rewrite Hm. Qed.
End yields.

(** Steps over the first operation of a run, whose law is [H]. *)
Ltac ystep H c1 s1 Hv Hk :=
  destruct (yields_step _ _ _ _ _ _ H) as (c1 & s1 & Hv & Hk).

(** What backends promise whose operations do not fail and that publish without a
    transaction: each operation changes the view exactly as stated.  These are laws of
    the in-memory backends ([mem_port_laws]).  They leave out the transactional
    backends (SQLite, PostgreSQL and MongoDB with a publication), where one change does
    what the steps below do together - for SQLite it is specified in SqlitePublished -
    and a backend that fails between two steps, where the steps before stay. *)
Class PortLaws `{JsonValue} {S : Type} (P : Ports S) (view : S → RuntimeView) : Prop := {
  pl_nontransactional : ctl_runtime_publication = None;
  pl_set_status id st r c s :
    let res := status_change (view s) id st r (clock_next c).1 in
    yields view (ctl_set_invocation_status id st r) c s res
      (on_success res (λ rec, set_v_status <[id := rec]> (view s)) (view s));
  pl_get_status id c s :
    yields view (ctl_get_invocation_status id) c s
      (ok_or (v_status (view s) !! id) (EInvocationNotFound id)) (view s);
  pl_register id call r c s :
    ∃ now, let rec := mkRecord Registered r now in
    yields view (ctl_register_invocation_with_id id call r) c s (Ok rec)
      (set_v_status <[id := rec]> (view s));
  pl_increment id c s :
    let n := u32_wrapping_add (default 0 (v_retries (view s) !! id)) 1 in
    yields view (ctl_increment_invocation_retries id) c s (Ok n) (set_v_retries <[id := n]> (view s));
  pl_schedule id c s : yields view (ctl_schedule_auto_purge id) c s (Ok tt) (view s);
  pl_release id c s : ∃ l, yields view (ctl_release_waiters id) c s (Ok l) (view s);
  pl_check t cfg args c s :
    ∃ b, yields view (ctl_check_running_concurrency t cfg args) c s (Ok b) (view s);
  pl_acquire id t cfg args c s :
    ∃ b, yields view (ctl_try_acquire_concurrency_slot id t cfg args) c s (Ok b) (view s);
  pl_index id t args c s :
    yields view (ctl_index_for_concurrency_control id t args) c s (Ok tt) (view s);
  pl_unindex id c s :
    yields view (ctl_remove_from_concurrency_index id) c s (Ok tt) (view s);
  pl_blocking n c s : ∃ l, yields view (ctl_get_blocking_invocations n) c s (Ok l) (view s);
  pl_existing t args sts c s :
    ∃ l, yields view (ctl_get_existing_invocations t args sts) c s (Ok l) (view s) ∧
      ∀ id, sts ≠ [] → id ∈ l → ∃ rec, v_status (view s) !! id = Some rec ∧ rec_status rec ∈ sts;
  pl_by_status st t c s :
    ∃ l, yields view (ctl_get_invocations_by_status st t) c s (Ok l) (view s);
  pl_upsert i call c s :
    yields view (sb_upsert_invocation i call) c s (Ok tt) (set_v_stored i call (view s));
  pl_get_invocation id c s :
    yields view (sb_get_invocation id) c s
      (ok_or (v_invocations (view s) !! id) (EInvocationNotFound id)) (view s);
  pl_get_call call_id c s :
    ∃ e, yields view (sb_get_call call_id) c s
      (ok_or (v_calls (view s) !! call_id_display call_id) e) (view s);
  pl_store_result id x r c s :
    yields view (sb_store_result_for_runner id x r) c s (Ok tt) (set_v_results <[id := x]> (view s));
  pl_store_error id e c s :
    yields view (sb_store_error id e) c s (Ok tt) (set_v_errors <[id := e]> (view s));
  pl_store_error_for_runner id e r c s :
    yields view (sb_store_error_for_runner id e r) c s (Ok tt) (set_v_errors <[id := e]> (view s));
  pl_add_history h c s : yields view (sb_add_history h) c s (Ok tt) (add_v_history h (view s));
  pl_get_history id c s :
    yields view (sb_get_history id) c s (Ok (entries (v_histories (view s)) id)) (view s);
  pl_store_run w c s : yields view (sb_store_workflow_run w) c s (Ok tt) (view s);
  pl_get_runner r c s : ∃ o, yields view (sb_get_runner_context r) c s (Ok o) (view s);
  pl_get_data id k c s : yields view (sb_get_workflow_data id k) c s (Ok (v_datum (view s) id k)) (view s);
  pl_set_data id k x c s : yields view (sb_set_workflow_data id k x) c s (Ok tt) (set_v_data id k x (view s));
  pl_store_runner ctx c s : yields view (sb_store_runner_context ctx) c s (Ok tt) (view s);
  pl_route id t q p c s :
    let res := validate_routing q p in
    yields view (br_route_invocation_with_options id t q p) c s res
      (on_success res (λ _, set_v_queue (λ l, l ++ [entry_now id t q p]) (view s)) (view s));
  pl_route_after id t q p delay c s :
    let res := validate_routing q p in
    yields view (br_route_invocation_after id t q p delay) c s res
      (on_success res
         (λ _, set_v_queue (λ l, l ++ [entry_after (clock_next c).1 delay id t q p]) (view s)) (view s));
  pl_retrieve_language lang q c s :
    let best := retrieve_best (matches_language q lang (clock_next c).1) (v_queue (view s)) in
    valid_queue_name q = true →
    yields view (br_retrieve_invocation_for_language_from_queue lang q) c s (Ok best.1)
      (set_v_queue (λ _, best.2) (view s));
  pl_retrieve_queue q t c s :
    let best := retrieve_best (matches_task q t (clock_next c).1) (v_queue (view s)) in
    valid_queue_name q = true →
    yields view (br_retrieve_invocation_from_queue q t) c s (Ok best.1)
      (set_v_queue (λ _, best.2) (view s));
  pl_retrieve_invalid lang q t c s :
    valid_queue_name q = false →
    (∃ e, yields view (br_retrieve_invocation_for_language_from_queue lang q) c s (Err e) (view s)) ∧
    (∃ e, yields view (br_retrieve_invocation_from_queue q t) c s (Err e) (view s));
  pl_stale_pending n c s :
    ∃ r, yields view (ctl_get_stale_pending_invocations n) c s r (view s);
  pl_stale_running n c s :
    ∃ r, yields view (ctl_get_stale_running_invocations n) c s r (view s);
  pl_heartbeat r b c s : yields view (ctl_register_heartbeat r b) c s (Ok tt) (view s);
  pl_active n b c s : ∃ l, yields view (ctl_get_active_runners n b) c s (Ok l) (view s);
  pl_record_service r t t' c s :
    yields view (ctl_record_atomic_service_execution r t t') c s (Ok tt) (view s);
  pl_next_index c s : ∃ n, yields view next_queue_index c s (Ok n) (view s);
  pl_next_shuffle c s : ∃ n, yields view next_shuffle c s (Ok n) (view s);
  pl_report tm ctx c s :
    tg_manager = Some tm → ∃ r, yields view (tm_report_status_change tm ctx) c s r (view s);
  pl_report_result tm ctx c s :
    tg_manager = Some tm → ∃ r, yields view (tm_report_result tm ctx) c s r (view s);
  pl_report_failure tm ctx c s :
    tg_manager = Some tm → ∃ r, yields view (tm_report_failure tm ctx) c s r (view s);
  pl_evaluate_cron tm c s :
    tg_manager = Some tm → ∃ r, yields view (tm_evaluate_cron_conditions tm) c s r (view s);
  pl_evaluate_runs tm c s :
    tg_manager = Some tm → ∃ r, yields view (tm_evaluate_trigger_runs tm) c s r (view s);
  pl_pending_runs tm n c s :
    tg_manager = Some tm → ∃ r, yields view (tm_pending_trigger_runs tm n) c s r (view s);
  pl_complete_run tm run id c s :
    tg_manager = Some tm → ∃ r, yields view (tm_complete_trigger_run tm run id) c s r (view s);
  pl_cached r c s : ∃ b, yields view (orch_runner_cached r) c s (Ok b) (view s);
  pl_cache r c s : yields view (orch_cache_runner r) c s (Ok tt) (view s)
}.

(** ** The in-memory runtime *)

(** The in-memory backends side by side, the state [T] behind the trigger
    manager, the cache of stored runners and the process-wide counters. *)
Record Runtime (T : Type) := mkRuntime {
  rt_control : OrchestratorState;
  rt_state : BackendState;
  rt_broker : list QueuedInvocation;
  rt_triggers : T;
  rt_runner_cache : gset string;
  rt_queue_index : Z;
  rt_shuffles : nat
}.
#[global] Arguments mkRuntime {T}.
#[global] Arguments rt_control {T}.
#[global] Arguments rt_state {T}.
#[global] Arguments rt_broker {T}.
#[global] Arguments rt_triggers {T}.
#[global] Arguments rt_runner_cache {T}.
#[global] Arguments rt_queue_index {T}.
#[global] Arguments rt_shuffles {T}.

Definition runtime_new {T} (t : T) : Runtime T :=
  mkRuntime orchestrator_new backend_new broker_new t ∅ 0 0.

Section mem.
Context `{JsonValue} `{HashOrder} `{Chrono} {T : Type}.
Implicit Types (s : Runtime T).

Definition put_control (x : OrchestratorState) s : Runtime T :=
  mkRuntime x (rt_state s) (rt_broker s) (rt_triggers s) (rt_runner_cache s) (rt_queue_index s)
    (rt_shuffles s).
Definition put_state (x : BackendState) s : Runtime T :=
  mkRuntime (rt_control s) x (rt_broker s) (rt_triggers s) (rt_runner_cache s) (rt_queue_index s)
    (rt_shuffles s).
Definition put_broker (x : list QueuedInvocation) s : Runtime T :=
  mkRuntime (rt_control s) (rt_state s) x (rt_triggers s) (rt_runner_cache s) (rt_queue_index s)
    (rt_shuffles s).
Definition put_triggers (x : T) s : Runtime T :=
  mkRuntime (rt_control s) (rt_state s) (rt_broker s) x (rt_runner_cache s) (rt_queue_index s)
    (rt_shuffles s).
Definition put_cache (x : gset string) s : Runtime T :=
  mkRuntime (rt_control s) (rt_state s) (rt_broker s) (rt_triggers s) x (rt_queue_index s)
    (rt_shuffles s).
Definition put_counters (n : Z) (k : nat) s : Runtime T :=
  mkRuntime (rt_control s) (rt_state s) (rt_broker s) (rt_triggers s) (rt_runner_cache s) n k.

Definition on_control {A} (m : M RustvelloError OrchestratorState A) : M RustvelloError (Runtime T) A :=
  zoom rt_control put_control m.
Definition on_state {A} (m : M RustvelloError BackendState A) : M RustvelloError (Runtime T) A :=
  zoom rt_state put_state m.
Definition on_broker {A} (m : M RustvelloError (list QueuedInvocation) A)
    : M RustvelloError (Runtime T) A := zoom rt_broker put_broker m.
Definition on_triggers {A} (m : M RustvelloError T A) : M RustvelloError (Runtime T) A :=
  zoom rt_triggers put_triggers m.

Definition trigger_port_on (tm : TriggerPort T) : TriggerPort (Runtime T) :=
  {| tm_report_status_change ctx := on_triggers (tm_report_status_change tm ctx);
     tm_report_result ctx := on_triggers (tm_report_result tm ctx);
     tm_report_failure ctx := on_triggers (tm_report_failure tm ctx);
     tm_evaluate_cron_conditions := on_triggers (tm_evaluate_cron_conditions tm);
     tm_evaluate_trigger_runs := on_triggers (tm_evaluate_trigger_runs tm);
     tm_pending_trigger_runs limit := on_triggers (tm_pending_trigger_runs tm limit);
     tm_complete_trigger_run run id := on_triggers (tm_complete_trigger_run tm run id);
     tm_purge := on_triggers (tm_purge tm) |}.

(** [NEXT_QUEUE_INDEX.fetch_add(1, Relaxed)] on a 64-bit [usize]. *)
Definition fetch_add_queue_index : M RustvelloError (Runtime T) Z :=
  s ← get;
  modify (λ s, put_counters ((rt_queue_index s + 1) mod 18446744073709551616) (rt_shuffles s) s);;
  mret (rt_queue_index s).

Definition draw_shuffle : M RustvelloError (Runtime T) nat :=
  s ← get;
  modify (λ s, put_counters (rt_queue_index s) (Datatypes.S (rt_shuffles s)) s);;
  mret (rt_shuffles s).

(** The in-memory control has the default publication (none); so have broker and
    state backend the default domain. *)
Definition mem_ports (tm : option (TriggerPort T)) (auto_purge_delay_secs : Z) : Ports (Runtime T) :=
  {| ctl_runtime_publication := None;
     ctl_register_invocation_with_id id call r := on_control (mem_register_invocation_with_id id call r);
     ctl_increment_invocation_retries id := on_control (mem_increment_invocation_retries id);
     ctl_get_invocation_status id := on_control (mem_get_invocation_status id);
     ctl_set_invocation_status id st r := on_control (mem_set_invocation_status id st r);
     ctl_schedule_auto_purge id := on_control (mem_schedule_auto_purge id);
     ctl_purge := on_control mem_purge;
     ctl_check_running_concurrency t cfg args := on_control (mem_check_running_concurrency t cfg args);
     ctl_index_for_concurrency_control id t args :=
       on_control (mem_index_for_concurrency_control id t args);
     ctl_remove_from_concurrency_index id := on_control (mem_remove_from_concurrency_index id);
     ctl_try_acquire_concurrency_slot id t cfg args :=
       on_control (mem_try_acquire_concurrency_slot id t cfg args);
     ctl_set_waiting_for a b := on_control (mem_set_waiting_for a b);
     ctl_release_waiters id := on_control (mem_release_waiters id);
     ctl_get_invocations_by_status st t := on_control (mem_get_invocations_by_status st t);
     ctl_get_blocking_invocations n := on_control (mem_get_blocking_invocations n);
     ctl_get_existing_invocations t args sts := on_control (mem_get_existing_invocations t args sts);
     ctl_get_stale_pending_invocations n := on_control (mem_get_stale_pending_invocations n);
     ctl_get_stale_running_invocations n := on_control (mem_get_stale_running_invocations n);
     ctl_register_heartbeat r b := on_control (mem_register_heartbeat r b);
     ctl_get_active_runners n b := on_control (mem_get_active_runners n b);
     ctl_record_atomic_service_execution r t t' := on_control (mem_record_atomic_service_execution r t t');
     sb_publication_domain := None;
     sb_upsert_invocation i call := on_state (mem_upsert_invocation i call);
     sb_get_invocation id := on_state (mem_get_invocation id);
     sb_get_call call_id := on_state (mem_get_call call_id);
     sb_store_result_for_runner id x r := on_state (mem_store_result_for_runner id x r);
     sb_store_error id e := on_state (mem_store_error id e);
     sb_store_error_for_runner id e r := on_state (mem_store_error_for_runner id e r);
     sb_add_history h := on_state (mem_add_history h);
     sb_get_history id := on_state (mem_get_history id);
     sb_store_workflow_run w := on_state (mem_store_workflow_run w);
     sb_get_runner_context r := on_state (mem_get_runner_context r);
     sb_store_runner_context ctx := on_state (mem_store_runner_context ctx);
     sb_get_workflow_data w k := on_state (mem_get_workflow_data w k);
     sb_set_workflow_data w k x := on_state (mem_set_workflow_data w k x);
     sb_purge := on_state mem_backend_purge;
     br_publication_domain := None;
     br_supports_delayed_delivery := mem_supports_delayed_delivery;
     br_route_invocation_with_options id t q p := on_broker (mem_route_invocation_with_options id t q p);
     br_route_invocation_after id t q p delay := on_broker (mem_route_invocation_after id t q p delay);
     br_retrieve_invocation_from_queue q t := on_broker (mem_retrieve_invocation_from_queue q t);
     br_retrieve_invocation_for_language_from_queue lang q :=
       on_broker (mem_retrieve_invocation_for_language_from_queue lang q);
     br_purge := on_broker (mem_broker_purge None);
     tg_manager := trigger_port_on <$> tm;
     orch_auto_purge_delay_secs := auto_purge_delay_secs;
     orch_runner_cached r := gets (λ s, bool_decide (r ∈ rt_runner_cache s));
     orch_cache_runner r := modify (λ s, put_cache ({[r]} ∪ rt_runner_cache s) s);
     next_queue_index := fetch_add_queue_index;
     next_shuffle := draw_shuffle |}.

Definition runtime_view s : RuntimeView :=
  {| v_status := status_records (rt_control s); v_retries := retries (rt_control s);
     v_invocations := b_invocations (rt_state s); v_calls := b_calls (rt_state s);
     v_results := b_results (rt_state s); v_errors := b_errors (rt_state s);
     v_histories := b_histories (rt_state s); v_queue := rt_broker s;
     v_data := b_workflow_data (rt_state s) |}.

(** *** The in-memory ports keep the laws *)

Definition control_view (x : OrchestratorState) s : RuntimeView :=
  {| v_status := status_records x; v_retries := retries x;
     v_invocations := b_invocations (rt_state s); v_calls := b_calls (rt_state s);
     v_results := b_results (rt_state s); v_errors := b_errors (rt_state s);
     v_histories := b_histories (rt_state s); v_queue := rt_broker s;
     v_data := b_workflow_data (rt_state s) |}.

Lemma yields_control {A} (m : M RustvelloError OrchestratorState A) c s r c' x v :
  m c (rt_control s) = (r, c', x) → control_view x s = v → yields runtime_view (on_control m) c s r v.
Proof.
  intros Hm Hv. exists c', (put_control x s). unfold on_control, zoom. rewrite Hm. done.
Qed.

(** A control operation that leaves status records and retry counts alone. *)
Lemma yields_control_silent {A} (m : M RustvelloError OrchestratorState A) c s r c' x :
  m c (rt_control s) = (r, c', x) →
  status_records x = status_records (rt_control s) → retries x = retries (rt_control s) →
  yields runtime_view (on_control m) c s r (runtime_view s).
Proof.
  intros Hm Hst Hre. apply (yields_control m c s r c' x); [done|]. unfold control_view.
  by rewrite Hst, Hre.
Qed.

Lemma yields_state {A} (m : M RustvelloError BackendState A) c s r c' x v :
  m c (rt_state s) = (r, c', x) → runtime_view (put_state x s) = v →
  yields runtime_view (on_state m) c s r v.
Proof.
  intros Hm Hv. exists c', (put_state x s). unfold on_state, zoom. by rewrite Hm.
Qed.

Lemma yields_broker {A} (m : M RustvelloError (list QueuedInvocation) A) c s r c' x v :
  m c (rt_broker s) = (r, c', x) → set_v_queue (λ _, x) (runtime_view s) = v →
  yields runtime_view (on_broker m) c s r v.
Proof.
  intros Hm Hv. exists c', (put_broker x s). unfold on_broker, zoom. by rewrite Hm.
Qed.

Lemma yields_triggers {A} (m : M RustvelloError T A) c s :
  ∃ r, yields runtime_view (on_triggers m) c s r (runtime_view s).
Proof.
  destruct (m c (rt_triggers s)) as [[r c'] x] eqn:Hm. exists r, c', (put_triggers x s).
  unfold on_triggers, zoom. by rewrite Hm.
Qed.

Lemma set_status_exact c x id st r :
  let res := match status_records x !! id with
    | None => Err (EInvocationNotFound id)
    | Some cur => match status_record_transition (clock_next c).1 (Some cur) st r with
        | Ok rec => Ok rec
        | Err e => Err (status_machine_error_to_rustvello e id (rec_status cur))
        | Panic p => Panic p
        end
    end in
  ∃ c' x', mem_set_invocation_status id st r c x = (res, c', x') ∧
    status_records x' = on_success res (λ rec, <[id := rec]> (status_records x)) (status_records x) ∧
    retries x' = retries x.
Proof.
  destruct (status_records x !! id) as [cur|] eqn:Hx.
  2: { exists c, x. by rewrite set_status_unknown. }
  destruct (status_record_transition (clock_next c).1 (Some cur) st r) as [rec|e|p] eqn:Ht.
  - assert (may_transition cur st r) as Hm by (by apply transition_Ok in Ht as [? _]).
    assert (rec = moved (clock_next c).1 cur st r) as -> by (by apply transition_Ok in Ht as [_ ?]).
    destruct (set_status_run c x id st r cur Hx Hm) as (c' & now & Hr).
    exists c', (status_changed id (moved (clock_next c).1 cur st r) now x).
    split; [done|]. split; [apply status_changed_records|apply status_changed_retries].
  - exists c, x. by rewrite (set_status_refused _ _ _ _ _ _ _ Hx Ht).
  - pose proof (transition_never_panics (clock_next c).1 (Some cur) st r) as Hp. by rewrite Ht in Hp.
Qed.

Lemma register_run c x id call r :
  let now := (clock_next c).1 in
  let c1 := (clock_next c).2 in
  let rec := status_record_new (clock_next c1).1 Registered r in
  mem_register_invocation_with_id id call r c x =
    (Ok rec, (clock_next c1).2,
     insert_invocation id call (invocation_new now id (cd_task_id call) (cd_call_id call)) rec x).
Proof. reflexivity. Qed.

Lemma elem_of_existing x t args sts id :
  sts ≠ [] →
  id ∈ match cc_candidates x (task_id_display t) args with
       | None => []
       | Some candidates =>
           bfilter (λ id, bool_decide (sts = []) ||
                          match status_records x !! id with
                          | Some r => bool_decide (rec_status r ∈ sts)
                          | None => false
                          end) (set_iter candidates)
       end →
  ∃ rec, status_records x !! id = Some rec ∧ rec_status rec ∈ sts.
Proof.
  intros Hsts. destruct (cc_candidates _ _ _); [|by intros ?%elem_of_nil].
  rewrite elem_of_bfilter, bool_decide_false by done. simpl. intros [Hb _].
  destruct (status_records x !! id) as [rec|]; [|done].
  apply bool_decide_eq_true in Hb. eauto.
Qed.

(** The in-memory backends keep the laws, with any trigger manager. *)
(** Runs a straight-line in-memory operation. *)
Ltac run_now :=
  cbv [mem_increment_invocation_retries mem_get_invocation_status mem_schedule_auto_purge
       mem_release_waiters mem_remove_from_concurrency_index mem_get_invocation mem_get_call
       mem_get_workflow_data mem_set_workflow_data
       mbind M_bind mret M_ret get gets modify put lift utc_now];
  reflexivity.

#[export] Instance mem_port_laws (tm : option (TriggerPort T)) (delay : Z) :
  PortLaws (mem_ports tm delay) runtime_view.
Proof.
  split; simpl; try done.
  - intros id st r c s. destruct (set_status_exact c (rt_control s) id st r) as (c' & x' & Hm & Hst & Hre).
    eapply yields_control; [exact Hm|]. unfold control_view, status_change. simpl. rewrite Hst, Hre.
    by destruct (match status_records (rt_control s) !! id with Some _ => _ | None => _ end).
  - intros id c s. (eapply yields_control_silent; [run_now|done..]).
  - intros id call r c s. eexists. eapply yields_control; [apply register_run|]. done.
  - intros id c s. (eapply yields_control; [run_now|done]).
  - intros id c s. (eapply yields_control_silent; [run_now|done..]).
  - intros id c s. eexists. (eapply yields_control_silent; [run_now|done..]).
  - intros t cfg args c s. unfold mem_check_running_concurrency.
    case_decide; [|destruct (cc_candidates (rt_control s) (task_id_display t) args) eqn:Hcc]; eexists;
      (eapply yields_control_silent;
        [cbv [mbind M_bind mret M_ret get]; rewrite ?Hcc; reflexivity|done..]).
  - intros id t cfg args c s. destruct (decide (tc_concurrency_control cfg = Unlimited)) as [Hu|Hu].
    + exists true. unfold mem_try_acquire_concurrency_slot. rewrite decide_True by done.
      (eapply yields_control_silent; [run_now|done..]).
    + pose proof (try_acquire_cases c (rt_control s) id t cfg args Hu) as Ht. simpl in Ht.
      destruct (concurrency_limit cfg <=? _); eexists; (eapply yields_control_silent; [exact Ht|done..]).
  - intros id t args c s. unfold mem_index_for_concurrency_control. case_decide;
      (eapply yields_control_silent; [run_now|done..]).
  - intros id c s. destruct (prune_cc_fields id (rt_control s)) as (_&Hst&_&_&Hre&_&_).
    (eapply yields_control_silent; [run_now|exact Hst|exact Hre]).
  - intros n c s. eexists. (eapply yields_control_silent; [run_now|done..]).
  - intros t args sts c s. eexists. split; [by eapply yields_control_silent|].
    intros id. apply elem_of_existing.
  - intros st t c s. eexists. (eapply yields_control_silent; [run_now|done..]).
  - intros i call c s. eapply yields_state; [run_now|]. unfold runtime_view, set_v_stored. simpl.
    case_bool_decide; [|done]. destruct (upsert_index_fields i (rt_state s)) as (-> & -> & _).
    unfold index_new_invocation. by destruct (inv_workflow i), (inv_parent i).
  - intros id c s. (eapply yields_state; [run_now|done]).
  - intros call_id c s. eexists. (eapply yields_state; [run_now|done]).
  - intros id x r c s. (eapply yields_state; [run_now|done]).
  - intros id e c s. (eapply yields_state; [run_now|done]).
  - intros id e r c s. (eapply yields_state; [run_now|done]).
  - intros h c s. eapply yields_state; [run_now|]. unfold runtime_view, add_v_history. simpl.
    by destruct (history_runner h).
  - intros id c s. (eapply yields_state; [run_now|done]).
  - intros w c s. eapply yields_state; [run_now|]. unfold runtime_view. simpl.
    by destruct (List.existsb _ (b_workflow_types _)).
  - intros r c s. eexists. (eapply yields_state; [run_now|done]).
  - intros id k c s. (eapply yields_state; [run_now|done]).
  - intros id k x c s. (eapply yields_state; [run_now|done]).
  - intros ctx c s. (eapply yields_state; [run_now|done]).
  - intros id t q p c s. unfold mem_route_invocation_with_options.
    destruct (validate_routing_cases q p) as [(Hv&_)|(m&Hv&_)]; rewrite Hv;
      (eapply yields_broker; [run_now|done]).
  - intros id t q p d c s. unfold mem_route_invocation_after.
    destruct (validate_routing_cases q p) as [(Hv&_)|(m&Hv&_)]; rewrite Hv;
      (eapply yields_broker; [run_now|done]).
  - intros lang q c s Hq. eapply yields_broker; [by apply retrieve_language_run|]. done.
  - intros q t c s Hq. eapply yields_broker; [by apply retrieve_run|]. done.
  - intros lang q t c s Hq.
    assert (∃ m, validate_routing q 0 = Err (EConfiguration m)) as [m Hm]
      by (unfold validate_routing; rewrite Hq; eauto).
    split; eexists; (eapply yields_broker;
      [cbv [mem_retrieve_invocation_for_language_from_queue mem_retrieve_invocation_from_queue
            mbind M_bind lift]; rewrite Hm; reflexivity|done]).
  - intros n c s. unfold mem_get_stale_pending_invocations, threshold_before.
    destruct (seconds_before (clock_next c).1 (i64_saturating_of_u64 n)) eqn:Hn; eexists;
      (eapply yields_control_silent;
        [cbv [mbind M_bind get utc_now unwrap_or_panic mret M_ret]; rewrite Hn; reflexivity|done..]).
  - intros n c s. unfold mem_get_stale_running_invocations.
    destruct (filter_panicking (owner_dead (rt_control s) (clock_next c).1 (i64_saturating_of_u64 n))
      (map_iter (status_records (rt_control s)))) eqn:Hn; eexists;
      (eapply yields_control_silent;
        [cbv [mbind M_bind get utc_now unwrap_or_panic mret M_ret]; rewrite Hn; reflexivity|done..]).
  - intros r b c s. destruct (runner_created (rt_control s) !! r) eqn:Hr;
      (eapply yields_control_silent;
        [cbv [mem_register_heartbeat mbind M_bind get utc_now modify mret M_ret]; simpl; rewrite Hr; reflexivity
        |done..]).
  - intros n b c s. eexists. (eapply yields_control_silent;
      [cbv [mem_get_active_runners mbind M_bind get utc_now mret M_ret]; reflexivity|done..]).
  - intros r t t' c s. (eapply yields_control_silent;
      [cbv [mem_record_atomic_service_execution modify]; reflexivity|done..]).
  - intros c s. eexists. by eexists _, _.
  - intros c s. eexists. by eexists _, _.
  - intros m ctx c s Hm. destruct tm; simplify_eq/=. apply yields_triggers.
  - intros m ctx c s Hm. destruct tm; simplify_eq/=. apply yields_triggers.
  - intros m ctx c s Hm. destruct tm; simplify_eq/=. apply yields_triggers.
  - intros m c s Hm. destruct tm; simplify_eq/=. apply yields_triggers.
  - intros m c s Hm. destruct tm; simplify_eq/=. apply yields_triggers.
  - intros m n c s Hm. destruct tm; simplify_eq/=. apply yields_triggers.
  - intros m run id c s Hm. destruct tm; simplify_eq/=. apply yields_triggers.
  - intros r c s. eexists. by exists c, s.
  - intros r c s. by eexists _, _.
Qed.
End mem.
