(* ===== verification/Orchestration.v ===== *)
(** * The orchestration service

    Models [rustvello/src/orchestration/mod.rs] and [control.rs]: status changes
    with their side effects, registration, results, exceptions, retries and
    cancellation, against the ports of [Ports].  Each method first asks for the
    transactional publication and otherwise runs the port calls in sequence; a
    failing call leaves the effects of the earlier ones.  Log lines are not
    modelled.

    The theorems are proved for every implementation of the ports that keeps
    [PortLaws]: what each use case leaves in the backends on each outcome, that a
    mixed deployment is refused before anything is written, and what a refused
    result or failure report nevertheless stores. *)
From S2P Require Import Prelude F64 Effects Json Identifiers Status Errors Config Call Invocation Trigger OrchestratorState MemOrchestrator MemOrchestratorFacts MemBroker MemStateBackend TaskCatalog Ports.

(* @src rustvello/src/orchestration/mod.rs 65-88 hours_to_purge_secs *)
Definition hours_to_purge_secs (hours : f64) : Z :=
  if negb (f64_is_finite hours) || f64_ltb hours 0 then 0
  else
    let secs := f64_mul hours (f64_of_u64 3600) in
    if f64_leb (f64_of_u64 u64_max) secs then u64_max else u64_of_f64 secs.

Section orchestrator.
Context {J : JsonValue} {S : Type} {P : Ports S}.

Definition mixed_backends : RustvelloError :=
  EConfiguration "atomic publication requires broker, control and state ports from one Database transaction domain; mixed backends are not qualified".

(* @src rustvello/src/orchestration/mod.rs 113-134 Orchestrator::publication *)
Definition publication : M RustvelloError S (option (RuntimePublication S)) :=
  match ctl_runtime_publication with
  | None => mret None
  | Some p =>
      if bool_decide (br_publication_domain = Some (pub_domain p)) &&
         bool_decide (sb_publication_domain = Some (pub_domain p))
      then mret (Some p)
      else throw mixed_backends
  end.

(* @src rustvello/src/orchestration/mod.rs 136-144 Orchestrator::require_crash_consistent_publication *)
Definition require_crash_consistent_publication : M RustvelloError S unit :=
  p ← publication;
  match p with
  | Some _ => mret tt
  | None => throw (EConfiguration "backend does not support crash-consistent runtime publication")
  end.

(* @src rustvello/src/orchestration/mod.rs 225-233 Orchestrator::purge *)
Definition orch_purge : M RustvelloError S unit :=
  ctl_purge;; br_purge;; sb_purge;;
  match tg_manager with Some tm => tm_purge tm | None => mret tt end.

(* @src rustvello/src/orchestration/mod.rs 245-254 Orchestrator::set_waiting_for *)
Definition orch_set_waiting_for (waiter waited_on : InvocationId) : M RustvelloError S unit :=
  ctl_set_waiting_for waiter waited_on.

(* @src rustvello/src/orchestration/mod.rs 256-269 Orchestrator::release_nontransactional_concurrency_slot *)
Definition release_nontransactional_concurrency_slot (id : InvocationId) : M RustvelloError S unit :=
  p ← publication;
  match p with
  | Some _ => mret tt
  | None => ctl_remove_from_concurrency_index id
  end.

(** ** Trigger context *)

(* @src rustvello/src/orchestration/mod.rs 767-785 Orchestrator::get_invocation_arguments *)
Definition get_invocation_arguments (id : InvocationId) : M RustvelloError S SerializedArguments :=
  inv ← attempt (sb_get_invocation id);
  match inv with
  | inr _ => mret arguments_new
  | inl dto =>
      call ← attempt (sb_get_call (inv_call_id dto));
      mret (match call with inl c => cd_serialized_arguments c | inr _ => arguments_new end)
  end.

Definition unknown_task : TaskId := mkTaskId Rust "unknownunknown" 7.
Definition placeholder_task : TaskId := mkTaskId Rust "__" 1.

(* @src rustvello/src/orchestration/mod.rs 787-806 Orchestrator::get_trigger_context *)
Definition get_trigger_context (id : InvocationId)
    : M RustvelloError S (TaskId * SerializedArguments) :=
  inv ← attempt (sb_get_invocation id);
  match inv with
  | inr _ => mret (unknown_task, arguments_new)
  | inl dto =>
      call ← attempt (sb_get_call (inv_call_id dto));
      mret (inv_task_id dto,
            match call with inl c => cd_serialized_arguments c | inr _ => arguments_new end)
  end.

Definition context_if_triggers (id : InvocationId)
    : M RustvelloError S (TaskId * SerializedArguments) :=
  match tg_manager with
  | Some _ => get_trigger_context id
  | None => mret (placeholder_task, arguments_new)
  end.

Definition report_status (id : InvocationId) (task_id : TaskId) (st : InvocationStatus)
    (arguments : SerializedArguments) : M RustvelloError S unit :=
  match tg_manager with
  | Some tm => tm_report_status_change tm (mkStatusContext id task_id st arguments)
  | None => mret tt
  end.

(* @src rustvello/src/orchestration/mod.rs 807-825 Orchestrator::report_published_status *)
Definition report_published_status (id : InvocationId) (runner : RunnerId) (st : InvocationStatus)
    (task_id : TaskId) (arguments : SerializedArguments) : M RustvelloError S unit :=
  report_status id task_id st arguments.

(** ** Status changes *)

Definition auto_purge : bool := 0 <? orch_auto_purge_delay_secs.

Definition record_history (id : InvocationId) (rec : InvocationStatusRecord) (runner : RunnerId)
    : M RustvelloError S unit :=
  sb_add_history (with_runner runner (history_new id rec None)).

(* @src rustvello/src/orchestration/mod.rs 359-371 Orchestrator::set_invocation_status_with_context *)
Definition terminal_side_effects (id : InvocationId) (st : InvocationStatus) : M RustvelloError S unit :=
  if is_terminal st then
    ctl_release_waiters id;;
    if auto_purge then ctl_schedule_auto_purge id else mret tt
  else mret tt.

(* @src rustvello/src/orchestration/mod.rs 324-390 Orchestrator::set_invocation_status_with_context *)
Definition set_invocation_status_with_context (id : InvocationId) (st : InvocationStatus)
    (runner : RunnerId) (task_id : TaskId) (arguments : SerializedArguments)
    : M RustvelloError S InvocationStatusRecord :=
  p ← publication;
  match p with
  | Some pub =>
      o ← pub_change pub id runner (ChangeStatus st) auto_purge;
      record ← unwrap_or_panic o "ordinary status publication always returns a record";
      report_published_status id runner st task_id arguments;;
      mret record
  | None =>
      record ← ctl_set_invocation_status id st (Some runner);
      terminal_side_effects id st;;
      record_history id record runner;;
      report_status id task_id st arguments;;
      mret record
  end.

(* @src rustvello/src/orchestration/mod.rs 298-322 Orchestrator::set_invocation_status *)
Definition set_invocation_status (id : InvocationId) (st : InvocationStatus) (runner : RunnerId)
    : M RustvelloError S InvocationStatusRecord :=
  '(task_id, arguments) ← context_if_triggers id;
  set_invocation_status_with_context id st runner task_id arguments.

(** ** Registration *)

Definition publish_submission (pub : RuntimePublication S) (runner : RunnerId)
    (p : (InvocationDTO * CallDTO) * (string * f64)) : M RustvelloError S unit :=
  let '((invocation, call), (queue, priority)) := p in
  created ← pub_submit pub
    {| sp_invocation := invocation; sp_call := call; sp_runner_id := runner;
       sp_runner_context := None; sp_workflow_root := is_workflow_defining invocation;
       sp_cc_arguments := None; sp_route := mkRoute queue priority |};
  if (created : bool) then
    report_published_status (inv_id invocation) runner Registered (cd_task_id call)
      (cd_serialized_arguments call)
  else mret tt.

Definition register_one (runner : RunnerId) (p : InvocationDTO * CallDTO) : M RustvelloError S unit :=
  let '(inv_dto, call_dto) := p in
  sb_upsert_invocation inv_dto call_dto;;
  record ← ctl_register_invocation_with_id (inv_id inv_dto) call_dto (Some runner);
  record_history (inv_id inv_dto) record runner;;
  report_status (inv_id inv_dto) (inv_task_id inv_dto) (rec_status record)
    (cd_serialized_arguments call_dto).

Definition route_one (p : (InvocationDTO * CallDTO) * (string * f64)) : M RustvelloError S unit :=
  let '((invocation, _), (queue, priority)) := p in
  br_route_invocation_with_options (inv_id invocation) (Some (inv_task_id invocation)) queue priority.

(* @src rustvello/src/orchestration/mod.rs 396-486 Orchestrator::register_invocations *)
Definition register_invocations (invocations : list (InvocationDTO * CallDTO)) (runner : RunnerId)
    (routes : list (string * f64)) : M RustvelloError S unit :=
  if negb (bool_decide (length invocations = length routes)) then
    throw (EInternal "invocation and routing counts differ")
  else
    p ← publication;
    match p with
    | Some pub => for_each (publish_submission pub runner) (zip invocations routes)
    | None =>
        for_each (register_one runner) invocations;;
        for_each route_one (zip invocations routes)
    end.

(** ** Results and failures *)

(* @src rustvello/src/orchestration/mod.rs 514-580 Orchestrator::set_invocation_result_with_context *)
Definition set_invocation_result_with_context (id : InvocationId) (result : string)
    (runner : RunnerId) (task_id : TaskId) (arguments : SerializedArguments)
    : M RustvelloError S unit :=
  p ← publication;
  match p with
  | Some pub =>
      pub_change pub id runner (ChangeSuccess result) auto_purge;;
      report_published_status id runner Success task_id arguments
  | None =>
      sb_store_result_for_runner id result runner;;
      set_invocation_status_with_context id Success runner task_id arguments;;
      mret tt
  end;;
  match tg_manager with
  | Some tm =>
      tm_report_result tm (mkResultContext _ id task_id
        (default (json_text result) (json_from_str result)) arguments)
  | None => mret tt
  end.

(* @src rustvello/src/orchestration/mod.rs 492-512 Orchestrator::set_invocation_result *)
Definition set_invocation_result (id : InvocationId) (result : string) (runner : RunnerId)
    : M RustvelloError S unit :=
  '(task_id, arguments) ← context_if_triggers id;
  set_invocation_result_with_context id result runner task_id arguments.

(* @src rustvello/src/orchestration/mod.rs 610-674 Orchestrator::set_invocation_exception_with_context *)
Definition set_invocation_exception_with_context (id : InvocationId) (etype emessage : string)
    (runner : RunnerId) (task_id : TaskId) (arguments : SerializedArguments)
    : M RustvelloError S unit :=
  let task_error := mkTaskError etype emessage None in
  p ← publication;
  match p with
  | Some pub =>
      pub_change pub id runner (ChangeFailure task_error) auto_purge;;
      report_published_status id runner Failed task_id arguments
  | None =>
      sb_store_error_for_runner id task_error runner;;
      set_invocation_status_with_context id Failed runner task_id arguments;;
      mret tt
  end;;
  match tg_manager with
  | Some tm => tm_report_failure tm (mkExceptionContext id task_id etype emessage arguments)
  | None => mret tt
  end.

(* @src rustvello/src/orchestration/mod.rs 586-608 Orchestrator::set_invocation_exception *)
Definition set_invocation_exception (id : InvocationId) (etype emessage : string) (runner : RunnerId)
    : M RustvelloError S unit :=
  '(task_id, arguments) ← context_if_triggers id;
  set_invocation_exception_with_context id etype emessage runner task_id arguments.

(** ** Retries *)

(* @src rustvello/src/orchestration/mod.rs 706-761 Orchestrator::set_invocation_retry_with_context *)
Definition set_invocation_retry_with_context (id : InvocationId) (runner : RunnerId)
    (task_id : TaskId) (arguments : SerializedArguments) (queue : string) (priority : f64)
    : M RustvelloError S unit :=
  p ← publication;
  match p with
  | Some pub =>
      pub_change pub id runner (ChangeRetry (mkRoute queue priority)) false;;
      report_published_status id runner Retry task_id arguments
  | None =>
      set_invocation_status_with_context id Retry runner task_id arguments;;
      ctl_increment_invocation_retries id;;
      br_route_invocation_with_options id (Some task_id) queue priority
  end.

(* @src rustvello/src/orchestration/mod.rs 680-704 Orchestrator::set_invocation_retry *)
Definition set_invocation_retry (id : InvocationId) (runner : RunnerId) (queue : string)
    (priority : f64) : M RustvelloError S unit :=
  invocation ← sb_get_invocation id;
  arguments ← get_invocation_arguments id;
  set_invocation_retry_with_context id runner (inv_task_id invocation) arguments queue priority.

(* @src rustvello/src/orchestration/control.rs 51-57 Orchestrator::supports_durable_retry_delay *)
Definition supports_durable_retry_delay : M RustvelloError S bool :=
  p ← publication;
  mret (match p with
        | Some pub => pub_supports_delayed_retry pub
        | None => br_supports_delayed_delivery
        end).

(** [delay] is in nanoseconds; without durable delays it is dropped. *)
(* @src rustvello/src/orchestration/control.rs 59-132 Orchestrator::set_invocation_retry_after_with_context *)
Definition set_invocation_retry_after_with_context (id : InvocationId) (runner : RunnerId)
    (task_id : TaskId) (arguments : SerializedArguments) (queue : string) (priority : f64)
    (delay : Z) : M RustvelloError S unit :=
  durable ← (if delay =? 0 then mret false else supports_durable_retry_delay);
  if negb durable then
    set_invocation_retry_with_context id runner task_id arguments queue priority
  else
    p ← publication;
    match p with
    | Some pub =>
        pub_change pub id runner (ChangeDelayedRetry (mkRoute queue priority) delay) false;;
        report_published_status id runner Retry task_id arguments
    | None =>
        set_invocation_status_with_context id Retry runner task_id arguments;;
        ctl_increment_invocation_retries id;;
        br_route_invocation_after id (Some task_id) queue priority delay
    end.

(** ** Cancellation *)

(* @src rustvello/src/orchestration/control.rs 20-28 CancelOutcome *)
Inductive CancelOutcome :=
| OutcomeCancelled
| AlreadyFinal (status : InvocationStatus).

(* @src rustvello/src/orchestration/control.rs 31-34 CancelOutcome::was_cancelled *)
Definition was_cancelled (o : CancelOutcome) : bool :=
  match o with OutcomeCancelled => true | AlreadyFinal _ => false end.

(** A failing release of the slot is only logged. *)
(* @src rustvello/src/orchestration/control.rs 134-192 Orchestrator::cancel_invocation *)
Definition cancel_invocation (id : InvocationId) (runner : RunnerId) : M RustvelloError S CancelOutcome :=
  record ← ctl_get_invocation_status id;
  let current := rec_status record in
  if is_terminal current then mret (AlreadyFinal current)
  else
    r ← attempt (set_invocation_status id Cancelled runner);
    match r with
    | inl _ =>
        attempt (release_nontransactional_concurrency_slot id);;
        mret OutcomeCancelled
    | inr (EInvalidStatusTransition _ _ _ _) | inr (EStatusRaceCondition _ _ _ _) =>
        now ← ctl_get_invocation_status id;
        mret (if decide (rec_status now = Cancelled) then OutcomeCancelled
              else AlreadyFinal (rec_status now))
    | inr e => throw e
    end.

(* @src rustvello/src/orchestration/control.rs 196-205 Orchestrator::current_status *)
Definition current_status (id : InvocationId) : M RustvelloError S (option InvocationStatusRecord) :=
  r ← attempt (ctl_get_invocation_status id);
  mret (match r with inl rec => Some rec | inr _ => None end).

(* @src rustvello/src/orchestration/control.rs 207-215 Orchestrator::is_cancelled *)
Definition is_cancelled (id : InvocationId) : M RustvelloError S bool :=
  r ← attempt (ctl_get_invocation_status id);
  mret (match r with inl rec => bool_decide (rec_status rec = Cancelled) | inr _ => false end).

Section catalog.
Context `{Environment} `{ParseF64} `{UnicodeCase} `{Glob}.

(* @src rustvello/src/orchestration/mod.rs 271-292 Orchestrator::retry_invocation *)
Definition retry_invocation (app_config : AppConfig) (catalog : TaskCatalog) (id : InvocationId)
    (runner : RunnerId) : M RustvelloError S unit :=
  invocation ← sb_get_invocation id;
  '(queue, priority) ← lift (ok_or (routing_for catalog app_config (inv_task_id invocation))
                              (ETaskNotRegistered (inv_task_id invocation)));
  set_invocation_retry id runner queue priority.
End catalog.

(** ** Lemmas shared by the properties *)

(** The history entry a change leaves. *)
Definition history_entry (id : InvocationId) (rec : InvocationStatusRecord) (runner : RunnerId)
    : InvocationHistory := with_runner runner (history_new id rec None).

(** A status change, its record and its history entry. *)
Definition changed (id : InvocationId) (rec : InvocationStatusRecord) (runner : RunnerId)
    (v : RuntimeView) : RuntimeView :=
  add_v_history (history_entry id rec runner) (set_v_status <[id := rec]> v).

(** The call succeeds with [a], unless the trigger manager fails the report. *)
Definition reported {A} (r : RustvelloResult A) (a : A) : Prop :=
  r = Ok a ∨ tg_manager ≠ None ∧ is_ok r = false.

(** A refusal by the status machine. *)
Definition refusal (id : InvocationId) (e : RustvelloError) : Prop :=
  match e with
  | EInvalidStatusTransition i _ _ _ | EOwnershipViolation i _ _ _ _ _ => i = id
  | _ => False
  end.

(** The three outcomes of a status change, the same at every instant. *)
Lemma status_change_cases v id st r :
  match v_status v !! id with
  | None => ∀ now, status_change v id st r now = Err (EInvocationNotFound id)
  | Some cur =>
      if decide (may_transition cur st r)
      then ∀ now, status_change v id st r now = Ok (moved now cur st r)
      else ∀ now, ∃ e, status_change v id st r now = Err e ∧ refusal id e
  end.
Proof.
  unfold status_change. destruct (v_status v !! id) as [cur|]; [|done].
  case_decide as Hm; intros now.
  - by rewrite (proj2 (transition_Ok now cur st r _) (conj Hm eq_refl)).
  - pose proof (transition_never_panics now (Some cur) st r) as Hp.
    destruct (status_record_transition now (Some cur) st r) as [rec|e|p] eqn:Ht; [| |done].
    + by destruct Hm; apply transition_Ok in Ht as [? _].
    + eexists. split; [done|]. by destruct e.
Qed.

Section lemmas.
Context (view : S → RuntimeView) {L : PortLaws P view}.

Lemma yields_publication {A} (f : option (RuntimePublication S) → M RustvelloError S A) c s r v :
  yields view (f None) c s r v → yields view (publication ≫= f) c s r v.
Proof.
  intros (c' & s' & Hf & Hv). exists c', s'. split; [|done]. unfold publication, mbind, M_bind.
  by rewrite pl_nontransactional.
Qed.

Lemma terminal_effects_silent id st c s :
  yields view (terminal_side_effects id st) c s (Ok tt) (view s).
Proof.
  unfold terminal_side_effects. destruct (is_terminal st); [|by apply yields_ret].
  destruct (pl_release id c s) as [l Hl]. eapply yields_bind; [exact Hl|]. intros c1 s1 Hv.
  rewrite <-Hv. destruct auto_purge; [apply pl_schedule|by apply yields_ret].
Qed.

Lemma report_silent id t st args c s :
  ∃ r, yields view (report_status id t st args) c s r (view s) ∧ reported r tt.
Proof.
  unfold report_status. destruct tg_manager as [tm|] eqn:Htm.
  - destruct (pl_report tm (mkStatusContext id t st args) c s Htm) as [r Hr]. exists r.
    split; [done|]. unfold reported. rewrite Htm. destruct r as [[]| |]; [by left|by right..].
  - exists (Ok tt). split; [by apply yields_ret|by left].
Qed.

(** The last step of an operation that reports and returns. *)
Lemma report_then {A} (m : M RustvelloError S unit) (a : A) c s r v :
  yields view m c s r v → reported r tt →
  ∃ r', yields view (m;; mret a) c s r' v ∧ reported r' a.
Proof.
  intros Hm Hr. destruct r as [[]|e|p].
  - exists (Ok a). split; [|by left]. eapply yields_bind; [exact Hm|]. intros. by apply yields_ret.
  - exists (Err e). split; [by apply yields_bind_Err|]. right. by destruct Hr as [|[? _]].
  - exists (Panic p). split; [by apply yields_bind_Panic|]. right. by destruct Hr as [|[? _]].
Qed.

(** The state an accepted status change leaves, whatever the triggers answer. *)
Lemma status_with_context_Ok id st runner t args c s rec :
  status_change (view s) id st (Some runner) (clock_next c).1 = Ok rec →
  ∃ r, yields view (set_invocation_status_with_context id st runner t args) c s r
         (changed id rec runner (view s)) ∧ reported r rec.
Proof.
  intros Hsc. pose proof (pl_set_status id st (Some runner) c s) as Hset. cbv zeta in Hset.
  rewrite Hsc in Hset. cbv zeta in Hset.
  assert (∀ c1 s1, view s1 = set_v_status <[id := rec]> (view s) →
    ∃ r, yields view (terminal_side_effects id st;; record_history id rec runner;;
                      report_status id t st args;; mret rec) c1 s1 r (changed id rec runner (view s)) ∧
         reported r rec) as Hrest.
  { intros c1 s1 Hv1. destruct (terminal_effects_silent id st c1 s1) as (c2 & s2 & H2 & Hv2).
    destruct (pl_add_history (history_entry id rec runner) c2 s2) as (c3 & s3 & H3 & Hv3).
    destruct (report_silent id t st args c3 s3) as (r & Hr & Hrep).
    destruct (report_then _ rec _ _ _ _ Hr Hrep) as (r' & (c4 & s4 & H4 & Hv4) & Hrep').
    exists r'. split; [|done]. exists c4, s4. unfold mbind, M_bind in *. unfold record_history.
    fold (history_entry id rec runner). rewrite H2, H3. split; [exact H4|].
    unfold changed. by rewrite Hv4, Hv3, Hv2, Hv1. }
  destruct Hset as (c1 & s1 & H1 & Hv1). destruct (Hrest c1 s1 Hv1) as (r & (c2 & s2 & H2 & Hv2) & Hrep).
  exists r. split; [|done]. apply yields_publication. exists c2, s2. split; [|done].
  unfold mbind, M_bind in *. rewrite H1. exact H2.
Qed.

Lemma status_with_context_Err id st runner t args c s e :
  status_change (view s) id st (Some runner) (clock_next c).1 = Err e →
  yields view (set_invocation_status_with_context id st runner t args) c s (Err e) (view s).
Proof.
  intros Hsc. apply yields_publication. apply yields_bind_Err.
  pose proof (pl_set_status id st (Some runner) c s) as Hset. cbv zeta in Hset. by rewrite Hsc in Hset.
Qed.

(** *** Reads that leave the view alone *)

Lemma call_arguments_silent call_id c s :
  ∃ r, yields view (attempt (sb_get_call call_id)) c s (Ok r) (view s).
Proof.
  destruct (pl_get_call call_id c s) as [e He]. apply yields_attempt in He.
  destruct (v_calls (view s) !! call_id_display call_id); simpl in He; eauto.
Qed.

Lemma attempt_get_invocation id c s :
  yields view (attempt (sb_get_invocation id)) c s
    (Ok match v_invocations (view s) !! id with
        | Some dto => inl dto
        | None => inr (EInvocationNotFound id)
        end) (view s).
Proof.
  pose proof (pl_get_invocation id c s) as Hg. apply yields_attempt in Hg.
  by destruct (v_invocations (view s) !! id).
Qed.

Lemma get_trigger_context_silent id c s :
  ∃ x, yields view (get_trigger_context id) c s (Ok x) (view s).
Proof.
  unfold get_trigger_context. pose proof (attempt_get_invocation id c s) as Hg.
  ystep Hg c1 s1 Hv Hk. destruct (v_invocations (view s) !! id) as [dto|].
  - destruct (call_arguments_silent (inv_call_id dto) c1 s1) as [r Hr]. ystep Hr c2 s2 Hv2 Hk2.
    eexists. apply Hk, Hk2, yields_ret. by rewrite Hv2.
  - eexists. by apply Hk, yields_ret.
Qed.

Lemma get_arguments_silent id c s :
  ∃ x, yields view (get_invocation_arguments id) c s (Ok x) (view s).
Proof.
  unfold get_invocation_arguments. pose proof (attempt_get_invocation id c s) as Hg.
  ystep Hg c1 s1 Hv Hk. destruct (v_invocations (view s) !! id) as [dto|].
  - destruct (call_arguments_silent (inv_call_id dto) c1 s1) as [r Hr]. ystep Hr c2 s2 Hv2 Hk2.
    eexists. apply Hk, Hk2, yields_ret. by rewrite Hv2.
  - eexists. by apply Hk, yields_ret.
Qed.

Lemma context_if_triggers_silent id c s :
  ∃ x, yields view (context_if_triggers id) c s (Ok x) (view s).
Proof.
  unfold context_if_triggers. destruct tg_manager; [apply get_trigger_context_silent|].
  eexists. by apply yields_ret.
Qed.

(** *** Status changes, at some instant *)

(** What a status change with its side effects leaves, by its three outcomes:
    the shape shared by the properties below.  [done_] says what an accepted
    change leaves. *)
Definition by_status_outcome {A} (v : RuntimeView) (id : InvocationId) (st : InvocationStatus)
    (runner : RunnerId) (r : RustvelloResult A) (v' refused_view : RuntimeView)
    (done_ : InvocationStatusRecord → Prop) : Prop :=
  match v_status v !! id with
  | None => r = Err (EInvocationNotFound id) ∧ v' = refused_view
  | Some cur =>
      if decide (may_transition cur st (Some runner))
      then ∃ now, done_ (moved now cur st (Some runner))
      else v' = refused_view ∧ ∃ e, r = Err e ∧ refusal id e
  end.

Lemma status_with_context_outcome id st runner t args c s :
  ∃ r v', yields view (set_invocation_status_with_context id st runner t args) c s r v' ∧
    by_status_outcome (view s) id st runner r v' (view s) (λ rec,
      v' = changed id rec runner (view s) ∧ reported r rec).
Proof.
  pose proof (status_change_cases (view s) id st (Some runner)) as Hc. unfold by_status_outcome.
  destruct (v_status (view s) !! id) as [cur|].
  - case_decide as Hm.
    + destruct (status_with_context_Ok id st runner t args c s _ (Hc (clock_next c).1)) as (r & Hr & Hrep).
      exists r. eexists. split; [exact Hr|]. by exists (clock_next c).1.
    + destruct (Hc (clock_next c).1) as (e & He & Href).
      eexists _, _. split; [by apply status_with_context_Err|]. eauto.
  - eexists _, _. split; [by apply status_with_context_Err|]. done.
Qed.

Lemma set_status_outcome id st runner c s :
  ∃ r v', yields view (set_invocation_status id st runner) c s r v' ∧
    by_status_outcome (view s) id st runner r v' (view s) (λ rec,
      v' = changed id rec runner (view s) ∧ reported r rec).
Proof.
  unfold set_invocation_status. destruct (context_if_triggers_silent id c s) as [[t args] Hx].
  ystep Hx c1 s1 Hv Hk.
  destruct (status_with_context_outcome id st runner t args c1 s1) as (r & v' & Hr & Ho).
  rewrite Hv in Ho. exists r, v'. split; [by apply Hk|done].
Qed.

(** *** Storing a payload, changing the status, reporting *)

Definition outcome_run (m : M RustvelloError S unit) (c : Clock) (s : S) (v : RuntimeView)
    (id : InvocationId) (st : InvocationStatus) (runner : RunnerId) (refused_view : RuntimeView)
    (done_view : InvocationStatusRecord → RuntimeView) : Prop :=
  ∃ r v', yields view m c s r v' ∧
    by_status_outcome v id st runner r v' refused_view (λ rec, v' = done_view rec ∧ reported r tt).

Lemma store_then_status (X : M RustvelloError S unit) (f : RuntimeView → RuntimeView) id st runner t
    args c s :
  yields view X c s (Ok tt) (f (view s)) → v_status (f (view s)) = v_status (view s) →
  outcome_run (X;; set_invocation_status_with_context id st runner t args;; mret tt) c s (view s) id st
    runner (f (view s)) (λ rec, changed id rec runner (f (view s))).
Proof.
  intros HX Hf. ystep HX c1 s1 Hv Hk.
  destruct (status_with_context_outcome id st runner t args c1 s1) as (r & v' & Hr & Ho).
  rewrite Hv in Ho. unfold outcome_run, by_status_outcome in *. rewrite Hf in Ho.
  destruct (v_status (view s) !! id) as [cur|].
  - case_decide.
    + destruct Ho as (now & -> & Hrep). destruct r as [rec|e|p].
      * ystep Hr c2 s2 Hv2 Hk2. eexists _, _. split; [by apply Hk, Hk2, yields_ret|].
        exists now. split; [done|by left].
      * eexists _, _. split; [by apply Hk, yields_bind_Err|]. exists now. split; [done|right].
        by destruct Hrep as [?|[? _]].
      * eexists _, _. split; [by apply Hk, yields_bind_Panic|]. exists now. split; [done|right].
        by destruct Hrep as [?|[? _]].
    + destruct Ho as (-> & e & -> & He). eexists _, _.
      split; [by apply Hk, yields_bind_Err|]. eauto.
  - destruct Ho as [-> ->]. eexists _, _. split; [by apply Hk, yields_bind_Err|]. done.
Qed.

Lemma outcome_then_report (m rep : M RustvelloError S unit) c s v id st runner rv g :
  outcome_run m c s v id st runner rv g →
  (∀ c s, ∃ r, yields view rep c s r (view s) ∧ reported r tt) →
  outcome_run (m;; rep) c s v id st runner rv g.
Proof.
  intros (r & v' & Hm & Ho) Hrep. unfold outcome_run, by_status_outcome in *.
  destruct (v_status v !! id) as [cur|].
  - case_decide.
    + destruct Ho as (now & -> & Hr). destruct r as [[]|e|p].
      * ystep Hm c1 s1 Hv Hk. destruct (Hrep c1 s1) as (r' & Hr' & Hrep'). rewrite Hv in Hr'.
        eexists _, _. split; [by apply Hk|]. by exists now.
      * eexists _, _. split; [by apply yields_bind_Err|]. exists now. split; [done|right].
        by destruct Hr as [?|[? _]].
      * eexists _, _. split; [by apply yields_bind_Panic|]. exists now. split; [done|right].
        by destruct Hr as [?|[? _]].
    + destruct Ho as (-> & e & -> & He). eexists _, _. split; [by apply yields_bind_Err|]. eauto.
  - destruct Ho as [-> ->]. eexists _, _. split; [by apply yields_bind_Err|]. done.
Qed.

Lemma optional_report_silent (f : TriggerPort S → M RustvelloError S unit) c s :
  (∀ tm, tg_manager = Some tm → ∃ r, yields view (f tm) c s r (view s)) →
  ∃ r, yields view (match tg_manager with Some tm => f tm | None => mret tt end) c s r (view s) ∧
    reported r tt.
Proof.
  intros Hf. unfold reported. destruct tg_manager as [tm|] eqn:Htm.
  - destruct (Hf tm eq_refl) as [r Hr]. exists r. split; [done|].
    destruct r as [[]| |]; [by left|by right..].
  - exists (Ok tt). split; [by apply yields_ret|by left].
Qed.

Lemma outcome_publication (f : option (RuntimePublication S) → M RustvelloError S unit) c s v id st
    runner rv g :
  outcome_run (f None) c s v id st runner rv g → outcome_run (publication ≫= f) c s v id st runner rv g.
Proof. intros (r & v' & Hr & Ho). exists r, v'. split; [by apply yields_publication|done]. Qed.

(** Reads the result and the view off a run. *)
Lemma outcome_read m c s v id st runner rv g :
  outcome_run m c s v id st runner rv g →
  by_status_outcome v id st runner (result_of m c s) (view (state_after m c s)) rv
    (λ rec, view (state_after m c s) = g rec ∧ reported (result_of m c s) tt).
Proof. intros (r & v' & Hr & Ho). by destruct (yields_result _ _ _ _ _ _ Hr) as [-> ->]. Qed.

Lemma result_run id x runner t args c s :
  outcome_run (set_invocation_result_with_context id x runner t args) c s (view s) id Success runner
    (set_v_results <[id := x]> (view s)) (λ rec, changed id rec runner (set_v_results <[id := x]> (view s))).
Proof.
  apply outcome_publication, outcome_then_report.
  - apply (store_then_status _ (set_v_results <[id := x]>)); [apply pl_store_result|done].
  - intros c1 s1. apply optional_report_silent. intros tm Htm. by apply pl_report_result.
Qed.

Lemma failure_run id etype emessage runner t args c s :
  let stored := set_v_errors <[id := mkTaskError etype emessage None]> (view s) in
  outcome_run (set_invocation_exception_with_context id etype emessage runner t args) c s (view s) id
    Failed runner stored (λ rec, changed id rec runner stored).
Proof.
  apply outcome_publication, outcome_then_report.
  - apply (store_then_status _ (set_v_errors <[id := mkTaskError etype emessage None]>));
      [apply pl_store_error_for_runner|done].
  - intros c1 s1. apply optional_report_silent. intros tm Htm. by apply pl_report_failure.
Qed.

(** ** Properties of the use cases *)


(** C10: A report of a result, on backends whose operations do not fail and that publish
    without a transaction (the laws [PortLaws]; SQLite publishes a report in one
    transaction and keeps nothing of a refused one).  The result is stored before the
    status is checked: an accepted report leaves the result, the Success record and one
    history entry; a report that the status machine refuses (of a late attempt, or of a
    worker that lost the invocation) fails and has nevertheless replaced the stored
    result, and a result is even kept for an invocation that does not exist.  The
    comment in status/mod.rs and the guide on cancellation say that a late result is
    discarded; on these backends it is not (see the findings). *)
Theorem result_report_behaviour id x runner t args c s :
  let m := set_invocation_result_with_context id x runner t args in
  let stored := set_v_results <[id := x]> (view s) in
  by_status_outcome (view s) id Success runner (result_of m c s) (view (state_after m c s)) stored
    (λ rec, view (state_after m c s) = changed id rec runner stored ∧ reported (result_of m c s) tt).
Proof.
  intros m stored. apply outcome_read, result_run.
Qed.

(** Reporting a failure behaves like reporting a result: the error is stored
    first, and a refused report has already replaced the stored error. *)
Theorem failure_report_behaviour id etype emessage runner t args c s :
  let m := set_invocation_exception_with_context id etype emessage runner t args in
  let stored := set_v_errors <[id := mkTaskError etype emessage None]> (view s) in
  by_status_outcome (view s) id Failed runner (result_of m c s) (view (state_after m c s)) stored
    (λ rec, view (state_after m c s) = changed id rec runner stored ∧ reported (result_of m c s) tt).
Proof.
  intros m stored. apply outcome_read, failure_run.
Qed.

(** *** Retries *)

(** What an accepted retry leaves: the Retry record with its history entry, the
    incremented counter and one queue entry at the end. *)
Definition retry_done (id : InvocationId) (runner : RunnerId) (q : string) (p : f64)
    (is_entry : QueuedInvocation → Prop) (v : RuntimeView) (r : RustvelloResult unit)
    (v' : RuntimeView) (rec : InvocationStatusRecord) : Prop :=
  let v1 := changed id rec runner v in
  let v2 := set_v_retries <[id := u32_wrapping_add (default 0 (v_retries v !! id)) 1]> v1 in
  (tg_manager ≠ None ∧ is_ok r = false ∧ v' = v1) ∨
  match validate_routing q p with
  | Ok _ => r = Ok tt ∧ ∃ e, is_entry e ∧ v' = set_v_queue (λ l, l ++ [e]) v2
  | Err e => r = Err e ∧ v' = v2
  | Panic _ => False
  end.

Lemma retry_tail (route : M RustvelloError S unit) is_entry id runner t args q p c s :
  (∀ c s, ∃ e, is_entry e ∧ yields view route c s (validate_routing q p)
     (on_success (validate_routing q p) (λ _, set_v_queue (λ l, l ++ [e]) (view s)) (view s))) →
  ∃ r v', yields view
      (set_invocation_status_with_context id Retry runner t args;;
       ctl_increment_invocation_retries id;; route) c s r v' ∧
    by_status_outcome (view s) id Retry runner r v' (view s)
      (retry_done id runner q p is_entry (view s) r v').
Proof.
  intros Hroute. destruct (status_with_context_outcome id Retry runner t args c s) as (r & v' & Hr & Ho).
  unfold by_status_outcome in *. destruct (v_status (view s) !! id) as [cur|].
  2: { destruct Ho as [-> ->]. eexists _, _. split; [by apply yields_bind_Err|]. done. }
  case_decide.
  2: { destruct Ho as (-> & e & -> & He). eexists _, _. split; [by apply yields_bind_Err|]. eauto. }
  destruct Ho as (now & -> & Hrep). set (rec := moved now cur Retry (Some runner)) in *.
  unfold retry_done. destruct r as [rec'|e|msg].
  - ystep Hr c1 s1 Hv1 Hk1. pose proof (pl_increment id c1 s1) as Hi. cbv zeta in Hi.
    ystep Hi c2 s2 Hv2 Hk2. destruct (Hroute c2 s2) as (e & He & Hq).
    eexists _, _. split; [apply Hk1, Hk2, Hq|]. exists now. right. fold rec. rewrite Hv2, Hv1.
    destruct (validate_routing_cases q p) as [(-> & _)|(m & -> & _)]; simpl; eauto.
  - eexists _, _. split; [by apply yields_bind_Err|]. exists now. left.
    by destruct Hrep as [?|[? _]].
  - eexists _, _. split; [by apply yields_bind_Panic|]. exists now. left.
    by destruct Hrep as [?|[? _]].
Qed.

Lemma supports_delay_run c s :
  supports_durable_retry_delay c s = (Ok br_supports_delayed_delivery, c, s).
Proof. unfold supports_durable_retry_delay, publication. by rewrite pl_nontransactional. Qed.

(** The queue entry of a retry. *)
Definition retry_entry (delay : Z) (id : InvocationId) (t : TaskId) (q : string) (p : f64)
    (e : QueuedInvocation) : Prop :=
  if negb (delay =? 0) && br_supports_delayed_delivery
  then ∃ now, e = entry_after now delay id (Some t) q p
  else e = entry_now id (Some t) q p.

Lemma retry_yields id runner t args q p delay c s :
  ∃ r v', yields view (set_invocation_retry_after_with_context id runner t args q p delay) c s r v' ∧
    by_status_outcome (view s) id Retry runner r v' (view s)
      (retry_done id runner q p (retry_entry delay id t q p) (view s) r v').
Proof.
  unfold retry_entry. set (delayed := negb (delay =? 0) && br_supports_delayed_delivery).
  assert (∀ f : bool → M RustvelloError S unit,
    ((if delay =? 0 then mret false else supports_durable_retry_delay) ≫= f) c s = f delayed c s) as Hd.
  { intros f. subst delayed. unfold mbind, M_bind. destruct (delay =? 0); simpl; [done|].
    by rewrite supports_delay_run. }
  unfold set_invocation_retry_after_with_context.
  assert (∀ m m' : M RustvelloError S unit, m c s = m' c s → ∀ r v,
    yields view m' c s r v → yields view m c s r v) as Hsame
    by (intros m m' He r v (c1 & s1 & Hm & ?); exists c1, s1; by rewrite He).
  destruct delayed eqn:Hdel; simpl in Hd.
  - destruct (retry_tail (br_route_invocation_after id (Some t) q p delay)
      (λ e, ∃ now, e = entry_after now delay id (Some t) q p) id runner t args q p c s)
      as (r & v' & Hr & Ho).
    { intros c1 s1. eexists. split; [by eexists|]. apply pl_route_after. }
    exists r, v'. split; [|done]. eapply Hsame; [apply Hd|]. simpl. by apply yields_publication.
  - destruct (retry_tail (br_route_invocation_with_options id (Some t) q p)
      (λ e, e = entry_now id (Some t) q p) id runner t args q p c s) as (r & v' & Hr & Ho).
    { intros c1 s1. eexists. split; [done|]. apply pl_route. }
    exists r, v'. split; [|done]. eapply Hsame; [apply Hd|]. simpl. by apply yields_publication.
Qed.

(** Setting a retry: a refused one changes nothing; an accepted one leaves
    the Retry record with one history entry, counts one more retry and puts
    exactly one entry for the invocation at the end of the queue, due after the
    delay when there is one and the broker can keep it, and at once otherwise.
    The three writes are not atomic: when the trigger manager fails the report,
    or the route is invalid, the invocation stays in Retry with no queue entry. *)
Theorem retry_behaviour id runner t args q p delay c s :
  let m := set_invocation_retry_after_with_context id runner t args q p delay in
  by_status_outcome (view s) id Retry runner (result_of m c s) (view (state_after m c s)) (view s)
    (retry_done id runner q p (retry_entry delay id t q p) (view s) (result_of m c s)
       (view (state_after m c s))).
Proof.
  intros m. destruct (retry_yields id runner t args q p delay c s) as (r & v' & Hr & Ho).
  by apply yields_result in Hr as [<- <-].
Qed.

(** *** Cancellation *)

Lemma cancel_permitted cur r : is_terminal (rec_status cur) = false → may_transition cur Cancelled r.
Proof.
  intros Ht. split; [|by left]. destruct (rec_status cur); try done; by vm_compute in Ht.
Qed.

(** Cancelling: an unknown invocation is reported as not found; one that has
    finished keeps its status and the caller learns it; any other one, whoever
    owns it and whatever it is doing, becomes Cancelled with one history entry
    and the caller is told so. *)
Theorem cancellation_behaviour id runner c s :
  let m := cancel_invocation id runner in
  let v' := view (state_after m c s) in
  match v_status (view s) !! id with
  | None => result_of m c s = Err (EInvocationNotFound id) ∧ v' = view s
  | Some cur =>
      if is_terminal (rec_status cur)
      then result_of m c s = Ok (AlreadyFinal (rec_status cur)) ∧ v' = view s
      else ∃ now, v' = changed id (moved now cur Cancelled (Some runner)) runner (view s) ∧
                  reported (result_of m c s) OutcomeCancelled
  end.
Proof.
  cbv zeta. pose proof (pl_get_status id c s) as Hg. unfold cancel_invocation.
  destruct (v_status (view s) !! id) as [cur|] eqn:Hcur; simpl in Hg.
  2: { apply yields_result. by apply yields_bind_Err. }
  ystep Hg c1 s1 Hv1 Hk1. destruct (is_terminal (rec_status cur)) eqn:Ht.
  { apply yields_result. apply Hk1. rewrite Ht. by apply yields_ret. }
  destruct (set_status_outcome id Cancelled runner c1 s1) as (r & v' & Hr & Ho).
  rewrite Hv1 in Ho. unfold by_status_outcome in Ho. rewrite Hcur in Ho.
  rewrite decide_True in Ho by (by apply cancel_permitted). destruct Ho as (now & -> & Hrep).
  exists now. set (v1 := changed id _ runner (view s)) in *.
  match goal with |- view (state_after ?m c s) = _ ∧ _ =>
    assert (∃ r', yields view m c s r' v1 ∧ reported r' OutcomeCancelled) as (r' & Hr' & Hrep') end.
  2: { by destruct (yields_result _ _ _ _ _ _ Hr') as [-> ->]. }
  apply yields_attempt in Hr. destruct r as [rec|e|msg].
  - ystep Hr c2 s2 Hv2 Hk2. exists (Ok OutcomeCancelled). split; [|by left].
    apply Hk1. rewrite Ht. apply Hk2. pose proof (pl_unindex id c2 s2) as Hu.
    assert (yields view (release_nontransactional_concurrency_slot id) c2 s2 (Ok tt) (view s2)) as Hrel
      by (by apply yields_publication).
    apply yields_attempt in Hrel. ystep Hrel c3 s3 Hv3 Hk3. apply Hk3, yields_ret. congruence.
  - destruct Hrep as [?|[Htm _]]; [done|].
    ystep Hr c2 s2 Hv2 Hk2. pose proof (pl_get_status id c2 s2) as Hg2.
    rewrite Hv2 in Hg2. simpl in Hg2. rewrite lookup_insert_eq in Hg2. simpl in Hg2.
    ystep Hg2 c3 s3 Hv3 Hk3.
    assert (yields view (now0 ← ctl_get_invocation_status id;
        mret (if decide (rec_status now0 = Cancelled) then OutcomeCancelled
              else AlreadyFinal (rec_status now0))) c2 s2 (Ok OutcomeCancelled) v1) as Hreread
      by (apply Hk3, yields_ret; by rewrite Hv3).
    destruct e; eexists;
      (split; [apply Hk1; rewrite Ht; apply Hk2;
               first [exact Hreread | by apply yields_throw] |]);
      first [by left | by right].
  - exists (Panic msg). split; [|right; by destruct Hrep as [?|[? _]]].
    apply Hk1. rewrite Ht. by apply yields_bind_Panic.
Qed.

(** *** Registration *)

Definition registered_view (runner : RunnerId) (v : RuntimeView) (x : (InvocationDTO * CallDTO) * DateTime)
    : RuntimeView :=
  let '((i, call), now) := x in
  changed (inv_id i) (mkRecord Registered (Some runner) now) runner (set_v_stored i call v).

Lemma register_one_yields runner x c s :
  tg_manager = None →
  ∃ now, yields view (register_one runner x) c s (Ok tt) (registered_view runner (view s) (x, now)).
Proof.
  intros Htm. destruct x as [i call]. unfold register_one.
  pose proof (pl_upsert i call c s) as Hu. ystep Hu c1 s1 Hv1 Hk1.
  destruct (pl_register (inv_id i) call (Some runner) c1 s1) as [now Hr]. cbv zeta in Hr.
  ystep Hr c2 s2 Hv2 Hk2. set (rec := mkRecord Registered (Some runner) now) in *.
  pose proof (pl_add_history (history_entry (inv_id i) rec runner) c2 s2) as Hh. ystep Hh c3 s3 Hv3 Hk3.
  exists now. apply Hk1, Hk2, Hk3. unfold report_status. rewrite Htm. apply yields_ret.
  by rewrite Hv3, Hv2, Hv1.
Qed.

Lemma register_all_yields runner l c s :
  tg_manager = None →
  ∃ nows, length nows = length l ∧
    yields view (for_each (register_one runner) l) c s (Ok tt)
      (fold_left (registered_view runner) (zip l nows) (view s)).
Proof.
  intros Htm. revert c s. induction l as [|x l IH]; intros c s; simpl.
  { exists []. split; [done|]. by apply yields_ret. }
  destruct (register_one_yields runner x c s Htm) as [now Hx]. ystep Hx c1 s1 Hv1 Hk1.
  destruct (IH c1 s1) as (nows & Hlen & Hy). exists (now :: nows). split; [simpl; lia|].
  apply Hk1. by rewrite Hv1 in Hy.
Qed.

(** The entries queued: those before the first invalid route. *)
Fixpoint queued (l : list ((InvocationDTO * CallDTO) * (string * f64)))
    : list QueuedInvocation * RustvelloResult unit :=
  match l with
  | [] => ([], Ok tt)
  | ((i, _), (q, p)) :: l' =>
      match validate_routing q p with
      | Ok _ => let '(es, r) := queued l' in
                (entry_now (inv_id i) (Some (inv_task_id i)) q p :: es, r)
      | r => ([], r)
      end
  end.

Lemma route_all_yields l c s :
  yields view (for_each route_one l) c s (queued l).2 (set_v_queue (λ es, es ++ (queued l).1) (view s)).
Proof.
  revert c s. induction l as [|((i & call) & q & p) l IH]; intros c s; simpl.
  { apply yields_ret. destruct (view s). unfold set_v_queue. simpl. by rewrite app_nil_r. }
  pose proof (pl_route (inv_id i) (Some (inv_task_id i)) q p c s) as Hr. cbv zeta in Hr.
  destruct (validate_routing_cases q p) as [(Hok & _)|(m & Herr & _)];
    [rewrite Hok in Hr |- *|rewrite Herr in Hr |- *]; simpl in *.
  - ystep Hr c1 s1 Hv1 Hk1. apply Hk1. specialize (IH c1 s1). rewrite Hv1 in IH.
    destruct (queued l) as [es r]. simpl in *. unfold set_v_queue in *. simpl in *.
    by rewrite <-app_assoc in IH.
  - apply yields_bind_Err. destruct (view s). unfold set_v_queue in *. simpl in *. by rewrite app_nil_r.
Qed.

Lemma registered_fold runner l nows v :
  length nows = length l → NoDup (inv_id <$> l.*1) →
  let v' := fold_left (registered_view runner) (zip l nows) v in
  v_queue v' = v_queue v ∧
  (∀ i call, (i, call) ∈ l → ∃ now,
     v_status v' !! inv_id i = Some (mkRecord Registered (Some runner) now) ∧
     v_invocations v' !! inv_id i = Some i ∧
     entries (v_histories v') (inv_id i) =
       entries (v_histories v) (inv_id i) ++
       [history_entry (inv_id i) (mkRecord Registered (Some runner) now) runner]) ∧
  (∀ id, id ∉ inv_id <$> l.*1 →
     v_status v' !! id = v_status v !! id ∧ v_invocations v' !! id = v_invocations v !! id ∧
     entries (v_histories v') id = entries (v_histories v) id).
Proof.
  revert nows v. induction l as [|[i call] l IH]; intros [|now nows] v Hlen Hnd; simplify_eq/=.
  { split_and!; [done|set_solver|done]. }
  inversion_clear Hnd as [|? ? Hi Hl].
  set (v1 := changed (inv_id i) _ runner _) in *.
  destruct (IH nows v1 Hlen Hl) as (Hq & Hin & Hout). split_and!.
  - by rewrite Hq.
  - intros i' call' [[= -> ->]|Hin']%elem_of_cons.
    + destruct (Hout (inv_id i) Hi) as (-> & -> & ->). exists now. unfold v1. simpl.
      rewrite !lookup_insert_eq, entries_push, decide_True by done. done.
    + destruct (Hin i' call' Hin') as (now' & Hs & Hv & Hh). exists now'. split_and!; [done..|].
      rewrite Hh. unfold v1. simpl. rewrite entries_push, decide_False; [done|]. simpl. intros He.
      apply Hi. apply list_elem_of_fmap. exists i'. split; [done|].
      apply list_elem_of_fmap. by exists (i', call').
  - intros id Hid. apply not_elem_of_cons in Hid as [Hne Hid].
    destruct (Hout id Hid) as (-> & -> & ->). unfold v1. simpl.
    rewrite !lookup_insert_ne by congruence. rewrite entries_push, decide_False by (simpl; congruence). done.
Qed.

(** Registering invocations (without a trigger manager): a wrong number of
    routes is an error that changes nothing; otherwise every invocation given is
    stored, Registered in the name of the runner and has one history entry more,
    no other invocation is touched, and the queue is extended, in the order
    given, by one entry each, up to the first route that is not valid; that route
    is then the error of the call. *)
Theorem registration_behaviour l runner routes c s :
  tg_manager = None → NoDup (inv_id <$> l.*1) →
  let m := register_invocations l runner routes in
  let v' := view (state_after m c s) in
  if decide (length l = length routes) then
    result_of m c s = (queued (zip l routes)).2 ∧
    v_queue v' = v_queue (view s) ++ (queued (zip l routes)).1 ∧
    (∀ i call, (i, call) ∈ l → ∃ now,
       v_status v' !! inv_id i = Some (mkRecord Registered (Some runner) now) ∧
       v_invocations v' !! inv_id i = Some i ∧
       entries (v_histories v') (inv_id i) =
         entries (v_histories (view s)) (inv_id i) ++
         [history_entry (inv_id i) (mkRecord Registered (Some runner) now) runner]) ∧
    (∀ id, id ∉ inv_id <$> l.*1 →
       v_status v' !! id = v_status (view s) !! id ∧
       v_invocations v' !! id = v_invocations (view s) !! id ∧
       entries (v_histories v') id = entries (v_histories (view s)) id)
  else result_of m c s = Err (EInternal "invocation and routing counts differ") ∧ v' = view s.
Proof.
  intros Htm Hnd. cbv zeta. unfold register_invocations. case_bool_decide as Hlen; simpl.
  2: { rewrite decide_False by done. apply yields_result. by apply yields_throw. }
  rewrite decide_True by done.
  destruct (register_all_yields runner l c s Htm) as (nows & Hn & Hreg).
  pose proof (registered_fold runner l nows (view s) Hn Hnd) as Hfold. cbv zeta in Hfold.
  set (v1 := fold_left _ _ _) in *. destruct Hfold as (Hq & Hin & Hout).
  assert (yields view (for_each (register_one runner) l;; for_each route_one (zip l routes)) c s
            (queued (zip l routes)).2 (set_v_queue (λ es, es ++ (queued (zip l routes)).1) v1)) as Hall.
  { ystep Hreg c1 s1 Hv1 Hk1. apply Hk1. rewrite <-Hv1. apply route_all_yields. }
  apply (yields_publication (λ p, match p with
    | Some pub => for_each (publish_submission pub runner) (zip l routes)
    | None => for_each (register_one runner) l;; for_each route_one (zip l routes) end)) in Hall.
  apply yields_result in Hall as [-> ->]. split_and!; [done|by rewrite <-Hq|done|done].
Qed.
End lemmas.

(** ** Mixed deployments *)

(** A deployment whose control backend publishes transactionally while its
    broker or state backend belongs to another domain (or to none) is refused
    before anything is read or written, by every use case that changes an
    invocation. *)
Theorem mixed_backends_fail_closed (p : RuntimePublication S) c s id runner t args :
  ctl_runtime_publication = Some p →
  br_publication_domain ≠ Some (pub_domain p) ∨ sb_publication_domain ≠ Some (pub_domain p) →
  (∀ st, set_invocation_status_with_context id st runner t args c s = (Err mixed_backends, c, s)) ∧
  (∀ x, set_invocation_result_with_context id x runner t args c s = (Err mixed_backends, c, s)) ∧
  (∀ x y, set_invocation_exception_with_context id x y runner t args c s = (Err mixed_backends, c, s)) ∧
  (∀ q pr delay, set_invocation_retry_after_with_context id runner t args q pr delay c s =
     (Err mixed_backends, c, s)) ∧
  (∀ l routes, length l = length routes →
     register_invocations l runner routes c s = (Err mixed_backends, c, s)) ∧
  require_crash_consistent_publication c s = (Err mixed_backends, c, s).
Proof.
  intros Hp Hdom.
  assert (∀ A (f : option (RuntimePublication S) → M RustvelloError S A),
    (publication ≫= f) c s = (Err mixed_backends, c, s)) as Hpub.
  { intros A f. unfold publication, mbind, M_bind. rewrite Hp.
    destruct (bool_decide_reflect (br_publication_domain = Some (pub_domain p))),
      (bool_decide_reflect (sb_publication_domain = Some (pub_domain p))); simpl; try done.
    by destruct Hdom. }
  split_and!; intros; try apply Hpub.
  - unfold set_invocation_retry_after_with_context. destruct (delay =? 0); simpl; [apply Hpub|].
    unfold mbind at 1, M_bind at 1. unfold supports_durable_retry_delay. by rewrite Hpub.
  - unfold register_invocations. rewrite bool_decide_true by done. apply Hpub.
Qed.
End orchestrator.

(** ** Witnesses: the in-memory runtime without triggers *)

Definition demo_ports : @Ports text_json (Runtime unit) :=
  @mem_ports text_json identity_order chrono_in_seconds unit None 0.

Definition demo_laws : @PortLaws text_json (Runtime unit) demo_ports runtime_view :=
  @mem_port_laws text_json identity_order chrono_in_seconds unit None 0.

(** "i1" is registered, owned by "r0". *)
Definition demo_runtime : Runtime unit := put_control demo_registered (runtime_new tt).

Definition demo_record : InvocationStatusRecord := mkRecord Registered (Some "r0") 1000000000.

Lemma demo_status : v_status (runtime_view demo_runtime) !! "i1" = Some demo_record.
Proof. vm_compute. reflexivity. Qed.

(** Reads an accepted change off the outcome. *)
Lemma outcome_accepted {A} v id st runner (r : RustvelloResult A) v' rv D cur :
  by_status_outcome v id st runner r v' rv D → v_status v !! id = Some cur →
  may_transition cur st (Some runner) → ∃ now, D (moved now cur st (Some runner)).
Proof. unfold by_status_outcome. intros Ho Hs Hm. rewrite Hs in Ho. by case_decide. Qed.

(** Reads a refused change off the outcome. *)
Lemma outcome_refused {A} v id st runner (r : RustvelloResult A) v' rv D cur :
  by_status_outcome v id st runner r v' rv D → v_status v !! id = Some cur →
  ¬ may_transition cur st (Some runner) → v' = rv ∧ ∃ e, r = Err e ∧ refusal id e.
Proof. unfold by_status_outcome. intros Ho Hs Hm. rewrite Hs in Ho. by case_decide. Qed.


(** A result for an invocation that is not running: refused, and stored. *)
Lemma result_report_behaviour_witness :
  let m := set_invocation_result_with_context (P := demo_ports) "i1" "42" "w1" demo_task arguments_new in
  runtime_view (state_after m demo_clock demo_runtime) =
    set_v_results <["i1" := "42"]> (runtime_view demo_runtime) ∧
  ∃ e, result_of m demo_clock demo_runtime = Err e ∧ refusal "i1" e.
Proof.
  intros m.
  apply (outcome_refused _ _ _ _ _ _ _ _ _
    (@result_report_behaviour text_json _ demo_ports runtime_view demo_laws "i1" "42" "w1"
      demo_task arguments_new demo_clock demo_runtime) demo_status).
  intros [Hc _]. vm_compute in Hc. discriminate.
Defined.

Lemma failure_report_behaviour_witness :
  let m := set_invocation_exception_with_context (P := demo_ports) "i1" "E" "late" "w1" demo_task arguments_new in
  runtime_view (state_after m demo_clock demo_runtime) =
    set_v_errors <["i1" := mkTaskError "E" "late" None]> (runtime_view demo_runtime) ∧
  ∃ e, result_of m demo_clock demo_runtime = Err e ∧ refusal "i1" e.
Proof.
  intros m.
  apply (outcome_refused _ _ _ _ _ _ _ _ _
    (@failure_report_behaviour text_json _ demo_ports runtime_view demo_laws "i1" "E" "late" "w1"
      demo_task arguments_new demo_clock demo_runtime) demo_status).
  intros [Hc _]. vm_compute in Hc. discriminate.
Defined.

(** "i1" runs on "w1". *)
Definition demo_running : Runtime unit :=
  put_control (state_after (mem_set_invocation_status "i1" Pending (Some "w1");;
                            mem_set_invocation_status "i1" Running (Some "w1"))
                 demo_clock demo_registered) (runtime_new tt).
Definition running_record : InvocationStatusRecord :=
  default demo_record (v_status (runtime_view demo_running) !! "i1").

Lemma retry_behaviour_witness :
  let m := set_invocation_retry_after_with_context (P := demo_ports) "i1" "w1" demo_task arguments_new
             "default" 0 5 in
  ∃ now at_, runtime_view (state_after m demo_clock demo_running) =
    set_v_queue (λ l, l ++ [entry_after at_ 5 "i1" (Some demo_task) "default" 0])
      (set_v_retries <["i1" := 1]>
        (changed "i1" (moved now running_record Retry (Some "w1")) "w1" (runtime_view demo_running))).
Proof.
  intros m.
  destruct (outcome_accepted _ _ _ _ _ _ _ _ running_record
    (@retry_behaviour text_json _ demo_ports runtime_view demo_laws "i1" "w1" demo_task arguments_new
      "default" 0 5 demo_clock demo_running)) as (now & [(Htm & _)|(_ & e & (at_ & He) & Hv)]).
  - vm_compute. reflexivity.
  - vm_compute. intuition congruence.
  - by destruct Htm.
  - exists now, at_. rewrite He in Hv. exact Hv.
Defined.

Lemma cancellation_behaviour_witness :
  let m := cancel_invocation (P := demo_ports) "i1" "anyone" in
  ∃ now, runtime_view (state_after m demo_clock demo_running) =
    changed "i1" (moved now running_record Cancelled (Some "anyone")) "anyone" (runtime_view demo_running)
    ∧ result_of m demo_clock demo_running = Ok OutcomeCancelled.
Proof.
  intros m.
  destruct (@cancellation_behaviour text_json _ demo_ports runtime_view demo_laws "i1" "anyone"
    demo_clock demo_running) as (now & Hv & [Hr|[Htm _]]).
  - exists now. split; [exact Hv|exact Hr].
  - by destruct Htm.
Defined.

Lemma registration_behaviour_witness :
  let i := invocation_new 0 "i2" demo_task (cd_call_id demo_call) in
  let m := register_invocations (P := demo_ports) [(i, demo_call)] "r0" [("default", 0)] in
  result_of m demo_clock demo_runtime = Ok tt ∧
  v_queue (runtime_view (state_after m demo_clock demo_runtime)) =
    [] ++ [entry_now "i2" (Some demo_task) "default" 0].
Proof.
  intros i m.
  destruct (@registration_behaviour text_json _ demo_ports runtime_view demo_laws [(i, demo_call)] "r0"
    [("default", 0)] demo_clock demo_runtime eq_refl) as (Hr & Hq & _).
  - apply NoDup_singleton.
  - split; [exact Hr|exact Hq].
Defined.

(** A control backend that publishes, next to an in-memory broker. *)
Definition mixed_publication : RuntimePublication (Runtime unit) :=
  {| pub_domain := "db1"; pub_supports_delayed_retry := true;
     pub_begin_execution _ _ _ _ := throw (EInternal "unused");
     pub_submit _ := mret true; pub_change _ _ _ _ := mret None |}.

Definition mixed_ports : @Ports text_json (Runtime unit) :=
  let p := demo_ports in
  {| ctl_runtime_publication := Some mixed_publication;
     ctl_register_invocation_with_id := @ctl_register_invocation_with_id _ _ p;
     ctl_increment_invocation_retries := @ctl_increment_invocation_retries _ _ p;
     ctl_get_invocation_status := @ctl_get_invocation_status _ _ p;
     ctl_set_invocation_status := @ctl_set_invocation_status _ _ p;
     ctl_schedule_auto_purge := @ctl_schedule_auto_purge _ _ p;
     ctl_purge := @ctl_purge _ _ p;
     ctl_check_running_concurrency := @ctl_check_running_concurrency _ _ p;
     ctl_index_for_concurrency_control := @ctl_index_for_concurrency_control _ _ p;
     ctl_remove_from_concurrency_index := @ctl_remove_from_concurrency_index _ _ p;
     ctl_try_acquire_concurrency_slot := @ctl_try_acquire_concurrency_slot _ _ p;
     ctl_set_waiting_for := @ctl_set_waiting_for _ _ p;
     ctl_release_waiters := @ctl_release_waiters _ _ p;
     ctl_get_invocations_by_status := @ctl_get_invocations_by_status _ _ p;
     ctl_get_blocking_invocations := @ctl_get_blocking_invocations _ _ p;
     ctl_get_existing_invocations := @ctl_get_existing_invocations _ _ p;
     ctl_get_stale_pending_invocations := @ctl_get_stale_pending_invocations _ _ p;
     ctl_get_stale_running_invocations := @ctl_get_stale_running_invocations _ _ p;
     ctl_register_heartbeat := @ctl_register_heartbeat _ _ p;
     ctl_get_active_runners := @ctl_get_active_runners _ _ p;
     ctl_record_atomic_service_execution := @ctl_record_atomic_service_execution _ _ p;
     sb_publication_domain := Some "db2";
     sb_upsert_invocation := @sb_upsert_invocation _ _ p;
     sb_get_invocation := @sb_get_invocation _ _ p;
     sb_get_call := @sb_get_call _ _ p;
     sb_store_result_for_runner := @sb_store_result_for_runner _ _ p;
     sb_store_error := @sb_store_error _ _ p;
     sb_store_error_for_runner := @sb_store_error_for_runner _ _ p;
     sb_add_history := @sb_add_history _ _ p;
     sb_get_history := @sb_get_history _ _ p;
     sb_store_workflow_run := @sb_store_workflow_run _ _ p;
     sb_get_runner_context := @sb_get_runner_context _ _ p;
     sb_store_runner_context := @sb_store_runner_context _ _ p;
     sb_get_workflow_data := @sb_get_workflow_data _ _ p;
     sb_set_workflow_data := @sb_set_workflow_data _ _ p;
     sb_purge := @sb_purge _ _ p;
     br_publication_domain := Some "db1";
     br_supports_delayed_delivery := @br_supports_delayed_delivery _ _ p;
     br_route_invocation_with_options := @br_route_invocation_with_options _ _ p;
     br_route_invocation_after := @br_route_invocation_after _ _ p;
     br_retrieve_invocation_from_queue := @br_retrieve_invocation_from_queue _ _ p;
     br_retrieve_invocation_for_language_from_queue :=
       @br_retrieve_invocation_for_language_from_queue _ _ p;
     br_purge := @br_purge _ _ p;
     tg_manager := @tg_manager _ _ p;
     orch_auto_purge_delay_secs := 0;
     orch_runner_cached := @orch_runner_cached _ _ p;
     orch_cache_runner := @orch_cache_runner _ _ p;
     next_queue_index := @next_queue_index _ _ p;
     next_shuffle := @next_shuffle _ _ p |}.

Lemma mixed_backends_fail_closed_witness :
  set_invocation_status_with_context (P := mixed_ports) "i1" Pending "w1" demo_task arguments_new
    demo_clock demo_runtime = (Err mixed_backends, demo_clock, demo_runtime).
Proof.
  refine (proj1 (@mixed_backends_fail_closed text_json _ mixed_ports mixed_publication demo_clock
    demo_runtime "i1" "w1" demo_task arguments_new eq_refl _) Pending).
  right. discriminate.
Defined.
