(* ===== verification/Routing.v ===== *)
(** * Routing and submission

    Models [rustvello/src/orchestration/routing.rs] and [submission.rs]: routing
    a call under registration control, rerouting, and the submission of a
    registered task with its workflow and trace context.  The ambient task-local
    and thread-local contexts of [rustvello-core/src/context.rs] are an argument.
    Telemetry events are not modelled.

    The theorems: a submission is fully recorded or refused before anything is
    written, registration control reuses a registered invocation and otherwise
    creates exactly one, and the second of two equal calls is answered with the
    first one's invocation. *)
From stdpp Require Import pretty.
From S2P Require Import Prelude Effects Json Identifiers Status Errors Config Call Invocation Trigger OrchestratorState MemOrchestrator MemOrchestratorFacts MemBroker MemStateBackend TaskCatalog Ports Orchestration.

(** ** Contexts *)

(* @src rustvello-core/src/context.rs 99-127 RunnerContext *)
#[warnings="-register-all"]
Inductive RunnerContext := mkRunnerCtx {
  rx_runner_id : RunnerId;
  rx_runner_cls : string;
  rx_runner_language : TaskLanguage;
  rx_executor_kind : ExecutorKind;
  rx_app_id : string;
  rx_pid : Z;
  rx_hostname : string;
  rx_thread_id : Z;
  rx_parent : option RunnerContext
}.

(** The parts of an invocation context that submission reads. *)
(* @src rustvello-core/src/context.rs 57-75 InvocationContext *)
Record InvocationContext := mkInvocationCtx {
  ix_invocation_id : InvocationId;
  ix_task_id : TaskId;
  ix_workflow : option WorkflowIdentity;
  ix_trace_context : TraceContextCarrier
}.

(** The contexts a call runs in: the current runner and invocation, if any, the
    active trace and the process. *)
Record Ambient := mkAmbient {
  am_runner : option RunnerContext;
  am_invocation : option InvocationContext;
  am_active_trace : TraceContextCarrier;
  am_process : ProcessInfo
}.

(** [is_valid_w3c_trace_context] parses with the OpenTelemetry propagator. *)
Class W3C := { is_valid_w3c_trace_context : TraceContextCarrier → bool }.

(* @src rustvello-core/src/context.rs 219-235 RunnerContext::external *)
Definition external_runner (p : ProcessInfo) : RunnerContext :=
  {| rx_runner_id := p_hostname p +:+ "-" +:+ pretty (p_pid p); rx_runner_cls := "ExternalRunner";
     rx_runner_language := Rust; rx_executor_kind := Tokio; rx_app_id := "external";
     rx_pid := p_pid p; rx_hostname := p_hostname p; rx_thread_id := p_thread_id p;
     rx_parent := None |}.

(* @src rustvello-core/src/context.rs 369-382 get_or_create_runner_context *)
Definition get_or_create_runner_context (am : Ambient) : RunnerContext :=
  default (external_runner (am_process am)) (am_runner am).

(* @src rustvello-core/src/state_backend.rs 101-121 StoredRunnerContext::from_runtime *)
Definition stored_from_runtime (now : DateTime) (ctx : RunnerContext) : StoredRunnerContext :=
  {| rc_runner_cls := rx_runner_cls ctx; rc_runner_language := rx_runner_language ctx;
     rc_executor_kind := rx_executor_kind ctx; rc_runner_id := rx_runner_id ctx;
     rc_pid := rx_pid ctx; rc_hostname := rx_hostname ctx; rc_thread_id := rx_thread_id ctx;
     rc_started_at := now; rc_parent_runner_id := rx_runner_id <$> rx_parent ctx;
     rc_parent_runner_cls := rx_runner_cls <$> rx_parent ctx |}.

Definition with_app_id (app_id : string) (ctx : RunnerContext) : RunnerContext :=
  {| rx_runner_id := rx_runner_id ctx; rx_runner_cls := rx_runner_cls ctx;
     rx_runner_language := rx_runner_language ctx; rx_executor_kind := rx_executor_kind ctx;
     rx_app_id := app_id; rx_pid := rx_pid ctx; rx_hostname := rx_hostname ctx;
     rx_thread_id := rx_thread_id ctx; rx_parent := rx_parent ctx |}.

(** The runner a submission is recorded under: the current one if it belongs to
    this application. *)
(* @src rustvello/src/orchestration/submission.rs 140-144 Orchestrator::submit_with_id *)
Definition submission_caller (am : Ambient) (app_id : string) : RunnerContext :=
  let caller := get_or_create_runner_context am in
  if decide (rx_app_id caller = app_id) then caller
  else with_app_id app_id (external_runner (am_process am)).

(** [depth + 1] on [u32], as a release build computes it. *)
(* @src rustvello/src/orchestration/submission.rs 245-288 Orchestrator::resolve_workflow *)
Definition resolve_workflow (am : Ambient) (id : InvocationId) (task_id : TaskId)
    (is_workflow_task : bool) : option InvocationId * option WorkflowIdentity :=
  match am_invocation am, is_workflow_task with
  | Some ctx, false =>
      match ix_workflow ctx with
      | Some w => (Some (ix_invocation_id ctx),
          Some (workflow_child (workflow_id w) (workflow_type w) (ix_invocation_id ctx)
                  (u32_wrapping_add (wf_depth w) 1)))
      | None => (Some (ix_invocation_id ctx), None)
      end
  | Some ctx, true =>
      match ix_workflow ctx with
      | Some w => (Some (ix_invocation_id ctx), Some (sub_workflow id task_id (workflow_id w)))
      | None => (Some (ix_invocation_id ctx), Some (workflow_root id task_id))
      end
  | None, false => (None, None)
  | None, true => (None, Some (workflow_root id task_id))
  end.

(* @src rustvello/src/orchestration/submission.rs 228-243 Orchestrator::resolve_trace_context *)
Definition resolve_trace_context `{W3C} (am : Ambient) (explicit : option TraceContextCarrier)
    : RustvelloResult TraceContextCarrier :=
  let inherited := ix_trace_context <$> am_invocation am in
  let active := am_active_trace am in
  let carrier :=
    match explicit with
    | Some t => t
    | None => if negb (trace_context_is_empty active) then active
              else default trace_context_default inherited
    end in
  if is_valid_w3c_trace_context carrier then Ok carrier
  else Err (EConfiguration "invalid W3C traceparent or tracestate").

(* @src rustvello/src/orchestration/submission.rs 290-307 Orchestrator::invocation_dto *)
Definition invocation_dto (now : DateTime) (id : InvocationId) (task_id : TaskId) (call_id : CallId)
    (parent : option InvocationId) (workflow : option WorkflowIdentity) : InvocationDTO :=
  match workflow with
  | Some w => invocation_with_workflow now id task_id call_id parent w
  | None =>
      {| inv_id := id; inv_task_id := task_id; inv_call_id := call_id; inv_status := Registered;
         inv_created_at := now; inv_updated_at := now; inv_parent := parent; inv_workflow := None;
         inv_trace_context := trace_context_default |}
  end.

(** ** Routing a call *)

(* @src rustvello/src/orchestration/routing.rs 16-30 RouteCallResult *)
Inductive RouteCallResult :=
| RouteNew (id : InvocationId)
| Reused (id : InvocationId)
| ReusedDifferentCall (id : InvocationId) (existing_call_id : CallId).

Section orchestrator.
Context {J : JsonValue} {S : Type} {P : Ports S}.

(* @src rustvello/src/orchestration/routing.rs 159-247 Orchestrator::create_and_route_invocation *)
Definition create_and_route_invocation (id : InvocationId) (call : CallDTO)
    (cc_args : option SerializedArguments) (index_cc : bool) (runner : RunnerId) (queue : string)
    (priority : f64) : M RustvelloError S InvocationId :=
  now ← utc_now;
  let inv_dto := invocation_new now id (cd_task_id call) (cd_call_id call) in
  p ← publication;
  match p with
  | Some pub =>
      created ← pub_submit pub
        {| sp_invocation := inv_dto; sp_call := call; sp_runner_id := runner;
           sp_runner_context := None; sp_workflow_root := false;
           sp_cc_arguments := if index_cc then cc_args else None;
           sp_route := mkRoute queue priority |};
      (if (created : bool) then
         report_published_status id runner Registered (cd_task_id call) (cd_serialized_arguments call)
       else mret tt);;
      mret id
  | None =>
      sb_upsert_invocation inv_dto call;;
      record ← ctl_register_invocation_with_id id call (Some runner);
      record_history id record runner;;
      report_status id (cd_task_id call) (rec_status record) (cd_serialized_arguments call);;
      (if index_cc then ctl_index_for_concurrency_control id (cd_task_id call) cc_args else mret tt);;
      br_route_invocation_with_options id (Some (cd_task_id call)) queue priority;;
      mret id
  end.

Definition map_new (m : M RustvelloError S InvocationId) : M RustvelloError S RouteCallResult :=
  id ← m; mret (RouteNew id).

(* @src rustvello/src/orchestration/routing.rs 88-157 Orchestrator::route_call *)
Definition route_call (new_id : InvocationId) (call : CallDTO) (cc_args : option SerializedArguments)
    (registration_cc : ConcurrencyControlType) (index_cc : bool) (runner : RunnerId)
    (queue : string) (priority : f64) : M RustvelloError S RouteCallResult :=
  if decide (registration_cc = Unlimited) then
    map_new (create_and_route_invocation new_id call cc_args index_cc runner queue priority)
  else
    existing ← ctl_get_existing_invocations (cd_task_id call) cc_args [Registered];
    match existing with
    | existing_id :: _ =>
        inv ← sb_get_invocation existing_id;
        mret (if decide (inv_call_id inv = cd_call_id call) then Reused existing_id
              else ReusedDifferentCall existing_id (inv_call_id inv))
    | [] => map_new (create_and_route_invocation new_id call cc_args index_cc runner queue priority)
    end.

(** The routing of one invocation, and its trigger report: failures to record
    the history or to report are ignored. *)
(* @src rustvello/src/orchestration/routing.rs 259-324 Orchestrator::reroute_invocations *)
Definition reroute_one (runner : RunnerId) (routes : gmap InvocationId (string * f64))
    (id : InvocationId) : M RustvelloError S unit :=
  let route := ok_or (routes !! id) (EInternal ("missing routing for invocation " +:+ id)) in
  p ← publication;
  match p with
  | Some pub =>
      '(queue, priority) ← lift route;
      r ← attempt (pub_change pub id runner (ChangeReroute (mkRoute queue priority)) false);
      match r with
      | inl _ | inr (EInvalidStatusTransition _ _ _ _) => mret tt
      | inr e => throw e
      end
  | None =>
      r ← attempt (ctl_set_invocation_status id Rerouted (Some runner));
      match r with
      | inl record =>
          attempt (record_history id record runner);;
          (match tg_manager with
           | Some tm =>
               '(task_id, arguments) ← get_trigger_context id;
               attempt (tm_report_status_change tm (mkStatusContext id task_id Rerouted arguments));;
               mret tt
           | None => mret tt
           end);;
          invocation ← sb_get_invocation id;
          '(queue, priority) ← lift route;
          br_route_invocation_with_options id (Some (inv_task_id invocation)) queue priority
      | inr (EInvalidStatusTransition _ _ _ _) => mret tt
      | inr e => throw e
      end
  end.

(* @src rustvello/src/orchestration/routing.rs 249-326 Orchestrator::reroute_invocations *)
Definition reroute_invocations (ids : list InvocationId) (runner : RunnerId)
    (routes : gmap InvocationId (string * f64)) : M RustvelloError S unit :=
  for_each (reroute_one runner routes) ids.

Section catalog.
Context `{Environment} `{ParseF64} `{UnicodeCase} `{Glob} `{W3C} `{Sha256} `{SerdeString}.
Context (app_config : AppConfig) (catalog : TaskCatalog).

Definition route_of (task_id : TaskId) : RustvelloResult (string * f64) :=
  ok_or (routing_for catalog app_config task_id) (ETaskNotRegistered task_id).

(* @src rustvello/src/orchestration/routing.rs 34-61 Orchestrator::route_catalog_call *)
Definition route_catalog_call (new_id : InvocationId) (call : CallDTO)
    (cc_args : option SerializedArguments) (registration_cc : ConcurrencyControlType)
    (index_cc : bool) (runner : RunnerId) : M RustvelloError S RouteCallResult :=
  '(queue, priority) ← lift (route_of (cd_task_id call));
  route_call new_id call cc_args registration_cc index_cc runner queue priority.

Definition find_route (routes : gmap InvocationId (string * f64)) (id : InvocationId)
    : M RustvelloError S (gmap InvocationId (string * f64)) :=
  invocation ← sb_get_invocation id;
  route ← lift (route_of (inv_task_id invocation));
  mret (<[id := route]> routes).

(* @src rustvello/src/orchestration/routing.rs 63-86 Orchestrator::reroute_catalog_invocations *)
Definition reroute_catalog_invocations (ids : list InvocationId) (runner : RunnerId)
    : M RustvelloError S unit :=
  routes ← for_fold find_route ∅ ids;
  reroute_invocations ids runner routes.

(** ** Submission *)

(* @src rustvello/src/orchestration/submission.rs 309-338 Orchestrator::ensure_runner_context_stored *)
Definition ensure_runner_context_stored (ctx : RunnerContext) : M RustvelloError S unit :=
  cached ← orch_runner_cached (rx_runner_id ctx);
  if (cached : bool) then mret tt
  else
    stored ← sb_get_runner_context (rx_runner_id ctx);
    match stored with
    | Some _ => orch_cache_runner (rx_runner_id ctx)
    | None =>
        now ← utc_now;
        sb_store_runner_context (stored_from_runtime now ctx);;
        orch_cache_runner (rx_runner_id ctx)
    end.

(** The submission of a task that is known, under the id [id]. *)
(* @src rustvello/src/orchestration/submission.rs 128-226 Orchestrator::submit_with_id *)
Definition submit_task (am : Ambient) (id : InvocationId) (call : CallDTO)
    (explicit_trace : option TraceContextCarrier) (task : DynTask) (p : option (RuntimePublication S))
    : M RustvelloError S InvocationId :=
  let task_config := resolved catalog app_config (cd_task_id call) (dt_config task) in
  let '(parent, workflow) :=
    resolve_workflow am id (cd_task_id call) (tc_is_workflow_task task_config) in
  trace ← lift (resolve_trace_context am explicit_trace);
  now ← utc_now;
  let invocation := with_trace_context trace
    (invocation_dto now id (cd_task_id call) (cd_call_id call) parent workflow) in
  let caller := submission_caller am (ac_app_id app_config) in
  match p with
  | Some pub =>
      at_ ← utc_now;
      pub_submit pub
        {| sp_invocation := invocation; sp_call := call; sp_runner_id := rx_runner_id caller;
           sp_runner_context := Some (stored_from_runtime at_ caller);
           sp_workflow_root := tc_is_workflow_task task_config; sp_cc_arguments := None;
           sp_route := mkRoute (tc_queue task_config) (tc_priority task_config) |};;
      mret id
  | None =>
      ctl_register_invocation_with_id id call (Some (rx_runner_id caller));;
      sb_upsert_invocation invocation call;;
      (if tc_is_workflow_task task_config then
         match workflow with Some w => sb_store_workflow_run w | None => mret tt end
       else mret tt);;
      ensure_runner_context_stored caller;;
      registered_at ← utc_now;
      record_history id (status_record_new registered_at Registered (Some (rx_runner_id caller)))
        (rx_runner_id caller);;
      br_route_invocation_with_options id (Some (cd_task_id call)) (tc_queue task_config)
        (tc_priority task_config);;
      mret id
  end.

(** [fresh] is the random id drawn when none is requested. *)
(* @src rustvello/src/orchestration/submission.rs 107-226 Orchestrator::submit_with_id *)
Definition submit_with_id (am : Ambient) (fresh : InvocationId) (call : CallDTO)
    (explicit_trace : option TraceContextCarrier) (requested_id : option InvocationId)
    : M RustvelloError S InvocationId :=
  p ← publication;
  (match requested_id with Some _ => require_crash_consistent_publication | None => mret tt end);;
  task ← lift (ok_or (catalog_get catalog (cd_task_id call)) (ETaskNotRegistered (cd_task_id call)));
  submit_task am (default fresh requested_id) call explicit_trace task p.

(* @src rustvello/src/orchestration/submission.rs 85-105 Orchestrator::submit *)
Definition submit (am : Ambient) (fresh : InvocationId) (call : CallDTO)
    : M RustvelloError S InvocationId := submit_with_id am fresh call None None.

(** The first existing invocation the registration control answers with. *)
(* @src rustvello/src/orchestration/submission.rs 47-74 Orchestrator::submit_with_registration_control *)
Fixpoint find_existing (config : TaskConfig) (requested_key : option SerializedArguments)
    (ids : list InvocationId) : M RustvelloError S (option InvocationId) :=
  match ids with
  | [] => mret None
  | id :: rest =>
      if decide (tc_registration_concurrency config = CCTask) then mret (Some id)
      else
        invocation ← sb_get_invocation id;
        call ← sb_get_call (inv_call_id invocation);
        let existing_key := concurrency_arguments (tc_registration_concurrency config)
          (tc_key_arguments config) (cd_serialized_arguments call) in
        if bool_decide (existing_key = requested_key) then mret (Some id)
        else find_existing config requested_key rest
  end.

Definition non_terminal_statuses : list InvocationStatus :=
  bfilter (λ st, negb (is_terminal st)) ALL_STATUSES.

(* @src rustvello/src/orchestration/submission.rs 21-83 Orchestrator::submit_with_registration_control *)
Definition submit_with_registration_control (am : Ambient) (fresh : InvocationId) (task_id : TaskId)
    (args : SerializedArguments) : M RustvelloError S InvocationId :=
  task ← lift (ok_or (catalog_get catalog task_id) (ETaskNotRegistered task_id));
  let config := resolved catalog app_config task_id (dt_config task) in
  found ← (if decide (tc_registration_concurrency config = Unlimited) then mret None
           else
             ids ← ctl_get_existing_invocations task_id None non_terminal_statuses;
             find_existing config
               (concurrency_arguments (tc_registration_concurrency config)
                  (tc_key_arguments config) args) ids);
  match found with
  | Some id => mret id
  | None => submit am fresh (call_dto_new task_id args)
  end.
End catalog.

(** ** Lemmas *)

Section lemmas.
Context (view : S → RuntimeView) {L : PortLaws P view}.

Lemma yields_utc_now {A} (f : DateTime → M RustvelloError S A) c s r v :
  yields view (f (clock_next c).1) (clock_next c).2 s r v → yields view (utc_now ≫= f) c s r v.
Proof. intros (c' & s' & Hf & Hv). exists c', s'. by rewrite <-Hf. Qed.

Lemma yields_lift_Ok {A B} (a : A) (f : A → M RustvelloError S B) c s r v :
  yields view (f a) c s r v → yields view (lift (Ok a) ≫= f) c s r v.
Proof. done. Qed.

(** What creating an invocation leaves: it is stored, registered in the name of
    the runner, and queued at the end. *)
Definition creation (id : InvocationId) (call : CallDTO) (runner : RunnerId) (q : string) (p : f64)
    (v : RuntimeView) (r : RustvelloResult InvocationId) (v' : RuntimeView) : Prop :=
  ∃ created registered,
    let i := invocation_new created id (cd_task_id call) (cd_call_id call) in
    let v1 := registered_view runner v ((i, call), registered) in
    (tg_manager ≠ None ∧ is_ok r = false ∧ v' = v1) ∨
    match validate_routing q p with
    | Ok _ => r = Ok id ∧ v' = set_v_queue (λ l, l ++ [entry_now id (Some (cd_task_id call)) q p]) v1
    | Err e => r = Err e ∧ v' = v1
    | Panic _ => False
    end.

Lemma create_yields id call cc_args index_cc runner q p c s :
  ∃ r v', yields view (create_and_route_invocation id call cc_args index_cc runner q p) c s r v' ∧
    creation id call runner q p (view s) r v'.
Proof.
  unfold create_and_route_invocation, creation. set (created := (clock_next c).1).
  set (i := invocation_new created id (cd_task_id call) (cd_call_id call)).
  pose proof (pl_upsert i call (clock_next c).2 s) as Hu. ystep Hu c1 s1 Hv1 Hk1.
  destruct (pl_register id call (Some runner) c1 s1) as [now Hr]. cbv zeta in Hr.
  ystep Hr c2 s2 Hv2 Hk2. set (rec := mkRecord Registered (Some runner) now) in *.
  pose proof (pl_add_history (history_entry id rec runner) c2 s2) as Hh. ystep Hh c3 s3 Hv3 Hk3.
  set (v1 := registered_view runner (view s) ((i, call), now)).
  assert (view s3 = v1) as Hv1' by (unfold v1; simpl; by rewrite Hv3, Hv2, Hv1).
  destruct (report_silent view id (cd_task_id call) Registered (cd_serialized_arguments call) c3 s3)
    as (r & Hrep & Hcase). rewrite Hv1' in Hrep.
  destruct r as [[]|e|msg].
  - ystep Hrep c4 s4 Hv4 Hk4.
    assert (yields view (if index_cc then ctl_index_for_concurrency_control id (cd_task_id call) cc_args
                         else mret tt) c4 s4 (Ok tt) v1) as Hidx.
    { destruct index_cc; [rewrite <-Hv4; apply pl_index|by apply yields_ret]. }
    ystep Hidx c5 s5 Hv5 Hk5.
    pose proof (pl_route id (Some (cd_task_id call)) q p c5 s5) as Hq. cbv zeta in Hq. rewrite Hv5 in Hq.
    destruct (validate_routing_cases q p) as [(Hok & _)|(m & Herr & _)];
      [rewrite Hok in Hq |- *|rewrite Herr in Hq |- *]; simpl in Hq.
    + ystep Hq c6 s6 Hv6 Hk6. eexists _, _. split.
      * apply yields_utc_now. fold created. fold i. apply (yields_publication view).
        apply Hk1, Hk2, Hk3, Hk4, Hk5, Hk6, yields_ret. exact Hv6.
      * exists created, now. right. done.
    + eexists _, _. split.
      * apply yields_utc_now. fold created. fold i. apply (yields_publication view).
        apply Hk1, Hk2, Hk3, Hk4, Hk5, yields_bind_Err. exact Hq.
      * exists created, now. right. done.
  - eexists _, _. split.
    + apply yields_utc_now. fold created. fold i. apply (yields_publication view).
      apply Hk1, Hk2, Hk3, yields_bind_Err. exact Hrep.
    + exists created, now. left. by destruct Hcase as [?|[? _]].
  - eexists _, _. split.
    + apply yields_utc_now. fold created. fold i. apply (yields_publication view).
      apply Hk1, Hk2, Hk3, yields_bind_Panic. exact Hrep.
    + exists created, now. left. by destruct Hcase as [?|[? _]].
Qed.

Lemma map_new_creation m c s id call runner q p :
  (∃ r v', yields view m c s r v' ∧ creation id call runner q p (view s) r v') →
  ∃ r v', yields view (map_new m) c s (match r with Ok x => Ok (RouteNew x) | Err e => Err e
                                       | Panic msg => Panic msg end) v' ∧
    creation id call runner q p (view s) r v'.
Proof.
  intros (r & v' & Hm & Hc). exists r, v'. split; [|done]. unfold map_new. destruct r.
  - ystep Hm c1 s1 Hv Hk. by apply Hk, yields_ret.
  - by apply yields_bind_Err.
  - by apply yields_bind_Panic.
Qed.

(** ** Properties *)

(** Routing a call.  The answer "new" means that the given invocation was
    created: stored, registered in the runner's name with one history entry, and
    queued once at the end.  The answer "reused" writes nothing, is given only
    under registration control, and names an invocation that is waiting as
    Registered and was made by the same call; "reused with a different call"
    likewise, with the other call's id.  An error leaves everything as it was or
    a created invocation that is not queued. *)
Theorem route_call_behaviour new_id call cc_args cc index_cc runner q p c s :
  let m := route_call new_id call cc_args cc index_cc runner q p in
  let v := view s in
  let v' := view (state_after m c s) in
  let registered x i := (∃ rec, v_status v !! x = Some rec ∧ rec_status rec = Registered) ∧
                        v_invocations v !! x = Some i in
  match result_of m c s with
  | Ok (RouteNew x) => x = new_id ∧ creation new_id call runner q p v (Ok x) v'
  | Ok (Reused x) => cc ≠ Unlimited ∧ v' = v ∧ ∃ i, registered x i ∧ inv_call_id i = cd_call_id call
  | Ok (ReusedDifferentCall x other) =>
      cc ≠ Unlimited ∧ v' = v ∧ ∃ i, registered x i ∧ inv_call_id i = other ∧ other ≠ cd_call_id call
  | Err e => v' = v ∨ creation new_id call runner q p v (Err e) v'
  | Panic msg => creation new_id call runner q p v (Panic msg) v'
  end.
Proof.
  cbv zeta. unfold route_call. destruct (decide (cc = Unlimited)) as [Hcc|Hcc].
  - destruct (map_new_creation _ c s new_id call runner q p
      (create_yields new_id call cc_args index_cc runner q p c s)) as (r & v' & Hr & Hc).
    destruct (yields_result _ _ _ _ _ _ Hr) as [-> ->]. destruct r as [x|e|msg]; [|by right|done].
    split; [|done]. destruct Hc as (? & ? & [(_&?&_)|Hc]); [done|].
    destruct (validate_routing q p); naive_solver.
  - destruct (pl_existing (cd_task_id call) cc_args [Registered] c s) as (l & Hl & Hin).
    ystep Hl c1 s1 Hv1 Hk1. destruct l as [|x l].
    + destruct (map_new_creation _ c1 s1 new_id call runner q p
        (create_yields new_id call cc_args index_cc runner q p c1 s1)) as (r & v' & Hr & Hc).
      rewrite Hv1 in Hc.
      match goal with |- context [result_of ?m c s] =>
        assert (yields view m c s (match r with Ok x => Ok (RouteNew x) | Err e => Err e
                                   | Panic msg => Panic msg end) v') as Hy by (apply Hk1; exact Hr) end.
      destruct (yields_result _ _ _ _ _ _ Hy) as [-> ->].
      destruct r as [x|e|msg]; [|by right|done].
      split; [|done]. destruct Hc as (? & ? & [(_&?&_)|Hc]); [done|].
      destruct (validate_routing q p); naive_solver.
    + destruct (Hin x ltac:(done) ltac:(set_solver)) as (rec & Hrec & Hst%list_elem_of_singleton).
      pose proof (pl_get_invocation x c1 s1) as Hg. rewrite Hv1 in Hg.
      destruct (v_invocations (view s) !! x) as [i|] eqn:Hi; simpl in Hg.
      * ystep Hg c2 s2 Hv2 Hk2.
        match goal with |- context [result_of ?m c s] =>
          assert (yields view m c s (Ok (if decide (inv_call_id i = cd_call_id call) then Reused x
                    else ReusedDifferentCall x (inv_call_id i))) (view s)) as Hy end.
        { apply Hk1, Hk2, yields_ret. done. }
        destruct (yields_result _ _ _ _ _ _ Hy) as [-> ->]. case_decide; naive_solver.
      * match goal with |- context [result_of ?m c s] =>
          assert (yields view m c s (Err (EInvocationNotFound x)) (view s)) as Hy end.
        { apply Hk1, yields_bind_Err. done. }
        destruct (yields_result _ _ _ _ _ _ Hy) as [-> ->]. by left.
Qed.

(** Proves that the run of the goal yields [r] and [v], and reads them off. *)
Ltac reads r v :=
  match goal with |- context [result_of ?m ?c ?s] =>
    let Hy := fresh in
    assert (yields view m c s r v) as Hy;
      [|destruct (yields_result _ _ _ _ _ _ Hy) as [-> ->]] end.

Section submission.
Context `{Environment} `{ParseF64} `{UnicodeCase} `{Glob} `{W3C}.
Context (app_config : AppConfig) (catalog : TaskCatalog).

Lemma ensure_runner_silent ctx c s :
  yields view (ensure_runner_context_stored ctx) c s (Ok tt) (view s).
Proof.
  unfold ensure_runner_context_stored. destruct (pl_cached (rx_runner_id ctx) c s) as [b Hb].
  ystep Hb c1 s1 Hv1 Hk1. apply Hk1. destruct b; [by apply yields_ret|].
  destruct (pl_get_runner (rx_runner_id ctx) c1 s1) as [o Ho]. ystep Ho c2 s2 Hv2 Hk2. apply Hk2.
  destruct o as [x|].
  - pose proof (pl_cache (rx_runner_id ctx) c2 s2) as Hc. by rewrite Hv2, Hv1 in Hc.
  - apply yields_utc_now.
    pose proof (pl_store_runner (stored_from_runtime (clock_next c2).1 ctx) (clock_next c2).2 s2) as Hs.
    ystep Hs c3 s3 Hv3 Hk3. apply Hk3. pose proof (pl_cache (rx_runner_id ctx) c3 s3) as Hc.
    by rewrite Hv3, Hv2, Hv1 in Hc.
Qed.

(** What an accepted submission records, before it is queued. *)
Definition submitted_view (am : Ambient) (id : InvocationId) (call : CallDTO) (config : TaskConfig)
    (trace : TraceContextCarrier) (created registered noted : DateTime) (v : RuntimeView) : RuntimeView :=
  let '(parent, workflow) := resolve_workflow am id (cd_task_id call) (tc_is_workflow_task config) in
  let runner := rx_runner_id (submission_caller am (ac_app_id app_config)) in
  let invocation := with_trace_context trace
    (invocation_dto created id (cd_task_id call) (cd_call_id call) parent workflow) in
  add_v_history (history_entry id (mkRecord Registered (Some runner) noted) runner)
    (set_v_stored invocation call
      (set_v_status <[id := mkRecord Registered (Some runner) registered]> v)).

(** The run of a submission. *)
Lemma submission_run am fresh call explicit requested c s :
  let m := submit_with_id app_config catalog am fresh call explicit requested in
  let v' := view (state_after m c s) in
  match requested, catalog_get catalog (cd_task_id call), resolve_trace_context am explicit with
  | Some _, _, _ =>
      v' = view s ∧ result_of m c s =
        Err (EConfiguration "backend does not support crash-consistent runtime publication")
  | None, None, _ => v' = view s ∧ result_of m c s = Err (ETaskNotRegistered (cd_task_id call))
  | None, Some task, Ok trace =>
      let config := resolved catalog app_config (cd_task_id call) (dt_config task) in
      ∃ created registered noted,
        let v1 := submitted_view am fresh call config trace created registered noted (view s) in
        match validate_routing (tc_queue config) (tc_priority config) with
        | Ok _ => result_of m c s = Ok fresh ∧
            v' = set_v_queue (λ l, l ++ [entry_now fresh (Some (cd_task_id call)) (tc_queue config)
                                          (tc_priority config)]) v1
        | _ => v' = v1 ∧ is_ok (result_of m c s) = false
        end
  | None, Some _, _ => v' = view s ∧ is_ok (result_of m c s) = false
  end.
Proof.
  cbv zeta. unfold submit_with_id.
  assert (∀ A (f : option (RuntimePublication S) → M RustvelloError S A) c s r v,
    yields view (f None) c s r v →
    result_of (publication ≫= f) c s = r ∧ view (state_after (publication ≫= f) c s) = v) as Hread.
  { intros A f c0 s0 r v Hy. by apply (yields_result view), (yields_publication view). }
  destruct requested as [id|].
  { edestruct Hread as [-> ->]; [|done]. cbv beta.
    apply yields_bind_Err. apply (yields_publication view). by apply yields_throw. }
  destruct (catalog_get catalog (cd_task_id call)) as [task|].
  2: { edestruct Hread as [-> ->]; [|done]. cbv beta. simpl. by exists c, s. }
  simpl default. unfold submitted_view.
  set (config := resolved catalog app_config (cd_task_id call) (dt_config task)).
  destruct (resolve_workflow am fresh (cd_task_id call) (tc_is_workflow_task config))
    as [parent workflow] eqn:Hw.
  destruct (resolve_trace_context am explicit) as [trace|e|msg] eqn:Htr.
  2: { reads (Err (A := InvocationId) e) (view s); [|done]. apply (yields_publication view).
       change (yields view (submit_task app_config catalog am fresh call explicit task None) c s (Err e) (view s)).
       unfold submit_task.
       fold config. rewrite Hw, Htr. by exists c, s. }
  2: { reads (Panic (E := RustvelloError) (A := InvocationId) msg) (view s); [|done].
       apply (yields_publication view). change (yields view (submit_task app_config catalog am fresh call explicit task None) c s (Panic msg) (view s)).
       unfold submit_task.
       fold config. rewrite Hw, Htr. by exists c, s. }
  set (created := (clock_next c).1). set (caller := submission_caller am (ac_app_id app_config)).
  set (invocation := with_trace_context trace
    (invocation_dto created fresh (cd_task_id call) (cd_call_id call) parent workflow)).
  destruct (pl_register fresh call (Some (rx_runner_id caller)) (clock_next c).2 s) as [reg Hr].
  cbv zeta in Hr. ystep Hr c1 s1 Hv1 Hk1.
  pose proof (pl_upsert invocation call c1 s1) as Hu. ystep Hu c2 s2 Hv2 Hk2.
  assert (yields view (if tc_is_workflow_task config then
             match workflow with Some w => sb_store_workflow_run w | None => mret tt end
           else mret tt) c2 s2 (Ok tt) (view s2)) as Hrun.
  { destruct (tc_is_workflow_task config), workflow; try (by apply yields_ret). apply pl_store_run. }
  ystep Hrun c3 s3 Hv3 Hk3. pose proof (ensure_runner_silent caller c3 s3) as He.
  ystep He c4 s4 Hv4 Hk4. set (noted := (clock_next c4).1).
  pose proof (pl_add_history (history_entry fresh (mkRecord Registered (Some (rx_runner_id caller)) noted)
    (rx_runner_id caller)) (clock_next c4).2 s4) as Hh. ystep Hh c5 s5 Hv5 Hk5.
  pose proof (pl_route fresh (Some (cd_task_id call)) (tc_queue config) (tc_priority config) c5 s5) as Hq.
  cbv zeta in Hq.
  assert (view s5 = add_v_history (history_entry fresh (mkRecord Registered (Some (rx_runner_id caller)) noted)
      (rx_runner_id caller)) (set_v_stored invocation call
      (set_v_status <[fresh := mkRecord Registered (Some (rx_runner_id caller)) reg]> (view s)))) as Hv
    by (by rewrite Hv5, Hv4, Hv3, Hv2, Hv1).
  exists created, reg, noted.
  match goal with |- context [result_of ?m c s] =>
    assert (∀ r v, yields view (br_route_invocation_with_options fresh (Some (cd_task_id call))
        (tc_queue config) (tc_priority config);; mret fresh) c5 s5 r v → yields view m c s r v) as Hm end.
  { intros r v Hy. apply (yields_publication view).
    change (yields view (submit_task app_config catalog am fresh call explicit task None) c s r v).
    unfold submit_task. fold config. rewrite Hw, Htr.
    apply yields_lift_Ok, yields_utc_now.
    fold created. apply Hk1, Hk2, Hk3, Hk4, yields_utc_now, Hk5. exact Hy. }
  destruct (validate_routing_cases (tc_queue config) (tc_priority config)) as [(Hok & _)|(m & Herr & _)];
    [rewrite Hok in Hq |- *|rewrite Herr in Hq |- *]; simpl in Hq; rewrite Hv in Hq.
  - ystep Hq c6 s6 Hv6 Hk6. apply (yields_ret view fresh c6), (Hk6 _ (λ _, mret fresh)), Hm in Hv6.
    by destruct (yields_result _ _ _ _ _ _ Hv6) as [-> ->].
  - apply (yields_bind_Err view _ (λ _, mret fresh)), Hm in Hq.
    by destruct (yields_result _ _ _ _ _ _ Hq) as [-> ->].
Qed.

(** C11: A submission, on backends whose operations do not fail and that publish without
    a transaction (the laws [PortLaws]; with transactional publication an invalid route
    stores nothing and a requested id is accepted).  A submission of an unregistered
    task, with an invalid trace context or with a requested id is refused before
    anything is written.  Otherwise the invocation is stored with its parent, workflow
    and trace, Registered in the name of the submitting runner, has one history entry
    more, and is queued once with the route its resolved configuration names; with an
    invalid route it is stored all the same, the submission fails, and nothing is
    queued. *)
Theorem submission_behaviour am fresh call explicit requested c s :
  let m := submit_with_id app_config catalog am fresh call explicit requested in
  let v' := view (state_after m c s) in
  match requested, catalog_get catalog (cd_task_id call), resolve_trace_context am explicit with
  | Some _, _, _ =>
      v' = view s ∧ result_of m c s =
        Err (EConfiguration "backend does not support crash-consistent runtime publication")
  | None, None, _ => v' = view s ∧ result_of m c s = Err (ETaskNotRegistered (cd_task_id call))
  | None, Some task, Ok trace =>
      let config := resolved catalog app_config (cd_task_id call) (dt_config task) in
      ∃ created registered noted,
        let v1 := submitted_view am fresh call config trace created registered noted (view s) in
        match validate_routing (tc_queue config) (tc_priority config) with
        | Ok _ => result_of m c s = Ok fresh ∧
            v' = set_v_queue (λ l, l ++ [entry_now fresh (Some (cd_task_id call)) (tc_queue config)
                                          (tc_priority config)]) v1
        | _ => v' = v1 ∧ is_ok (result_of m c s) = false
        end
  | None, Some _, _ => v' = view s ∧ is_ok (result_of m c s) = false
  end.
Proof. apply submission_run. Qed.
End submission.
End lemmas.
End orchestrator.

(** ** Registration control on the in-memory backends *)

Section mem.
Context {J : JsonValue} {HO : HashOrder} {CH : Chrono} {T : Type}.

Lemma elem_of_retain s t pairs X x :
  x ∈ retain_members s t pairs X ↔ x ∈ X ∧ ∀ p, p ∈ pairs → x ∈ members (cc_index s) (t, p.1, p.2).
Proof.
  revert X. induction pairs as [|[k v] pairs IH]; intros X; cbn [retain_members]; [set_solver|].
  case_decide as He.
  2: { rewrite IH, elem_of_intersection. split.
       - intros [[Hx Hk] Hp]. split; [done|]. by intros p [->|?%Hp]%elem_of_cons.
       - intros [Hx Hp]. split; [split; [done|]|].
         + apply (Hp (k, v)). by left.
         + intros p Hin. apply Hp. by right. }
  split; [|intros [Hx Hp]; specialize (Hp (k, v)); set_solver]. set_solver.
Qed.

(** What the query for registered invocations of a task and arguments returns. *)
Definition registered_ids (s : OrchestratorState) (t : TaskId) (args : SerializedArguments)
    : list InvocationId :=
  match cc_candidates s (task_id_display t) (Some args) with
  | None => []
  | Some candidates =>
      bfilter (λ id, bool_decide ([Registered] = []) ||
                     match status_records s !! id with
                     | Some r => bool_decide (rec_status r ∈ [Registered])
                     | None => false
                     end) (set_iter candidates)
  end.

Lemma existing_run (s : Runtime T) t args c delay :
  ctl_get_existing_invocations (Ports := mem_ports None delay) t (Some args) [Registered] c s =
    (Ok (registered_ids (rt_control s) t args), c, s).
Proof. by destruct s. Qed.

Lemma elem_of_registered_ids s t args id :
  id ∈ registered_ids s t args ↔
  (∀ p, p ∈ cc_arg_pairs args → id ∈ members (cc_index s) (task_id_display t, p.1, p.2)) ∧
  ∃ rec, status_records s !! id = Some rec ∧ rec_status rec = Registered.
Proof.
  unfold registered_ids, cc_candidates. pose proof (cc_arg_pairs_nonempty args) as Hne.
  destruct (cc_arg_pairs args) as [|[k v] pairs]; [done|]. clear Hne.
  rewrite elem_of_bfilter, elem_of_set_iter, elem_of_retain, bool_decide_false by done. cbn [orb].
  setoid_rewrite elem_of_cons. destruct (status_records s !! id) as [rec|]; [|naive_solver].
  rewrite bool_decide_eq_true, list_elem_of_singleton. split.
  - intros (Hst & Hx & Hp). split; [|eauto]. intros p [->|?]; [done|by apply Hp].
  - intros (Hp & rec' & [= <-] & Hst). split; [done|]. split; [apply (Hp (k, v)); by left|].
    intros p Hin. apply Hp. by right.
Qed.

Lemma NoDup_registered_ids s t args : NoDup (registered_ids s t args).
Proof.
  unfold registered_ids. destruct (cc_candidates _ _ _); [apply NoDup_bfilter, NoDup_set_iter|constructor].
Qed.

Lemma NoDup_singleton_list {A} (l : list A) x : NoDup l → (∀ y, y ∈ l ↔ y = x) → l = [x].
Proof.
  intros Hnd Hl. destruct l as [|a [|b l]].
  - pose proof (proj2 (Hl x) eq_refl) as Hx. by apply elem_of_nil in Hx.
  - f_equal. apply Hl. set_solver.
  - assert (a = x ∧ b = x) as [-> ->] by (split; apply Hl; set_solver).
    inversion Hnd as [|? ? Hn]. set_solver.
Qed.

(** Registering and indexing an invocation makes it the only registered one with
    its arguments, if there was none. *)
Lemma registered_ids_created x t args id call dto now r :
  registered_ids x t args = [] →
  registered_ids (index_triples id (triples_of (task_id_display t) (cc_arg_pairs args))
    (insert_invocation id call dto (status_record_new now Registered r) x)) t args = [id].
Proof.
  intros Hx. apply NoDup_singleton_list; [apply NoDup_registered_ids|]. intros y.
  rewrite elem_of_registered_ids. setoid_rewrite members_index_triples. simpl. split.
  - intros [Hp Hst]. destruct (decide (y = id)) as [->|Hne]; [done|exfalso].
    rewrite lookup_insert_ne in Hst by done.
    assert (y ∈ registered_ids x t args) as Hin.
    { apply elem_of_registered_ids. split; [|done]. intros p Hin. by destruct (Hp p Hin) as [(?&_)|]. }
    rewrite Hx in Hin. by apply elem_of_nil in Hin.
  - intros ->. rewrite lookup_insert_eq. split; [|by eexists].
    intros [k v] Hin. left. done.
Qed.

Lemma create_run (delay : Z) id call args runner q p c (s : Runtime T) :
  validate_routing q p = Ok tt →
  ∃ c' s' i now, create_and_route_invocation (P := mem_ports None delay) id call (Some args) true runner
      q p c s = (Ok id, c', s') ∧
    rt_control s' = index_triples id (triples_of (task_id_display (cd_task_id call)) (cc_arg_pairs args))
      (insert_invocation id call i (status_record_new now Registered (Some runner)) (rt_control s)) ∧
    b_invocations (rt_state s') !! id = Some (invocation_new (clock_next c).1 id (cd_task_id call)
      (cd_call_id call)).
Proof.
  intros Hroute. unfold create_and_route_invocation, publication, report_status, record_history,
    mem_index_for_concurrency_control, mem_route_invocation_with_options. simpl.
  unfold mem_index_for_concurrency_control, mem_route_invocation_with_options. rewrite Hroute.
  rewrite decide_False.
  2: { pose proof (cc_arg_pairs_nonempty args). by destruct (cc_arg_pairs args). }
  do 4 eexists. split; [reflexivity|]. split; [reflexivity|]. simpl. by rewrite lookup_insert_eq.
Qed.

(** Registration control deduplicates: when a call is routed under it (with
    its concurrency arguments indexed) and there is no registered invocation for
    it yet, it creates one; routing the same call again before that invocation
    leaves Registered answers with that very invocation and changes nothing. *)
Theorem equal_calls_share_an_invocation (delay : Z) id1 id2 call args cc runner q p c (s : Runtime T) :
  let m id := route_call (P := mem_ports None delay) id call (Some args) cc true runner q p in
  cc ≠ Unlimited → validate_routing q p = Ok tt →
  registered_ids (rt_control s) (cd_task_id call) args = [] →
  result_of (m id1) c s = Ok (RouteNew id1) ∧
  ∀ c', m id2 c' (state_after (m id1) c s) = (Ok (Reused id1), c', state_after (m id1) c s).
Proof.
  intros m Hcc Hroute Hnone.
  destruct (create_run delay id1 call args runner q p c s Hroute) as (c1 & s1 & i & now & Hrun & Hctl & Hst).
  assert (m id1 c s = (Ok (RouteNew id1), c1, s1)) as Hm1.
  { unfold m, route_call. rewrite decide_False by done. unfold mbind, M_bind at 1.
    rewrite existing_run, Hnone. unfold map_new, mbind, M_bind. by rewrite Hrun. }
  unfold result_of, state_after. rewrite Hm1. split; [done|]. intros c'. simpl.
  unfold m, route_call. rewrite decide_False by done. unfold mbind at 1, M_bind at 1.
  rewrite existing_run, Hctl, registered_ids_created by done.
  unfold mbind, M_bind. simpl. unfold on_state, zoom, mem_get_invocation, mbind, M_bind, get, lift. simpl.
  rewrite Hst. simpl. rewrite decide_True by done. by destruct s1.
Qed.
End mem.

(** ** Witnesses *)

Lemma route_call_behaviour_witness :
  let m := route_call (P := demo_ports) "i2" demo_call None Unlimited false "r0" "default" 0 in
  result_of m demo_clock demo_runtime = Ok (RouteNew "i2") ∧
  creation (P := demo_ports) "i2" demo_call "r0" "default" 0 (runtime_view demo_runtime) (Ok "i2")
    (runtime_view (state_after m demo_clock demo_runtime)).
Proof.
  intros m. split; [vm_compute; reflexivity|].
  exact (proj2 (@route_call_behaviour text_json _ demo_ports runtime_view demo_laws "i2" demo_call None
    Unlimited false "r0" "default" 0 demo_clock demo_runtime)).
Defined.

Definition any_trace : W3C := {| is_valid_w3c_trace_context _ := true |}.
Definition demo_catalog : TaskCatalog :=
  with_registry catalog_new
    {| tr_tasks := {[demo_task := task_proxy demo_task task_config_default]}; tr_legacy := ∅ |}.
Definition demo_ambient : Ambient :=
  {| am_runner := None; am_invocation := None; am_active_trace := trace_context_default;
     am_process := mkProcess 7 "host" 1 |}.

Definition demo_submission : M RustvelloError (Runtime unit) InvocationId :=
  @submit_with_id text_json _ demo_ports (env_list []) parse_one ascii_case literal_glob any_trace
    (app_config_new "app") demo_catalog demo_ambient "i2" demo_call None None.

Lemma submission_behaviour_witness :
  result_of demo_submission demo_clock demo_runtime = Ok "i2" ∧
  ∃ v1, runtime_view (state_after demo_submission demo_clock demo_runtime) =
    set_v_queue (λ l, l ++ [entry_now "i2" (Some demo_task) "default" 0]) v1.
Proof.
  destruct (@submission_behaviour text_json _ demo_ports runtime_view demo_laws (env_list []) parse_one
    ascii_case literal_glob any_trace (app_config_new "app") demo_catalog demo_ambient "i2" demo_call
    None None demo_clock demo_runtime) as (created & registered & noted & Hr & Hv).
  split; [exact Hr|]. eexists. exact Hv.
Defined.

Lemma equal_calls_share_an_invocation_witness :
  let m id := route_call (P := demo_ports) id demo_call (Some arguments_new) CCTask true "r0" "default" 0 in
  let s := runtime_new tt in
  result_of (m "a") demo_clock s = Ok (RouteNew "a") ∧
  m "b" demo_clock (state_after (m "a") demo_clock s) =
    (Ok (Reused "a"), demo_clock, state_after (m "a") demo_clock s).
Proof.
  intros m s.
  destruct (@equal_calls_share_an_invocation text_json identity_order chrono_in_seconds unit 0 "a" "b"
    demo_call arguments_new CCTask "r0" "default" 0 demo_clock s) as [H1 H2].
  - discriminate.
  - reflexivity.
  - vm_compute. reflexivity.
  - split; [exact H1|exact (H2 demo_clock)].
Defined.
