(* ===== verification/Contexts.v ===== *)
(** * Contexts of the running code, and the signal that an attempt is abandoned

    Models the rest of [rustvello-core/src/context.rs].  Code finds its runner and its
    invocation in task-locals, then in thread-locals; [Locals] holds both kinds.  An
    [AttemptSignal] is shared by threads that register hooks and threads that raise it;
    each critical section of its mutex is one step, and a run is any interleaving.

    The theorems: contexts carried with a future are found wherever it is polled; and
    every hook runs exactly once, late registrations included. *)
From stdpp Require Import pretty.
From S2P Require Import Prelude Effects Identifiers Status Config Call Invocation MemStateBackend Routing.

(** ** Runner contexts *)

(* @src rustvello-core/src/context.rs 165-183 RunnerContext::new_with_runtime *)
Definition new_with_runtime (p : ProcessInfo) (id : RunnerId) (app_id cls : string) (language : TaskLanguage)
    (kind : ExecutorKind) : RunnerContext :=
  {| rx_runner_id := id; rx_runner_cls := cls; rx_runner_language := language; rx_executor_kind := kind;
     rx_app_id := app_id; rx_pid := p_pid p; rx_hostname := p_hostname p; rx_thread_id := p_thread_id p;
     rx_parent := None |}.

(* @src rustvello-core/src/context.rs 145-162 RunnerContext::new_with_language *)
Definition new_with_language (p : ProcessInfo) (id : RunnerId) (app_id cls : string) (language : TaskLanguage)
    : RunnerContext :=
  let executor_kind := match language with Rust => Tokio | Python => PythonExecutor end in
  new_with_runtime p id app_id cls language executor_kind.

(* @src rustvello-core/src/context.rs 140-142 RunnerContext::new *)
Definition runner_context_new (p : ProcessInfo) (id : RunnerId) (app_id cls : string) : RunnerContext :=
  new_with_language p id app_id cls Rust.

(** The process id and the thread are the current ones, the host is inherited. *)
(* @src rustvello-core/src/context.rs 194-206 RunnerContext::new_child_with_cls *)
Definition new_child_with_cls (p : ProcessInfo) (parent : RunnerContext) (id : RunnerId) (cls : string)
    : RunnerContext :=
  {| rx_runner_id := id; rx_runner_cls := cls; rx_runner_language := rx_runner_language parent;
     rx_executor_kind := rx_executor_kind parent; rx_app_id := rx_app_id parent; rx_pid := p_pid p;
     rx_hostname := rx_hostname parent; rx_thread_id := p_thread_id p; rx_parent := Some parent |}.

(* @src rustvello-core/src/context.rs 189-191 RunnerContext::new_child *)
Definition new_child (p : ProcessInfo) (parent : RunnerContext) (id : RunnerId) : RunnerContext :=
  new_child_with_cls p parent id (rx_runner_cls parent).

(* @src rustvello-core/src/context.rs 209-214 RunnerContext::root_runner_id *)
Fixpoint root_runner_id (ctx : RunnerContext) : RunnerId :=
  match rx_parent ctx with Some parent => root_runner_id parent | None => rx_runner_id ctx end.

(** ** The storage of contexts *)

Section locals.
Context {Signal : Type}.

(** The task-locals of the task that is polled and the thread-locals of its thread. *)
(* @src rustvello-core/src/context.rs 249-270 INVOCATION_CTX *)
Record Locals := mkLocals {
  task_runner : option RunnerContext;
  task_invocation : option InvocationContext;
  task_signal : option Signal;
  thread_runner : option RunnerContext;
  thread_invocation : option InvocationContext;
  thread_signal : option Signal
}.

Definition first_of {A} (task thread : option A) : option A :=
  match task with Some x => Some x | None => thread end.

(* @src rustvello-core/src/context.rs 273-284 set_thread_runner_context *)
Definition set_thread_runner (x : option RunnerContext) (l : Locals) : Locals :=
  mkLocals (task_runner l) (task_invocation l) (task_signal l) x (thread_invocation l) (thread_signal l).
(* @src rustvello-core/src/context.rs 287-298 set_thread_invocation_context *)
Definition set_thread_invocation (x : option InvocationContext) (l : Locals) : Locals :=
  mkLocals (task_runner l) (task_invocation l) (task_signal l) (thread_runner l) x (thread_signal l).
(* @src rustvello-core/src/context.rs 488-497 set_thread_attempt_signal *)
Definition set_thread_signal (x : option Signal) (l : Locals) : Locals :=
  mkLocals (task_runner l) (task_invocation l) (task_signal l) (thread_runner l) (thread_invocation l) x.

(* @src rustvello-core/src/context.rs 308-315 get_invocation_context *)
Definition get_invocation_context (l : Locals) : option InvocationContext :=
  first_of (task_invocation l) (thread_invocation l).
(* @src rustvello-core/src/context.rs 329-331 get_runner_context *)
Definition get_runner_context (l : Locals) : option RunnerContext := task_runner l.
(* @src rustvello-core/src/context.rs 503-508 current_attempt_signal *)
Definition current_attempt_signal (l : Locals) : option Signal := first_of (task_signal l) (thread_signal l).

(* @src rustvello-core/src/context.rs 369-382 get_or_create_runner_context *)
Definition current_runner_context (p : ProcessInfo) (l : Locals) : RunnerContext :=
  match task_runner l with
  | Some ctx => ctx
  | None => match thread_runner l with Some ctx => ctx | None => external_runner p end
  end.

(* @src rustvello-core/src/context.rs 349-364 get_or_create_runner_id *)
Definition get_or_create_runner_id (p : ProcessInfo) (l : Locals) : RunnerId :=
  match rx_runner_id <$> task_runner l with
  | Some rid => rid
  | None =>
      match rx_runner_id <$> thread_runner l with
      | Some rid => rid
      | None => p_hostname p +:+ "-" +:+ pretty (p_pid p)
      end
  end.

(** The task-locals around the future, in the locals [l] of where it is polled. *)
(* @src rustvello-core/src/context.rs 391-406 scope_current_contexts *)
Definition scope_current_contexts (caller l : Locals) : Locals :=
  let runner := first_of (task_runner caller) (thread_runner caller) in
  let l := match runner with
           | Some runner => mkLocals (Some runner) (task_invocation l) (task_signal l) (thread_runner l)
                              (thread_invocation l) (thread_signal l)
           | None => l
           end in
  match get_invocation_context caller with
  | Some invocation => mkLocals (task_runner l) (Some invocation) (task_signal l) (thread_runner l)
                         (thread_invocation l) (thread_signal l)
  | None => l
  end.

(** What a submission reads. *)
Definition ambient (p : ProcessInfo) (trace : TraceContextCarrier) (l : Locals) : Ambient :=
  {| am_runner := first_of (task_runner l) (thread_runner l); am_invocation := get_invocation_context l;
     am_active_trace := trace; am_process := p |}.
End locals.
#[global] Arguments Locals Signal : clear implicits.

(** ** The attempt signal *)

Section signal.
Context {H : Type}.

(** The flag and the registered hooks, behind one mutex, and the hooks run so far. *)
(* @src rustvello-core/src/context.rs 423-429 AttemptSignal *)
Record Signal := mkSignal { sg_abandoned : bool; sg_hooks : list H; sg_ran : list H }.

(* @src rustvello-core/src/context.rs 433-435 AttemptSignal::new *)
Definition signal_new : Signal := mkSignal false [] [].

(* @src rustvello-core/src/context.rs 438-440 AttemptSignal::is_abandoned *)
Definition is_abandoned (s : Signal) : bool := sg_abandoned s.

(** Where a thread is: before the mutex of [on_abandon], with a late hook in hand,
    before the mutex of [abandon], or with the hooks it took. *)
Inductive SignalThread :=
| Registering (hook : H)
| RunsLate (hook : H)
| Raising
| RunsTaken (hooks : list H)
| SignalDone.

(* @src rustvello-core/src/context.rs 446-454 AttemptSignal::on_abandon *)
Definition on_abandon_step (hook : H) (s : Signal) : SignalThread * Signal :=
  if is_abandoned s then (RunsLate hook, s)
  else (SignalDone, mkSignal (sg_abandoned s) (sg_hooks s ++ [hook]) (sg_ran s)).

(* @src rustvello-core/src/context.rs 457-463 AttemptSignal::abandon *)
Definition abandon_step (s : Signal) : SignalThread * Signal :=
  (RunsTaken (sg_hooks s), mkSignal true [] (sg_ran s)).

Definition run_hook (hook : H) (s : Signal) : Signal := mkSignal (sg_abandoned s) (sg_hooks s) (sg_ran s ++ [hook]).

(* @src rustvello-core/src/context.rs 446-467 AttemptSignal *)
Definition signal_step (t : SignalThread) (s : Signal) : option (SignalThread * Signal) :=
  match t with
  | Registering hook => Some (on_abandon_step hook s)
  | RunsLate hook => Some (SignalDone, run_hook hook s)
  | Raising => Some (abandon_step s)
  | RunsTaken (hook :: hooks) => Some (RunsTaken hooks, run_hook hook s)
  | RunsTaken [] => Some (SignalDone, s)
  | SignalDone => None
  end.

(** Any thread that can steps. *)
Inductive signal_runs : list SignalThread * Signal → list SignalThread * Signal → Prop :=
| signal_runs_step i ts s t t' s' :
    ts !! i = Some t → signal_step t s = Some (t', s') → signal_runs (ts, s) (<[i := t']> ts, s').

(** The hooks a thread still answers for. *)
Definition hooks_of (t : SignalThread) : list H :=
  match t with
  | Registering hook | RunsLate hook => [hook]
  | RunsTaken hooks => hooks
  | Raising | SignalDone => []
  end.

(** A thread that acts on a raised signal. *)
Definition sees_raised (t : SignalThread) : bool :=
  match t with RunsLate _ | RunsTaken _ => true | _ => false end.

Definition raises (t : SignalThread) : bool := match t with Raising => true | _ => false end.

(** The steps a thread has left at most: [n] bounds the hooks it may take. *)
Definition steps_left (n : nat) (t : SignalThread) : nat :=
  match t with
  | Registering _ => 2
  | RunsLate _ => 1
  | Raising => n + 2
  | RunsTaken hooks => length hooks + 1
  | SignalDone => 0
  end.

(** The hooks, wherever they are. *)
Definition all_hooks (c : list SignalThread * Signal) : list H :=
  (c.1 ≫= hooks_of) ++ sg_hooks c.2 ++ sg_ran c.2.

Lemma insert_hooks (ts : list SignalThread) i t t' :
  ts !! i = Some t → ∃ rest, (ts ≫= hooks_of) ≡ₚ hooks_of t ++ rest ∧
                             (<[i := t']> ts ≫= hooks_of) ≡ₚ hooks_of t' ++ rest.
Proof.
  intros Hi. exists ((take i ts ≫= hooks_of) ++ (drop (S i) ts ≫= hooks_of)). split.
  - rewrite <-(take_drop_middle ts i t Hi) at 1. rewrite bind_app, bind_cons. solve_Permutation.
  - rewrite insert_take_drop by (by apply lookup_lt_Some in Hi). rewrite bind_app, bind_cons. solve_Permutation.
Qed.

Lemma signal_step_hooks t s t' s' : signal_step t s = Some (t', s') →
  hooks_of t' ++ sg_hooks s' ++ sg_ran s' ≡ₚ hooks_of t ++ sg_hooks s ++ sg_ran s.
Proof.
  destruct t as [hook|hook| |[|hook hooks]|]; simpl; try done.
  - unfold on_abandon_step. destruct (is_abandoned s); intros [= <- <-]; simpl; [done|]. solve_Permutation.
  - intros [= <- <-]. simpl. solve_Permutation.
  - intros [= <- <-]. simpl. done.
  - intros [= <- <-]. simpl. done.
  - intros [= <- <-]. simpl. solve_Permutation.
Qed.

(** No hook is lost or duplicated. *)
Lemma signal_runs_hooks c c' : signal_runs c c' → all_hooks c' ≡ₚ all_hooks c.
Proof.
  intros [i ts s t t' s' Hi Hstep]. unfold all_hooks. simpl.
  destruct (insert_hooks ts i t t' Hi) as (rest & -> & ->). apply signal_step_hooks in Hstep.
  rewrite <-!(assoc_L (++)), !(Permutation_app_swap_app (hooks_of _) rest). by rewrite Hstep.
Qed.

(** What holds in every interleaving of threads that start as [ts]. *)
Record signal_inv (ts : list SignalThread) (c : list SignalThread * Signal) : Prop := {
  inv_hooks : all_hooks c ≡ₚ ts ≫= hooks_of;
  inv_quiet : sg_abandoned c.2 = false → sg_ran c.2 = [] ∧ Forall (λ t, sees_raised t = false) c.1;
  inv_taken : sg_abandoned c.2 = true → sg_hooks c.2 = [];
  inv_raised : sg_abandoned c.2 || List.existsb raises c.1 = List.existsb raises ts
}.

Definition starts (t : SignalThread) : Prop := (∃ hook, t = Registering hook) ∨ t = Raising.

Lemma starts_inv ts : Forall starts ts → signal_inv ts (ts, signal_new).
Proof.
  intros Hs. split; simpl; [|intros _; split; [done|]|done|done].
  - unfold all_hooks. simpl. by rewrite app_nil_r.
  - eapply list.Forall_impl; [exact Hs|]. by intros t [[hook ->]| ->].
Qed.

Lemma insert_raises (ts : list SignalThread) i t t' : ts !! i = Some t →
  ∃ b, List.existsb raises ts = raises t || b ∧ List.existsb raises (<[i := t']> ts) = raises t' || b.
Proof.
  intros Hi. exists (List.existsb raises (take i ts) || List.existsb raises (drop (S i) ts)). split.
  - rewrite <-(take_drop_middle ts i t Hi) at 1. rewrite List.existsb_app. simpl.
    by destruct (List.existsb raises (take i ts)), (raises t).
  - rewrite insert_take_drop by (by apply lookup_lt_Some in Hi). rewrite List.existsb_app. simpl.
    by destruct (List.existsb raises (take i ts)), (raises t').
Qed.

Lemma signal_runs_inv ts c c' : signal_inv ts c → signal_runs c c' → signal_inv ts c'.
Proof.
  intros [Hh Hq Ht Hr] Hrun. pose proof (signal_runs_hooks _ _ Hrun) as Hperm.
  destruct Hrun as [i l s t t' s' Hi Hstep]. split; [by rewrite Hperm|..]; simpl in *.
  - intros Hf. destruct (sg_abandoned s) eqn:Ha.
    { destruct t as [hook|hook| |[|hook hooks]|]; simpl in Hstep; unfold on_abandon_step, abandon_step, is_abandoned in Hstep;
        rewrite ?Ha in Hstep; simplify_eq; simpl in *; congruence. }
    destruct (Hq eq_refl) as [Hran Hall]. pose proof (Forall_lookup_1 _ _ _ _ Hall Hi) as Hsees.
    destruct t as [hook|hook| |[|hook hooks]|]; simpl in Hstep; unfold on_abandon_step, abandon_step, is_abandoned in Hstep;
      rewrite ?Ha in Hstep; simplify_eq; simpl in *; try done.
    split; [done|]. by apply Forall_insert.
  - intros Hf. destruct t as [hook|hook| |[|hook hooks]|]; simpl in Hstep; unfold on_abandon_step, abandon_step, is_abandoned in Hstep;
      try (destruct (sg_abandoned s) eqn:Ha); simplify_eq; simpl in *; auto; congruence.
  - destruct (insert_raises l i t t' Hi) as (b & Hb & ->). rewrite <-Hr, Hb.
    destruct t as [hook|hook| |[|hook hooks]|]; simpl in Hstep; unfold on_abandon_step, abandon_step, is_abandoned in Hstep;
      try (destruct (sg_abandoned s) eqn:Ha); simplify_eq; simpl in *; rewrite ?Ha; try done.
Qed.

(** Every step uses one of the steps that are left. *)
Definition total_left (n : nat) (c : list SignalThread * Signal) : nat := sum_list_with (steps_left n) c.1.

Lemma signal_runs_left n c c' :
  (length (all_hooks c) ≤ n)%nat → signal_runs c c' → (total_left n c' < total_left n c)%nat.
Proof.
  intros Hn Hrun. destruct Hrun as [i l s t t' s' Hi Hstep]. unfold total_left, all_hooks in *. simpl in *. rewrite !length_app in Hn.
  assert (steps_left n t' < steps_left n t)%nat as Hlt.
  { destruct t as [hook|hook| |[|hook hooks]|]; simpl in Hstep; unfold on_abandon_step, abandon_step in Hstep;
      try (destruct (is_abandoned s)); simplify_eq; simpl; lia. }
  rewrite <-(take_drop_middle l i t Hi) at 2. rewrite insert_take_drop by (by apply lookup_lt_Some in Hi).
  rewrite !sum_list_with_app. simpl. lia.
Qed.

Lemma signal_inv_length ts c : signal_inv ts c → length (all_hooks c) = length (ts ≫= hooks_of).
Proof. intros Hinv. by rewrite (inv_hooks _ _ Hinv). Qed.

Lemma signal_run_inv ts n c c' : signal_inv ts c → nsteps signal_runs n c c' →
  signal_inv ts c' ∧ (n + total_left (length (ts ≫= hooks_of)) c' ≤ total_left (length (ts ≫= hooks_of)) c)%nat.
Proof.
  intros Hinv Hrun. induction Hrun as [c|n c c1 c' Hstep Hrun IH]; [split; [done|lia]|].
  destruct (IH (signal_runs_inv _ _ _ Hinv Hstep)) as [Hinv' Hle]. split; [done|].
  pose proof (signal_runs_left (length (ts ≫= hooks_of)) _ _ ltac:(by rewrite (signal_inv_length _ _ Hinv)) Hstep). lia.
Qed.

(** A state in which no thread steps is one in which all are done. *)
Lemma signal_stuck c : (∀ c', ¬ signal_runs c c') → Forall (λ t, t = SignalDone) c.1.
Proof.
  intros Hstuck. apply Forall_lookup_2. intros i t Hi.
  destruct c as [l s]. simpl in *. destruct (signal_step t s) as [[t' s']|] eqn:Hstep.
  - destruct (Hstuck _ (signal_runs_step i l s t t' s' Hi Hstep)).
  - by destruct t as [hook|hook| |[|hook hooks]|].
Qed.

(** C31: The hooks of an abandoned attempt run exactly once.  For any threads that
    register hooks and raise the signal, in every interleaving: the number of steps is
    bounded; no hook runs before the signal is raised; no hook runs more often than it
    was registered; and when nothing is left to do, every hook has run, those
    registered after the signal too, if the signal was raised at all, and otherwise all
    are still registered. *)
Theorem abandon_hooks_run_once (ts : list SignalThread) n c :
  Forall starts ts → nsteps signal_runs n (ts, signal_new) c →
  let hooks := ts ≫= hooks_of in
  (n ≤ total_left (length hooks) (ts, signal_new))%nat ∧
  (sg_abandoned c.2 = false → sg_ran c.2 = []) ∧
  (∃ rest, sg_ran c.2 ++ rest ≡ₚ hooks) ∧
  ((∀ c', ¬ signal_runs c c') →
     if List.existsb raises ts then sg_ran c.2 ≡ₚ hooks else sg_ran c.2 = [] ∧ sg_hooks c.2 ≡ₚ hooks).
Proof.
  intros Hs Hrun hooks. destruct (signal_run_inv ts n _ _ (starts_inv ts Hs) Hrun) as [[Hh Hq Ht Hr] Hn].
  fold hooks in Hh, Hn. split_and!; [lia|intros Ha; by destruct (Hq Ha)|..].
  - exists ((c.1 ≫= hooks_of) ++ sg_hooks c.2). rewrite <-Hh. unfold all_hooks. solve_Permutation.
  - intros Hstuck%signal_stuck.
    assert (c.1 ≫= hooks_of = [] ∧ List.existsb raises c.1 = false) as [Hnone Hnr].
    { clear -Hstuck. induction Hstuck as [|t l -> _ [IH1 IH2]]; [done|]. by rewrite bind_cons, IH1. }
    unfold all_hooks in Hh. rewrite Hnone in Hh. rewrite Hnr, orb_false_r in Hr. rewrite <-Hr. simpl in Hh.
    destruct (sg_abandoned c.2).
    + by rewrite (Ht eq_refl) in Hh.
    + destruct (Hq eq_refl) as [Hran _]. split; [done|]. by rewrite Hran, app_nil_r in Hh.
Qed.
End signal.

(** ** Contexts follow the future *)

Lemma root_of_child p parent id cls : root_runner_id (new_child_with_cls p parent id cls) = root_runner_id parent.
Proof. done. Qed.

(** The two ways to the runner agree with each other and with what a submission reads. *)
Lemma runner_id_is_of_context {Signal} p trace (l : Locals Signal) :
  get_or_create_runner_id p l = rx_runner_id (current_runner_context p l) ∧
  get_or_create_runner_context (ambient p trace l) = current_runner_context p l.
Proof.
  unfold get_or_create_runner_id, current_runner_context, get_or_create_runner_context, ambient. simpl.
  by destruct (task_runner l), (thread_runner l).
Qed.

(** Wherever a future that carries the contexts of its caller is polled, it finds the
    caller's runner and invocation; where the caller had none, it finds those of the
    place, if any. *)
Theorem contexts_follow_the_future {Signal} p p' trace (caller l : Locals Signal) :
  let polled := scope_current_contexts caller l in
  get_invocation_context polled = first_of (get_invocation_context caller) (get_invocation_context l) ∧
  am_runner (ambient p' trace polled) =
    first_of (am_runner (ambient p trace caller)) (am_runner (ambient p' trace l)) ∧
  (is_Some (am_runner (ambient p trace caller)) → current_runner_context p' polled = current_runner_context p caller).
Proof.
  unfold scope_current_contexts, get_invocation_context, current_runner_context, ambient, first_of. simpl.
  destruct (task_runner caller), (thread_runner caller), (task_invocation caller), (thread_invocation caller); simpl;
    split_and!; try done; by intros [].
Qed.

(** ** Witness *)

(** One hook is registered before the signal is raised, one after. *)
Definition demo_threads : list (@SignalThread nat) := [Registering 1%nat; Raising; Registering 2%nat].

Definition demo_schedule : list nat := [0; 1; 2; 2; 1; 1]%nat.

Fixpoint run_signal {H} (schedule : list nat) (c : list (@SignalThread H) * @Signal H) : list (@SignalThread H) * @Signal H :=
  match schedule with
  | [] => c
  | i :: schedule =>
      match c.1 !! i ≫= λ t, signal_step t c.2 with
      | Some (t', s') => run_signal schedule (<[i := t']> c.1, s')
      | None => c
      end
  end.

Lemma run_signal_steps : nsteps signal_runs 6 (demo_threads, signal_new) (run_signal demo_schedule (demo_threads, signal_new)).
Proof.
  econstructor; [by eapply (signal_runs_step 0)|]. econstructor; [by eapply (signal_runs_step 1)|].
  econstructor; [by eapply (signal_runs_step 2)|]. econstructor; [by eapply (signal_runs_step 2)|].
  econstructor; [by eapply (signal_runs_step 1)|]. econstructor; [by eapply (signal_runs_step 1)|]. constructor.
Qed.

Lemma abandon_hooks_run_once_witness : sg_ran (run_signal demo_schedule (demo_threads, signal_new)).2 ≡ₚ [1; 2]%nat.
Proof.
  destruct (abandon_hooks_run_once demo_threads 6 (run_signal demo_schedule (demo_threads, signal_new)))
    as (_ & _ & _ & Hend).
  - constructor; [left; by eexists|]. constructor; [by right|]. constructor; [left; by eexists|constructor].
  - apply run_signal_steps.
  - apply Hend. intros c' Hrun. inversion Hrun as [i l s t t' s' Hi Hstep]; subst.
    destruct i as [|[|[|i]]]; simpl in Hi; simplify_eq; done.
Defined.
