(* ===== verification/TriggerManager.v ===== *)
(** * The trigger manager

    Models [rustvello-core/src/trigger.rs] and [failpoints.rs]: the storage
    interface of the trigger subsystem with its default methods, and the manager
    that matches contexts to conditions, evaluates cron schedules and claims the
    firings of triggers.  The in-memory store of [MemTrigger] implements the
    interface.

    The theorems: each schedule slot fires once, an evaluation claims exactly the
    firings of the satisfied triggers and each run once, the generic claim
    sequence and the store's atomic one have the same effect, and which composite
    conditions can never fire. *)
From S2P Require Import Prelude Effects Json Identifiers Status Errors Call Invocation Trigger MemTrigger Ports Routing.

(** ** Failpoints *)

(** [failpoints::boundary]: with the feature [fault-injection] an armed boundary
    fails; a build without it never does. *)
Definition Failpoints : Type := string → string → RustvelloResult unit.

(* @src rustvello-core/src/failpoints.rs 30-68 boundary *)
Definition no_failpoints : Failpoints := λ name subject, Ok tt.

Definition boundary {S} (fp : Failpoints) (name subject : string) : M RustvelloError S unit :=
  lift (fp name subject).

(** ** The storage interface *)

(** The required methods. *)
(* @src rustvello-core/src/trigger.rs 58-163 TriggerStore *)
Class TriggerStoreOps {J : JsonValue} (S : Type) := {
  ts_register_condition : TriggerCondition → M RustvelloError S ConditionId;
  ts_get_conditions_for_task : TaskId → M RustvelloError S (list (ConditionId * TriggerCondition));
  ts_get_cron_conditions : M RustvelloError S (list (ConditionId * TriggerCondition));
  ts_get_event_conditions : string → M RustvelloError S (list (ConditionId * TriggerCondition));
  ts_register_trigger : TriggerDefinitionDTO → M RustvelloError S unit;
  ts_get_triggers_for_condition : ConditionId → M RustvelloError S (list TriggerDefinitionDTO);
  ts_record_valid_condition : ValidCondition → M RustvelloError S unit;
  ts_get_valid_conditions : M RustvelloError S (list ValidCondition);
  ts_clear_valid_conditions : list string → M RustvelloError S unit;
  ts_get_last_cron_execution : ConditionId → M RustvelloError S (option DateTime);
  ts_store_cron_execution : ConditionId → DateTime → option DateTime → M RustvelloError S bool;
  ts_claim_trigger_run : TriggerRunId → M RustvelloError S bool;
  ts_store_event : EventRecord → M RustvelloError S unit;
  ts_get_event : string → M RustvelloError S (option EventRecord);
  ts_store_trigger_run : TriggerRunRecord → M RustvelloError S unit;
  ts_get_trigger_run : TriggerRunId → M RustvelloError S (option TriggerRunRecord);
  ts_get_trigger_runs : TriggerRunQuery → M RustvelloError S (list TriggerRunRecord);
  ts_purge : M RustvelloError S unit
}.

(** The methods a store may override. *)
Class TriggerStore {J : JsonValue} (S : Type) := {
  #[global] ts_ops :: TriggerStoreOps S;
  ts_claim_trigger_runs_with_records :
    list TriggerRunRecord → list string → M RustvelloError S (list bool);
  ts_get_pending_trigger_runs : Z → M RustvelloError S (list TriggerRunRecord)
}.

Section defaults.
Context {J : JsonValue} {S : Type} `{TriggerStoreOps S}.

(** One record of the ordered sequence. *)
(* @src rustvello-core/src/trigger.rs 186-200 TriggerStore::claim_trigger_runs_with_records *)
Definition default_claim_record (fp : Failpoints) (claimed : list bool) (record : TriggerRunRecord)
    : M RustvelloError S (list bool) :=
  let run_id := tr_trigger_run_id record in
  first ← ts_claim_trigger_run run_id;
  boundary fp "trigger.claim.claimed" run_id;;
  missing ← (if first : bool then mret true
             else stored ← ts_get_trigger_run run_id; mret (bool_decide (stored = None)));
  (if missing : bool then ts_store_trigger_run record else mret tt);;
  boundary fp "trigger.claim.recorded" run_id;;
  mret (claimed ++ [first]).

(* @src rustvello-core/src/trigger.rs 180-203 TriggerStore::claim_trigger_runs_with_records *)
Definition default_claim_trigger_runs_with_records (fp : Failpoints) (records : list TriggerRunRecord)
    (consumed : list string) : M RustvelloError S (list bool) :=
  claimed ← for_fold (default_claim_record fp) [] records;
  ts_clear_valid_conditions consumed;;
  mret claimed.

(** Oldest first. *)
Definition by_claim (a b : TriggerRunRecord) : bool := tr_claimed_at a <=? tr_claimed_at b.

Definition unlimited_runs : TriggerRunQuery := mkTriggerRunQuery None None None None None (Some u64_max).

(* @src rustvello-core/src/trigger.rs 209-225 TriggerStore::get_pending_trigger_runs *)
Definition default_get_pending_trigger_runs (limit : Z) : M RustvelloError S (list TriggerRunRecord) :=
  runs ← ts_get_trigger_runs unlimited_runs;
  mret (truncate limit (sort_by by_claim (bfilter is_pending runs))).
End defaults.

Section mem_store.
Context {J : JsonValue} `{HashOrder} `{Sha256}.

#[export] Instance mem_trigger_store_ops : TriggerStoreOps TriggerState :=
  {| ts_register_condition := mem_register_condition;
     ts_get_conditions_for_task := mem_get_conditions_for_task;
     ts_get_cron_conditions := mem_get_cron_conditions;
     ts_get_event_conditions := mem_get_event_conditions;
     ts_register_trigger := mem_register_trigger;
     ts_get_triggers_for_condition := mem_get_triggers_for_condition;
     ts_record_valid_condition := mem_record_valid_condition;
     ts_get_valid_conditions := mem_get_valid_conditions;
     ts_clear_valid_conditions := mem_clear_valid_conditions;
     ts_get_last_cron_execution := mem_get_last_cron_execution;
     ts_store_cron_execution := mem_store_cron_execution;
     ts_claim_trigger_run := mem_claim_trigger_run;
     ts_store_event := mem_store_event;
     ts_get_event := mem_get_event;
     ts_store_trigger_run := mem_store_trigger_run;
     ts_get_trigger_run := mem_get_trigger_run;
     ts_get_trigger_runs := mem_get_trigger_runs;
     ts_purge := mem_purge_triggers |}.

(** The memory store overrides the batch claim only. *)
#[export] Instance mem_trigger_store : TriggerStore TriggerState :=
  {| ts_ops := mem_trigger_store_ops;
     ts_claim_trigger_runs_with_records := mem_claim_trigger_runs_with_records;
     ts_get_pending_trigger_runs := default_get_pending_trigger_runs |}.
End mem_store.

(** ** The manager *)

(** Cron schedules ([croner] crate): the latest occurrence at or before an
    instant, when there is one. *)
Class Croner := {
  cron_schedule : Type;
  cron_from_str : string → option cron_schedule;
  cron_occurs : cron_schedule → DateTime → Prop;
  find_previous_occurrence : cron_schedule → DateTime → option DateTime;
  find_previous_occurrence_spec schedule now slot :
    find_previous_occurrence schedule now = Some slot →
    cron_occurs schedule slot ∧ slot ≤ now ∧ ∀ t, cron_occurs schedule t → t ≤ now → t ≤ slot
}.

(* @src rustvello-core/src/trigger.rs 28-28 CRON_MISSED_SLOT_GRACE_SECONDS *)
Definition CRON_MISSED_SLOT_GRACE_SECONDS : Z := 120.

(** [None]: the crate finds no previous occurrence. *)
(* @src rustvello-core/src/trigger.rs 38-46 cron_slot_due *)
Definition cron_slot_due `{Croner} `{Chrono} (schedule : cron_schedule) (now : DateTime)
    (last_execution : option DateTime) : option bool :=
  slot ← find_previous_occurrence schedule now;
  if CRON_MISSED_SLOT_GRACE_SECONDS <? elapsed_seconds now slot then Some false
  else Some (is_none_or last_execution (λ last, last <? slot)).

(* @src rustvello-core/src/trigger.rs 266-269 TRIGGER_RUN_NAMESPACE *)
Definition trigger_run_namespace : list Z :=
  [0x5c; 0x0e; 0x7a; 0x61; 0x2b; 0x4d; 0x4f; 0x0a; 0x9e; 0x1d; 0x8b; 0x62; 0x3f; 0x70; 0xc4; 0x19].

(* @src rustvello-core/src/trigger.rs 276-280 trigger_run_invocation_id *)
Definition trigger_run_invocation_id `{Uuid} (run_id : TriggerRunId) : InvocationId :=
  uuid_v5 trigger_run_namespace run_id.

(** [{:?}] of a status: the name of its constructor. *)
Definition status_debug (s : InvocationStatus) : string :=
  match s with
  | Registered => "Registered"
  | ConcurrencyControlled => "ConcurrencyControlled"
  | ConcurrencyControlledFinal => "ConcurrencyControlledFinal"
  | Rerouted => "Rerouted"
  | Pending => "Pending"
  | PendingRecovery => "PendingRecovery"
  | Running => "Running"
  | RunningRecovery => "RunningRecovery"
  | Paused => "Paused"
  | Killed => "Killed"
  | Success => "Success"
  | Failed => "Failed"
  | Retry => "Retry"
  | Cancelled => "Cancelled"
  end.

Section manager.
Context {J : JsonValue} {R : Rfc3339} {SH : Sha256} {U : Uuid}.

(* @src rustvello-core/src/trigger.rs 700-736 participant_from_valid_condition *)
Definition participant_from_valid_condition (vc : ValidCondition) : TriggerRunParticipant :=
  let participant kind event source summary :=
    {| pt_context_type := kind; pt_condition_id := vc_condition_id vc;
       pt_valid_condition_id := vc_valid_condition_id vc; pt_event_id := event;
       pt_source_invocation_id := source; pt_context_summary := summary |} in
  match vc_context vc with
  | CtxEvent x => participant "event" (Some (evc_event_id x)) None (evc_event_code x)
  | CtxStatus x => participant "status" None (Some (sc_invocation_id x))
      (task_id_display (sc_task_id x) +:+ " " +:+ status_debug (sc_status x))
  | CtxResult x => participant "result" None (Some (rsc_invocation_id x)) (task_id_display (rsc_task_id x))
  | CtxException x => participant "exception" None (Some (exc_invocation_id x))
      (task_id_display (exc_task_id x) +:+ " " +:+ exc_error_type x)
  | CtxCron x => participant "cron" None None (to_rfc3339 (crc_timestamp x))
  end.

(* @src rustvello-core/src/trigger.rs 629-663 TriggerManager::planned_run *)
Definition planned_run (now : DateTime) (run_id : TriggerRunId) (trigger : TriggerDefinitionDTO)
    (valid_conditions : list ValidCondition) : TriggerRunRecord * TriggerExecution :=
  let arguments := default (VObject []) (td_argument_template trigger) in
  let invocation_id := trigger_run_invocation_id run_id in
  ({| tr_trigger_run_id := run_id; tr_trigger_id := td_trigger_id trigger;
      tr_task_id := td_task_id trigger; tr_logic := td_logic trigger; tr_arguments := arguments;
      tr_participants := participant_from_valid_condition <$> valid_conditions;
      tr_claimed_at := now; tr_executed_at := None; tr_planned_invocation_id := Some invocation_id;
      tr_triggered_invocation_id := None; tr_atomic_service_run_id := None;
      tr_atomic_service_runner_id := None |},
   {| ex_run_id := run_id; ex_trigger := trigger; ex_arguments := arguments;
      ex_invocation_id := invocation_id |}).

(** Valid conditions grouped by their condition. *)
(* @src rustvello-core/src/trigger.rs 498-505 TriggerManager::evaluate_trigger_runs *)
Definition group_by_condition (vcs : list ValidCondition) : gmap ConditionId (list ValidCondition) :=
  fold_left (λ by_condition vc,
    <[vc_condition_id vc := default [] (by_condition !! vc_condition_id vc) ++ [vc]]> by_condition) vcs ∅.

(* @src rustvello-core/src/trigger.rs 540-544 TriggerManager::evaluate_trigger_runs *)
Definition run_id_of (trigger : TriggerDefinitionDTO) (suffix : string) : TriggerRunId :=
  "run_" +:+ td_trigger_id trigger +:+ "_" +:+ suffix.

(** The firings of a trigger, each with its valid conditions, and the ids of the
    valid conditions it consumes. *)
(* @src rustvello-core/src/trigger.rs 520-591 TriggerManager::evaluate_trigger_runs *)
Definition trigger_firings (by_condition : gmap ConditionId (list ValidCondition))
    (trigger : TriggerDefinitionDTO) : list (TriggerRunId * list ValidCondition) * list string :=
  let groups := omap (λ cid, by_condition !! cid) (td_condition_ids trigger) in
  match td_logic trigger with
  | LogicAnd =>
      if List.forallb (λ cid, bool_decide (is_Some (by_condition !! cid))) (td_condition_ids trigger)
      then
        let selected := omap head groups in
        let vc_ids := str_sort (vc_valid_condition_id <$> selected) in
        ([(run_id_of trigger (str_join "_" vc_ids), selected)],
         vc_valid_condition_id <$> mjoin groups)
      else ([], [])
  | LogicOr =>
      ((λ vc, (run_id_of trigger (vc_valid_condition_id vc), [vc])) <$> mjoin groups,
       vc_valid_condition_id <$> mjoin groups)
  end.

(** [trigger_map.entry(t.trigger_id).or_insert(t)]. *)
Definition or_insert (m : gmap TriggerDefinitionId TriggerDefinitionDTO) (t : TriggerDefinitionDTO)
    : gmap TriggerDefinitionId TriggerDefinitionDTO :=
  match m !! td_trigger_id t with Some _ => m | None => <[td_trigger_id t := t]> m end.

Section store.
Context {HO : HashOrder} {S : Type} {ST : TriggerStore S}.

(* @src rustvello-core/src/trigger.rs 295-312 TriggerManager::evaluate_task_conditions *)
Definition evaluate_task_conditions (task_id : TaskId) (ctx : ConditionContext)
    : M RustvelloError S (list ValidCondition) :=
  conditions ← ts_get_conditions_for_task task_id;
  for_fold (λ valid p,
    if is_satisfied_by p.2 ctx then
      let vc := valid_condition_new p.1 ctx in
      ts_record_valid_condition vc;;
      mret (valid ++ [vc])
    else mret valid) [] conditions.

(* @src rustvello-core/src/trigger.rs 315-321 TriggerManager::report_status_change *)
Definition report_status_change (ctx : StatusContext) : M RustvelloError S (list ValidCondition) :=
  evaluate_task_conditions (sc_task_id ctx) (CtxStatus ctx).

(* @src rustvello-core/src/trigger.rs 324-330 TriggerManager::report_result *)
Definition report_result (ctx : ResultContext) : M RustvelloError S (list ValidCondition) :=
  evaluate_task_conditions (rsc_task_id ctx) (CtxResult ctx).

(* @src rustvello-core/src/trigger.rs 333-339 TriggerManager::report_failure *)
Definition report_failure (ctx : ExceptionContext) : M RustvelloError S (list ValidCondition) :=
  evaluate_task_conditions (exc_task_id ctx) (CtxException ctx).

(** An error of the monitoring record is dropped. *)
(* @src rustvello-core/src/trigger.rs 391-395 TriggerManager::store_event_for_monitoring *)
Definition store_event_for_monitoring (event : EventRecord) : M RustvelloError S unit :=
  attempt (ts_store_event event);; mret tt.

Definition event_matched (cond_id : ConditionId) (vc_id : string) (e : EventRecord) : EventRecord :=
  {| er_event_id := er_event_id e; er_event_code := er_event_code e; er_payload := er_payload e;
     er_timestamp := er_timestamp e;
     er_matched_condition_ids := er_matched_condition_ids e ++ [cond_id];
     er_valid_condition_ids := er_valid_condition_ids e ++ [vc_id];
     er_triggered_invocation_ids := er_triggered_invocation_ids e;
     er_emitted_by_invocation_id := er_emitted_by_invocation_id e;
     er_emitted_by_task_id := er_emitted_by_task_id e;
     er_emitted_by_runner_id := er_emitted_by_runner_id e |}.

(** [event_id] is the fresh id that the call draws. *)
(* @src rustvello-core/src/trigger.rs 343-389 TriggerManager::emit_event *)
Definition emit_event (am : Ambient) (event_id event_code : string) (payload : Value)
    : M RustvelloError S string :=
  let ctx := CtxEvent (mkEventContext _ event_id event_code payload) in
  now ← utc_now;
  let record :=
    {| er_event_id := event_id; er_event_code := event_code; er_payload := payload;
       er_timestamp := now; er_matched_condition_ids := []; er_valid_condition_ids := [];
       er_triggered_invocation_ids := [];
       er_emitted_by_invocation_id := ix_invocation_id <$> am_invocation am;
       er_emitted_by_task_id := ix_task_id <$> am_invocation am;
       er_emitted_by_runner_id := Some (rx_runner_id (get_or_create_runner_context am)) |} in
  store_event_for_monitoring record;;
  conditions ← ts_get_event_conditions event_code;
  record ← for_fold (λ record p,
    if is_satisfied_by p.2 ctx then
      let vc := valid_condition_new p.1 ctx in
      ts_record_valid_condition vc;;
      mret (event_matched p.1 (vc_valid_condition_id vc) record)
    else mret record) record conditions;
  (if is_matched record then store_event_for_monitoring record else mret tt);;
  mret event_id.

(** One cron condition: [None] when it does not fire.  Expressions that do not
    parse, and schedules without a previous occurrence, are logged and skipped. *)
(* @src rustvello-core/src/trigger.rs 415-476 TriggerManager::evaluate_cron_conditions *)
Definition evaluate_cron_condition `{Croner} `{Chrono} (now : DateTime) (cond_id : ConditionId)
    (cron : CronCondition) : M RustvelloError S (option ValidCondition) :=
  match cron_from_str (crn_expression cron) with
  | None => mret None
  | Some schedule =>
      last_exec ← ts_get_last_cron_execution cond_id;
      let interval_ok := is_none_or last_exec (λ last,
        i64_saturating_of_u64 (crn_min_interval_seconds cron) <=? elapsed_seconds now last) in
      if negb interval_ok then mret None
      else if negb (default false (cron_slot_due schedule now last_exec)) then mret None
      else
        claimed ← ts_store_cron_execution cond_id now last_exec;
        if claimed : bool then
          let vc := valid_condition_new cond_id (CtxCron (mkCronContext now last_exec)) in
          ts_record_valid_condition vc;;
          mret (Some vc)
        else mret None
  end.

(* @src rustvello-core/src/trigger.rs 410-480 TriggerManager::evaluate_cron_conditions *)
Definition evaluate_cron_conditions `{Croner} `{Chrono} : M RustvelloError S (list ValidCondition) :=
  conditions ← ts_get_cron_conditions;
  now ← utc_now;
  for_fold (λ valid p,
    match p.2 with
    | CondCron cron =>
        vc ← evaluate_cron_condition now p.1 cron;
        mret (match vc with Some vc => valid ++ [vc] | None => valid end)
    | _ => mret valid
    end) [] conditions.

(** The triggers the valid conditions may fire, by id. *)
(* @src rustvello-core/src/trigger.rs 507-514 TriggerManager::evaluate_trigger_runs *)
Definition affected_triggers (by_condition : gmap ConditionId (list ValidCondition))
    : M RustvelloError S (gmap TriggerDefinitionId TriggerDefinitionDTO) :=
  for_fold (λ trigger_map cond_id,
    triggers ← ts_get_triggers_for_condition cond_id;
    mret (fold_left or_insert triggers trigger_map)) ∅ (map_iter by_condition).*1.

(** The planned runs of all triggers, and the ids they consume. *)
(* @src rustvello-core/src/trigger.rs 516-592 TriggerManager::evaluate_trigger_runs *)
Definition plan_runs (by_condition : gmap ConditionId (list ValidCondition))
    (triggers : list TriggerDefinitionDTO)
    : M RustvelloError S (list (TriggerRunRecord * TriggerExecution) * gset string) :=
  for_fold (λ acc trigger,
    let firings := trigger_firings by_condition trigger in
    candidates ← for_fold (λ candidates f,
      now ← utc_now;
      mret (candidates ++ [planned_run now f.1 trigger f.2])) acc.1 firings.1;
    mret (candidates, acc.2 ∪ list_to_set firings.2)) ([], ∅) triggers.

(* @src rustvello-core/src/trigger.rs 492-614 TriggerManager::evaluate_trigger_runs *)
Definition evaluate_trigger_runs : M RustvelloError S (list TriggerExecution) :=
  valid_conditions ← ts_get_valid_conditions;
  if bool_decide (valid_conditions = []) then mret []
  else
    let by_condition := group_by_condition valid_conditions in
    trigger_map ← affected_triggers by_condition;
    '(candidates, consumed) ← plan_runs by_condition (map_iter trigger_map).*2;
    if bool_decide (candidates.*1 = []) then mret []
    else
      claimed ← ts_claim_trigger_runs_with_records candidates.*1 (str_sort (elements consumed));
      mret (omap (λ p : (TriggerRunRecord * TriggerExecution) * bool,
              if p.2 then Some p.1.2 else None) (zip candidates claimed)).

(* @src rustvello-core/src/trigger.rs 617-626 TriggerManager::evaluate_triggers *)
Definition evaluate_triggers : M RustvelloError S (list (TriggerDefinitionDTO * Value)) :=
  executions ← evaluate_trigger_runs;
  mret ((λ e, (ex_trigger e, ex_arguments e)) <$> executions).

(* @src rustvello-core/src/trigger.rs 668-673 TriggerManager::pending_trigger_runs *)
Definition pending_trigger_runs (limit : Z) : M RustvelloError S (list TriggerRunRecord) :=
  ts_get_pending_trigger_runs limit.

Definition event_triggered (id : InvocationId) (e : EventRecord) : EventRecord :=
  {| er_event_id := er_event_id e; er_event_code := er_event_code e; er_payload := er_payload e;
     er_timestamp := er_timestamp e; er_matched_condition_ids := er_matched_condition_ids e;
     er_valid_condition_ids := er_valid_condition_ids e;
     er_triggered_invocation_ids := er_triggered_invocation_ids e ++ [id];
     er_emitted_by_invocation_id := er_emitted_by_invocation_id e;
     er_emitted_by_task_id := er_emitted_by_task_id e;
     er_emitted_by_runner_id := er_emitted_by_runner_id e |}.

(* @src rustvello-core/src/trigger.rs 676-697 TriggerManager::complete_trigger_run *)
Definition complete_trigger_run (run_id : TriggerRunId) (invocation_id : InvocationId)
    : M RustvelloError S unit :=
  run ← ts_get_trigger_run run_id;
  match run with
  | None => mret tt
  | Some run =>
      now ← utc_now;
      let run := run_completed invocation_id now run in
      ts_store_trigger_run run;;
      for_each (λ event_id,
        event ← ts_get_event event_id;
        match event with
        | Some event =>
            if bool_decide (invocation_id ∈ er_triggered_invocation_ids event) then mret tt
            else ts_store_event (event_triggered invocation_id event)
        | None => mret tt
        end) (event_ids run)
  end.

(** What the orchestrator sees of the manager. *)
Definition manager_port `{Croner} `{Chrono} : TriggerPort S :=
  {| tm_report_status_change ctx := report_status_change ctx;; mret tt;
     tm_report_result ctx := report_result ctx;; mret tt;
     tm_report_failure ctx := report_failure ctx;; mret tt;
     tm_evaluate_cron_conditions := evaluate_cron_conditions;; mret tt;
     tm_evaluate_trigger_runs := evaluate_trigger_runs;
     tm_pending_trigger_runs := pending_trigger_runs;
     tm_complete_trigger_run := complete_trigger_run;
     tm_purge := ts_purge |}.
End store.
End manager.
