(* ===== verification/TriggerFacts.v ===== *)
(** * Facts about the trigger manager on the in-memory store

    What an evaluation of cron schedules and of triggers leaves in the store, the
    invariant of the store, and the agreement of the generic claim sequence with
    the atomic one. *)
From S2P Require Import Prelude Effects Json Identifiers Status Errors Call Invocation Trigger MemOrchestratorFacts MemTrigger Ports Routing TriggerManager.

Section facts.
Context {J : JsonValue} {HO : HashOrder} {CH : Chrono} {R : Rfc3339} {SH : Sha256} {U : Uuid}.
Implicit Types (s : TriggerState).

(** ** Claims *)

Abbreviation claims := t_trigger_run_claims.
Abbreviation runs := t_trigger_runs.

(** What one record of a batch does to claims and records. *)
Definition record_claimed (now : DateTime) (record : TriggerRunRecord) s : TriggerState :=
  let key := tr_trigger_run_id record in
  let first := bool_decide (claims s !! key = None) in
  set_runs (if first then <[key := now]> (claims s) else claims s)
    (if first || bool_decide (runs s !! key = None) then <[key := record]> (runs s) else runs s) s.

Lemma set_runs_self s : set_runs (claims s) (runs s) s = s.
Proof. by destruct s. Qed.

Lemma bool_decide_None {A} (o : option A) : negb (bool_decide (is_Some o)) = bool_decide (o = None).
Proof. destruct o; [by rewrite bool_decide_true|by rewrite bool_decide_false by (by intros [? ?])]. Qed.

Lemma claim_record_run acc record c s :
  ∃ c', claim_record acc record c s =
    (Ok (acc ++ [bool_decide (claims s !! tr_trigger_run_id record = None)]), c',
     record_claimed (clock_next c).1 record s).
Proof.
  unfold claim_record, record_claimed. cbv [mbind M_bind get utc_now modify mret M_ret].
  rewrite !bool_decide_None.
  destruct (bool_decide_reflect (claims s !! tr_trigger_run_id record = None)) as [Hk|Hk]; simpl.
  - eexists. done.
  - destruct (bool_decide_reflect (runs s !! tr_trigger_run_id record = None)) as [Hr|Hr]; simpl;
      eexists; [done|]. by rewrite set_runs_self.
Qed.

Lemma default_claim_record_run acc record c s :
  default_claim_record no_failpoints acc record c s = claim_record acc record c s.
Proof.
  unfold default_claim_record, claim_record, boundary, no_failpoints. simpl.
  unfold mem_claim_trigger_run, mem_get_trigger_run, mem_store_trigger_run.
  cbv [mbind M_bind get gets utc_now modify mret M_ret lift]. rewrite !bool_decide_None.
  destruct (claims s !! tr_trigger_run_id record) as [t|] eqn:Hk; simpl.
  - by destruct (bool_decide _).
  - done.
Qed.

(** The ordered sequence of writes that stores without transactions run to
    claim a batch has, when nothing interrupts it, exactly the effect of the
    memory store's claim under one lock: the same answers, claims, run records
    and remaining valid conditions. *)
Theorem ordered_claims_equal_atomic_claims records consumed c s :
  default_claim_trigger_runs_with_records no_failpoints records consumed c s =
  mem_claim_trigger_runs_with_records records consumed c s.
Proof.
  unfold default_claim_trigger_runs_with_records, mem_claim_trigger_runs_with_records.
  assert (∀ acc c s, for_fold (default_claim_record no_failpoints) acc records c s =
                     for_fold claim_record acc records c s) as Hfold.
  { clear. induction records as [|r l IH]; intros acc c s; [done|]. cbn [for_fold].
    unfold mbind, M_bind. rewrite default_claim_record_run.
    destruct (claim_record acc r c s) as [[[a|e|p] c'] s']; [apply IH|done..]. }
  unfold mbind, M_bind. by rewrite Hfold.
Qed.

(** The elements flagged true. *)
Definition flagged {A} (l : list A) (bs : list bool) : list A :=
  omap (λ p : A * bool, if p.2 then Some p.1 else None) (zip l bs).

Lemma elem_of_flagged {A} (l : list A) bs x : x ∈ flagged l bs ↔ (x, true) ∈ zip l bs.
Proof.
  unfold flagged. rewrite list_elem_of_omap. split.
  - intros ([y []] & Hin & Hy); simplify_eq/=. done.
  - intros Hin. by exists (x, true).
Qed.

Lemma flagged_fmap {A B} (f : A → B) l bs : flagged (f <$> l) bs = f <$> flagged l bs.
Proof.
  revert bs. induction l as [|x l IH]; intros [|[] bs]; try done; unfold flagged in *; simpl; by rewrite IH.
Qed.

Lemma flagged_subseteq {A} (l : list A) bs x : x ∈ flagged l bs → x ∈ l.
Proof. intros Hx%elem_of_flagged%elem_of_zip_l. done. Qed.

(** What a batch of claims leaves. *)
Record batch_claimed (records : list TriggerRunRecord) (bs : list bool) s s' : Prop := {
  bc_frame : s' = set_runs (claims s') (runs s') s;
  bc_length : length bs = length records;
  bc_claims : claims s ⊆ claims s';
  bc_claimed k : is_Some (claims s' !! k) ↔ is_Some (claims s !! k) ∨ k ∈ tr_trigger_run_id <$> records;
  bc_kept k r : runs s !! k = Some r → is_Some (claims s !! k) ∨ k ∉ tr_trigger_run_id <$> records →
    runs s' !! k = Some r;
  bc_origin k r : runs s' !! k = Some r → runs s !! k = Some r ∨ r ∈ records ∧ tr_trigger_run_id r = k;
  bc_stored k : k ∈ tr_trigger_run_id <$> records → is_Some (runs s' !! k);
  bc_first : NoDup (tr_trigger_run_id <$> flagged records bs);
  bc_fresh k : k ∈ tr_trigger_run_id <$> flagged records bs ↔
    k ∈ tr_trigger_run_id <$> records ∧ claims s !! k = None;
  bc_record r : r ∈ flagged records bs → runs s' !! tr_trigger_run_id r = Some r
}.

Lemma record_claimed_claims now r s k :
  is_Some (claims (record_claimed now r s) !! k) ↔ is_Some (claims s !! k) ∨ k = tr_trigger_run_id r.
Proof.
  unfold record_claimed. simpl. case_bool_decide as Hc.
  - destruct (decide (k = tr_trigger_run_id r)) as [->|Hk].
    + rewrite lookup_insert_eq. naive_solver.
    + rewrite lookup_insert_ne by done. naive_solver.
  - split; [by left|]. intros [?| ->]; [done|]. by apply not_eq_None_Some.
Qed.

Lemma record_claimed_mono now r s : claims s ⊆ claims (record_claimed now r s).
Proof. unfold record_claimed. simpl. case_bool_decide; [by apply insert_subseteq|done]. Qed.

(** The record under a key after one step. *)
Lemma record_claimed_runs now r s k :
  let key := tr_trigger_run_id r in
  runs (record_claimed now r s) !! k =
    if bool_decide (k = key) && (bool_decide (claims s !! key = None) || bool_decide (runs s !! key = None))
    then Some r else runs s !! k.
Proof.
  intros key. unfold record_claimed. simpl. fold key.
  destruct (bool_decide (claims s !! key = None) || bool_decide (runs s !! key = None)); simpl.
  - rewrite andb_true_r. case_bool_decide as Hk; [by rewrite Hk, lookup_insert_eq|].
    by rewrite lookup_insert_ne by done.
  - by rewrite andb_false_r.
Qed.

Lemma batch_claimed_nil s : batch_claimed [] [] s s.
Proof.
  split; try done.
  - by rewrite set_runs_self.
  - intros k. split; [by left|]. by intros [?|?%elem_of_nil].
  - intros k r Hr. by left.
  - by intros k ?%elem_of_nil.
  - constructor.
  - intros k. split; [by intros ?%elem_of_nil|]. by intros [?%elem_of_nil _].
  - by intros r ?%elem_of_nil.
Qed.

Lemma batch_claimed_cons now r records bs s s' :
  batch_claimed records bs (record_claimed now r s) s' →
  batch_claimed (r :: records) (bool_decide (claims s !! tr_trigger_run_id r = None) :: bs) s s'.
Proof.
  intros [Hfr Hlen Hsub Hcl Hkept Horig Hst Hnd Hfresh Hrec].
  set (key := tr_trigger_run_id r) in *. set (s1 := record_claimed now r s) in *.
  assert (is_Some (claims s1 !! key)) as Hkey by (apply record_claimed_claims; by right).
  assert (∀ k, k ∈ tr_trigger_run_id <$> flagged records bs → k ≠ key) as Hne.
  { intros k Hk ->. apply Hfresh in Hk as [_ Hk]. rewrite Hk in Hkey. by destruct Hkey. }
  split.
  - rewrite Hfr at 1. unfold s1, record_claimed. by destruct s.
  - simpl. by rewrite Hlen.
  - etrans; [apply (record_claimed_mono now r)|exact Hsub].
  - intros k. rewrite Hcl. unfold s1. rewrite record_claimed_claims. simpl. rewrite elem_of_cons. fold key. tauto.
  - intros k x Hx Hk. assert (runs s1 !! k = Some x) as Hx1.
    { unfold s1. rewrite record_claimed_runs. fold key. case_bool_decide as Hkk; [|done]. subst k. simpl.
      rewrite (bool_decide_false (runs s !! key = None)) by (rewrite Hx; done).
      destruct Hk as [[? ->]|Hk]; [by rewrite bool_decide_false|]. destruct Hk. simpl. by left. }
    apply Hkept; [done|]. simpl in Hk. rewrite elem_of_cons in Hk.
    destruct Hk as [Hk|Hk]; [|tauto]. left. apply record_claimed_claims. by left.
  - intros k x Hx. apply Horig in Hx as [Hx|[? ?]]; [|right; split; [by right|done]].
    unfold s1 in Hx. rewrite record_claimed_runs in Hx. fold key in Hx.
    case_bool_decide; simpl in Hx; [|by left]. destruct (_ || _); [|by left].
    injection Hx as <-. right. split; [by left|by subst k].
  - intros k. simpl. rewrite elem_of_cons. intros [->|Hk]; [|by apply Hst].
    assert (is_Some (runs s1 !! key)) as [x Hx].
    { unfold s1. rewrite record_claimed_runs. fold key. rewrite bool_decide_true by done. simpl.
      destruct (bool_decide (claims s !! key = None)); [done|]. simpl.
      case_bool_decide as Hn; [done|]. by apply not_eq_None_Some. }
    fold key. rewrite (Hkept key x Hx); [done|by left].
  - unfold flagged in *. simpl. case_bool_decide as Hk; simpl; [|done].
    constructor; [|done]. intros Hin. by apply Hne in Hin.
  - intros k. unfold flagged in *. simpl. rewrite elem_of_cons. fold key.
    case_bool_decide as Hk; simpl; rewrite ?elem_of_cons, Hfresh; fold key; fold s1.
    + split.
      * intros [->|[Hin Hno]]; [tauto|]. split; [by right|].
        destruct (claims s !! k) eqn:E; [|done].
        pose proof (record_claimed_claims now r s k) as Hc. fold s1 in Hc. rewrite Hno, E in Hc.
        destruct (proj2 Hc) as [? ?]; [left; eauto|done].
      * intros [[->|Hin] Hno]; [by left|]. destruct (decide (k = key)); [by left|]. right. split; [done|].
        destruct (claims s1 !! k) eqn:E; [|done].
        pose proof (proj1 (record_claimed_claims now r s k)) as Hc. fold s1 in Hc. rewrite E in Hc.
        destruct Hc as [Hs|Hc]; [eauto| |done]. rewrite Hno in Hs. by destruct Hs.
    + assert (∀ k, claims s1 !! k = claims s !! k) as Hsame.
      { intros k'. unfold s1, record_claimed. simpl. fold key. by rewrite bool_decide_false. }
      rewrite Hsame. split; [naive_solver|]. intros [[->|?] ?]; [done|tauto].
  - intros x Hx. unfold flagged in *. simpl in Hx.
    case_bool_decide as Hk; simpl in Hx; [|by apply Hrec].
    apply elem_of_cons in Hx as [->|Hx]; [|by apply Hrec].
    apply Hkept; [|by left]. unfold s1. rewrite record_claimed_runs. fold key.
    rewrite !bool_decide_true by done. done.
Qed.

Lemma claim_batch_run records acc c s :
  ∃ bs c' s', for_fold claim_record acc records c s = (Ok (acc ++ bs), c', s') ∧
    batch_claimed records bs s s'.
Proof.
  revert acc c s. induction records as [|r l IH]; intros acc c s.
  - exists [], c, s. rewrite app_nil_r. split; [done|apply batch_claimed_nil].
  - cbn [for_fold]. destruct (claim_record_run acc r c s) as [c1 H1].
    destruct (IH (acc ++ [bool_decide (claims s !! tr_trigger_run_id r = None)]) c1
      (record_claimed (clock_next c).1 r s)) as (bs & c2 & s2 & H2 & Hb).
    eexists (_ :: bs), c2, s2. split; [|by apply batch_claimed_cons in Hb].
    unfold mbind, M_bind. rewrite H1, H2. by rewrite <-app_assoc.
Qed.

(** ** Interrupted claims *)

(** What a claim sequence that stops anywhere may have written. *)
Record claim_progress (records : list TriggerRunRecord) s s' : Prop := {
  cp_frame : s' = set_runs (claims s') (runs s') s;
  cp_claims : claims s ⊆ claims s';
  cp_new k : is_Some (claims s' !! k) → is_Some (claims s !! k) ∨ k ∈ tr_trigger_run_id <$> records;
  cp_kept k r : runs s !! k = Some r → is_Some (claims s !! k) → runs s' !! k = Some r;
  cp_origin k r : runs s' !! k = Some r → runs s !! k = Some r ∨ r ∈ records ∧ tr_trigger_run_id r = k
}.

#[local] Instance claim_progress_preorder records : PreOrder (claim_progress records).
Proof.
  split.
  - intros s. split; try done; [by rewrite set_runs_self|by left|by left].
  - intros a b c [Hf Hc Hn Hk Ho] [Hf' Hc' Hn' Hk' Ho']. split.
    + rewrite Hf'. rewrite Hf at 1. by destruct a.
    + by etrans.
    + intros k Hx. destruct (Hn' k Hx) as [Hy|?]; [by apply Hn|by right].
    + intros k r Hr Hs. apply Hk'; [by apply Hk|]. destruct Hs as [t Ht]. exists t.
      by apply (lookup_weaken _ _ _ _ Ht).
    + intros k r Hr. destruct (Ho' k r Hr) as [Hr'|?]; [by apply Ho|by right].
Qed.

Lemma record_claimed_progress records now r s :
  r ∈ records → claim_progress records s (record_claimed now r s).
Proof.
  intros Hin. split.
  - unfold record_claimed. by destruct s.
  - apply record_claimed_mono.
  - intros k Hk%record_claimed_claims. destruct Hk as [?| ->]; [by left|]. right.
    by apply list_elem_of_fmap_2.
  - intros k x Hx [t Ht]. rewrite record_claimed_runs. case_bool_decide as Hk; [|done]. subst k. simpl.
    by rewrite !bool_decide_false by congruence.
  - intros k x. rewrite record_claimed_runs. case_bool_decide as Hk; simpl; [|by left].
    destruct (_ || _); [|by left]. intros [= <-]. right. done.
Qed.

(** A claim whose record is still to be written. *)
Lemma claim_only_progress records now r s :
  r ∈ records → claims s !! tr_trigger_run_id r = None →
  claim_progress records s (set_runs (<[tr_trigger_run_id r := now]> (claims s)) (runs s) s).
Proof.
  intros Hin Hno. split; simpl; try done.
  - by apply insert_subseteq.
  - intros k. destruct (decide (k = tr_trigger_run_id r)) as [->|Hk].
    + intros _. right. by apply list_elem_of_fmap_2.
    + rewrite lookup_insert_ne by done. by left.
  - by left.
Qed.

Lemma default_claim_progress fp records acc r c s :
  r ∈ records → claim_progress records s (state_after (default_claim_record fp acc r) c s).
Proof.
  intros Hin. pose proof (record_claimed_progress records (clock_next c).1 r s Hin) as Hfull.
  unfold record_claimed in Hfull. revert Hfull.
  unfold default_claim_record, boundary, state_after. simpl.
  unfold mem_claim_trigger_run, mem_get_trigger_run, mem_store_trigger_run.
  cbv [mbind M_bind get gets utc_now modify mret M_ret lift].
  destruct (claims s !! tr_trigger_run_id r) as [t|] eqn:Hk; simpl.
  - intros Hfull.
    destruct (fp "trigger.claim.claimed" _); simpl; [|reflexivity..].
    destruct (runs s !! tr_trigger_run_id r) as [x|] eqn:Hx; simpl in *.
    + by destruct (fp "trigger.claim.recorded" _).
    + destruct (fp "trigger.claim.recorded" _); simpl; exact Hfull.
  - intros Hfull. destruct (fp "trigger.claim.claimed" _); simpl; [|by apply claim_only_progress..].
    destruct (fp "trigger.claim.recorded" _); simpl; exact Hfull.
Qed.

Lemma default_batch_progress fp records l acc c s :
  (∀ r, r ∈ l → r ∈ records) →
  claim_progress records s (state_after (for_fold (default_claim_record fp) acc l) c s).
Proof.
  revert acc c s. induction l as [|r l IH]; intros acc c s Hl; [reflexivity|].
  cbn [for_fold]. unfold state_after, mbind, M_bind.
  pose proof (default_claim_progress fp records acc r c s (Hl r ltac:(by left))) as Hr.
  unfold state_after in Hr. destruct (default_claim_record fp acc r c s) as [[[a|e|p] c1] s1]; try exact Hr.
  etrans; [exact Hr|]. apply (IH a c1 s1). intros x Hx. apply Hl. by right.
Qed.

Lemma mem_claims_run records consumed c s :
  ∃ bs c' s', mem_claim_trigger_runs_with_records records consumed c s =
      (Ok bs, c', set_valid (clear_ids consumed) s') ∧
    batch_claimed records bs s s'.
Proof.
  destruct (claim_batch_run records [] c s) as (bs & c' & s' & H & Hb).
  exists bs, c', s'. split; [|done]. unfold mem_claim_trigger_runs_with_records, mbind, M_bind.
  by rewrite H.
Qed.

(** A claim sequence that fails at any boundary is repaired by the next one:
    whatever the interrupted one wrote, the next claims and records every run of
    the batch and consumes the conditions; a run that was claimed and recorded
    before keeps its record, and no run is reported as new whose claim an earlier
    pass had made. *)
Theorem interrupted_claims_converge fp records consumed c s c' :
  let s1 := state_after (for_fold (default_claim_record fp) [] records) c s in
  ∃ bs s2, result_of (default_claim_trigger_runs_with_records no_failpoints records consumed) c' s1 = Ok bs ∧
    state_after (default_claim_trigger_runs_with_records no_failpoints records consumed) c' s1 = s2 ∧
    t_valid_conditions s2 = clear_ids consumed (t_valid_conditions s) ∧
    (∀ r, r ∈ records → is_Some (claims s2 !! tr_trigger_run_id r) ∧
       ∃ r', runs s2 !! tr_trigger_run_id r = Some r' ∧
         (r' ∈ records ∧ tr_trigger_run_id r' = tr_trigger_run_id r ∨
          runs s !! tr_trigger_run_id r = Some r')) ∧
    (∀ k r, runs s !! k = Some r → is_Some (claims s !! k) → runs s2 !! k = Some r) ∧
    (∀ r, r ∈ flagged records bs → claims s1 !! tr_trigger_run_id r = None).
Proof.
  intros s1. pose proof (default_batch_progress fp records records [] c s (λ r H, H)) as Hp.
  fold s1 in Hp. unfold result_of, state_after. rewrite ordered_claims_equal_atomic_claims.
  destruct (mem_claims_run records consumed c' s1) as (bs & c2 & s2 & Hrun & Hb).
  rewrite Hrun. exists bs, (set_valid (clear_ids consumed) s2). split_and!; [done|done| | | |].
  - simpl. rewrite (bc_frame _ _ _ _ Hb). simpl. by rewrite (cp_frame _ _ _ Hp).
  - intros r Hr. assert (tr_trigger_run_id r ∈ tr_trigger_run_id <$> records) as Hin
      by (by apply list_elem_of_fmap_2). simpl. split; [apply (bc_claimed _ _ _ _ Hb); by right|].
    destruct (bc_stored _ _ _ _ Hb _ Hin) as [r' Hr']. exists r'. split; [done|].
    destruct (bc_origin _ _ _ _ Hb _ _ Hr') as [H1|H1]; [|by left].
    destruct (cp_origin _ _ _ Hp _ _ H1) as [?|?]; [by right|by left].
  - intros k r Hr Hk. simpl. apply (bc_kept _ _ _ _ Hb); [by apply (cp_kept _ _ _ Hp)|]. left.
    destruct Hk as [t Ht]. exists t. by apply (lookup_weaken _ _ _ _ Ht), (cp_claims _ _ _ Hp).
  - intros r Hr. apply (bc_fresh _ _ _ _ Hb). by apply list_elem_of_fmap_2.
Qed.

(** ** The invariant of the store *)

Record trigger_wf s : Prop := {
  tw_conditions id cond : t_conditions s !! id = Some cond → condition_id cond = id;
  tw_tasks key id : id ∈ ids_at (t_source_task_conditions s) key → is_Some (t_conditions s !! id);
  tw_events code id : id ∈ ids_at (t_event_conditions s) code →
    ∃ c, t_conditions s !! id = Some (CondEvent c);
  tw_crons id : id ∈ t_cron_condition_ids s → ∃ c, t_conditions s !! id = Some (CondCron c);
  tw_triggers id tr : t_triggers s !! id = Some tr →
    td_trigger_id tr = id ∧ td_condition_ids tr ≠ [] ∧
    ∀ cid, cid ∈ td_condition_ids tr → id ∈ ids_at (t_condition_triggers s) cid;
  tw_valid id vc : t_valid_conditions s !! id = Some vc → vc_valid_condition_id vc = id;
  tw_runs id r : runs s !! id = Some r → tr_trigger_run_id r = id
}.

Lemma trigger_wf_new : trigger_wf trigger_store_new.
Proof.
  split; simpl; unfold ids_at; intros *; rewrite ?lookup_empty; simpl; try done; set_solver.
Qed.

Lemma elem_of_pushed_id id id' l : id ∈ push_once id' l ↔ id = id' ∨ id ∈ l.
Proof. unfold push_once. case_bool_decide; set_solver. Qed.

Lemma elem_of_index_once key id k i index :
  i ∈ ids_at (index_once key id index) k ↔ k = key ∧ i = id ∨ i ∈ ids_at index k.
Proof.
  unfold index_once, ids_at. destruct (decide (k = key)) as [->|Hk].
  - rewrite lookup_insert_eq. simpl. rewrite elem_of_pushed_id. tauto.
  - rewrite lookup_insert_ne by done. naive_solver.
Qed.

(** Indexing one id under several keys. *)
Lemma elem_of_index_all {A} (key : A → string) id l index k i :
  i ∈ ids_at (fold_left (λ index x, index_once (key x) id index) l index) k ↔
  k ∈ (key <$> l) ∧ i = id ∨ i ∈ ids_at index k.
Proof.
  revert index. induction l as [|x l IH]; intros index; simpl; [set_solver|].
  rewrite IH, elem_of_index_once, elem_of_cons. tauto.
Qed.

(** The id of a condition tells its kind. *)
Lemma condition_id_event cond c : condition_id cond = condition_id (CondEvent c) → ∃ c', cond = CondEvent c'.
Proof. destruct cond as [?|?|c0|?|?|? ?]; [discriminate|discriminate|by exists c0|discriminate..]. Qed.

Lemma condition_id_cron cond c : condition_id cond = condition_id (CondCron c) → ∃ c', cond = CondCron c'.
Proof. destruct cond as [c0|?|?|?|?|? ?]; [by exists c0|discriminate..]. Qed.

Lemma wf_condition_registered cond s : trigger_wf s → trigger_wf (condition_registered cond s).
Proof.
  intros [Hc Ht He Hcr Htr Hv Hr]. set (id := condition_id cond).
  assert (∀ i, is_Some (t_conditions s !! i) → is_Some (<[id := cond]> (t_conditions s) !! i)) as Hmono.
  { intros i Hi. destruct (decide (i = id)) as [->|Hi']; [by rewrite lookup_insert_eq|].
    by rewrite lookup_insert_ne. }
  assert (∀ i c, t_conditions s !! i = Some (CondEvent c) →
    ∃ c', <[id := cond]> (t_conditions s) !! i = Some (CondEvent c')) as Hevent.
  { intros i c Hi. destruct (decide (i = id)) as [->|Hi'].
    - rewrite lookup_insert_eq. destruct (condition_id_event cond c) as [c' ->]; [|by exists c'].
      by rewrite (Hc _ _ Hi).
    - rewrite lookup_insert_ne by done. by exists c. }
  assert (∀ i c, t_conditions s !! i = Some (CondCron c) →
    ∃ c', <[id := cond]> (t_conditions s) !! i = Some (CondCron c')) as Hcron.
  { intros i c Hi. destruct (decide (i = id)) as [->|Hi'].
    - rewrite lookup_insert_eq. destruct (condition_id_cron cond c) as [c' ->]; [|by exists c'].
      by rewrite (Hc _ _ Hi).
    - rewrite lookup_insert_ne by done. by exists c. }
  split; simpl; try done; fold id.
  - intros i c. destruct (decide (i = id)) as [->|Hi].
    + rewrite lookup_insert_eq. by intros [= ->].
    + rewrite lookup_insert_ne by done. apply Hc.
  - intros key i. rewrite elem_of_index_all. intros [[_ ->]|Hi]; [by rewrite lookup_insert_eq|].
    eapply Hmono, Ht, Hi.
  - intros code i. assert (i ∈ ids_at (t_event_conditions s) code →
      ∃ c, <[id := cond]> (t_conditions s) !! i = Some (CondEvent c)) as Hold.
    { intros Hi. destruct (He _ _ Hi) as [c Hc']. by eapply Hevent. }
    destruct cond as [?|?|c'|?|?|? ?]; try exact Hold.
    rewrite elem_of_index_once. intros [[_ ->]|Hi]; [|by apply Hold].
    rewrite lookup_insert_eq. by exists c'.
  - intros i. assert (i ∈ t_cron_condition_ids s →
      ∃ c, <[id := cond]> (t_conditions s) !! i = Some (CondCron c)) as Hold.
    { intros Hi. destruct (Hcr _ Hi) as [c Hc']. by eapply Hcron. }
    destruct cond as [c'|?|?|?|?|? ?]; try exact Hold.
    rewrite elem_of_pushed_id. intros [->|Hi]; [|by apply Hold].
    rewrite lookup_insert_eq. by exists c'.
Qed.

Lemma wf_trigger_registered tr s :
  td_condition_ids tr ≠ [] → trigger_wf s →
  trigger_wf (set_triggers (<[td_trigger_id tr := tr]> (t_triggers s))
    (fold_left (λ index cid, index_once cid (td_trigger_id tr) index) (td_condition_ids tr)
       (t_condition_triggers s)) s).
Proof.
  intros Hne [Hc Ht He Hcr Htr Hv Hr]. split; simpl; try done.
  intros id x Hx. destruct (decide (id = td_trigger_id tr)) as [->|Hid].
  - rewrite lookup_insert_eq in Hx. injection Hx as <-. split_and!; [done|done|].
    intros cid Hcid. apply (elem_of_index_all (λ cid, cid)). left. by rewrite list_fmap_id.
  - rewrite lookup_insert_ne in Hx by done. destruct (Htr _ _ Hx) as (? & ? & Hi). split_and!; [done|done|].
    intros cid Hcid. apply (elem_of_index_all (λ cid, cid)). right. by apply Hi.
Qed.

Lemma elem_of_unindex id index cid k i :
  i ∈ ids_at index k → i ≠ id → i ∈ ids_at (unindex id index cid) k.
Proof.
  unfold unindex, ids_at. intros Hi Hne. destruct (index !! cid) as [tids|] eqn:Hc; [|done].
  destruct (decide (k = cid)) as [->|Hk]; [|by rewrite lookup_insert_ne].
  rewrite lookup_insert_eq. rewrite Hc in Hi. simpl in *. apply elem_of_bfilter.
  by rewrite bool_decide_false.
Qed.

Lemma wf_trigger_removed id s : trigger_wf s → trigger_wf (trigger_removed s id).
Proof.
  intros Hwf. unfold trigger_removed. destruct (t_triggers s !! id) as [tr|] eqn:Hid; [|done].
  destruct Hwf as [Hc Ht He Hcr Htr Hv Hr]. split; simpl; try done.
  intros i x [Hne Hx]%lookup_delete_Some. destruct (Htr _ _ Hx) as (? & ? & Hi). split_and!; [done|done|].
  intros cid Hcid. specialize (Hi cid Hcid). clear - Hi Hne. revert Hi.
  generalize (t_condition_triggers s) as index. induction (td_condition_ids tr) as [|k l IH]; simpl; [done|].
  intros index Hi. apply IH. by apply elem_of_unindex.
Qed.

(** ** Evaluation *)

Lemma group_lookup vcs cid :
  group_by_condition vcs !! cid =
    let l := bfilter (λ vc, bool_decide (vc_condition_id vc = cid)) vcs in
    if bool_decide (l = []) then None else Some l.
Proof.
  unfold group_by_condition.
  set (step := λ (m : gmap ConditionId (list ValidCondition)) vc,
    <[vc_condition_id vc := default [] (m !! vc_condition_id vc) ++ [vc]]> m).
  assert (∀ (m : gmap ConditionId (list ValidCondition)),
    (∀ k, m !! k ≠ Some []) →
    fold_left step vcs m !! cid =
      let l := default [] (m !! cid) ++ bfilter (λ vc, bool_decide (vc_condition_id vc = cid)) vcs in
      if bool_decide (l = []) then None else Some l) as Hgen.
  { induction vcs as [|vc vcs IH]; intros m Hm; simpl.
    - rewrite app_nil_r. destruct (m !! cid) as [l|] eqn:Hl; simpl; [|done].
      rewrite bool_decide_false; [done|]. intros ->. by apply (Hm cid).
    - rewrite IH.
      + unfold step. unfold bfilter. simpl. destruct (bool_decide_reflect (vc_condition_id vc = cid)) as [<-|Hne].
        * rewrite lookup_insert_eq. simpl. by rewrite <-app_assoc.
        * by rewrite lookup_insert_ne by done.
      + intros k. unfold step. destruct (decide (k = vc_condition_id vc)) as [->|Hk].
        * rewrite lookup_insert_eq. intros [= E]. by destruct (default [] (m !! _)).
        * rewrite lookup_insert_ne by done. apply Hm. }
  rewrite Hgen by (intros k; by rewrite lookup_empty). by rewrite lookup_empty.
Qed.

(** The valid conditions that are pending. *)
Definition pending s (vc : ValidCondition) : Prop :=
  t_valid_conditions s !! vc_valid_condition_id vc = Some vc.

Lemma elem_of_pending s vc :
  trigger_wf s → vc ∈ (map_iter (t_valid_conditions s)).*2 ↔ pending s vc.
Proof.
  intros Hwf. unfold pending. rewrite list_elem_of_fmap. split.
  - intros ([k x] & -> & Hin%elem_of_map_iter). simpl. by rewrite (tw_valid _ Hwf _ _ Hin).
  - intros Hp. exists (vc_valid_condition_id vc, vc). split; [done|]. by apply elem_of_map_iter.
Qed.

(** The groups an evaluation works with. *)
Definition groups_of s : gmap ConditionId (list ValidCondition) :=
  group_by_condition (map_iter (t_valid_conditions s)).*2.

Lemma elem_of_group s cid l vc :
  trigger_wf s → groups_of s !! cid = Some l → vc ∈ l ↔ pending s vc ∧ vc_condition_id vc = cid.
Proof.
  intros Hwf. unfold groups_of. rewrite group_lookup. simpl. case_bool_decide; [done|].
  intros [= <-]. rewrite elem_of_bfilter, elem_of_pending, bool_decide_eq_true by done. tauto.
Qed.

Lemma group_present s cid :
  trigger_wf s → is_Some (groups_of s !! cid) ↔ ∃ vc, pending s vc ∧ vc_condition_id vc = cid.
Proof.
  intros Hwf. split.
  - intros [l Hl]. assert (∃ vc, vc ∈ l) as [vc Hvc].
    { destruct l as [|vc l]; [|exists vc; by left]. unfold groups_of in Hl. rewrite group_lookup in Hl.
      simpl in Hl. case_bool_decide as Hn; [done|]. injection Hl as Hl. by destruct Hn. }
    exists vc. by apply (elem_of_group s cid l).
  - intros (vc & Hp & Hc). unfold groups_of. rewrite group_lookup. simpl. case_bool_decide as Hn; [|done].
    assert (vc ∈ ([] : list ValidCondition)) as ?%elem_of_nil; [|done]. rewrite <-Hn.
    by rewrite elem_of_bfilter, elem_of_pending, bool_decide_eq_true.
Qed.

(** A firing of a trigger: one valid condition per condition when all are
    required, a single one otherwise. *)
Inductive fires s (trigger : TriggerDefinitionDTO) : TriggerRunId → list ValidCondition → Prop :=
| FiresAnd picks :
    td_logic trigger = LogicAnd →
    Forall2 (λ cid vc, pending s vc ∧ vc_condition_id vc = cid) (td_condition_ids trigger) picks →
    fires s trigger (run_id_of trigger (str_join "_" (str_sort (vc_valid_condition_id <$> picks)))) picks
| FiresOr vc :
    td_logic trigger = LogicOr → pending s vc → vc_condition_id vc ∈ td_condition_ids trigger →
    fires s trigger (run_id_of trigger (vc_valid_condition_id vc)) [vc].

(** When a trigger fires. *)
Definition ready s (trigger : TriggerDefinitionDTO) : Prop :=
  match td_logic trigger with
  | LogicAnd => ∀ cid, cid ∈ td_condition_ids trigger → ∃ vc, pending s vc ∧ vc_condition_id vc = cid
  | LogicOr => ∃ vc, pending s vc ∧ vc_condition_id vc ∈ td_condition_ids trigger
  end.

Lemma elem_of_groups s cids vc :
  trigger_wf s →
  vc ∈ mjoin (omap (λ cid, groups_of s !! cid) cids) ↔ pending s vc ∧ vc_condition_id vc ∈ cids.
Proof.
  intros Hwf. rewrite list_elem_of_join. split.
  - intros (l & Hvc & (cid & Hcid & Hl)%list_elem_of_omap).
    destruct (proj1 (elem_of_group s cid l vc Hwf Hl) Hvc) as [? ->]. done.
  - intros [Hp Hc]. destruct (proj2 (group_present s (vc_condition_id vc) Hwf)) as [l Hl]; [eauto|].
    exists l. split; [by apply (elem_of_group s (vc_condition_id vc) l)|].
    apply list_elem_of_omap. eauto.
Qed.

(** One pick per condition, when each has a group. *)
Lemma and_picks s cids :
  trigger_wf s → (∀ cid, cid ∈ cids → is_Some (groups_of s !! cid)) →
  Forall2 (λ cid vc, pending s vc ∧ vc_condition_id vc = cid) cids
    (omap head (omap (λ cid, groups_of s !! cid) cids)).
Proof.
  intros Hwf. induction cids as [|cid cids IH]; intros Hall; [constructor|].
  destruct (Hall cid ltac:(by left)) as [l Hl]. simpl. rewrite Hl. simpl.
  destruct l as [|vc l].
  { unfold groups_of in Hl. rewrite group_lookup in Hl. simpl in Hl. case_bool_decide as Hn; [done|].
    injection Hl as Hl. by destruct Hn. }
  simpl. constructor; [apply (elem_of_group s cid (vc :: l)); [done..|by left]|].
  apply IH. intros k Hk. apply Hall. by right.
Qed.

(** The firings of a trigger are the ones of the specification. *)
Lemma trigger_firings_fire s trigger :
  trigger_wf s →
  (∀ f, f ∈ (trigger_firings (groups_of s) trigger).1 → fires s trigger f.1 f.2) ∧
  (ready s trigger → ∃ f, f ∈ (trigger_firings (groups_of s) trigger).1) ∧
  (∀ vc, td_logic trigger = LogicOr → pending s vc → vc_condition_id vc ∈ td_condition_ids trigger →
     (run_id_of trigger (vc_valid_condition_id vc), [vc]) ∈ (trigger_firings (groups_of s) trigger).1) ∧
  (∀ id, id ∈ (trigger_firings (groups_of s) trigger).2 ↔
     ready s trigger ∧ ∃ vc, pending s vc ∧ vc_condition_id vc ∈ td_condition_ids trigger ∧
       vc_valid_condition_id vc = id).
Proof.
  intros Hwf. unfold trigger_firings, ready.
  assert (∀ cids id, id ∈ vc_valid_condition_id <$> mjoin (omap (λ cid, groups_of s !! cid) cids) ↔
    ∃ vc, pending s vc ∧ vc_condition_id vc ∈ cids ∧ vc_valid_condition_id vc = id) as Hids.
  { intros cids id. rewrite list_elem_of_fmap. split.
    - intros (vc & -> & [? ?]%elem_of_groups); [|done]. eauto.
    - intros (vc & ? & ? & <-). exists vc. split; [done|]. by apply elem_of_groups. }
  destruct (td_logic trigger) eqn:Hl.
  - destruct (List.forallb _ _) eqn:Hall; simpl.
    + rewrite List.forallb_forall in Hall.
      assert (∀ cid, cid ∈ td_condition_ids trigger → is_Some (groups_of s !! cid)) as Hsome.
      { intros cid Hcid%list_elem_of_In%Hall. by apply bool_decide_eq_true in Hcid. }
      split_and!.
      * intros f ->%list_elem_of_singleton. apply FiresAnd; [done|]. by apply and_picks.
      * intros _. eexists. by left.
      * done.
      * intros id. rewrite Hids. split; [|tauto]. intros Hvc. split; [|done].
        intros cid Hcid. by apply group_present, Hsome.
    + assert (¬ ∀ cid, cid ∈ td_condition_ids trigger → ∃ vc, pending s vc ∧ vc_condition_id vc = cid) as Hno.
      { intros Hr. apply not_true_iff_false in Hall. apply Hall, List.forallb_forall.
        intros cid Hcid%list_elem_of_In. apply bool_decide_eq_true. by apply group_present, Hr. }
      split_and!; [by intros f ?%elem_of_nil|done|done|].
      intros id. split; [by intros ?%elem_of_nil|tauto].
  - simpl. split_and!.
    + intros f (vc & -> & [? ?]%elem_of_groups)%list_elem_of_fmap; [|done]. by apply FiresOr.
    + intros (vc & Hp & Hc). eexists. apply list_elem_of_fmap. exists vc. split; [done|]. by apply elem_of_groups.
    + intros vc _ Hp Hc. apply list_elem_of_fmap. exists vc. split; [done|]. by apply elem_of_groups.
    + intros id. rewrite Hids. split; [|tauto]. intros (vc & ? & ? & ?). split; [eauto|eauto].
Qed.

(** Triggers of a store merged into a map of triggers of that store. *)
Lemma merge_triggers s ts (m : gmap TriggerDefinitionId TriggerDefinitionDTO) id tr :
  (∀ t, t ∈ ts → t_triggers s !! td_trigger_id t = Some t) →
  (∀ i t, m !! i = Some t → t_triggers s !! i = Some t) →
  fold_left or_insert ts m !! id = Some tr ↔ m !! id = Some tr ∨ tr ∈ ts ∧ td_trigger_id tr = id.
Proof.
  revert m. induction ts as [|t ts IH]; intros m Hts Hm; simpl; [set_solver|].
  assert (t_triggers s !! td_trigger_id t = Some t) as Ht by (apply Hts; by left).
  unfold or_insert at 2. destruct (m !! td_trigger_id t) as [x|] eqn:Hx; rewrite IH; try (intros y Hy; apply Hts; by right); try done.
  - assert (x = t) as -> by (apply Hm in Hx; congruence).
    rewrite elem_of_cons. split; [tauto|]. intros [?|[[->|?] <-]]; auto.
  - rewrite elem_of_cons. destruct (decide (id = td_trigger_id t)) as [->|Hid].
    + rewrite lookup_insert_eq, Hx. split; [intros [[= ->]|[? ?]]; auto|].
      intros [?|[[->|?] Heq]]; [done|by left|by right].
    + rewrite lookup_insert_ne by done. split; [intros [?|[? ?]]; auto|].
      intros [?|[[->|?] Heq]]; [by left|by destruct Hid|by right].
  - intros i y. destruct (decide (i = td_trigger_id t)) as [->|Hi].
    + rewrite lookup_insert_eq. by intros [= <-].
    + rewrite lookup_insert_ne by done. apply Hm.
Qed.

Lemma elem_of_triggers_at s cid tr :
  trigger_wf s →
  tr ∈ triggers_at s cid ↔
  t_triggers s !! td_trigger_id tr = Some tr ∧ td_trigger_id tr ∈ ids_at (t_condition_triggers s) cid.
Proof.
  intros Hwf. unfold triggers_at. rewrite list_elem_of_omap. split.
  - intros (id & Hid & Htr). by destruct (tw_triggers _ Hwf _ _ Htr) as (-> & _).
  - intros [? ?]. eauto.
Qed.

Lemma affected_run (by_condition : gmap ConditionId (list ValidCondition)) c s :
  trigger_wf s →
  ∃ m, affected_triggers by_condition c s = (Ok m, c, s) ∧
    ∀ id tr, m !! id = Some tr ↔ t_triggers s !! id = Some tr ∧
      ∃ cid, is_Some (by_condition !! cid) ∧ id ∈ ids_at (t_condition_triggers s) cid.
Proof.
  intros Hwf. unfold affected_triggers.
  assert (∀ keys (m0 : gmap TriggerDefinitionId TriggerDefinitionDTO), (∀ i t, m0 !! i = Some t → t_triggers s !! i = Some t) →
    ∃ m : gmap TriggerDefinitionId TriggerDefinitionDTO, for_fold (λ trigger_map cond_id,
      triggers ← ts_get_triggers_for_condition cond_id;
      mret (fold_left or_insert triggers trigger_map)) m0 keys c s = (Ok m, c, s) ∧
      ∀ id tr, m !! id = Some tr ↔ m0 !! id = Some tr ∨ t_triggers s !! id = Some tr ∧
        ∃ cid, cid ∈ keys ∧ id ∈ ids_at (t_condition_triggers s) cid) as Hgen.
  { induction keys as [|cid keys IH]; intros m0 Hm0.
    - exists m0. split; [done|]. set_solver.
    - set (m1 := fold_left or_insert (triggers_at s cid) m0).
      assert (∀ id tr, m1 !! id = Some tr ↔ m0 !! id = Some tr ∨
        t_triggers s !! id = Some tr ∧ id ∈ ids_at (t_condition_triggers s) cid) as Hm1.
      { intros id tr. unfold m1. rewrite (merge_triggers s); [|by intros t [? _]%elem_of_triggers_at|done].
        rewrite elem_of_triggers_at by done. split; [intros [?|[[? ?] <-]]; auto|].
        intros [?|[Htr ?]]; [by left|]. right.
        by destruct (tw_triggers _ Hwf _ _ Htr) as (-> & _). }
      destruct (IH m1) as (m & Hrun & Hm).
      { intros i t [?|[? _]]%Hm1; [by apply Hm0|done]. }
      exists m. split; [exact Hrun|]. intros id tr. rewrite Hm, Hm1. set_solver. }
  destruct (Hgen (map_iter by_condition).*1 ∅) as (m & Hrun & Hm).
  { intros i t. by rewrite lookup_empty. }
  exists m. split; [exact Hrun|]. intros id tr. rewrite Hm, lookup_empty.
  assert (∀ cid, cid ∈ (map_iter by_condition).*1 ↔ is_Some (by_condition !! cid)) as Hk.
  { intros cid. rewrite list_elem_of_fmap. split.
    - intros ([k l] & -> & Hin%elem_of_map_iter). eauto.
    - intros [l Hl]. exists (cid, l). split; [done|]. by apply elem_of_map_iter. }
  setoid_rewrite Hk. naive_solver.
Qed.

(** Triggers that fire are found: they are indexed under their conditions. *)
Lemma affected_ready s c m :
  trigger_wf s → affected_triggers (groups_of s) c s = (Ok m, c, s) →
  ∀ id tr, t_triggers s !! id = Some tr → ready s tr → m !! id = Some tr.
Proof.
  intros Hwf Hrun id tr Htr Hready. destruct (affected_run (groups_of s) c s Hwf) as (m' & Hrun' & Hm).
  rewrite Hrun in Hrun'. injection Hrun' as <-. apply Hm. split; [done|].
  destruct (tw_triggers _ Hwf _ _ Htr) as (_ & Hne & Hix).
  assert (∃ vc, pending s vc ∧ vc_condition_id vc ∈ td_condition_ids tr) as (vc & Hp & Hc).
  { unfold ready in Hready. destruct (td_logic tr); [|done].
    destruct (td_condition_ids tr) as [|cid l]; [done|].
    destruct (Hready cid ltac:(by left)) as (vc & ? & <-). exists vc. split; [done|by left]. }
  exists (vc_condition_id vc). split; [|by apply Hix]. apply group_present; eauto.
Qed.

Lemma plan_firings_run trigger fs acc c s :
  ∃ l c', for_fold (E := RustvelloError) (λ candidates f, now ← utc_now; mret (candidates ++ [planned_run now f.1 trigger f.2]))
      acc fs c s = (Ok (acc ++ l), c', s) ∧
    Forall2 (λ (p : TriggerRunRecord * TriggerExecution) f, ∃ now, p = planned_run now f.1 trigger f.2) l fs.
Proof.
  revert acc c. induction fs as [|f fs IH]; intros acc c.
  - exists [], c. rewrite app_nil_r. done.
  - destruct (IH (acc ++ [planned_run (clock_next c).1 f.1 trigger f.2]) (clock_next c).2) as (l & c' & Hrun & Hl).
    exists (planned_run (clock_next c).1 f.1 trigger f.2 :: l), c'. rewrite <-app_assoc in Hrun.
    split; [exact Hrun|]. constructor; [eauto|done].
Qed.

(** The candidates are the firings of the triggers, planned. *)
Definition planned_for (by_condition : gmap ConditionId (list ValidCondition))
    (triggers : list TriggerDefinitionDTO) (p : TriggerRunRecord * TriggerExecution) : Prop :=
  ∃ tr f now, tr ∈ triggers ∧ f ∈ (trigger_firings by_condition tr).1 ∧ p = planned_run now f.1 tr f.2.

Lemma plan_runs_run by_condition triggers (c : Clock) s :
  ∃ l X c', plan_runs by_condition triggers c s = (Ok (l, X), c', s) ∧
    (∀ p, p ∈ l → planned_for by_condition triggers p) ∧
    (∀ tr f, tr ∈ triggers → f ∈ (trigger_firings by_condition tr).1 →
       ∃ now, planned_run now f.1 tr f.2 ∈ l) ∧
    (∀ id, id ∈ X ↔ ∃ tr, tr ∈ triggers ∧ id ∈ (trigger_firings by_condition tr).2).
Proof.
  unfold plan_runs.
  assert (∀ (l0 : list (TriggerRunRecord * TriggerExecution)) (X0 : gset string) c, ∃ l X c',
    for_fold (E := RustvelloError) (λ acc trigger,
      let firings := trigger_firings by_condition trigger in
      candidates ← for_fold (λ candidates f,
        now ← utc_now;
        mret (candidates ++ [planned_run now f.1 trigger f.2])) acc.1 firings.1;
      mret (candidates, acc.2 ∪ list_to_set firings.2)) (l0, X0) triggers c s =
      (Ok (l0 ++ l, X0 ∪ X), c', s) ∧
    (∀ p, p ∈ l → planned_for by_condition triggers p) ∧
    (∀ tr f, tr ∈ triggers → f ∈ (trigger_firings by_condition tr).1 →
       ∃ now, planned_run now f.1 tr f.2 ∈ l) ∧
    (∀ id, id ∈ X ↔ ∃ tr, tr ∈ triggers ∧ id ∈ (trigger_firings by_condition tr).2)) as Hgen.
  { clear c. induction triggers as [|t ts IH]; intros l0 X0 c.
    - exists [], ∅, c. rewrite app_nil_r, (right_id_L ∅ (∪)). set_solver.
    - destruct (plan_firings_run t (trigger_firings by_condition t).1 l0 c s) as (l1 & c1 & Hrun1 & Hl1).
      destruct (IH (l0 ++ l1) (X0 ∪ list_to_set (trigger_firings by_condition t).2) c1)
        as (l2 & X2 & c2 & Hrun2 & Hs & Hc & Hx).
      exists (l1 ++ l2), (list_to_set (trigger_firings by_condition t).2 ∪ X2), c2.
      rewrite <-app_assoc, <-(assoc_L (∪)) in Hrun2. split; [|split_and!].
      + cbn [for_fold]. unfold mbind at 1, M_bind at 1. simpl.
        unfold mbind at 1, M_bind at 1. rewrite Hrun1. exact Hrun2.
      + intros p [Hp|Hp]%elem_of_app.
        * apply list_elem_of_lookup in Hp as [i Hi].
          destruct (Forall2_lookup_l _ _ _ _ _ Hl1 Hi) as (f & Hf & now & ->).
          exists t, f, now. split_and!; [by left|by eapply list_elem_of_lookup_2|done].
        * destruct (Hs p Hp) as (tr & f & now & ? & ? & ->). exists tr, f, now. split_and!; [by right|done..].
      + intros tr f [->|Htr]%elem_of_cons Hf.
        * apply list_elem_of_lookup in Hf as [i Hi].
          destruct (Forall2_lookup_r _ _ _ _ _ Hl1 Hi) as (p & Hp & now & ->).
          exists now. apply elem_of_app. left. by eapply list_elem_of_lookup_2.
        * destruct (Hc tr f Htr Hf) as [now ?]. exists now. apply elem_of_app. by right.
      + intros id. rewrite elem_of_union, elem_of_list_to_set, Hx. set_solver. }
  destruct (Hgen [] ∅ c) as (l & X & c' & Hrun & H1 & H2 & H3).
  rewrite (left_id_L ∅ (∪)) in Hrun. by exists l, X, c'.
Qed.

Lemma clear_ids_lookup {V} ids (m : gmap string V) k v :
  clear_ids ids m !! k = Some v ↔ m !! k = Some v ∧ k ∉ ids.
Proof.
  unfold clear_ids. revert m. induction ids as [|id ids IH]; intros m; simpl; [set_solver|].
  rewrite IH, lookup_delete_Some, elem_of_cons. split.
  - intros [[? ?] ?]. split; [done|]. by intros [->|?].
  - intros [? Hn]. split; [split; [|done]|]; naive_solver.
Qed.

(** What an evaluation leaves. *)
Record evaluated s (executions : list TriggerExecution) s' : Prop := {
  ev_fired e : e ∈ executions → ∃ tr picks now,
    t_triggers s !! td_trigger_id tr = Some tr ∧ fires s tr (ex_run_id e) picks ∧
    claims s !! ex_run_id e = None ∧
    e = (planned_run now (ex_run_id e) tr picks).2 ∧
    runs s' !! ex_run_id e = Some (planned_run now (ex_run_id e) tr picks).1;
  ev_once : NoDup (ex_run_id <$> executions);
  ev_complete id tr : t_triggers s !! id = Some tr → ready s tr →
    ∃ rid picks, fires s tr rid picks ∧ is_Some (claims s' !! rid) ∧ is_Some (runs s' !! rid);
  ev_complete_or id tr vc : t_triggers s !! id = Some tr → td_logic tr = LogicOr → pending s vc →
    vc_condition_id vc ∈ td_condition_ids tr →
    is_Some (claims s' !! run_id_of tr (vc_valid_condition_id vc)) ∧
    is_Some (runs s' !! run_id_of tr (vc_valid_condition_id vc));
  ev_claims k : is_Some (claims s' !! k) → is_Some (claims s !! k) ∨
    ∃ id tr picks, t_triggers s !! id = Some tr ∧ fires s tr k picks;
  ev_kept k : is_Some (claims s !! k) → is_Some (claims s' !! k);
  ev_runs k r : runs s !! k = Some r → is_Some (claims s !! k) → runs s' !! k = Some r;
  ev_consumed vc : pending s' vc ↔ pending s vc ∧
    ¬ ∃ id tr, t_triggers s !! id = Some tr ∧ ready s tr ∧ vc_condition_id vc ∈ td_condition_ids tr;
  ev_frame : ∃ valid, s' = set_valid (λ _, valid) (set_runs (claims s') (runs s') s)
}.

(** Nothing is pending: nothing happens. *)
Lemma evaluated_idle s :
  trigger_wf s → (∀ vc, ¬ pending s vc) → evaluated s [] s.
Proof.
  intros Hwf Hno. assert (∀ id tr, t_triggers s !! id = Some tr → ¬ ready s tr) as Hready.
  { intros id tr Htr. destruct (tw_triggers _ Hwf _ _ Htr) as (_ & Hne & _). unfold ready.
    destruct (td_logic tr); [|by intros (vc & Hp & _); apply (Hno vc)].
    intros Hall. destruct (td_condition_ids tr) as [|cid l]; [done|].
    destruct (Hall cid ltac:(by left)) as (vc & Hp & _). by apply (Hno vc). }
  split; try done.
  - by intros e ?%elem_of_nil.
  - constructor.
  - intros id tr Htr Hr. by destruct (Hready id tr Htr).
  - intros id tr vc _ _ Hp. by destruct (Hno vc).
  - intros k Hk. by left.
  - intros vc. split; [|tauto]. intros Hp. by destruct (Hno vc).
  - exists (t_valid_conditions s). by destruct s.
Qed.

(** Valid conditions are pending, but no trigger fires. *)
Lemma evaluated_no_firing s :
  (∀ id tr, t_triggers s !! id = Some tr → ¬ ready s tr) → trigger_wf s → evaluated s [] s.
Proof.
  intros Hready Hwf. split; try done.
  - by intros e ?%elem_of_nil.
  - constructor.
  - intros id tr Htr Hr. by destruct (Hready id tr Htr).
  - intros id tr vc Htr Hl Hp Hc. destruct (Hready id tr Htr). unfold ready. rewrite Hl. eauto.
  - intros k Hk. by left.
  - intros vc. split; [|tauto]. intros Hp. split; [done|]. intros (id & tr & Htr & Hr & _).
    by destruct (Hready id tr Htr).
  - exists (t_valid_conditions s). by destruct s.
Qed.

Lemma flagged_zip_executions (l : list (TriggerRunRecord * TriggerExecution)) bs :
  omap (λ p : (TriggerRunRecord * TriggerExecution) * bool, if p.2 then Some p.1.2 else None) (zip l bs) =
  (flagged l bs).*2.
Proof.
  revert bs. induction l as [|p l IH]; intros [|[] bs]; try done; unfold flagged in *; simpl; by rewrite IH.
Qed.

(** A claimed batch of planned firings. *)
Lemma evaluated_batch s c m l X bs s1 :
  trigger_wf s → affected_triggers (groups_of s) c s = (Ok m, c, s) →
  (∀ p, p ∈ l → planned_for (groups_of s) (map_iter m).*2 p) →
  (∀ tr f, tr ∈ (map_iter m).*2 → f ∈ (trigger_firings (groups_of s) tr).1 →
     ∃ now, planned_run now f.1 tr f.2 ∈ l) →
  (∀ id, id ∈ X ↔ ∃ tr, tr ∈ (map_iter m).*2 ∧ id ∈ (trigger_firings (groups_of s) tr).2) →
  batch_claimed l.*1 bs s s1 →
  evaluated s (flagged l bs).*2 (set_valid (clear_ids (str_sort (elements (X : gset string)))) s1).
Proof.
  intros Hwf Haff Hsound Hcomplete HX Hb.
  assert (∀ tr, tr ∈ (map_iter m).*2 → t_triggers s !! td_trigger_id tr = Some tr) as Hstored.
  { intros tr ([id x] & -> & Hin%elem_of_map_iter)%list_elem_of_fmap. simpl.
    destruct (affected_run (groups_of s) c s Hwf) as (m' & Hrun & Hm). rewrite Haff in Hrun.
    injection Hrun as <-. apply Hm in Hin as [Hx _]. by destruct (tw_triggers _ Hwf _ _ Hx) as [-> _]. }
  assert (∀ id tr, t_triggers s !! id = Some tr → ready s tr → tr ∈ (map_iter m).*2) as Hmember.
  { intros id tr Htr Hr. apply list_elem_of_fmap. exists (id, tr). split; [done|].
    apply elem_of_map_iter. by apply (affected_ready s c m Hwf Haff). }
  assert (∀ tr f, tr ∈ (map_iter m).*2 → f ∈ (trigger_firings (groups_of s) tr).1 →
    is_Some (claims s1 !! f.1) ∧ is_Some (runs s1 !! f.1)) as Hdone.
  { intros tr f Htr Hf. destruct (Hcomplete tr f Htr Hf) as [now Hin].
    assert (f.1 ∈ tr_trigger_run_id <$> l.*1) as Hk.
    { apply list_elem_of_fmap. exists (planned_run now f.1 tr f.2).1. split; [done|].
      apply list_elem_of_fmap. eauto. }
    split; [apply (bc_claimed _ _ _ _ Hb); by right|by apply (bc_stored _ _ _ _ Hb)]. }
  assert (flagged l.*1 bs = (flagged l bs).*1) as Hflag by apply flagged_fmap.
  assert (∀ p, p ∈ flagged l bs → planned_for (groups_of s) (map_iter m).*2 p) as Hplan.
  { intros p Hp. by apply Hsound, (flagged_subseteq _ bs). }
  split; simpl.
  - intros e (p & -> & Hp)%list_elem_of_fmap. destruct (Hplan p Hp) as (tr & f & now & Htr & Hf & Heq).
    assert (p.1 ∈ flagged l.*1 bs) as Hp1 by (rewrite Hflag; apply list_elem_of_fmap; eauto).
    exists tr, f.2, now. rewrite Heq in *. simpl in *. split_and!; [by apply Hstored| | | |].
    + by apply (trigger_firings_fire s tr Hwf).
    + apply (bc_fresh _ _ _ _ Hb). apply list_elem_of_fmap. eexists. by split; [|exact Hp1].
    + done.
    + exact (bc_record _ _ _ _ Hb _ Hp1).
  - pose proof (bc_first _ _ _ _ Hb) as Hnd. rewrite Hflag, <-list_fmap_compose in Hnd.
    rewrite <-list_fmap_compose. erewrite list_fmap_ext; [exact Hnd|].
    intros i p Hi. apply list_elem_of_lookup_2 in Hi.
    destruct (Hplan p Hi) as (tr & f & now & _ & _ & ->). done.
  - intros id tr Htr Hr. destruct (proj1 (proj2 (trigger_firings_fire s tr Hwf)) Hr) as [f Hf].
    exists f.1, f.2. split; [by apply (trigger_firings_fire s tr Hwf)|]. eapply Hdone; [|done].
    by eapply Hmember.
  - intros id tr vc Htr Hl Hp Hc.
    apply (Hdone tr (run_id_of tr (vc_valid_condition_id vc), [vc])).
    + eapply Hmember; [done|]. unfold ready. rewrite Hl. eauto.
    + by apply (trigger_firings_fire s tr Hwf).
  - intros k Hk%(bc_claimed _ _ _ _ Hb). destruct Hk as [?|Hk]; [by left|]. right.
    apply list_elem_of_fmap in Hk as (r & -> & (p & -> & Hp)%list_elem_of_fmap).
    destruct (Hsound p Hp) as (tr & f & now & Htr & Hf & ->).
    exists (td_trigger_id tr), tr, f.2. split; [by apply Hstored|].
    by apply (trigger_firings_fire s tr Hwf).
  - intros k Hk. apply (bc_claimed _ _ _ _ Hb). by left.
  - intros k r Hr Hk. apply (bc_kept _ _ _ _ Hb); [done|by left].
  - intros vc. unfold pending at 1. simpl. rewrite clear_ids_lookup. unfold str_sort.
    rewrite elem_of_sort_by, elem_of_elements, HX.
    assert (t_valid_conditions s1 = t_valid_conditions s) as ->
      by (by rewrite (bc_frame _ _ _ _ Hb)).
    assert (pending s vc → (∃ tr, tr ∈ (map_iter m).*2 ∧
        vc_valid_condition_id vc ∈ (trigger_firings (groups_of s) tr).2) ↔
      ∃ id tr, t_triggers s !! id = Some tr ∧ ready s tr ∧ vc_condition_id vc ∈ td_condition_ids tr) as Hiff.
    { intros Hp. split.
      - intros (tr & Htr & (Hr & vc' & Hp' & Hc' & Heq)%(trigger_firings_fire s tr Hwf)).
        exists (td_trigger_id tr), tr. split_and!; [by apply Hstored|done|].
        unfold pending in Hp, Hp'. rewrite Heq, Hp in Hp'. by injection Hp' as ->.
      - intros (id & tr & Htr & Hr & Hc). exists tr. split; [by eapply Hmember|].
        apply (trigger_firings_fire s tr Hwf). eauto. }
    split; intros [Hp Hn]; (split; [done|]); [by rewrite <-Hiff|by rewrite Hiff].
  - exists (clear_ids (str_sort (elements X)) (t_valid_conditions s1)).
    assert (t_valid_conditions s1 = t_valid_conditions s) as -> by (by rewrite (bc_frame _ _ _ _ Hb)).
    transitivity (set_valid (clear_ids (str_sort (elements X))) (set_runs (claims s1) (runs s1) s)); [|done].
    by rewrite <-(bc_frame _ _ _ _ Hb).
Qed.

Lemma evaluate_run c s :
  trigger_wf s →
  ∃ executions c' s', evaluate_trigger_runs c s = (Ok executions, c', s') ∧ evaluated s executions s'.
Proof.
  intros Hwf. unfold evaluate_trigger_runs.
  unfold mbind at 1, M_bind at 1. simpl.
  case_bool_decide as Hnone.
  { exists [], c, s. split; [done|]. apply evaluated_idle; [done|]. intros vc Hp.
    apply (elem_of_pending _ _ Hwf) in Hp. rewrite Hnone in Hp. by apply elem_of_nil in Hp. }
  fold (groups_of s). destruct (affected_run (groups_of s) c s Hwf) as (m & Haff & _).
  destruct (plan_runs_run (groups_of s) (map_iter m).*2 c s) as (l & X & c1 & Hplan & H1 & H2 & H3).
  unfold mbind at 1, M_bind at 1. rewrite Haff. unfold mbind at 1, M_bind at 1. rewrite Hplan.
  case_bool_decide as Hempty.
  - exists [], c1, s. split; [done|]. apply evaluated_no_firing; [|done]. intros id tr Htr Hr.
    destruct (proj1 (proj2 (trigger_firings_fire s tr Hwf)) Hr) as [f Hf].
    destruct (H2 tr f) as [now Hin]; [|done|].
    { apply list_elem_of_fmap. exists (id, tr). split; [done|]. apply elem_of_map_iter.
      by apply (affected_ready s c m Hwf Haff). }
    apply fmap_nil_inv in Hempty. rewrite Hempty in Hin. by apply elem_of_nil in Hin.
  - destruct (mem_claims_run l.*1 (str_sort (elements X)) c1 s) as (bs & c2 & s1 & Hrun & Hb).
    unfold mbind, M_bind. rewrite Hrun. exists (flagged l bs).*2, c2, (set_valid (clear_ids (str_sort (elements X))) s1).
    rewrite flagged_zip_executions. split; [done|]. by eapply evaluated_batch.
Qed.

(** C23: An evaluation of the triggers claims exactly their firings: each run it
    returns belongs to a registered trigger whose conditions the run's picks
    satisfy, was not claimed before, is recorded as pending under its derived
    invocation id, and is returned once; a trigger that is ready has a claimed and
    recorded run, one whose logic is "any" a run for every pending condition of its
    own; claims and claimed records are kept; and the valid conditions that remain
    are those of no trigger that fired. *)
Theorem evaluation_behaviour c s :
  trigger_wf s →
  ∃ executions, result_of evaluate_trigger_runs c s = Ok executions ∧
    evaluated s executions (state_after evaluate_trigger_runs c s).
Proof.
  intros Hwf. destruct (evaluate_run c s Hwf) as (l & c' & s' & Hrun & Hev).
  exists l. unfold result_of, state_after. by rewrite Hrun.
Qed.

(** ** The invariant is kept *)

Lemma wf_set_valid f s :
  (∀ id vc, f (t_valid_conditions s) !! id = Some vc → vc_valid_condition_id vc = id) →
  trigger_wf s → trigger_wf (set_valid f s).
Proof. intros Hf [Hc Ht He Hcr Htr Hv Hr]. by split. Qed.

Lemma wf_set_runs cl rs s :
  (∀ id r, rs !! id = Some r → tr_trigger_run_id r = id) → trigger_wf s → trigger_wf (set_runs cl rs s).
Proof. intros Hf [Hc Ht He Hcr Htr Hv Hr]. by split. Qed.

Lemma keyed_insert {V} (key : V → string) (m : gmap string V) k v :
  key v = k → (∀ i x, m !! i = Some x → key x = i) → ∀ i x, <[k := v]> m !! i = Some x → key x = i.
Proof.
  intros Hk Hm i x. destruct (decide (i = k)) as [->|Hi].
  - rewrite lookup_insert_eq. by intros [= <-].
  - rewrite lookup_insert_ne by done. apply Hm.
Qed.

Lemma wf_store_modify f :
  (∀ s, trigger_wf s → trigger_wf (f s)) → respects (E := RustvelloError) (keeps trigger_wf) (modify f).
Proof. intros Hf. apply respects_modify. exact Hf. Qed.

Lemma wf_record_valid vc : respects (keeps trigger_wf) (mem_record_valid_condition vc).
Proof.
  apply wf_store_modify. intros s Hwf. apply wf_set_valid; [|done].
  apply keyed_insert; [done|apply (tw_valid _ Hwf)].
Qed.

Lemma wf_clear_valid ids : respects (keeps trigger_wf) (mem_clear_valid_conditions ids).
Proof.
  apply wf_store_modify. intros s Hwf. apply wf_set_valid; [|done].
  intros id vc [Hvc _]%clear_ids_lookup. by apply (tw_valid _ Hwf).
Qed.

Lemma wf_store_run run : respects (keeps trigger_wf) (mem_store_trigger_run run).
Proof.
  apply wf_store_modify. intros s Hwf. apply wf_set_runs; [|done].
  apply keyed_insert; [done|apply (tw_runs _ Hwf)].
Qed.

Lemma wf_claim_run id : respects (keeps trigger_wf) (mem_claim_trigger_run id).
Proof.
  unfold mem_claim_trigger_run. solve_respects. apply wf_store_modify. intros s Hwf.
  apply wf_set_runs; [apply (tw_runs _ Hwf)|done].
Qed.

Lemma wf_claims records consumed :
  respects (keeps trigger_wf) (mem_claim_trigger_runs_with_records records consumed).
Proof.
  unfold mem_claim_trigger_runs_with_records, claim_record.
  solve_respects; apply wf_store_modify; intros s Hwf.
  - apply wf_set_runs; [apply (tw_runs _ Hwf)|done].
  - apply wf_set_runs; [|done]. apply keyed_insert; [done|apply (tw_runs _ Hwf)].
  - apply wf_set_valid; [|done]. intros id vc [Hvc _]%clear_ids_lookup. by apply (tw_valid _ Hwf).
Qed.

Lemma wf_store_cron id time expected : respects (keeps trigger_wf) (mem_store_cron_execution id time expected).
Proof.
  unfold mem_store_cron_execution. solve_respects. apply wf_store_modify.
  by intros s [Hc Ht He Hcr Htr Hv Hr].
Qed.

Lemma wf_store_event e : respects (keeps trigger_wf) (mem_store_event e).
Proof. apply wf_store_modify. by intros s [Hc Ht He Hcr Htr Hv Hr]. Qed.

#[local] Hint Resolve wf_record_valid wf_clear_valid wf_store_run wf_claim_run wf_claims wf_store_cron
  wf_store_event : respects.

(** Looks through the interface of the store. *)
Ltac store_respects :=
  solve_respects;
  repeat (progress (cbv [ts_get_conditions_for_task ts_get_event_conditions ts_get_triggers_for_condition
    ts_record_valid_condition ts_get_valid_conditions ts_clear_valid_conditions ts_claim_trigger_run
    ts_store_event ts_get_event ts_store_trigger_run ts_get_trigger_run
    ts_claim_trigger_runs_with_records ts_ops mem_trigger_store mem_trigger_store_ops
    mem_get_conditions_for_task mem_get_event_conditions mem_get_triggers_for_condition
    mem_get_valid_conditions mem_get_event mem_get_trigger_run]); solve_respects).

(** The calls that change the store, directly or through the manager. *)
Inductive trigger_op :=
| OpCondition (cond : TriggerCondition)
| OpTrigger (trigger : TriggerDefinitionDTO)
| OpRemoveTriggers (task_id : TaskId)
| OpStoreRun (run : TriggerRunRecord)
| OpReport (task_id : TaskId) (ctx : ConditionContext)
| OpEmit (am : Ambient) (event_id event_code : string) (payload : Value)
| OpEvaluate
| OpOrderedClaims (fp : Failpoints) (records : list TriggerRunRecord) (consumed : list string)
| OpComplete (run_id : TriggerRunId) (id : InvocationId)
| OpPurgeTriggers.

Definition run_trigger_op (op : trigger_op) : M RustvelloError TriggerState unit :=
  match op with
  | OpCondition cond => mem_register_condition cond;; mret tt
  | OpTrigger trigger => mem_register_trigger trigger
  | OpRemoveTriggers t => mem_remove_triggers_for_task t;; mret tt
  | OpStoreRun run => mem_store_trigger_run run
  | OpReport t ctx => evaluate_task_conditions t ctx;; mret tt
  | OpEmit am id code payload => emit_event am id code payload;; mret tt
  | OpEvaluate => evaluate_trigger_runs;; mret tt
  | OpOrderedClaims fp records consumed =>
      default_claim_trigger_runs_with_records fp records consumed;; mret tt
  | OpComplete run_id id => complete_trigger_run run_id id
  | OpPurgeTriggers => mem_purge_triggers
  end.

(** The builder refuses a trigger without conditions. *)
Definition op_allowed (op : trigger_op) : Prop :=
  match op with OpTrigger trigger => td_condition_ids trigger ≠ [] | _ => True end.

(** The trigger store stays well-formed under every operation, also one that
    fails half-way: conditions are stored under their own id, the task, event and
    cron indexes name stored conditions of their kind, every registered trigger is
    found under each of its conditions, and valid conditions and runs are stored
    under their ids. *)
Theorem trigger_store_well_formed op :
  op_allowed op → respects (keeps trigger_wf) (run_trigger_op op).
Proof.
  destruct op as [cond|tr|t|run|t ctx|am id code payload| |fp rs ids|rid id|]; simpl; intros Hok.
  - unfold mem_register_condition. solve_respects. apply wf_store_modify. intros s. apply wf_condition_registered.
  - apply wf_store_modify. intros s. by apply wf_trigger_registered.
  - unfold mem_remove_triggers_for_task. solve_respects. apply wf_store_modify. intros s.
    generalize ((bfilter (λ p, bool_decide (task_id_display (td_task_id p.2) = task_id_display t))
      (map_iter (t_triggers a))).*1).
    intros l. revert s. induction l as [|id l IH]; intros s Hs; simpl; [done|].
    apply IH. by apply wf_trigger_removed.
  - apply wf_store_run.
  - unfold evaluate_task_conditions. store_respects.
  - unfold emit_event, store_event_for_monitoring. store_respects.
  - unfold evaluate_trigger_runs, affected_triggers, plan_runs. store_respects.
  - unfold default_claim_trigger_runs_with_records, default_claim_record, boundary. store_respects.
  - unfold complete_trigger_run. store_respects.
  - apply wf_store_modify. intros s _. apply trigger_wf_new.
Qed.

(** ** Cron schedules *)

Section cron.
Context `{Croner}.

(** A condition is due: a slot at most two minutes old, newer than the last
    firing, which is far enough in the past. *)
Definition cron_due (now : DateTime) (id : ConditionId) (cron : CronCondition) s : Prop :=
  ∃ schedule slot, cron_from_str (crn_expression cron) = Some schedule ∧
    find_previous_occurrence schedule now = Some slot ∧
    elapsed_seconds now slot ≤ CRON_MISSED_SLOT_GRACE_SECONDS ∧
    ∀ last, t_cron_executions s !! id = Some last →
      last < slot ∧ i64_saturating_of_u64 (crn_min_interval_seconds cron) ≤ elapsed_seconds now last.

Definition cron_fired (now : DateTime) (id : ConditionId) s : ValidCondition :=
  valid_condition_new id (CtxCron (mkCronContext now (t_cron_executions s !! id))).

Definition cron_after (now : DateTime) (id : ConditionId) s : TriggerState :=
  set_valid <[vc_valid_condition_id (cron_fired now id s) := cron_fired now id s]>
    (set_cron_executions <[id := now]> s).

Lemma cron_evaluation_run now id cron c s :
  (cron_due now id cron s →
     evaluate_cron_condition now id cron c s = (Ok (Some (cron_fired now id s)), c, cron_after now id s)) ∧
  (¬ cron_due now id cron s → evaluate_cron_condition now id cron c s = (Ok None, c, s)).
Proof.
  unfold evaluate_cron_condition, cron_due, cron_slot_due.
  destruct (cron_from_str (crn_expression cron)) as [schedule|]; [|naive_solver].
  simpl. unfold mem_get_last_cron_execution, mem_store_cron_execution, mem_record_valid_condition.
  cbv [mbind M_bind get gets modify mret M_ret].
  set (last := t_cron_executions s !! id). set (interval := i64_saturating_of_u64 _).
  destruct (is_none_or last (λ last, interval <=? elapsed_seconds now last)) eqn:Hi; simpl.
  2: { split; [|done]. intros (? & slot & [= <-] & _ & _ & Hlast).
    destruct last as [l|]; [|done]. simpl in Hi. destruct (Hlast l eq_refl). lia. }
  destruct (find_previous_occurrence schedule now) as [slot|] eqn:Hslot; simpl.
  2: { split; [|done]. intros (? & slot & [= <-] & Hs & _). congruence. }
  destruct (CRON_MISSED_SLOT_GRACE_SECONDS <? elapsed_seconds now slot) eqn:Hg; simpl.
  { split; [|done]. intros (? & slot' & [= <-] & Hs & ? & _). simplify_eq. lia. }
  destruct (is_none_or last (λ last, last <? slot)) eqn:Hlt; simpl.
  2: { split; [|done]. intros (? & slot' & [= <-] & Hs & _ & Hlast). simplify_eq.
    destruct last as [l|]; [|done]. simpl in Hlt. destruct (Hlast l eq_refl). lia. }
  split.
  - intros _. unfold last. by rewrite bool_decide_true by done.
  - intros Hn. destruct Hn. exists schedule, slot. split_and!; [done|done|lia|].
    intros l Hl. rewrite Hl in Hi, Hlt. simpl in *. lia.
Qed.

(** C27: A cron condition fires exactly when its schedule has a slot at most two
    minutes old that is newer than the last firing, and the configured interval
    has passed since; then the firing is stored and its valid condition recorded,
    and otherwise (also with an expression that does not parse) nothing changes.
    A slot fires once: the next firing is for an occurrence after the instant of
    the first, and a runner that read the execution before it was stored does not
    get the claim. *)
Theorem cron_slot_fires_once now now' id cron c c' s s' :
  (result_of (evaluate_cron_condition now id cron) c s = Ok (Some (cron_fired now id s)) ∧
   state_after (evaluate_cron_condition now id cron) c s = cron_after now id s ∧ cron_due now id cron s ∨
   result_of (evaluate_cron_condition now id cron) c s = Ok None ∧
   state_after (evaluate_cron_condition now id cron) c s = s ∧ ¬ cron_due now id cron s) ∧
  (t_cron_executions s' !! id = Some now →
   (cron_due now' id cron s' →
    ∃ schedule slot, cron_from_str (crn_expression cron) = Some schedule ∧
      cron_occurs schedule slot ∧ now < slot ≤ now' ∧ now' - slot < 121 * 1000000000) ∧
   ∀ last, last ≠ Some now →
     result_of (mem_store_cron_execution id now' last) c' s' = Ok false ∧
     state_after (mem_store_cron_execution id now' last) c' s' = s').
Proof.
  destruct (cron_evaluation_run now id cron c s) as [Hfire Hidle].
  unfold result_of, state_after. split; [|intros Hs; split].
  - assert (Decision (cron_due now id cron s)) as Hdec.
    { unfold cron_due. destruct (cron_from_str (crn_expression cron)) as [schedule|]; [|right; naive_solver].
      destruct (find_previous_occurrence schedule now) as [slot|] eqn:Hp; [|right; naive_solver].
      destruct (decide (elapsed_seconds now slot ≤ CRON_MISSED_SLOT_GRACE_SECONDS)); [|right; naive_solver].
      destruct (t_cron_executions s !! id) as [last|]; [|left; naive_solver].
      destruct (decide (last < slot ∧ i64_saturating_of_u64 (crn_min_interval_seconds cron)
        ≤ elapsed_seconds now last)); [left; naive_solver|right; naive_solver]. }
    destruct Hdec as [Hd|Hd]; [left; by rewrite Hfire|right; by rewrite Hidle].
  - intros (schedule & slot & Hp & Hf & Hg & Hl). exists schedule, slot.
    destruct (find_previous_occurrence_spec _ _ _ Hf) as (Ho & Hle & _). destruct (Hl now Hs).
    split_and!; [done|done|lia|done|]. rewrite elapsed_seconds_quot in Hg.
    unfold CRON_MISSED_SLOT_GRACE_SECONDS in Hg.
    pose proof (Z.quot_rem' (now' - slot) 1000000000).
    pose proof (Z.rem_bound_pos (now' - slot) 1000000000). lia.
  - intros last Hne. unfold mem_store_cron_execution. cbv [mbind M_bind get mret M_ret].
    rewrite bool_decide_false by (rewrite Hs; congruence). done.
Qed.
End cron.

(** ** Composite conditions *)

Lemma elem_of_conditions_of ids s id cond :
  (id, cond) ∈ conditions_of ids s ↔ id ∈ ids ∧ t_conditions s !! id = Some cond.
Proof.
  unfold conditions_of. rewrite list_elem_of_omap. split.
  - intros (x & Hx & (y & Hy & [= -> ->])%fmap_Some). by split.
  - intros [Hin Hc]. exists id. split; [done|]. by rewrite Hc.
Qed.

(** What an event may leave: new valid conditions of event conditions only. *)
Definition events_only s0 s : Prop :=
  ∀ k vc, t_valid_conditions s !! k = Some vc → t_valid_conditions s0 !! k = Some vc ∨
    ∃ c, t_conditions s0 !! vc_condition_id vc = Some (CondEvent c).

Lemma events_only_record s0 id ctx c :
  t_conditions s0 !! id = Some (CondEvent c) →
  respects (keeps (events_only s0)) (mem_record_valid_condition (valid_condition_new id ctx)).
Proof.
  intros Hid. apply respects_modify. intros s Hs k vc. simpl.
  destruct (decide (k = vc_valid_condition_id (valid_condition_new id ctx))) as [->|Hk].
  - rewrite lookup_insert_eq. intros [= <-]. right. by exists c.
  - rewrite lookup_insert_ne by done. apply Hs.
Qed.

Lemma events_only_store s0 e : respects (keeps (events_only s0)) (mem_store_event e).
Proof. apply respects_modify. intros s Hs. exact Hs. Qed.

(** Composite conditions fire only on one status change, result or failure
    that satisfies them: two status conditions on different tasks under "and" are
    satisfied by no context; and an emitted event makes valid only conditions
    that are registered as event conditions, so an event inside a composite is
    never seen. *)
Theorem composites_miss_documented_cases ta tb sa sb fa fb ctx am event_id event_code payload c s :
  (ta ≠ tb → is_satisfied_by (CondComposite CompositeAnd
     [CondStatus (mkStatusCondition _ ta sa fa); CondStatus (mkStatusCondition _ tb sb fb)]) ctx = false) ∧
  (trigger_wf s → events_only s (state_after (emit_event am event_id event_code payload) c s)).
Proof.
  split.
  - intros Hne. apply not_true_is_false. rewrite condition_check_behaviour. simpl.
    destruct ctx; intros (H1 & H2 & _); try done. destruct H1 as [-> _], H2 as [-> _]. done.
  - intros Hwf. unfold emit_event, state_after, store_event_for_monitoring.
    unfold mbind at 1, M_bind at 1. simpl. unfold mbind at 1, M_bind at 1. simpl.
    unfold mbind at 1, M_bind at 1. simpl.
    match goal with |- events_only _ (?m ?c1 ?s1).2 =>
      assert (respects (keeps (events_only s)) m) as Hm; [|apply (Hm c1 s1); by left] end.
    apply respects_bind; [apply _| |intros record].
    + apply respects_for_fold_in; [apply _|]. intros record [id cond] [Hin Hid]%elem_of_conditions_of.
      destruct (tw_events _ Hwf _ _ Hin) as [ec Hec]. simpl. case_match; [|apply respects_ret, _].
      apply respects_bind; [apply _|by eapply events_only_record|]. intros _. apply respects_ret, _.
    + solve_respects; apply events_only_store.
Qed.
End facts.

(** ** Witnesses *)

(** A name-based id that shows its name. *)
Definition name_uuid : Uuid := {| uuid_v5 ns name := "uuid-" +:+ name |}.
Definition no_time : Rfc3339 := {| to_rfc3339 _ := "" |}.

(** The schedule of every minute. *)
Definition every_minute : Croner.
Proof.
  refine {| cron_schedule := unit; cron_from_str s := if decide (s = "* * * * *") then Some tt else None;
            cron_occurs _ t := t mod 60000000000 = 0;
            find_previous_occurrence _ now := Some (now / 60000000000 * 60000000000) |}.
  intros _ now slot [= <-]. pose proof (Z.div_mod now 60000000000 ltac:(done)).
  pose proof (Z.mod_pos_bound now 60000000000 ltac:(lia)). split_and!; [by apply Z.mod_mul|lia|].
  intros t Ht Hle. apply Z.mod_divide in Ht as [k ->]; [|done].
  assert (k ≤ now / 60000000000) by (apply Z.div_le_lower_bound; lia). nia.
Defined.

(** "done" is emitted twice; one trigger on it, for each event. *)
Definition demo_event : @TriggerCondition text_json := CondEvent (mkEventCondition _ "done" None).
Definition demo_event_id : ConditionId := @condition_id text_json pad_digest demo_event.
Definition demo_trigger : @TriggerDefinitionDTO text_json :=
  mkTriggerDefinition _ "t1" demo_task [demo_event_id] LogicOr None.
Definition demo_valid (n : string) : @ValidCondition text_json :=
  @mkValidCondition text_json n demo_event_id (CtxEvent (mkEventContext _ n "done" VNull)).

Definition demo_store : @TriggerState text_json :=
  state_after (mem_register_condition (H := pad_digest) demo_event;;
    mem_register_trigger demo_trigger;;
    mem_record_valid_condition (demo_valid "v1");;
    mem_record_valid_condition (demo_valid "v2")) demo_clock trigger_store_new.

Lemma demo_store_wf : @trigger_wf text_json pad_digest demo_store.
Proof.
  refine ((_ : respects (keeps trigger_wf) _) demo_clock trigger_store_new trigger_wf_new).
  apply respects_bind; [apply _| |intros _].
  { unfold mem_register_condition. solve_respects. apply wf_store_modify. intros s. apply wf_condition_registered. }
  apply respects_bind; [apply _| |intros _; apply respects_bind; [apply _| |intros _]]; [|apply wf_record_valid..].
  apply wf_store_modify. intros s. by apply wf_trigger_registered.
Qed.

Definition demo_evaluation : M RustvelloError (@TriggerState text_json) (list (@TriggerExecution text_json)) :=
  @evaluate_trigger_runs text_json no_time name_uuid identity_order _
    (@mem_trigger_store text_json identity_order pad_digest).

Lemma evaluation_behaviour_witness :
  let s' := state_after demo_evaluation demo_clock demo_store in
  is_Some (t_trigger_run_claims s' !! "run_t1_v1") ∧ is_Some (t_trigger_runs s' !! "run_t1_v2") ∧
  ¬ pending s' (demo_valid "v1").
Proof.
  intros s'.
  destruct (@evaluation_behaviour text_json identity_order no_time pad_digest name_uuid demo_clock demo_store
    demo_store_wf) as (executions & _ & Hev).
  split_and!.
  - apply (ev_complete_or _ _ _ Hev "t1" demo_trigger (demo_valid "v1")); try (vm_compute; reflexivity).
    by apply list_elem_of_singleton.
  - apply (ev_complete_or _ _ _ Hev "t1" demo_trigger (demo_valid "v2")); try (vm_compute; reflexivity).
    by apply list_elem_of_singleton.
  - intros [_ Hn]%(ev_consumed _ _ _ Hev). apply Hn. exists "t1", demo_trigger.
    split_and!; [vm_compute; reflexivity| |by apply list_elem_of_singleton].
    exists (demo_valid "v1"). split; [vm_compute; reflexivity|by apply list_elem_of_singleton].
Defined.

Lemma trigger_store_well_formed_witness :
  @trigger_wf text_json pad_digest (state_after (mem_register_trigger demo_trigger) demo_clock demo_store).
Proof.
  exact (@trigger_store_well_formed text_json identity_order no_time pad_digest name_uuid
    (OpTrigger demo_trigger) ltac:(discriminate) demo_clock demo_store demo_store_wf).
Defined.

(** The schedule of every minute, evaluated at 12:02:05: it fires for 12:02:00,
    and not again at 12:02:30. *)
Lemma cron_slot_fires_once_witness :
  let cron := mkCronCondition "* * * * *" 0 in
  let now := 125 * 1000000000 in
  let m := @evaluate_cron_condition text_json no_time pad_digest (TriggerState) (@mem_trigger_store text_json identity_order pad_digest)
             every_minute chrono_in_seconds now "c" cron in
  let s1 := state_after m demo_clock trigger_store_new in
  t_cron_executions s1 !! "c" = Some now ∧
  ¬ @cron_due text_json chrono_in_seconds every_minute (150 * 1000000000) "c" cron s1.
Proof.
  intros cron now m s1.
  destruct (@cron_slot_fires_once text_json identity_order chrono_in_seconds no_time pad_digest every_minute
    now (150 * 1000000000) "c" cron demo_clock demo_clock trigger_store_new s1) as [_ Hnext].
  assert (t_cron_executions s1 !! "c" = Some now) as Hs by (vm_compute; reflexivity).
  split; [exact Hs|]. intros Hd.
  destruct (proj1 (Hnext Hs) Hd) as (? & slot & _ & Hslot & Hb & _).
  change (slot mod 60000000000 = 0) in Hslot. unfold now in Hb. apply Z.mod_divide in Hslot as [k ->]; [|done].
  lia.
Defined.
