(* ===== verification/TriggerBuilder.v ===== *)
(** * The trigger builder

    Models [rustvello/src/trigger_builder.rs]: the fluent builder that collects
    conditions, a logic and arguments, and registers them as a trigger.

    The theorems: what a registration leaves in the store, on every branch; and
    the way from a built trigger to its first run: once what happens satisfies its
    conditions, the next evaluation claims and records a run of it. *)
From S2P Require Import Prelude Effects Json Identifiers Status Errors Call Invocation Trigger MemOrchestratorFacts MemTrigger Ports Routing TriggerManager TriggerFacts.

(** The text of a cron expression's parse error. *)
Class CronErrorText := { cron_error : string → string }.

(* @src rustvello/src/trigger_builder.rs 30-35 TriggerBuilder *)
Record TriggerBuilder `{JsonValue} := mkTriggerBuilder {
  tb_conditions : list TriggerCondition;
  tb_logic : TriggerLogic;
  tb_argument_template : option Value
}.

Section builder.
Context {J : JsonValue}.
Implicit Types (b : TriggerBuilder) (cond : TriggerCondition).

(* @src rustvello/src/trigger_builder.rs 38-44 TriggerBuilder::new *)
Definition builder_new : TriggerBuilder := mkTriggerBuilder _ [] LogicAnd None.

(** [self.conditions.push(..)]. *)
Definition push_condition cond b : TriggerBuilder :=
  mkTriggerBuilder _ (tb_conditions b ++ [cond]) (tb_logic b) (tb_argument_template b).

(* @src rustvello/src/trigger_builder.rs 58-71 TriggerBuilder::on_cron_with_interval *)
Definition on_cron_with_interval `{Croner} `{CronErrorText} (expression : string)
    (min_interval_seconds : Z) b : RustvelloResult TriggerBuilder :=
  match cron_from_str expression with
  | None => Err (EConfiguration ("invalid cron expression " +:+ str_debug expression +:+ ": " +:+
                                 cron_error expression))
  | Some _ => Ok (push_condition (CondCron (mkCronCondition expression min_interval_seconds)) b)
  end.

(* @src rustvello/src/trigger_builder.rs 50-52 TriggerBuilder::on_cron *)
Definition on_cron `{Croner} `{CronErrorText} (expression : string) b : RustvelloResult TriggerBuilder :=
  on_cron_with_interval expression 50 b.

(* @src rustvello/src/trigger_builder.rs 74-82 TriggerBuilder::on_status *)
Definition on_status (task_id : TaskId) (statuses : list InvocationStatus) b : TriggerBuilder :=
  push_condition (CondStatus (mkStatusCondition _ task_id statuses None)) b.

(* @src rustvello/src/trigger_builder.rs 85-92 TriggerBuilder::on_event *)
Definition on_event (event_code : string) b : TriggerBuilder :=
  push_condition (CondEvent (mkEventCondition _ event_code None)) b.

(* @src rustvello/src/trigger_builder.rs 95-103 TriggerBuilder::on_result *)
Definition on_result (task_id : TaskId) b : TriggerBuilder :=
  push_condition (CondResult (mkResultCondition _ task_id None None)) b.

(* @src rustvello/src/trigger_builder.rs 109-111 TriggerBuilder::on_any_result *)
Definition on_any_result (task_id : TaskId) b : TriggerBuilder := on_result task_id b.

(* @src rustvello/src/trigger_builder.rs 114-122 TriggerBuilder::on_exception *)
Definition on_exception (task_id : TaskId) (exception_types : list string) b : TriggerBuilder :=
  push_condition (CondException (mkExceptionCondition _ task_id exception_types None)) b.

(* @src rustvello/src/trigger_builder.rs 125-128 TriggerBuilder::with_logic *)
Definition with_logic (logic : TriggerLogic) b : TriggerBuilder :=
  mkTriggerBuilder _ (tb_conditions b) logic (tb_argument_template b).

(* @src rustvello/src/trigger_builder.rs 131-134 TriggerBuilder::with_static_args *)
Definition with_static_args (args : Value) b : TriggerBuilder :=
  mkTriggerBuilder _ (tb_conditions b) (tb_logic b) (Some args).

Definition no_conditions : RustvelloError := EConfiguration "trigger must have at least one condition".

(** The definition of a builder whose conditions have these ids. *)
Definition definition_of `{Sha256} (target_task_id : TaskId) (condition_ids : list ConditionId) b
    : TriggerDefinitionDTO :=
  mkTriggerDefinition _ (compute_trigger_id target_task_id condition_ids (tb_logic b)) target_task_id
    condition_ids (tb_logic b) (tb_argument_template b).

(* @src rustvello/src/trigger_builder.rs 140-162 TriggerBuilder::build *)
Definition build `{Sha256} (target_task_id : TaskId) b : RustvelloResult TriggerDefinitionDTO :=
  if bool_decide (tb_conditions b = []) then Err no_conditions
  else Ok (definition_of target_task_id (condition_id <$> tb_conditions b) b).

(* @src rustvello/src/trigger_builder.rs 165-198 TriggerBuilder::build_and_register *)
Definition build_and_register `{Sha256} {S : Type} {ST : TriggerStore S} (target_task_id : TaskId) b
    : M RustvelloError S TriggerDefinitionDTO :=
  if bool_decide (tb_conditions b = []) then throw no_conditions
  else
    condition_ids ← for_fold (λ condition_ids cond,
      cid ← ts_register_condition cond;
      mret (condition_ids ++ [cid])) [] (tb_conditions b);
    let definition := definition_of target_task_id condition_ids b in
    ts_register_trigger definition;;
    mret definition.
End builder.

(** A chain of calls on a new builder. *)
Inductive builder_call `{JsonValue} :=
| CallCron (expression : string) (min_interval_seconds : option Z)
| CallStatus (task_id : TaskId) (statuses : list InvocationStatus)
| CallEvent (event_code : string)
| CallResult (task_id : TaskId)
| CallException (task_id : TaskId) (exception_types : list string)
| CallLogic (logic : TriggerLogic)
| CallArgs (args : Value).

Definition run_builder_call `{JsonValue} `{Croner} `{CronErrorText} (b : TriggerBuilder)
    (call : builder_call) : RustvelloResult TriggerBuilder :=
  match call with
  | CallCron e None => on_cron e b
  | CallCron e (Some n) => on_cron_with_interval e n b
  | CallStatus t l => Ok (on_status t l b)
  | CallEvent code => Ok (on_event code b)
  | CallResult t => Ok (on_result t b)
  | CallException t l => Ok (on_exception t l b)
  | CallLogic l => Ok (with_logic l b)
  | CallArgs v => Ok (with_static_args v b)
  end.

Fixpoint run_builder `{JsonValue} `{Croner} `{CronErrorText} (calls : list builder_call)
    (b : TriggerBuilder) : RustvelloResult TriggerBuilder :=
  match calls with
  | [] => Ok b
  | call :: calls => b ← run_builder_call b call; run_builder calls b
  end.

Section facts.
Context {J : JsonValue} {HO : HashOrder} {CH : Chrono} {R : Rfc3339} {SH : Sha256} {U : Uuid}
  {CR : Croner} {CE : CronErrorText}.
Implicit Types (s : TriggerState) (cond : TriggerCondition) (b : TriggerBuilder).

(** ** What a builder holds *)

(** A builder makes no composite conditions. *)
Definition plain cond : Prop := match cond with CondComposite _ _ => False | _ => True end.

Lemma run_builder_plain calls b b' :
  run_builder calls b = Ok b' → Forall plain (tb_conditions b) → Forall plain (tb_conditions b').
Proof.
  revert b. induction calls as [|call calls IH]; intros b; simpl; [by intros [= ->]|].
  intros (b1 & Hb & Hrun)%bind_Ok Hp. apply (IH _ Hrun).
  destruct call as [e [n|]|? ?|?|?|? ?|?|?]; simpl in Hb; unfold on_cron, on_cron_with_interval in Hb;
    repeat case_match; simplify_eq/=; try done; apply Forall_app; by split; [|constructor].
Qed.

(** ** Registration *)

(** A condition is stored and found from where its contexts come. *)
Record registered s cond : Prop := {
  rg_stored : t_conditions s !! condition_id cond = Some cond;
  rg_tasks t : t ∈ source_task_ids cond →
    condition_id cond ∈ ids_at (t_source_task_conditions s) (task_id_display t);
  rg_event c : cond = CondEvent c → condition_id cond ∈ ids_at (t_event_conditions s) (evn_event_code c)
}.

Lemma registered_self cond s : registered (condition_registered cond s) cond.
Proof.
  split; simpl.
  - apply lookup_insert_eq.
  - intros t Ht. apply (elem_of_index_all task_id_display). left.
    split; [by apply list_elem_of_fmap_2|done].
  - intros c ->. apply elem_of_index_once. by left.
Qed.

Lemma registered_other cond cond' s :
  registered s cond → condition_id cond' ≠ condition_id cond ∨ cond' = cond →
  registered (condition_registered cond' s) cond.
Proof.
  intros [Hs Ht He] [Hne| ->]; [|apply registered_self]. split; simpl.
  - by rewrite lookup_insert_ne.
  - intros t Hin. apply (elem_of_index_all task_id_display). right. by apply Ht.
  - intros c Hc. specialize (He c Hc). destruct cond'; try done. apply elem_of_index_once. by right.
Qed.

Definition conditions_registered (conds : list TriggerCondition) s : TriggerState :=
  fold_left (λ s cond, condition_registered cond s) conds s.

Definition trigger_registered (tr : TriggerDefinitionDTO) s : TriggerState :=
  set_triggers (<[td_trigger_id tr := tr]> (t_triggers s))
    (fold_left (λ index cid, index_once cid (td_trigger_id tr) index) (td_condition_ids tr)
       (t_condition_triggers s)) s.

Lemma register_conditions_run conds acc c s :
  for_fold (λ condition_ids cond, cid ← mem_register_condition cond; mret (condition_ids ++ [cid])) acc conds c s
  = (Ok (acc ++ (condition_id <$> conds)), c, conditions_registered conds s).
Proof.
  revert acc s. induction conds as [|cond conds IH]; intros acc s; simpl; [by rewrite app_nil_r|].
  unfold mbind at 1, M_bind at 1. simpl. rewrite IH. by rewrite <-app_assoc.
Qed.

Lemma build_and_register_run target b c s :
  build_and_register target b c s =
  match build target b with
  | Ok tr => (Ok tr, c, trigger_registered tr (conditions_registered (tb_conditions b) s))
  | r => (r, c, s)
  end.
Proof.
  unfold build_and_register, build. case_bool_decide; [done|].
  unfold mbind at 1, M_bind at 1. simpl. by rewrite register_conditions_run.
Qed.

Lemma wf_conditions_registered conds s : trigger_wf s → trigger_wf (conditions_registered conds s).
Proof.
  revert s. induction conds as [|cond conds IH]; intros s Hwf; simpl; [done|].
  by apply IH, wf_condition_registered.
Qed.

Lemma conditions_registered_frame conds s :
  let s' := conditions_registered conds s in
  t_triggers s' = t_triggers s ∧ t_condition_triggers s' = t_condition_triggers s ∧
  t_valid_conditions s' = t_valid_conditions s ∧ t_cron_executions s' = t_cron_executions s ∧
  t_trigger_run_claims s' = t_trigger_run_claims s ∧ t_events s' = t_events s ∧
  t_trigger_runs s' = t_trigger_runs s.
Proof.
  revert s. induction conds as [|cond conds IH]; intros s; simpl; [done|].
  by destruct (IH (condition_registered cond s)) as (-> & -> & -> & -> & -> & -> & ->).
Qed.

(** The last condition of an id is the one that stays. *)
Lemma conditions_registered_last conds s cond :
  cond ∈ conds → ∃ cond', cond' ∈ conds ∧ condition_id cond' = condition_id cond ∧
    registered (conditions_registered conds s) cond'.
Proof.
  revert s. induction conds as [|x conds IH] using rev_ind; intros s; [by intros ?%elem_of_nil|].
  intros Hin. unfold conditions_registered. rewrite fold_left_app. simpl.
  destruct (decide (condition_id x = condition_id cond)) as [Heq|Hne].
  { exists x. split_and!; [apply elem_of_app; right; by left|done|apply registered_self]. }
  apply elem_of_app in Hin as [Hin|Hin%list_elem_of_singleton]; [|by subst].
  destruct (IH s Hin) as (cond' & Hc & Hid & Hr).
  exists cond'. split_and!; [apply elem_of_app; by left|done|].
  apply registered_other; [exact Hr|]. left. by rewrite Hid.
Qed.

Lemma conditions_registered_kept conds s id cond :
  t_conditions s !! id = Some cond → id ∉ condition_id <$> conds →
  t_conditions (conditions_registered conds s) !! id = Some cond.
Proof.
  revert s. induction conds as [|x conds IH]; intros s Hs Hn; simpl; [done|].
  rewrite fmap_cons, not_elem_of_cons in Hn. destruct Hn as [Hx Hn].
  apply IH; [|done]. simpl. by rewrite lookup_insert_ne.
Qed.

(** Building a trigger and registering it: a builder without conditions is
    refused before anything is written; otherwise the definition is the one
    [build] returns, it is stored and found under each of its conditions, each
    condition (of several with one id, the last) is stored and indexed under its
    tasks and its event code, and other conditions, other triggers, valid
    conditions, events, claims and runs stay as they were. *)
Theorem built_trigger_behaviour target b c s :
  trigger_wf s →
  let m := build_and_register target b in
  let s' := state_after m c s in
  result_of m c s = build target b ∧ trigger_wf s' ∧
  (tb_conditions b = [] → build target b = Err no_conditions ∧ s' = s) ∧
  (tb_conditions b ≠ [] → ∃ tr, build target b = Ok tr ∧ td_task_id tr = target ∧
    t_triggers s' !! td_trigger_id tr = Some tr ∧
    (∀ id, id ≠ td_trigger_id tr → t_triggers s' !! id = t_triggers s !! id) ∧
    (∀ cond, cond ∈ tb_conditions b →
       condition_id cond ∈ td_condition_ids tr ∧ tr ∈ triggers_at s' (condition_id cond) ∧
       ∃ cond', cond' ∈ tb_conditions b ∧ condition_id cond' = condition_id cond ∧ registered s' cond') ∧
    (∀ id cond, t_conditions s !! id = Some cond → id ∉ td_condition_ids tr →
       t_conditions s' !! id = Some cond) ∧
    t_valid_conditions s' = t_valid_conditions s ∧ t_events s' = t_events s ∧
    t_trigger_run_claims s' = t_trigger_run_claims s ∧ t_trigger_runs s' = t_trigger_runs s ∧
    t_cron_executions s' = t_cron_executions s).
Proof.
  intros Hwf m s'. unfold s', m, result_of, state_after. rewrite build_and_register_run.
  unfold build. case_bool_decide as Hb; simpl; [by split_and!|].
  set (s1 := conditions_registered (tb_conditions b) s).
  set (tr := definition_of target (condition_id <$> tb_conditions b) b).
  destruct (conditions_registered_frame (tb_conditions b) s) as (Ht & _ & Hv & Hc & Hcl & He & Hr).
  assert (trigger_wf (trigger_registered tr s1)) as Hwf'.
  { apply wf_trigger_registered; [|by apply wf_conditions_registered]. simpl.
    by destruct (tb_conditions b). }
  split_and!; [done|exact Hwf'|done|]. intros _. exists tr. split_and!; try done.
  - apply lookup_insert_eq.
  - intros id Hid. simpl. rewrite lookup_insert_ne by done. fold s1 in Ht. by rewrite Ht.
  - intros cond Hin. assert (condition_id cond ∈ td_condition_ids tr) as Hcid by (by apply list_elem_of_fmap_2).
    split_and!; [done| |].
    + apply elem_of_triggers_at; [exact Hwf'|]. split; [apply lookup_insert_eq|].
      by apply (tw_triggers _ Hwf' _ tr (lookup_insert_eq _ _ _)).
    + destruct (conditions_registered_last _ s _ Hin) as (cond' & Hc' & Hid & [H1 H2 H3]).
      exists cond'. split_and!; [done|done|by split].
  - intros id cond Hid Hn. by apply conditions_registered_kept.
Qed.

(** ** From a registered trigger to its first run *)

(** A valid condition of this id is pending. *)
Definition witnessed (m : gmap string ValidCondition) (cid : ConditionId) : Prop :=
  ∃ ctx, m !! vc_valid_condition_id (valid_condition_new cid ctx) = Some (valid_condition_new cid ctx).

(** Recording a context under the conditions it satisfies. *)
Definition record_valid (ctx : ConditionContext) (m : gmap string ValidCondition)
    (p : ConditionId * TriggerCondition) : gmap string ValidCondition :=
  if is_satisfied_by p.2 ctx
  then <[vc_valid_condition_id (valid_condition_new p.1 ctx) := valid_condition_new p.1 ctx]> m else m.

(** Ids of valid conditions end in a digest of fixed length. *)
Lemma valid_id_inj cid cid' ctx ctx' :
  vc_valid_condition_id (valid_condition_new cid ctx) = vc_valid_condition_id (valid_condition_new cid' ctx') →
  cid = cid'.
Proof.
  simpl. intros H. injection H as H. 
  assert (String.length (context_id ctx) = String.length (context_id ctx')) as Hl
    by (unfold context_id; by rewrite !lower_hex_length, !sha256_length).
  apply (f_equal String.length) in H as Hlen. rewrite !str_length_app in Hlen. simpl in Hlen.
  apply str_app_inj_length in H as [? _]; [done|]. rewrite Hl in Hlen. lia.
Qed.

Lemma witnessed_insert m cid cid' ctx :
  witnessed m cid →
  witnessed (<[vc_valid_condition_id (valid_condition_new cid' ctx) := valid_condition_new cid' ctx]> m) cid.
Proof.
  intros [x Hx]. destruct (decide (vc_valid_condition_id (valid_condition_new cid x) =
    vc_valid_condition_id (valid_condition_new cid' ctx))) as [Heq|Hne].
  - pose proof (valid_id_inj _ _ _ _ Heq) as <-. exists ctx. apply lookup_insert_eq.
  - exists x. by rewrite lookup_insert_ne.
Qed.

Lemma record_valid_witnessed ctx l m cid :
  witnessed m cid → witnessed (fold_left (record_valid ctx) l m) cid.
Proof.
  revert m. induction l as [|p l IH]; intros m Hm; simpl; [done|]. apply IH.
  unfold record_valid. case_match; [by apply witnessed_insert|done].
Qed.

Lemma record_valid_new ctx l m cid cond :
  (cid, cond) ∈ l → is_satisfied_by cond ctx = true → witnessed (fold_left (record_valid ctx) l m) cid.
Proof.
  intros Hin Hs. revert m. induction l as [|p l IH]; intros m; [by apply elem_of_nil in Hin|]. simpl.
  apply elem_of_cons in Hin as [<-|Hin]; [|by apply IH]. apply record_valid_witnessed.
  unfold record_valid. simpl. rewrite Hs. exists ctx. apply lookup_insert_eq.
Qed.

Lemma record_valid_keyed ctx l m :
  (∀ k vc, m !! k = Some vc → vc_valid_condition_id vc = k) →
  ∀ k vc, fold_left (record_valid ctx) l m !! k = Some vc → vc_valid_condition_id vc = k.
Proof.
  revert m. induction l as [|p l IH]; intros m Hm; simpl; [done|]. apply IH.
  unfold record_valid. case_match; [by apply keyed_insert|done].
Qed.
(** What a context reports: the status change, result, failure or event. *)
Definition report (am : Ambient) (ctx : ConditionContext) : M RustvelloError TriggerState unit :=
  match ctx with
  | CtxStatus x => report_status_change x;; mret tt
  | CtxResult x => report_result x;; mret tt
  | CtxException x => report_failure x;; mret tt
  | CtxEvent x => emit_event am (evc_event_id x) (evc_event_code x) (evc_payload x);; mret tt
  | CtxCron _ => mret tt
  end.

(** The conditions a report looks at. *)
Definition looked_up (ctx : ConditionContext) s : list (ConditionId * TriggerCondition) :=
  let at_task t := conditions_of (ids_at (t_source_task_conditions s) (task_id_display t)) s in
  match ctx with
  | CtxStatus x => at_task (sc_task_id x)
  | CtxResult x => at_task (rsc_task_id x)
  | CtxException x => at_task (exc_task_id x)
  | CtxEvent x => conditions_of (ids_at (t_event_conditions s) (evc_event_code x)) s
  | CtxCron _ => []
  end.

Lemma record_fold_run {B} ctx (f : B → ConditionId * TriggerCondition → B) l (acc : B) c s :
  ∃ acc', for_fold (λ x p,
    if is_satisfied_by p.2 ctx then
      mem_record_valid_condition (valid_condition_new p.1 ctx);; mret (f x p)
    else mret x) acc l c s = (Ok acc', c, set_valid (λ m, fold_left (record_valid ctx) l m) s).
Proof.
  revert acc s. induction l as [|p l IH]; intros acc s; simpl; [exists acc; by destruct s|].
  unfold mbind at 1, M_bind at 1. unfold record_valid at 2. destruct (is_satisfied_by p.2 ctx); simpl.
  - destruct (IH (f acc p) (set_valid (λ m, <[vc_valid_condition_id (valid_condition_new p.1 ctx) :=
      valid_condition_new p.1 ctx]> m) s)) as [acc' Hrun]. exists acc'. exact Hrun.
  - apply IH.
Qed.

(** A report records what it satisfies, and besides writes events only. *)
Lemma report_run am ctx c s :
  ∃ c' f, report am ctx c s =
    (Ok tt, c', set_events f (set_valid (λ m, fold_left (record_valid ctx) (looked_up ctx s) m) s)).
Proof.
  assert (∀ t, ∃ c' f, (evaluate_task_conditions t ctx;; mret tt) c s =
    (Ok tt, c', set_events f (set_valid (λ m, fold_left (record_valid ctx)
      (conditions_of (ids_at (t_source_task_conditions s) (task_id_display t)) s) m) s))) as Htask.
  { intros t. exists c, id. unfold evaluate_task_conditions.
    destruct (record_fold_run ctx (λ valid p, valid ++ [valid_condition_new p.1 ctx])
      (conditions_of (ids_at (t_source_task_conditions s) (task_id_display t)) s) [] c s) as [acc Hrun].
    unfold mbind at 1, M_bind at 1. unfold mbind at 1, M_bind at 1. simpl. by rewrite Hrun. }
  destruct ctx as [x|x|[id code payload]|x|x]; simpl; try apply Htask; [by exists c, id; destruct s|].
  unfold emit_event, store_event_for_monitoring, mbind, M_bind. cbn -[for_fold clock_next conditions_of].
  match goal with |- context [for_fold ?F ?a ?l ?c0 ?s0] =>
    destruct (record_fold_run (CtxEvent (mkEventContext _ id code payload))
      (λ r p, event_matched p.1 (vc_valid_condition_id (valid_condition_new p.1
        (CtxEvent (mkEventContext _ id code payload)))) r) l a c0 s0) as [r Hrun];
    replace (for_fold F a l c0 s0) with (Ok (E := RustvelloError) r, c0,
      set_valid (λ m, fold_left (record_valid (CtxEvent (mkEventContext _ id code payload))) l m) s0)
      by (symmetry; exact Hrun) end.
  match goal with |- context [set_events (<[id := ?e]>) s] => set (first := e) end.
  destruct (is_matched r); cbn -[for_fold clock_next conditions_of].
  - by exists (clock_next c).2, (λ m, <[er_event_id r := r]> (<[id := first]> m)).
  - by exists (clock_next c).2, (λ m, <[id := first]> m).
Qed.

(** Registration is not touched by reports, and what is witnessed stays so. *)
Record reported s s' : Prop := {
  rp_conditions : t_conditions s' = t_conditions s;
  rp_tasks : t_source_task_conditions s' = t_source_task_conditions s;
  rp_events : t_event_conditions s' = t_event_conditions s;
  rp_triggers : t_triggers s' = t_triggers s;
  rp_witnessed cid : witnessed (t_valid_conditions s) cid → witnessed (t_valid_conditions s') cid;
  rp_wf : trigger_wf s → trigger_wf s'
}.

#[local] Instance reported_preorder : PreOrder reported.
Proof.
  split; [by intros s|]. intros s1 s2 s3 [] []. split; [congruence..|auto|auto].
Qed.

Lemma report_reported am ctx : respects reported (report am ctx).
Proof.
  intros c s. unfold state_after. destruct (report_run am ctx c s) as (c' & f & ->). split; try done; simpl.
  - intros cid. apply record_valid_witnessed.
  - intros Hwf. assert (trigger_wf (set_valid (λ m, fold_left (record_valid ctx) (looked_up ctx s) m) s)) as [].
    { apply wf_set_valid; [|done]. apply record_valid_keyed, (tw_valid _ Hwf). }
    by split.
Qed.

Lemma registered_reported s s' cond : reported s s' → registered s cond → registered s' cond.
Proof. intros [Hc Ht He _ _ _] [H1 H2 H3]. split; rewrite ?Hc, ?Ht, ?He; auto. Qed.

(** A satisfied condition is among the conditions its context looks up. *)
Lemma satisfied_looked_up s cond ctx :
  registered s cond → plain cond → is_satisfied_by cond ctx = true → (∀ x, ctx ≠ CtxCron x) →
  (condition_id cond, cond) ∈ looked_up ctx s.
Proof.
  intros [Hs Ht He] Hp Hsat Hctx.
  assert (∀ ids, condition_id cond ∈ ids → (condition_id cond, cond) ∈ conditions_of ids s) as Hin.
  { intros ids Hid. apply list_elem_of_omap. exists (condition_id cond). by rewrite Hs. }
  destruct cond as [?|sc|ec|rc|xc|? ?], ctx as [x|x|x|x|x]; try done; try (by destruct (Hctx x)); simpl in Hsat |- *.
  all: repeat (apply andb_true_iff in Hsat as [Hsat _]); apply bool_decide_eq_true in Hsat; try rewrite <-Hsat.
  all: apply Hin; first [by eapply He|apply Ht; by left].
Qed.

Lemma report_witnesses am ctx cond c s :
  registered s cond → plain cond → is_satisfied_by cond ctx = true → (∀ x, ctx ≠ CtxCron x) →
  witnessed (t_valid_conditions (state_after (report am ctx) c s)) (condition_id cond).
Proof.
  intros Hr Hp Hs Hctx. unfold state_after. destruct (report_run am ctx c s) as (c' & f & ->). simpl.
  eapply record_valid_new; [by apply satisfied_looked_up|done].
Qed.

Lemma reports_witness am ctxs ctx cond c s :
  ctx ∈ ctxs → registered s cond → plain cond → is_satisfied_by cond ctx = true → (∀ x, ctx ≠ CtxCron x) →
  witnessed (t_valid_conditions (state_after (for_each (report am) ctxs) c s)) (condition_id cond).
Proof.
  intros Hin Hr Hp Hs Hctx. revert c s Hr. induction ctxs as [|x ctxs IH]; intros c s Hr; [by apply elem_of_nil in Hin|].
  pose proof (report_reported am x c s) as Hx. pose proof (report_witnesses am x cond c s) as Hw.
  unfold state_after in *. simpl. unfold mbind, M_bind.
  destruct (report_run am x c s) as (c' & f & Hrun). rewrite Hrun in Hx, Hw |- *. simpl in Hx, Hw.
  apply elem_of_cons in Hin as [->|Hin]; [|by apply IH; [|eapply registered_reported]].
  assert (respects reported (for_each (report am) ctxs)) as Hall
    by (apply respects_for_each; [apply _|intros y; apply report_reported]).
  apply (rp_witnessed _ _ (Hall c' _)). by apply Hw.
Qed.
Lemma witnessed_pending s cid :
  witnessed (t_valid_conditions s) cid → ∃ vc, pending s vc ∧ vc_condition_id vc = cid.
Proof. intros [ctx Hctx]. by exists (valid_condition_new cid ctx). Qed.

(** Different conditions of a builder have different ids. *)
Definition distinct_ids b : Prop := ∀ x y,
  x ∈ tb_conditions b → y ∈ tb_conditions b → condition_id x = condition_id y → x = y.

(** What happens satisfies a builder's conditions: each of them, or any. *)
Definition satisfied_by b (ctxs : list ConditionContext) : Prop :=
  match tb_logic b with
  | LogicAnd => ∀ cond, cond ∈ tb_conditions b → ∃ ctx, ctx ∈ ctxs ∧ is_satisfied_by cond ctx = true
  | LogicOr => ∃ cond ctx, cond ∈ tb_conditions b ∧ ctx ∈ ctxs ∧ is_satisfied_by cond ctx = true
  end.

Lemma satisfied_ready am b target tr ctxs c s :
  build target b = Ok tr → satisfied_by b ctxs → (∀ x, CtxCron x ∉ ctxs) →
  (∀ cond, cond ∈ tb_conditions b → registered s cond ∧ plain cond) →
  ready (state_after (for_each (report am) ctxs) c s) tr.
Proof.
  unfold build. case_bool_decide; [done|]. intros [= <-] Hsat Hcron Hreg. unfold ready, satisfied_by in *. simpl.
  assert (∀ cond ctx, cond ∈ tb_conditions b → ctx ∈ ctxs → is_satisfied_by cond ctx = true → ∃ vc,
    pending (state_after (for_each (report am) ctxs) c s) vc ∧ vc_condition_id vc = condition_id cond) as Hw.
  { intros cond ctx Hin Hctx Hs. destruct (Hreg _ Hin) as [Hr Hp]. apply witnessed_pending.
    eapply reports_witness; eauto. intros x ->. by apply (Hcron x). }
  destruct (tb_logic b).
  - intros cid (cond & -> & Hin)%list_elem_of_fmap. destruct (Hsat _ Hin) as (ctx & Hctx & Hs). by eapply Hw.
  - destruct Hsat as (cond & ctx & Hin & Hctx & Hs). destruct (Hw _ _ Hin Hctx Hs) as (vc & Hp & Hid).
    exists vc. split; [done|]. rewrite Hid. by apply list_elem_of_fmap_2.
Qed.

(** C24: A built trigger fires.  A chain of builder calls has at least one condition, no
    cron condition has to be satisfied, and the ids of its conditions differ (two
    exception conditions whose lists of error types join to one text share an id, and
    the second then replaces the first: exception_condition_ids_collide).  After the
    registration of its trigger, once the status changes, results, failures and events
    that are reported satisfy its conditions (each of them, or any, depending on its
    logic), the next evaluation succeeds and leaves a claimed and recorded run for a
    firing of the trigger. *)
Theorem built_trigger_fires am calls b target ctxs c c1 c2 s :
  trigger_wf s → run_builder calls builder_new = Ok b → tb_conditions b ≠ [] → distinct_ids b →
  satisfied_by b ctxs → (∀ x, CtxCron x ∉ ctxs) →
  ∃ tr, result_of (build_and_register target b) c s = Ok tr ∧
  let s1 := state_after (build_and_register target b) c s in
  let s2 := state_after (for_each (report am) ctxs) c1 s1 in
  let s3 := state_after evaluate_trigger_runs c2 s2 in
  is_ok (result_of evaluate_trigger_runs c2 s2) = true ∧
  ∃ rid picks, fires s2 tr rid picks ∧
    is_Some (t_trigger_run_claims s3 !! rid) ∧ is_Some (t_trigger_runs s3 !! rid).
Proof.
  intros Hwf Hrun Hne Hids Hsat Hcron. destruct (build target b) as [tr|e|p] eqn:Hb;
    [|unfold build in Hb; case_bool_decide; done..].
  pose proof (build_and_register_run target b c s) as Hreg. rewrite Hb in Hreg.
  exists tr. split; [unfold result_of; by rewrite Hreg|].
  set (s1 := trigger_registered tr (conditions_registered (tb_conditions b) s)).
  assert (state_after (build_and_register target b) c s = s1) as -> by (unfold state_after; by rewrite Hreg).
  intros s0 s2 s3. subst s0. assert (td_condition_ids tr ≠ []) as Hcids.
  { unfold build in Hb. case_bool_decide; [done|]. injection Hb as <-. simpl. by destruct (tb_conditions b). }
  assert (trigger_wf s1) as Hwf1 by (apply wf_trigger_registered; [done|by apply wf_conditions_registered]).
  assert (respects reported (for_each (report am) ctxs)) as Hrep
    by (apply respects_for_each; [apply _|intros y; apply report_reported]).
  specialize (Hrep c1 s1). fold s2 in Hrep.
  assert (ready s2 tr) as Hready.
  { eapply satisfied_ready; eauto. intros cond Hin.
    destruct (conditions_registered_last _ s _ Hin) as (cond' & Hc' & Hid & Hr).
    assert (cond' = cond) as -> by (by apply Hids). destruct Hr. split; [by split|].
    by apply (proj1 (list.Forall_forall _ _) (run_builder_plain _ _ _ Hrun ltac:(by constructor))). }
  unfold s3, result_of, state_after.
  destruct (evaluate_run c2 s2 (rp_wf _ _ Hrep Hwf1)) as (l & c' & s' & -> & Hev). simpl. split; [done|].
  apply (ev_complete _ _ _ Hev (td_trigger_id tr)); [|done].
  rewrite (rp_triggers _ _ Hrep). apply lookup_insert_eq.
Qed.
End facts.

(** ** Witnesses *)

Definition plain_cron_errors : CronErrorText := {| cron_error _ := "not a cron expression" |}.

Definition demo_calls : list (@builder_call text_json) :=
  [CallStatus demo_task [Success; Failed]; CallEvent "done"; CallLogic LogicAnd].

Definition demo_builder : @TriggerBuilder text_json :=
  @mkTriggerBuilder text_json
    [CondStatus (mkStatusCondition _ demo_task [Success; Failed] None); CondEvent (mkEventCondition _ "done" None)]
    LogicAnd None.

Definition demo_happenings : list (@ConditionContext text_json) :=
  [CtxEvent (mkEventContext _ "e1" "done" VNull); CtxStatus (mkStatusContext "i1" demo_task Success ∅)].

Lemma built_trigger_behaviour_witness :
  ∃ tr, @build text_json pad_digest demo_task demo_builder = Ok tr ∧ td_task_id tr = demo_task.
Proof.
  destruct (@built_trigger_behaviour text_json identity_order pad_digest demo_task demo_builder
    demo_clock trigger_store_new trigger_wf_new) as (_ & _ & _ & Hne).
  destruct (Hne ltac:(done)) as (tr & Htr & Ht & _). by exists tr.
Defined.

Definition demo_registration := @build_and_register text_json pad_digest _
  (@mem_trigger_store text_json identity_order pad_digest) demo_task demo_builder.
Definition demo_registered := state_after demo_registration demo_clock trigger_store_new.
Definition demo_reported := state_after
  (for_each (@report text_json identity_order no_time pad_digest demo_ambient) demo_happenings)
  demo_clock demo_registered.
Definition demo_evaluated := state_after demo_evaluation demo_clock demo_reported.

Lemma built_trigger_fires_witness :
  ∃ tr rid picks, result_of demo_registration demo_clock trigger_store_new = Ok tr ∧
    fires demo_reported tr rid picks ∧ is_Some (t_trigger_runs demo_evaluated !! rid).
Proof.
  destruct (@built_trigger_fires text_json identity_order no_time pad_digest name_uuid
    every_minute plain_cron_errors demo_ambient demo_calls demo_builder demo_task demo_happenings
    demo_clock demo_clock demo_clock trigger_store_new trigger_wf_new)
    as (tr & Htr & _ & rid & picks & Hf & _ & Hr).
  - reflexivity.
  - done.
  - intros x y. simpl. intros Hx Hy Hid.
    repeat (apply elem_of_cons in Hx as [->|Hx]); [..|by apply elem_of_nil in Hx];
    repeat (apply elem_of_cons in Hy as [->|Hy]); try (by apply elem_of_nil in Hy); done.
  - intros cond Hin. repeat (apply elem_of_cons in Hin as [->|Hin]); [..|by apply elem_of_nil in Hin].
    + exists (CtxStatus (mkStatusContext "i1" demo_task Success ∅)). split; [by right; left|reflexivity].
    + exists (CtxEvent (mkEventContext _ "e1" "done" VNull)). split; [by left|reflexivity].
  - intros x Hx. unfold demo_happenings in Hx. do 2 (apply elem_of_cons in Hx as [?|Hx]; [done|]).
    by apply elem_of_nil in Hx.
  - by exists tr, rid, picks.
Defined.
