(* ===== verification/TriggerLoop.v ===== *)
(** * The trigger loop and the atomic service

    Models [rustvello/src/orchestration/triggers.rs]: each iteration claims the
    firings of the triggers, publishes every pending run under its derived
    invocation id and marks it complete; the atomic service runs an iteration in
    the time slot of its runner.

    The theorems: what publishing one run does on each state it can find, that a
    publication which fails at any boundary, any number of times, ends in exactly
    one published invocation, that an iteration drains the outbox, and that runs
    no runner can route hold up the others. *)
From S2P Require Import Prelude F64 Effects Json Identifiers Status Errors Config Call Invocation Trigger OrchestratorState MemOrchestrator MemOrchestratorFacts MemBroker MemStateBackend TaskCatalog MemTrigger Ports Orchestration Routing TriggerManager TriggerFacts.

(* @src rustvello/src/orchestration/triggers.rs 19-19 PENDING_TRIGGER_RUN_BATCH *)
Definition PENDING_TRIGGER_RUN_BATCH : Z := 1000.

(* @src rustvello/src/orchestration/triggers.rs 299-308 json_value_to_serialized_args *)
Definition json_value_to_serialized_args `{JsonValue} (value : Value) : SerializedArguments :=
  match value with
  | VObject map =>
      fold_left (λ args p, arguments_insert p.1 (default (json_display p.2) (json_to_string p.2)) args)
        map arguments_new
  | _ => arguments_new
  end.

(** Where the runner is among the active ones. *)
Definition runner_position (runner_id : RunnerId) (l : list ActiveRunnerInfo) : option nat :=
  fst <$> list_find (λ r, ari_runner_id r = runner_id) l.

(* @src rustvello/src/orchestration/triggers.rs 261-297 can_run_atomic_service *)
Definition can_run_atomic_service (runner_id : RunnerId) (active_runners : list ActiveRunnerInfo)
    (current_time service_interval_minutes spread_margin_minutes : f64) : bool :=
  match active_runners with
  | [] => false
  | [_] => true
  | _ =>
      match runner_position runner_id active_runners with
      | None => false
      | Some position =>
          let service_interval := f64_mul service_interval_minutes (f64_of_u64 60) in
          let spread_margin := f64_mul spread_margin_minutes (f64_of_u64 60) in
          let time_slot_size := f64_div service_interval (f64_of_u64 (Z.of_nat (length active_runners))) in
          let start_time := f64_mul (f64_of_u64 (Z.of_nat position)) time_slot_size in
          let end_time := f64_sub (f64_add start_time time_slot_size) spread_margin in
          let end_time := if f64_leb end_time start_time
                          then f64_add start_time (f64_div time_slot_size f64_two) else end_time in
          let time_in_cycle := f64_rem current_time service_interval in
          f64_leb start_time time_in_cycle && f64_ltb time_in_cycle end_time
      end
  end.

Section orchestrator.
Context {J : JsonValue} {S : Type} {P : Ports S} {SH : Sha256} {SS : SerdeString} (fp : Failpoints).

(** The call a run makes. *)
Definition run_call (run : TriggerRunRecord) : CallDTO :=
  call_dto_new (tr_task_id run) (json_value_to_serialized_args (tr_arguments run)).

(** The status of an invocation, if there is one. *)
(* @src rustvello/src/orchestration/triggers.rs 124-133 Orchestrator::publish_trigger_run *)
Definition existing_status (id : InvocationId) : M RustvelloError S (option InvocationStatus) :=
  r ← attempt (ctl_get_invocation_status id);
  match r with
  | inl record => mret (Some (rec_status record))
  | inr (EInvocationNotFound _) => mret None
  | inr e => throw e
  end.

(** The ordered writes after the registration. *)
(* @src rustvello/src/orchestration/triggers.rs 174-212 Orchestrator::publish_trigger_run *)
Definition publish_stored (run : TriggerRunRecord) (id : InvocationId) (runner : RunnerId)
    (route : PublicationRoute) : M RustvelloError S unit :=
  let call := run_call run in
  now ← utc_now;
  sb_upsert_invocation (invocation_new now id (tr_task_id run) (cd_call_id call)) call;;
  boundary fp "trigger.fallback.stored" id;;
  history ← sb_get_history id;
  (if List.existsb (λ h, bool_decide (rec_status (hist_status_record h) = Registered)) history then mret tt
   else
     record ← ctl_get_invocation_status id;
     record_history id record runner);;
  boundary fp "trigger.fallback.history" id;;
  br_route_invocation_with_options id (Some (tr_task_id run)) (route_queue route) (route_priority route);;
  boundary fp "trigger.fallback.routed" id.

(* @src rustvello/src/orchestration/triggers.rs 112-213 Orchestrator::publish_trigger_run *)
Definition publish_trigger_run (run : TriggerRunRecord) (id : InvocationId) (runner : RunnerId)
    (route : PublicationRoute) (pub : option (RuntimePublication S)) : M RustvelloError S unit :=
  let call := run_call run in
  existing ← existing_status id;
  match pub with
  | Some pub =>
      if bool_decide (existing = None) then
        now ← utc_now;
        pub_submit pub
          {| sp_invocation := invocation_new now id (tr_task_id run) (cd_call_id call); sp_call := call;
             sp_runner_id := runner; sp_runner_context := None; sp_workflow_root := false;
             sp_cc_arguments := None; sp_route := route |};;
        mret tt
      else mret tt
  | None =>
      match existing with
      | Some Registered => publish_stored run id runner route
      | Some _ => mret tt
      | None =>
          ctl_register_invocation_with_id id call (Some runner);;
          boundary fp "trigger.fallback.registered" id;;
          publish_stored run id runner route
      end
  end.

(** One pending run: skipped without a planned id or a route. *)
(* @src rustvello/src/orchestration/triggers.rs 82-106 Orchestrator::trigger_loop_iteration *)
Definition drain_run (tm : TriggerPort S) (runner : RunnerId) (routes : gmap TaskId (string * f64))
    (pub : option (RuntimePublication S)) (created : list InvocationId) (run : TriggerRunRecord)
    : M RustvelloError S (list InvocationId) :=
  match tr_planned_invocation_id run with
  | None => mret created
  | Some id =>
      match routes !! tr_task_id run with
      | None => mret created
      | Some (queue, priority) =>
          publish_trigger_run run id runner (mkRoute queue priority) pub;;
          boundary fp "trigger.published" id;;
          tm_complete_trigger_run tm (tr_trigger_run_id run) id;;
          boundary fp "trigger.completed" id;;
          mret (created ++ [id])
      end
  end.

(* @src rustvello/src/orchestration/triggers.rs 64-109 Orchestrator::trigger_loop_iteration *)
Definition trigger_loop_iteration (runner : RunnerId) (routes : gmap TaskId (string * f64))
    : M RustvelloError S (list InvocationId) :=
  match tg_manager with
  | None => mret []
  | Some tm =>
      pub ← publication;
      tm_evaluate_cron_conditions tm;;
      executions ← tm_evaluate_trigger_runs tm;
      for_each (λ e, boundary fp "trigger.claimed" (ex_run_id e)) executions;;
      runs ← tm_pending_trigger_runs tm PENDING_TRIGGER_RUN_BATCH;
      for_fold (drain_run tm runner routes pub) [] runs
  end.

(* @src rustvello/src/orchestration/triggers.rs 22-30 Orchestrator::run_trigger_iteration *)
Definition run_trigger_iteration `{Environment} `{ParseF64} `{UnicodeCase} `{Glob}
    (app_config : AppConfig) (catalog : TaskCatalog) (runner : RunnerId)
    : M RustvelloError S (list InvocationId) :=
  trigger_loop_iteration runner (all_routing catalog app_config).

(** Seconds since the epoch: whole seconds and the nanoseconds below, read at two
    instants. *)
Definition unix_seconds (t t' : DateTime) : f64 :=
  f64_add (f64_of_u64 (t / 1000000000))
    (f64_div (f64_of_u64 (t' mod 1000000000)) (f64_of_u64 1000000000)).

(* @src rustvello/src/orchestration/triggers.rs 216-258 Orchestrator::check_atomic_services *)
Definition check_atomic_services (runner : RunnerId)
    (service_interval_minutes spread_margin_minutes runner_timeout_seconds : f64)
    (routes : gmap TaskId (string * f64)) : M RustvelloError S (option (list InvocationId)) :=
  ctl_register_heartbeat runner true;;
  active ← ctl_get_active_runners (u64_of_f64 runner_timeout_seconds) (Some true);
  t ← utc_now;
  t' ← utc_now;
  if can_run_atomic_service runner active (unix_seconds t t') service_interval_minutes spread_margin_minutes
  then
    start ← utc_now;
    created ← trigger_loop_iteration runner routes;
    finish ← utc_now;
    ctl_record_atomic_service_execution runner start finish;;
    mret (Some created)
  else mret None.

(* @src rustvello/src/orchestration/triggers.rs 32-49 Orchestrator::run_atomic_services *)
Definition run_atomic_services `{Environment} `{ParseF64} `{UnicodeCase} `{Glob}
    (app_config : AppConfig) (catalog : TaskCatalog) (runner : RunnerId)
    (service_interval_minutes spread_margin_minutes runner_timeout_seconds : f64)
    : M RustvelloError S (option (list InvocationId)) :=
  check_atomic_services runner service_interval_minutes spread_margin_minutes runner_timeout_seconds
    (all_routing catalog app_config).
End orchestrator.

(** ** Publishing one run *)

Section publish.
Context {J : JsonValue} {S : Type} {P : Ports S} {SH : Sha256} {SS : SerdeString}.
Context (view : S → RuntimeView) {L : PortLaws P view}.
Context (run : TriggerRunRecord) (id : InvocationId) (runner : RunnerId) (route : PublicationRoute).

(** The entry a publication puts in the queue. *)
Definition run_entry : QueuedInvocation :=
  entry_now id (Some (tr_task_id run)) (route_queue route) (route_priority route).

Definition is_registered_entry (h : InvocationHistory) : bool :=
  bool_decide (rec_status (hist_status_record h) = Registered).

(** How often the history of the invocation records its registration. *)
Definition registrations (v : RuntimeView) : nat :=
  length (bfilter is_registered_entry (entries (v_histories v) id)).

(** What any number of publications, complete or not, may have left since [v0]. *)
Record publishing (v0 v : RuntimeView) (n : nat) : Prop := {
  pg_status : v_status v !! id = None ∧ registrations v = O ∨
    ∃ rec, v_status v !! id = Some rec ∧ rec_status rec = Registered ∧ (registrations v ≤ 1)%nat;
  pg_queue : v_queue v = v_queue v0 ++ replicate n run_entry;
  pg_others j : j ≠ id → v_status v !! j = v_status v0 !! j ∧
    v_invocations v !! j = v_invocations v0 !! j ∧
    entries (v_histories v) j = entries (v_histories v0) j;
  pg_rest : v_results v = v_results v0 ∧ v_errors v = v_errors v0 ∧ v_retries v = v_retries v0
}.

(** What a complete publication leaves. *)
Record published (v : RuntimeView) : Prop := {
  pd_status : ∃ rec, v_status v !! id = Some rec ∧ rec_status rec = Registered;
  pd_history : registrations v = 1%nat;
  pd_invocation : ∃ now, v_invocations v !! id =
    Some (invocation_new now id (tr_task_id run) (cd_call_id (run_call run)));
  pd_call : v_calls v !! call_id_display (cd_call_id (run_call run)) = Some (run_call run)
}.

Lemma publishing_registered v0 v n rec :
  publishing v0 v n → v_status v !! id = None → rec_status rec = Registered →
  publishing v0 (set_v_status <[id := rec]> v) n.
Proof.
  intros [Hs Hq Ho Hr] Hno Hrec. split; [|done| |done].
  - right. exists rec. simpl. rewrite lookup_insert_eq. split_and!; [done|done|].
    destruct Hs as [[_ Hz]|(? & Hx & _)]; [|congruence]. unfold registrations in *. simpl. lia.
  - intros j Hj. simpl. rewrite lookup_insert_ne by done. by apply Ho.
Qed.

Lemma publishing_stored v0 v n now :
  publishing v0 v n →
  publishing v0 (set_v_stored (invocation_new now id (tr_task_id run) (cd_call_id (run_call run)))
                   (run_call run) v) n.
Proof.
  intros [Hs Hq Ho Hr]. split; [done|done| |done].
  intros j Hj. simpl. rewrite lookup_insert_ne by done. by apply Ho.
Qed.

Lemma registrations_add rec v :
  rec_status rec = Registered →
  registrations (add_v_history (history_entry id rec runner) v) = (registrations v + 1)%nat.
Proof.
  intros Hrec. unfold registrations, add_v_history, entries, push_entry. simpl. rewrite lookup_insert_eq. simpl.
  unfold bfilter. rewrite List.filter_app, length_app. simpl. unfold is_registered_entry at 2. simpl.
  rewrite Hrec. by rewrite bool_decide_true.
Qed.

Lemma publishing_history v0 v n rec :
  publishing v0 v n → v_status v !! id = Some rec → rec_status rec = Registered → registrations v = O →
  publishing v0 (add_v_history (history_entry id rec runner) v) n.
Proof.
  intros [Hs Hq Ho Hr] Hst Hrec Hz. split; [|done| |done].
  - right. exists rec. split_and!; [done|done|]. rewrite registrations_add by done. lia.
  - intros j Hj. destruct (Ho j Hj) as (? & ? & He). split_and!; [done|done|].
    unfold entries, add_v_history, push_entry in *. simpl. by rewrite lookup_insert_ne.
Qed.

Lemma publishing_queue v0 v n :
  publishing v0 v n → publishing v0 (set_v_queue (λ l, l ++ [run_entry]) v) (Datatypes.S n).
Proof.
  intros [Hs Hq Ho Hr]. split; [done| |done|done]. simpl. rewrite Hq, <-app_assoc. f_equal.
  by rewrite <-replicate_S_end.
Qed.

(** A boundary either stops the publication where it is or lets it go on. *)
Lemma wp_boundary fp name (k : M RustvelloError S unit) c s (Q : RustvelloResult unit → RuntimeView → Prop) :
  (fp name id ≠ Ok tt → Q (fp name id) (view s)) → wp view k c s Q → wp view (boundary fp name id;; k) c s Q.
Proof.
  intros Hstop Hk. apply wp_lift. destruct (fp name id) as [[]|e|p]; [exact Hk|by apply Hstop..].
Qed.

(** What a publication may leave after [n] entries: progress, and when it
    succeeds a complete publication with one more entry; only a boundary stops it. *)
Definition publish_post (fp : Failpoints) (v0 : RuntimeView) (n : nat) (r : RustvelloResult unit) (v : RuntimeView) : Prop :=
  ∃ n', (n ≤ n' ≤ Datatypes.S n)%nat ∧ publishing v0 v n' ∧
    (r = Ok tt → n' = Datatypes.S n ∧ published v) ∧ (r ≠ Ok tt → ∃ name, fp name id = r).

Lemma publish_post_stopped (fp : Failpoints) v0 n v name :
  publishing v0 v n → fp name id ≠ Ok tt → publish_post fp v0 n (fp name id) v.
Proof. intros Hp Hr. exists n. split_and!; [lia|lia|done|done|eauto]. Qed.

(** The writes after the registration: whatever boundary fails, they go on from
    where an earlier publication stopped. *)
Lemma publish_stored_run fp v0 n c s :
  validate_routing (route_queue route) (route_priority route) = Ok tt →
  publishing v0 (view s) n → is_Some (v_status (view s) !! id) →
  wp view (publish_stored fp run id runner route) c s (publish_post fp v0 n).
Proof.
  intros Hq Hp [rec Hrec]. unfold publish_stored.
  assert (rec_status rec = Registered) as Hreg.
  { destruct (pg_status _ _ _ Hp) as [[? _]|(? & ? & ? & _)]; congruence. }
  apply wp_now. set (now := (clock_next c).1).
  set (inv := invocation_new now id (tr_task_id run) (cd_call_id (run_call run))).
  eapply wp_step; [apply pl_upsert|]. simpl. intros c1 s1 Hv1.
  assert (publishing v0 (view s1) n) as Hp1 by (rewrite Hv1; by apply publishing_stored).
  assert (v_status (view s1) !! id = Some rec) as Hs1 by (by rewrite Hv1).
  assert (∃ now, v_invocations (view s1) !! id =
    Some (invocation_new now id (tr_task_id run) (cd_call_id (run_call run)))) as Hi1.
  { exists now. rewrite Hv1. simpl. by rewrite lookup_insert_eq. }
  assert (v_calls (view s1) !! call_id_display (cd_call_id (run_call run)) = Some (run_call run)) as Hc1.
  { rewrite Hv1. simpl. by rewrite lookup_insert_eq. }
  clear Hv1 Hp Hrec. apply wp_boundary; [by apply publish_post_stopped|].
  eapply wp_step; [apply pl_get_history|]. simpl. intros c2 s2 Hv2. rewrite <-Hv2 in *. clear Hv2 s1 c1.
  apply wp_bind, (wp_conseq _ _ _ _ (λ r v, r = Ok tt ∧ publishing v0 v n ∧ published v)).
  { destruct (List.existsb _ _) eqn:Hex.
    - apply wp_ret. split_and!; [done|done|]. split; [eauto| |done|done].
      destruct (pg_status _ _ _ Hp1) as [[? _]|(? & ? & ? & Hle)]; [congruence|].
      apply List.existsb_exists in Hex as (h & Hin & Hh). unfold registrations in *.
      assert (h ∈ bfilter is_registered_entry (entries (v_histories (view s2)) id)) as Hb
        by (apply elem_of_bfilter; split; [exact Hh|by apply list_elem_of_In]).
      destruct (bfilter is_registered_entry _); [by apply elem_of_nil in Hb|]. simpl in *. lia.
    - assert (registrations (view s2) = O) as Hz.
      { unfold registrations. apply length_zero_iff_nil.
        destruct (bfilter is_registered_entry _) as [|h l] eqn:Hl; [done|].
        assert (h ∈ bfilter is_registered_entry (entries (v_histories (view s2)) id)) as Hh
          by (rewrite Hl; by left).
        apply elem_of_bfilter in Hh as [Hh Hin]. apply not_true_iff_false in Hex. destruct Hex.
        apply List.existsb_exists. exists h. split; [by apply list_elem_of_In|done]. }
      eapply wp_step; [apply pl_get_status|]. rewrite Hs1. simpl. intros c3 s3 Hv3. rewrite <-Hv3 in *.
      clear Hv3. unfold record_history. eapply wp_yields; [apply pl_add_history|].
      split_and!; [done|by apply publishing_history|]. split; [eauto| |done|done].
      pose proof (registrations_add rec (view s3) Hreg) as Hadd. unfold history_entry in Hadd. lia. }
  intros r v (-> & Hp2 & Hd). intros c3 s3 <-. clear Hp1 Hs1 Hi1 Hc1.
  apply wp_boundary; [by apply publish_post_stopped|].
  eapply wp_step; [apply pl_route|]. rewrite Hq. simpl. intros c4 s4 Hv4.
  assert (publishing v0 (view s4) (Datatypes.S n) ∧ published (view s4)) as [Hp4 Hd4].
  { rewrite Hv4. split; [by apply publishing_queue|]. by destruct Hd. }
  unfold boundary.
  apply (wp_yields view _ _ _ (fp "trigger.fallback.routed" id) (view s4)); [by apply yields_lift|].
  destruct (fp "trigger.fallback.routed" id) as [[]|e|p] eqn:Hfp; exists (Datatypes.S n);
    (split_and!; [lia|lia|done|done|]); intros Hne; [done|eexists; exact Hfp..].
Qed.

Lemma existing_status_run j c s :
  yields view (existing_status j) c s (Ok (rec_status <$> v_status (view s) !! j)) (view s).
Proof.
  pose proof (pl_get_status j c s) as Hy. apply yields_attempt in Hy. unfold existing_status.
  destruct (v_status (view s) !! j); simpl in *; eapply yields_bind; [exact Hy| |exact Hy|];
    intros; by apply yields_ret.
Qed.

Lemma publish_run fp v0 n c s :
  validate_routing (route_queue route) (route_priority route) = Ok tt →
  publishing v0 (view s) n →
  wp view (publish_trigger_run fp run id runner route None) c s (publish_post fp v0 n).
Proof.
  intros Hq Hp. unfold publish_trigger_run. eapply wp_step; [apply existing_status_run|].
  simpl. intros c1 s1 Hv1. rewrite <-Hv1 in *. clear Hv1.
  destruct (v_status (view s1) !! id) as [rec|] eqn:Hs; simpl.
  - assert (rec_status rec = Registered) as ->
      by (destruct (pg_status _ _ _ Hp) as [[? _]|(? & ? & ? & _)]; congruence).
    apply publish_stored_run; [done|done|by eexists].
  - destruct (pl_register id (run_call run) (Some runner) c1 s1) as [now Hreg].
    eapply wp_step; [exact Hreg|]. simpl. intros c2 s2 Hv2.
    assert (publishing v0 (view s2) n) as Hp2 by (rewrite Hv2; by apply publishing_registered).
    apply wp_boundary; [by apply publish_post_stopped|].
    apply publish_stored_run; [done|done|]. rewrite Hv2. simpl. rewrite lookup_insert_eq. by eexists.
Qed.

(** A publication that stops, and what it wrote stays. *)
Definition interrupted {A} (m : M RustvelloError S A) : M RustvelloError S unit :=
  λ c s, (Ok tt, (m c s).1.2, state_after m c s).

Lemma yields_interrupted {A} (m : M RustvelloError S A) c s r v :
  yields view m c s r v → yields view (interrupted m) c s (Ok tt) v.
Proof. intros (c' & s' & Hm & Hv). exists (m c s).1.2, (state_after m c s). split; [done|]. unfold state_after. by rewrite Hm. Qed.

(** Attempts that stop at a boundary, one after the other, and a last one that
    does not. *)
Fixpoint publish_attempts (attempts : list Failpoints) : M RustvelloError S unit :=
  match attempts with
  | [] => publish_trigger_run no_failpoints run id runner route None
  | fp :: attempts =>
      interrupted (publish_trigger_run fp run id runner route None);; publish_attempts attempts
  end.

Lemma publish_attempts_run attempts v0 n c s :
  validate_routing (route_queue route) (route_priority route) = Ok tt →
  publishing v0 (view s) n →
  wp view (publish_attempts attempts) c s (λ r v,
    r = Ok tt ∧ published v ∧
    ∃ n', (n < n' ≤ n + Datatypes.S (length attempts))%nat ∧ publishing v0 v n').
Proof.
  intros Hq. revert n c s. induction attempts as [|fp l IH]; intros n c s Hp; simpl.
  - apply (wp_conseq _ _ _ _ (publish_post no_failpoints v0 n)); [by apply publish_run|].
    intros r v (n' & Hn' & Hp' & Hok & Hstop).
    assert (r = Ok tt) as Hr.
    { destruct r as [[]|e|p]; [done|by destruct Hstop..]. }
    destruct (Hok Hr) as [-> Hd]. split_and!; [done|done|]. exists (Datatypes.S n). split_and!; [lia|lia|done].
  - apply wp_bind. destruct (publish_run fp v0 n c s Hq Hp) as (r & v & Hy & n' & Hn' & Hp' & _).
    eapply wp_yields; [exact (yields_interrupted _ _ _ _ _ Hy)|]. simpl. intros c1 s1 <-.
    eapply wp_conseq; [by apply IH|]. intros r1 v1 (-> & Hd & m & Hm & Hp1).
    split_and!; [done|done|]. exists m. split; [lia|done].
Qed.
(** An invocation that left [Registered] is not published again. *)
Lemma publish_moved fp rec c s :
  v_status (view s) !! id = Some rec → rec_status rec ≠ Registered →
  yields view (publish_trigger_run fp run id runner route None) c s (Ok tt) (view s).
Proof.
  intros Hs Hne. unfold publish_trigger_run. eapply yields_bind; [apply existing_status_run|].
  rewrite Hs. simpl. intros c' s' Hv. destruct (rec_status rec); try done; by apply yields_ret.
Qed.

(** C21: Publishing a pending run is repeatable, on backends without transactional
    publication whose storage does not fail (the laws [PortLaws]; the boundaries between
    the steps are where a process stops), for a run with a valid route whose invocation
    id is new.  After any number of publications that stop at any of the boundaries, a
    publication that no boundary stops succeeds and leaves the invocation registered,
    with exactly one record of its registration in the history and the invocation and
    its call stored; the broker got at most one entry per attempt, all of them the
    run's, and no other invocation, result, error or retry count changed.  Once the
    invocation was taken out of [Registered], a publication changes nothing. *)
Theorem publication_is_exactly_once attempts c s :
  validate_routing (route_queue route) (route_priority route) = Ok tt →
  v_status (view s) !! id = None → registrations (view s) = O →
  (let v := view s in
   let v' := view (state_after (publish_attempts attempts) c s) in
   result_of (publish_attempts attempts) c s = Ok tt ∧ published v' ∧
   (∃ k, (1 ≤ k ≤ Datatypes.S (length attempts))%nat ∧ v_queue v' = v_queue v ++ replicate k run_entry) ∧
   (∀ j, j ≠ id → v_status v' !! j = v_status v !! j ∧ v_invocations v' !! j = v_invocations v !! j ∧
      entries (v_histories v') j = entries (v_histories v) j) ∧
   v_results v' = v_results v ∧ v_errors v' = v_errors v ∧ v_retries v' = v_retries v) ∧
  (∀ fp rec c1 s1, v_status (view s1) !! id = Some rec → rec_status rec ≠ Registered →
   result_of (publish_trigger_run fp run id runner route None) c1 s1 = Ok tt ∧
   view (state_after (publish_trigger_run fp run id runner route None) c1 s1) = view s1).
Proof.
  intros Hq Hno Hz. split; [|intros; by apply yields_result, (publish_moved _ rec)].
  assert (publishing (view s) (view s) 0) as Hp.
  { split; [by left| |done|done]. by rewrite app_nil_r. }
  apply (publish_attempts_run attempts _ _ c s Hq), wp_result in Hp as (Hr & Hd & k & Hk & [_ Hqu Ho Hrest]).
  simpl. split_and!; [done|done|exists k; split; [lia|done]|done|apply Hrest..].
Qed.

(** Without failpoints a publication succeeds on any state, and the invocation
    exists afterwards. *)
Lemma publish_stored_ok c s :
  validate_routing (route_queue route) (route_priority route) = Ok tt →
  is_Some (v_status (view s) !! id) →
  wp view (publish_stored no_failpoints run id runner route) c s
    (λ r v, r = Ok tt ∧ v_status v = v_status (view s)).
Proof.
  intros Hq [rec Hrec]. unfold publish_stored. apply wp_now.
  eapply wp_step; [apply pl_upsert|]. simpl. intros c1 s1 Hv1.
  assert (v_status (view s1) = v_status (view s)) as H1 by (by rewrite Hv1). clear Hv1.
  apply wp_lift. simpl. eapply wp_step; [apply pl_get_history|]. simpl. intros c2 s2 Hv2.
  rewrite <-Hv2 in *. clear Hv2.
  apply wp_bind, (wp_conseq _ _ _ _ (λ r v, r = Ok tt ∧ v_status v = v_status (view s))).
  { destruct (List.existsb _ _); [by apply wp_ret|].
    eapply wp_step; [apply pl_get_status|]. rewrite H1, Hrec. simpl. intros c3 s3 Hv3.
    unfold record_history. eapply wp_yields; [apply pl_add_history|]. simpl. by rewrite Hv3. }
  intros r v (-> & Hv) c3 s3 <-. apply wp_lift. simpl.
  eapply wp_step; [apply pl_route|]. rewrite Hq. simpl. intros c4 s4 Hv4.
  eapply (wp_yields view _ _ _ (Ok tt)); [by apply yields_lift|]. by split.
Qed.

Lemma publish_ok c s :
  validate_routing (route_queue route) (route_priority route) = Ok tt →
  wp view (publish_trigger_run no_failpoints run id runner route None) c s (λ r v,
    r = Ok tt ∧ is_Some (v_status v !! id) ∧
    ∀ j, is_Some (v_status (view s) !! j) → is_Some (v_status v !! j)).
Proof.
  intros Hq. unfold publish_trigger_run. eapply wp_step; [apply existing_status_run|].
  simpl. intros c1 s1 Hv1. rewrite <-Hv1 in *. clear Hv1.
  destruct (v_status (view s1) !! id) as [rec|] eqn:Hs; simpl.
  - assert (wp view (mret tt) c1 s1 (λ r v, r = Ok tt ∧ is_Some (v_status v !! id) ∧
      ∀ j, is_Some (v_status (view s1) !! j) → is_Some (v_status v !! j))) as Hret
      by (apply wp_ret; eauto).
    destruct (rec_status rec); try exact Hret. eapply wp_conseq; [apply publish_stored_ok; eauto|].
    intros r v (-> & ->). eauto.
  - destruct (pl_register id (run_call run) (Some runner) c1 s1) as [now Hreg].
    eapply wp_step; [exact Hreg|]. simpl. intros c2 s2 Hv2. apply wp_lift. simpl.
    assert (∀ j, is_Some (v_status (view s1) !! j) ∨ j = id → is_Some (v_status (view s2) !! j)) as Hmono.
    { intros j Hj. rewrite Hv2. simpl. destruct (decide (j = id)) as [->|Hne].
      - rewrite lookup_insert_eq. eauto.
      - rewrite lookup_insert_ne by done. destruct Hj; [done|congruence]. }
    eapply wp_conseq; [apply publish_stored_ok; [done|]; by apply Hmono; right|].
    intros r v (-> & ->). split_and!; [done|by apply Hmono; right|]. intros j Hj. apply Hmono. by left.
Qed.
End publish.

(** ** Draining the outbox of the in-memory store *)

(** The pending runs of an iteration: the oldest. *)
Record oldest_pending `{JsonValue} (limit : nat) (x : TriggerState) (batch : list TriggerRunRecord) : Prop := {
  op_pending run : run ∈ batch → t_trigger_runs x !! tr_trigger_run_id run = Some run ∧ is_pending run = true;
  op_distinct : NoDup (tr_trigger_run_id <$> batch);
  op_bounded : (length batch ≤ limit)%nat;
  op_oldest id run : t_trigger_runs x !! id = Some run → is_pending run = true → run ∉ batch →
    length batch = limit ∧ ∀ run', run' ∈ batch → tr_claimed_at run' ≤ tr_claimed_at run
}.

Lemma truncate_take {A} (n : nat) (l : list A) : truncate (Z.of_nat n) l = take n l.
Proof.
  unfold truncate. destruct (Z.leb_spec (Z.of_nat (length l)) (Z.of_nat n)); [by rewrite take_ge by lia|].
  by rewrite Nat2Z.id.
Qed.

#[export] Instance by_claim_total `{JsonValue} : Total (le_of by_claim).
Proof. intros a b. unfold le_of, by_claim. lia. Qed.
#[export] Instance by_claim_trans `{JsonValue} : Transitive (le_of by_claim).
Proof. intros a b d. unfold le_of, by_claim. lia. Qed.

Lemma pending_batch_spec `{J : JsonValue} `{HashOrder} `{Sha256} n (x : TriggerState) c :
  trigger_wf x → Z.of_nat (size (t_trigger_runs x)) ≤ u64_max →
  ∃ batch, pending_trigger_runs (Z.of_nat n) c x = (Ok batch, c, x) ∧ oldest_pending n x batch.
Proof.
  intros Hwf Hsize.
  set (all := sort_by by_claim_desc (bfilter (run_selected unlimited_runs) (map_iter (t_trigger_runs x)).*2)).
  assert (truncate u64_max all = all) as Hall.
  { apply truncate_all. unfold all. rewrite sort_by_length. unfold bfilter.
    pose proof (List.filter_length_le (run_selected unlimited_runs) (map_iter (t_trigger_runs x)).*2).
    rewrite length_fmap, length_map_iter in *. lia. }
  assert (∀ run, run ∈ all ↔ t_trigger_runs x !! tr_trigger_run_id run = Some run) as Hin.
  { intros run. unfold all. rewrite elem_of_sort_by, elem_of_bfilter, list_elem_of_fmap. split.
    - intros [_ ([k r] & -> & Hr%elem_of_map_iter)]. simpl. by rewrite (tw_runs _ Hwf _ _ Hr).
    - intros Hr. split; [done|]. exists (tr_trigger_run_id run, run). by rewrite elem_of_map_iter. }
  assert (NoDup (tr_trigger_run_id <$> all)) as Hnd.
  { unfold all. rewrite sort_by_perm. apply NoDup_fmap_bfilter.
    rewrite <-list_fmap_compose. erewrite list_fmap_ext; [apply NoDup_map_iter_fst|].
    intros i [k r] Hr%list_elem_of_lookup_2%elem_of_map_iter. simpl. by apply (tw_runs _ Hwf). }
  exists (take n (sort_by by_claim (bfilter is_pending all))). split.
  - unfold pending_trigger_runs. simpl. unfold default_get_pending_trigger_runs. simpl.
    unfold mem_get_trigger_runs. cbv [mbind M_bind gets mret M_ret]. simpl tq_limit. cbv iota beta zeta.
    fold all. by rewrite Hall, truncate_take.
  - set (l := sort_by by_claim (bfilter is_pending all)).
    assert (∀ run, run ∈ l ↔ t_trigger_runs x !! tr_trigger_run_id run = Some run ∧ is_pending run = true) as Hl.
    { intros run. unfold l. rewrite elem_of_sort_by, elem_of_bfilter, Hin. tauto. }
    assert (StronglySorted (le_of by_claim) l) as Hs.
    { apply Sorted_StronglySorted; [apply _|]. apply sort_by_sorted, _. }
    split.
    + intros run [i [Hr%list_elem_of_lookup_2 _]]%elem_of_take. by apply Hl.
    + eapply (sublist_NoDup _ (tr_trigger_run_id <$> l)); [|rewrite fmap_take; apply sublist_take]. unfold l. rewrite sort_by_perm. by apply NoDup_fmap_bfilter.
    + rewrite length_take. lia.
    + intros id run Hid Hp Hno. rewrite <-(take_drop n l) in Hs.
      assert (run ∈ drop n l) as Hd.
      { assert (run ∈ l) as Hr by (apply Hl; by rewrite (tw_runs _ Hwf _ _ Hid)).
        rewrite <-(take_drop n l), elem_of_app in Hr. tauto. }
      split.
      * rewrite length_take. destruct (decide (n ≤ length l)%nat); [lia|].
        rewrite drop_ge in Hd by lia. by apply elem_of_nil in Hd.
      * intros run' Hr'. apply Z.leb_le. by apply (StronglySorted_app_1_elem_of _ _ _ _ _ Hs Hr' Hd).
Qed.

Section drain.
Context {J : JsonValue} {HO : HashOrder} {CH : Chrono} {R : Rfc3339} {SH : Sha256} {U : Uuid} {CR : Croner}
  {SS : SerdeString}.
Context (delay : Z) (runner : RunnerId) (routes : gmap TaskId (string * f64)).

(** The in-memory backends with the trigger manager. *)
Definition trigger_ports : Ports (Runtime TriggerState) := mem_ports (Some manager_port) delay.
#[local] Existing Instance trigger_ports.

Definition valid_routes : Prop :=
  ∀ t q p, routes !! t = Some (q, p) → validate_routing q p = Ok tt.

(** The invocation a runner with these routes publishes for a run. *)
Definition publishable (run : TriggerRunRecord) : option InvocationId :=
  if bool_decide (is_Some (routes !! tr_task_id run)) then tr_planned_invocation_id run else None.

Abbreviation same_triggers x := (keeps (λ s : Runtime TriggerState, rt_triggers s = x)).

Lemma zoom_leaves_triggers {S A} (get : Runtime TriggerState → S) put (m : M RustvelloError S A) x :
  (∀ y s, rt_triggers (put y s) = rt_triggers s) → respects (same_triggers x) (zoom get put m).
Proof.
  intros Hput c s Hs. unfold state_after, zoom. destruct (m c (get s)) as [[r c'] y]. simpl. by rewrite Hput.
Qed.

(** Publishing does not look at the trigger store. *)
Lemma publish_leaves_triggers run id route (x : TriggerState) :
  respects (same_triggers x) (publish_trigger_run no_failpoints run id runner route None).
Proof.
  unfold publish_trigger_run, publish_stored, existing_status, record_history, boundary.
  solve_respects; by apply zoom_leaves_triggers.
Qed.

Lemma attach_events_run id l c (x : TriggerState) :
  ∃ x', for_each (λ event_id,
        event ← ts_get_event event_id;
        match event with
        | Some event =>
            if bool_decide (id ∈ er_triggered_invocation_ids event) then mret tt
            else ts_store_event (event_triggered id event)
        | None => mret tt
        end) l c x = (Ok tt, c, x') ∧ t_trigger_runs x' = t_trigger_runs x.
Proof.
  revert x. induction l as [|event_id l IH]; intros x; [by exists x|].
  simpl. unfold mbind at 1, M_bind at 1. simpl. unfold mbind at 1, M_bind at 1. simpl.
  destruct (t_events x !! event_id) as [event|]; [|apply IH].
  case_bool_decide; [apply IH|].
  destruct (IH (set_events <[er_event_id event := event_triggered id event]> x)) as (x' & Hrun & Hr). by exists x'.
Qed.

(** Completing a run of the store attaches the invocation to it, and to nothing
    else among the runs. *)
Lemma complete_run run id c (x : TriggerState) :
  t_trigger_runs x !! tr_trigger_run_id run = Some run →
  ∃ now c' x', complete_trigger_run (tr_trigger_run_id run) id c x = (Ok tt, c', x') ∧
    t_trigger_runs x' = <[tr_trigger_run_id run := run_completed id now run]> (t_trigger_runs x).
Proof.
  intros Hrun. unfold complete_trigger_run. unfold mbind at 1, M_bind at 1. simpl. rewrite Hrun.
  unfold mbind at 1, M_bind at 1. simpl. unfold mbind at 1, M_bind at 1. simpl.
  match goal with |- context [for_each ?f ?l ?c1 ?x1] =>
    destruct (attach_events_run id l c1 x1) as (x' & Hev & Hr) end.
  eexists _, _, x'. split; [exact Hev|]. rewrite Hr. done.
Qed.

(** What draining some runs leaves. *)
Record drained (l : list TriggerRunRecord) (s s' : Runtime TriggerState) : Prop := {
  dr_published run id : run ∈ l → publishable run = Some id →
    is_Some (status_records (rt_control s') !! id) ∧
    ∃ now, t_trigger_runs (rt_triggers s') !! tr_trigger_run_id run = Some (run_completed id now run);
  dr_others k : (∀ run, run ∈ l → tr_trigger_run_id run = k → publishable run = None) →
    t_trigger_runs (rt_triggers s') !! k = t_trigger_runs (rt_triggers s) !! k;
  dr_kept id : is_Some (status_records (rt_control s) !! id) → is_Some (status_records (rt_control s') !! id)
}.

Abbreviation drain := (drain_run no_failpoints (trigger_port_on manager_port) runner routes None).

Lemma drain_skipped run created c s :
  publishable run = None → drain created run c s = (Ok created, c, s).
Proof.
  unfold publishable, drain_run. case_bool_decide as Hr; [by intros ->|].
  destruct (tr_planned_invocation_id run); [|done].
  destruct (routes !! tr_task_id run); [|done]. destruct Hr. eauto.
Qed.

Lemma drain_published run id created c s :
  valid_routes → publishable run = Some id →
  t_trigger_runs (rt_triggers s) !! tr_trigger_run_id run = Some run →
  ∃ c' s' now, drain created run c s = (Ok (created ++ [id]), c', s') ∧
    is_Some (status_records (rt_control s') !! id) ∧
    (∀ j, is_Some (status_records (rt_control s) !! j) → is_Some (status_records (rt_control s') !! j)) ∧
    t_trigger_runs (rt_triggers s') =
      <[tr_trigger_run_id run := run_completed id now run]> (t_trigger_runs (rt_triggers s)).
Proof.
  unfold publishable, drain_run. intros Hv. case_bool_decide as Hr; [|done]. intros -> Hrun.
  destruct (routes !! tr_task_id run) as [[q p]|] eqn:Hroute; [|by destruct Hr].
  destruct (publish_ok runtime_view run id runner (mkRoute q p) c s (Hv _ _ _ Hroute))
    as (r & v & (c1 & s1 & Hpub & <-) & -> & Hid & Hmono).
  pose proof (publish_leaves_triggers run id (mkRoute q p) _ c s eq_refl) as Htr.
  unfold state_after in Htr. rewrite Hpub in Htr. simpl in Htr.
  destruct (complete_run run id c1 (rt_triggers s1)) as (now & c2 & x2 & Hcomp & Hr2); [by rewrite Htr|].
  exists c2, (put_triggers x2 s1), now. split_and!; [|done|done|by rewrite <-Htr].
  unfold mbind at 1, M_bind at 1. rewrite Hpub. unfold mbind at 1, M_bind at 1. simpl.
  unfold mbind at 1, M_bind at 1, on_triggers, zoom. rewrite Hcomp. done.
Qed.

Lemma drain_runs l created c s :
  valid_routes → NoDup (tr_trigger_run_id <$> l) →
  (∀ run, run ∈ l → t_trigger_runs (rt_triggers s) !! tr_trigger_run_id run = Some run) →
  ∃ c' s', for_fold drain created l c s = (Ok (created ++ omap publishable l), c', s') ∧ drained l s s'.
Proof.
  intros Hv. revert created c s. induction l as [|run l IH]; intros created c s Hnd Hin.
  { exists c, s. rewrite app_nil_r. split; [done|]. split; [by intros * ?%elem_of_nil|done|done]. }
  inversion Hnd as [|? ? Hfresh Hnd']; subst.
  assert (∀ run', run' ∈ l → tr_trigger_run_id run' ≠ tr_trigger_run_id run) as Hne.
  { intros run' Hr' Heq. apply Hfresh. rewrite <-Heq. by apply list_elem_of_fmap_2. }
  simpl. destruct (publishable run) as [id|] eqn:Hp.
  - destruct (drain_published run id created c s Hv Hp (Hin run ltac:(by left)))
      as (c1 & s1 & now & Hrun & Hid & Hmono & Hruns).
    destruct (IH (created ++ [id]) c1 s1 Hnd') as (c2 & s2 & Hfold & [Hpub Hoth Hkept]).
    { intros run' Hr'. rewrite Hruns, lookup_insert_ne by (symmetry; by apply Hne). apply Hin. by right. }
    exists c2, s2. split.
    { unfold mbind at 1, M_bind at 1. rewrite Hrun, Hfold, <-app_assoc. done. }
    split.
    + intros run' id' [->|Hr']%elem_of_cons Hp'; [|by apply Hpub]. simplify_eq.
      split; [by apply Hkept|]. exists now. rewrite Hoth, Hruns, lookup_insert_eq; [done|].
      intros run' Hr' Heq. by destruct (Hne run' Hr').
    + intros k Hk. rewrite Hoth by (intros run' Hr'; apply Hk; by right).
      rewrite Hruns, lookup_insert_ne; [done|]. intros Heq. rewrite (Hk run) in Hp; [done|by left|done].
    + intros j Hj. apply Hkept, Hmono, Hj.
  - destruct (IH created c s Hnd') as (c2 & s2 & Hfold & [Hpub Hoth Hkept]).
    { intros run' Hr'. apply Hin. by right. }
    exists c2, s2. split.
    { unfold mbind at 1, M_bind at 1. by rewrite drain_skipped. }
    split; [|intros k Hk; apply Hoth; intros run' Hr'; apply Hk; by right|done].
    intros run' id' [->|Hr']%elem_of_cons Hp'; [congruence|by apply Hpub].
Qed.

(** What the manager does first: cron schedules, then triggers. *)
Definition evaluation : M RustvelloError TriggerState (list TriggerExecution) :=
  evaluate_cron_conditions;; evaluate_trigger_runs.

Lemma iteration_run c s executions c1 x1 batch c2 :
  evaluation c (rt_triggers s) = (Ok executions, c1, x1) →
  pending_trigger_runs PENDING_TRIGGER_RUN_BATCH c1 x1 = (Ok batch, c2, x1) →
  trigger_loop_iteration no_failpoints runner routes c s =
    for_fold drain [] batch c2 (put_triggers x1 s).
Proof.
  intros Hev Hpend. unfold evaluation, mbind, M_bind in Hev.
  destruct (evaluate_cron_conditions c (rt_triggers s)) as [[[vcs|e|p] c0] x0] eqn:Hcron; [|done..].
  assert (∀ l c s, for_each (E := RustvelloError) (S := Runtime TriggerState) (λ e : TriggerExecution,
    boundary no_failpoints "trigger.claimed" (ex_run_id e)) l c s = (Ok tt, c, s)) as Hclaimed.
  { intros l. induction l as [|e l IH]; intros; [done|]. simpl. apply IH. }
  unfold trigger_loop_iteration.
  change tg_manager with (Some (trigger_port_on manager_port)). cbv iota.
  rewrite (bind_run _ _ _ _ None c s) by done.
  rewrite (bind_run _ _ _ _ tt c0 (put_triggers x0 s)).
  2: { simpl. unfold on_triggers, zoom, mbind, M_bind. by rewrite Hcron. }
  rewrite (bind_run _ _ _ _ executions c1 (put_triggers x1 s)).
  2: { simpl. unfold on_triggers, zoom. simpl. by rewrite Hev. }
  rewrite (bind_run _ _ _ _ tt c1 (put_triggers x1 s)) by apply Hclaimed.
  rewrite (bind_run _ _ _ _ batch c2 (put_triggers x1 s)); [done|].
  change (on_triggers (pending_trigger_runs PENDING_TRIGGER_RUN_BATCH) c1 (put_triggers x1 s) =
    (Ok batch, c2, put_triggers x1 s)).
  unfold on_triggers, zoom. change (rt_triggers (put_triggers x1 s)) with x1. by rewrite Hpend.
Qed.

(** C22: An iteration of the trigger loop on the in-memory backends, when every
    route is valid and no boundary fails: once the cron schedules and the triggers
    are evaluated, it takes the oldest pending runs, at most a thousand, and
    returns the planned invocations of exactly those among them whose task has a
    route, in order; each of these invocations exists afterwards and its run is
    complete with it; every other run, in particular one no route serves, is what
    the evaluation left, and no known invocation is forgotten. *)
Theorem iteration_drains_outbox c s executions c1 x1 :
  valid_routes → evaluation c (rt_triggers s) = (Ok executions, c1, x1) →
  trigger_wf x1 → Z.of_nat (size (t_trigger_runs x1)) ≤ u64_max →
  ∃ batch, oldest_pending 1000 x1 batch ∧
    let m := trigger_loop_iteration no_failpoints runner routes in
    result_of m c s = Ok (omap publishable batch) ∧
    drained batch (put_triggers x1 s) (state_after m c s).
Proof.
  intros Hv Hev Hwf Hsize.
  destruct (pending_batch_spec 1000 x1 c1 Hwf Hsize) as (batch & Hpend & Hb). exists batch. split; [done|].
  destruct (drain_runs batch [] c1 (put_triggers x1 s) Hv (op_distinct _ _ _ Hb)) as (c2 & s2 & Hrun & Hd).
  { intros run Hr. by apply (op_pending _ _ _ Hb). }
  unfold result_of, state_after. rewrite (iteration_run _ _ _ _ _ _ _ Hev Hpend), Hrun. done.
Qed.

(** The runs of an iteration come from the oldest thousand pending ones,
    whether or not this runner can publish them.  When none of a full batch has a
    route, an iteration creates nothing and leaves the outbox as the evaluation
    left it, so the newer runs wait, however many of them have a route; and when
    the publication of a run fails, the iteration fails with it: no later run of
    the batch is published. *)
Theorem unroutable_runs_hold_up_the_outbox c s executions c1 x1 batch :
  evaluation c (rt_triggers s) = (Ok executions, c1, x1) →
  pending_trigger_runs PENDING_TRIGGER_RUN_BATCH c1 x1 = (Ok batch, c1, x1) →
  let m := trigger_loop_iteration no_failpoints runner routes in
  ((∀ run, run ∈ batch → routes !! tr_task_id run = None) →
     result_of m c s = Ok [] ∧ state_after m c s = put_triggers x1 s) ∧
  (∀ run later id q p e c2 s2, batch = run :: later →
     tr_planned_invocation_id run = Some id → routes !! tr_task_id run = Some (q, p) →
     publish_trigger_run no_failpoints run id runner (mkRoute q p) None c1 (put_triggers x1 s) = (Err e, c2, s2) →
     result_of m c s = Err e ∧ state_after m c s = s2).
Proof.
  intros Hev Hpend m. unfold m, result_of, state_after. rewrite (iteration_run _ _ _ _ _ _ _ Hev Hpend). split.
  - intros Hno. assert (∀ l c s, (∀ run, run ∈ l → routes !! tr_task_id run = None) →
      for_fold drain [] l c s = (Ok [], c, s)) as Hskip; [|by rewrite Hskip].
    intros l. induction l as [|run l IH]; intros c0 s0 Hl; [done|]. simpl.
    rewrite (bind_run _ _ _ _ [] c0 s0); [apply IH; intros run' Hr; apply Hl; by right|].
    apply drain_skipped. unfold publishable. rewrite Hl by (by left). by rewrite bool_decide_false by (by intros [? ?]).
  - intros run later id q p e c2 s2 -> Hid Hroute Hpub.
    assert (drain [] run c1 (put_triggers x1 s) = (Err e, c2, s2)) as Hrun.
    { unfold drain_run. rewrite Hid, Hroute. unfold mbind, M_bind. by rewrite Hpub. }
    simpl. unfold mbind, M_bind. by rewrite Hrun.
Qed.
End drain.

(** ** Witnesses *)

(** A pending run of the demo task. *)
Definition demo_run : @TriggerRunRecord text_json :=
  fst (@planned_run text_json no_time name_uuid 7 "run_t1_v1" demo_trigger [demo_valid "v1"]).

(** Stops at one boundary. *)
Definition stops_at (at_ : string) : Failpoints :=
  λ name subject, if bool_decide (name = at_) then Err (EInternal name) else Ok tt.

Definition demo_attempts : list Failpoints :=
  [stops_at "trigger.fallback.registered"; stops_at "trigger.fallback.routed"; stops_at "trigger.fallback.stored"].

Lemma publication_is_exactly_once_witness :
  let m := @publish_attempts text_json _ demo_ports pad_digest json_quotes demo_run "p1" "w1"
             (mkRoute "default" 0) demo_attempts in
  result_of m demo_clock demo_runtime = Ok tt ∧
  @published text_json pad_digest json_quotes demo_run "p1" (runtime_view (state_after m demo_clock demo_runtime)).
Proof.
  intros m.
  destruct (@publication_is_exactly_once text_json _ demo_ports pad_digest json_quotes runtime_view demo_laws
    demo_run "p1" "w1" (mkRoute "default" 0) demo_attempts demo_clock demo_runtime) as [(Hr & Hp & _) _].
  - vm_compute. reflexivity.
  - vm_compute. reflexivity.
  - vm_compute. reflexivity.
  - by split.
Defined.

(** An outbox with one pending run, and no valid condition. *)
Definition demo_outbox : @TriggerState text_json :=
  state_after (mem_store_trigger_run demo_run) demo_clock trigger_store_new.

Definition demo_trigger_runtime : Runtime (@TriggerState text_json) :=
  put_control demo_registered (runtime_new demo_outbox).

Definition demo_routes : gmap TaskId (string * f64) := {[demo_task := ("default", 0)]}.

Definition demo_iteration (routes : gmap TaskId (string * f64)) :=
  @trigger_loop_iteration text_json _
    (@trigger_ports text_json identity_order chrono_in_seconds no_time pad_digest name_uuid every_minute 0)
    pad_digest json_quotes no_failpoints "w1" routes.

Lemma demo_evaluated :
  @evaluation text_json identity_order chrono_in_seconds no_time pad_digest name_uuid every_minute
    demo_clock demo_outbox = (Ok [], (clock_next demo_clock).2, demo_outbox).
Proof.
  vm_cast_no_check (eq_refl (Ok (E := RustvelloError) ([] : list (@TriggerExecution text_json)),
    (clock_next demo_clock).2, demo_outbox)).
Qed.

Lemma demo_outbox_wf : @trigger_wf text_json pad_digest demo_outbox.
Proof. exact (wf_store_run demo_run demo_clock trigger_store_new trigger_wf_new). Qed.

Lemma iteration_drains_outbox_witness :
  ∃ batch, @oldest_pending text_json 1000 demo_outbox batch ∧
    result_of (demo_iteration demo_routes) demo_clock demo_trigger_runtime = Ok (omap (publishable demo_routes) batch) ∧
    publishable demo_routes demo_run = Some "uuid-run_t1_v1".
Proof.
  destruct (@iteration_drains_outbox text_json identity_order chrono_in_seconds no_time pad_digest name_uuid
    every_minute json_quotes 0 "w1" demo_routes demo_clock demo_trigger_runtime [] (clock_next demo_clock).2 demo_outbox) as (batch & Hb & Hr & _).
  - intros t q p. unfold demo_routes. rewrite lookup_singleton_Some. intros [_ [= <- <-]]. vm_compute. reflexivity.
  - exact demo_evaluated.
  - exact demo_outbox_wf.
  - vm_compute. discriminate.
  - exists batch. split; [exact Hb|]. split; [exact Hr|vm_compute; reflexivity].
Defined.

Lemma unroutable_runs_hold_up_the_outbox_witness :
  result_of (demo_iteration ∅) demo_clock demo_trigger_runtime = Ok [].
Proof.
  refine (proj1 (proj1 (@unroutable_runs_hold_up_the_outbox text_json identity_order chrono_in_seconds no_time
    pad_digest name_uuid every_minute json_quotes 0 "w1" ∅ demo_clock demo_trigger_runtime [] (clock_next demo_clock).2 demo_outbox
    [demo_run] demo_evaluated _) _)).
  - vm_cast_no_check (eq_refl (Ok (E := RustvelloError) [demo_run], (clock_next demo_clock).2, demo_outbox)).
  - intros run _. reflexivity.
Defined.
