(* ===== verification/Dispatch.v ===== *)
(** * Dispatch and concurrency admission

    Models [rustvello/src/orchestration/dispatch.rs]: the claim of the next
    invocation by a runner - invocations others wait for first, then the broker's
    queues - and the admission of a candidate under its task's concurrency limit.
    The task registry is the code-level one: admission does not resolve overrides.
    The shuffled queue order of the [random] strategy is a parameter.

    The theorems: what admission does on every branch of the in-memory runtime,
    that a claimed invocation of a limited task holds one of the task's slots,
    that claims respect the runner's language, and that every selection strategy
    polls every configured queue exactly once. *)
From S2P Require Import Prelude Effects Json Identifiers Status Errors Config Call Invocation Trigger OrchestratorState MemOrchestrator MemOrchestratorFacts MemBroker MemStateBackend TaskCatalog Ports Orchestration Routing.

(** The permutation [SliceRandom::shuffle] applies on its [n]-th use. *)
Class Shuffle := {
  shuffle : nat → list string → list string;
  shuffle_perm n l : shuffle n l ≡ₚ l
}.

(** [Vec::rotate_left]. *)
Definition rotate_left {A} (n : nat) (l : list A) : list A := drop n l ++ take n l.

(* @src rustvello/src/orchestration/dispatch.rs 13-13 MAX_BLOCKING_CANDIDATES *)
Definition MAX_BLOCKING_CANDIDATES : nat := 8.
(* @src rustvello/src/orchestration/dispatch.rs 14-14 MAX_CC_RETRIES *)
Definition MAX_CC_RETRIES : nat := 8.

Section dispatch.
Context {J : JsonValue} {S : Type} {P : Ports S}.

(** A status write whose refusal by the transition table is ignored, with what
    follows an accepted write. *)
Definition unless_invalid {A} (m : M RustvelloError S A) (k : M RustvelloError S unit)
    : M RustvelloError S unit :=
  r ← attempt m;
  match r with
  | inl _ => k
  | inr (EInvalidStatusTransition _ _ _ _) => mret tt
  | inr e => throw e
  end.

(* @src rustvello/src/orchestration/dispatch.rs 213-231 queue_names_for_retrieval *)
Definition queue_names_for_retrieval `{Shuffle} (config : AppConfig) : M RustvelloError S (list string) :=
  let queues := match ac_runner_queues config with
                | [] => ac_broker_queues config
                | runner_queues => runner_queues
                end in
  match ac_queue_selection_strategy config with
  | Ordered => mret queues
  | RoundRobin =>
      if decide (queues = []) then mret queues
      else
        n ← next_queue_index;
        mret (rotate_left (Z.to_nat (n mod Z.of_nat (length queues))) queues)
  | Random =>
      n ← next_shuffle;
      mret (shuffle n queues)
  end.

(* @src rustvello/src/orchestration/dispatch.rs 79-94 Orchestrator::candidate_matches_language *)
Definition candidate_matches_language (id : InvocationId) (runner_language : TaskLanguage)
    : M RustvelloError S bool :=
  invocation ← attempt (sb_get_invocation id);
  mret (match invocation with
        | inl i => bool_decide (task_language (inv_task_id i) = runner_language)
        | inr _ => true
        end).

(** What happens to a candidate whose task is at its limit. *)
(* @src rustvello/src/orchestration/dispatch.rs 147-209 Orchestrator::admit_candidate *)
Definition turn_away (am : Ambient) (id : InvocationId) (task_id : TaskId) (config : TaskConfig)
    : M RustvelloError S bool :=
  (if tc_reroute_on_cc config then
     p ← publication;
     match p with
     | Some pub =>
         unless_invalid
           (pub_change pub id (rx_runner_id (get_or_create_runner_context am))
              (ChangeConcurrencyReroute (mkRoute (tc_queue config) (tc_priority config))) false)
           (mret tt)
     | None =>
         unless_invalid (ctl_set_invocation_status id ConcurrencyControlled None)
           (ctl_set_invocation_status id Rerouted None;;
            br_route_invocation_with_options id (Some task_id) (tc_queue config) (tc_priority config))
     end
   else
     unless_invalid (ctl_set_invocation_status id ConcurrencyControlledFinal None) (mret tt));;
  mret false.

(* @src rustvello/src/orchestration/dispatch.rs 96-210 Orchestrator::admit_candidate *)
Definition admit_candidate (am : Ambient) (registry : TaskRegistry) (id : InvocationId)
    : M RustvelloError S bool :=
  found ← attempt (sb_get_invocation id);
  match found with
  | inr _ => mret true
  | inl invocation =>
      match get_dyn registry (inv_task_id invocation) with
      | None => mret true
      | Some task =>
          let config := dt_config task in
          if decide (tc_concurrency_control config = Unlimited) then mret true
          else
            found_call ← attempt (sb_get_call (inv_call_id invocation));
            match found_call with
            | inr _ => mret true
            | inl call =>
                let cc_arguments := concurrency_arguments (tc_concurrency_control config)
                  (tc_key_arguments config) (cd_serialized_arguments call) in
                slot ← ctl_try_acquire_concurrency_slot id (inv_task_id invocation) config cc_arguments;
                if (slot : bool) then mret true
                else turn_away am id (inv_task_id invocation) config
            end
      end
  end.

(** The first blocking invocation of the runner's language that is admitted. *)
(* @src rustvello/src/orchestration/dispatch.rs 36-47 Orchestrator::claim_next *)
Fixpoint claim_blocking (am : Ambient) (registry : TaskRegistry) (runner_language : TaskLanguage)
    (blocking : list InvocationId) : M RustvelloError S (option InvocationId) :=
  match blocking with
  | [] => mret None
  | id :: rest =>
      matches ← candidate_matches_language id runner_language;
      if negb matches then claim_blocking am registry runner_language rest
      else
        admitted ← admit_candidate am registry id;
        if (admitted : bool) then mret (Some id)
        else claim_blocking am registry runner_language rest
  end.

(** The first entry the queues hold, polled in order. *)
(* @src rustvello/src/orchestration/dispatch.rs 56-66 Orchestrator::claim_next *)
Fixpoint poll_queues (runner_language : TaskLanguage) (queue_names : list string)
    : M RustvelloError S (option InvocationId) :=
  match queue_names with
  | [] => mret None
  | q :: rest =>
      found ← br_retrieve_invocation_for_language_from_queue runner_language q;
      match found with
      | Some id => mret (Some id)
      | None => poll_queues runner_language rest
      end
  end.

(* @src rustvello/src/orchestration/dispatch.rs 54-76 Orchestrator::claim_next *)
Fixpoint claim_queued `{Shuffle} (am : Ambient) (config : AppConfig) (registry : TaskRegistry)
    (runner_language : TaskLanguage) (retries : nat) : M RustvelloError S (option InvocationId) :=
  match retries with
  | O => mret None
  | Datatypes.S retries' =>
      queues ← queue_names_for_retrieval config;
      candidate ← poll_queues runner_language queues;
      match candidate with
      | None => mret None
      | Some id =>
          admitted ← admit_candidate am registry id;
          if (admitted : bool) then mret (Some id)
          else claim_queued am config registry runner_language retries'
      end
  end.

(* @src rustvello/src/orchestration/dispatch.rs 23-77 Orchestrator::claim_next *)
Definition claim_next `{Shuffle} (am : Ambient) (config : AppConfig) (registry : TaskRegistry)
    (runner_language : TaskLanguage) : M RustvelloError S (option InvocationId) :=
  blocking ← attempt (ctl_get_blocking_invocations MAX_BLOCKING_CANDIDATES);
  first ← (match blocking with
           | inl ids => claim_blocking am registry runner_language ids
           | inr _ => mret None
           end);
  match first with
  | Some id => mret (Some id)
  | None => claim_queued am config registry runner_language MAX_CC_RETRIES
  end.
End dispatch.

(** ** Specification of an admission *)

(** A candidate under a limit: the stored invocation, the code-level
    configuration of its task and its concurrency arguments. *)
Definition limited (v : RuntimeView) (registry : TaskRegistry) (id : InvocationId)
    : option (InvocationDTO * TaskConfig * option SerializedArguments) :=
  i ← v_invocations v !! id;
  task ← get_dyn registry (inv_task_id i);
  if decide (tc_concurrency_control (dt_config task) = Unlimited) then None
  else
    call ← v_calls v !! call_id_display (inv_call_id i);
    Some (i, dt_config task,
          concurrency_arguments (tc_concurrency_control (dt_config task))
            (tc_key_arguments (dt_config task)) (cd_serialized_arguments call)).

(** The status a turned away candidate is moved to. *)
Definition denied_status (config : TaskConfig) : InvocationStatus :=
  if tc_reroute_on_cc config then ConcurrencyControlled else ConcurrencyControlledFinal.

(** What turning a candidate away leaves: nothing when the transition table does
    not allow the move, the entry the broker delivered being lost; otherwise a
    final status, or a rerouted one and a new entry at the end of the queue. *)
Definition turned_away (id : InvocationId) (task_id : TaskId) (config : TaskConfig) (v : RuntimeView)
    (r : RustvelloResult bool) (v' : RuntimeView) : Prop :=
  match v_status v !! id with
  | None => r = Err (EInvocationNotFound id) ∧ v' = v
  | Some cur =>
      if negb (can_transition_to (rec_status cur) (denied_status config)) then r = Ok false ∧ v' = v
      else if decide (ownership_ok cur (denied_status config) None) then
        if tc_reroute_on_cc config then
          ∃ now, let v1 := set_v_status <[id := mkRecord Rerouted None now]> v in
          match validate_routing (tc_queue config) (tc_priority config) with
          | Ok _ => r = Ok false ∧
              v' = set_v_queue (λ l, l ++ [entry_now id (Some task_id) (tc_queue config) (tc_priority config)]) v1
          | Err e => r = Err e ∧ v' = v1
          | Panic _ => False
          end
        else ∃ now, r = Ok false ∧ v' = set_v_status <[id := mkRecord ConcurrencyControlledFinal None now]> v
      else v' = v ∧ ∃ e, r = Err e ∧ refusal id e
  end.

(** The concurrency statuses give up ownership and lead to Rerouted. *)
Lemma moved_denied now cur config :
  moved now cur (denied_status config) None = mkRecord (denied_status config) None now.
Proof. unfold moved, denied_status. by destruct (tc_reroute_on_cc config). Qed.

Lemma controlled_may_reroute now :
  may_transition (mkRecord ConcurrencyControlled None now) Rerouted None.
Proof. split; [by vm_compute|]. right. split; vm_compute; discriminate. Qed.

(** *** What a claim may change *)

(** Every queue entry names the task of the invocation it delivers. *)
Definition tagged (v : RuntimeView) : Prop :=
  ∀ e, e ∈ v_queue v → ∃ t, q_task_id e = Some t ∧
    ∀ i, v_invocations v !! q_invocation_id e = Some i → inv_task_id i = t.

(** The record a claim leaves: the old one, or, for an invocation that was not
    started, one of the two outcomes of being turned away. *)
Definition turned (old new : option InvocationStatusRecord) : Prop :=
  new = old ∨
  ∃ cur st now, old = Some cur ∧ rec_status cur ∈ [Registered; Rerouted] ∧
    new = Some (mkRecord st None now) ∧ st ∈ [Rerouted; ConcurrencyControlledFinal].

Record dispatched (v v' : RuntimeView) : Prop := {
  dp_retries : v_retries v' = v_retries v;
  dp_invocations : v_invocations v' = v_invocations v;
  dp_calls : v_calls v' = v_calls v;
  dp_results : v_results v' = v_results v;
  dp_errors : v_errors v' = v_errors v;
  dp_histories : v_histories v' = v_histories v;
  dp_status id : turned (v_status v !! id) (v_status v' !! id);
  dp_tagged : tagged v → tagged v'
}.

#[export] Instance dispatched_preorder : PreOrder dispatched.
Proof.
  split.
  - intros v. split; try done. by left.
  - intros v1 v2 v3 [] []. split; try congruence; [|by auto].
    intros id. destruct (dp_status0 id) as [H12|(cur & st & now & H1 & Hs & H2 & Hst)],
      (dp_status1 id) as [H23|(cur' & st' & now' & H2' & Hs' & H3 & Hst')].
    + left. congruence.
    + right. exists cur', st', now'. by rewrite <-H12.
    + right. exists cur, st, now. by rewrite H23.
    + right. by exists cur, st', now'.
Qed.

Lemma denied_from_waiting cur st : st ∈ [ConcurrencyControlled; ConcurrencyControlledFinal] →
  can_transition_to cur st = true → cur ∈ [Registered; Rerouted].
Proof.
  rewrite !elem_of_cons, elem_of_nil. intros [->|[->|[]]]; destruct cur; vm_compute; intros; auto;
    discriminate.
Qed.

Lemma turned_insert id st now (m : gmap InvocationId InvocationStatusRecord) cur id' :
  m !! id = Some cur → rec_status cur ∈ [Registered; Rerouted] →
  st ∈ [Rerouted; ConcurrencyControlledFinal] →
  turned (m !! id') (<[id := mkRecord st None now]> m !! id').
Proof.
  intros Hm Hc Hst. destruct (decide (id' = id)) as [->|Hne].
  - rewrite lookup_insert_eq. right. by exists cur, st, now.
  - left. by rewrite lookup_insert_ne.
Qed.

(** A rejected candidate is one dispatch change. *)
Lemma turned_away_dispatched id t cfg v r v' :
  turned_away id t cfg v r v' → (∀ i, v_invocations v !! id = Some i → inv_task_id i = t) →
  dispatched v v' ∧ is_panic r = false ∧ r ≠ Ok true.
Proof.
  intros Hta Ht. unfold turned_away in Hta. destruct (v_status v !! id) as [cur|] eqn:Hs.
  2: { by destruct Hta as [-> ->]. }
  destruct (can_transition_to (rec_status cur) (denied_status cfg)) eqn:Hc; simpl in Hta.
  2: { by destruct Hta as [-> ->]. }
  assert (rec_status cur ∈ [Registered; Rerouted]) as Hw.
  { eapply denied_from_waiting; [|exact Hc]. unfold denied_status.
    destruct (tc_reroute_on_cc cfg); set_solver. }
  case_decide; [|by destruct Hta as (-> & e & -> & _)].
  assert (∀ st now, st ∈ [Rerouted; ConcurrencyControlledFinal] →
    dispatched v (set_v_status <[id := mkRecord st None now]> v)) as Hd.
  { intros st now Hst. split; try done. intros id'. by eapply turned_insert. }
  destruct (tc_reroute_on_cc cfg).
  - destruct Hta as [now Hta]. specialize (Hd Rerouted now ltac:(set_solver)).
    destruct (validate_routing _ _) as [[]|e|m]; [| |done].
    + destruct Hta as [-> ->]. split_and!; try done. destruct Hd. split; try done.
      intros Htag e [He|He%list_elem_of_singleton]%elem_of_app; [by apply dp_tagged0|subst e].
      exists t. by split.
    + by destruct Hta as [-> ->].
  - destruct Hta as (now & -> & ->). split_and!; try done. apply Hd. set_solver.
Qed.

Section lemmas.
Context {J : JsonValue} {S : Type} {P : Ports S}.
Context (view : S → RuntimeView) {L : PortLaws P view}.

(** A status write, by its outcome. *)
Lemma status_write id st r c s v :
  view s = v →
  match v_status v !! id with
  | None => yields view (ctl_set_invocation_status id st r) c s (Err (EInvocationNotFound id)) v
  | Some cur =>
      if negb (can_transition_to (rec_status cur) st) then
        ∃ from to reason, yields view (ctl_set_invocation_status id st r) c s
          (Err (EInvalidStatusTransition id from to reason)) v
      else if decide (ownership_ok cur st r) then
        ∃ now, yields view (ctl_set_invocation_status id st r) c s (Ok (moved now cur st r))
          (set_v_status <[id := moved now cur st r]> v)
      else ∃ e, yields view (ctl_set_invocation_status id st r) c s (Err e) v ∧ refusal id e ∧
             match e with EInvalidStatusTransition _ _ _ _ => False | _ => True end
  end.
Proof.
  intros <-. pose proof (pl_set_status id st r c s) as Hset. cbv zeta in Hset.
  unfold status_change in Hset. destruct (v_status (view s) !! id) as [cur|]; [|done].
  destruct (can_transition_to (rec_status cur) st) eqn:Hc; simpl.
  - case_decide as Ho.
    + rewrite (proj2 (transition_Ok _ cur st r _) (conj (conj Hc Ho) eq_refl)) in Hset. eauto.
    + destruct (transition_not_owner (clock_next c).1 cur st r Hc Ho) as (e & He & _).
      rewrite He in Hset. eexists. split_and!; [exact Hset|done..].
  - rewrite transition_invalid in Hset by done. eauto.
Qed.

(** The outcome of a guarded status write with a continuation [k], whose
    outcomes after the new record are those of [Q]. *)
Lemma unless_invalid_outcome id st (k : M RustvelloError S unit) (Q : RustvelloResult unit → RuntimeView → Prop) c s v :
  view s = v →
  (∀ c1 s1 cur now, view s1 = set_v_status <[id := moved now cur st None]> v →
     ∃ r v', yields view k c1 s1 r v' ∧ Q r v') →
  ∃ r v', yields view (unless_invalid (ctl_set_invocation_status id st None) k) c s r v' ∧
    match v_status v !! id with
    | None => r = Err (EInvocationNotFound id) ∧ v' = v
    | Some cur =>
        if negb (can_transition_to (rec_status cur) st) then r = Ok tt ∧ v' = v
        else if decide (ownership_ok cur st None) then Q r v'
        else v' = v ∧ ∃ e, r = Err e ∧ refusal id e
    end.
Proof.
  intros Hv Hk. pose proof (status_write id st None c s v Hv) as Hw. unfold unless_invalid.
  destruct (v_status v !! id) as [cur|].
  2: { apply yields_attempt in Hw. ystep Hw c1 s1 Hv1 Hs. eexists _, _. split; [|done].
       by apply Hs, yields_throw. }
  destruct (negb _).
  { destruct Hw as (? & ? & ? & Hw). apply yields_attempt in Hw. ystep Hw c1 s1 Hv1 Hs.
    eexists _, _. split; [|done]. by apply Hs, yields_ret. }
  destruct (decide (ownership_ok cur st None)) as [Ho|Ho].
  - destruct Hw as [now Hw]. apply yields_attempt in Hw. ystep Hw c1 s1 Hv1 Hs.
    destruct (Hk c1 s1 cur now Hv1) as (r & v' & Hy & HQ). exists r, v'.
    split; [by apply Hs|exact HQ].
  - destruct Hw as (e & Hw & Href & Hne). apply yields_attempt in Hw. ystep Hw c1 s1 Hv1 Hs.
    eexists _, _. split; [apply Hs; destruct e; try done; by apply yields_throw|]. eauto.
Qed.

(** The reroute that follows an accepted ConcurrencyControlled. *)
Lemma reroute_controlled id t cfg v c s at_ :
  view s = set_v_status <[id := mkRecord ConcurrencyControlled None at_]> v →
  ∃ now r v', yields view
      (ctl_set_invocation_status id Rerouted None;;
       br_route_invocation_with_options id (Some t) (tc_queue cfg) (tc_priority cfg)) c s r v' ∧
    let v1 := set_v_status <[id := mkRecord Rerouted None now]> v in
    r = validate_routing (tc_queue cfg) (tc_priority cfg) ∧
    v' = on_success r (λ _, set_v_queue
           (λ l, l ++ [entry_now id (Some t) (tc_queue cfg) (tc_priority cfg)]) v1) v1.
Proof.
  intros Hv. pose proof (status_write id Rerouted None c s _ Hv) as Hw.
  cbn [v_status set_v_status] in Hw. rewrite lookup_insert_eq in Hw.
  destruct (controlled_may_reroute at_) as [Hc Ho]. rewrite Hc in Hw. cbn [negb] in Hw. rewrite decide_True in Hw by exact Ho.
  destruct Hw as [now Hw]. change (moved now _ Rerouted None) with (mkRecord Rerouted None now) in Hw.
  unfold set_v_status in Hw at 1. simpl in Hw. rewrite insert_insert_eq in Hw.
  ystep Hw c1 s1 Hv1 Hk1. exists now. eexists _, _. split; [|done]. apply Hk1.
  pose proof (pl_route id (Some t) (tc_queue cfg) (tc_priority cfg) c1 s1) as Hr. cbv zeta in Hr.
  rewrite Hv1 in Hr. exact Hr.
Qed.

Lemma yields_then_false (m : M RustvelloError S unit) c s r v :
  yields view m c s r v →
  yields view (m;; mret false) c s
    (match r with Ok _ => Ok false | Err e => Err e | Panic p => Panic p end) v.
Proof.
  intros Hm. destruct r as [[]|e|p].
  - ystep Hm c1 s1 Hv Hk. by apply Hk, yields_ret.
  - by apply yields_bind_Err.
  - by apply yields_bind_Panic.
Qed.

Lemma turn_away_yields am id t cfg c s :
  ∃ r v', yields view (turn_away am id t cfg) c s r v' ∧ turned_away id t cfg (view s) r v'.
Proof.
  unfold turn_away, turned_away, denied_status. destruct (tc_reroute_on_cc cfg).
  - set (k := (ctl_set_invocation_status id Rerouted None;;
      br_route_invocation_with_options id (Some t) (tc_queue cfg) (tc_priority cfg))).
    destruct (unless_invalid_outcome id ConcurrencyControlled k
      (λ r v', ∃ now, let v1 := set_v_status <[id := mkRecord Rerouted None now]> (view s) in
         r = validate_routing (tc_queue cfg) (tc_priority cfg) ∧
         v' = on_success r (λ _, set_v_queue
                (λ l, l ++ [entry_now id (Some t) (tc_queue cfg) (tc_priority cfg)]) v1) v1)
      c s (view s) eq_refl) as (r & v' & Hy & Ho).
    { intros c1 s1 cur now Hv1. destruct (reroute_controlled id t cfg (view s) c1 s1 now Hv1)
        as (now' & r & v' & Hy & Hr & Hv'). exists r, v'. split; [done|]. by exists now'. }
    eexists _, v'. split; [apply yields_then_false; by apply (yields_publication view)|].
    destruct (v_status (view s) !! id) as [cur|]; [|by destruct Ho as [-> ->]].
    destruct (negb _); [by destruct Ho as [-> ->]|]. case_decide.
    + destruct Ho as (now & -> & ->). exists now.
      by destruct (validate_routing_cases (tc_queue cfg) (tc_priority cfg)) as [(-> & _)|(m & -> & _)].
    + destruct Ho as (-> & e & -> & He). eauto.
  - destruct (unless_invalid_outcome id ConcurrencyControlledFinal (mret tt)
      (λ r v', ∃ now, r = Ok tt ∧
         v' = set_v_status <[id := mkRecord ConcurrencyControlledFinal None now]> (view s))
      c s (view s) eq_refl) as (r & v' & Hy & Ho).
    { intros c1 s1 cur now Hv1. eexists _, _. split; [by apply yields_ret|]. exists now.
      split; [done|]. reflexivity. }
    eexists _, v'. split; [by apply yields_then_false|].
    destruct (v_status (view s) !! id) as [cur|]; [|by destruct Ho as [-> ->]].
    destruct (negb _); [by destruct Ho as [-> ->]|]. case_decide.
    + destruct Ho as (now & -> & ->). by exists now.
    + destruct Ho as (-> & e & -> & He). eauto.
Qed.

(** An admission, with the slot decision left open. *)
Lemma admit_yields am registry id c s :
  ∃ r v', yields view (admit_candidate am registry id) c s r v' ∧
    (r = Ok true ∧ v' = view s ∨
     ∃ i cfg args, limited (view s) registry id = Some (i, cfg, args) ∧
       turned_away id (inv_task_id i) cfg (view s) r v').
Proof.
  unfold admit_candidate, limited. pose proof (attempt_get_invocation view id c s) as Hi.
  ystep Hi c1 s1 Hv1 Hk1. destruct (v_invocations (view s) !! id) as [i|]; simpl.
  2: { eexists _, _. split; [by apply Hk1, yields_ret|by left]. }
  destruct (get_dyn registry (inv_task_id i)) as [task|] eqn:Ht; simpl.
  2: { eexists _, _. split; [apply Hk1; rewrite Ht; by apply yields_ret|by left]. }
  destruct (decide (tc_concurrency_control (dt_config task) = Unlimited)) as [Hu|Hu].
  { eexists _, _. split; [apply Hk1; rewrite Ht, decide_True by done; by apply yields_ret|by left]. }
  destruct (pl_get_call (inv_call_id i) c1 s1) as [e He]. rewrite Hv1 in He. apply yields_attempt in He.
  set (args := concurrency_arguments (tc_concurrency_control (dt_config task)) (tc_key_arguments (dt_config task))).
  destruct (v_calls (view s) !! call_id_display (inv_call_id i)) as [call|]; simpl in *; ystep He c2 s2 Hv2 Hk2.
  2: { eexists _, _. split; [|by left]. apply Hk1. rewrite Ht, decide_False by done.
       by apply Hk2, yields_ret. }
  destruct (pl_acquire id (inv_task_id i) (dt_config task) (args (cd_serialized_arguments call)) c2 s2)
    as [b Hb].
  ystep Hb c3 s3 Hv3 Hk3. destruct b.
  - exists (Ok true), (view s). split; [|by left]. apply Hk1. rewrite Ht, decide_False by done.
    apply Hk2, Hk3, yields_ret. by rewrite Hv3.
  - destruct (turn_away_yields am id (inv_task_id i) (dt_config task) c3 s3) as (r & v' & Hy & Htw).
    rewrite Hv3, Hv2 in Htw. exists r, v'. split; [|right; by eexists _, _, _].
    apply Hk1. rewrite Ht, decide_False by done. by apply Hk2, Hk3.
Qed.
(** *** Claims *)

Definition retrieval_queues (config : AppConfig) : list string :=
  match ac_runner_queues config with [] => ac_broker_queues config | queues => queues end.

Lemma queue_names_yields `{Shuffle} cfg c s :
  ∃ l, yields view (queue_names_for_retrieval cfg) c s (Ok l) (view s) ∧ l ≡ₚ retrieval_queues cfg.
Proof.
  unfold queue_names_for_retrieval. fold (retrieval_queues cfg).
  destruct (ac_queue_selection_strategy cfg).
  - case_decide as He; [eexists; split; [by apply yields_ret|done]|].
    destruct (pl_next_index c s) as [n Hn]. ystep Hn c1 s1 Hv1 Hk1.
    eexists. split; [by apply Hk1, yields_ret|]. unfold rotate_left.
    rewrite (Permutation_app_comm (drop _ _)). by rewrite take_drop.
  - eexists. by split; [apply yields_ret|].
  - destruct (pl_next_shuffle c s) as [n Hn]. ystep Hn c1 s1 Hv1 Hk1.
    eexists. split; [by apply Hk1, yields_ret|]. apply shuffle_perm.
Qed.

(** What polling leaves: nothing delivered and nothing changed, or one entry of
    one of the queues, of the language asked for. *)
Definition polled (lang : TaskLanguage) (names : list string) (v : RuntimeView)
    (r : RustvelloResult (option InvocationId)) (v' : RuntimeView) : Prop :=
  match r with
  | Ok (Some id) => ∃ e rest, v' = set_v_queue (λ _, rest) v ∧ v_queue v ≡ₚ e :: rest ∧
      q_invocation_id e = id ∧ q_queue_name e ∈ names ∧
      default Rust (task_language <$> q_task_id e) = lang
  | Ok None => v' = v
  | Err _ => v' = v ∧ ∃ q, q ∈ names ∧ valid_queue_name q = false
  | Panic _ => False
  end.

Lemma set_queue_same v : set_v_queue (λ _, v_queue v) v = v.
Proof. by destruct v. Qed.

Lemma matches_language_spec q lang now e :
  matches_language q lang now e = true →
  q_queue_name e = q ∧ default Rust (task_language <$> q_task_id e) = lang.
Proof.
  unfold matches_language. case_bool_decide; simpl; [|done]. destruct (is_due _ _); simpl; [|done].
  destruct (q_task_id e); intros ?%bool_decide_eq_true; by subst.
Qed.

Lemma poll_yields lang names c s :
  ∃ r v', yields view (poll_queues lang names) c s r v' ∧ polled lang names (view s) r v'.
Proof.
  revert c s. induction names as [|q names IH]; intros c s; simpl.
  { eexists _, _. split; [by apply yields_ret|done]. }
  destruct (valid_queue_name q) eqn:Hq.
  2: { destruct (pl_retrieve_invalid lang q None c s Hq) as [[e He] _].
       eexists (Err e), _. split; [by apply yields_bind_Err|]. split; [done|].
       exists q. split; [by left|done]. }
  pose proof (pl_retrieve_language lang q c s Hq) as Hr. cbv zeta in Hr.
  pose proof (retrieve_best_spec (matches_language q lang (clock_next c).1) (v_queue (view s))) as Hb.
  destruct (retrieve_best _ _) as [[id|] rest]; simpl in Hr; ystep Hr c1 s1 Hv1 Hk1.
  - exists (Ok (Some id)), (set_v_queue (λ _, rest) (view s)).
    split; [by apply Hk1, yields_ret|]. destruct Hb as (e & He & Hb). exists e, rest.
    pose proof (best_perm _ _ _ _ Hb) as Hperm.
    destruct Hb as (older & newer & _ & _ & [Hn Hl]%matches_language_spec & _).
    split_and!; [done..|set_solver|done].
  - destruct Hb as [-> _]. rewrite set_queue_same in Hv1.
    destruct (IH c1 s1) as (r & v' & Hy & Hp). exists r, v'. split; [by apply Hk1|].
    rewrite Hv1 in Hp. destruct r as [[id|]| |]; try done.
    2: { destruct Hp as (-> & q' & ? & ?). split; [done|]. exists q'. split; [by right|done]. }
    destruct Hp as (e & rest' & ? & ? & ? & ? & ?). exists e, rest'. split_and!; try done. set_solver.
Qed.

Lemma polled_dispatched lang names v r v' : polled lang names v r v' → dispatched v v'.
Proof.
  destruct r as [[id|]| |]; simpl; [|by intros ->|by intros [-> _]|done].
  intros (e & rest & -> & Hperm & _). split; try done; [by left|].
  intros Htag e' He'. apply Htag. simpl in *. rewrite Hperm. by right.
Qed.

(** The language of a claimed invocation. *)
Definition claimed_for (lang : TaskLanguage) (v : RuntimeView)
    (r : RustvelloResult (option InvocationId)) : Prop :=
  match r with
  | Ok (Some id) => tagged v →
      ∀ i, v_invocations v !! id = Some i → task_language (inv_task_id i) = lang
  | Panic _ => False
  | _ => True
  end.

Lemma claimed_for_back lang v v' r : dispatched v v' → claimed_for lang v' r → claimed_for lang v r.
Proof.
  intros Hd. destruct r as [[id|]| |]; simpl; try done. intros Hc Htag i. rewrite <-(dp_invocations _ _ Hd).
  apply Hc. by apply (dp_tagged _ _ Hd).
Qed.

Lemma limited_task v registry id i cfg args i' :
  limited v registry id = Some (i, cfg, args) → v_invocations v !! id = Some i' →
  inv_task_id i' = inv_task_id i.
Proof.
  intros Hl Hi'. unfold limited in Hl. rewrite Hi' in Hl. simpl in Hl.
  destruct (get_dyn registry (inv_task_id i')); [|done]. simpl in Hl. case_decide; [done|].
  destruct (v_calls _ !! _); [|done]. by simplify_eq/=.
Qed.

Lemma admit_dispatched am registry id c s :
  ∃ r v', yields view (admit_candidate am registry id) c s r v' ∧ dispatched (view s) v' ∧
    is_panic r = false.
Proof.
  destruct (admit_yields am registry id c s) as (r & v' & Hy & [[-> ->]|(i & cfg & args & Hl & Ht)]).
  - eexists _, _. split; [exact Hy|]. done.
  - exists r, v'. split; [done|]. apply turned_away_dispatched in Ht as (? & ? & _); [done|].
    intros i' Hi'. by eapply limited_task.
Qed.
Lemma claim_blocking_yields am registry lang ids c s :
  ∃ r v', yields view (claim_blocking am registry lang ids) c s r v' ∧ dispatched (view s) v' ∧
    claimed_for lang (view s) r.
Proof.
  revert c s. induction ids as [|id ids IH]; intros c s; simpl.
  { eexists _, _. split; [by apply yields_ret|done]. }
  pose proof (attempt_get_invocation view id c s) as Hi.
  set (b := match v_invocations (view s) !! id with
            | Some i => bool_decide (task_language (inv_task_id i) = lang) | None => true end).
  assert (yields view (candidate_matches_language id lang) c s (Ok b) (view s)) as Hm.
  { ystep Hi c1 s1 Hv1 Hk1. apply Hk1. unfold b. destruct (v_invocations _ !! id); by apply yields_ret. }
  ystep Hm c1 s1 Hv1 Hk1. destruct b eqn:Hb.
  2: { destruct (IH c1 s1) as (r & v' & Hy & Hd & Hc). rewrite Hv1 in Hd, Hc.
       exists r, v'. split; [by apply Hk1|done]. }
  destruct (admit_dispatched am registry id c1 s1) as (r & v1 & Ha & Hd & Hp). rewrite Hv1 in Hd.
  destruct r as [[]|e|m]; [| | |done].
  - ystep Ha c2 s2 Hv2 Hk2. exists (Ok (Some id)), v1. split; [by apply Hk1, Hk2, yields_ret|].
    split; [done|]. intros _ i Hi'. unfold b in Hb. rewrite Hi' in Hb. by apply bool_decide_eq_true in Hb.
  - ystep Ha c2 s2 Hv2 Hk2. destruct (IH c2 s2) as (r & v' & Hy & Hd2 & Hc). rewrite Hv2 in Hd2, Hc.
    exists r, v'. split; [by apply Hk1, Hk2|]. split; [by etrans|]. by eapply claimed_for_back.
  - exists (Err e), v1. split; [by apply Hk1, yields_bind_Err|done].
Qed.

Lemma claim_queued_yields `{Shuffle} am cfg registry lang n c s :
  ∃ r v', yields view (claim_queued am cfg registry lang n) c s r v' ∧ dispatched (view s) v' ∧
    claimed_for lang (view s) r.
Proof.
  revert c s. induction n as [|n IH]; intros c s; simpl.
  { eexists _, _. split; [by apply yields_ret|done]. }
  destruct (queue_names_yields cfg c s) as (names & Hn & _). ystep Hn c1 s1 Hv1 Hk1.
  destruct (poll_yields lang names c1 s1) as (r & v1 & Hpoll & Hp). rewrite Hv1 in Hp.
  pose proof (polled_dispatched _ _ _ _ _ Hp) as Hd1.
  destruct r as [[id|]|e|m]; [| | |done].
  - ystep Hpoll c2 s2 Hv2 Hk2.
    destruct (admit_dispatched am registry id c2 s2) as (r & v2 & Ha & Hd2 & Hpan). rewrite Hv2 in Hd2.
    destruct r as [[]|e|m]; [| | |done].
    + ystep Ha c3 s3 Hv3 Hk3. exists (Ok (Some id)), v2.
      split; [by apply Hk1, Hk2, Hk3, yields_ret|]. split; [by etrans|].
      destruct Hp as (e & rest & _ & Hperm & <- & _ & Hl). intros Htag i Hi.
      destruct (Htag e) as (t & Ht & Hsame); [rewrite Hperm; by left|].
      rewrite (Hsame i Hi). by rewrite Ht in Hl.
    + ystep Ha c3 s3 Hv3 Hk3. destruct (IH c3 s3) as (r & v' & Hy & Hd3 & Hc). rewrite Hv3 in Hd3, Hc.
      exists r, v'. split; [by apply Hk1, Hk2, Hk3|]. assert (dispatched (view s) v2) by by etrans.
      split; [by etrans|]. by eapply claimed_for_back.
    + exists (Err e), v2. split; [by apply Hk1, Hk2, yields_bind_Err|]. split; [by etrans|done].
  - ystep Hpoll c2 s2 Hv2 Hk2. exists (Ok None), v1. split; [by apply Hk1, Hk2, yields_ret|done].
  - exists (Err e), v1. split; [by apply Hk1, yields_bind_Err|done].
Qed.

(** A claim changes nothing but the broker's queue and the status of
    invocations that were waiting to start and were turned away by their
    concurrency limit (Rerouted or, without rerouting, finally rejected): no
    invocation, call, result, error, history or retry count changes, whatever the
    claim's result.  It never panics, and, if the queue's entries name the task
    of the invocation they deliver (which a claim preserves), the invocation it
    returns is of the runner's language. *)
Theorem claim_behaviour `{Shuffle} am cfg registry lang c s :
  let m := claim_next am cfg registry lang in
  dispatched (view s) (view (state_after m c s)) ∧
  match result_of m c s with
  | Ok (Some id) => tagged (view s) →
      ∀ i, v_invocations (view s) !! id = Some i → task_language (inv_task_id i) = lang
  | Panic _ => False
  | _ => True
  end.
Proof.
  intros m. enough (∃ r v', yields view m c s r v' ∧ dispatched (view s) v' ∧
    claimed_for lang (view s) r) as (r & v' & Hy & ? & ?) by
    (by destruct (yields_result _ _ _ _ _ _ Hy) as [-> ->]).
  unfold m, claim_next. destruct (pl_blocking MAX_BLOCKING_CANDIDATES c s) as [ids Hb].
  apply yields_attempt in Hb. ystep Hb c1 s1 Hv1 Hk1.
  destruct (claim_blocking_yields am registry lang ids c1 s1) as (r & v1 & Hcb & Hd & Hc).
  rewrite Hv1 in Hd, Hc. destruct r as [[id|]|e|p]; [| | |done].
  - ystep Hcb c2 s2 Hv2 Hk2. exists (Ok (Some id)), v1. split; [by apply Hk1, Hk2, yields_ret|done].
  - ystep Hcb c2 s2 Hv2 Hk2.
    destruct (claim_queued_yields am cfg registry lang MAX_CC_RETRIES c2 s2) as (r & v' & Hy & Hd2 & Hc2).
    rewrite Hv2 in Hd2, Hc2. exists r, v'. split; [by apply Hk1, Hk2|]. split; [by etrans|].
    by eapply claimed_for_back.
  - exists (Err e), v1. split; [by apply Hk1, yields_bind_Err|done].
Qed.
End lemmas.

(** A claim ends with the admission of the invocation it returns. *)
Section decompose.
Context {J : JsonValue} {S : Type} {P : Ports S} `{Shuffle}.

Lemma claim_queued_unfold am cfg registry lang n c s :
  claim_queued am cfg registry lang (Datatypes.S n) c s =
  ((queues ← queue_names_for_retrieval cfg; poll_queues lang queues) ≫= λ candidate,
    match candidate with
    | None => mret None
    | Some id =>
        admitted ← admit_candidate am registry id;
        if (admitted : bool) then mret (Some id) else claim_queued am cfg registry lang n
    end) c s.
Proof. apply bind_assoc_run. Qed.

Lemma claim_blocking_admits am registry lang ids c s id c' s' :
  claim_blocking am registry lang ids c s = (Ok (Some id), c', s') →
  ∃ c1 s1, admit_candidate am registry id c1 s1 = (Ok true, c', s').
Proof.
  revert c s. induction ids as [|x ids IH]; intros c s; simpl; [done|].
  intros (b & c1 & s1 & _ & Hr)%bind_Ok_run. destruct b; simpl in Hr; [|by eapply IH].
  apply bind_Ok_run in Hr as (b & c2 & s2 & Ha & Hr). destruct b; [|by eapply IH].
  unfold mret, M_ret in Hr. simplify_eq. eauto.
Qed.

Lemma claim_queued_admits am cfg registry lang n c s id c' s' :
  claim_queued am cfg registry lang n c s = (Ok (Some id), c', s') →
  ∃ c1 s1, admit_candidate am registry id c1 s1 = (Ok true, c', s').
Proof.
  revert c s. induction n as [|n IH]; intros c s; simpl; [done|].
  intros (names & c1 & s1 & _ & Hr)%bind_Ok_run.
  apply bind_Ok_run in Hr as (o & c2 & s2 & _ & Hr). destruct o as [x|]; [|done].
  apply bind_Ok_run in Hr as (b & c3 & s3 & Ha & Hr). destruct b; [|by eapply IH].
  unfold mret, M_ret in Hr. simplify_eq. eauto.
Qed.

Lemma claim_admits am cfg registry lang c s id c' s' :
  claim_next am cfg registry lang c s = (Ok (Some id), c', s') →
  ∃ c1 s1, admit_candidate am registry id c1 s1 = (Ok true, c', s').
Proof.
  intros (b & c1 & s1 & _ & Hr)%bind_Ok_run. apply bind_Ok_run in Hr as (o & c2 & s2 & Hb & Hr).
  destruct o as [x|]; [|by eapply claim_queued_admits].
  unfold mret, M_ret in Hr. simplify_eq. destruct b; [|done]. by eapply claim_blocking_admits.
Qed.
End decompose.

(** ** Admission on the in-memory runtime *)

Section mem.
Context {J : JsonValue} {HO : HashOrder} {CH : Chrono} {T : Type}.
Context (tm : option (TriggerPort T)) (delay : Z).
Implicit Types (s : Runtime T).
#[local] Existing Instance mem_ports.

(** The other invocations that hold a slot for the same arguments. *)
Definition other_holders s (id : InvocationId) (t : TaskId) (args : option SerializedArguments) : nat :=
  size (slot_holders (rt_control s) (task_id_display t)
          (cc_arg_pairs (default arguments_new args)) ∖ {[id]}).

(** [id] holds a slot, and the task's limit is respected. *)
Definition holds_slot s (id : InvocationId) (t : TaskId) (cfg : TaskConfig)
    (args : option SerializedArguments) : Prop :=
  id ∈ slot_holders (rt_control s) (task_id_display t) (cc_arg_pairs (default arguments_new args)) ∧
  Z.of_nat (other_holders s id t args) < concurrency_limit cfg.

Lemma on_state_read {A} (m : M RustvelloError BackendState A) c s r :
  m c (rt_state s) = (r, c, rt_state s) → on_state m c s = (r, c, s).
Proof. intros Hm. unfold on_state, zoom. rewrite Hm. by destruct s. Qed.

(** An admission, as an equation. *)
Lemma admit_run am registry id c s :
  admit_candidate (P := mem_ports tm delay) am registry id c s =
  match limited (runtime_view s) registry id with
  | None => (Ok true, c, s)
  | Some (i, cfg, args) =>
      if concurrency_limit cfg <=? Z.of_nat (other_holders s id (inv_task_id i) args)
      then turn_away (P := mem_ports tm delay) am id (inv_task_id i) cfg c s
      else (Ok true, c,
            put_control (index_triples id (triples_of (task_id_display (inv_task_id i))
              (cc_arg_pairs (default arguments_new args))) (rt_control s)) s)
  end.
Proof.
  unfold admit_candidate, limited. simpl. unfold mbind at 1, M_bind at 1, attempt at 1.
  rewrite (on_state_read (mem_get_invocation id) c s
    (ok_or (b_invocations (rt_state s) !! id) (EInvocationNotFound id))) by done.
  destruct (b_invocations (rt_state s) !! id) as [i|]; simpl; [|done].
  destruct (get_dyn registry (inv_task_id i)) as [task|]; simpl; [|done].
  destruct (decide (tc_concurrency_control (dt_config task) = Unlimited)) as [Hu|Hu]; [done|].
  unfold mbind at 1, M_bind at 1, attempt at 1.
  rewrite (on_state_read (mem_get_call (inv_call_id i)) c s _ eq_refl).
  destruct (b_calls (rt_state s) !! call_id_display (inv_call_id i)) as [call|]; simpl; [|done].
  set (args := concurrency_arguments _ _ _). unfold mbind at 1, M_bind at 1, on_control at 1, zoom at 1.
  rewrite try_acquire_cases by done. cbv zeta. fold (other_holders s id (inv_task_id i) args).
  destruct (concurrency_limit _ <=? _); [|done]. by destruct s.
Qed.
Lemma holds_after_index id t cfg args s :
  Z.of_nat (other_holders s id t args) < concurrency_limit cfg →
  holds_slot (put_control (index_triples id (triples_of (task_id_display t)
    (cc_arg_pairs (default arguments_new args))) (rt_control s)) s) id t cfg args.
Proof.
  intros Hfree. unfold holds_slot, other_holders. simpl.
  rewrite !slot_holders_index by apply cc_arg_pairs_nonempty. split; [set_solver|].
  unfold other_holders in Hfree.
  match goal with |- Z.of_nat (size ?X) < _ => replace X with
    (slot_holders (rt_control s) (task_id_display t) (cc_arg_pairs (default arguments_new args)) ∖ {[id]})
    by set_solver end. done.
Qed.

(** C14: The admission of a candidate under the limit of its task, on every branch, on
    the in-memory backends.  It is let through, with nothing changed, when it is not
    under a limit (an unknown invocation, task or call, or an unlimited task).
    Otherwise it is let through exactly when fewer other invocations than the limit
    hold a slot for its arguments, and then it holds one itself.  If not, it is turned
    away: moved to Rerouted and queued again at the end, or, without rerouting, finally
    rejected; when the transition table does not allow the move it is left as it is,
    without the entry the broker delivered, and a refusal for ownership or an invalid
    route is an error. *)
Theorem admission_behaviour am registry id c s :
  let r := result_of (admit_candidate (P := mem_ports tm delay) am registry id) c s in
  let s' := state_after (admit_candidate (P := mem_ports tm delay) am registry id) c s in
  match limited (runtime_view s) registry id with
  | None => r = Ok true ∧ s' = s
  | Some (i, cfg, args) =>
      if concurrency_limit cfg <=? Z.of_nat (other_holders s id (inv_task_id i) args)
      then turned_away id (inv_task_id i) cfg (runtime_view s) r (runtime_view s')
      else r = Ok true ∧ runtime_view s' = runtime_view s ∧
           holds_slot s' id (inv_task_id i) cfg args
  end.
Proof.
  unfold result_of, state_after. rewrite admit_run.
  destruct (limited _ _ _) as [[[i cfg] args]|]; [|done].
  destruct (Z.leb_spec (concurrency_limit cfg) (Z.of_nat (other_holders s id (inv_task_id i) args)))
    as [Hfull|Hfree].
  - destruct (turn_away_yields (P := mem_ports tm delay) runtime_view am id (inv_task_id i) cfg c s)
      as (r & v' & (c' & s' & -> & <-) & Ht). exact Ht.
  - simpl. split_and!; [done|done|]. apply holds_after_index. done.
Qed.

(** C15: A claimed invocation of a limited task holds one of the task's slots, and
    no more invocations than the limit do, in the state the claim leaves. *)
Theorem claimed_invocation_holds_slot `{Shuffle} am config registry lang c s id c' s' i cfg args :
  claim_next (P := mem_ports tm delay) am config registry lang c s = (Ok (Some id), c', s') →
  limited (runtime_view s') registry id = Some (i, cfg, args) →
  holds_slot s' id (inv_task_id i) cfg args.
Proof.
  intros (c1 & s1 & Ha)%claim_admits Hl. rewrite admit_run in Ha.
  destruct (limited (runtime_view s1) registry id) as [[[i1 cfg1] args1]|] eqn:Hl1; [|by simplify_eq].
  destruct (Z.leb_spec (concurrency_limit cfg1) (Z.of_nat (other_holders s1 id (inv_task_id i1) args1)))
    as [Hfull|Hfree].
  - destruct (turn_away_yields (P := mem_ports tm delay) runtime_view am id (inv_task_id i1) cfg1 c1 s1)
      as (r & v' & (c2 & s2 & Hr & _) & Ht). rewrite Ha in Hr. simplify_eq.
    apply turned_away_dispatched in Ht as (_ & _ & Hne); [done|].
    intros i' Hi'. by apply (limited_task _ _ _ _ _ _ _ Hl1).
  - simplify_eq. unfold limited in Hl, Hl1. simpl in Hl, Hl1. rewrite Hl1 in Hl. simplify_eq.
    by apply holds_after_index.
Qed.
(** Choosing and polling queues leaves control and state backend alone. *)
Definition same_backends s s' : Prop := rt_control s' = rt_control s ∧ rt_state s' = rt_state s.

#[local] Instance same_backends_preorder : PreOrder same_backends.
Proof. split; unfold same_backends; repeat intro; intuition congruence. Qed.

Lemma polling_keeps_backends `{Shuffle} config lang :
  respects same_backends (queues ← queue_names_for_retrieval (P := mem_ports tm delay) config;
                          poll_queues (P := mem_ports tm delay) lang queues).
Proof.
  assert (∀ l, respects same_backends (poll_queues (P := mem_ports tm delay) lang l)) as Hp.
  { induction l as [|q l IH]; [by apply respects_ret; apply _|]. simpl.
    apply respects_bind; [apply _| |intros []; [by apply respects_ret; apply _|done]].
    intros c s. unfold state_after, on_broker, zoom.
    by destruct (mem_retrieve_invocation_for_language_from_queue _ _ _ _) as [[? ?] ?]. }
  apply respects_bind; [apply _| |done]. unfold queue_names_for_retrieval.
  destruct (ac_queue_selection_strategy config).
  - case_decide; [by apply respects_ret; apply _|].
    apply respects_bind; [apply _|by intros c s|intros; apply respects_ret; apply _].
  - by apply respects_ret; apply _.
  - apply respects_bind; [apply _|by intros c s|intros; apply respects_ret; apply _].
Qed.

(** A poll that finds the only entry of the only queue. *)
Lemma poll_single `{Shuffle} config lang q e c s :
  retrieval_queues config = [q] → valid_queue_name q = true → rt_broker s = [e] →
  q_queue_name e = q → q_not_before e = None → default Rust (task_language <$> q_task_id e) = lang →
  ∃ c' s', (queues ← queue_names_for_retrieval (P := mem_ports tm delay) config;
            poll_queues (P := mem_ports tm delay) lang queues) c s = (Ok (Some (q_invocation_id e)), c', s') ∧
    rt_control s' = rt_control s ∧ rt_state s' = rt_state s ∧ rt_broker s' = [].
Proof.
  intros Hq Hv Hb Hn Hd Hl.
  pose proof (polling_keeps_backends config lang c s) as Hkeep. unfold state_after in Hkeep.
  destruct (queue_names_yields (P := mem_ports tm delay) runtime_view config c s)
    as (names & (c1 & s1 & Hn1 & Hv1) & Hperm).
  rewrite Hq in Hperm. apply Permutation_singleton_r in Hperm as ->.
  assert (rt_broker s1 = [e]) as Hb1 by (by apply (f_equal v_queue) in Hv1; simpl in Hv1; rewrite Hv1).
  pose proof (retrieve_best_spec (matches_language q lang (clock_next c1).1) (rt_broker s1)) as Hr.
  rewrite Hb1 in Hr.
  destruct (retrieve_best (matches_language q lang (clock_next c1).1) [e]) as [[id|] rest] eqn:Hret.
  2: { destruct Hr as [_ Hr]. specialize (Hr e ltac:(by left)). unfold matches_language in Hr.
       rewrite bool_decide_true in Hr by done. unfold is_due in Hr. rewrite Hd in Hr. simpl in Hr.
       destruct (q_task_id e); simpl in Hl; apply bool_decide_eq_false in Hr; naive_solver. }
  destruct Hr as (e' & <- & Hbest). apply best_perm in Hbest.
  pose proof (Permutation_length Hbest) as Hlen. destruct rest; [|done].
  apply Permutation_singleton_l in Hbest. simplify_eq.
  revert Hkeep. unfold mbind at 1 2, M_bind at 1 2. rewrite Hn1. simpl. unfold mbind, M_bind, on_broker, zoom.
  rewrite retrieve_language_run by done. rewrite Hb1, Hret. simpl. intros [Hc Hs]. eauto 10.
Qed.

Lemma retry_not_denied cfg : can_transition_to Retry (denied_status cfg) = false.
Proof. unfold denied_status. by destruct (tc_reroute_on_cc cfg). Qed.

(** A claim from empty queues. *)
Lemma claim_empty `{Shuffle} config lang registry am q n c s :
  retrieval_queues config = [q] → valid_queue_name q = true → v_queue (runtime_view s) = [] →
  yields runtime_view (claim_queued (P := mem_ports tm delay) am config registry lang n) c s (Ok None)
    (runtime_view s).
Proof.
  intros Hq Hv Hb. destruct n as [|n]; simpl; [by apply yields_ret|].
  destruct (queue_names_yields (P := mem_ports tm delay) runtime_view config c s) as (names & Hn & Hperm).
  rewrite Hq in Hperm. apply Permutation_singleton_r in Hperm as ->. ystep Hn c1 s1 Hv1 Hk1.
  destruct (poll_yields (P := mem_ports tm delay) runtime_view lang [q] c1 s1) as (r & v' & Hp & Hpoll).
  rewrite Hv1 in Hpoll. destruct r as [[id|]|e|p]; simpl in Hpoll; [| | |done].
  - destruct Hpoll as (e & rest & _ & Hperm & _). simpl in Hb. rewrite Hb in Hperm.
    by apply Permutation_nil_l in Hperm.
  - subst v'. ystep Hp c2 s2 Hv2 Hk2. by apply Hk1, Hk2, yields_ret.
  - destruct Hpoll as (_ & q' & ->%list_elem_of_singleton & ?). congruence.
Qed.

(** An invocation that waits for a retry is lost when its entry is delivered
    while its task is at the limit: from Retry the transition table allows neither
    of the two denied statuses, the refusal is ignored, and the entry is gone from
    the queue while the status stays Retry. *)
Theorem turned_away_retry_is_lost `{Shuffle} am config registry lang q e cur i cfg args c s :
  let id := q_invocation_id e in
  waiters (rt_control s) = ∅ →
  retrieval_queues config = [q] → valid_queue_name q = true →
  v_queue (runtime_view s) = [e] → q_queue_name e = q → q_not_before e = None →
  default Rust (task_language <$> q_task_id e) = lang →
  v_status (runtime_view s) !! id = Some cur → rec_status cur = Retry →
  limited (runtime_view s) registry id = Some (i, cfg, args) →
  concurrency_limit cfg ≤ Z.of_nat (other_holders s id (inv_task_id i) args) →
  let m := claim_next (P := mem_ports tm delay) am config registry lang in
  result_of m c s = Ok None ∧
  v_queue (runtime_view (state_after m c s)) = [] ∧
  v_status (runtime_view (state_after m c s)) = v_status (runtime_view s).
Proof.
  intros id Hw Hq Hv Hb Hn Hd Hl Hs Hretry Hlim Hfull m.
  destruct (poll_single config lang q e c s Hq Hv Hb Hn Hd Hl) as (c1 & s1 & Hpoll & Hc1 & Hs1 & Hb1).
  assert (limited (runtime_view s1) registry id = Some (i, cfg, args)) as Hlim1.
  { revert Hlim. unfold limited. simpl. by rewrite Hs1. }
  destruct (turn_away_yields (P := mem_ports tm delay) runtime_view am id (inv_task_id i) cfg c1 s1)
    as (r & v' & (c2 & s2 & Ha & Hv2) & Hta).
  assert (v_status (runtime_view s1) !! id = Some cur) as Hs1' by (simpl; by rewrite Hc1).
  unfold turned_away in Hta. rewrite Hs1', Hretry, retry_not_denied in Hta. simpl in Hta.
  destruct Hta as [-> ->].
  assert (admit_candidate (P := mem_ports tm delay) am registry id c1 s1 = (Ok false, c2, s2)) as Hadmit.
  { rewrite admit_run, Hlim1. unfold other_holders in Hfull |- *. rewrite Hc1.
    by rewrite (proj2 (Z.leb_le _ _) Hfull). }
  destruct (claim_empty config lang registry am q 7 c2 s2) as (c3 & s3 & Hrest & Hv3); [done..| |].
  { apply (f_equal v_queue) in Hv2. by rewrite Hv2, <-Hb1. }
  assert (m c s = (Ok None, c3, s3)) as Hm.
  { assert (attempt (ctl_get_blocking_invocations (Ports := mem_ports tm delay) MAX_BLOCKING_CANDIDATES) c s
        = (Ok (inl []), c, s)) as Hblock.
    { simpl. unfold attempt, on_control, zoom, mem_get_blocking_invocations, gets.
      rewrite Hw, map_iter_empty. by destruct s. }
    unfold m, claim_next. rewrite (bind_run _ _ _ _ _ _ _ Hblock). simpl claim_blocking.
    rewrite (bind_run (mret None) _ _ _ _ _ _ eq_refl).
    change (claim_queued am config registry lang MAX_CC_RETRIES) with
      (claim_queued (P := mem_ports tm delay) am config registry lang (Datatypes.S 7)).
    rewrite claim_queued_unfold, (bind_run _ _ _ _ _ _ _ Hpoll). fold id.
    rewrite (bind_run _ _ _ _ _ _ _ Hadmit). exact Hrest. }
  unfold result_of, state_after. rewrite Hm. split_and!; [done|..]; simpl snd; rewrite Hv3, Hv2; simpl.
  - done.
  - by rewrite Hc1.
Qed.
(** An invocation that others wait for is claimed ahead of the broker's queue
    and without consulting it: if the blocking scan names it first, its task is of
    the runner's language and it is not under a limit, it is returned at once and
    nothing changes.  Its own queue entry stays (to be delivered a second time),
    even one that is not due yet: an invocation in Retry does not wait for its
    backoff. *)
Theorem blocking_invocation_is_claimed_at_once `{Shuffle} am config registry id rest i c s :
  result_of (mem_get_blocking_invocations MAX_BLOCKING_CANDIDATES) c (rt_control s) = Ok (id :: rest) →
  v_invocations (runtime_view s) !! id = Some i →
  limited (runtime_view s) registry id = None →
  claim_next (P := mem_ports tm delay) am config registry (task_language (inv_task_id i)) c s =
    (Ok (Some id), c, s).
Proof.
  intros Hb Hi Hl.
  assert (attempt (ctl_get_blocking_invocations (Ports := mem_ports tm delay) MAX_BLOCKING_CANDIDATES) c s
    = (Ok (inl (id :: rest)), c, s)) as Hblock.
  { unfold result_of, mem_get_blocking_invocations, gets in Hb. simpl in Hb. injection Hb as Hb.
    simpl. unfold attempt, on_control, zoom, mem_get_blocking_invocations, gets. rewrite Hb. by destruct s. }
  assert (attempt (sb_get_invocation (Ports := mem_ports tm delay) id) c s = (Ok (inl i), c, s)) as Hget.
  { simpl. unfold attempt. rewrite (on_state_read (mem_get_invocation id) c s (Ok i)); [done|].
    simpl in Hi. unfold mem_get_invocation. cbv [mbind M_bind get lift]. by rewrite Hi. }
  assert (candidate_matches_language (P := mem_ports tm delay) id (task_language (inv_task_id i)) c s
    = (Ok true, c, s)) as Hlang.
  { unfold candidate_matches_language. rewrite (bind_run _ _ _ _ _ _ _ Hget).
    by rewrite bool_decide_true. }
  unfold claim_next. rewrite (bind_run _ _ _ _ _ _ _ Hblock). cbn [claim_blocking].
  assert (claim_blocking (P := mem_ports tm delay) am registry (task_language (inv_task_id i)) (id :: rest)
    c s = (Ok (Some id), c, s)) as Hcb.
  { cbn [claim_blocking]. rewrite (bind_run _ _ _ _ _ _ _ Hlang). cbn [negb].
    rewrite (bind_run _ _ _ _ true c s); [done|]. by rewrite admit_run, Hl. }
  exact (bind_run _ _ _ _ _ _ _ Hcb).
Qed.
End mem.

(** ** Witnesses *)

Definition same_order : Shuffle := {| shuffle n l := l; shuffle_perm n l := reflexivity l |}.

(** One task, at most one running invocation. *)
Definition demo_registry : TaskRegistry :=
  {| tr_tasks := {[demo_task := task_proxy demo_task demo_config]}; tr_legacy := ∅ |}.

Definition demo_claim : M RustvelloError (Runtime unit) (option InvocationId) :=
  @claim_next text_json _ demo_ports same_order demo_ambient (app_config_new "app") demo_registry Rust.

Definition demo_route (id : InvocationId) : M RustvelloError (Runtime unit) InvocationId :=
  @create_and_route_invocation text_json _ demo_ports id demo_call None false "r0" "default" 0.

(** "a" is queued. *)
Definition demo_queued : Runtime unit := state_after (demo_route "a") demo_clock (runtime_new tt).

Lemma claim_behaviour_witness :
  result_of demo_claim demo_clock demo_queued = Ok (Some "a") ∧
  dispatched (runtime_view demo_queued) (runtime_view (state_after demo_claim demo_clock demo_queued)).
Proof.
  split; [vm_compute; reflexivity|].
  exact (proj1 (@claim_behaviour text_json _ demo_ports runtime_view demo_laws same_order demo_ambient
    (app_config_new "app") demo_registry Rust demo_clock demo_queued)).
Defined.

Lemma claimed_invocation_holds_slot_witness :
  holds_slot (state_after demo_claim demo_clock demo_queued) "a" demo_task demo_config (Some arguments_new).
Proof.
  apply (@claimed_invocation_holds_slot text_json identity_order chrono_in_seconds unit None 0 same_order
    demo_ambient (app_config_new "app") demo_registry Rust demo_clock demo_queued "a"
    (demo_claim demo_clock demo_queued).1.2 (state_after demo_claim demo_clock demo_queued)
    (invocation_new 0 "a" demo_task (cd_call_id demo_call)) demo_config (Some arguments_new)).
  - vm_compute. reflexivity.
  - vm_compute. reflexivity.
Defined.

(** "a" failed once and is queued again, while "b" holds the slot. *)
Definition demo_retrying : Runtime unit :=
  state_after (demo_route "a";; demo_claim;;
    set_invocation_status (P := demo_ports) "a" Pending "w1";;
    set_invocation_status (P := demo_ports) "a" Running "w1";;
    release_nontransactional_concurrency_slot (P := demo_ports) "a";;
    set_invocation_retry_with_context (P := demo_ports) "a" "w1" demo_task arguments_new "default" 0;;
    on_control (mem_try_acquire_concurrency_slot "b" demo_task demo_config (Some arguments_new)))
    demo_clock (runtime_new tt).

Lemma turned_away_retry_is_lost_witness :
  rec_status <$> v_status (runtime_view demo_retrying) !! "a" = Some Retry ∧
  result_of demo_claim demo_clock demo_retrying = Ok None ∧
  v_queue (runtime_view (state_after demo_claim demo_clock demo_retrying)) = [] ∧
  v_status (runtime_view (state_after demo_claim demo_clock demo_retrying)) =
    v_status (runtime_view demo_retrying).
Proof.
  split; [vm_compute; reflexivity|].
  destruct (@turned_away_retry_is_lost text_json identity_order chrono_in_seconds unit None 0 same_order
    demo_ambient (app_config_new "app") demo_registry Rust "default"
    (entry_now "a" (Some demo_task) "default" 0)
    (default demo_record (v_status (runtime_view demo_retrying) !! "a"))
    (invocation_new 0 "a" demo_task (cd_call_id demo_call)) demo_config (Some arguments_new) demo_clock demo_retrying)
    as (Hr & Hq & Hs); try (vm_compute; reflexivity).
  - vm_compute. congruence.
  - split_and!; [exact Hr|exact Hq|exact Hs].
Defined.

(** "a" waits for its backoff, and "b" waits for "a". *)
Definition demo_backoff : Runtime unit :=
  state_after (demo_route "a";;
    set_invocation_status (P := demo_ports) "a" Pending "w1";;
    set_invocation_status (P := demo_ports) "a" Running "w1";;
    on_broker (mem_broker_purge None);;
    set_invocation_retry_after_with_context (P := demo_ports) "a" "w1" demo_task arguments_new "default" 0
      3600000000000;;
    on_control (mem_set_waiting_for "b" "a"))
    demo_clock (runtime_new tt).

Lemma blocking_invocation_is_claimed_at_once_witness :
  let registry := {| tr_tasks := {[demo_task := task_proxy demo_task task_config_default]}; tr_legacy := ∅ |} in
  rec_status <$> v_status (runtime_view demo_backoff) !! "a" = Some Retry ∧
  is_due 10000000000 <$> v_queue (runtime_view demo_backoff) = [false] ∧
  claim_next (P := demo_ports) (H := same_order) demo_ambient (app_config_new "app") registry Rust demo_clock demo_backoff =
    (Ok (Some "a"), demo_clock, demo_backoff).
Proof.
  intros registry. split_and!; [vm_compute; reflexivity..|].
  apply (@blocking_invocation_is_claimed_at_once text_json identity_order chrono_in_seconds unit None 0
    same_order demo_ambient (app_config_new "app") registry "a" []
    (invocation_new 0 "a" demo_task (cd_call_id demo_call))); vm_compute; reflexivity.
Defined.
