(* ===== verification/Builder.v ===== *)
(** * The application builder

    Models [rustvello/src/builder/mod.rs] and [build.rs]: configuration files, the
    resolution of the backends and the checks of [build].  The resolver of the
    application's configuration ([cistell]), the TOML parser, the file system and the
    connections to backends are arguments; a backend is a value of an arbitrary type.

    The theorems: an override written as a TOML table is read back; and an application
    that is built polls valid queues only, with the backends its builder names. *)
From S2P Require Import Prelude F64 Effects Json Identifiers Status Errors Config Call TaskCatalog Ports Dispatch.

(** ** Configuration files *)

(** [toml::Value]; dates are not read. *)
Unset Elimination Schemes.
Inductive Toml :=
| TomlString (s : string)
| TomlInteger (n : Z)
| TomlFloat (x : f64)
| TomlBoolean (b : bool)
| TomlDatetime
| TomlArray (l : list Toml)
| TomlTable (m : gmap string Toml).
Set Elimination Schemes.

Definition as_string (v : Toml) : option string := match v with TomlString s => Some s | _ => None end.
Definition as_integer (v : Toml) : option Z := match v with TomlInteger n => Some n | _ => None end.
Definition as_boolean (v : Toml) : option bool := match v with TomlBoolean b => Some b | _ => None end.

(** [try_from] of a [toml] integer. *)
Definition to_u32 (n : Z) : option Z := if decide (0 ≤ n ≤ u32_max) then Some n else None.
Definition to_u64 (n : Z) : option Z := if decide (0 ≤ n) then Some n else None.

(** A float, or an integer as one. *)
Definition as_number (v : Toml) : option f64 :=
  match v with TomlFloat x => Some x | TomlInteger n => Some (f64_of_u64 n) | _ => None end.

Definition string_list (v : Toml) : option (list string) :=
  match v with
  | TomlArray l => let texts := omap as_string l in if bool_decide (texts = []) then None else Some texts
  | _ => None
  end.

(* @src rustvello/src/builder/mod.rs 512-613 parse_task_config_override *)
Definition parse_task_config_override `{UnicodeCase} (table : gmap string Toml) : TaskConfigOverride :=
  let get key : option Toml := table !! key in
  let text key : option string := get key ≫= as_string in
  let cc key : option ConcurrencyControlType := text key ≫= parse_concurrency_control_type in
  let jitter key : option RetryJitter := text key ≫= λ v, ok_of (jitter_from_str v) in
  let flag key : option bool := get key ≫= as_boolean in
  let number key : option f64 := get key ≫= as_number in
  let u32 key : option Z := (get key ≫= as_integer) ≫= to_u32 in
  let texts key : option (list string) := get key ≫= string_list in
  let millis key : option Z := (get key ≫= as_integer) ≫= to_u64 in
  {| ov_queue := text "queue";
     ov_priority := number "priority";
     ov_max_retries := u32 "max_retries";
     ov_concurrency_control := cc "concurrency_control";
     ov_running_concurrency := option_map Some (u32 "running_concurrency");
     ov_registration_concurrency := cc "registration_concurrency";
     ov_cache_results := flag "cache_results";
     ov_key_arguments := texts "key_arguments";
     ov_retry_for_errors := texts "retry_for_errors";
     ov_disable_cache_args := texts "disable_cache_args";
     ov_on_diff_non_key_args_raise := flag "on_diff_non_key_args_raise";
     ov_parallel_batch_size := millis "parallel_batch_size";
     ov_is_workflow_task := flag "is_workflow_task";
     ov_reroute_on_cc := flag "reroute_on_cc";
     ov_blocking := flag "blocking";
     ov_retry_delay_ms := millis "retry_delay_ms";
     ov_retry_max_delay_ms := millis "retry_max_delay_ms";
     ov_retry_backoff := number "retry_backoff";
     ov_retry_jitter := jitter "retry_jitter";
     ov_timeout_ms := option_map (λ ms, if 0 <? ms then Some ms else None) (millis "timeout_ms");
     ov_retry_on_timeout := flag "retry_on_timeout" |}.

(** ** The builder *)

(** The error text of [glob::Pattern::new]. *)
Class GlobErrors := { glob_error : string → string }.

Section builder.
Context {Path Source Preset Broker Control State Store Triggers : Type}.

(** Registers tasks: a task module, or an entry of the inventory. *)
Definition TaskModule : Type := TaskRegistry → RustvelloResult TaskRegistry.

(* @src rustvello/src/builder/mod.rs 102-128 RustvelloBuilder *)
Record RustvelloBuilder := mkBuilder {
  rb_programmatic : Source;
  rb_file_paths : list Path;
  rb_use_env : bool;
  rb_broker : option Broker;
  rb_orchestrator : option Control;
  rb_state_backend : option State;
  rb_client_data_store : option Store;
  rb_trigger_store : option Triggers;
  rb_client_data_store_config : ClientDataStoreConfig;
  rb_task_config_overrides : gmap string TaskConfigOverride;
  rb_task_defaults_override : TaskConfigOverride;
  rb_task_modules : list TaskModule;
  rb_auto_discover : bool;
  rb_backend_preset : option Preset;
  rb_rabbitmq : option Broker
}.

(* @src rustvello/src/builder/mod.rs 149-168 RustvelloBuilder::new *)
Definition builder_new (programmatic : Source) : RustvelloBuilder :=
  mkBuilder programmatic [] false None None None None None client_data_store_config_default ∅ override_default
    [] false None None.

(** The tasks and the defaults a file names, and its path. *)
Definition add_file (path : Path) (defaults : TaskConfigOverride) (overrides : gmap string TaskConfigOverride)
    (b : RustvelloBuilder) : RustvelloBuilder :=
  mkBuilder (rb_programmatic b) (rb_file_paths b ++ [path]) (rb_use_env b) (rb_broker b) (rb_orchestrator b)
    (rb_state_backend b) (rb_client_data_store b) (rb_trigger_store b) (rb_client_data_store_config b) overrides defaults
    (rb_task_modules b) (rb_auto_discover b) (rb_backend_preset b) (rb_rabbitmq b).

(* @src rustvello/src/builder/mod.rs 457-486 RustvelloBuilder::from_file *)
Definition from_file `{UnicodeCase} (read_file : Path → outcome string string)
    (parse_toml : string → outcome string (gmap string Toml)) (path_display : Path → string)
    (path : Path) (b : RustvelloBuilder) : RustvelloResult RustvelloBuilder :=
  content ← map_err (λ e, EConfiguration ("failed to read config file '" +:+ path_display path +:+ "': " +:+ e))
              (read_file path);
  table ← map_err (λ e, EConfiguration ("invalid TOML: " +:+ e)) (parse_toml content);
  let defaults :=
    match table !! "task_defaults" with
    | Some (TomlTable t) => parse_task_config_override t
    | _ => rb_task_defaults_override b
    end in
  let overrides :=
    match table !! "tasks" with
    | Some (TomlTable tasks) =>
        fold_left (λ m p, match p.2 with
                          | TomlTable t => <[p.1 := parse_task_config_override t]> m
                          | _ => m
                          end) (btree_iter tasks) (rb_task_config_overrides b)
    | _ => rb_task_config_overrides b
    end in
  Ok (add_file path defaults overrides b).

(** ** Checks of the queues *)

(** [queues.iter().any(|q| !unique.insert(q))]. *)
Fixpoint repeats (unique : gset string) (queues : list string) : bool :=
  match queues with
  | [] => false
  | q :: queues => bool_decide (q ∈ unique) || repeats ({[q]} ∪ unique) queues
  end.

Fixpoint check_each {A} (check : A → RustvelloResult unit) (l : list A) : RustvelloResult unit :=
  match l with [] => Ok tt | x :: l => check x;; check_each check l end.

Definition check_rule `{Glob, GlobErrors} (rule : BrokerPriorityRule) : RustvelloResult unit :=
  validate_routing DEFAULT_QUEUE (rule_priority rule);;
  if bool_decide (rule_task_id rule = "") then Err (EConfiguration "priority rule task_id cannot be empty")
  else match glob_matches (rule_task_id rule) "" with
       | Some _ => Ok tt
       | None => Err (EConfiguration ("invalid priority rule pattern " +:+ str_debug (rule_task_id rule) +:+ ": " +:+
                                      glob_error (rule_task_id rule)))
       end.

(* @src rustvello/src/builder/build.rs 452-485 validate_queue_config *)
Definition validate_queue_config `{Glob, GlobErrors} (config : AppConfig) : RustvelloResult unit :=
  if bool_decide (ac_broker_queues config = []) then Err (EConfiguration "broker_queues cannot be empty")
  else
    check_each (λ queue, validate_routing queue 0) (ac_broker_queues config ++ ac_runner_queues config);;
    check_each (λ queues, if repeats ∅ queues
                          then Err (EConfiguration "queue lists cannot contain duplicate names") else Ok tt)
      [ac_broker_queues config; ac_runner_queues config];;
    check_each check_rule (ac_priority_rules config).

Definition with_broker_queues (queues : list string) (c : AppConfig) : AppConfig :=
  mkAppConfig (ac_app_id c) queues (ac_runner_queues c) (ac_queue_selection_strategy c)
    (ac_priority_rules c) (ac_dev_mode_force_sync c) (ac_max_pending_seconds c) (ac_heartbeat_interval_seconds c)
    (ac_runner_dead_after_seconds c) (ac_recovery_check_interval_seconds c) (ac_max_invocation_recoveries c)
    (ac_print_arguments c) (ac_argument_print_mode c) (ac_truncate_arguments_length c) (ac_recover_pending_cron c)
    (ac_recover_running_cron c) (ac_trigger_task_modules c) (ac_cached_status_time_seconds c) (ac_logging_level c)
    (ac_log_format c) (ac_log_use_colors c) (ac_compact_log_context c) (ac_blocking_control c)
    (ac_auto_final_invocation_purge_hours c) (ac_scheduler_interval_seconds c) (ac_enable_scheduler c)
    (ac_atomic_service_interval_minutes c) (ac_atomic_service_spread_margin_minutes c)
    (ac_atomic_service_check_interval_minutes c) (ac_cancellation_check_interval_seconds c).

(** The default queue is served always. *)
Definition with_default_queue (config : AppConfig) : AppConfig :=
  if bool_decide (DEFAULT_QUEUE ∈ ac_broker_queues config) then config
  else with_broker_queues (DEFAULT_QUEUE :: ac_broker_queues config) config.

(** ** The application *)

(** The backends of a preset, as they are connected. *)
(* @src rustvello/src/builder/build.rs 19-26 ResolvedBackends *)
Record ResolvedBackends := mkResolved {
  res_broker : Broker;
  res_orchestrator : Control;
  res_state_backend : State;
  res_client_data_store : Store;
  res_trigger_store : Triggers
}.

(* @src rustvello/src/app/mod.rs 49-53 RustvelloApp *)
Record RustvelloApp := mkApp {
  app_config : AppConfig;
  app_catalog : TaskCatalog;
  app_broker : Broker;
  app_orchestrator : Control;
  app_state_backend : State;
  app_client_data_store : Store;
  app_client_data_store_config : ClientDataStoreConfig;
  app_trigger_store : option Triggers
}.

(** What the built program brings: the resolver of the configuration, the connections
    to backends, the in-memory backends, and the tasks registered at compile time. *)
Context (resolve : Source → bool → list Path → RustvelloResult AppConfig).
Context (connect : Preset → RustvelloResult ResolvedBackends) (memory : ResolvedBackends).
Context (inventory : list TaskModule).

(* @src rustvello/src/builder/build.rs 172-175 RustvelloBuilder::resolve_preset *)
Definition resolve_preset (b : RustvelloBuilder) : RustvelloResult (option ResolvedBackends) :=
  match rb_backend_preset b with
  | None => Ok None
  | Some preset => backends ← connect preset; Ok (Some backends)
  end.

(** An explicit backend, else the preset's, else the in-memory one. *)
(* @src rustvello/src/builder/build.rs 390-447 RustvelloBuilder::resolve_broker *)
Definition choose {A} (explicit : option A) (pick : ResolvedBackends → A) (preset : option ResolvedBackends) : A :=
  match explicit with
  | Some x => x
  | None => match preset with Some pb => pick pb | None => pick memory end
  end.

Fixpoint register_all (modules : list TaskModule) (r : TaskRegistry) : RustvelloResult TaskRegistry :=
  match modules with [] => Ok r | module :: modules => r ← module r; register_all modules r end.

(* @src rustvello/src/builder/build.rs 43-166 RustvelloBuilder::build *)
Definition build `{Glob, GlobErrors} (b : RustvelloBuilder) : RustvelloResult RustvelloApp :=
  config ← resolve (rb_programmatic b) (rb_use_env b) (rb_file_paths b);
  let config := with_default_queue config in
  validate_queue_config config;;
  if ac_heartbeat_interval_seconds config =? 0
  then Err (EConfiguration "heartbeat_interval_seconds must be > 0")
  else if ac_recovery_check_interval_seconds config =? 0
  then Err (EConfiguration "recovery_check_interval_seconds must be > 0")
  else
    preset ← resolve_preset b;
    let broker := match rb_rabbitmq b with Some x => x | None => choose (rb_broker b) res_broker preset end in
    let catalog := set_config_overrides (rb_task_config_overrides b) (rb_task_defaults_override b) catalog_new in
    registry ← register_all ((if rb_auto_discover b then inventory else []) ++ rb_task_modules b) (cat_registry catalog);
    Ok (mkApp config (with_registry catalog registry) broker
          (choose (rb_orchestrator b) res_orchestrator preset)
          (choose (rb_state_backend b) res_state_backend preset)
          (choose (rb_client_data_store b) res_client_data_store preset) (rb_client_data_store_config b)
          (match rb_trigger_store b with Some x => Some x | None => res_trigger_store <$> preset end)).

(** ** Theorems *)

Lemma repeats_spec queues unique :
  repeats unique queues = false ↔ NoDup queues ∧ ∀ q, q ∈ queues → q ∉ unique.
Proof.
  revert unique. induction queues as [|q queues IH]; intros unique; simpl.
  { split; [|done]. intros _. split; [constructor|set_solver]. }
  rewrite orb_false_iff, bool_decide_eq_false, IH, list.NoDup_cons. set_solver.
Qed.

Lemma seq_Ok (m k : RustvelloResult unit) : (m;; k) = Ok tt ↔ m = Ok tt ∧ k = Ok tt.
Proof. rewrite bind_Ok. split; [intros ([] & ? & ?); done|intros [??]; by exists tt]. Qed.

Lemma check_each_Ok {A} (check : A → RustvelloResult unit) l :
  check_each check l = Ok tt ↔ Forall (λ x, check x = Ok tt) l.
Proof.
  induction l as [|x l IH]; simpl; [by split|]. by rewrite seq_Ok, List.Forall_cons_iff, <-IH.
Qed.

(** What a built application's configuration satisfies. *)
Record config_sound `{Glob} (config : AppConfig) : Prop := {
  cs_default : DEFAULT_QUEUE ∈ ac_broker_queues config;
  cs_names : ∀ q, q ∈ ac_broker_queues config ++ ac_runner_queues config → valid_queue_name q = true;
  cs_broker_once : NoDup (ac_broker_queues config);
  cs_runner_once : NoDup (ac_runner_queues config);
  cs_rules : ∀ rule, rule ∈ ac_priority_rules config →
    valid_priority (rule_priority rule) = true ∧ rule_task_id rule ≠ "" ∧ is_Some (glob_matches (rule_task_id rule) "")
}.

Lemma with_default_queue_spec config :
  DEFAULT_QUEUE ∈ ac_broker_queues (with_default_queue config) ∧
  ac_broker_queues (with_default_queue config) ≠ [] ∧
  ac_runner_queues (with_default_queue config) = ac_runner_queues config ∧
  ac_priority_rules (with_default_queue config) = ac_priority_rules config.
Proof.
  unfold with_default_queue. case_bool_decide as Hin; simpl; split_and!; try done; [|by left].
  intros He. rewrite He in Hin. by apply elem_of_nil in Hin.
Qed.

Lemma check_rule_Ok `{Glob, GlobErrors} rule : check_rule rule = Ok tt ↔
  valid_priority (rule_priority rule) = true ∧ rule_task_id rule ≠ "" ∧ is_Some (glob_matches (rule_task_id rule) "").
Proof.
  unfold check_rule. rewrite seq_Ok, validate_routing_Ok. split.
  - intros ([_ Hp] & Hrest). case_bool_decide; [done|].
    destruct (glob_matches _ _); [|done]. naive_solver.
  - intros (Hp & Hne & [m Hm]). split; [done|].
    rewrite bool_decide_false by done. by rewrite Hm.
Qed.

Lemma validate_queue_config_Ok `{Glob, GlobErrors} config :
  validate_queue_config (with_default_queue config) = Ok tt ↔ config_sound (with_default_queue config).
Proof.
  destruct (with_default_queue_spec config) as (Hdef & Hne & _ & _). set (c := with_default_queue config) in *.
  unfold validate_queue_config. rewrite bool_decide_false by done. rewrite !seq_Ok, !check_each_Ok.
  assert (∀ queues, (if repeats ∅ queues then Err (EConfiguration "queue lists cannot contain duplicate names")
                     else Ok tt) = (Ok tt : RustvelloResult unit) ↔ NoDup queues) as Hrep.
  { intros queues. destruct (repeats ∅ queues) eqn:E.
    - split; [done|]. intros Hnd. assert (repeats ∅ queues = false) by (apply repeats_spec; set_solver). congruence.
    - apply repeats_spec in E as [Hnd _]. by split. }
  split.
  - intros (Hnames & Hdup & Hrules). rewrite !List.Forall_cons_iff, !Hrep in Hdup. split; try done; try tauto.
    + intros q Hq. rewrite list.Forall_forall in Hnames. by apply Hnames, validate_routing_Ok in Hq as [? _].
    + intros rule Hr. rewrite list.Forall_forall in Hrules. by apply check_rule_Ok, Hrules.
  - intros [_ Hnames Hb Hr Hrules]. split_and!.
    + apply list.Forall_forall. intros q Hq. apply validate_routing_Ok. split; [by apply Hnames|by vm_compute].
    + rewrite !List.Forall_cons_iff, !Hrep. by split_and!.
    + apply list.Forall_forall. intros rule Hin. by apply check_rule_Ok, Hrules.
Qed.

(** What [build] needs, once the configuration is resolved. *)
Definition buildable `{Glob} (b : RustvelloBuilder) (config : AppConfig) : Prop :=
  config_sound (with_default_queue config) ∧
  ac_heartbeat_interval_seconds config ≠ 0 ∧ ac_recovery_check_interval_seconds config ≠ 0 ∧
  (∀ preset, rb_backend_preset b = Some preset → is_ok (connect preset) = true) ∧
  is_ok (register_all ((if rb_auto_discover b then inventory else []) ++ rb_task_modules b) registry_new) = true.

Lemma with_default_queue_intervals config :
  ac_heartbeat_interval_seconds (with_default_queue config) = ac_heartbeat_interval_seconds config ∧
  ac_recovery_check_interval_seconds (with_default_queue config) = ac_recovery_check_interval_seconds config.
Proof. unfold with_default_queue. by case_bool_decide. Qed.

Lemma build_resolved `{Glob, GlobErrors} b config :
  resolve (rb_programmatic b) (rb_use_env b) (rb_file_paths b) = Ok config →
  (is_ok (build b) = true ↔ buildable b config).
Proof.
  intros Hr. unfold build, buildable. rewrite Hr. simpl.
  destruct (with_default_queue_intervals config) as [-> ->]. rewrite <-validate_queue_config_Ok.
  destruct (validate_queue_config _) as [[]|e|e]; simpl; [|split; [done|naive_solver]..].
  destruct (Z.eqb_spec (ac_heartbeat_interval_seconds config) 0); [split; [done|naive_solver]|].
  destruct (Z.eqb_spec (ac_recovery_check_interval_seconds config) 0); [split; [done|naive_solver]|].
  change (cat_registry (set_config_overrides _ _ catalog_new)) with registry_new.
  set (registered := register_all _ _). unfold resolve_preset.
  destruct (rb_backend_preset b) as [preset|]; cbn [mbind outcome_bind].
  - destruct (connect preset) as [backends|e|e] eqn:Hc; cbn [mbind outcome_bind].
    2,3: split; [done|]; intros (_ & _ & _ & Hcon & _); specialize (Hcon preset eq_refl); by rewrite Hc in Hcon.
    split; [|intros (_ & _ & _ & _ & Hreg); by destruct registered].
    intros Hok. split_and!; [done..| |by destruct registered]. intros preset' [= <-]. by rewrite Hc.
  - split; [|intros (_ & _ & _ & _ & Hreg); by destruct registered].
    intros Hok. split_and!; [done..|]. by destruct registered.
Qed.

Lemma build_parts `{Glob, GlobErrors} b app : build b = Ok app →
  ∃ config preset, resolve (rb_programmatic b) (rb_use_env b) (rb_file_paths b) = Ok config ∧
    resolve_preset b = Ok preset ∧ app_config app = with_default_queue config ∧
    register_all ((if rb_auto_discover b then inventory else []) ++ rb_task_modules b) registry_new =
      Ok (cat_registry (app_catalog app)) ∧
    app_broker app = default (choose (rb_broker b) res_broker preset) (rb_rabbitmq b) ∧
    app_orchestrator app = choose (rb_orchestrator b) res_orchestrator preset ∧
    app_state_backend app = choose (rb_state_backend b) res_state_backend preset.
Proof.
  unfold build. intros (config & Hr & Hrest)%bind_Ok. apply bind_Ok in Hrest as (_ & _ & Hrest).
  destruct (_ =? 0); [done|]. destruct (_ =? 0); [done|].
  apply bind_Ok in Hrest as (preset & Hp & Hrest). apply bind_Ok in Hrest as (registry & Hreg & [= <-]).
  exists config, preset. by split_and!.
Qed.

(** What a builder builds.  An application is built exactly when its configuration
    resolves to one whose queues and rules are valid (the default queue added), its
    intervals are not zero, its preset connects and its tasks register.  It then serves
    the default queue; every queue a worker of it polls is valid, and there is one; no
    list names a queue twice; every priority a rule gives is one the broker takes.  Its
    control and state backends are both explicit, or the preset's, or in memory, each
    by itself; a RabbitMQ broker overrides every other. *)
Theorem built_application_behaviour `{Glob, GlobErrors} b :
  match resolve (rb_programmatic b) (rb_use_env b) (rb_file_paths b) with
  | Ok config => is_ok (build b) = true ↔ buildable b config
  | _ => is_ok (build b) = false
  end ∧
  ∀ app, build b = Ok app →
    config_sound (app_config app) ∧
    retrieval_queues (app_config app) ≠ [] ∧
    (∀ q, q ∈ retrieval_queues (app_config app) → valid_queue_name q = true) ∧
    ∃ preset, resolve_preset b = Ok preset ∧
      app_broker app = default (choose (rb_broker b) res_broker preset) (rb_rabbitmq b) ∧
      app_orchestrator app = choose (rb_orchestrator b) res_orchestrator preset ∧
      app_state_backend app = choose (rb_state_backend b) res_state_backend preset.
Proof.
  split.
  { destruct (resolve _ _ _) as [config|e|e] eqn:Hr; [by apply build_resolved|..]; unfold build; by rewrite Hr. }
  intros app Happ. destruct (build_parts b app Happ) as (config & preset & Hr & Hp & Hc & _ & Hb & Ho & Hs).
  destruct (proj1 (build_resolved b config Hr)) as (Hsound & _); [by rewrite Happ|]. rewrite Hc.
  destruct (with_default_queue_spec config) as (_ & Hne & _ & _). split_and!; [done|..|by exists preset].
  - unfold retrieval_queues. by destruct (ac_runner_queues _).
  - intros q Hq. apply (cs_names _ Hsound). apply elem_of_app. unfold retrieval_queues in Hq.
    destruct (ac_runner_queues _); [by left|by right].
Qed.
End builder.

(** ** Overrides in a file *)

(** An override as a table: what is not overridden is not written. *)
Definition cc_text (t : ConcurrencyControlType) : string := str_lower (cc_type_display t).

Definition override_entries (o : TaskConfigOverride) : list (string * option Toml) :=
  [("queue", TomlString <$> ov_queue o); ("priority", TomlFloat <$> ov_priority o);
   ("max_retries", TomlInteger <$> ov_max_retries o);
   ("concurrency_control", TomlString ∘ cc_text <$> ov_concurrency_control o);
   ("running_concurrency", TomlInteger <$> (mjoin (ov_running_concurrency o)));
   ("registration_concurrency", TomlString ∘ cc_text <$> ov_registration_concurrency o);
   ("cache_results", TomlBoolean <$> ov_cache_results o);
   ("key_arguments", TomlArray ∘ fmap TomlString <$> ov_key_arguments o);
   ("retry_for_errors", TomlArray ∘ fmap TomlString <$> ov_retry_for_errors o);
   ("disable_cache_args", TomlArray ∘ fmap TomlString <$> ov_disable_cache_args o);
   ("on_diff_non_key_args_raise", TomlBoolean <$> ov_on_diff_non_key_args_raise o);
   ("parallel_batch_size", TomlInteger <$> ov_parallel_batch_size o);
   ("is_workflow_task", TomlBoolean <$> ov_is_workflow_task o); ("reroute_on_cc", TomlBoolean <$> ov_reroute_on_cc o);
   ("blocking", TomlBoolean <$> ov_blocking o); ("retry_delay_ms", TomlInteger <$> ov_retry_delay_ms o);
   ("retry_max_delay_ms", TomlInteger <$> ov_retry_max_delay_ms o); ("retry_backoff", TomlFloat <$> ov_retry_backoff o);
   ("retry_jitter", TomlString ∘ jitter_display <$> ov_retry_jitter o);
   ("timeout_ms", TomlInteger ∘ default 0 <$> ov_timeout_ms o); ("retry_on_timeout", TomlBoolean <$> ov_retry_on_timeout o)].

Definition override_table (o : TaskConfigOverride) : gmap string Toml :=
  list_to_map (omap (λ p, pair p.1 <$> p.2) (override_entries o)).

(** What a table can say: numbers of their type, lists that are not empty, a running
    concurrency that is a number, a timeout above zero or none. *)
Record writable (o : TaskConfigOverride) : Prop := {
  wr_max_retries : ∀ n, ov_max_retries o = Some n → 0 ≤ n ≤ u32_max;
  wr_running : ∀ c, ov_running_concurrency o = Some c → ∃ n, c = Some n ∧ 0 ≤ n ≤ u32_max;
  wr_keys : ov_key_arguments o ≠ Some []; wr_errors : ov_retry_for_errors o ≠ Some [];
  wr_args : ov_disable_cache_args o ≠ Some [];
  wr_batch : ∀ n, ov_parallel_batch_size o = Some n → 0 ≤ n;
  wr_delay : ∀ n, ov_retry_delay_ms o = Some n → 0 ≤ n; wr_max_delay : ∀ n, ov_retry_max_delay_ms o = Some n → 0 ≤ n;
  wr_timeout : ∀ n, ov_timeout_ms o = Some (Some n) → 0 < n
}.

Lemma lookup_entries (l : list (string * option Toml)) k v :
  NoDup l.*1 → (k, v) ∈ l → (list_to_map (omap (λ p, pair p.1 <$> p.2) l) : gmap string Toml) !! k = v.
Proof.
  induction l as [|[k' v'] l IH]; intros Hnd Hin; [by apply elem_of_nil in Hin|].
  rewrite fmap_cons in Hnd. apply list.NoDup_cons in Hnd as [Hk Hnd].
  assert (∀ k v, (k, v) ∉ l → k = k' → (list_to_map (omap (λ p, pair p.1 <$> p.2) l) : gmap string Toml) !! k = None) as Hnone.
  { intros k0 v0 _ ->. apply not_elem_of_list_to_map_1. intros He. apply Hk.
    apply list_elem_of_fmap in He as ([k1 x] & -> & He). apply list_elem_of_omap in He as ([k2 v2] & He & Hx).
    simpl in Hx. destruct v2; [|done]. injection Hx as -> ->. apply list_elem_of_fmap. by exists (k1, Some x). }
  apply elem_of_cons in Hin as [[= -> ->]|Hin].
  - destruct v' as [x|]; simpl; [apply lookup_insert_eq|]. apply (Hnone k' None); [|done].
    intros He. apply Hk. apply list_elem_of_fmap. by exists (k', None).
  - assert (k ≠ k') as Hne by (intros ->; apply Hk, list_elem_of_fmap; by exists (k', v)).
    destruct v' as [x|]; simpl; [rewrite lookup_insert_ne by done|]; by apply IH.
Qed.

Lemma cc_text_parses `{UnicodeCase} t : parse_concurrency_control_type (cc_text t) = Some t.
Proof. unfold parse_concurrency_control_type. destruct t; by rewrite to_lowercase_ascii. Qed.

Lemma jitter_parses j : ok_of (jitter_from_str (jitter_display j)) = Some j.
Proof. by destruct j. Qed.

Lemma as_strings l : l ≠ [] → string_list (TomlArray (TomlString <$> l)) = Some l.
Proof.
  intros Hne. unfold string_list. assert (omap as_string (TomlString <$> l) = l) as ->
    by (induction l as [|x [|y l'] IH]; [done..|]; rewrite fmap_cons; simpl; f_equal; by apply IH).
  by rewrite bool_decide_false.
Qed.

Lemma u32_read n : 0 ≤ n ≤ u32_max → to_u32 n = Some n.
Proof. intros Hn. unfold to_u32. by rewrite decide_True. Qed.
Lemma u64_read n : 0 ≤ n → to_u64 n = Some n.
Proof. intros Hn. unfold to_u64. by rewrite decide_True. Qed.

(** Overrides survive the file.  What a task override says, written as a TOML
    table, is what [parse_task_config_override] reads back, field by field, for every
    override a table can express; fields that are not overridden stay so. *)
Theorem overrides_survive_the_file `{UnicodeCase} (o : TaskConfigOverride) :
  writable o → parse_task_config_override (override_table o) = o.
Proof.
  intros W. assert (Forall (λ p, override_table o !! p.1 = p.2) (override_entries o)) as Hl.
  { apply list.Forall_forall. intros [k v]. apply lookup_entries. unfold override_entries. rewrite !fmap_cons.
    apply (bool_decide_unpack _). by vm_compute. }
  unfold parse_task_config_override.
  pose proof (λ n H, u32_read n (wr_max_retries _ W n H)) as W1. pose proof (wr_running _ W) as W2.
  pose proof (λ n H, u64_read n (wr_batch _ W n H)) as W3. pose proof (λ n H, u64_read n (wr_delay _ W n H)) as W4.
  pose proof (λ n H, u64_read n (wr_max_delay _ W n H)) as W5. pose proof (wr_timeout _ W) as W6.
  destruct W as [_ _ W7 W8 W9 _ _ _ _].
  destruct o as [queue priority retries cc rc reg cache keys errors args diff batch wf reroute blocking delay maxd backoff jitter timeout onto].
  set (t := override_table _) in *. clearbody t. unfold override_entries in Hl.
  repeat (apply List.Forall_cons_iff in Hl as [? Hl]). cbn in *.
  f_equal; match goal with H : t !! ?k = _ |- context [t !! ?k] => rewrite H end.
  - by destruct queue.
  - by destruct priority.
  - destruct retries; simpl; [by apply W1|done].
  - destruct cc; simpl; [apply cc_text_parses|done].
  - destruct rc as [c|]; [|done]. destruct (W2 c eq_refl) as (n & -> & Hn). simpl. by rewrite u32_read.
  - destruct reg; simpl; [apply cc_text_parses|done].
  - by destruct cache.
  - destruct keys; simpl; [apply as_strings; congruence|done].
  - destruct errors; simpl; [apply as_strings; congruence|done].
  - destruct args; simpl; [apply as_strings; congruence|done].
  - by destruct diff.
  - destruct batch; simpl; [by apply W3|done].
  - by destruct wf.
  - by destruct reroute.
  - by destruct blocking.
  - destruct delay; simpl; [by apply W4|done].
  - destruct maxd; simpl; [by apply W5|done].
  - by destruct backoff.
  - destruct jitter; simpl; [apply jitter_parses|done].
  - destruct timeout as [[n|]|]; simpl; [|done..]. specialize (W6 n eq_refl).
    rewrite u64_read by lia. simpl. by rewrite (proj2 (Z.ltb_lt 0 n)).
  - by destruct onto.
Qed.

(** ** Witnesses *)

(** Backends are numbers; the preset brings 1 to 5, memory 11 to 15. *)
Definition demo_backends (n : nat) : @ResolvedBackends nat nat nat nat nat :=
  mkResolved n (n + 1)%nat (n + 2)%nat (n + 3)%nat (n + 4)%nat.

Definition demo_builder : @RustvelloBuilder string unit unit nat nat nat nat nat :=
  mkBuilder tt ["app.toml"] false (Some 7%nat) None None None None client_data_store_config_default ∅ override_default
    [] false (Some tt) None.

Definition demo_glob_errors : GlobErrors := {| glob_error _ := "bad pattern" |}.

Lemma built_application_behaviour_witness :
  ∃ app, build (H := literal_glob) (H0 := demo_glob_errors) (λ _ _ _, Ok (app_config_new "app")) (λ _, Ok (demo_backends 1))
           (demo_backends 11) [] demo_builder = Ok app ∧
    retrieval_queues (app_config app) ≠ [] ∧ app_broker app = 7%nat ∧ app_state_backend app = 3%nat.
Proof.
  destruct (built_application_behaviour (λ _ _ _, Ok (app_config_new "app")) (λ _, Ok (demo_backends 1))
    (demo_backends 11) [] (H := literal_glob) (H0 := demo_glob_errors) demo_builder) as [_ Hsound].
  eexists. split; [vm_compute; reflexivity|].
  destruct (Hsound _ eq_refl) as (_ & Hne & _ & preset & [= <-] & Hb & _ & Hs).
  split_and!; [exact Hne|exact Hb|exact Hs].
Defined.

Definition demo_override : TaskConfigOverride :=
  mkOverride (Some "mail") None (Some 3) (Some CCArgument) (Some (Some 2)) None None (Some ["to"]) None None None None
    None None None (Some 250) None None (Some JitterFull) (Some None) (Some true).

Lemma overrides_survive_the_file_witness :
  parse_task_config_override (H := ascii_case) (override_table demo_override) = demo_override.
Proof.
  apply (overrides_survive_the_file (H := ascii_case)). split; try done.
  - intros n [= <-]. vm_compute. intuition congruence.
  - intros c [= <-]. exists 2. split; [done|]. vm_compute. intuition congruence.
  - intros n [= <-]. done.
Defined.
