(* ===== verification/Retrieval.v ===== *)
(** * Batch retrieval

    Models [rustvello/src/orchestration/retrieval.rs]: [get_invocations_to_run],
    which fills a batch from the invocations others wait for and then from the
    broker's queues, moves each candidate to Pending, and turns away those whose
    task is at its limit.

    The theorems: what becomes of one candidate, on every branch; what a batch contains
    on every run that succeeds; that an invocation in durable backoff is delivered by its broker entry only, and that
    on the in-memory runtime a batch takes no concurrency slot. *)
From S2P Require Import Prelude Effects Json Identifiers Status Errors Config Call Invocation Trigger OrchestratorState MemOrchestrator MemOrchestratorFacts MemBroker MemStateBackend TaskCatalog Ports Orchestration Routing Dispatch.

(** The batch and the invocations to reroute at the end. *)
Abbreviation progress := (list InvocationId * list InvocationId)%type.

Section retrieval.
Context {J : JsonValue} {S : Type} {P : Ports S}.

(** Moves a candidate to Pending and adds it to the batch; errors of the history
    and of the trigger manager are dropped. *)
(* @src rustvello/src/orchestration/retrieval.rs 225-270 Orchestrator::try_transition_to_pending *)
Definition try_transition_to_pending (id : InvocationId) (runner : RunnerId) (result : list InvocationId)
    : M RustvelloError S (list InvocationId) :=
  changed ← attempt (ctl_set_invocation_status id Pending (Some runner));
  match changed with
  | inl record =>
      found ← attempt (sb_get_invocation id);
      attempt (sb_add_history (history_entry id record runner));;
      (match tg_manager, found with
       | Some tm, inl inv_dto =>
           args ← get_invocation_arguments id;
           attempt (tm_report_status_change tm (mkStatusContext id (inv_task_id inv_dto) Pending args));;
           mret tt
       | _, _ => mret tt
       end);;
      mret (result ++ [id])
  | inr (EInvalidStatusTransition _ _ _ _) => mret result
  | inr e => throw e
  end.

(* @src rustvello/src/orchestration/retrieval.rs 272-315 Orchestrator::check_cc_for_invocation *)
Definition check_cc_for_invocation (id : InvocationId) (config_for_task : TaskId → option TaskConfig)
    : M RustvelloError S bool :=
  found ← attempt (sb_get_invocation id);
  match found with
  | inr _ => mret true
  | inl inv_dto =>
      match config_for_task (inv_task_id inv_dto) with
      | None => mret true
      | Some config =>
          if bool_decide (tc_concurrency_control config = Unlimited) then mret true
          else
            found_call ← attempt (sb_get_call (inv_call_id inv_dto));
            match found_call with
            | inr _ => mret true
            | inl call_dto =>
                ctl_check_running_concurrency (inv_task_id inv_dto) config
                  (concurrency_arguments (tc_concurrency_control config) (tc_key_arguments config)
                     (cd_serialized_arguments call_dto))
            end
      end
  end.

(** Phase 1: one invocation others wait for. *)
(* @src rustvello/src/orchestration/retrieval.rs 47-78 Orchestrator::get_invocations_to_run *)
Definition retrieve_blocking (runner : RunnerId) (config_for_task : TaskId → option TaskConfig)
    (max_num : nat) (result : list InvocationId) (id : InvocationId)
    : M RustvelloError S (list InvocationId) :=
  if (max_num <=? length result)%nat then mret result
  else
    found ← attempt (ctl_get_invocation_status id);
    match found with
    | inr _ => mret result
    | inl status_rec =>
        if bool_decide (rec_status status_rec = Retry) ||
           negb (can_transition_to (rec_status status_rec) Pending)
        then mret result
        else
          cc_ok ← check_cc_for_invocation id config_for_task;
          if (cc_ok : bool) then try_transition_to_pending id runner result
          else mret result
    end.

(** The first entry of the queues, polled in order. *)
(* @src rustvello/src/orchestration/retrieval.rs 86-97 Orchestrator::get_invocations_to_run *)
Fixpoint poll_queues_in_order (queue_names : list string) : M RustvelloError S (option InvocationId) :=
  match queue_names with
  | [] => mret None
  | q :: rest =>
      found ← br_retrieve_invocation_from_queue q None;
      match found with
      | Some id => mret (Some id)
      | None => poll_queues_in_order rest
      end
  end.

(** A candidate whose task is at its limit. *)
(* @src rustvello/src/orchestration/retrieval.rs 121-184 Orchestrator::get_invocations_to_run *)
Definition deny_candidate (runner : RunnerId) (config_for_task : TaskId → option TaskConfig)
    (acc : progress) (id : InvocationId) : M RustvelloError S progress :=
  found ← attempt (sb_get_invocation id);
  match found with
  | inr _ => mret acc
  | inl inv_dto =>
      match config_for_task (inv_task_id inv_dto) with
      | Some config =>
          if tc_reroute_on_cc config then
            p ← publication;
            match p with
            | Some pub =>
                unless_invalid
                  (pub_change pub id runner
                     (ChangeConcurrencyReroute (mkRoute (tc_queue config) (tc_priority config))) false)
                  (mret tt);;
                mret acc
            | None =>
                r ← attempt (ctl_set_invocation_status id ConcurrencyControlled (Some runner));
                match r with
                | inl _ => mret (acc.1, acc.2 ++ [id])
                | inr (EInvalidStatusTransition _ _ _ _) => mret acc
                | inr e => throw e
                end
            end
          else
            unless_invalid (ctl_set_invocation_status id ConcurrencyControlledFinal (Some runner)) (mret tt);;
            mret acc
      | None =>
          unless_invalid (ctl_set_invocation_status id ConcurrencyControlledFinal (Some runner)) (mret tt);;
          mret acc
      end
  end.

(** One candidate a queue delivered. *)
(* @src rustvello/src/orchestration/retrieval.rs 99-189 Orchestrator::get_invocations_to_run *)
Definition retrieve_candidate (runner : RunnerId) (config_for_task : TaskId → option TaskConfig)
    (acc : progress) (id : InvocationId) : M RustvelloError S progress :=
  if bool_decide (id ∈ acc.1) then mret acc
  else
    found ← attempt (ctl_get_invocation_status id);
    match found with
    | inr _ => mret acc
    | inl status_rec =>
        if negb (is_available_for_run (rec_status status_rec)) then mret acc
        else
          cc_ok ← check_cc_for_invocation id config_for_task;
          if (cc_ok : bool) then
            result ← try_transition_to_pending id runner acc.1;
            mret (result, acc.2)
          else deny_candidate runner config_for_task acc id
    end.

(** Phase 2, with the attempts that are left. *)
(* @src rustvello/src/orchestration/retrieval.rs 81-189 Orchestrator::get_invocations_to_run *)
Fixpoint retrieve_queued (runner : RunnerId) (config_for_task : TaskId → option TaskConfig)
    (queue_names : list string) (max_num : nat) (attempts : nat) (acc : progress)
    : M RustvelloError S progress :=
  match attempts with
  | O => mret acc
  | Datatypes.S attempts' =>
      if (max_num <=? length acc.1)%nat then mret acc
      else
        candidate ← poll_queues_in_order queue_names;
        match candidate with
        | None => mret acc
        | Some id =>
            acc ← retrieve_candidate runner config_for_task acc id;
            retrieve_queued runner config_for_task queue_names max_num attempts' acc
        end
  end.

(** Phase 3: one denied invocation, back to its queue; errors of the broker are
    dropped. *)
(* @src rustvello/src/orchestration/retrieval.rs 191-217 Orchestrator::get_invocations_to_run *)
Definition reroute_denied (runner : RunnerId) (config_for_task : TaskId → option TaskConfig)
    (id : InvocationId) : M RustvelloError S unit :=
  r ← attempt (ctl_set_invocation_status id Rerouted (Some runner));
  match r with
  | inl _ =>
      found ← attempt (sb_get_invocation id);
      match found with
      | inl invocation =>
          match config_for_task (inv_task_id invocation) with
          | Some config =>
              attempt (br_route_invocation_with_options id (Some (inv_task_id invocation))
                         (tc_queue config) (tc_priority config));;
              mret tt
          | None => mret tt
          end
      | inr _ => mret tt
      end
  | inr (EInvalidStatusTransition _ _ _ _) => mret tt
  | inr e => throw e
  end.

(** [max_num_invocations * 2 + 8] on a 64-bit [usize]. *)
(* @src rustvello/src/orchestration/retrieval.rs 81-81 Orchestrator::get_invocations_to_run *)
Definition retrieval_attempts (max_num : nat) : nat :=
  Z.to_nat ((Z.of_nat max_num * 2 + 8) mod 18446744073709551616).

(* @src rustvello/src/orchestration/retrieval.rs 30-220 Orchestrator::get_invocations_to_run *)
Definition get_invocations_to_run (max_num : nat) (runner : RunnerId) (queue_names : list string)
    (config_for_task : TaskId → option TaskConfig) : M RustvelloError S (list InvocationId) :=
  blocking ← attempt (ctl_get_blocking_invocations max_num);
  result ← (match blocking with
            | inl ids => for_fold (retrieve_blocking runner config_for_task max_num) [] ids
            | inr _ => mret []
            end);
  acc ← retrieve_queued runner config_for_task queue_names max_num (retrieval_attempts max_num) (result, []);
  for_each (reroute_denied runner config_for_task) acc.2;;
  mret acc.1.

(** The configuration of a task, for the batch of an application. *)
(* @src rustvello/src/app/delegation.rs 197-201 RustvelloApp::get_invocations_to_run *)
Definition resolver `{Environment} `{ParseF64} `{UnicodeCase} `{Glob}
    (app_config : AppConfig) (catalog : TaskCatalog) (t : TaskId) : option TaskConfig :=
  (λ task, fst (resolve_config catalog app_config t (dt_config task))) <$> catalog_get catalog t.

(* @src rustvello/src/app/delegation.rs 192-211 RustvelloApp::get_invocations_to_run *)
Definition app_get_invocations_to_run `{Environment} `{ParseF64} `{UnicodeCase} `{Glob} `{Shuffle}
    (app_config : AppConfig) (catalog : TaskCatalog) (max_num : nat) (runner : RunnerId)
    : M RustvelloError S (list InvocationId) :=
  queue_names ← queue_names_for_retrieval app_config;
  get_invocations_to_run max_num runner queue_names (resolver app_config catalog).
End retrieval.

(** ** What a batch contains *)

Section settles.
Context {J : JsonValue} {S : Type} (view : S → RuntimeView).

(** When [m] succeeds, its value and the view it leaves satisfy [Q]. *)
Definition settles {A} (m : M RustvelloError S A) (c : Clock) (s : S) (Q : A → RuntimeView → Prop) : Prop :=
  match result_of m c s with
  | Ok a => Q a (view (state_after m c s))
  | _ => True
  end.

Lemma settles_bind {A B} (m : M RustvelloError S A) (f : A → M RustvelloError S B) c s Q :
  settles m c s (λ a v, ∀ c1 s1, view s1 = v → settles (f a) c1 s1 Q) → settles (m ≫= f) c s Q.
Proof.
  unfold settles, result_of, state_after, mbind, M_bind.
  destruct (m c s) as [[[a|e|p] c1] s1]; simpl; [|done..]. intros H. by apply H.
Qed.

Lemma settles_conseq {A} (m : M RustvelloError S A) c s (Q Q' : A → RuntimeView → Prop) :
  settles m c s Q → (∀ a v, Q a v → Q' a v) → settles m c s Q'.
Proof. unfold settles. destruct (result_of m c s); auto. Qed.

Lemma settles_ret {A} (a : A) c s (Q : A → RuntimeView → Prop) :
  Q a (view s) → settles (mret a) c s Q.
Proof. done. Qed.

Lemma settles_throw {A} e c s (Q : A → RuntimeView → Prop) : settles (throw e) c s Q.
Proof. done. Qed.

Lemma settles_yields {A} (m : M RustvelloError S A) c s r v (Q : A → RuntimeView → Prop) :
  yields view m c s r v → (∀ a, r = Ok a → Q a v) → settles m c s Q.
Proof. intros (c1 & s1 & Hm & <-) HQ. unfold settles, result_of, state_after. rewrite Hm. simpl. destruct r; auto. Qed.

(** An operation that leaves the view alone, whatever it returns. *)
Lemma settles_quiet {A} (m : M RustvelloError S A) c s (Q : A → RuntimeView → Prop) :
  respects (λ s s', view s' = view s) m → (∀ a, Q a (view s)) → settles m c s Q.
Proof. unfold settles. intros Hm HQ. specialize (Hm c s). simpl in Hm. rewrite Hm. destruct (result_of m c s); auto. Qed.

Definition same_view : relation S := λ s s', view s' = view s.

#[export] Instance same_view_preorder : PreOrder same_view.
Proof. split; unfold same_view; [done|]. intros s1 s2 s3 H1 H2. congruence. Qed.

Lemma yields_same_view {A} (m : M RustvelloError S A) :
  (∀ c s, ∃ r, yields view m c s r (view s)) → respects same_view m.
Proof. intros H c s. destruct (H c s) as (r & c1 & s1 & Hm & Hv). unfold same_view, state_after. by rewrite Hm. Qed.

Lemma settles_for_fold {A B} (f : B → A → M RustvelloError S B) (I : B → RuntimeView → Prop) l b c s :
  (∀ b a c s, I b (view s) → settles (f b a) c s I) → I b (view s) → settles (for_fold f b l) c s I.
Proof.
  intros Hf. revert b c s. induction l as [|a l IH]; intros b c s Hb; simpl; [by apply settles_ret|].
  apply settles_bind. eapply settles_conseq; [by apply Hf|]. intros b' v Hb' c1 s1 <-. by apply IH.
Qed.

Lemma settles_for_each {A} (f : A → M RustvelloError S unit) (I : RuntimeView → Prop) l c s :
  (∀ a c s, a ∈ l → I (view s) → settles (f a) c s (λ _, I)) → I (view s) →
  settles (for_each f l) c s (λ _, I).
Proof.
  revert c s. induction l as [|a l IH]; intros c s Hf Hs; simpl; [by apply settles_ret|].
  apply settles_bind. eapply settles_conseq; [apply Hf; [by left|done]|]. intros _ v Hv c1 s1 <-.
  apply IH; [|done]. intros a' c2 s2 Ha. apply Hf. by right.
Qed.
End settles.

Section batch.
Context {J : JsonValue} {S : Type} {P : Ports S} (view : S → RuntimeView) {L : PortLaws P view}.
Context (runner : RunnerId) (config_for_task : TaskId → option TaskConfig) (queues : list string)
  (max_num : nat) (v0 : RuntimeView).

(** An invocation of the batch: it could be started, one that waits to be retried
    had an entry in one of the queues, and it is Pending under the runner with
    one record of it in its history. *)
Record taken (v : RuntimeView) (id : InvocationId) : Prop := {
  tk_before : ∃ rec, v_status v0 !! id = Some rec ∧ can_transition_to (rec_status rec) Pending = true ∧
    (rec_status rec = Retry →
       ∃ e, e ∈ v_queue v0 ∧ q_invocation_id e = id ∧ q_queue_name e ∈ queues);
  tk_after : ∃ now, let rec := mkRecord Pending (Some runner) now in
    v_status v !! id = Some rec ∧
    entries (v_histories v) id = entries (v_histories v0) id ++ [history_entry id rec runner]
}.

(** Any other invocation: as it was, or turned away. *)
Record passed_over (away : list InvocationStatus) (v : RuntimeView) (id : InvocationId) : Prop := {
  po_status : v_status v !! id = v_status v0 !! id ∨
    ∃ rec, v_status v !! id = Some rec ∧ rec_status rec ∈ away;
  po_history : entries (v_histories v) id = entries (v_histories v0) id
}.

(** Everything else a batch leaves alone. *)
Definition same_records (v : RuntimeView) : Prop :=
  v_invocations v = v_invocations v0 ∧ v_calls v = v_calls v0 ∧ v_results v = v_results v0 ∧
  v_errors v = v_errors v0 ∧ v_retries v = v_retries v0.

Abbreviation denied_away := [ConcurrencyControlled; ConcurrencyControlledFinal].

(** The invariant of the first two phases. *)
Record filling (acc : list InvocationId * list InvocationId) (v : RuntimeView) : Prop := {
  fl_size : (length acc.1 ≤ max_num)%nat;
  fl_distinct : NoDup acc.1;
  fl_taken id : id ∈ acc.1 → taken v id;
  fl_denied id : id ∈ acc.2 → ∃ rec, v_status v !! id = Some rec ∧ rec_status rec = ConcurrencyControlled;
  fl_others id : id ∉ acc.1 → passed_over denied_away v id;
  fl_queue e : e ∈ v_queue v → e ∈ v_queue v0;
  fl_rest : same_records v
}.

Lemma check_cc_quiet id : respects (same_view view) (check_cc_for_invocation id config_for_task).
Proof.
  unfold check_cc_for_invocation. solve_respects; apply yields_same_view; intros c1 s1.
  - eexists. apply pl_get_invocation.
  - edestruct pl_get_call as [e Hc]. eexists. exact Hc.
  - edestruct pl_check as [b Hb]. eexists. exact Hb.
Qed.

(** What an accepted move to [st] leaves: the record the machine computes. *)
Lemma set_status_settles id st c s (Q : InvocationStatusRecord + RustvelloError → RuntimeView → Prop) :
  (∀ cur now, v_status (view s) !! id = Some cur → may_transition cur st (Some runner) →
     Q (inl (moved now cur st (Some runner))) (set_v_status <[id := moved now cur st (Some runner)]> (view s))) →
  (∀ e, Q (inr e) (view s)) →
  settles view (attempt (ctl_set_invocation_status id st (Some runner))) c s Q.
Proof.
  intros Hok Herr. pose proof (pl_set_status id st (Some runner) c s) as Hy. cbv zeta in Hy.
  pose proof (status_change_cases (view s) id st (Some runner)) as Hcase. apply yields_attempt in Hy.
  destruct (v_status (view s) !! id) as [cur|] eqn:Hcur.
  - case_decide as Hm.
    + rewrite Hcase in Hy. eapply settles_yields; [exact Hy|]. intros a [= <-]. by apply Hok.
    + destruct (Hcase (clock_next c).1) as (e & He & _). rewrite He in Hy.
      eapply settles_yields; [exact Hy|]. intros a [= <-]. apply Herr.
  - rewrite Hcase in Hy. eapply settles_yields; [exact Hy|]. intros a [= <-]. apply Herr.
Qed.

Lemma pending_not_away away st :
  away ⊆ [ConcurrencyControlled; ConcurrencyControlledFinal] → can_transition_to st Pending = true → st ∉ away.
Proof. intros Ha Hst Hin%Ha. revert Hst. set_unfold. destruct Hin as [Hin|[Hin|[]]]; rewrite Hin; vm_compute; discriminate. Qed.

Lemma moved_pending now cur : moved now cur Pending (Some runner) = mkRecord Pending (Some runner) now.
Proof. reflexivity. Qed.

(** A candidate that may start enters the batch. *)
Lemma taken_step acc id cur now v :
  filling acc v → id ∉ acc.1 → (length acc.1 < max_num)%nat →
  v_status v !! id = Some cur → can_transition_to (rec_status cur) Pending = true →
  (rec_status cur = Retry → ∃ e, e ∈ v_queue v0 ∧ q_invocation_id e = id ∧ q_queue_name e ∈ queues) →
  let rec := mkRecord Pending (Some runner) now in
  filling (acc.1 ++ [id], acc.2) (add_v_history (history_entry id rec runner) (set_v_status <[id := rec]> v)).
Proof.
  intros [Hsize Hnd Htaken Hden Hoth Hq Hrest] Hid Hlt Hcur Hcan Hretry rec.
  assert (id ∉ acc.2) as Hid2.
  { intros Hin. destruct (Hden id Hin) as (r & Hr & Hst). simplify_eq. rewrite Hst in Hcan. by vm_compute in Hcan. }
  assert (∀ j, j ≠ id → entries (v_histories (add_v_history (history_entry id rec runner)
    (set_v_status <[id := rec]> v))) j = entries (v_histories v) j) as Hent.
  { intros j Hj. unfold entries, add_v_history, push_entry. simpl. by rewrite lookup_insert_ne. }
  split; simpl.
  - rewrite length_app. simpl. lia.
  - apply list.NoDup_app. split_and!; [done| |apply NoDup_singleton].
    intros x Hx ->%list_elem_of_singleton. done.
  - intros j. rewrite elem_of_app, list_elem_of_singleton. intros [Hj| ->].
    + assert (j ≠ id) as Hne by (by intros ->). destruct (Htaken j Hj) as [Hb (now' & Ha & Hh)].
      split; [done|]. exists now'. rewrite Hent by done. simpl. by rewrite lookup_insert_ne.
    + destruct (Hoth _ Hid) as [Hst Hh]. split.
      * exists cur. split_and!; [|done|done]. destruct Hst as [<-|(r & Hr & Haway)]; [done|].
        simplify_eq. by eapply pending_not_away in Haway.
      * exists now. simpl. rewrite lookup_insert_eq. split; [done|]. rewrite <-Hh.
        unfold entries, add_v_history, push_entry. simpl. by rewrite lookup_insert_eq.
  - intros j Hj. destruct (Hden j Hj) as (r & ? & ?). exists r. rewrite lookup_insert_ne; [done|]. by intros ->.
  - intros j Hj. assert ((j ∉ acc.1) ∧ j ≠ id) as [Hj1 Hj2] by set_solver.
    destruct (Hoth j Hj1) as [Hst Hh]. split; [|by rewrite Hent].
    simpl. by rewrite lookup_insert_ne.
  - done.
  - done.
Qed.

Lemma report_quiet tm ctx : tg_manager = Some tm → respects (same_view view) (tm_report_status_change tm ctx).
Proof. intros Htm. apply yields_same_view. intros c s. by apply pl_report. Qed.

Lemma arguments_quiet id : respects (same_view view) (get_invocation_arguments id).
Proof. apply yields_same_view. intros c s. destruct (get_arguments_silent view id c s) as [x Hx]. by eexists. Qed.

Lemma try_transition_settles acc id cur c s :
  filling acc (view s) → id ∉ acc.1 → (length acc.1 < max_num)%nat →
  v_status (view s) !! id = Some cur → can_transition_to (rec_status cur) Pending = true →
  (rec_status cur = Retry → ∃ e, e ∈ v_queue v0 ∧ q_invocation_id e = id ∧ q_queue_name e ∈ queues) →
  settles view (try_transition_to_pending id runner acc.1) c s (λ result, filling (result, acc.2)).
Proof.
  intros Hf Hid Hlt Hcur Hcan Hretry. unfold try_transition_to_pending. apply settles_bind, set_status_settles.
  2: { intros e c1 s1 Hv. assert (settles view (mret acc.1) c1 s1 (λ result, filling (result, acc.2))) as Hret.
       { apply settles_ret. rewrite Hv. by destruct acc. }
       by destruct e. }
  intros cur' now Hcur' _ c1 s1 Hv1. simplify_eq. rewrite moved_pending in *.
  pose proof (taken_step acc id cur now (view s) Hf Hid Hlt Hcur Hcan Hretry) as Hnew. cbv zeta in Hnew.
  rewrite <-Hv1 in Hnew. clear Hv1.
  apply settles_bind, settles_quiet.
  { apply respects_attempt, yields_same_view. intros. eexists. apply pl_get_invocation. }
  intros found c2 s2 Hv2. rewrite <-Hv2 in Hnew. clear Hv2.
  pose proof (pl_add_history (history_entry id (mkRecord Pending (Some runner) now) runner) c2 s2) as Hh.
  apply yields_attempt in Hh. apply settles_bind. eapply settles_yields; [exact Hh|]. intros _ _ c3 s3 Hv3.
  rewrite <-Hv3 in Hnew. apply settles_bind, settles_quiet.
  { destruct tg_manager as [tm|] eqn:Htm; [|apply respects_ret, _].
    destruct found as [i|]; [|apply respects_ret, _]. apply respects_bind; [apply _|apply arguments_quiet|].
    intros args. apply respects_bind; [apply _| |intros _; apply respects_ret, _].
    by apply respects_attempt, report_quiet. }
  intros _ c4 s4 Hv4. apply settles_ret. by rewrite Hv4.
Qed.

Lemma retrieve_blocking_settles den result id c s :
  filling (result, den) (view s) →
  settles view (retrieve_blocking runner config_for_task max_num result id) c s (λ result, filling (result, den)).
Proof.
  intros Hf. unfold retrieve_blocking. destruct (Nat.leb_spec max_num (length result)) as [|Hlt]; [by apply settles_ret|].
  pose proof (pl_get_status id c s) as Hg. apply yields_attempt in Hg. apply settles_bind.
  eapply settles_yields; [exact Hg|]. intros found Hfound c1 s1 Hv1. rewrite <-Hv1 in *. clear Hg Hv1.
  destruct (v_status (view s1) !! id) as [cur|] eqn:Hcur; simplify_eq/=; [|by apply settles_ret].
  case_bool_decide as Hretry; [by apply settles_ret|]. simpl.
  destruct (can_transition_to (rec_status cur) Pending) eqn:Hcan; [|by apply settles_ret]. simpl.
  apply settles_bind, settles_quiet; [apply check_cc_quiet|]. intros [] c2 s2 Hv2; rewrite <-Hv2 in *;
    [|by apply settles_ret].
  apply (try_transition_settles (result, den) id cur); try done.
  simpl. intros Hin. destruct (fl_taken _ _ Hf _ Hin) as [_ (now & Ha & _)]. simpl in Ha.
  by simplify_eq.
Qed.

(** Phases 2 and 3. *)

Lemma filling_queue acc v l :
  filling acc v → (∀ e, e ∈ l → e ∈ v_queue v) → filling acc (set_v_queue (λ _, l) v).
Proof. intros [? ? Ht ? Ho Hq ?] Hl. split; auto; intros id; [intros [? ?]%Ht|intros [? ?]%Ho]; by split. Qed.

(** A poll takes one entry of one of the queues, or nothing. *)
Lemma poll_settles acc l c s :
  filling acc (view s) → l ⊆ queues →
  settles view (poll_queues_in_order l) c s (λ found v, filling acc v ∧ v_status v = v_status (view s) ∧
    ∀ id, found = Some id → ∃ e, e ∈ v_queue v0 ∧ q_invocation_id e = id ∧ q_queue_name e ∈ queues).
Proof.
  revert c s. induction l as [|q l IH]; intros c s Hf Hl; simpl; [by apply settles_ret|].
  apply settles_bind. destruct (valid_queue_name q) eqn:Hvq.
  2: { destruct (pl_retrieve_invalid Rust q None c s Hvq) as [_ [e He]]. by eapply settles_yields. }
  pose proof (pl_retrieve_queue q None c s Hvq) as Hr. cbv zeta in Hr.
  pose proof (retrieve_best_spec (matches_task q None (clock_next c).1) (v_queue (view s))) as Hb.
  destruct (retrieve_best _ _) as [[id|] rest]; simpl in Hr; eapply settles_yields; try exact Hr;
    intros found [= <-] c1 s1 Hv1.
  - destruct Hb as (e & He & Hb). pose proof (best_perm _ _ _ _ Hb) as Hperm.
    assert (e ∈ v_queue (view s)) as Hin by (rewrite Hperm; by left).
    apply settles_ret. rewrite Hv1. split_and!; [|done|].
    + apply filling_queue; [done|]. intros e' He'. rewrite Hperm. by right.
    + intros id' [= <-]. exists e. split_and!; [by apply (fl_queue _ _ Hf)|done|].
      destruct Hb as (older & newer & _ & _ & Hm & _). unfold matches_task in Hm.
      case_bool_decide as Hn; [|done]. rewrite Hn. apply Hl. by left.
  - destruct Hb as [-> _]. rewrite set_queue_same in Hv1. rewrite <-Hv1 in *.
    apply IH; [done|]. intros x Hx. apply Hl. by right.
Qed.

(** A denied invocation leaves the statuses of the batch alone. *)
Lemma denied_step acc acc2 id st now v :
  filling acc v → id ∉ acc.1 →
  st ∈ denied_away → (∀ j, j ∈ acc2 → j ∈ acc.2 ∨ j = id ∧ st = ConcurrencyControlled) →
  (id ∈ acc.2 → st = ConcurrencyControlled) →
  filling (acc.1, acc2) (set_v_status <[id := mkRecord st None now]> v).
Proof.
  intros [Hsize Hnd Htaken Hden Hoth Hq Hrest] Hid Hst Hacc2 Hsame. split; simpl; try done.
  - intros j Hj. assert (j ≠ id) as Hne by (by intros ->). destruct (Htaken j Hj) as [Hb (now' & Ha & Hh)].
    split; [done|]. exists now'. simpl. by rewrite lookup_insert_ne.
  - intros j Hj. destruct (decide (j = id)) as [->|Hne].
    + rewrite lookup_insert_eq. eexists. split; [done|]. simpl. destruct (Hacc2 _ Hj) as [|[_ ?]]; auto.
    + rewrite lookup_insert_ne by done. destruct (Hacc2 _ Hj) as [?|[? _]]; [by apply Hden|done].
  - intros j Hj. destruct (Hoth j Hj) as [Hs Hh]. split; [|done]. simpl.
    destruct (decide (j = id)) as [->|Hne]; [|by rewrite lookup_insert_ne].
    rewrite lookup_insert_eq. right. by eexists.
Qed.

Lemma reject_settles acc id c s :
  filling acc (view s) → id ∉ acc.1 → id ∉ acc.2 →
  settles view (unless_invalid (ctl_set_invocation_status id ConcurrencyControlledFinal (Some runner)) (mret tt);;
                mret acc) c s filling.
Proof.
  intros Hf Hid Hid2. unfold unless_invalid. apply settles_bind, settles_bind, set_status_settles.
  - intros cur now _ _ c1 s1 Hv1. apply settles_ret. intros c2 s2 Hv2. apply settles_ret. rewrite Hv2, Hv1.
    destruct acc as [res den].
    apply (denied_step (res, den)); [done|done|right; by left|by left|done].
  - intros e c1 s1 Hv1. destruct e; try apply settles_throw.
    apply settles_ret. intros c2 s2 Hv2. apply settles_ret. by rewrite Hv2, Hv1.
Qed.

Lemma deny_settles acc id c s :
  filling acc (view s) → id ∉ acc.1 → id ∉ acc.2 →
  settles view (deny_candidate runner config_for_task acc id) c s filling.
Proof.
  intros Hf Hid Hid2. unfold deny_candidate. apply settles_bind, settles_quiet.
  { apply respects_attempt, yields_same_view. intros. eexists. apply pl_get_invocation. }
  intros found c1 s1 Hv1. rewrite <-Hv1 in Hf. destruct found as [inv_dto|]; [|by apply settles_ret].
  destruct (config_for_task (inv_task_id inv_dto)) as [config|]; [|by apply reject_settles].
  destruct (tc_reroute_on_cc config); [|by apply reject_settles].
  unfold publication. rewrite pl_nontransactional. apply settles_bind, settles_ret. intros c2 s2 Hv2.
  rewrite <-Hv2 in Hf. apply settles_bind, set_status_settles.
  - intros cur now _ _ c3 s3 Hv3. apply settles_ret. rewrite Hv3.
    apply denied_step; [done|done|by left| |done]. intros j. rewrite elem_of_app, list_elem_of_singleton. tauto.
  - intros e c3 s3 Hv3. destruct e; try apply settles_throw. apply settles_ret. by rewrite Hv3.
Qed.

Lemma available_starts st : is_available_for_run st = true → can_transition_to st Pending = true.
Proof. by destruct st. Qed.

Lemma retrieve_candidate_settles acc id c s :
  filling acc (view s) → (length acc.1 < max_num)%nat →
  (∃ e, e ∈ v_queue v0 ∧ q_invocation_id e = id ∧ q_queue_name e ∈ queues) →
  settles view (retrieve_candidate runner config_for_task acc id) c s filling.
Proof.
  intros Hf Hlt Hentry. unfold retrieve_candidate. case_bool_decide as Hid; [by apply settles_ret|].
  pose proof (pl_get_status id c s) as Hg. apply yields_attempt in Hg. apply settles_bind.
  eapply settles_yields; [exact Hg|]. intros found Hfound c1 s1 Hv1. rewrite <-Hv1 in *. clear Hg Hv1.
  destruct (v_status (view s1) !! id) as [cur|] eqn:Hcur; simplify_eq/=; [|by apply settles_ret].
  destruct (is_available_for_run (rec_status cur)) eqn:Hav; [|by apply settles_ret]. simpl.
  apply settles_bind, settles_quiet; [apply check_cc_quiet|]. intros ok c2 s2 Hv2. rewrite <-Hv2 in *. destruct ok.
  - apply settles_bind. eapply settles_conseq.
    + apply (try_transition_settles acc id cur); try done. by apply available_starts.
    + intros result v Hnew c3 s3 Hv3. apply settles_ret. by rewrite Hv3.
  - apply deny_settles; [done|done|]. intros Hin. destruct (fl_denied _ _ Hf _ Hin) as (r & ? & Hst).
    simplify_eq. by rewrite Hst in Hav.
Qed.

Lemma retrieve_queued_settles attempts acc c s :
  filling acc (view s) →
  settles view (retrieve_queued runner config_for_task queues max_num attempts acc) c s filling.
Proof.
  revert acc c s. induction attempts as [|n IH]; intros acc c s Hf; simpl; [by apply settles_ret|].
  destruct (Nat.leb_spec max_num (length acc.1)) as [|Hlt]; [by apply settles_ret|].
  apply settles_bind. eapply settles_conseq; [by apply (poll_settles acc)|].
  intros found v (Hf' & _ & Hentry) c1 s1 <-. destruct found as [id|]; [|by apply settles_ret].
  apply settles_bind. eapply settles_conseq; [apply retrieve_candidate_settles; [done|done|by apply Hentry]|].
  intros acc' v' Hacc' c2 s2 <-. by apply IH.
Qed.

(** What a batch leaves. *)
Record retrieved (l : list InvocationId) (v : RuntimeView) : Prop := {
  rt_size : (length l ≤ max_num)%nat;
  rt_distinct : NoDup l;
  rt_taken id : id ∈ l → taken v id;
  rt_others id : id ∉ l →
    passed_over [ConcurrencyControlled; ConcurrencyControlledFinal; Rerouted] v id;
  rt_queue e : e ∈ v_queue v → e ∈ v_queue v0 ∨
    (q_invocation_id e ∉ l) ∧ ∃ rec, v_status v !! q_invocation_id e = Some rec ∧ rec_status rec = Rerouted;
  rt_rest : same_records v
}.

Lemma filling_retrieved acc v : filling acc v → retrieved acc.1 v.
Proof.
  intros [? ? ? ? Ho Hq ?]. split; auto. intros id Hid. destruct (Ho id Hid) as [[?|(r & ? & Hr)] ?];
    split; auto. right. exists r. split; [done|]. set_solver.
Qed.

Lemma reroute_settles l id c s :
  retrieved l (view s) → id ∉ l →
  settles view (reroute_denied runner config_for_task id) c s (λ _, retrieved l).
Proof.
  intros Hr Hid. unfold reroute_denied. apply settles_bind, set_status_settles.
  2: { intros e c1 s1 Hv1. destruct e; try apply settles_throw. apply settles_ret. by rewrite Hv1. }
  intros cur now _ _ c1 s1 Hv1.
  assert (retrieved l (view s1)) as Hr1.
  { rewrite Hv1. destruct Hr as [Hsize Hnd Ht Ho Hq Hrest]. split; simpl; try done.
    - intros j Hj. assert (j ≠ id) as Hne by (by intros ->). destruct (Ht j Hj) as [Hb (now' & Ha & Hh)].
      split; [done|]. exists now'. simpl. by rewrite lookup_insert_ne.
    - intros j Hj. destruct (Ho j Hj) as [Hs Hh]. split; [|done]. simpl.
      destruct (decide (j = id)) as [->|Hne]; [|by rewrite lookup_insert_ne].
      rewrite lookup_insert_eq. right. eexists. split; [done|]. vm_compute. by right; right; left.
    - intros e He. destruct (Hq e He) as [?|(Hl & rec & Hrec & Hst)]; [by left|right]. split; [done|].
      destruct (decide (q_invocation_id e = id)) as [->|Hne].
      + rewrite lookup_insert_eq. by eexists.
      + rewrite lookup_insert_ne by done. by eexists. }
  assert (∃ rec, v_status (view s1) !! id = Some rec ∧ rec_status rec = Rerouted) as Hre.
  { rewrite Hv1. simpl. rewrite lookup_insert_eq. by eexists. }
  clear Hv1 Hr. apply settles_bind, settles_quiet.
  { apply respects_attempt, yields_same_view. intros. eexists. apply pl_get_invocation. }
  intros found c2 s2 Hv2. rewrite <-Hv2 in *. destruct found as [i|]; [|by apply settles_ret].
  destruct (config_for_task (inv_task_id i)) as [config|]; [|by apply settles_ret].
  pose proof (pl_route id (Some (inv_task_id i)) (tc_queue config) (tc_priority config) c2 s2) as Hy.
  cbv zeta in Hy. apply yields_attempt in Hy. apply settles_bind. eapply settles_yields; [exact Hy|].
  intros _ _ c3 s3 Hv3. apply settles_ret. rewrite Hv3.
  destruct (validate_routing _ _) as [[]|e|p]; simpl; try exact Hr1.
  destruct Hr1 as [Hsize Hnd Ht Ho Hq Hrest]. split; simpl; try done.
  - intros j Hj. destruct (Ht j Hj). by split.
  - intros j Hj. destruct (Ho j Hj). by split.
  - intros e. rewrite elem_of_app, list_elem_of_singleton. intros [He| ->]; [by apply Hq|]. right. by split.
Qed.
End batch.

(** A batch that is returned has at most the requested size and no
    duplicates.  Each of its invocations could be started before - one that waits
    to be retried only with an entry in one of the queues, since an invocation
    others wait for is skipped while it backs off - and is now Pending under the
    runner, with exactly one new history record, of that.  Every other invocation
    keeps its history and its status, unless its task was at its limit and it was
    turned away; the queue holds no entries but the old ones and those of rerouted
    invocations; no invocation, call, result, error or retry count changes. *)
Theorem batch_behaviour `{J : JsonValue} {S : Type} {P : Ports S} (view : S → RuntimeView)
    {L : PortLaws P view} max_num runner queues config_for_task c s :
  let m := get_invocations_to_run max_num runner queues config_for_task in
  match result_of m c s with
  | Ok l => retrieved runner queues max_num (view s) l (view (state_after m c s))
  | _ => True
  end.
Proof.
  intros m. change (settles view m c s (retrieved runner queues max_num (view s))).
  assert (filling runner queues max_num (view s) ([], []) (view s)) as H0.
  { split; simpl; [lia|constructor|intros id Hin; by apply elem_of_nil in Hin|intros id Hin; by apply elem_of_nil in Hin| |done|done].
    intros id _. split; [by left|done]. }
  unfold m, get_invocations_to_run. destruct (pl_blocking max_num c s) as [ids Hb]. apply yields_attempt in Hb.
  apply settles_bind. eapply settles_yields; [exact Hb|]. intros blocking [= <-] c1 s1 Hv1. apply settles_bind.
  eapply settles_conseq.
  { apply (settles_for_fold view _ (λ result, filling runner queues max_num (view s) (result, []))).
    - intros b a c2 s2. by apply retrieve_blocking_settles.
    - by rewrite Hv1. }
  intros result v Hf c2 s2 <-. apply settles_bind. eapply settles_conseq; [by apply retrieve_queued_settles|].
  intros acc v Hf2 c3 s3 <-. apply settles_bind. eapply settles_conseq.
  { apply (settles_for_each view _ (retrieved runner queues max_num (view s) acc.1)).
    - intros id c4 s4 Hid Hr. apply (reroute_settles view); [done|]. intros Hin.
      destruct (fl_denied _ _ _ _ _ _ Hf2 _ Hid) as (rec & Hrec & Hst).
      destruct (fl_taken _ _ _ _ _ _ Hf2 _ Hin) as [_ (now & Ha & _)]. simpl in Ha. by simplify_eq.
    - by apply (filling_retrieved view). }
  intros _ v Hr c4 s4 <-. by apply settles_ret.
Qed.

(** ** One candidate of a queue *)

(** The invocations that run, or are about to, among those that hold a slot for the
    same arguments. *)
Definition busy_holders (x : OrchestratorState) (t : TaskId) (args : option SerializedArguments) : nat :=
  size (filter (λ id, running_or_pending x id = true)
    (slot_holders x (task_id_display t) (cc_arg_pairs (default arguments_new args)))).

(** The limit a candidate is checked against, and its arguments. *)
Definition checked (v : RuntimeView) (config_for_task : TaskId → option TaskConfig) (id : InvocationId)
    : option (TaskId * TaskConfig * option SerializedArguments) :=
  i ← v_invocations v !! id;
  config ← config_for_task (inv_task_id i);
  if decide (tc_concurrency_control config = Unlimited) then None
  else
    call ← v_calls v !! call_id_display (inv_call_id i);
    Some (inv_task_id i, config, concurrency_arguments (tc_concurrency_control config) (tc_key_arguments config)
                                   (cd_serialized_arguments call)).

(** The configuration of the task that is at its limit, if it is. *)
Definition at_limit (x : OrchestratorState) (v : RuntimeView) (config_for_task : TaskId → option TaskConfig)
    (id : InvocationId) : option TaskConfig :=
  match checked v config_for_task id with
  | Some (t, config, args) =>
      if concurrency_limit config <=? Z.of_nat (busy_holders x t args) then Some config else None
  | None => None
  end.

Lemma at_limit_config x v config_for_task id config : at_limit x v config_for_task id = Some config →
  ∃ i, v_invocations v !! id = Some i ∧ config_for_task (inv_task_id i) = Some config.
Proof.
  unfold at_limit. destruct (checked v config_for_task id) as [[[t config'] args]|] eqn:Hch; [|done].
  case_match; [|done]. intros [= ->]. unfold checked in Hch. apply bind_Some in Hch as (i & Hi & Hch).
  apply bind_Some in Hch as (config' & Hc & Hch). exists i. split; [done|]. case_decide; [done|].
  apply bind_Some in Hch as (call & _ & [= _ -> _]). done.
Qed.

(** A candidate that may start: Pending in the runner's name, with its history. *)
Definition started (runner : RunnerId) (acc : progress) (id : InvocationId) (v : RuntimeView)
    (r : RustvelloResult progress) (v' : RuntimeView) : Prop :=
  ∃ now, let rec := mkRecord Pending (Some runner) now in
    r = Ok (acc.1 ++ [id], acc.2) ∧
    v' = add_v_history (history_entry id rec runner) (set_v_status <[id := rec]> v).

(** A candidate whose task is at its limit: moved to its denied status, and noted for
    the rerouting, unless its status does not allow the move. *)
Definition held_back (config : TaskConfig) (acc : progress) (id : InvocationId) (cur : InvocationStatusRecord)
    (v : RuntimeView) (r : RustvelloResult progress) (v' : RuntimeView) : Prop :=
  if can_transition_to (rec_status cur) (denied_status config) then
    ∃ now, r = Ok (acc.1, if tc_reroute_on_cc config then acc.2 ++ [id] else acc.2) ∧
      v' = set_v_status <[id := mkRecord (denied_status config) None now]> v
  else r = Ok acc ∧ v' = v.

Section steps.
Context {J : JsonValue} {S : Type} {P : Ports S} (view : S → RuntimeView) {L : PortLaws P view}.
Context (runner : RunnerId) (config_for_task : TaskId → option TaskConfig).

Lemma available_unowned cur st : is_available_for_run (rec_status cur) = true → ownership_ok cur st (Some runner).
Proof. intros Hav. right. split; [|done]. destruct (rec_status cur); vm_compute in Hav |- *; congruence. Qed.

(** The write of a status for a candidate. *)
Lemma available_write id st cur c s :
  v_status (view s) !! id = Some cur → is_available_for_run (rec_status cur) = true →
  if can_transition_to (rec_status cur) st then
    ∃ now, yields view (attempt (ctl_set_invocation_status id st (Some runner))) c s
      (Ok (inl (moved now cur st (Some runner)))) (set_v_status <[id := moved now cur st (Some runner)]> (view s))
  else ∃ from to reason, yields view (attempt (ctl_set_invocation_status id st (Some runner))) c s
      (Ok (inr (EInvalidStatusTransition id from to reason))) (view s).
Proof.
  intros Hs Hav. pose proof (status_write view id st (Some runner) c s _ eq_refl) as Hw. rewrite Hs in Hw.
  destruct (can_transition_to _ _); cbn [negb] in Hw.
  - rewrite decide_True in Hw by by apply available_unowned. destruct Hw as [now Hw]. exists now.
    apply (yields_attempt view) in Hw. exact Hw.
  - destruct Hw as (from & to & reason & Hw). exists from, to, reason. apply (yields_attempt view) in Hw. exact Hw.
Qed.

Lemma started_wp acc id cur c s :
  tg_manager (S := S) = None → v_status (view s) !! id = Some cur → is_available_for_run (rec_status cur) = true →
  wp view (result ← try_transition_to_pending id runner acc.1; mret (result, acc.2)) c s (started runner acc id (view s)).
Proof.
  intros Htm Hs Hav. pose proof (available_write id Pending cur c s Hs Hav) as Hw.
  rewrite (available_starts _ Hav) in Hw. destruct Hw as [now Hw]. apply wp_bind. unfold try_transition_to_pending.
  eapply wp_step; [exact Hw|]. intros c1 s1 Hv1.
  eapply wp_step; [apply (attempt_get_invocation view)|]. intros c2 s2 Hv2.
  eapply wp_step; [eapply (yields_attempt view), pl_add_history|]. intros c3 s3 Hv3. rewrite Htm.
  eapply wp_run; [reflexivity|]. apply wp_ret. intros c5 s5 Hv5. apply wp_ret.
  exists now. split; [done|]. by rewrite Hv5, Hv3, Hv2, Hv1.
Qed.

Lemma held_back_wp acc id i config cur c s :
  v_invocations (view s) !! id = Some i → config_for_task (inv_task_id i) = Some config →
  v_status (view s) !! id = Some cur → is_available_for_run (rec_status cur) = true →
  wp view (deny_candidate runner config_for_task acc id) c s (held_back config acc id cur (view s)).
Proof.
  intros Hi Hc Hs Hav. unfold deny_candidate, held_back, denied_status.
  eapply wp_step; [apply (attempt_get_invocation view)|]. intros c1 s1 Hv1. rewrite Hi, Hc.
  assert (v_status (view s1) !! id = Some cur) as Hs1 by (by rewrite Hv1).
  destruct (tc_reroute_on_cc config).
  - unfold publication. rewrite pl_nontransactional. eapply wp_run; [reflexivity|].
    pose proof (available_write id ConcurrencyControlled cur c1 s1 Hs1 Hav) as Hw.
    destruct (can_transition_to _ _).
    + destruct Hw as [now Hw]. eapply wp_step; [exact Hw|]. intros c3 s3 Hv3. apply wp_ret. exists now.
      by rewrite Hv3, Hv1.
    + destruct Hw as (from & to & reason & Hw). eapply wp_step; [exact Hw|]. intros c3 s3 Hv3. apply wp_ret.
      by rewrite Hv3, Hv1.
  - pose proof (available_write id ConcurrencyControlledFinal cur c1 s1 Hs1 Hav) as Hw. unfold unless_invalid.
    apply wp_bind. destruct (can_transition_to _ _).
    + destruct Hw as [now Hw]. eapply wp_step; [exact Hw|]. intros c3 s3 Hv3. apply wp_ret. intros c4 s4 Hv4.
      apply wp_ret. exists now. split; [by destruct acc|]. by rewrite Hv4, Hv3, Hv1.
    + destruct Hw as (from & to & reason & Hw). eapply wp_step; [exact Hw|]. intros c3 s3 Hv3. apply wp_ret.
      intros c4 s4 Hv4. apply wp_ret. by rewrite Hv4, Hv3, Hv1.
Qed.
End steps.

(** ** Batches and concurrency slots *)

Section mem.
Context {J : JsonValue} {HO : HashOrder} {CH : Chrono} {T : Type}.
Context (tm : option (TriggerPort T)) (delay : Z).
Implicit Types (s : Runtime T).
#[local] Existing Instance mem_ports.

(** The index of the slots only loses members. *)
Definition slots_shrink : relation (Runtime T) :=
  λ s s', ∀ key, members (cc_index (rt_control s')) key ⊆ members (cc_index (rt_control s)) key.

#[local] Instance slots_shrink_preorder : PreOrder slots_shrink.
Proof.
  split; unfold slots_shrink; [intros s key; reflexivity|].
  intros s1 s2 s3 H1 H2 key. etrans; [apply H2|apply H1].
Qed.

Lemma prune_shrinks id x key : members (cc_index (prune_cc id x)) key ⊆ members (cc_index x) key.
Proof.
  unfold prune_cc. destruct (cc_reverse x !! id); simpl; [|reflexivity]. rewrite members_drop_all. case_decide; set_solver.
Qed.

Lemma status_shrinks id st r :
  respects slots_shrink (on_control (T := T) (mem_set_invocation_status id st r)).
Proof.
  intros c s key. unfold state_after, on_control, zoom.
  destruct (status_records (rt_control s) !! id) as [cur|] eqn:Hcur;
    [|rewrite set_status_unknown by done; reflexivity].
  destruct (status_record_transition (clock_next c).1 (Some cur) st r) as [rec|e|p] eqn:Ht.
  - apply transition_Ok in Ht as [Hm _]. destruct (set_status_run c _ id st r cur Hcur Hm) as (c' & now & ->).
    simpl. unfold status_changed. destruct (is_terminal _), (invocations (rt_control s) !! id);
      try reflexivity;
      (etrans; [apply prune_shrinks|reflexivity]).
  - rewrite (set_status_refused _ _ _ _ _ _ _ Hcur Ht). reflexivity.
  - pose proof (transition_never_panics (clock_next c).1 (Some cur) st r) as Hp. by rewrite Ht in Hp.
Qed.

(** Operations beside the control keep the index. *)
Lemma zoom_keeps_slots {U A} (get : Runtime T → U) put (m : M RustvelloError U A) :
  (∀ y s, rt_control (put y s) = rt_control s) → respects slots_shrink (zoom get put m).
Proof. intros Hput c s key. unfold state_after, zoom. destruct (m c (get s)) as [[r c'] y]. simpl. rewrite Hput. reflexivity. Qed.

Lemma control_reads_slots {A} (m : M RustvelloError OrchestratorState A) :
  (∀ c x, state_after m c x = x) → respects slots_shrink (on_control (T := T) m).
Proof.
  intros Hm c s key. unfold state_after, on_control, zoom in *. specialize (Hm c (rt_control s)).
  destruct (m c (rt_control s)) as [[r c'] y]. simpl in *. subst. reflexivity.
Qed.

Lemma check_reads t cfg args c x : state_after (mem_check_running_concurrency t cfg args) c x = x.
Proof.
  unfold mem_check_running_concurrency, state_after. case_decide; [done|]. cbv [mbind M_bind get mret M_ret].
  by destruct (cc_candidates _ _ _).
Qed.

Lemma status_reads id c x : state_after (mem_get_invocation_status id) c x = x.
Proof. reflexivity. Qed.

Ltac slots_leaf :=
  first [ by apply zoom_keeps_slots
        | apply status_shrinks
        | apply control_reads_slots; first [apply check_reads | reflexivity] ].

Lemma check_keeps_slots id config_for_task :
  respects slots_shrink (check_cc_for_invocation (P := mem_ports tm delay) id config_for_task).
Proof. unfold check_cc_for_invocation. solve_respects; slots_leaf. Qed.

Lemma try_transition_keeps_slots id runner l :
  respects slots_shrink (try_transition_to_pending (P := mem_ports tm delay) id runner l).
Proof.
  unfold try_transition_to_pending, get_invocation_arguments. case tm as [tm'|]; simpl tg_manager; cbv iota;
    solve_respects; slots_leaf.
Qed.

Lemma respects_after_ret {A B} (R : relation (Runtime T)) (a : A) (f : A → M RustvelloError (Runtime T) B) :
  respects R (f a) → respects R (mret a ≫= f).
Proof. intros Hf c s. exact (Hf c s). Qed.

Lemma deny_keeps_slots runner config_for_task acc id :
  respects slots_shrink (deny_candidate (P := mem_ports tm delay) runner config_for_task acc id).
Proof.
  unfold deny_candidate, unless_invalid.
  apply respects_bind; [apply _|apply respects_attempt; slots_leaf|]. intros [i|]; [|solve_respects].
  destruct (config_for_task (inv_task_id i)) as [config|]; [destruct (tc_reroute_on_cc config)|].
  - apply (respects_after_ret _ None). solve_respects; slots_leaf.
  - solve_respects; slots_leaf.
  - solve_respects; slots_leaf.
Qed.

Lemma empty_candidates x t args :
  (∀ k v, members (cc_index x) (t, k, v) = ∅) → cc_candidates x t (Some args) = Some ∅.
Proof.
  intros He. simpl. pose proof (cc_arg_pairs_nonempty args) as Hne. destruct (cc_arg_pairs args) as [|[k v] rest]; [done|].
  rewrite He. f_equal. destruct rest as [|[k' v'] rest]; simpl; [done|].
  rewrite decide_True by set_solver. set_solver.
Qed.

Lemma set_iter_empty : set_iter (∅ : gset InvocationId) = [].
Proof. apply Permutation_nil. unfold set_iter. by rewrite hash_order_perm, elements_empty. Qed.

Lemma retrieval_keeps_slots max_num runner queues config_for_task :
  respects slots_shrink (get_invocations_to_run (P := mem_ports tm delay) max_num runner queues config_for_task).
Proof.
  assert (∀ n acc, respects slots_shrink
    (retrieve_queued (P := mem_ports tm delay) runner config_for_task queues max_num n acc)) as Hq.
  { induction n as [|n IH]; intros acc; simpl; [apply respects_ret, _|]. case_match; [apply respects_ret, _|].
    apply respects_bind; [apply _| |].
    - generalize queues as l. induction l as [|q l IHl]; simpl; [apply respects_ret, _|].
      apply respects_bind; [apply _|slots_leaf|]. intros []; [apply respects_ret, _|done].
    - intros [id|]; [|apply respects_ret, _]. apply respects_bind; [apply _| |intros; apply IH].
      unfold retrieve_candidate. solve_respects; try slots_leaf;
        first [apply check_keeps_slots|apply try_transition_keeps_slots|apply deny_keeps_slots]. }
  unfold get_invocations_to_run, retrieve_blocking, reroute_denied.
  solve_respects; try first [slots_leaf|apply Hq|apply check_keeps_slots|apply try_transition_keeps_slots].
Qed.

(** The check of a candidate, as an equation. *)
Lemma cc_candidates_holders x t args :
  cc_candidates x (task_id_display t) (Some args) = Some (slot_holders x (task_id_display t) (cc_arg_pairs args)).
Proof.
  simpl. pose proof (cc_arg_pairs_nonempty args) as Hne. destruct (cc_arg_pairs args) as [|[k v] rest] eqn:Hp; [done|].
  f_equal. apply set_eq. intros y. rewrite elem_of_retain, elem_of_slot_holders by done. split.
  - intros [Hy Hr] p [->|Hin]%elem_of_cons; [done|by apply Hr].
  - intros Hall. split; [apply (Hall (k, v)); by left|]. intros p Hin. apply Hall. by right.
Qed.

Lemma busy_count x X :
  length (bfilter (running_or_pending x) (set_iter X)) = size (filter (λ id, running_or_pending x id = true) X).
Proof.
  rewrite <-(length_set_iter (filter _ X)). apply Permutation_length, NoDup_Permutation.
  - apply NoDup_bfilter, NoDup_set_iter.
  - apply NoDup_set_iter.
  - intros y. rewrite elem_of_bfilter, !elem_of_set_iter, elem_of_filter. done.
Qed.

Lemma check_run id config_for_task c s :
  check_cc_for_invocation (P := mem_ports tm delay) id config_for_task c s =
    (Ok (bool_decide (at_limit (rt_control s) (runtime_view s) config_for_task id = None)), c, s).
Proof.
  unfold check_cc_for_invocation, at_limit, checked.
  rewrite (bind_run _ _ _ _ (match b_invocations (rt_state s) !! id with
                             | Some i => inl i | None => inr (EInvocationNotFound id) end) c s).
  2: { simpl. unfold attempt. rewrite (on_state_read _ c s (ok_or (b_invocations (rt_state s) !! id) (EInvocationNotFound id))).
       - by destruct (b_invocations (rt_state s) !! id).
       - done. }
  simpl. destruct (b_invocations (rt_state s) !! id) as [i|]; [|done]. simpl.
  destruct (config_for_task (inv_task_id i)) as [config|]; [|done]. simpl.
  case_bool_decide as Hu; [by rewrite decide_True|]. rewrite decide_False by done. unfold mbind at 1, M_bind at 1, attempt at 1.
  rewrite (on_state_read (mem_get_call (inv_call_id i)) c s _ eq_refl).
  destruct (b_calls (rt_state s) !! call_id_display (inv_call_id i)) as [call|]; simpl; [|done].
  assert (∃ args, concurrency_arguments (tc_concurrency_control config) (tc_key_arguments config)
    (cd_serialized_arguments call) = Some args) as [args ->].
  { unfold concurrency_arguments. destruct (tc_concurrency_control config); [done|by eexists| |by eexists].
    case_bool_decide; by eexists. }
  unfold on_control, zoom, mem_check_running_concurrency. rewrite decide_False by done.
  cbv [mbind M_bind get]. rewrite cc_candidates_holders, busy_count. unfold busy_holders. unfold default.
  cbn. replace (put_control (rt_control s) s) with s by by destruct s. rewrite Z.leb_antisym.
  by destruct (_ <? _).
Qed.

(** C16: One candidate that a queue delivered, in a batch retrieval of the in-memory
    backends without a trigger manager.  A candidate that is already in the batch, is
    unknown, or is in no status to be run is passed over, with nothing changed.  If the
    task of the candidate has a limit, and at least as many invocations as the limit
    are running or pending among those that hold a slot for the same arguments, the
    candidate is held back: moved to ConcurrencyControlled and noted for the rerouting
    at the end of the batch, or, without rerouting, finally rejected; it is left alone
    if its status does not allow that move.  Otherwise - no limit, a free place, or a
    task or call that is not known - it joins the batch, Pending in the runner's name,
    with one new history record of that, and nothing else changes. *)
Theorem candidate_behaviour runner config_for_task acc id c s :
  let m := retrieve_candidate (P := mem_ports None delay) runner config_for_task acc id in
  let v := runtime_view s in
  let r := result_of m c s in let v' := runtime_view (state_after m c s) in
  match v_status v !! id with
  | Some cur =>
      if bool_decide (id ∈ acc.1) || negb (is_available_for_run (rec_status cur)) then r = Ok acc ∧ v' = v
      else
        match at_limit (rt_control s) v config_for_task id with
        | Some config => held_back config acc id cur v r v'
        | None => started runner acc id v r v'
        end
  | None => r = Ok acc ∧ v' = v
  end.
Proof.
  intros m v r v'. pose proof (mem_port_laws (T := T) None delay) as HL.
  apply (proj1 (wp_result runtime_view m c s (λ r v', match v_status v !! id with
    | Some cur => if bool_decide (id ∈ acc.1) || negb (is_available_for_run (rec_status cur)) then r = Ok acc ∧ v' = v
        else match at_limit (rt_control s) v config_for_task id with
             | Some config => held_back config acc id cur v r v' | None => started runner acc id v r v' end
    | None => r = Ok acc ∧ v' = v end))).
  unfold m, retrieve_candidate. case_bool_decide as Hin.
  { apply wp_ret. by destruct (v_status v !! id). }
  assert (attempt (ctl_get_invocation_status (Ports := mem_ports None delay) id) c s =
    (Ok (match v_status v !! id with Some cur => inl cur | None => inr (EInvocationNotFound id) end), c, s)) as Hget.
  { simpl. unfold attempt, on_control, zoom, mem_get_invocation_status. cbv [mbind M_bind get lift].
    replace (put_control (rt_control s) s) with s by by destruct s. subst v. simpl.
    by destruct (status_records (rt_control s) !! id). }
  eapply wp_run; [exact Hget|]. destruct (v_status v !! id) as [cur|] eqn:Hs; [|by apply wp_ret].
  cbn [orb]. destruct (is_available_for_run (rec_status cur)) eqn:Hav; cbn [negb]; [|by apply wp_ret].
  eapply wp_run; [apply check_run|]. case_bool_decide as Hlim.
  - fold v in Hlim. rewrite Hlim. by eapply (started_wp runtime_view).
  - fold v in Hlim |- *. destruct (at_limit (rt_control s) v config_for_task id) as [config|] eqn:Hl; [|done].
    apply at_limit_config in Hl as (i & Hi & Hc). by eapply (held_back_wp runtime_view).
Qed.

(** A batch takes no concurrency slot on the in-memory runtime: no key of the
    slot index gains a member, while the check of a candidate counts the members of
    its keys only.  So a task whose invocations were not indexed when they were
    registered has no limit in a batch: each of its candidates passes, however
    many of them the same batch has already moved to Pending. *)
Theorem batches_take_no_slot max_num runner queues config_for_task c s :
  let m := get_invocations_to_run (P := mem_ports tm delay) max_num runner queues config_for_task in
  slots_shrink s (state_after m c s) ∧
  ∀ id i config c1 s1,
    b_invocations (rt_state s1) !! id = Some i → config_for_task (inv_task_id i) = Some config →
    0 < concurrency_limit config →
    (∀ k x, members (cc_index (rt_control s)) (task_id_display (inv_task_id i), k, x) = ∅) →
    slots_shrink s s1 →
    check_cc_for_invocation (P := mem_ports tm delay) id config_for_task c1 s1 = (Ok true, c1, s1).
Proof.
  split; [apply retrieval_keeps_slots|]. intros id i config c1 s1 Hi Hcfg Hlim Hempty Hshrink.
  assert (∀ k x, members (cc_index (rt_control s1)) (task_id_display (inv_task_id i), k, x) = ∅) as Hempty'.
  { intros k x. specialize (Hshrink (task_id_display (inv_task_id i), k, x)). rewrite Hempty in Hshrink. set_solver. }
  unfold check_cc_for_invocation.
  rewrite (bind_run _ _ _ _ (inl i) c1 s1).
  2: { simpl. unfold attempt. rewrite (on_state_read _ c1 s1 (Ok i)); [done|].
       unfold mem_get_invocation. cbv [mbind M_bind get lift]. by rewrite Hi. }
  rewrite Hcfg. case_bool_decide as Hu; [done|].
  assert (∃ r, attempt (sb_get_call (Ports := mem_ports tm delay) (inv_call_id i)) c1 s1 = (Ok r, c1, s1))
    as [r Hr].
  { simpl. unfold attempt. rewrite (on_state_read _ c1 s1 _ eq_refl). destruct (b_calls (rt_state s1) !! _); by eexists. }
  rewrite (bind_run _ _ _ _ _ _ _ Hr). destruct r as [call|]; [|done].
  assert (∃ args, concurrency_arguments (tc_concurrency_control config) (tc_key_arguments config)
    (cd_serialized_arguments call) = Some args) as [args Hargs].
  { unfold concurrency_arguments. destruct (tc_concurrency_control config); [done|by eexists| |by eexists].
    case_bool_decide; by eexists. }
  simpl. rewrite Hargs. unfold on_control, zoom, mem_check_running_concurrency. rewrite decide_False by done.
  cbv [mbind M_bind get]. rewrite (empty_candidates _ _ _ Hempty'). cbv [mret M_ret].
  unfold bfilter. rewrite set_iter_empty. simpl. rewrite (proj2 (Z.ltb_lt _ _)) by done. by destruct s1.
Qed.
End mem.

(** ** Witnesses *)

(** "a" and "b" are queued; their task runs one invocation at a time. *)
Definition demo_two_queued : Runtime unit :=
  state_after (demo_route "a";; demo_route "b") demo_clock (runtime_new tt).

Definition demo_resolver (t : TaskId) : option TaskConfig := Some demo_config.

Definition demo_batch (n : nat) : M RustvelloError (Runtime unit) (list InvocationId) :=
  @get_invocations_to_run text_json _ demo_ports n "w1" ["default"] demo_resolver.

Lemma batch_behaviour_witness :
  let s' := state_after (demo_batch 2) demo_clock demo_two_queued in
  result_of (demo_batch 2) demo_clock demo_two_queued = Ok ["a"; "b"] ∧
  taken "w1" ["default"] (runtime_view demo_two_queued) (runtime_view s') "b".
Proof.
  intros s'.
  assert (result_of (demo_batch 2) demo_clock demo_two_queued = Ok ["a"; "b"]) as Hr by (vm_compute; reflexivity).
  split; [exact Hr|].
  pose proof (@batch_behaviour text_json _ demo_ports runtime_view demo_laws 2 "w1" ["default"] demo_resolver
    demo_clock demo_two_queued) as H. cbv zeta in H. fold (demo_batch 2) in H. rewrite Hr in H.
  apply (rt_taken _ _ _ _ _ _ H). right. by left.
Defined.

(** A batch of one delivers "a"; "b" is still let through, by the same check that
    counts one running invocation as the limit. *)
Lemma batches_take_no_slot_witness :
  let s1 := state_after (demo_batch 1) demo_clock demo_two_queued in
  result_of (demo_batch 1) demo_clock demo_two_queued = Ok ["a"] ∧
  check_cc_for_invocation (P := demo_ports) "b" demo_resolver demo_clock s1 = (Ok true, demo_clock, s1).
Proof.
  intros s1. split; [vm_compute; reflexivity|].
  destruct (@batches_take_no_slot text_json identity_order chrono_in_seconds unit None 0 1 "w1" ["default"]
    demo_resolver demo_clock demo_two_queued) as [Hs Hcheck].
  apply (Hcheck "b" (invocation_new 3000000000 "b" demo_task (cd_call_id demo_call)) demo_config).
  - vm_compute. reflexivity.
  - reflexivity.
  - vm_compute. reflexivity.
  - intros k x. replace (cc_index (rt_control demo_two_queued)) with (∅ : gmap cc_key_type (gset InvocationId))
      by (vm_compute; reflexivity). by rewrite members_empty.
  - exact Hs.
Defined.
