(* ===== verification/Recovery.v ===== *)
(** * Recovery of stale invocations

    Models [rustvello/src/orchestration/maintenance.rs]: a recovery pass collects
    invocations that wait or run for too long and recoveries that were
    interrupted, and re-queues each of them, or fails it when it was recovered
    too often.  Log lines are not modelled; the messages of the errors that stop
    one recovery are only logged, so a pass keeps their number.

    The theorems, for a deployment without a trigger manager: what one recovery
    does on every branch, that an invocation is re-queued only while its history
    shows at most the configured number of recoveries, and that a pass leaves
    invocations of tasks this process does not know as they are. *)
From stdpp Require Import pretty.
From S2P Require Import Prelude Effects Json Identifiers Status Errors Config Call Invocation Trigger OrchestratorState MemOrchestrator MemOrchestratorFacts MemBroker MemStateBackend TaskCatalog Ports Orchestration Routing.

(* @src rustvello/src/orchestration/maintenance.rs 25-26 RECOVERY_LIMIT_ERROR *)
Definition RECOVERY_LIMIT_ERROR : string := "RecoveryLimitExceeded".

(* @src rustvello/src/orchestration/maintenance.rs 28-37 RecoveryOutcome *)
Inductive RecoveryOutcome := RecoveryRerouted | RecoveryFailed | RecoverySkipped.

Definition is_recovery (st : InvocationStatus) : bool :=
  match st with PendingRecovery | RunningRecovery => true | _ => false end.

(** The error stored on an invocation that was recovered too often. *)
(* @src rustvello/src/orchestration/maintenance.rs 318-326 Orchestrator::fail_recovery_limit *)
Definition recovery_limit_error (id : InvocationId) (previous : nat) : TaskError :=
  mkTaskError RECOVERY_LIMIT_ERROR
    ("invocation " +:+ id +:+ " was recovered " +:+ pretty (N.of_nat previous) +:+
     " time(s) (max_invocation_recoveries); its worker died or could not run it each time. Check that the worker image imports the task module and that the task does not crash its process") None.

Section recovery.
Context {J : JsonValue} {S : Type} {P : Ports S}.
Context {CH : Chrono} {E : Environment} {PF : ParseF64} {UC : UnicodeCase} {G : Glob}.
Context (app_config : AppConfig) (catalog : TaskCatalog) (runner : RunnerId).

(** ** Finding candidates *)

Definition interrupted_one (status : InvocationStatus) (cutoff : DateTime)
    (found : list (InvocationId * InvocationStatus)) (id : InvocationId)
    : M RustvelloError S (list (InvocationId * InvocationStatus)) :=
  record ← attempt (ctl_get_invocation_status id);
  mret (match record with
        | inl r => if bool_decide (rec_status r = status) && (rec_timestamp r <? cutoff)
                   then found ++ [(id, status)] else found
        | inr _ => found
        end).

Definition interrupted_in (found : list (InvocationId * InvocationStatus))
    (p : InvocationStatus * Z) : M RustvelloError S (list (InvocationId * InvocationStatus)) :=
  let '(status, stale_after) := p in
  ids ← attempt (ctl_get_invocations_by_status status None);
  match ids with
  | inr _ => mret found
  | inl ids =>
      now ← utc_now;
      cutoff ← unwrap_or_panic (seconds_before now (i64_saturating_of_u64 stale_after))
                 "Duration::seconds out of bounds";
      for_fold (interrupted_one status cutoff) found ids
  end.

(* @src rustvello/src/orchestration/maintenance.rs 112-157 Orchestrator::interrupted_recoveries *)
Definition interrupted_recoveries : M RustvelloError S (list (InvocationId * InvocationStatus)) :=
  for_fold interrupted_in []
    [(PendingRecovery, ac_max_pending_seconds app_config);
     (RunningRecovery, ac_runner_dead_after_seconds app_config)].

(** ** Recovering one invocation *)

(** The recoveries a history shows. *)
Definition recoveries (history : list InvocationHistory) : nat :=
  length (bfilter (λ h, is_recovery (rec_status (hist_status_record h))) history).

(* @src rustvello/src/orchestration/maintenance.rs 159-176 Orchestrator::recovery_count *)
Definition recovery_count (id : InvocationId) : M RustvelloError S nat :=
  history ← attempt (sb_get_history id);
  mret (match history with inl h => recoveries h | inr _ => O end).

(** The recovery status is written first, unless a recovery is resumed. *)
(* @src rustvello/src/orchestration/maintenance.rs 269-280 Orchestrator::recover_one *)
Definition enter_recovery (id : InvocationId) (status : InvocationStatus) (resuming : bool)
    (k : M RustvelloError S RecoveryOutcome) : M RustvelloError S RecoveryOutcome :=
  if resuming then k
  else
    r ← attempt (set_invocation_status id status runner);
    match r with
    | inl _ => k
    | inr (EInvalidStatusTransition _ _ _ _) => mret RecoverySkipped
    | inr e => throw e
    end.

(* @src rustvello/src/orchestration/maintenance.rs 296-334 Orchestrator::fail_recovery_limit *)
Definition fail_recovery_limit (id : InvocationId) (status : InvocationStatus) (resuming : bool)
    (previous : nat) : M RustvelloError S RecoveryOutcome :=
  enter_recovery id status resuming
    (sb_store_error id (recovery_limit_error id previous);;
     set_invocation_status id Failed runner;;
     mret RecoveryFailed).

(** The transactional path: one change, then the reports. *)
(* @src rustvello/src/orchestration/maintenance.rs 227-267 Orchestrator::recover_one *)
Definition publish_recovery (pub : RuntimePublication S) (id : InvocationId) (task_id : TaskId)
    (status : InvocationStatus) (resuming : bool) (route : PublicationRoute)
    : M RustvelloError S RecoveryOutcome :=
  let change :=
    if resuming then ChangeReroute route
    else ChangeRecover status
           (if decide (status = PendingRecovery) then ac_max_pending_seconds app_config
            else ac_runner_dead_after_seconds app_config) route in
  recovered ← pub_change pub id runner change false;
  match recovered with
  | Some _ =>
      arguments ← get_invocation_arguments id;
      for_each (λ st, report_published_status id runner st task_id arguments)
        (if resuming then [Rerouted] else [status; Rerouted]);;
      mret RecoveryRerouted
  | None => mret RecoverySkipped
  end.

(** Whether the recovery that is about to be made is over the limit. *)
(* @src rustvello/src/orchestration/maintenance.rs 204-207 Orchestrator::recover_one *)
Definition over_limit (resuming : bool) (previous : nat) : bool :=
  let attempts := if resuming then previous else Datatypes.S previous in
  (0 <? ac_max_invocation_recoveries app_config) &&
  (ac_max_invocation_recoveries app_config <? Z.of_nat attempts).

(* @src rustvello/src/orchestration/maintenance.rs 178-294 Orchestrator::recover_one *)
Definition recover_one (id : InvocationId) (status : InvocationStatus)
    : M RustvelloError S RecoveryOutcome :=
  invocation ← sb_get_invocation id;
  current ← ctl_get_invocation_status id;
  let resuming := is_recovery (rec_status current) in
  previous ← recovery_count id;
  if over_limit resuming previous then fail_recovery_limit id status resuming previous
  else
    '(queue, priority) ← lift (ok_or (routing_for catalog app_config (inv_task_id invocation))
                                (ETaskNotRegistered (inv_task_id invocation)));
    p ← publication;
    match p with
    | Some pub =>
        publish_recovery pub id (inv_task_id invocation) status resuming (mkRoute queue priority)
    | None =>
        enter_recovery id status resuming
          (set_invocation_status id Rerouted runner;;
           br_route_invocation_with_options id (Some (inv_task_id invocation)) queue priority;;
           mret RecoveryRerouted)
    end.

(** ** A recovery pass *)

(** The count of re-queued invocations and of errors. *)
(* @src rustvello/src/orchestration/maintenance.rs 73-89 Orchestrator::recover_stale_invocations *)
Definition recover_candidate (acc : Z * nat) (p : InvocationId * InvocationStatus)
    : M RustvelloError S (Z * nat) :=
  r ← attempt (recover_one p.1 p.2);
  mret (match r with
        | inl RecoveryRerouted => (u32_wrapping_add acc.1 1, acc.2)
        | inl _ => acc
        | inr _ => (acc.1, Datatypes.S acc.2)
        end).

(* @src rustvello/src/orchestration/maintenance.rs 45-110 Orchestrator::recover_stale_invocations *)
Definition recover_stale_invocations : M RustvelloError S Z :=
  pending ← ctl_get_stale_pending_invocations (ac_max_pending_seconds app_config);
  running ← ctl_get_stale_running_invocations (ac_runner_dead_after_seconds app_config);
  interrupted ← interrupted_recoveries;
  let candidates := ((λ id, (id, PendingRecovery)) <$> pending) ++
                    ((λ id, (id, RunningRecovery)) <$> running) ++ interrupted in
  '(recovered, _) ← for_fold recover_candidate (0, O) candidates;
  mret recovered.
End recovery.

(** ** Specification *)

Section spec.
Context {E : Environment} {PF : ParseF64} {UC : UnicodeCase} {G : Glob}.
Context (app_config : AppConfig) (catalog : TaskCatalog) (runner : RunnerId).

(** The record and the view once the recovery status is written; a recovery that
    is resumed finds it. *)
Definition entered (id : InvocationId) (st : InvocationStatus) (cur : InvocationStatusRecord)
    (v : RuntimeView) (cur1 : InvocationStatusRecord) (v1 : RuntimeView) : Prop :=
  if is_recovery (rec_status cur) then cur1 = cur ∧ v1 = v
  else ∃ now, cur1 = moved now cur st (Some runner) ∧ v1 = changed id cur1 runner v.

(** What a recovery that goes ahead leaves when it is over the limit. *)
Definition recovery_failed (id : InvocationId) (st : InvocationStatus) (cur : InvocationStatusRecord)
    (v : RuntimeView) (r : RustvelloResult RecoveryOutcome) (v' : RuntimeView) : Prop :=
  r = Ok RecoveryFailed ∧
  ∃ cur1 v1 now, entered id st cur v cur1 v1 ∧
    v' = changed id (moved now cur1 Failed (Some runner)) runner
           (set_v_errors <[id := recovery_limit_error id (recoveries (entries (v_histories v) id))]> v1).

(** What it leaves when it re-queues: with a route that is not valid the
    invocation is Rerouted and in no queue. *)
Definition recovery_requeued (id : InvocationId) (st : InvocationStatus) (cur : InvocationStatusRecord)
    (t : TaskId) (q : string) (p : f64) (v : RuntimeView) (r : RustvelloResult RecoveryOutcome)
    (v' : RuntimeView) : Prop :=
  ∃ cur1 v1 now, entered id st cur v cur1 v1 ∧
    let v2 := changed id (moved now cur1 Rerouted (Some runner)) runner v1 in
    match validate_routing q p with
    | Ok _ => r = Ok RecoveryRerouted ∧ v' = set_v_queue (λ l, l ++ [entry_now id (Some t) q p]) v2
    | Err e => r = Err e ∧ v' = v2
    | Panic _ => False
    end.

Definition recovered (id : InvocationId) (st : InvocationStatus) (v : RuntimeView)
    (r : RustvelloResult RecoveryOutcome) (v' : RuntimeView) : Prop :=
  match v_invocations v !! id, v_status v !! id with
  | Some invocation, Some cur =>
      let resuming := is_recovery (rec_status cur) in
      let allowed := resuming || can_transition_to (rec_status cur) st in
      let skipped := r = Ok RecoverySkipped ∧ v' = v in
      if over_limit app_config resuming (recoveries (entries (v_histories v) id)) then
        if allowed then recovery_failed id st cur v r v' else skipped
      else
        match routing_for catalog app_config (inv_task_id invocation) with
        | None => r = Err (ETaskNotRegistered (inv_task_id invocation)) ∧ v' = v
        | Some (q, p) =>
            if allowed then recovery_requeued id st cur (inv_task_id invocation) q p v r v' else skipped
        end
  | _, _ => r = Err (EInvocationNotFound id) ∧ v' = v
  end.
End spec.

(** A record in recovery may be failed or rerouted by anyone. *)
Lemma from_recovery cur st r :
  is_recovery (rec_status cur) = true → st ∈ [Failed; Rerouted] →
  can_transition_to (rec_status cur) st = true ∧ ownership_ok cur st r.
Proof.
  intros Hc Hst. unfold ownership_ok. rewrite !elem_of_cons, elem_of_nil in Hst.
  destruct (rec_status cur); try done; destruct Hst as [->|[->|[]]];
    (split; [by vm_compute|right; split; vm_compute; discriminate]).
Qed.

Lemma entered_facts runner id st cur v cur1 v1 :
  entered runner id st cur v cur1 v1 → is_recovery st = true → v_status v !! id = Some cur →
  v_status v1 !! id = Some cur1 ∧ is_recovery (rec_status cur1) = true.
Proof.
  unfold entered. destruct (is_recovery (rec_status cur)) eqn:Hr.
  - by intros [-> ->].
  - intros (now & -> & ->) Hst _. split; [|done]. simpl. by rewrite lookup_insert_eq.
Qed.

Section lemmas.
Context {J : JsonValue} {S : Type} {P : Ports S}.
Context (view : S → RuntimeView) {L : PortLaws P view}.
Context {CH : Chrono} {E : Environment} {PF : ParseF64} {UC : UnicodeCase} {G : Glob}.
Context (app_config : AppConfig) (catalog : TaskCatalog) (runner : RunnerId).
Context (Htm : tg_manager (S := S) = None).

(** A status change without triggers, by its outcome. *)
Lemma untriggered_status id st c s v cur :
  view s = v → v_status v !! id = Some cur →
  if negb (can_transition_to (rec_status cur) st) then
    ∃ from to reason, yields view (set_invocation_status id st runner) c s
      (Err (EInvalidStatusTransition id from to reason)) v
  else ownership_ok cur st (Some runner) →
    ∃ now, yields view (set_invocation_status id st runner) c s (Ok (moved now cur st (Some runner)))
      (changed id (moved now cur st (Some runner)) runner v).
Proof.
  intros <- Hs. destruct (context_if_triggers_silent view id c s) as [[t args] Hx].
  ystep Hx c1 s1 Hv1 Hk1.
  destruct (can_transition_to (rec_status cur) st) eqn:Hc; simpl.
  - intros Ho. exists (clock_next c1).1.
    destruct (status_with_context_Ok view id st runner t args c1 s1
      (moved (clock_next c1).1 cur st (Some runner))) as (r & Hr & Hrep).
    { unfold status_change. rewrite Hv1, Hs. by rewrite (proj2 (transition_Ok _ cur st _ _) (conj (conj Hc Ho) eq_refl)). }
    destruct Hrep as [->|[Hne _]]; [|done]. rewrite Hv1 in Hr. by apply Hk1.
  - eexists _, _, _. apply Hk1. rewrite <-Hv1. apply status_with_context_Err; [apply L|].
    unfold status_change. rewrite Hv1, Hs, transition_invalid by done. reflexivity.
Qed.

Lemma enter_yields id st k (Q : RustvelloResult RecoveryOutcome → RuntimeView → Prop) cur c s v :
  view s = v → v_status v !! id = Some cur → is_recovery st = true →
  (∀ c1 s1 cur1 v1, view s1 = v1 → entered runner id st cur v cur1 v1 →
     ∃ r v', yields view k c1 s1 r v' ∧ Q r v') →
  ∃ r v', yields view (enter_recovery runner id st (is_recovery (rec_status cur)) k) c s r v' ∧
    if is_recovery (rec_status cur) || can_transition_to (rec_status cur) st then Q r v'
    else r = Ok RecoverySkipped ∧ v' = v.
Proof.
  intros Hv Hs Hst Hk. unfold enter_recovery, entered in *.
  destruct (is_recovery (rec_status cur)); simpl; [by apply (Hk c s cur v)|].
  pose proof (untriggered_status id st c s v cur Hv Hs) as Hw.
  destruct (can_transition_to (rec_status cur) st); simpl in Hw.
  - destruct Hw as [now Hw]; [by left; destruct st|]. apply yields_attempt in Hw.
    ystep Hw c1 s1 Hv1 Hk1. destruct (Hk c1 s1 (moved now cur st (Some runner)) (view s1) eq_refl)
      as (r & v' & Hy & HQ); [by exists now|]. exists r, v'. split; [by apply Hk1|done].
  - destruct Hw as (? & ? & ? & Hw). apply yields_attempt in Hw. ystep Hw c1 s1 Hv1 Hk1.
    eexists _, _. split; [by apply Hk1, yields_ret|done].
Qed.

(** The last steps of a recovery. *)
Lemma finish_failed id cur1 v1 e c s :
  view s = v1 → v_status v1 !! id = Some cur1 → is_recovery (rec_status cur1) = true →
  ∃ now, yields view (sb_store_error id e;; set_invocation_status id Failed runner;; mret RecoveryFailed)
    c s (Ok RecoveryFailed)
    (changed id (moved now cur1 Failed (Some runner)) runner (set_v_errors <[id := e]> v1)).
Proof.
  intros <- Hs Hr. pose proof (pl_store_error id e c s) as He. ystep He c1 s1 Hv1 Hk1.
  destruct (from_recovery cur1 Failed (Some runner) Hr) as [Hc Ho]; [set_solver|].
  pose proof (untriggered_status id Failed c1 s1 _ cur1 Hv1 Hs) as Hw. rewrite Hc in Hw.
  destruct (Hw Ho) as [now Hset]. ystep Hset c2 s2 Hv2 Hk2. exists now. by apply Hk1, Hk2, yields_ret.
Qed.

Lemma finish_requeued id t q p cur1 v1 c s :
  view s = v1 → v_status v1 !! id = Some cur1 → is_recovery (rec_status cur1) = true →
  ∃ now r v', yields view (set_invocation_status id Rerouted runner;;
      br_route_invocation_with_options id (Some t) q p;; mret RecoveryRerouted) c s r v' ∧
    let v2 := changed id (moved now cur1 Rerouted (Some runner)) runner v1 in
    match validate_routing q p with
    | Ok _ => r = Ok RecoveryRerouted ∧ v' = set_v_queue (λ l, l ++ [entry_now id (Some t) q p]) v2
    | Err e => r = Err e ∧ v' = v2
    | Panic _ => False
    end.
Proof.
  intros Hv Hs Hr. destruct (from_recovery cur1 Rerouted (Some runner) Hr) as [Hc Ho]; [set_solver|].
  pose proof (untriggered_status id Rerouted c s _ cur1 Hv Hs) as Hw. rewrite Hc in Hw.
  destruct (Hw Ho) as [now Hset]. ystep Hset c1 s1 Hv1 Hk1.
  pose proof (pl_route id (Some t) q p c1 s1) as Hq. cbv zeta in Hq. rewrite Hv1 in Hq. exists now.
  destruct (validate_routing_cases q p) as [(Hok & _)|(m & Herr & _)];
    [rewrite Hok in Hq |- *|rewrite Herr in Hq |- *]; simpl in Hq.
  - ystep Hq c2 s2 Hv2 Hk2. eexists _, _. split; [by apply Hk1, Hk2, yields_ret|done].
  - eexists _, _. split; [by apply Hk1, yields_bind_Err|done].
Qed.
Lemma recovery_count_yields id c s :
  yields view (recovery_count id) c s (Ok (recoveries (entries (v_histories (view s)) id))) (view s).
Proof.
  unfold recovery_count. pose proof (pl_get_history id c s) as Hh. apply yields_attempt in Hh.
  ystep Hh c1 s1 Hv1 Hk1. by apply Hk1, yields_ret.
Qed.

Lemma recover_yields id st c s :
  is_recovery st = true →
  ∃ r v', yields view (recover_one app_config catalog runner id st) c s r v' ∧
    recovered app_config catalog runner id st (view s) r v'.
Proof.
  intros Hst. unfold recover_one, recovered. pose proof (pl_get_invocation id c s) as Hi.
  destruct (v_invocations (view s) !! id) as [inv|]; simpl in Hi.
  2: { eexists _, _. split; [by apply yields_bind_Err|done]. }
  ystep Hi c1 s1 Hv1 Hk1. pose proof (pl_get_status id c1 s1) as Hs. rewrite Hv1 in Hs.
  destruct (v_status (view s) !! id) as [cur|] eqn:Hcur; simpl in Hs.
  2: { eexists _, _. split; [by apply Hk1, yields_bind_Err|done]. }
  ystep Hs c2 s2 Hv2 Hk2. pose proof (recovery_count_yields id c2 s2) as Hc. rewrite Hv2 in Hc.
  ystep Hc c3 s3 Hv3 Hk3. set (n := recoveries (entries (v_histories (view s)) id)) in *.
  destruct (over_limit app_config (is_recovery (rec_status cur)) n) eqn:Hover.
  - destruct (enter_yields id st (sb_store_error id (recovery_limit_error id n);;
        set_invocation_status id Failed runner;; mret RecoveryFailed)
      (recovery_failed runner id st cur (view s)) cur c3 s3 (view s)) as (r & v' & Hy & Hr); [done..| |].
    { intros c4 s4 cur1 v1 Hv4 Hent. destruct (entered_facts _ _ _ _ _ _ _ Hent Hst Hcur) as [Hs1 Hr1].
      destruct (finish_failed id cur1 v1 (recovery_limit_error id n) c4 s4 Hv4 Hs1 Hr1) as [now Hf].
      eexists _, _. split; [exact Hf|]. split; [done|]. by exists cur1, v1, now. }
    exists r, v'. split; [apply Hk1, Hk2, Hk3; by rewrite Hover|done].
  - destruct (routing_for catalog app_config (inv_task_id inv)) as [[q p]|] eqn:Hroute.
    2: { eexists (Err _), _. split; [|done]. apply Hk1, Hk2, Hk3. rewrite Hover, Hroute.
         apply yields_bind_Err. by apply yields_lift. }
    destruct (enter_yields id st (set_invocation_status id Rerouted runner;;
        br_route_invocation_with_options id (Some (inv_task_id inv)) q p;; mret RecoveryRerouted)
      (recovery_requeued runner id st cur (inv_task_id inv) q p (view s)) cur c3 s3 (view s))
      as (r & v' & Hy & Hr); [done..| |].
    { intros c4 s4 cur1 v1 Hv4 Hent. destruct (entered_facts _ _ _ _ _ _ _ Hent Hst Hcur) as [Hs1 Hr1].
      destruct (finish_requeued id (inv_task_id inv) q p cur1 v1 c4 s4 Hv4 Hs1 Hr1) as (now & r & v' & Hy & Hf).
      exists r, v'. split; [done|]. by exists cur1, v1, now. }
    exists r, v'. split; [|done]. apply Hk1, Hk2, Hk3. rewrite Hover, Hroute.
    apply (yields_lift_Ok view). by apply (yields_publication view).
Qed.

(** C17: One recovery, on every branch.  The setting: no trigger manager, and backends
    without transactional publication whose operations do not fail (the laws
    [PortLaws], which the in-memory backends satisfy; a transactional backend recovers
    in one change instead).  An unknown invocation is an error that changes nothing.
    Over the limit, the invocation is failed with the stored [RecoveryLimitExceeded]
    error, whether or not its task is known.  Otherwise a task this process does not
    know is an error raised before anything is written; a known one is moved to the
    recovery status, which takes it from its dead owner (unless an earlier recovery was
    interrupted there), then to Rerouted, and queued under the task's resolved route;
    an invalid route is an error after the two status changes.  An invocation that
    moved on meanwhile is skipped. *)
Theorem recovery_behaviour id st c s :
  is_recovery st = true →
  let m := recover_one app_config catalog runner id st in
  recovered app_config catalog runner id st (view s) (result_of m c s) (view (state_after m c s)).
Proof.
  intros Hst m. destruct (recover_yields id st c s Hst) as (r & v' & Hy & Hr).
  apply yields_result in Hy as [<- <-]. exact Hr.
Qed.

(** The entries of [id] after a change of [id]. *)
Lemma entries_changed id rec v :
  entries (v_histories (changed id rec runner v)) id =
    entries (v_histories v) id ++ [history_entry id rec runner].
Proof. unfold changed. simpl. by rewrite entries_push, decide_True. Qed.

Lemma recoveries_app h1 h2 : recoveries (h1 ++ h2) = (recoveries h1 + recoveries h2)%nat.
Proof. unfold recoveries, bfilter. by rewrite List.filter_app, length_app. Qed.

(** A recovery that re-queues was within the limit. *)
Lemma requeued_within_limit id st v v' :
  is_recovery st = true → 0 < ac_max_invocation_recoveries app_config →
  recovered app_config catalog runner id st v (Ok RecoveryRerouted) v' →
  Z.of_nat (recoveries (entries (v_histories v') id)) ≤ ac_max_invocation_recoveries app_config.
Proof.
  intros Hst Hlim. unfold recovered.
  destruct (v_invocations v !! id) as [inv|]; [|by intros []].
  destruct (v_status v !! id) as [cur|]; [|by intros []].
  set (n := recoveries (entries (v_histories v) id)).
  destruct (over_limit app_config (is_recovery (rec_status cur)) n) eqn:Hover.
  { destruct (_ || _); by intros []. }
  destruct (routing_for _ _ _) as [[q p]|]; [|by intros []].
  destruct (_ || _); [|by intros []]. intros (cur1 & v1 & now & Hent & Hrec).
  destruct (validate_routing q p); [|by destruct Hrec|done]. destruct Hrec as [_ ->].
  unfold over_limit in Hover. rewrite (proj2 (Z.ltb_lt 0 _)) in Hover by done. simpl in Hover.
  apply Z.ltb_ge in Hover. cbn [v_histories set_v_queue]. rewrite entries_changed, recoveries_app.
  change (recoveries [history_entry id (moved now cur1 Rerouted (Some runner)) runner]) with 0%nat.
  unfold entered in Hent. destruct (is_recovery (rec_status cur)) eqn:Hres.
  - destruct Hent as [-> ->]. fold n. lia.
  - destruct Hent as (now1 & -> & ->). rewrite entries_changed, recoveries_app. fold n.
    assert (recoveries [history_entry id (moved now1 cur st (Some runner)) runner] = 1%nat) as ->; [|lia].
    unfold recoveries, bfilter. simpl. by rewrite Hst.
Qed.

(** C18: Recovery is bounded.  The setting is that of a single recovery: no trigger
    manager, no transactional publication, operations that do not fail.  With a limit
    set, a recovery that re-queues its invocation leaves a history with at most that
    many recoveries.  Once the history shows that many, the next recovery of an
    invocation that is in a status recovery applies to, and not already in a recovery
    status, ends it for good: it answers that the invocation failed, the status is
    Failed, and the [RecoveryLimitExceeded] error is stored. *)
Theorem recovery_is_bounded id st c s :
  is_recovery st = true → 0 < ac_max_invocation_recoveries app_config →
  let m := recover_one app_config catalog runner id st in
  let v := view s in let v' := view (state_after m c s) in
  let limit := ac_max_invocation_recoveries app_config in
  (result_of m c s = Ok RecoveryRerouted → Z.of_nat (recoveries (entries (v_histories v') id)) ≤ limit) ∧
  (∀ inv cur, v_invocations v !! id = Some inv → v_status v !! id = Some cur →
     is_recovery (rec_status cur) = false → can_transition_to (rec_status cur) st = true →
     let n := recoveries (entries (v_histories v) id) in limit ≤ Z.of_nat n →
     result_of m c s = Ok RecoveryFailed ∧ rec_status <$> v_status v' !! id = Some Failed ∧
     v_errors v' !! id = Some (recovery_limit_error id n)).
Proof.
  intros Hst Hlim m v v' limit. destruct (recover_yields id st c s Hst) as (r & w & Hy & Hrec).
  apply yields_result in Hy as [Hr Hw]. fold m in Hr, Hw. subst v' v. rewrite Hr, Hw. clear Hr Hw. split.
  - intros ->. by eapply requeued_within_limit.
  - intros inv cur Hinv Hcur Hnot Hcan n Hn. unfold recovered in Hrec. rewrite Hinv, Hcur, Hnot, Hcan in Hrec.
    fold n in Hrec.
    assert (over_limit app_config false n = true) as Hover
      by (unfold over_limit; apply andb_true_iff; split; apply Z.ltb_lt; lia).
    rewrite Hover in Hrec. cbn [orb] in Hrec. destruct Hrec as (-> & cur1 & v1 & now & _ & ->).
    split_and!; [done|simpl; by rewrite lookup_insert_eq|simpl; by rewrite lookup_insert_eq].
Qed.
(** *** A pass over many candidates *)

(** What a pass may not change of an invocation it has nothing to do with. *)
Definition untouched (id : InvocationId) (v v' : RuntimeView) : Prop :=
  v_status v' !! id = v_status v !! id ∧ entries (v_histories v') id = entries (v_histories v) id ∧
  v_invocations v' = v_invocations v ∧ v_errors v' !! id = v_errors v !! id.

#[local] Instance untouched_preorder id : PreOrder (untouched id).
Proof. split; unfold untouched; repeat intro; intuition congruence. Qed.

(** A stale invocation this process has no route for, below the limit. *)
Definition no_route (id : InvocationId) (v : RuntimeView) : Prop :=
  ∃ inv cur, v_invocations v !! id = Some inv ∧ v_status v !! id = Some cur ∧
    routing_for catalog app_config (inv_task_id inv) = None ∧
    over_limit app_config (is_recovery (rec_status cur)) (recoveries (entries (v_histories v) id)) = false.

Lemma no_route_untouched id v v' : untouched id v v' → no_route id v → no_route id v'.
Proof.
  intros (Hs & Hh & Hi & _) (inv & cur & ?). exists inv, cur. by rewrite Hs, Hh, Hi.
Qed.

Lemma changed_untouched id id' rec v : id' ≠ id → untouched id' v (changed id rec runner v).
Proof.
  intros Hne. unfold untouched, changed. simpl. rewrite lookup_insert_ne by done.
  rewrite entries_push, decide_False; [done|]. simpl. congruence.
Qed.

Lemma entered_untouched id id' st cur v cur1 v1 :
  id' ≠ id → entered runner id st cur v cur1 v1 → untouched id' v v1.
Proof.
  unfold entered. intros Hne. destruct (is_recovery _); [by intros [_ ->]|].
  intros (now & _ & ->). by apply changed_untouched.
Qed.

(** A recovery touches its own invocation only, and not even that without a
    route. *)
Lemma recovered_untouched id id' st v r v' :
  recovered app_config catalog runner id st v r v' → id' ≠ id ∨ no_route id' v → untouched id' v v'.
Proof.
  unfold recovered, recovery_failed, recovery_requeued. intros Hrec Hid.
  destruct (v_invocations v !! id) as [inv|] eqn:Hi; [|by destruct Hrec as [_ ->]].
  destruct (v_status v !! id) as [cur|] eqn:Hs; [|by destruct Hrec as [_ ->]].
  destruct (decide (id' = id)) as [->|Hne].
  { destruct Hid as [?|(inv' & cur' & ? & ? & Hr & Ho)]; [done|]. simplify_eq.
    rewrite Ho, Hr in Hrec. by destruct Hrec as [_ ->]. }
  destruct (over_limit _ _ _).
  - destruct (_ || _); [|by destruct Hrec as [_ ->]].
    destruct Hrec as (_ & cur1 & v1 & now & Hent & ->).
    etrans; [by eapply entered_untouched|]. etrans; [|by apply changed_untouched].
    unfold untouched. simpl. by rewrite lookup_insert_ne.
  - destruct (routing_for _ _ _) as [[q p]|]; [|by destruct Hrec as [_ ->]].
    destruct (_ || _); [|by destruct Hrec as [_ ->]]. destruct Hrec as (cur1 & v1 & now & Hent & Hrec).
    etrans; [by eapply entered_untouched|]. etrans; [by apply (changed_untouched id id')|].
    by destruct (validate_routing q p); [destruct Hrec as [_ ->]|destruct Hrec as [_ ->]|].
Qed.

Lemma recovered_no_panic id st v r v' :
  recovered app_config catalog runner id st v r v' → is_panic r = false.
Proof.
  unfold recovered, recovery_failed, recovery_requeued. intros Hrec.
  destruct (v_invocations v !! id); [|by destruct Hrec as [-> _]].
  destruct (v_status v !! id); [|by destruct Hrec as [-> _]].
  destruct (over_limit _ _ _); [destruct (_ || _); by destruct Hrec as [-> _]|].
  destruct (routing_for _ _ _) as [[q p]|]; [|by destruct Hrec as [-> _]].
  destruct (_ || _); [|by destruct Hrec as [-> _]]. destruct Hrec as (cur1 & v1 & now & _ & Hrec).
  by destruct (validate_routing q p); [destruct Hrec as [-> _]|destruct Hrec as [-> _]|].
Qed.

Lemma candidates_yields l acc c s :
  Forall (λ p, is_recovery p.2 = true) l →
  ∃ acc' v', yields view (for_fold (recover_candidate app_config catalog runner) acc l) c s (Ok acc') v' ∧
    ∀ id, id ∉ l.*1 ∨ no_route id (view s) → untouched id (view s) v'.
Proof.
  intros Hl. revert acc c s. induction Hl as [|[x st] l Hst Hl IH]; intros acc c s; cbn [for_fold].
  { eexists _, _. split; [by apply yields_ret|done]. }
  destruct (recover_yields x st c s Hst) as (r & v1 & Hy & Hr).
  pose proof (recovered_no_panic _ _ _ _ _ Hr) as Hp. apply yields_attempt in Hy.
  assert (∃ acc1, yields view (recover_candidate app_config catalog runner acc (x, st)) c s (Ok acc1) v1)
    as [acc1 Hc].
  { unfold recover_candidate. destruct r as [o|e|p]; [| |done]; ystep Hy c1 s1 Hv1 Hk1;
      eexists; by apply Hk1, yields_ret. }
  ystep Hc c1 s1 Hv1 Hk1. destruct (IH acc1 c1 s1) as (acc' & v' & Hy' & Hu).
  exists acc', v'. split; [by apply Hk1|]. intros id Hid. rewrite Hv1 in Hu.
  assert (untouched id (view s) v1) as H1.
  { eapply recovered_untouched; [exact Hr|]. destruct Hid as [Hid|?]; [left|by right].
    intros ->. apply Hid. by left. }
  etrans; [exact H1|]. apply Hu. destruct Hid as [Hid|Hid]; [left|right; by eapply no_route_untouched].
  intros Hin. apply Hid. by right.
Qed.

Lemma interrupted_one_yields status cutoff found id c s :
  ∃ found', yields view (interrupted_one status cutoff found id) c s (Ok found') (view s) ∧
    (found' = found ∨ found' = found ++ [(id, status)]).
Proof.
  unfold interrupted_one. pose proof (pl_get_status id c s) as Hs. apply yields_attempt in Hs.
  destruct (v_status (view s) !! id) as [rec|]; simpl in Hs; ystep Hs c1 s1 Hv1 Hk1.
  - eexists. split; [by apply Hk1, yields_ret|]. destruct (_ && _); eauto.
  - eexists. split; [by apply Hk1, yields_ret|]. eauto.
Qed.

Lemma interrupted_fold_yields status cutoff ids found c s :
  is_recovery status = true → Forall (λ p, is_recovery p.2 = true) found →
  ∃ found', yields view (for_fold (interrupted_one status cutoff) found ids) c s (Ok found') (view s) ∧
    Forall (λ p, is_recovery p.2 = true) found'.
Proof.
  intros Hst. revert found c s. induction ids as [|id ids IH]; intros found c s Hf; cbn [for_fold].
  { eexists. split; [by apply yields_ret|done]. }
  destruct (interrupted_one_yields status cutoff found id c s) as (f1 & H1 & Hf1).
  ystep H1 c1 s1 Hv1 Hk1. destruct (IH f1 c1 s1) as (f2 & H2 & Hf2).
  - destruct Hf1 as [->| ->]; [done|]. apply Forall_app. split; [done|]. by constructor.
  - exists f2. rewrite Hv1 in H2. split; [by apply Hk1|done].
Qed.

Lemma interrupted_in_yields found p c s :
  is_recovery p.1 = true → Forall (λ p, is_recovery p.2 = true) found →
  ∃ r, yields view (interrupted_in found p) c s r (view s) ∧
    match r with Ok l => Forall (λ p, is_recovery p.2 = true) l | _ => True end.
Proof.
  destruct p as [status n]. intros Hst Hf. unfold interrupted_in.
  destruct (pl_by_status status None c s) as [ids Hids]. apply yields_attempt in Hids.
  ystep Hids c1 s1 Hv1 Hk1.
  destruct (seconds_before (clock_next c1).1 (i64_saturating_of_u64 n)) as [cutoff|] eqn:Hcut.
  - destruct (interrupted_fold_yields status cutoff ids found (clock_next c1).2 s1 Hst Hf)
      as (f' & Hy & Hf'). rewrite Hv1 in Hy. exists (Ok f'). split; [|exact Hf'].
    apply Hk1, (yields_utc_now view). by rewrite Hcut.
  - eexists (Panic _). split; [|done]. apply Hk1, (yields_utc_now view). rewrite Hcut.
    apply yields_bind_Panic. by eexists _, _.
Qed.

Lemma interrupted_yields c s :
  ∃ r, yields view (interrupted_recoveries app_config) c s r (view s) ∧
    match r with Ok l => Forall (λ p, is_recovery p.2 = true) l | _ => True end.
Proof.
  unfold interrupted_recoveries. cbn [for_fold].
  destruct (interrupted_in_yields [] (PendingRecovery, ac_max_pending_seconds app_config) c s)
    as (r & Hy & Hr); [done|by constructor|].
  destruct r as [f|e|p]; [|by eexists (Err e); split; [apply yields_bind_Err|]
                          |by eexists (Panic p); split; [apply yields_bind_Panic|]].
  ystep Hy c1 s1 Hv1 Hk1.
  destruct (interrupted_in_yields f (RunningRecovery, ac_runner_dead_after_seconds app_config) c1 s1)
    as (r & Hy2 & Hr2); [done..|]. rewrite Hv1 in Hy2.
  destruct r as [f2|e|p]; [|by eexists (Err e); split; [apply Hk1, yields_bind_Err|]
                          |by eexists (Panic p); split; [apply Hk1, yields_bind_Panic|]].
  ystep Hy2 c2 s2 Hv2 Hk2. exists (Ok f2). split; [by apply Hk1, Hk2, yields_ret|done].
Qed.
(** A recovery pass goes over all its candidates whatever their errors: it
    fails only where one of the scans fails, before anything is written.  An
    invocation whose task has no route in this process and whose recovery limit is
    not reached keeps its status, its history, its error and its place, for a
    runner that knows the task. *)
Theorem recovery_pass_leaves_unknown_tasks id c s :
  let m := recover_stale_invocations app_config catalog runner in
  let v' := view (state_after m c s) in
  (is_ok (result_of m c s) = false → v' = view s) ∧
  (no_route id (view s) → untouched id (view s) v').
Proof.
  intros m v'. enough (∃ r w, yields view m c s r w ∧ (is_ok r = false → w = view s) ∧
    (no_route id (view s) → untouched id (view s) w)) as (r & w & Hy & ?)
    by (apply yields_result in Hy as [-> Hw]; unfold v'; by rewrite Hw).
  unfold m, recover_stale_invocations.
  destruct (pl_stale_pending (ac_max_pending_seconds app_config) c s) as [r Hp].
  destruct r as [pending|e|p]; [|by eexists (Err e), _; split; [apply yields_bind_Err|]
                                |by eexists (Panic p), _; split; [apply yields_bind_Panic|]].
  ystep Hp c1 s1 Hv1 Hk1.
  destruct (pl_stale_running (ac_runner_dead_after_seconds app_config) c1 s1) as [r Hr].
  rewrite Hv1 in Hr.
  destruct r as [running|e|p]; [|by eexists (Err e), _; split; [apply Hk1, yields_bind_Err|]
                                |by eexists (Panic p), _; split; [apply Hk1, yields_bind_Panic|]].
  ystep Hr c2 s2 Hv2 Hk2. destruct (interrupted_yields c2 s2) as (r & Hi & Hall). rewrite Hv2 in Hi.
  destruct r as [found|e|p]; [|by eexists (Err e), _; split; [apply Hk1, Hk2, yields_bind_Err|]
                              |by eexists (Panic p), _; split; [apply Hk1, Hk2, yields_bind_Panic|]].
  ystep Hi c3 s3 Hv3 Hk3.
  destruct (candidates_yields (((λ id, (id, PendingRecovery)) <$> pending) ++
      ((λ id, (id, RunningRecovery)) <$> running) ++ found) (0, O) c3 s3) as ([n k] & w & Hc & Hu).
  - rewrite !Forall_app. split_and!; [by apply Forall_fmap, Forall_true..|done].
  - ystep Hc c4 s4 Hv4 Hk4. exists (Ok n), w. split; [by apply Hk1, Hk2, Hk3, Hk4, yields_ret|].
    split; [done|]. rewrite Hv3 in Hu. auto.
Qed.
End lemmas.

(** ** Witnesses *)

(** "i1" ran on the dead runner "w1"; "i2" is of a task nobody registered here. *)
Definition demo_recover (id : InvocationId) (catalog : TaskCatalog) : M RustvelloError (Runtime unit) RecoveryOutcome :=
  @recover_one text_json _ demo_ports (env_list []) parse_one ascii_case literal_glob
    (app_config_new "app") catalog "r9" id RunningRecovery.

Definition demo_stale : Runtime unit :=
  state_after (set_invocation_status (P := demo_ports) "i1" Pending "w1";;
    set_invocation_status (P := demo_ports) "i1" Running "w1") demo_clock
    (state_after (create_and_route_invocation (P := demo_ports) "i1" demo_call None false "r0" "default" 0)
       demo_clock (runtime_new tt)).

Lemma recovery_behaviour_witness :
  recovered (E := env_list []) (PF := parse_one) (UC := ascii_case) (G := literal_glob)
    (app_config_new "app") demo_catalog "r9" "i1" RunningRecovery (runtime_view demo_stale)
    (Ok RecoveryRerouted) (runtime_view (state_after (demo_recover "i1" demo_catalog) demo_clock demo_stale)).
Proof.
  assert (result_of (demo_recover "i1" demo_catalog) demo_clock demo_stale = Ok RecoveryRerouted) as <-
    by (vm_compute; reflexivity).
  apply (@recovery_behaviour text_json _ demo_ports runtime_view demo_laws (env_list []) parse_one
    ascii_case literal_glob (app_config_new "app") demo_catalog "r9" eq_refl "i1" RunningRecovery
    demo_clock demo_stale eq_refl).
Defined.

Lemma recovery_is_bounded_witness :
  Z.of_nat (recoveries (entries (v_histories
    (runtime_view (state_after (demo_recover "i1" demo_catalog) demo_clock demo_stale))) "i1")) ≤ 3.
Proof.
  refine (proj1 (@recovery_is_bounded text_json _ demo_ports runtime_view demo_laws (env_list []) parse_one
    ascii_case literal_glob (app_config_new "app") demo_catalog "r9" eq_refl "i1" RunningRecovery
    demo_clock demo_stale _ _) _); vm_compute; reflexivity.
Defined.

Lemma recovery_pass_leaves_unknown_tasks_witness :
  let m := @recover_stale_invocations text_json _ demo_ports chrono_in_seconds (env_list []) parse_one
    ascii_case literal_glob (app_config_new "app") catalog_new "r9" in
  untouched "i1" (runtime_view demo_stale) (runtime_view (state_after m demo_clock demo_stale)).
Proof.
  apply (@recovery_pass_leaves_unknown_tasks text_json _ demo_ports runtime_view demo_laws chrono_in_seconds
    (env_list []) parse_one ascii_case literal_glob (app_config_new "app") catalog_new "r9" eq_refl "i1"
    demo_clock demo_stale).
  exists (default (invocation_new 0 "" demo_task (cd_call_id demo_call))
            (v_invocations (runtime_view demo_stale) !! "i1")),
    (default demo_record (v_status (runtime_view demo_stale) !! "i1")).
  split_and!; vm_compute; reflexivity.
Defined.
