(* ===== verification/Execution.v ===== *)
(** * Execution of an invocation

    Models [rustvello/src/runner/executor_common.rs] and [attempt.rs], the part of
    every runner between a claimed invocation and its outcome, and
    [rustvello-core/src/execution.rs], the durable identity of each attempt.

    Task code is not modelled: an [AttemptRun] says how one attempt ended, with
    the effects that the task and everybody else had on the backends while it
    ran.  Middleware hooks are arbitrary operations.  Telemetry events, log lines
    and the per-worker statistics are not modelled.

    The theorems: what the supervision of an attempt may conclude, that retries
    are bounded by the code-level limit, what a discarded outcome is, that
    attempts are numbered upwards, that a worker which loses the race for an
    invocation frees the concurrency slot of the worker that won it, and
    [execution_behaviour]: what an execution leaves behind on every branch, from the
    claim to the report of its outcome. *)
From stdpp Require Import pretty.
From S2P Require Import Prelude F64 Effects Json Identifiers Status Errors Config Call Invocation Trigger OrchestratorState MemOrchestrator MemOrchestratorFacts MemBroker MemStateBackend TaskCatalog Ports Orchestration Routing Dispatch.

(** ** Execution identity *)

(** [allocate_execution_trace_context] draws random span ids; JSON encoding of an
    identity is [serde_json]'s. *)
Class ExecutionCodec := {
  allocate_execution_trace_context : nat → TraceContextCarrier → TraceContextCarrier;
  identity_to_json : ExecutionAttemptIdentity → string;
  identity_from_json : string → option ExecutionAttemptIdentity;
  identity_json_roundtrip i : identity_from_json (identity_to_json i) = Some i
}.

(* @src rustvello-core/src/execution.rs 10-10 IDENTITY_KEY *)
Definition IDENTITY_KEY : string := "rustvello.execution.identity.v1".

(** [drawn] selects the random span id. *)
(* @src rustvello-core/src/execution.rs 49-79 next_execution_identity *)
Definition next_execution_identity `{ExecutionCodec} (drawn : nat)
    (previous : option ExecutionAttemptIdentity) (retry_count : Z) (incoming : TraceContextCarrier)
    : RustvelloResult ExecutionAttemptIdentity :=
  attempt ← match previous with
    | Some identity =>
        next ← ok_or (u32_checked_add (attempt_number identity) 1)
                 (state_backend_err "execution attempt counter exhausted");
        Ok (Z.max retry_count next)
    | None => Ok retry_count
    end;
  let parent :=
    if trace_context_is_empty incoming then
      match previous with Some identity => execution_trace_context identity | None => incoming end
    else incoming in
  Ok {| attempt_number := attempt;
        execution_trace_context := allocate_execution_trace_context drawn parent;
        previous_attempt_trace_context :=
          match previous with
          | Some identity => execution_trace_context identity
          | None => trace_context_default
          end |}.

Section execution.
Context {J : JsonValue} {S : Type} {P : Ports S} {EC : ExecutionCodec}.

(* @src rustvello-core/src/execution.rs 12-26 get_execution_identity *)
Definition get_execution_identity (id : InvocationId)
    : M RustvelloError S (option ExecutionAttemptIdentity) :=
  value ← sb_get_workflow_data id IDENTITY_KEY;
  match value with
  | None => mret None
  | Some text =>
      identity ← lift (ok_or (identity_from_json text) (ESerialization "invalid execution identity"));
      mret (Some identity)
  end.

(* @src rustvello-core/src/execution.rs 28-47 begin_execution *)
Definition core_begin_execution (drawn : nat) (id : InvocationId) (retry_count : Z)
    (incoming : TraceContextCarrier) : M RustvelloError S ExecutionAttemptIdentity :=
  previous ← get_execution_identity id;
  identity ← lift (next_execution_identity drawn previous retry_count incoming);
  sb_set_workflow_data id IDENTITY_KEY (identity_to_json identity);;
  mret identity.

(* @src rustvello/src/orchestration/mod.rs 91-111 Orchestrator::begin_execution *)
Definition begin_execution (drawn : nat) (id : InvocationId) (runner : RunnerId) (retries : Z)
    (incoming : TraceContextCarrier) : M RustvelloError S ExecutionAttemptIdentity :=
  p ← publication;
  match p with
  | Some pub => pub_begin_execution pub id runner retries incoming
  | None => core_begin_execution drawn id retries incoming
  end.

(** ** One supervised attempt *)

(** Why an attempt stopped before producing its own result; the deadline is in
    milliseconds. *)
(* @src rustvello/src/runner/attempt.rs 32-39 Interruption *)
Inductive Interruption := TimedOut (timeout_ms : Z) | InterruptedByCancel.

(** The deadline in milliseconds and the interval between two checks in seconds. *)
(* @src rustvello/src/runner/attempt.rs 41-45 AttemptLimits *)
Record AttemptLimits := mkLimits { lim_timeout : option Z; lim_cancel_check : option f64 }.

(** The double nearest to 0.01. *)
Definition f64_centi : f64 := 4576918229304087675.

(** [Duration::from_secs_f64] panics above [u64::MAX] seconds. *)
(* @src rustvello/src/runner/attempt.rs 47-55 AttemptLimits::new *)
Definition limits_new (timeout : option Z) (cancel_check_seconds : f64)
    : RustvelloResult AttemptLimits :=
  if f64_is_finite cancel_check_seconds && f64_ltb 0 cancel_check_seconds then
    let seconds := if f64_leb f64_centi cancel_check_seconds then cancel_check_seconds
                   else f64_centi in
    if f64_leb (f64_of_u64 u64_max) seconds then Panic "cannot convert float seconds to Duration: value is too big"
    else Ok (mkLimits timeout (Some seconds))
  else Ok (mkLimits timeout None).

(* @src rustvello-proto/src/config.rs 180-180 TASK_TIMEOUT_ERROR *)
Definition TASK_TIMEOUT_ERROR : string := "TaskTimeoutError".

(* @src rustvello/src/runner/attempt.rs 57-67 timeout_error *)
Definition timeout_error (timeout_ms : Z) : RustvelloError :=
  ETaskExecution TASK_TIMEOUT_ERROR
    ("attempt exceeded its execution deadline of " +:+ pretty timeout_ms +:+ " ms") None.

(** How the race of one attempt goes: which branch of the [select!] is ready first
    at each turn, and what the task and its environment did to the backends until
    then.  [BodyReturns] carries the elapsed milliseconds.  Only an attempt with a
    deadline can reach it, and only one with an interval is checked. *)
Inductive AttemptRun : AttemptLimits → Type :=
| BodyReturns limits (env : S → S) (elapsed_ms : Z) (result : RustvelloResult string) :
    AttemptRun limits
| DeadlineExpires timeout every (env : S → S) : AttemptRun (mkLimits (Some timeout) every)
| CancelCheck timeout every (env : S → S) (rest : AttemptRun (mkLimits timeout (Some every))) :
    AttemptRun (mkLimits timeout (Some every)).

(** Without any limit the attempt is awaited alone, which is the first case. *)
(* @src rustvello/src/runner/attempt.rs 73-135 supervise *)
Fixpoint supervise {limits : AttemptLimits} (run : AttemptRun limits) (id : InvocationId)
    : M RustvelloError S (RustvelloResult string * option Interruption) :=
  match run with
  | BodyReturns limits env elapsed result =>
      modify env;;
      mret (match lim_timeout limits with
            | Some timeout =>
                if timeout <? elapsed then (Err (timeout_error timeout), Some (TimedOut timeout))
                else (result, None)
            | None => (result, None)
            end)
  | DeadlineExpires timeout _ env =>
      modify env;;
      mret (Err (timeout_error timeout), Some (TimedOut timeout))
  | CancelCheck _ _ env rest =>
      modify env;;
      cancelled ← is_cancelled id;
      if (cancelled : bool) then mret (Err (EInvocationCancelled id), Some InterruptedByCancel)
      else supervise rest id
  end.
(** ** The outcome of an attempt *)

(** Why an attempt's outcome was not written. *)
(* @src rustvello/src/runner/executor_common.rs 490-498 Discarded *)
Inductive Discarded := DiscardedCancelled | TakenOver (holder_running : bool).

Definition holder_is_running (record : option InvocationStatusRecord) : bool :=
  match record with
  | Some r => match rec_status r with Pending | Running => true | _ => false end
  | None => false
  end.

(** Whether a rejected outcome write means "discard this attempt". *)
(* @src rustvello/src/runner/executor_common.rs 500-545 discarded_outcome *)
Definition discarded_outcome (id : InvocationId) (worker : RunnerId) (written : unit + RustvelloError)
    : M RustvelloError S (option Discarded) :=
  match written with
  | inl _ => mret None
  | inr ((EInvalidStatusTransition _ _ _ _ | EOwnershipViolation _ _ _ _ _ _
         | EStatusRaceCondition _ _ _ _) as error) =>
      cancelled ← is_cancelled id;
      if (cancelled : bool) then mret (Some DiscardedCancelled)
      else
        record ← current_status id;
        let holder_running := holder_is_running record in
        if holder_running && bool_decide ((record ≫= rec_runner_id) = Some worker) then throw error
        else mret (Some (TakenOver holder_running))
  | inr error => throw error
  end.

(** A slot that cannot be released is only logged. *)
Definition release_logged (id : InvocationId) : M RustvelloError S unit :=
  attempt (release_nontransactional_concurrency_slot id);; mret tt.

(** The slot stays with a worker that runs a recovered copy. *)
(* @src rustvello/src/runner/executor_common.rs 547-577 finish_discarded *)
Definition finish_discarded (id : InvocationId) (reason : Discarded) : M RustvelloError S unit :=
  match reason with TakenOver true => mret tt | _ => release_logged id end.

(** What follows an outcome write: nothing more if it was discarded. *)
Definition after_outcome (id : InvocationId) (worker : RunnerId) (write : M RustvelloError S unit)
    (k : M RustvelloError S unit) : M RustvelloError S unit :=
  written ← attempt write;
  discarded ← discarded_outcome id worker written;
  match discarded with
  | Some reason => finish_discarded id reason
  | None => k
  end.

(** ** Claim *)

(** Taking ownership: [false] when another worker was faster. *)
(* @src rustvello/src/runner/executor_common.rs 69-105 execute_invocation_common *)
Definition claim_ownership (id : InvocationId) (worker : RunnerId) : M RustvelloError S bool :=
  r ← attempt (set_invocation_status id Pending worker);
  match r with
  | inl _ => mret true
  | inr (EInvalidStatusTransition _ _ _ _) | inr (EOwnershipViolation _ _ _ _ _ _) =>
      release_nontransactional_concurrency_slot id;;
      mret false
  | inr e =>
      attempt (release_nontransactional_concurrency_slot id);;
      throw e
  end.

(* @src rustvello/src/runner/executor_common.rs 122-131 execute_invocation_common *)
Definition unregistered_message (task_id : TaskId) : string :=
  "task " +:+ task_id_display task_id +:+ " is not registered in this runner: import the module that defines it in the process that runs the worker (with worker processes, the runner process must register it too), or route it to a runner that has it".

(** A task this worker does not know fails permanently. *)
(* @src rustvello/src/runner/executor_common.rs 118-158 execute_invocation_common *)
Definition fail_unregistered (id : InvocationId) (worker : RunnerId) (task_id : TaskId)
    (arguments : SerializedArguments) : M RustvelloError S unit :=
  written ← attempt (set_invocation_exception_with_context id "TaskNotRegistered"
                       (unregistered_message task_id) worker task_id arguments);
  discarded ← discarded_outcome id worker written;
  match discarded with
  | Some (TakenOver true) => mret tt
  | _ => release_logged id
  end.

(** ** Failure *)

(* @src rustvello/src/runner/executor_common.rs 344-360 execute_invocation_common *)
Definition task_error_of (e : RustvelloError) : TaskError :=
  match e with
  | ETaskExecution t m tb => mkTaskError t m tb
  | _ => mkTaskError "TaskExecutionError" (error_display e) None
  end.

(** The retry budget and the retried errors are those of the code-level
    configuration, the rest is resolved. *)
(* @src rustvello/src/runner/executor_common.rs 362-371 execute_invocation_common *)
Definition should_retry (code resolved : TaskConfig) (retry_count : Z) (timed_out : bool)
    (error : TaskError) : bool :=
  (retry_count <? tc_max_retries code) &&
  (negb timed_out || tc_retry_on_timeout resolved) &&
  (bool_decide (tc_retry_for_errors code = []) ||
   List.existsb (λ e, str_contains e (error_type error)) (tc_retry_for_errors code)).

Definition timed_out (i : option Interruption) : bool :=
  match i with Some (TimedOut _) => true | _ => false end.

(** What is known of the attempt when it ends. *)
Record Attempt := mkAttempt {
  at_id : InvocationId;
  at_worker : RunnerId;
  at_task_id : TaskId;
  at_arguments : SerializedArguments;
  at_code_config : TaskConfig;
  at_config : TaskConfig;
  at_retries : Z;
  at_number : Z
}.

(* @src rustvello/src/runner/executor_common.rs 343-477 execute_invocation_common *)
Definition handle_failure `{FloatPowi} (random_unit : f64) (a : Attempt) (err : RustvelloError)
    (interruption : option Interruption) : M RustvelloError S unit :=
  let error := task_error_of err in
  if should_retry (at_code_config a) (at_config a) (at_retries a) (timed_out interruption) error then
    lift (ok_or (u32_checked_add (at_number a) 1)
            (state_backend_err "execution attempt counter exhausted"));;
    release_nontransactional_concurrency_slot (at_id a);;
    after_outcome (at_id a) (at_worker a)
      (set_invocation_retry_after_with_context (at_id a) (at_worker a) (at_task_id a) (at_arguments a)
         (tc_queue (at_config a)) (tc_priority (at_config a))
         (retry_delay (at_config a) (at_retries a) random_unit * 1000000))
      (mret tt)
  else
    after_outcome (at_id a) (at_worker a)
      (set_invocation_exception_with_context (at_id a) (error_type error) (error_message error)
         (at_worker a) (at_task_id a) (at_arguments a))
      (release_logged (at_id a)).

(* @src rustvello/src/runner/executor_common.rs 278-342 execute_invocation_common *)
Definition handle_result `{FloatPowi} (random_unit : f64) (a : Attempt)
    (result : RustvelloResult string) (interruption : option Interruption) : M RustvelloError S unit :=
  match interruption with
  | Some InterruptedByCancel => finish_discarded (at_id a) DiscardedCancelled
  | _ =>
      match result with
      | Ok value =>
          after_outcome (at_id a) (at_worker a)
            (set_invocation_result_with_context (at_id a) value (at_worker a) (at_task_id a)
               (at_arguments a))
            (release_logged (at_id a))
      | Err err => handle_failure random_unit a err interruption
      | Panic p => panic p
      end
  end.

(** ** The whole execution *)

(* @src rustvello-core/src/middleware.rs 46-58 TaskMiddleware *)
Record TaskMiddleware := mkMiddleware {
  mw_before : InvocationId → TaskId → M RustvelloError S unit;
  mw_after : InvocationId → TaskId → RustvelloResult string → M RustvelloError S unit
}.

(** [count() as u32]. *)
Definition retries_of (history : list InvocationHistory) : Z :=
  Z.of_nat (length (bfilter (λ h, bool_decide (rec_status (hist_status_record h) = Retry)) history))
    mod 4294967296.

Section common.
Context `{FloatPowi} `{Environment} `{ParseF64} `{UnicodeCase} `{Glob}.
Context (app_config : AppConfig) (catalog : TaskCatalog) (middlewares : list TaskMiddleware).
Context (worker : RunnerId) (drawn : nat) (random_unit : f64).

(** From the loaded invocation on: identity, hooks, the attempt, its outcome. *)
(* @src rustvello/src/runner/executor_common.rs 161-485 execute_invocation_common *)
Definition run_attempt (id : InvocationId) (inv : InvocationDTO) (call : CallDTO) (task : DynTask)
    (run : ∀ limits, AttemptRun limits) : M RustvelloError S unit :=
  let config := resolved catalog app_config (inv_task_id inv) (dt_config task) in
  history ← sb_get_history id;
  let num_retries := retries_of history in
  identity ← begin_execution drawn id worker num_retries (inv_trace_context inv);
  for_each (λ mw, mw_before mw id (inv_task_id inv)) middlewares;;
  limits ← lift (limits_new (task_timeout config)
                   (ac_cancellation_check_interval_seconds app_config));
  '(result, interruption) ← supervise (run limits) id;
  for_each (λ mw, attempt (mw_after mw id (inv_task_id inv) result);; mret tt) (rev middlewares);;
  handle_result random_unit
    {| at_id := id; at_worker := worker; at_task_id := inv_task_id inv;
       at_arguments := cd_serialized_arguments call; at_code_config := dt_config task;
       at_config := config; at_retries := num_retries; at_number := attempt_number identity |}
    result interruption.

(* @src rustvello/src/runner/executor_common.rs 61-485 execute_invocation_common *)
Definition execute_invocation_common (id : InvocationId) (run : ∀ limits, AttemptRun limits)
    : M RustvelloError S unit :=
  claimed ← claim_ownership id worker;
  if negb claimed then mret tt
  else
    set_invocation_status id Running worker;;
    inv ← sb_get_invocation id;
    call ← sb_get_call (inv_call_id inv);
    match catalog_get catalog (inv_task_id inv) with
    | None => fail_unregistered id worker (inv_task_id inv) (cd_serialized_arguments call)
    | Some task => run_attempt id inv call task run
    end.
End common.
End execution.

(** ** Attempt numbers *)

Section identity.
Context {EC : ExecutionCodec}.

Lemma next_identity_cases drawn previous retries incoming :
  match previous with
  | Some p => attempt_number p = u32_max →
      next_execution_identity drawn previous retries incoming =
        Err (state_backend_err "execution attempt counter exhausted")
  | None => True
  end ∧
  ((∀ p, previous = Some p → attempt_number p < u32_max) →
   ∃ i, next_execution_identity drawn previous retries incoming = Ok i ∧
     attempt_number i = match previous with
       | Some p => Z.max retries (attempt_number p + 1) | None => retries end ∧
     previous_attempt_trace_context i = match previous with
       | Some p => execution_trace_context p | None => trace_context_default end).
Proof.
  unfold next_execution_identity, u32_checked_add. split.
  - destruct previous as [p|]; [|done]. intros ->. done.
  - intros Hp. destruct previous as [p|]; simpl; [|eauto].
    rewrite (proj2 (Z.leb_le _ _)) by (specialize (Hp p eq_refl); lia). simpl. eauto.
Qed.

(** Attempts of an invocation are numbered upwards within [u32]: the next
    identity fails exactly when the counter is exhausted, and otherwise its number
    is above the previous attempt's, at least the retry count, at most
    [u32::MAX], and it remembers the previous attempt's trace. *)
Theorem attempts_are_numbered_upwards drawn previous retries incoming :
  0 ≤ retries ≤ u32_max → (∀ p, previous = Some p → 0 ≤ attempt_number p ≤ u32_max) →
  match next_execution_identity drawn previous retries incoming with
  | Ok i => retries ≤ attempt_number i ≤ u32_max ∧
      match previous with
      | Some p => attempt_number p < attempt_number i ∧
                  previous_attempt_trace_context i = execution_trace_context p
      | None => attempt_number i = retries ∧ previous_attempt_trace_context i = trace_context_default
      end
  | Err e => ∃ p, previous = Some p ∧ attempt_number p = u32_max ∧
      e = state_backend_err "execution attempt counter exhausted"
  | Panic _ => False
  end.
Proof.
  intros Hr Hp. destruct (next_identity_cases drawn previous retries incoming) as [Hex Hok].
  destruct previous as [p|].
  - destruct (decide (attempt_number p = u32_max)) as [He|Hne]; [rewrite Hex by done; eauto|].
    specialize (Hp p eq_refl). destruct Hok as (i & -> & -> & ->).
    { intros ? [= <-]. lia. }
    split; [lia|]. split; [lia|done].
  - destruct Hok as (i & -> & -> & ->); [done|]. split_and!; lia || done.
Qed.
End identity.

(** ** Lemmas *)

Section lemmas.
Context {J : JsonValue} {S : Type} {P : Ports S} {EC : ExecutionCodec}.
Context (view : S → RuntimeView) {L : PortLaws P view}.

Lemma is_cancelled_yields id c s :
  yields view (is_cancelled id) c s
    (Ok match v_status (view s) !! id with
        | Some r => bool_decide (rec_status r = Cancelled) | None => false end) (view s).
Proof.
  unfold is_cancelled. pose proof (pl_get_status id c s) as Hs. apply yields_attempt in Hs.
  destruct (v_status (view s) !! id); simpl in Hs; ystep Hs c1 s1 Hv1 Hk1; by apply Hk1, yields_ret.
Qed.

Lemma current_status_yields id c s :
  yields view (current_status id) c s (Ok (v_status (view s) !! id)) (view s).
Proof.
  unfold current_status. pose proof (pl_get_status id c s) as Hs. apply yields_attempt in Hs.
  destruct (v_status (view s) !! id); simpl in Hs; ystep Hs c1 s1 Hv1 Hk1; by apply Hk1, yields_ret.
Qed.

Lemma release_yields id c s :
  yields view (release_nontransactional_concurrency_slot id) c s (Ok tt) (view s).
Proof. apply (yields_publication view). apply pl_unindex. Qed.

Lemma release_logged_yields id c s : yields view (release_logged id) c s (Ok tt) (view s).
Proof.
  unfold release_logged. pose proof (release_yields id c s) as Hr. apply yields_attempt in Hr.
  ystep Hr c1 s1 Hv1 Hk1. by apply Hk1, yields_ret.
Qed.

Lemma finish_discarded_yields id reason c s :
  yields view (finish_discarded id reason) c s (Ok tt) (view s).
Proof.
  destruct reason as [|[]]; simpl; [apply release_logged_yields|by apply yields_ret|apply release_logged_yields].
Qed.

(** A rejection by the status machine or by ownership fencing. *)
Definition rejection (e : RustvelloError) : bool :=
  match e with
  | EInvalidStatusTransition _ _ _ _ | EOwnershipViolation _ _ _ _ _ _ | EStatusRaceCondition _ _ _ _ => true
  | _ => false
  end.

(** The reading of a rejected write, from the record it finds. *)
Definition discard_reason (worker : RunnerId) (record : option InvocationStatusRecord)
    (e : RustvelloError) : RustvelloResult (option Discarded) :=
  match record with
  | None => Ok (Some (TakenOver false))
  | Some r =>
      match rec_status r with
      | Cancelled => Ok (Some DiscardedCancelled)
      | Pending | Running =>
          if decide (rec_runner_id r = Some worker) then Err e else Ok (Some (TakenOver true))
      | _ => Ok (Some (TakenOver false))
      end
  end.

Lemma discarded_yields id worker written c s :
  yields view (discarded_outcome id worker written) c s
    match written with
    | inl _ => Ok None
    | inr e => if rejection e then discard_reason worker (v_status (view s) !! id) e else Err e
    end (view s).
Proof.
  assert (∀ e, yields view
    (cancelled ← is_cancelled id;
     if (cancelled : bool) then mret (Some DiscardedCancelled)
     else
       record ← current_status id;
       if holder_is_running record && bool_decide ((record ≫= rec_runner_id) = Some worker) then throw e
       else mret (Some (TakenOver (holder_is_running record)))) c s
    (discard_reason worker (v_status (view s) !! id) e) (view s)) as Hread.
  { intros e. pose proof (is_cancelled_yields id c s) as Hc. ystep Hc c1 s1 Hv1 Hk1. apply Hk1.
    pose proof (current_status_yields id c1 s1) as Hs. rewrite Hv1 in Hs.
    unfold discard_reason. destruct (v_status (view s) !! id) as [r|] eqn:Hr; simpl.
    2: { ystep Hs c2 s2 Hv2 Hk2. by apply Hk2, yields_ret. }
    case_bool_decide as Hcan; [rewrite Hcan; by apply yields_ret|].
    ystep Hs c2 s2 Hv2 Hk2. apply Hk2. simpl.
    destruct (decide (rec_runner_id r = Some worker)) as [Ho|Ho];
      [rewrite bool_decide_true by done|rewrite bool_decide_false by done];
      destruct (rec_status r); simpl; by (apply yields_ret || apply yields_throw || done). }
  destruct written as [[]|e]; [by apply yields_ret|].
  destruct e; try (by apply yields_throw); apply Hread.
Qed.

(** A rejected outcome write, read off the record it finds: after a
    cancellation the outcome is discarded as cancelled; when the invocation is
    Pending or Running in this worker's own name the rejection stays an error;
    in another worker's name, or in any other status, the attempt was taken over,
    and the first case is the only one in which the slot is left to the holder.
    Any other error is passed on, and nothing is written. *)
Theorem discarded_outcome_behaviour id worker e c s :
  let m := discarded_outcome id worker (inr e) in
  view (state_after m c s) = view s ∧
  (rejection e = false → result_of m c s = Err e) ∧
  (rejection e = true → result_of m c s = discard_reason worker (v_status (view s) !! id) e).
Proof.
  intros m. pose proof (discarded_yields id worker (inr e) c s) as Hy.
  apply yields_result in Hy as [Hr Hv]. unfold m. rewrite Hr. split; [done|].
  by destruct (rejection e).
Qed.

(** *** Supervision *)

(** The event an attempt's run ends with, if no check finds a cancellation. *)
Fixpoint last_event {limits} (run : AttemptRun (S := S) limits)
    : option (Z * RustvelloResult string) :=
  match run with
  | BodyReturns _ _ elapsed result => Some (elapsed, result)
  | DeadlineExpires _ _ _ => None
  | CancelCheck _ _ _ rest => last_event rest
  end.

(** Supervision always ends, in one of three ways.  Not interrupted: the
    result is the one the body returned, within the deadline if there is one.
    Timed out: there is a deadline and the result is the timeout error, whatever
    the body returned (a late success is discarded).  Cancelled: the attempt is
    checked, the invocation is Cancelled at that moment and the result is the
    cancellation error. *)
Theorem supervision_behaviour id limits (run : AttemptRun limits) c s :
  ∃ r i, result_of (supervise run id) c s = Ok (r, i) ∧
    match i with
    | None => ∃ elapsed, last_event run = Some (elapsed, r) ∧
        (∀ t, lim_timeout limits = Some t → elapsed ≤ t)
    | Some (TimedOut t) => lim_timeout limits = Some t ∧ r = Err (timeout_error t)
    | Some InterruptedByCancel =>
        r = Err (EInvocationCancelled id) ∧ is_Some (lim_cancel_check limits) ∧
        rec_status <$> v_status (view (state_after (supervise run id) c s)) !! id = Some Cancelled
    end.
Proof.
  unfold result_of, state_after. revert c s.
  induction run as [limits env elapsed result|timeout every env|timeout every env rest IH]; intros c s.
  - simpl. destruct (lim_timeout limits) as [t|] eqn:Ht.
    + destruct (Z.ltb_spec t elapsed) as [Hlt|Hge]; eexists _, _; (split; [done|]); simpl; [done|].
      exists elapsed. split; [done|]. intros t' [= <-]. done.
    + eexists _, _. split; [done|]. simpl. by exists elapsed.
  - simpl. eexists _, _. split; [done|]. done.
  - destruct (is_cancelled_yields id c (env s)) as (c1 & s1 & Hc & Hv1).
    set (b := match v_status (view (env s)) !! id with
              | Some r => bool_decide (rec_status r = Cancelled) | None => false end) in *.
    assert (supervise (CancelCheck timeout every env rest) id c s =
      (if b then mret (Err (EInvocationCancelled id), Some InterruptedByCancel)
       else supervise rest id) c1 s1) as ->.
    { cbn [supervise]. unfold modify, mbind, M_bind. by rewrite Hc. }
    destruct b eqn:Hb; [|apply IH]. eexists _, _. split; [done|]. simpl. rewrite Hv1.
    destruct (v_status (view (env s)) !! id) as [rec|]; [|done].
    apply bool_decide_eq_true in Hb. simpl. rewrite Hb. split_and!; [done|eauto|done].
Qed.

(** *** Writing the outcome *)

Lemma after_outcome_written id worker write k c s v r v' :
  yields view write c s (Ok tt) v → (∀ c1 s1, view s1 = v → yields view k c1 s1 r v') →
  yields view (after_outcome id worker write k) c s r v'.
Proof.
  intros Hw Hk. apply yields_attempt in Hw. unfold after_outcome. ystep Hw c1 s1 Hv1 Hk1. apply Hk1.
  pose proof (discarded_yields id worker (inl tt) c1 s1) as Hd. ystep Hd c2 s2 Hv2 Hk2. apply Hk2, Hk.
  by rewrite Hv2.
Qed.

Lemma after_outcome_refused id worker write k c s v e :
  yields view write c s (Err e) v →
  yields view (after_outcome id worker write k) c s
    (if rejection e then
       match discard_reason worker (v_status v !! id) e with
       | Ok (Some _) | Ok None => Ok tt | Err e => Err e | Panic p => Panic p
       end
     else Err e) v.
Proof.
  intros Hw. apply yields_attempt in Hw. unfold after_outcome. ystep Hw c1 s1 Hv1 Hk1. apply Hk1.
  pose proof (discarded_yields id worker (inr e) c1 s1) as Hd. rewrite Hv1 in Hd.
  destruct (rejection e); [|by apply yields_bind_Err].
  unfold discard_reason in *. destruct (v_status v !! id) as [rec|].
  2: { ystep Hd c2 s2 Hv2 Hk2. apply Hk2. rewrite <-Hv2. apply finish_discarded_yields. }
  destruct (rec_status rec); try (destruct (decide _)); try (by apply yields_bind_Err);
    (ystep Hd c2 s2 Hv2 Hk2; apply Hk2; rewrite <-Hv2; apply finish_discarded_yields).
Qed.

(** The invocation runs in this worker's name. *)
Definition running_here (v : RuntimeView) (id : InvocationId) (worker : RunnerId)
    (cur : InvocationStatusRecord) : Prop :=
  v_status v !! id = Some cur ∧ rec_status cur = Running ∧ rec_runner_id cur = Some worker.

Lemma running_may_end cur worker st :
  rec_status cur = Running → rec_runner_id cur = Some worker → st ∈ [Success; Failed; Retry] →
  may_transition cur st (Some worker).
Proof.
  intros Hs Ho Hst. unfold may_transition, ownership_ok. rewrite Hs, Ho.
  rewrite !elem_of_cons, elem_of_nil in Hst.
  destruct Hst as [->|[->|[->|[]]]]; (split; [by vm_compute|right; split; [done|vm_compute; discriminate]]).
Qed.

Lemma refusal_rejection id e : refusal id e → rejection e = true.
Proof. by destruct e. Qed.

Section outcome.
Context `{FloatPowi} (random_unit : f64) (a : Attempt).
Context (Htm : tg_manager (S := S) = None).

Lemma reported_untriggered {A} (r : RustvelloResult A) (x : A) : reported r x → r = Ok x.
Proof. by intros [?|[? _]]. Qed.

(** A write that is accepted from a running record. *)
Lemma outcome_accepted_run m c s st rv g cur :
  running_here (view s) (at_id a) (at_worker a) cur → st ∈ [Success; Failed; Retry] →
  outcome_run view m c s (view s) (at_id a) st (at_worker a) rv g →
  ∃ now, yields view m c s (Ok tt) (g (moved now cur st (Some (at_worker a)))).
Proof.
  intros (Hs & Hr & Ho) Hst (r & v' & Hy & Hout). unfold by_status_outcome in Hout. rewrite Hs in Hout.
  rewrite decide_True in Hout by (by apply running_may_end).
  destruct Hout as (now & -> & ->%reported_untriggered). by exists now.
Qed.

(** What a failed attempt leaves when it is retried. *)
Definition retried (cur : InvocationStatusRecord) (v : RuntimeView) (r : RustvelloResult unit)
    (v' : RuntimeView) : Prop :=
  ∃ now, retry_done (at_id a) (at_worker a) (tc_queue (at_config a)) (tc_priority (at_config a))
    (retry_entry (retry_delay (at_config a) (at_retries a) random_unit * 1000000) (at_id a)
       (at_task_id a) (tc_queue (at_config a)) (tc_priority (at_config a))) v r v'
    (moved now cur Retry (Some (at_worker a))).

Lemma retry_outcome cur c s :
  running_here (view s) (at_id a) (at_worker a) cur →
  ∃ r v', yields view (after_outcome (at_id a) (at_worker a)
      (set_invocation_retry_after_with_context (at_id a) (at_worker a) (at_task_id a) (at_arguments a)
         (tc_queue (at_config a)) (tc_priority (at_config a))
         (retry_delay (at_config a) (at_retries a) random_unit * 1000000)) (mret tt)) c s r v' ∧
    retried cur (view s) r v'.
Proof.
  intros (Hs & Hr & Ho).
  destruct (retry_yields view (at_id a) (at_worker a) (at_task_id a) (at_arguments a)
    (tc_queue (at_config a)) (tc_priority (at_config a))
    (retry_delay (at_config a) (at_retries a) random_unit * 1000000) c s) as (r & v' & Hy & Hout).
  unfold by_status_outcome in Hout. rewrite Hs in Hout.
  rewrite decide_True in Hout by (apply running_may_end; [done..|set_solver]).
  destruct Hout as (now & [(Hne & _)|Hdone]); [done|].
  destruct (validate_routing_cases (tc_queue (at_config a)) (tc_priority (at_config a)))
    as [(Hv & _)|(m & Hv & _)].
  - unfold retried, retry_done. rewrite Hv in Hdone |- *. destruct Hdone as (-> & e & He & ->).
    eexists _, _. split; [eapply after_outcome_written; [exact Hy|intros; by apply yields_ret]|].
    exists now. right. eauto.
  - unfold retried, retry_done. rewrite Hv in Hdone |- *. destruct Hdone as (-> & ->).
    exists (Err (EConfiguration m)). eexists. split; [exact (after_outcome_refused _ _ _ _ _ _ _ _ Hy)|].
    exists now. by right.
Qed.

(** The final status an outcome is written with, over the view [stored]. *)
Definition ends (cur : InvocationStatusRecord) (st : InvocationStatus) (stored : RuntimeView)
    (r : RustvelloResult unit) (v' : RuntimeView) : Prop :=
  r = Ok tt ∧ ∃ now,
    v' = changed (at_id a) (moved now cur st (Some (at_worker a))) (at_worker a) stored.

(** How an attempt ends that still runs in this worker's name. *)
Definition attempt_ended (cur : InvocationStatusRecord) (result : RustvelloResult string)
    (interruption : option Interruption) (v : RuntimeView) (r : RustvelloResult unit)
    (v' : RuntimeView) : Prop :=
  match result with
  | Ok value => ends cur Success (set_v_results <[at_id a := value]> v) r v'
  | Err e =>
      let error := task_error_of e in
      if should_retry (at_code_config a) (at_config a) (at_retries a) (timed_out interruption) error then
        match u32_checked_add (at_number a) 1 with
        | None => v' = v ∧ r = Err (state_backend_err "execution attempt counter exhausted")
        | Some _ => retried cur v r v'
        end
      else
        ends cur Failed
          (set_v_errors <[at_id a := mkTaskError (error_type error) (error_message error) None]> v) r v'
  | Panic p => r = Panic p ∧ v' = v
  end.

(** A write that ends the attempt, and the release of the slot after it. *)
Lemma ends_yields write st stored cur c s :
  running_here (view s) (at_id a) (at_worker a) cur → st ∈ [Success; Failed; Retry] →
  outcome_run view write c s (view s) (at_id a) st (at_worker a) stored
    (λ rec, changed (at_id a) rec (at_worker a) stored) →
  wp view (after_outcome (at_id a) (at_worker a) write (release_logged (at_id a))) c s (ends cur st stored).
Proof.
  intros Hrun Hst Ho. destruct (outcome_accepted_run _ c s st _ _ cur Hrun Hst Ho) as [now Hy].
  eexists _, _. split; [eapply after_outcome_written; [exact Hy|]|split; [done|by exists now]].
  intros c1 s1 Hv1. rewrite <-Hv1. apply release_logged_yields.
Qed.

Lemma failure_wp e interruption cur c s :
  running_here (view s) (at_id a) (at_worker a) cur →
  wp view (handle_failure random_unit a e interruption) c s
    (attempt_ended cur (Err e) interruption (view s)).
Proof.
  intros Hrun. unfold handle_failure, attempt_ended. destruct (should_retry _ _ _ _ _).
  - destruct (u32_checked_add (at_number a) 1) as [n|] eqn:Hn; simpl.
    + apply wp_lift. eapply wp_step; [apply release_yields|]. intros c1 s1 Hv1. rewrite <-Hv1 in Hrun |- *.
      destruct (retry_outcome cur c1 s1 Hrun) as (r & v' & Hy & Hq). by exists r, v'.
    + by apply wp_lift.
  - apply ends_yields; [done|set_solver|]. apply (failure_run view).
Qed.

Lemma handle_result_wp result interruption cur c s :
  interruption ≠ Some InterruptedByCancel → running_here (view s) (at_id a) (at_worker a) cur →
  wp view (handle_result random_unit a result interruption) c s
    (attempt_ended cur result interruption (view s)).
Proof.
  intros Hint Hrun.
  assert (∀ m, handle_result random_unit a result interruption = m → wp view m c s
    (attempt_ended cur result interruption (view s)) → wp view (handle_result random_unit a result interruption)
    c s (attempt_ended cur result interruption (view s))) as Hread by (by intros ? ->).
  destruct result as [value|e|p].
  - eapply Hread; [unfold handle_result; by destruct interruption as [[]|]|].
    apply ends_yields; [done|set_solver|]. apply (result_run view).
  - eapply Hread; [unfold handle_result; by destruct interruption as [[]|]|]. by apply failure_wp.
  - eapply Hread; [unfold handle_result; by destruct interruption as [[]|]|].
    exists (Panic p), (view s). split; [by exists c, s|done].
Qed.

(** The outcome of an attempt that still runs in this worker's name (without a
    trigger manager).  A result is stored with the Success record; an error that
    is to be retried becomes the Retry record with one more retry counted and one
    queue entry, due after the computed delay; any other error is stored with the
    Failed record - its type and message, never its traceback.  An attempt number
    that cannot grow stops a retry before anything is written. *)
Theorem attempt_outcome_behaviour result interruption cur c s :
  interruption ≠ Some InterruptedByCancel → running_here (view s) (at_id a) (at_worker a) cur →
  let m := handle_result random_unit a result interruption in
  attempt_ended cur result interruption (view s) (result_of m c s) (view (state_after m c s)).
Proof.
  intros Hint Hrun m. apply (proj1 (wp_result view m c s (attempt_ended cur result interruption (view s)))).
  by apply handle_result_wp.
Qed.

(** A discarded result is stored all the same: when a late attempt returns a
    value for an invocation that was taken over, finished or cancelled meanwhile,
    the execution reports success to its runner, the status is left alone, and
    the stored result is the late attempt's. *)
Theorem discarded_result_replaces_the_stored_one value interruption cur c s :
  interruption ≠ Some InterruptedByCancel →
  v_status (view s) !! at_id a = Some cur → ¬ may_transition cur Success (Some (at_worker a)) →
  (rec_status cur ∈ [Pending; Running] → rec_runner_id cur ≠ Some (at_worker a)) →
  let m := handle_result random_unit a (Ok value) interruption in
  result_of m c s = Ok tt ∧
  view (state_after m c s) = set_v_results <[at_id a := value]> (view s).
Proof.
  intros Hint Hs Hno Hown m. apply yields_result.
  assert (∀ r v', yields view (after_outcome (at_id a) (at_worker a)
        (set_invocation_result_with_context (at_id a) value (at_worker a) (at_task_id a) (at_arguments a))
        (release_logged (at_id a))) c s r v' → yields view m c s r v') as Hm
    by (intros ? ?; unfold m, handle_result; by destruct interruption as [[]|]).
  apply Hm. destruct (result_run view (at_id a) value (at_worker a) (at_task_id a) (at_arguments a) c s)
    as (r & v' & Hy & Hout).
  unfold by_status_outcome in Hout. rewrite Hs, decide_False in Hout by done.
  destruct Hout as (-> & e & -> & Href). pose proof (after_outcome_refused (at_id a) (at_worker a) _
    (release_logged (at_id a)) _ _ _ _ Hy) as Hend.
  rewrite (refusal_rejection _ _ Href) in Hend. cbn [v_status set_v_results] in Hend. rewrite Hs in Hend.
  unfold discard_reason in Hend. destruct (rec_status cur); try exact Hend;
    rewrite decide_False in Hend by (apply Hown; set_solver); exact Hend.
Qed.
End outcome.

(** *** The whole execution *)

(** What a race of branches ends with when no check finds a cancellation. *)
Fixpoint race_outcome {limits} (run : AttemptRun (S := S) limits)
    : RustvelloResult string * option Interruption :=
  match run with
  | BodyReturns limits _ elapsed result =>
      match lim_timeout limits with
      | Some timeout =>
          if timeout <? elapsed then (Err (timeout_error timeout), Some (TimedOut timeout))
          else (result, None)
      | None => (result, None)
      end
  | DeadlineExpires timeout _ _ => (Err (timeout_error timeout), Some (TimedOut timeout))
  | CancelCheck _ _ _ rest => race_outcome rest
  end.

(** The task and its environment leave the backends as the view shows them. *)
Fixpoint undisturbed {limits} (run : AttemptRun (S := S) limits) : Prop :=
  match run with
  | BodyReturns _ env _ _ | DeadlineExpires _ _ env => ∀ s, view (env s) = view s
  | CancelCheck _ _ env rest => (∀ s, view (env s) = view s) ∧ undisturbed rest
  end.

Lemma race_not_cancelled {limits} (run : AttemptRun (S := S) limits) :
  (race_outcome run).2 ≠ Some InterruptedByCancel.
Proof. induction run as [limits env elapsed result|?|?]; simpl; [|done|done]. by repeat case_match. Qed.

Lemma supervise_undisturbed {limits} (run : AttemptRun limits) id cur c s :
  undisturbed run → v_status (view s) !! id = Some cur → rec_status cur ≠ Cancelled →
  yields view (supervise run id) c s (Ok (race_outcome run)) (view s).
Proof.
  intros Hq Hs Hc. revert c s Hs. induction run as [limits env elapsed result|timeout every env|timeout every env rest IH];
    intros c s Hs; simpl in Hq |- *.
  - exists c, (env s). split; [|apply Hq]. unfold modify, mbind, M_bind. by repeat case_match.
  - by exists c, (env s).
  - destruct Hq as [Henv Hq]. eapply yields_bind; [by exists c, (env s)|]. intros c1 s1 Hv1. rewrite Henv in Hv1.
    pose proof (is_cancelled_yields id c1 s1) as Hcan. rewrite Hv1, Hs, bool_decide_false in Hcan by done.
    ystep Hcan c2 s2 Hv2 Hk2. apply Hk2. rewrite <-Hv2. apply IH; [done|]. by rewrite Hv2.
Qed.

(** Hooks that neither fail nor write: [before] succeeds, an error of [after] is dropped. *)
Definition quiet_hooks (middlewares : list TaskMiddleware) : Prop := Forall (λ mw,
  (∀ id t c s, yields view (mw_before mw id t) c s (Ok tt) (view s)) ∧
  (∀ id t r c s, ∃ x, yields view (attempt (mw_after mw id t r)) c s (Ok x) (view s))) middlewares.

Lemma for_each_silent {A} (f : A → M RustvelloError S unit) l c s :
  Forall (λ x, ∀ c s, yields view (f x) c s (Ok tt) (view s)) l → yields view (for_each f l) c s (Ok tt) (view s).
Proof.
  intros Hl. revert c s. induction Hl as [|x l Hx Hl IH]; intros c s; simpl; [by apply yields_ret|].
  pose proof (Hx c s) as H1. ystep H1 c1 s1 Hv1 Hk1. apply Hk1. rewrite <-Hv1. apply IH.
Qed.

Lemma wp_publication {A} (f : option (RuntimePublication S) → M RustvelloError S A) c s Q :
  wp view (f None) c s Q → wp view (publication ≫= f) c s Q.
Proof. intros (r & v & Hy & HQ). exists r, v. split; [by apply (yields_publication view)|done]. Qed.

(** The identity an attempt gets, from the one that is stored. *)
Definition next_identity (drawn : nat) (v : RuntimeView) (id : InvocationId) (retries : Z)
    (incoming : TraceContextCarrier) : RustvelloResult ExecutionAttemptIdentity :=
  previous ← match v_datum v id IDENTITY_KEY with
    | None => Ok None
    | Some text =>
        identity ← ok_or (identity_from_json text) (ESerialization "invalid execution identity");
        Ok (Some identity)
    end;
  next_execution_identity drawn previous retries incoming.

(** The first attempt is not refused, and is numbered from the retries. *)
Lemma next_identity_fresh drawn v id retries incoming :
  v_datum v id IDENTITY_KEY = None →
  ∃ i, next_identity drawn v id retries incoming = Ok i ∧ attempt_number i = retries.
Proof. unfold next_identity. intros ->. eauto. Qed.

Lemma next_identity_no_panic drawn v id retries incoming p : next_identity drawn v id retries incoming ≠ Panic p.
Proof.
  unfold next_identity, next_execution_identity. destruct (v_datum v id IDENTITY_KEY) as [text|]; [|done].
  simpl. destruct (identity_from_json text) as [i|]; [|done]. simpl. by destruct (u32_checked_add _ _).
Qed.

(** An attempt begins by storing its identity. *)
Lemma begin_execution_yields drawn id runner retries incoming c s :
  let next := next_identity drawn (view s) id retries incoming in
  yields view (begin_execution drawn id runner retries incoming) c s next
    (on_success next (λ i, set_v_data id IDENTITY_KEY (identity_to_json i) (view s)) (view s)).
Proof.
  intros next. unfold begin_execution. apply (yields_publication view). unfold core_begin_execution.
  assert (∀ previous c1 s1, view s1 = view s →
    let r := next_execution_identity drawn previous retries incoming in
    yields view (identity ← lift r; sb_set_workflow_data id IDENTITY_KEY (identity_to_json identity);; mret identity) c1 s1 r
      (on_success r (λ i, set_v_data id IDENTITY_KEY (identity_to_json i) (view s)) (view s))) as Hnext.
  { intros previous c1 s1 Hv1 r. destruct r as [i|e|p]; [|by exists c1, s1..].
    destruct (pl_set_data id IDENTITY_KEY (identity_to_json i) c1 s1) as (c2 & s2 & Hset & Hv2).
    rewrite Hv1 in Hv2. exists c2, s2. unfold mbind, M_bind, lift. by rewrite Hset. }
  destruct (pl_get_data id IDENTITY_KEY c s) as (c1 & s1 & Hget & Hv1).
  unfold get_execution_identity, next, next_identity.
  destruct (v_datum (view s) id IDENTITY_KEY) as [text|]; cbn [mbind outcome_bind].
  - destruct (identity_from_json text) as [i|] eqn:Htext; cbn [ok_or].
    + destruct (Hnext (Some i) c1 s1 Hv1) as (c2 & s2 & Hrun & Hv2). exists c2, s2. split; [|exact Hv2].
      revert Hrun. cbv [mbind M_bind mret M_ret lift]. rewrite Hget, Htext. done.
    + exists c1, s1. split; [|done]. cbv [mbind M_bind mret M_ret lift]. by rewrite Hget, Htext.
  - destruct (Hnext None c1 s1 Hv1) as (c2 & s2 & Hrun & Hv2). exists c2, s2. split; [|exact Hv2].
    revert Hrun. cbv [mbind M_bind mret M_ret lift]. rewrite Hget. done.
Qed.

Section whole.
Context `{FloatPowi} `{Environment} `{ParseF64} `{UnicodeCase} `{Glob}.
Context (app_config : AppConfig) (catalog : TaskCatalog) (middlewares : list (TaskMiddleware (S := S))).
Context (worker : RunnerId) (drawn : nat) (random_unit : f64).
Context (Htm : tg_manager (S := S) = None).

(** A transition the status machine accepts. *)
Lemma status_accepted id st cur c s :
  v_status (view s) !! id = Some cur → may_transition cur st (Some worker) →
  ∃ now, yields view (set_invocation_status id st worker) c s (Ok (moved now cur st (Some worker)))
    (changed id (moved now cur st (Some worker)) worker (view s)).
Proof.
  intros Hs Hmay. destruct (set_status_outcome view id st worker c s) as (r & v' & Hy & Ho).
  unfold by_status_outcome in Ho. rewrite Hs, decide_True in Ho by done.
  destruct Ho as (now & -> & Hr). apply (reported_untriggered Htm) in Hr as ->. by exists now.
Qed.

(** The attempt an execution makes of an invocation. *)
Definition attempt_of (inv : InvocationDTO) (call : CallDTO) (task : DynTask) (retries number : Z) : Attempt :=
  {| at_id := inv_id inv; at_worker := worker; at_task_id := inv_task_id inv;
     at_arguments := cd_serialized_arguments call; at_code_config := dt_config task;
     at_config := resolved catalog app_config (inv_task_id inv) (dt_config task);
     at_retries := retries; at_number := number |}.

(** How an attempt ends that starts in [v] with the record [cur]: refused for a stored
    identity that cannot be continued, or ended as the attempt says, with the new
    identity stored. *)
Definition attempt_from (inv : InvocationDTO) (call : CallDTO) (task : DynTask) (cur : InvocationStatusRecord)
    {limits} (run : AttemptRun (S := S) limits) (v : RuntimeView) (r : RustvelloResult unit) (v' : RuntimeView) : Prop :=
  let id := inv_id inv in
  let retries := retries_of (entries (v_histories v) id) in
  match next_identity drawn v id retries (inv_trace_context inv) with
  | Ok identity =>
      attempt_ended random_unit (attempt_of inv call task retries (attempt_number identity)) cur
        (race_outcome run).1 (race_outcome run).2
        (set_v_data id IDENTITY_KEY (identity_to_json identity) v) r v'
  | Err e => r = Err e ∧ v' = v
  | Panic _ => False
  end.

Lemma run_attempt_wp inv call task run limits cur c s :
  limits_new (task_timeout (resolved catalog app_config (inv_task_id inv) (dt_config task)))
    (ac_cancellation_check_interval_seconds app_config) = Ok limits →
  running_here (view s) (inv_id inv) worker cur → quiet_hooks middlewares → undisturbed (run limits) →
  wp view (run_attempt app_config catalog middlewares worker drawn random_unit (inv_id inv) inv call task run) c s
    (attempt_from inv call task cur (run limits) (view s)).
Proof.
  intros Hlim Hrun Hhooks Hquiet. unfold run_attempt, attempt_from.
  eapply wp_step; [apply pl_get_history|]. intros c1 s1 Hv1. apply wp_bind.
  eapply wp_yields; [apply begin_execution_yields|]. rewrite Hv1.
  set (retries := retries_of _). pose proof (next_identity_no_panic drawn (view s) (inv_id inv) retries (inv_trace_context inv)) as Hnp.
  destruct (next_identity _ _ _ _ _) as [identity|e|p]; [|done|by destruct (Hnp p)]. simpl on_success. clear Hnp.
  set (v2 := set_v_data _ _ _ _).
  intros c2 s2 Hv2. eapply wp_step; [apply for_each_silent|].
  { eapply list.Forall_impl; [exact Hhooks|]. intros mw [Hb _]. apply Hb. }
  intros c3 s3 Hv3. rewrite Hv2 in Hv3. apply wp_lift. rewrite Hlim.
  destruct Hrun as (Hs & Hst & Ho). eapply wp_step; [eapply supervise_undisturbed; [done|by rewrite Hv3|by rewrite Hst]|].
  intros c4 s4 Hv4. rewrite Hv3 in Hv4. pose proof (race_not_cancelled (run limits)) as Hnc.
  destruct (race_outcome (run limits)) as [result interruption]. simpl in Hnc |- *.
  eapply wp_step; [apply for_each_silent|].
  { apply Forall_rev. eapply list.Forall_impl; [exact Hhooks|]. intros mw [_ Ha] c5 s5.
    destruct (Ha (inv_id inv) (inv_task_id inv) result c5 s5) as [x Hx]. eapply yields_bind; [exact Hx|].
    intros c6 s6 Hv6. by apply yields_ret. }
  intros c5 s5 Hv5. rewrite Hv4 in Hv5. rewrite <-Hv5.
  apply (handle_result_wp random_unit (attempt_of inv call task retries (attempt_number identity)) Htm result interruption cur);
    [exact Hnc|rewrite Hv5; exact (conj Hs (conj Hst Ho))].
Qed.

(** The two status changes before an attempt: Pending, then Running, each with its
    history entry. *)
Definition taken (id : InvocationId) (cur : InvocationStatusRecord) (n1 n2 : DateTime) (v : RuntimeView)
    : InvocationStatusRecord * RuntimeView :=
  let pending := moved n1 cur Pending (Some worker) in
  let running := moved n2 pending Running (Some worker) in
  (running, changed id running worker (changed id pending worker v)).

Lemma taken_running id cur n1 n2 v :
  running_here (taken id cur n1 n2 v).2 id worker (taken id cur n1 n2 v).1.
Proof. split_and!; [|done|done]. apply lookup_insert_eq. Qed.

Lemma pending_may_run now cur : may_transition (moved now cur Pending (Some worker)) Running (Some worker).
Proof. split; [by vm_compute|]. right. split; [done|]. by vm_compute. Qed.

(** Taking an invocation whose status allows it. *)
Lemma take_yields id cur (k : M RustvelloError S unit) c s Q :
  v_status (view s) !! id = Some cur → may_transition cur Pending (Some worker) →
  (∀ n1 n2 c1 s1, view s1 = (taken id cur n1 n2 (view s)).2 → wp view k c1 s1 Q) →
  wp view (claimed ← claim_ownership id worker;
           if negb claimed then mret tt else set_invocation_status id Running worker;; k) c s Q.
Proof.
  intros Hs Hmay Hk. destruct (status_accepted id Pending cur c s Hs Hmay) as [n1 Hp].
  unfold claim_ownership. apply wp_bind. apply (yields_attempt view) in Hp. eapply wp_step; [exact Hp|].
  intros c1 s1 Hv1. apply wp_ret. intros c2 s2 Hv2. simpl. rewrite Hv1 in Hv2.
  destruct (status_accepted id Running (moved n1 cur Pending (Some worker)) c2 s2) as [n2 Hr];
    [rewrite Hv2; apply lookup_insert_eq|apply pending_may_run|].
  eapply wp_step; [exact Hr|]. intros c3 s3 Hv3. apply (Hk n1 n2). by rewrite Hv3, Hv2.
Qed.

(** A task this worker does not know fails the invocation for good. *)
Lemma unregistered_wp id t args running c s :
  running_here (view s) id worker running →
  wp view (fail_unregistered id worker t args) c s (λ r v', r = Ok tt ∧ ∃ now,
    v' = changed id (moved now running Failed (Some worker)) worker
      (set_v_errors <[id := mkTaskError "TaskNotRegistered" (unregistered_message t) None]> (view s))).
Proof.
  intros Hrun. unfold fail_unregistered.
  destruct (outcome_accepted_run (mkAttempt id worker t args task_config_default task_config_default 0 0) Htm
    _ c s Failed _ _ running Hrun ltac:(set_solver)
    (failure_run view id "TaskNotRegistered" (unregistered_message t) worker t args c s)) as [now Hy].
  apply (yields_attempt view) in Hy. eapply wp_step; [exact Hy|]. intros c1 s1 Hv1.
  eapply wp_step; [apply discarded_yields|]. intros c2 s2 Hv2.
  eapply wp_yields; [apply release_logged_yields|]. split; [done|]. exists now. by rewrite Hv2, Hv1.
Qed.

(** How an execution ends whose invocation [inv] the worker could take. *)
Definition execution_ended (inv : InvocationDTO) (call : CallDTO) (cur : InvocationStatusRecord)
    {limits} (run : AttemptRun (S := S) limits) (v : RuntimeView) (r : RustvelloResult unit)
    (v' : RuntimeView) : Prop :=
  let id := inv_id inv in
  ∃ n1 n2, let running := (taken id cur n1 n2 v).1 in let v2 := (taken id cur n1 n2 v).2 in
  match catalog_get catalog (inv_task_id inv) with
  | None => r = Ok tt ∧ ∃ n3, v' = changed id (moved n3 running Failed (Some worker)) worker
      (set_v_errors <[id := mkTaskError "TaskNotRegistered" (unregistered_message (inv_task_id inv)) None]> v2)
  | Some task =>
      attempt_from inv call task running run v2 r v'
  end.

(** The run of an execution. *)
Lemma execution_run inv call cur limits (run : ∀ limits, AttemptRun limits) c s :
  v_status (view s) !! inv_id inv = Some cur → may_transition cur Pending (Some worker) →
  v_invocations (view s) !! inv_id inv = Some inv →
  v_calls (view s) !! call_id_display (inv_call_id inv) = Some call →
  (∀ task, catalog_get catalog (inv_task_id inv) = Some task →
     limits_new (task_timeout (resolved catalog app_config (inv_task_id inv) (dt_config task)))
       (ac_cancellation_check_interval_seconds app_config) = Ok limits) →
  quiet_hooks middlewares → undisturbed (run limits) →
  let m := execute_invocation_common app_config catalog middlewares worker drawn random_unit (inv_id inv) run in
  execution_ended inv call cur (run limits) (view s) (result_of m c s) (view (state_after m c s)).
Proof.
  intros Hs Hmay Hinv Hcall Hlim Hhooks Hquiet m.
  apply (proj1 (wp_result view m c s (execution_ended inv call cur (run limits) (view s)))).
  apply (take_yields (inv_id inv) cur _ c s _ Hs Hmay). intros n1 n2 c1 s1 Hv1.
  pose proof (taken_running (inv_id inv) cur n1 n2 (view s)) as Hrun. rewrite <-Hv1 in Hrun.
  pose proof (pl_get_invocation (inv_id inv) c1 s1) as Hi.
  assert (v_invocations (view s1) = v_invocations (view s)) as Hvi by (by rewrite Hv1).
  assert (v_calls (view s1) = v_calls (view s)) as Hvc by (by rewrite Hv1).
  rewrite Hvi, Hinv in Hi. eapply wp_step; [exact Hi|]. intros c2 s2 Hv2.
  destruct (pl_get_call (inv_call_id inv) c2 s2) as [e Hc]. rewrite Hv2, Hvc, Hcall in Hc.
  eapply wp_step; [exact Hc|]. intros c3 s3 Hv3. rewrite <-Hv3 in Hrun.
  unfold execution_ended. destruct (catalog_get catalog (inv_task_id inv)) as [task|] eqn:Htask.
  - eapply wp_conseq; [eapply run_attempt_wp; [by apply Hlim|exact Hrun|done|done]|].
    intros r v Hend. exists n1, n2. rewrite Hv3, Hv1 in Hend. exact Hend.
  - eapply wp_conseq; [apply unregistered_wp; exact Hrun|].
    intros r v Hend. exists n1, n2. rewrite Hv3, Hv1 in Hend. exact Hend.
Qed.

End whole.
End lemmas.

(** ** The lost race *)

Section mem.
Context {J : JsonValue} {HO : HashOrder} {CH : Chrono} {T : Type} {EC : ExecutionCodec}.
Context `{FloatPowi} `{Environment} `{ParseF64} `{UnicodeCase} `{Glob}.
Context (delay : Z).
Implicit Types (s : Runtime T).

Lemma claim_lost_run id worker c s cur :
  status_records (rt_control s) !! id = Some cur → ¬ may_transition cur Pending (Some worker) →
  claim_ownership (P := mem_ports None delay) id worker c s =
    (Ok false, c, put_control (prune_cc id (rt_control s)) s).
Proof.
  intros Hs Hno.
  assert (∃ e, status_record_transition (clock_next c).1 (Some cur) Pending (Some worker) = Err e) as [e He].
  { pose proof (transition_never_panics (clock_next c).1 (Some cur) Pending (Some worker)) as Hp.
    destruct (status_record_transition _ _ _ _) as [rec|e|p] eqn:Ht; [|by eexists|done].
    by apply transition_Ok in Ht as [? _]. }
  pose proof (set_status_refused c (rt_control s) id Pending (Some worker) cur e Hs He) as Hset.
  set (err := status_machine_error_to_rustvello e id (rec_status cur)) in *.
  assert (attempt (set_invocation_status (P := mem_ports None delay) id Pending worker) c s =
    (Ok (inr err), c, s)) as Hclaim.
  { unfold set_invocation_status, context_if_triggers, set_invocation_status_with_context, publication.
    cbn [tg_manager mem_ports ctl_runtime_publication fmap option_fmap option_map ctl_set_invocation_status].
    unfold attempt, mbind, M_bind, mret, M_ret, on_control, zoom. rewrite Hset. by destruct s. }
  unfold claim_ownership. rewrite (bind_run _ _ _ _ _ _ _ Hclaim).
  assert (release_nontransactional_concurrency_slot (P := mem_ports None delay) id c s =
    (Ok tt, c, put_control (prune_cc id (rt_control s)) s)) as Hrel by done.
  unfold err. destruct e; cbn [status_machine_error_to_rustvello];
    by rewrite (bind_run _ _ _ _ _ _ _ Hrel).
Qed.

(** A worker that loses the race for an invocation frees the slot of the
    worker that won it.  Whatever the worker's configuration, catalog, middleware
    and attempt: when the claim of an invocation is refused (it is Running, or
    Pending for someone else), the execution reports success, changes no record,
    and takes the invocation off every entry of the concurrency index, so that it
    goes on running without being counted. *)
Theorem lost_claim_frees_the_winners_slot app_config catalog middlewares worker drawn random_unit id
    (run : ∀ limits, AttemptRun limits) cur c s :
  cc_wf (rt_control s) →
  v_status (runtime_view s) !! id = Some cur → ¬ may_transition cur Pending (Some worker) →
  let m := execute_invocation_common (P := mem_ports None delay) app_config catalog middlewares worker
             drawn random_unit id run in
  let s' := state_after m c s in
  result_of m c s = Ok tt ∧ runtime_view s' = runtime_view s ∧
  ∀ key, members (cc_index (rt_control s')) key = members (cc_index (rt_control s)) key ∖ {[id]}.
Proof.
  intros Hwf Hs Hno m s'. pose proof (claim_lost_run id worker c s cur Hs Hno) as Hclaim.
  assert (m c s = (Ok tt, c, put_control (prune_cc id (rt_control s)) s)) as Hm.
  { unfold m, execute_invocation_common. by rewrite (bind_run _ _ _ _ _ _ _ Hclaim). }
  unfold s', result_of, state_after. rewrite Hm. split_and!; [done| |].
  - destruct (prune_cc_fields id (rt_control s)) as (_ & Hst & _ & _ & Hre & _ & _).
    unfold runtime_view. simpl. by rewrite Hst, Hre.
  - intros key. simpl. by apply members_prune_cc.
Qed.
End mem.

(** ** Witnesses *)

#[local] Instance carrier_countable : Countable TraceContextCarrier.
Proof.
  apply (inj_countable' (λ t, (traceparent t, tracestate t)) (λ p, mkTraceContext p.1 p.2)).
  by intros [].
Defined.

#[local] Instance identity_countable : Countable ExecutionAttemptIdentity.
Proof.
  apply (inj_countable' (λ i, (attempt_number i, execution_trace_context i, previous_attempt_trace_context i))
    (λ p, mkAttemptIdentity p.1.1 p.1.2 p.2)).
  by intros [].
Defined.

Definition digit_codec : ExecutionCodec.
Proof.
  refine {| allocate_execution_trace_context := λ _ t, t;
            identity_to_json := λ i, digits_of (encode i);
            identity_from_json := λ s, decode (of_digits s) |}.
  intros i. by rewrite of_digits_of, decode_encode.
Defined.

Lemma attempts_are_numbered_upwards_witness :
  let first := mkAttemptIdentity 4 trace_context_default trace_context_default in
  ∃ i, next_execution_identity (H := digit_codec) 0 (Some first) 2 trace_context_default = Ok i ∧
    4 < attempt_number i.
Proof.
  intros first.
  pose proof (@attempts_are_numbered_upwards digit_codec 0 (Some first) 2 trace_context_default
    ltac:(vm_compute; split; discriminate)
    ltac:(intros p [= <-]; vm_compute; split; discriminate)) as Hnext.
  eexists. split; [reflexivity|]. exact (proj1 (proj2 Hnext)).
Defined.

(** "a" runs on "w1" and holds the only slot. *)
Definition demo_slot_control : OrchestratorState :=
  state_after (mem_register_invocation_with_id "a" demo_call (Some "r0");;
    mem_try_acquire_concurrency_slot "a" demo_task demo_config (Some arguments_new);;
    mem_set_invocation_status "a" Pending (Some "w1");;
    mem_set_invocation_status "a" Running (Some "w1")) demo_clock orchestrator_new.

Definition demo_slot_run : Runtime unit := put_control demo_slot_control (runtime_new tt).

Lemma demo_slot_wf : cc_wf demo_slot_control.
Proof.
  assert (respects (keeps orch_wf) (mem_register_invocation_with_id "a" demo_call (Some "r0");;
    mem_try_acquire_concurrency_slot "a" demo_task demo_config (Some arguments_new);;
    mem_set_invocation_status "a" Pending (Some "w1");;
    mem_set_invocation_status "a" Running (Some "w1"))) as Hwf.
  - apply respects_bind; [apply _|apply wf_register|intros _].
    apply respects_bind; [apply _| |intros _; apply respects_bind;
      [apply _|apply wf_set_status|intros _; apply wf_set_status]].
    unfold mem_try_acquire_concurrency_slot. solve_respects; apply wf_modify; intros s; apply orch_wf_index.
  - apply orch_cc. exact (Hwf demo_clock orchestrator_new orch_wf_new).
Qed.

Definition demo_attempt (code : TaskConfig) (retries : Z) : Attempt :=
  mkAttempt "a" "w1" demo_task arguments_new code task_config_default retries 0.

Lemma discarded_outcome_behaviour_witness :
  result_of (discarded_outcome (P := demo_ports) "a" "w2" (inr (EStatusRaceCondition "a" Running Running Running)))
    demo_clock demo_slot_run = Ok (Some (TakenOver true)).
Proof.
  rewrite (proj2 (proj2 (@discarded_outcome_behaviour text_json _ demo_ports runtime_view demo_laws "a" "w2"
    (EStatusRaceCondition "a" Running Running Running) demo_clock demo_slot_run)) eq_refl).
  vm_compute. reflexivity.
Defined.

Lemma supervision_behaviour_witness :
  let limits := mkLimits (Some 5) None in
  ∃ r i, result_of (supervise (P := demo_ports) (BodyReturns limits (λ s, s) 9 (Ok "late")) "a")
      demo_clock demo_slot_run = Ok (r, i) ∧ i = Some (TimedOut 5) ∧ r = Err (timeout_error 5).
Proof.
  intros limits.
  destruct (@supervision_behaviour text_json _ demo_ports runtime_view demo_laws "a" limits
    (BodyReturns limits (λ s, s) 9 (Ok "late")) demo_clock demo_slot_run) as (r & i & Hr & Hi).
  exists r, i. split; [exact Hr|]. injection Hr as <- <-. split; [reflexivity|exact (proj2 Hi)].
Defined.

(** A power that is its base. *)
Definition first_power : FloatPowi := {| f64_powi a n := a |}.

Lemma attempt_outcome_behaviour_witness :
  let a := demo_attempt task_config_default 0 in
  let m := @handle_result text_json _ demo_ports first_power 0 a (Err (ETaskExecution "E" "boom" (Some "trace"))) None in
  result_of m demo_clock demo_slot_run = Ok tt ∧
  v_errors (runtime_view (state_after m demo_clock demo_slot_run)) !! "a" = Some (mkTaskError "E" "boom" None).
Proof.
  intros a m.
  destruct (@attempt_outcome_behaviour text_json _ demo_ports runtime_view demo_laws first_power 0 a eq_refl
    (Err (ETaskExecution "E" "boom" (Some "trace"))) None
    (default demo_record (v_status (runtime_view demo_slot_run) !! "a")) demo_clock demo_slot_run)
    as (Hr & now & Hv).
  - discriminate.
  - split_and!; vm_compute; reflexivity.
  - split; [exact Hr|]. unfold m. rewrite Hv. reflexivity.
Defined.

(** "w1" finished "a" with "new"; a late attempt of "w0" returns "old". *)
Definition demo_finished : Runtime unit :=
  state_after (set_invocation_result_with_context (P := demo_ports) "a" "new" "w1" demo_task arguments_new)
    demo_clock demo_slot_run.

Lemma discarded_result_replaces_the_stored_one_witness :
  let a := mkAttempt "a" "w0" demo_task arguments_new task_config_default task_config_default 0 0 in
  let m := @handle_result text_json _ demo_ports first_power 0 a (Ok "old") None in
  v_results (runtime_view demo_finished) !! "a" = Some "new" ∧
  result_of m demo_clock demo_finished = Ok tt ∧
  v_results (runtime_view (state_after m demo_clock demo_finished)) !! "a" = Some "old".
Proof.
  intros a m. split; [vm_compute; reflexivity|].
  destruct (@discarded_result_replaces_the_stored_one text_json _ demo_ports runtime_view demo_laws
    first_power 0 a eq_refl "old" None
    (default demo_record (v_status (runtime_view demo_finished) !! "a")) demo_clock demo_finished)
    as [Hr Hv].
  - discriminate.
  - vm_compute. reflexivity.
  - intros [Hc _]. vm_compute in Hc. discriminate.
  - rewrite !elem_of_cons, elem_of_nil. intros [Hx|[Hx|[]]]; vm_compute in Hx; discriminate.
  - split; [exact Hr|]. unfold m. rewrite Hv. reflexivity.
Defined.

(** "w2" also got "a" delivered: it loses the claim, and "b" is admitted while
    "a" runs, although the limit is one. *)
Definition demo_lost : M RustvelloError (Runtime unit) unit :=
  @execute_invocation_common text_json _ demo_ports digit_codec first_power
    (env_list []) parse_one ascii_case literal_glob (app_config_new "app") demo_catalog [] "w2" 0 0 "a"
    (λ limits, BodyReturns limits (λ s, s) 0 (Ok "null")).

Lemma lost_claim_frees_the_winners_slot_witness :
  let s' := state_after demo_lost demo_clock demo_slot_run in
  let key := (task_id_display demo_task, "", "") in
  ("a" ∈ members (cc_index (rt_control demo_slot_run)) key) ∧
  ("a" ∉ members (cc_index (rt_control s')) key) ∧
  rec_status <$> v_status (runtime_view s') !! "a" = Some Running ∧
  result_of (mem_try_acquire_concurrency_slot "b" demo_task demo_config (Some arguments_new))
    demo_clock (rt_control s') = Ok true.
Proof.
  intros s' key.
  destruct (@lost_claim_frees_the_winners_slot text_json identity_order chrono_in_seconds unit digit_codec
    first_power
    (env_list []) parse_one ascii_case literal_glob 0 (app_config_new "app") demo_catalog [] "w2" 0 0 "a"
    (λ limits, BodyReturns limits (λ s, s) 0 (Ok "null"))
    (default demo_record (v_status (runtime_view demo_slot_run) !! "a")) demo_clock demo_slot_run)
    as (_ & Hv & Hm).
  - apply demo_slot_wf.
  - vm_compute. reflexivity.
  - intros [Hc _]. vm_compute in Hc. discriminate.
  - split_and!.
    + assert (members (cc_index (rt_control demo_slot_run)) key = {["a"]}) as -> by (vm_compute; reflexivity).
      by apply elem_of_singleton.
    + assert (members (cc_index (rt_control s')) key =
        members (cc_index (rt_control demo_slot_run)) key ∖ {["a"]}) as -> by exact (Hm key). intros [_ Hn]%elem_of_difference. by apply Hn, elem_of_singleton.
    + assert (runtime_view s' = runtime_view demo_slot_run) as -> by exact Hv. vm_compute. reflexivity.
    + vm_compute. reflexivity.
Defined.

(** "w1" takes the queued "a", whose task returns "42". *)
Definition demo_execution : M RustvelloError (Runtime unit) unit :=
  @execute_invocation_common text_json _ demo_ports digit_codec first_power
    (env_list []) parse_one ascii_case literal_glob (app_config_new "app") demo_catalog [] "w1" 0 0 "a"
    (λ limits, BodyReturns limits (λ s, s) 0 (Ok "42")).

