(* ===== verification/Pools.v ===== *)
(** * Worker pools

    Models the scheduling state of the two pools around the operations of
    Execution: the slots of the Rayon runner ([runner/rayon_runner.rs]) and the
    worker processes of the subprocess executor
    ([runner/executor/subprocess.rs]).  Tasks run concurrently, so each pool is a
    transition system: an event is what happens between two [await]s, a lock
    section being one event, and a run is any sequence of enabled events.

    The theorems: the Rayon runner starts every invocation it claims, in the order
    of the claims, on a slot of its own; a task that panics (a middleware hook is
    not caught) takes its slot with it, and once as many tasks have panicked as
    there are slots every further claim is dropped; the process pool never has
    more processes than its size and never gives one to two calls. *)
From S2P Require Import Prelude Identifiers.

(** ** Runs of a transition system *)

Section runs.
Context {S E : Type} (step : S → E → option S).

Fixpoint run_events (es : list E) (s : S) : option S :=
  match es with
  | [] => Some s
  | e :: es => s' ← step s e; run_events es s'
  end.

Lemma run_events_app es es' s : run_events (es ++ es') s = run_events es s ≫= run_events es'.
Proof.
  revert s. induction es as [|e es IH]; intros s; simpl; [done|]. by destruct (step s e); simpl.
Qed.

(** What every event of a kind keeps, every run of such events keeps. *)
Lemma run_invariant (P : E → Prop) (I : S → Prop) :
  (∀ s e s', P e → I s → step s e = Some s' → I s') →
  ∀ es s s', Forall P es → I s → run_events es s = Some s' → I s'.
Proof.
  intros Hstep es. induction es as [|e es IH]; intros s s' HP HI; simpl; [by intros [= <-]|].
  apply List.Forall_cons_iff in HP as [He HP]. intros (s1 & Hs1 & Hrun)%bind_Some.
  exact (IH s1 s' HP (Hstep _ _ _ He HI Hs1) Hrun).
Qed.

(** The same, with what the run has done so far. *)
Lemma run_trace_invariant (P : E → Prop) (I : list E → S → Prop) :
  (∀ es s e s', P e → I es s → step s e = Some s' → I (es ++ [e]) s') →
  ∀ es es0 s s', Forall P es → I es0 s → run_events es s = Some s' → I (es0 ++ es) s'.
Proof.
  intros Hstep es. induction es as [|e es IH]; intros es0 s s' HP HI; simpl.
  { intros [= <-]. by rewrite app_nil_r. }
  apply List.Forall_cons_iff in HP as [He HP]. intros (s1 & Hs1 & Hrun)%bind_Some.
  replace (es0 ++ e :: es) with ((es0 ++ [e]) ++ es) by (by rewrite <-app_assoc).
  exact (IH _ s1 s' HP (Hstep _ _ _ _ He HI Hs1) Hrun).
Qed.
End runs.

(** ** The Rayon runner *)

(** Where the loop of [run] is. *)
Inductive rayon_main := MainIdle | MainPermit | MainClaimed (id : InvocationId) | MainStopped.

(** The semaphore's free permits, the free worker slots, the main loop, the
    running tasks with their worker and invocation, the number of tasks that have
    given their slot back but still hold their permit, the keys of [active_tasks]
    (whose heartbeats are sent), and the slots taken by [run_one].  Besides, for
    the theorems: the claimed invocations that were started and dropped. *)
(* @src rustvello/src/runner/rayon_runner.rs 44-57 RayonRunner *)
Record RayonPool := mkRayonPool {
  ry_permits : nat;
  ry_slots : list RunnerId;
  ry_main : rayon_main;
  ry_tasks : list (RunnerId * InvocationId);
  ry_returning : nat;
  ry_active : list RunnerId;
  ry_borrowed : list RunnerId;
  ry_started : list InvocationId;
  ry_dropped : list InvocationId
}.

(** [num_threads.max(1)] fresh ids, and as many permits. *)
(* @src rustvello/src/runner/rayon_runner.rs 123-125 RayonRunner::build_worker_slots *)
Definition rayon_pool_new (ids : list RunnerId) : RayonPool :=
  mkRayonPool (length ids) ids MainIdle [] 0 [] [] [] [].

(** [Vec::pop]. *)
(* @src rustvello/src/runner/rayon_runner.rs 134-139 RayonRunner::acquire_worker_slot *)
Definition acquire_worker_slot (slots : list RunnerId) : option (RunnerId * list RunnerId) :=
  match rev slots with
  | w :: rest => Some (w, rev rest)
  | [] => None
  end.

(* @src rustvello/src/runner/rayon_runner.rs 141-146 RayonRunner::release_worker_slot *)
Definition release_worker_slot (w : RunnerId) (slots : list RunnerId) : list RunnerId := slots ++ [w].

Inductive rayon_event :=
| AcquirePermit
| ClaimNothing
| Claim (id : InvocationId)
| ClaimFails
| StartTask
| TaskReturns (w : RunnerId)
| PermitReturns
| TaskPanics (w : RunnerId)
| OneStarts
| OneReturns (w : RunnerId).

(** The task of a worker leaves the running ones. *)
Definition without_worker (w : RunnerId) (l : list (RunnerId * InvocationId)) : list (RunnerId * InvocationId) :=
  bfilter (λ p, negb (bool_decide (p.1 = w))) l.

Definition main_event (p : RayonPool) (permits : nat) (main : rayon_main) : RayonPool :=
  mkRayonPool permits (ry_slots p) main (ry_tasks p) (ry_returning p) (ry_active p) (ry_borrowed p)
    (ry_started p) (ry_dropped p).

(** A claimed invocation is started on a slot, or dropped without one. *)
(* @src rustvello/src/runner/rayon_runner.rs 367-407 RayonRunner::run *)
Definition start_task (p : RayonPool) (id : InvocationId) : RayonPool :=
  match acquire_worker_slot (ry_slots p) with
  | Some (w, slots) =>
      mkRayonPool (ry_permits p) slots MainIdle (ry_tasks p ++ [(w, id)]) (ry_returning p)
        (ry_active p ++ [w]) (ry_borrowed p) (ry_started p ++ [id]) (ry_dropped p)
  | None =>
      mkRayonPool (S (ry_permits p)) (ry_slots p) MainIdle (ry_tasks p) (ry_returning p) (ry_active p)
        (ry_borrowed p) (ry_started p) (ry_dropped p ++ [id])
  end.

(** The end of a spawned task: [active_tasks] forgets the worker and its slot is
    given back; the permit follows. *)
(* @src rustvello/src/runner/rayon_runner.rs 397-405 RayonRunner::run *)
Definition task_returns (p : RayonPool) (w : RunnerId) : RayonPool :=
  mkRayonPool (ry_permits p) (release_worker_slot w (ry_slots p)) (ry_main p)
    (without_worker w (ry_tasks p)) (S (ry_returning p))
    (bfilter (λ x, negb (bool_decide (x = w))) (ry_active p)) (ry_borrowed p) (ry_started p) (ry_dropped p).

(** A panic unwinds the task: only what it owns is dropped, the permit. *)
Definition task_panics (p : RayonPool) (w : RunnerId) : RayonPool :=
  mkRayonPool (S (ry_permits p)) (ry_slots p) (ry_main p) (without_worker w (ry_tasks p)) (ry_returning p)
    (ry_active p) (ry_borrowed p) (ry_started p) (ry_dropped p).

Definition set_borrowed (p : RayonPool) (slots borrowed : list RunnerId) : RayonPool :=
  mkRayonPool (ry_permits p) slots (ry_main p) (ry_tasks p) (ry_returning p) (ry_active p) borrowed
    (ry_started p) (ry_dropped p).

(** The events, each where it is enabled.  A claim that fails ends [run]: the
    [JoinSet] is dropped, which aborts the running tasks. *)
(* @src rustvello/src/runner/rayon_runner.rs 346-407 RayonRunner::run *)
Definition rayon_step (p : RayonPool) (e : rayon_event) : option RayonPool :=
  match e, ry_main p with
  | AcquirePermit, MainIdle =>
      match ry_permits p with O => None | S n => Some (main_event p n MainPermit) end
  | ClaimNothing, MainPermit => Some (main_event p (S (ry_permits p)) MainIdle)
  | Claim id, MainPermit => Some (main_event p (ry_permits p) (MainClaimed id))
  | ClaimFails, MainPermit =>
      Some (mkRayonPool (S (ry_permits p) + length (ry_tasks p)) (ry_slots p) MainStopped [] (ry_returning p)
              (ry_active p) (ry_borrowed p) (ry_started p) (ry_dropped p))
  | StartTask, MainClaimed id => Some (start_task p id)
  | TaskReturns w, _ =>
      if bool_decide (w ∈ (ry_tasks p).*1) then Some (task_returns p w) else None
  | PermitReturns, _ =>
      match ry_returning p with
      | O => None
      | S n => Some (mkRayonPool (S (ry_permits p)) (ry_slots p) (ry_main p) (ry_tasks p) n (ry_active p)
                       (ry_borrowed p) (ry_started p) (ry_dropped p))
      end
  | TaskPanics w, _ =>
      if bool_decide (w ∈ (ry_tasks p).*1) then Some (task_panics p w) else None
  | OneStarts, _ =>
      match acquire_worker_slot (ry_slots p) with
      | Some (w, slots) => Some (set_borrowed p slots (ry_borrowed p ++ [w]))
      | None => Some p
      end
  | OneReturns w, _ =>
      if bool_decide (w ∈ ry_borrowed p)
      then Some (set_borrowed p (release_worker_slot w (ry_slots p))
                   (bfilter (λ x, negb (bool_decide (x = w))) (ry_borrowed p)))
      else None
  | _, _ => None
  end.

(** The claims of a run. *)
Definition claims_of (es : list rayon_event) : list InvocationId :=
  omap (λ e, match e with Claim id => Some id | _ => None end) es.

(** The heartbeats of a management cycle besides the runner's own. *)
(* @src rustvello/src/runner/rayon_runner.rs 254-261 RayonRunner::active_worker_ids *)
Definition active_worker_ids (p : RayonPool) : list RunnerId := ry_active p.

(** *** The invariant *)

(** Events of the runner's own loop, without [run_one] beside it. *)
Definition own_event (e : rayon_event) : Prop :=
  match e with OneStarts | OneReturns _ => False | _ => True end.

Definition panicked (es : list rayon_event) : list RunnerId :=
  omap (λ e, match e with TaskPanics w => Some w | _ => None end) es.

Definition held (m : rayon_main) : nat := match m with MainPermit | MainClaimed _ => 1 | _ => 0 end.
Definition claimed_by (m : rayon_main) : list InvocationId :=
  match m with MainClaimed id => [id] | _ => [] end.

(** Every worker id is free, runs a task, was lost in a panic, or ran a task that
    was aborted when [run] ended; every permit is free, held by the loop or by a
    task; and the claims are the started, dropped and pending invocations. *)
Record rayon_inv (ids : list RunnerId) (es : list rayon_event) (p : RayonPool) : Prop := {
  ri_ids : ∃ aborted, ry_slots p ++ (ry_tasks p).*1 ++ panicked es ++ aborted ≡ₚ ids ∧
    (ry_main p ≠ MainStopped → aborted = []);
  ri_permits : (ry_permits p + held (ry_main p) + length (ry_tasks p) + ry_returning p)%nat = length ids;
  ri_active w : w ∈ (ry_tasks p).*1 ++ panicked es → w ∈ ry_active p;
  ri_claims : ry_dropped p = [] → claims_of es = ry_started p ++ claimed_by (ry_main p);
  ri_dropped : panicked es = [] → ry_dropped p = []
}.

Lemma rayon_inv_new ids : rayon_inv ids [] (rayon_pool_new ids).
Proof.
  split; simpl; [|lia|by intros w ?%elem_of_nil|done..]. exists []. by rewrite !app_nil_r.
Qed.

Lemma panicked_app es e : panicked (es ++ [e]) = panicked es ++ panicked [e].
Proof. apply omap_app. Qed.
Lemma claims_app es e : claims_of (es ++ [e]) = claims_of es ++ claims_of [e].
Proof. apply omap_app. Qed.

Lemma acquire_slot_cases slots :
  match acquire_worker_slot slots with
  | Some (w, rest) => slots = rest ++ [w]
  | None => slots = []
  end.
Proof.
  unfold acquire_worker_slot. destruct slots as [|w rest _] using rev_ind; [done|].
  rewrite rev_app_distr. simpl. by rewrite rev_involutive.
Qed.

(** Taking a worker's task out, when workers are distinct. *)
Lemma without_worker_perm w l :
  NoDup l.*1 → w ∈ l.*1 → w :: (without_worker w l).*1 ≡ₚ l.*1 ∧ S (length (without_worker w l)) = length l.
Proof.
  intros Hnd Hin. enough (w :: (without_worker w l).*1 ≡ₚ l.*1) as Hp.
  { split; [done|]. apply Permutation_length in Hp. simpl in Hp. by rewrite !length_fmap in Hp. }
  apply NoDup_Permutation; [|done|].
  - constructor; [|by apply NoDup_fmap_bfilter].
    intros (p & -> & [Hp _]%elem_of_bfilter)%list_elem_of_fmap. by rewrite bool_decide_true in Hp.
  - intros x. rewrite elem_of_cons, !list_elem_of_fmap. split.
    + intros [->|(p & -> & [_ Hp]%elem_of_bfilter)]; [by apply list_elem_of_fmap in Hin|eauto].
    + intros (p & -> & Hp). destruct (decide (p.1 = w)) as [->|Hne]; [by left|right].
      exists p. split; [done|]. apply elem_of_bfilter. by rewrite bool_decide_false.
Qed.

Lemma inv_task_workers ids es p :
  NoDup ids → rayon_inv ids es p → NoDup ((ry_tasks p).*1 ++ panicked es).
Proof.
  intros Hnd [(aborted & Hp & _) _ _ _ _]. rewrite <-Hp in Hnd.
  apply list.NoDup_app in Hnd as (_ & _ & Hnd). rewrite app_assoc in Hnd.
  by apply list.NoDup_app in Hnd as (Hnd & _ & _).
Qed.

Lemma start_task_inv ids es p id :
  ry_main p = MainClaimed id → rayon_inv ids es p → rayon_inv ids (es ++ [StartTask]) (start_task p id).
Proof.
  intros Hm [(aborted & Hp & Hab) Hperm Hact Hcl Hdr]. rewrite Hm in *. specialize (Hab ltac:(done)) as ->.
  rewrite app_nil_r in Hp. unfold start_task. pose proof (acquire_slot_cases (ry_slots p)) as Hs.
  simpl in Hperm. destruct (acquire_worker_slot (ry_slots p)) as [[w rest]|]; rewrite Hs in *;
    split; simpl; rewrite ?panicked_app, ?claims_app, ?app_nil_r.
  - exists []. split; [|done]. rewrite <-Hp, app_nil_r, fmap_app. simpl. solve_Permutation.
  - rewrite length_app. simpl. lia.
  - intros x Hx. rewrite fmap_app in Hx. specialize (Hact x). set_solver.
  - exact Hcl.
  - exact Hdr.
  - exists []. by rewrite app_nil_r.
  - lia.
  - exact Hact.
  - by intros [_ ?]%app_nil.
  - intros Hno. rewrite Hno in Hp. simpl in Hp. rewrite app_nil_r in Hp.
    apply Permutation_length in Hp. rewrite length_fmap in Hp. lia.
Qed.

(** The events that end a running task. *)
Lemma task_ends_inv ids es p w :
  NoDup ids → rayon_inv ids es p → w ∈ (ry_tasks p).*1 →
  rayon_inv ids (es ++ [TaskReturns w]) (task_returns p w) ∧
  rayon_inv ids (es ++ [TaskPanics w]) (task_panics p w).
Proof.
  intros Hnd Hinv Hw. pose proof (inv_task_workers ids es p Hnd Hinv) as Hndt.
  destruct Hinv as [(aborted & Hp & Hab) Hperm Hact Hcl Hdr].
  destruct (without_worker_perm w (ry_tasks p)) as [Hpw Hlen]; [by apply list.NoDup_app in Hndt as (? & _)|done|].
  rewrite <-Hpw in Hp, Hndt. simpl in Hndt. apply list.NoDup_cons in Hndt as [Hnw _].
  assert (∀ x, x ∈ (without_worker w (ry_tasks p)).*1 → x ∈ (ry_tasks p).*1) as Hsub
    by (intros x Hx; rewrite <-Hpw; by right).
  split; split; simpl; rewrite ?panicked_app, ?claims_app; simpl; rewrite ?app_nil_r; try done.
  - exists aborted. split; [|done]. rewrite <-Hp. unfold release_worker_slot. solve_Permutation.
  - lia.
  - intros x Hx. apply elem_of_bfilter. rewrite bool_decide_false; [split; [done|]|].
    + apply Hact. set_solver.
    + intros ->. by apply Hnw.
  - exists aborted. split; [|done]. rewrite <-Hp. solve_Permutation.
  - lia.
  - intros x Hx. apply Hact. rewrite <-Hpw. set_solver.
  - by intros [_ ?]%app_nil.
Qed.

Lemma rayon_step_inv ids es p e p' :
  NoDup ids → own_event e → rayon_inv ids es p → rayon_step p e = Some p' → rayon_inv ids (es ++ [e]) p'.
Proof.
  intros Hnd He Hinv. unfold rayon_step.
  destruct e; try done; simpl; try (case_bool_decide; [intros [= <-]; by apply task_ends_inv|done]).
  5: { destruct (ry_main p) eqn:Hm; try done. intros [= <-]. by apply start_task_inv. }
  all: destruct Hinv as [(aborted & Hp & Hab) Hperm Hact Hcl Hdr].
  - destruct (ry_main p) eqn:Hm, (ry_permits p) eqn:Hn; try done. intros [= <-]. simpl in Hperm, Hcl. rewrite ?app_nil_r in Hcl.
    split; simpl; rewrite ?panicked_app, ?claims_app; simpl; rewrite ?app_nil_r; try done; [|lia].
    exists aborted. split; [done|]. intros _. by apply Hab.
  - destruct (ry_main p) eqn:Hm; try done. intros [= <-]. simpl in Hperm, Hcl. rewrite ?app_nil_r in Hcl.
    split; simpl; rewrite ?panicked_app, ?claims_app; simpl; rewrite ?app_nil_r; try done; [|lia].
    exists aborted. split; [done|]. intros _. by apply Hab.
  - destruct (ry_main p) eqn:Hm; try done. intros [= <-]. simpl in Hperm, Hcl. rewrite ?app_nil_r in Hcl.
    split; simpl; rewrite ?panicked_app, ?claims_app; simpl; rewrite ?app_nil_r; try done.
    + exists aborted. split; [done|]. intros _. by apply Hab.
    + intros Hd. by rewrite (Hcl Hd).
  - destruct (ry_main p) eqn:Hm; try done. intros [= <-]. simpl in Hperm, Hcl. rewrite ?app_nil_r in Hcl.
    split; simpl; rewrite ?panicked_app, ?claims_app; simpl; rewrite ?app_nil_r; try done.
    + exists ((ry_tasks p).*1 ++ aborted). split; [|done]. rewrite <-Hp. solve_Permutation.
    + lia.
    + intros x Hx. apply Hact. set_solver.
  - destruct (ry_returning p) eqn:Hr; [done|]. intros [= <-].
    split; simpl; rewrite ?panicked_app, ?claims_app; simpl; rewrite ?app_nil_r; try done; [|lia]. eauto.
Qed.

Lemma rayon_run_inv ids es p :
  NoDup ids → Forall own_event es → run_events rayon_step es (rayon_pool_new ids) = Some p → rayon_inv ids es p.
Proof.
  intros Hnd Hes Hrun. apply (run_trace_invariant rayon_step own_event (rayon_inv ids)
    (λ es s e s1 He, rayon_step_inv ids es s e s1 Hnd He) es [] _ _ Hes (rayon_inv_new ids) Hrun).
Qed.

Definition calm_event (e : rayon_event) : Prop :=
  match e with TaskPanics _ | OneStarts | OneReturns _ => False | _ => True end.

Lemma calm_own es : Forall calm_event es → Forall own_event es ∧ panicked es = [].
Proof.
  induction 1 as [|e es He _ [IH1 IH2]]; [done|]. split; [|by destruct e].
  apply List.Forall_cons_iff. by destruct e.
Qed.

(** As long as no task panics, the Rayon runner starts every invocation it
    claims: in every state a run can reach, the claims are, in their order, the
    started invocations and the one the loop is about to start, none was dropped,
    the running tasks are at most as many as the slots and have distinct workers,
    whose heartbeats are sent, and a claimed invocation finds a free worker. *)
Theorem rayon_starts_every_claim ids es p :
  NoDup ids → Forall calm_event es → run_events rayon_step es (rayon_pool_new ids) = Some p →
  ry_dropped p = [] ∧ claims_of es = ry_started p ++ claimed_by (ry_main p) ∧
  NoDup (ry_tasks p).*1 ∧ (length (ry_tasks p) ≤ length ids)%nat ∧
  (∀ w, w ∈ (ry_tasks p).*1 → w ∈ active_worker_ids p) ∧
  (∀ id, ry_main p = MainClaimed id → ∃ w, ¬ w ∈ (ry_tasks p).*1 ∧
     rayon_step p StartTask = Some (start_task p id) ∧
     ry_tasks (start_task p id) = ry_tasks p ++ [(w, id)]).
Proof.
  intros Hnd Hes Hrun. destruct (calm_own es Hes) as [Hown Hno].
  pose proof (rayon_run_inv ids es p Hnd Hown Hrun) as Hinv.
  pose proof (inv_task_workers ids es p Hnd Hinv) as Hw. rewrite Hno, app_nil_r in Hw.
  destruct Hinv as [(aborted & Hp & Hab) Hperm Hact Hcl Hdr]. specialize (Hdr Hno).
  split_and!; [done|by apply Hcl|done|lia|intros w Hin; apply Hact; set_solver|].
  intros id Hm. specialize (Hab ltac:(by rewrite Hm)) as ->. rewrite Hno in Hp. simpl in Hp. rewrite app_nil_r in Hp.
  rewrite Hm in Hperm. simpl in Hperm.
  pose proof (acquire_slot_cases (ry_slots p)) as Hs. unfold rayon_step, start_task. rewrite Hm.
  destruct (acquire_worker_slot (ry_slots p)) as [[w rest]|]; rewrite Hs in Hp.
  - exists w. split_and!; [|done|done]. intros Hin. rewrite <-Hp in Hnd.
    apply list.NoDup_app in Hnd as (_ & Hnd & _). apply (Hnd w); [|done]. apply elem_of_app. right. by left.
  - exfalso. simpl in Hp. apply Permutation_length in Hp. rewrite length_fmap in Hp. lia.
Qed.

(** When every slot was lost, nothing runs and nothing will. *)
Lemma no_slots_step p e p' :
  own_event e → ry_slots p = [] → ry_tasks p = [] → rayon_step p e = Some p' →
  ry_slots p' = [] ∧ ry_tasks p' = [] ∧ ry_started p' = ry_started p ∧ ry_active p' = ry_active p ∧
  ry_dropped p' ++ claimed_by (ry_main p') =
    ry_dropped p ++ claimed_by (ry_main p) ++ claims_of [e].
Proof.
  intros He Hs Ht. unfold rayon_step, start_task, main_event. rewrite Ht. simpl.
  destruct e; try done; destruct (ry_main p) eqn:Hm; try done; try (destruct (ry_permits p));
    try (destruct (ry_returning p)); try done; intros [= <-]; simpl;
    rewrite ?Hs, ?Hm, ?Ht; simpl; rewrite ?app_nil_r; by split_and!.
Qed.

(** A panic loses a slot for good: the permit is dropped but the slot is not
    given back, and the worker stays among those whose heartbeats are sent.  After
    as many panics as the runner has slots, no run of its loop starts anything:
    every invocation that is claimed from then on is dropped. *)
Theorem panics_use_up_the_slots ids es p es' p' :
  NoDup ids → Forall own_event es → run_events rayon_step es (rayon_pool_new ids) = Some p →
  length (panicked es) = length ids →
  Forall own_event es' → run_events rayon_step es' p = Some p' →
  ry_started p' = ry_started p ∧
  ry_dropped p' ++ claimed_by (ry_main p') = ry_dropped p ++ claimed_by (ry_main p) ++ claims_of es' ∧
  (∀ w, w ∈ ids → w ∈ active_worker_ids p').
Proof.
  intros Hnd Hes Hrun Hall Hes' Hrun'.
  destruct (rayon_run_inv ids es p Hnd Hes Hrun) as [(aborted & Hp & _) _ Hact _ _].
  assert (ry_slots p = [] ∧ ry_tasks p = [] ∧ aborted = []) as (Hs & Ht & ->).
  { apply Permutation_length in Hp. rewrite !length_app, length_fmap in Hp.
    split_and!; apply nil_length_inv; lia. }
  rewrite Hs, Ht in Hp. simpl in Hp. rewrite app_nil_r in Hp.
  assert (∀ w, w ∈ ids → w ∈ ry_active p) as Hids.
  { intros w Hw. apply Hact. rewrite Ht. simpl. by rewrite Hp. }
  pose proof (run_trace_invariant rayon_step own_event (λ es'' q,
    ry_slots q = [] ∧ ry_tasks q = [] ∧ ry_started q = ry_started p ∧ ry_active q = ry_active p ∧
    ry_dropped q ++ claimed_by (ry_main q) = ry_dropped p ++ claimed_by (ry_main p) ++ claims_of es'')) as Hinv.
  destruct (λ H, Hinv H es' [] p p' Hes' ltac:(simpl; by rewrite ?app_nil_r) Hrun') as (_ & _ & Hst & Ha & Hd).
  - intros es0 q e q' He (Hq1 & Hq2 & Hq3 & Hq4 & Hq5) Hstep.
    destruct (no_slots_step q e q' He Hq1 Hq2 Hstep) as (? & ? & Hq3' & Hq4' & Hq5').
    rewrite claims_app. split_and!; [done|done|congruence|congruence|].
    rewrite Hq5', app_assoc, Hq5. by rewrite <-!app_assoc.
  - split_and!; [done|done|]. intros w Hw. unfold active_worker_ids. rewrite Ha. by apply Hids.
Qed.

(** ** The processes of the subprocess executor *)

(** A call between its permit and its answer: it starts a process, or it uses one. *)
Inductive process_use := Spawning | Using (pid : nat).

(** Free permits, idle processes (the vector, its last element first out), the
    calls that hold a permit, the processes that were killed, and the next
    process id. *)
(* @src rustvello/src/runner/executor/subprocess.rs 58-64 SubprocessExecutor *)
Record ProcessPool := mkProcessPool {
  sx_permits : nat;
  sx_idle : list nat;
  sx_calls : gmap nat process_use;
  sx_next : nat
}.

(* @src rustvello/src/runner/executor/subprocess.rs 100-108 SubprocessExecutor::new *)
Definition process_pool_new (size : nat) : ProcessPool := mkProcessPool (Nat.max 1 size) [] ∅ 0.

(** [start] spawns the first worker and keeps it. *)
(* @src rustvello/src/runner/executor/subprocess.rs 291-295 SubprocessExecutor::start *)
Definition process_start (p : ProcessPool) : ProcessPool :=
  mkProcessPool (sx_permits p) (sx_idle p ++ [sx_next p]) (sx_calls p) (S (sx_next p)).

(** What happens to call [k].  [CallKept] is an answer or a task error: the process
    goes back to the idle ones.  [CallCrashed] is a crash, a protocol breach or a
    dropped future: the process is killed. *)
Inductive process_event :=
| CallBegins (k : nat)
| SpawnSucceeds (k : nat)
| SpawnFails (k : nat)
| CallKept (k : nat)
| CallCrashed (k : nat).

(* @src rustvello/src/runner/executor/subprocess.rs 188-193 SubprocessExecutor::checkout *)
Definition checkout (p : ProcessPool) (k : nat) (permits : nat) : ProcessPool :=
  match rev (sx_idle p) with
  | w :: rest => mkProcessPool permits (rev rest) (<[k := Using w]> (sx_calls p)) (sx_next p)
  | [] => mkProcessPool permits [] (<[k := Spawning]> (sx_calls p)) (sx_next p)
  end.

(** A call that ends gives its permit back. *)
(* @src rustvello/src/runner/executor/subprocess.rs 297-324 SubprocessExecutor::execute *)
Definition process_step (p : ProcessPool) (e : process_event) : option ProcessPool :=
  match e with
  | CallBegins k =>
      match sx_permits p, sx_calls p !! k with
      | S n, None => Some (checkout p k n)
      | _, _ => None
      end
  | SpawnSucceeds k =>
      match sx_calls p !! k with
      | Some Spawning => Some (mkProcessPool (sx_permits p) (sx_idle p)
                                 (<[k := Using (sx_next p)]> (sx_calls p)) (S (sx_next p)))
      | _ => None
      end
  | SpawnFails k =>
      match sx_calls p !! k with
      | Some Spawning => Some (mkProcessPool (S (sx_permits p)) (sx_idle p) (delete k (sx_calls p)) (sx_next p))
      | _ => None
      end
  | CallKept k =>
      match sx_calls p !! k with
      | Some (Using w) => Some (mkProcessPool (S (sx_permits p)) (sx_idle p ++ [w]) (delete k (sx_calls p)) (sx_next p))
      | _ => None
      end
  | CallCrashed k =>
      match sx_calls p !! k with
      | Some (Using w) => Some (mkProcessPool (S (sx_permits p)) (sx_idle p) (delete k (sx_calls p)) (sx_next p))
      | _ => None
      end
  end.

(** The live processes: idle, in use, and being started. *)
Definition live_processes (p : ProcessPool) : nat := (length (sx_idle p) + size (sx_calls p))%nat.

(** Permits and calls make up the size, processes do not exceed it, ids are those
    given out, the idle ones are distinct, and no call uses an idle process or
    that of another call. *)
Record process_inv (n : nat) (p : ProcessPool) : Prop := {
  px_permits : (sx_permits p + size (sx_calls p))%nat = n;
  px_live : (live_processes p ≤ n)%nat;
  px_fresh_idle w : w ∈ sx_idle p → (w < sx_next p)%nat;
  px_fresh_used k w : sx_calls p !! k = Some (Using w) → (w < sx_next p)%nat ∧ w ∉ sx_idle p;
  px_idle : NoDup (sx_idle p);
  px_used k k' w : sx_calls p !! k = Some (Using w) → sx_calls p !! k' = Some (Using w) → k = k'
}.

Lemma process_inv_new n : process_inv (Nat.max 1 n) (process_pool_new n).
Proof.
  split; unfold live_processes; simpl; rewrite ?map_size_empty; try lia; try (intros *; by rewrite lookup_empty).
  - by intros w ?%elem_of_nil.
  - constructor.
Qed.

Lemma process_inv_start n : process_inv (Nat.max 1 n) (process_start (process_pool_new n)).
Proof.
  split; unfold live_processes; simpl; rewrite ?map_size_empty; try lia; try (intros *; by rewrite lookup_empty).
  - intros w ->%list_elem_of_singleton. lia.
  - apply NoDup_singleton.
Qed.

Lemma size_ended p k u : sx_calls p !! k = Some u → size (sx_calls p) = S (size (delete k (sx_calls p))).
Proof. intros Hk. rewrite <-(insert_delete_id (sx_calls p) k u Hk) at 1. apply map_size_insert_None, lookup_delete_eq. Qed.

(** A call that ends, with the processes that stay idle. *)
Lemma call_ends_inv n p k u idle :
  process_inv n p → sx_calls p !! k = Some u →
  idle = sx_idle p ∨ (∃ w, u = Using w ∧ idle = sx_idle p ++ [w]) →
  process_inv n (mkProcessPool (S (sx_permits p)) idle (delete k (sx_calls p)) (sx_next p)).
Proof.
  intros [Hp Hl Hi Hu Hn Hd] Hk Hidle. pose proof (size_ended p k u Hk) as Hsz. unfold live_processes in *.
  assert (∀ k' w, delete k (sx_calls p) !! k' = Some (Using w) → k ≠ k' ∧ sx_calls p !! k' = Some (Using w)) as Hdel
    by (by intros k' w ?%lookup_delete_Some).
  split; unfold live_processes; simpl.
  - lia.
  - destruct Hidle as [->|(w & _ & ->)]; rewrite ?length_app; simpl; lia.
  - intros x. destruct Hidle as [->|(w & -> & ->)]; [apply Hi|].
    rewrite elem_of_app, list_elem_of_singleton. intros [?| ->]; [by apply Hi|by apply (Hu k)].
  - intros k' x [Hne Hx]%Hdel. destruct (Hu k' x Hx) as [? ?]. split; [done|].
    destruct Hidle as [->|(w & -> & ->)]; [done|]. rewrite elem_of_app, list_elem_of_singleton.
    intros [?| ->]; [done|]. by apply Hne, (Hd k k' w).
  - destruct Hidle as [->|(w & -> & ->)]; [done|]. apply list.NoDup_app. split_and!; [done| |apply NoDup_singleton].
    intros x Hx ->%list_elem_of_singleton. by destruct (Hu k w Hk).
  - intros k1 k2 x [_ H1]%Hdel [_ H2]%Hdel. by apply (Hd k1 k2 x).
Qed.

Lemma process_step_inv n p e p' : process_inv n p → process_step p e = Some p' → process_inv n p'.
Proof.
  intros Hinv. destruct e as [k|k|k|k|k]; simpl.
  3-5: destruct (sx_calls p !! k) as [[|w]|] eqn:Hk; try done; intros [= <-];
    eapply call_ends_inv; eauto.
  - destruct (sx_permits p) as [|m] eqn:Hm, (sx_calls p !! k) as [|] eqn:Hk; try done. intros [= <-].
    destruct Hinv as [Hp Hl Hi Hu Hn Hd]. unfold live_processes, checkout in *.
    destruct (sx_idle p) as [|w rest _] eqn:Hidle using rev_ind; simpl.
    + split; unfold live_processes; simpl; rewrite ?map_size_insert_None by done; try done; [lia..| |].
      * intros k' w [[_ ?]|[_ Hx]]%lookup_insert_Some; [done|]. by apply (Hu k').
      * intros k1 k2 w [[_ ?]|[_ H1]]%lookup_insert_Some [[_ ?]|[_ H2]]%lookup_insert_Some; try done.
        by apply (Hd k1 k2 w).
    + rewrite rev_app_distr. simpl. rewrite rev_involutive. rewrite length_app in Hl. simpl in Hl.
      apply list.NoDup_app in Hn as (Hn & Hnw & _).
      split; unfold live_processes; simpl; rewrite ?map_size_insert_None by done; [lia..| | |done|].
      * intros x Hx. apply Hi, elem_of_app. by left.
      * intros k' x [[_ [= ->]]|[_ Hx]]%lookup_insert_Some.
        { split; [apply Hi, elem_of_app; right; by left|]. intros Hin. apply (Hnw x Hin). by left. }
        destruct (Hu k' x Hx) as [? Hno]. split; [done|]. intros ?. apply Hno, elem_of_app. by left.
      * assert (∀ k', sx_calls p !! k' ≠ Some (Using w)) as Hw.
        { intros k' Hx. destruct (Hu k' w Hx) as [_ Hno]. apply Hno, elem_of_app. right. by left. }
        intros k1 k2 x [[<- [= ->]]|[_ H1]]%lookup_insert_Some [[<- H2]|[_ H2]]%lookup_insert_Some; try done.
        { by destruct (Hw k2). } { simplify_eq. by destruct (Hw k1). } by apply (Hd k1 k2 x).
  - destruct (sx_calls p !! k) as [[|w]|] eqn:Hk; try done. intros [= <-].
    destruct Hinv as [Hp Hl Hi Hu Hn Hd]. unfold live_processes in *.
    assert (size (<[k:=Using (sx_next p)]> (sx_calls p)) = size (sx_calls p)) as Hsz by (by apply map_size_insert_Some; eauto).
    split; unfold live_processes; simpl; rewrite ?Hsz; try done.
    + intros x Hx%Hi. lia.
    + intros k' x [[_ [= <-]]|[_ Hx]]%lookup_insert_Some; [|by destruct (Hu k' x Hx); split; [lia|]].
      split; [lia|]. intros Hx%Hi. lia.
    + intros k1 k2 x [[<- [= <-]]|[_ H1]]%lookup_insert_Some [[<- H2]|[_ H2]]%lookup_insert_Some; try done.
      * apply (Hu k2) in H2 as [? _]. lia.
      * simplify_eq. apply (Hu k1) in H1 as [? _]. lia.
      * by apply (Hd k1 k2 x).
Qed.

(** The subprocess executor never has more live processes than its size, also
    after [start] has spawned the first one, and never lets two calls use one
    process: in every state a sequence of calls reaches, idle, used and starting
    processes are at most [size.max(1)], and a process is idle or used by one call. *)
Theorem processes_stay_within_the_pool n es p0 p :
  p0 = process_pool_new n ∨ p0 = process_start (process_pool_new n) →
  run_events process_step es p0 = Some p →
  (live_processes p ≤ Nat.max 1 n)%nat ∧ NoDup (sx_idle p) ∧
  (∀ k k' w, sx_calls p !! k = Some (Using w) → sx_calls p !! k' = Some (Using w) → k = k') ∧
  (∀ k w, sx_calls p !! k = Some (Using w) → w ∉ sx_idle p).
Proof.
  intros H0 Hrun. assert (process_inv (Nat.max 1 n) p0) as H1
    by (destruct H0 as [->| ->]; [apply process_inv_new|apply process_inv_start]).
  destruct (run_invariant process_step (λ _, True) (process_inv (Nat.max 1 n))
    (λ s e s' _, process_step_inv _ s e s') es p0 p ltac:(by apply List.Forall_forall) H1 Hrun) as [].
  split_and!; [done|done|done|]. intros k w Hk. by destruct (px_fresh_used0 k w Hk).
Qed.

(** ** Witnesses *)

Definition demo_rayon : list rayon_event :=
  [AcquirePermit; Claim "i1"; StartTask; AcquirePermit; Claim "i2"; StartTask; TaskReturns "w2"; PermitReturns;
   AcquirePermit; Claim "i3"].

Lemma rayon_starts_every_claim_witness :
  ∃ p, run_events rayon_step demo_rayon (rayon_pool_new ["w1"; "w2"]) = Some p ∧
    ry_started p = ["i1"; "i2"] ∧ ry_dropped p = [].
Proof.
  eexists. split; [vm_compute; reflexivity|].
  match goal with |- ry_started ?p = _ ∧ _ =>
    destruct (rayon_starts_every_claim ["w1"; "w2"] demo_rayon p) as (Hd & Hc & _) end.
  - apply (bool_decide_eq_true_1 _). vm_compute. reflexivity.
  - repeat constructor.
  - vm_compute. reflexivity.
  - split; [reflexivity|exact Hd].
Defined.

Definition demo_panics : list rayon_event := [AcquirePermit; Claim "i1"; StartTask; TaskPanics "w1"].

Lemma panics_use_up_the_slots_witness :
  ∃ p p', run_events rayon_step demo_panics (rayon_pool_new ["w1"]) = Some p ∧
    run_events rayon_step [AcquirePermit; Claim "i2"; StartTask] p = Some p' ∧
    ry_dropped p' = ["i2"] ∧ active_worker_ids p' = ["w1"].
Proof.
  eexists _, _. split; [vm_compute; reflexivity|]. split; [vm_compute; reflexivity|].
  match goal with |- ry_dropped ?p' = _ ∧ _ =>
    destruct (panics_use_up_the_slots ["w1"] demo_panics
      (task_panics (start_task (main_event (main_event (rayon_pool_new ["w1"]) 0 MainPermit) 0 (MainClaimed "i1")) "i1") "w1")
      [AcquirePermit; Claim "i2"; StartTask] p') as (_ & Hd & _) end.
  - apply (bool_decide_eq_true_1 _). vm_compute. reflexivity.
  - repeat constructor.
  - vm_compute. reflexivity.
  - vm_compute. reflexivity.
  - repeat constructor.
  - vm_compute. reflexivity.
  - split; [rewrite app_nil_r in Hd; exact Hd|reflexivity].
Defined.

Lemma processes_stay_within_the_pool_witness :
  ∃ p, run_events process_step [CallBegins 0; CallBegins 1; SpawnSucceeds 1; CallKept 0; CallCrashed 1]
    (process_start (process_pool_new 2)) = Some p ∧ (live_processes p ≤ 2)%nat.
Proof.
  eexists. split; [vm_compute; reflexivity|].
  eapply (processes_stay_within_the_pool 2
    [CallBegins 0; CallBegins 1; SpawnSucceeds 1; CallKept 0; CallCrashed 1]); [by right|].
  vm_compute. reflexivity.
Defined.
