(* ===== verification/Subprocess.v ===== *)
(** * The subprocess executor's protocol

    Models the messages of [rustvello/src/runner/executor/subprocess.rs]: the
    request line, the ready line of a worker and its check, the reading of a
    response, and what a call does with its worker process.  The pipes are not
    modelled: an [Exchange] says how the operating system answered.

    The theorems: a response a worker writes for an outcome is read back as that
    outcome; every breach of the protocol is a crash, a crash loses the process
    and nothing else does; and a worker is accepted exactly when it announces
    itself ready and lists every expected task. *)
From stdpp Require Import pretty.
From S2P Require Import Prelude Effects Json Identifiers Errors Call Invocation Routing.

(** [serde_json] numbers of unsigned integers, and the text of a parse error. *)
Class JsonTexts `{JsonValue} := {
  number_of_u32 : Z → number;
  json_error : string → string
}.

(** ** Blanks *)

(** The bytes of one [White_Space] character at the start of UTF-8 text. *)
Definition blank_prefix (s : string) : option string :=
  match s with
  | String a s1 =>
      let x := N_of_ascii a in
      if ((9 <=? x) && (x <=? 13) || (x =? 32))%N then Some s1
      else
        match s1 with
        | String b s2 =>
            let y := N_of_ascii b in
            if ((x =? 194) && ((y =? 133) || (y =? 160)))%N then Some s2
            else
              match s2 with
              | String c s3 =>
                  let z := N_of_ascii c in
                  if ((x =? 225) && (y =? 154) && (z =? 128) ||
                      (x =? 226) && (y =? 128) &&
                        ((128 <=? z) && (z <=? 138) || (z =? 168) || (z =? 169) || (z =? 175)) ||
                      (x =? 226) && (y =? 129) && (z =? 159) ||
                      (x =? 227) && (y =? 128) && (z =? 128))%N
                  then Some s3 else None
              | EmptyString => None
              end
        | EmptyString => None
        end
  | EmptyString => None
  end.

Fixpoint trim_start_fuel (n : nat) (s : string) : string :=
  match n with
  | O => s
  | S n => match blank_prefix s with Some rest => trim_start_fuel n rest | None => s end
  end.

(** Each step drops a byte, so the length is fuel enough. *)
Definition trim_start (s : string) : string := trim_start_fuel (String.length s) s.

Fixpoint trim_end (s : string) : string :=
  match s with
  | EmptyString => EmptyString
  | String c s' => if bool_decide (trim_start s = "") then EmptyString else String c (trim_end s')
  end.

(** [str::trim]. *)
Definition str_trim (s : string) : string := trim_end (trim_start s).

(** ** Values *)

Section protocol.
Context {J : JsonValue} {JT : JsonTexts}.

(** [value.get(key)], [as_bool], [as_str], [as_array]. *)
Definition value_get (k : string) (v : Value) : option Value :=
  match as_object v with Some m => field k m | None => None end.
Definition as_bool (v : Value) : option bool := match v with VBool b => Some b | _ => None end.
Definition as_str (v : Value) : option string := match v with VString s => Some s | _ => None end.
Definition as_array (v : Value) : option (list Value) := match v with VArray l => Some l | _ => None end.

Definition get_as {A} (f : Value → option A) (k : string) (v : Value) : option A :=
  match value_get k v with Some x => f x | None => None end.

(** ** The ready line *)

(* @src rustvello/src/runner/executor/subprocess.rs 75-81 worker_crash *)
Definition worker_crash (message : string) : RustvelloError :=
  ETaskExecution "WorkerProcessCrashed" message None.

(* @src rustvello/src/runner/executor/subprocess.rs 85-97 missing_tasks *)
Definition missing_tasks (expected : list string) (announcement : Value) : option (list string) :=
  match get_as as_array "tasks" announcement with
  | None => None
  | Some announced =>
      let names : list string := omap as_str announced in
      let missing := bfilter (λ task, negb (bool_decide (task ∈ names))) expected in
      if bool_decide (missing = []) then None else Some missing
  end.

(** The line, when the read succeeded and was not at the end of the stream. *)
Definition ready_announcement (read_ok : bool) (ready : string) : option Value :=
  if read_ok && negb (bool_decide (ready = "")) then json_from_str (str_trim ready) else None.

Definition announces_ready (announcement : option Value) : bool :=
  match announcement with Some v => default false (get_as as_bool "ready" v) | None => false end.

(** The check of a process that was started: [program] is the command's first
    word, [ready] the line that was read, [expected] the tasks it must know. *)
(* @src rustvello/src/runner/executor/subprocess.rs 144-183 SubprocessExecutor::spawn_worker *)
Definition check_ready (program : string) (expected : list string) (read_ok : bool) (ready : string)
    : RustvelloResult unit :=
  let announcement := ready_announcement read_ok ready in
  if negb (announces_ready announcement) then
    Err (EConfiguration ("worker process " +:+ str_debug program +:+ " did not announce readiness (got " +:+
           str_debug ready +:+ ")"))
  else
    let announcement := default VNull announcement in
    match missing_tasks expected announcement with
    | Some missing =>
        let app := default "<unknown>" (get_as as_str "app" announcement) in
        let registered := default 0%nat (length <$> get_as as_array "tasks" announcement) in
        Err (EConfiguration ("worker process " +:+ str_debug program +:+ " (app " +:+ str_debug app +:+
               ") registered " +:+ pretty (Z.of_nat registered) +:+ " task(s) but this runner knows " +:+
               pretty (Z.of_nat (length expected)) +:+ "; missing: " +:+ str_join ", " missing +:+
               ". A worker process imports only its import_path, so that module must import every module that registers tasks"))
    | None => Ok tt
    end.

(** ** The request *)

Definition json_option (o : option string) : Value := match o with Some s => VString s | None => VNull end.

Definition workflow_value (w : WorkflowIdentity) : Value :=
  VObject [("parent_id", json_option (wf_parent_id w)); ("workflow_id", VString (workflow_id w));
           ("workflow_type", VString (task_id_display (workflow_type w)))].

(** The fields in key order.  The context's retry count, parent and defining flag
    are arguments: nothing else reads them. *)
(* @src rustvello/src/runner/executor/subprocess.rs 195-229 SubprocessExecutor::request_json *)
Definition request_value (task_id : TaskId) (args : SerializedArguments) (inv : InvocationContext)
    (num_retries : Z) (parent : option InvocationId) (defining : bool) : Value :=
  VObject
    [("args", VObject ((λ p, (p.1, VString p.2)) <$> btree_iter args));
     ("invocation_id", VString (ix_invocation_id inv));
     ("is_workflow_defining", VBool defining);
     ("language", VString (language_as_str (task_language task_id)));
     ("module", VString (task_module task_id));
     ("name", VString (task_name task_id));
     ("num_retries", VNumber (number_of_u32 num_retries));
     ("parent_invocation_id", json_option parent);
     ("protocol", VNumber (number_of_u32 1));
     ("task_id", VString (task_id_display task_id));
     ("traceparent", json_option (traceparent (ix_trace_context inv)));
     ("tracestate", json_option (tracestate (ix_trace_context inv)));
     ("workflow", match ix_workflow inv with Some w => workflow_value w | None => VNull end)].

(** ** The response *)

(** How the pipes of a worker answered one request. *)
Inductive Exchange :=
| WriteFails (error : string)
| FlushFails (error : string)
| ReadFails (error : string)
| StreamEnds
| Answers (line : string).

Definition response_field (key : string) (response : Value) : option string :=
  get_as as_str key response.

Definition read_response (response : Value) : RustvelloResult string :=
  if bool_decide (get_as as_bool "ok" response = Some true)
  then Ok (default "null" (response_field "result" response))
  else Err (ETaskExecution (default "TaskExecutionError" (response_field "error_type" response))
              (default "" (response_field "message" response)) (response_field "traceback" response)).

(* @src rustvello/src/runner/executor/subprocess.rs 231-279 SubprocessExecutor::round_trip *)
Definition round_trip (x : Exchange) : RustvelloResult string :=
  match x with
  | WriteFails e => Err (worker_crash ("cannot write to worker: " +:+ e))
  | FlushFails e => Err (worker_crash ("cannot flush worker stdin: " +:+ e))
  | ReadFails e => Err (worker_crash ("cannot read from worker: " +:+ e))
  | StreamEnds => Err (worker_crash "worker process exited while executing the task")
  | Answers line =>
      match json_from_str (str_trim line) with
      | None => Err (worker_crash ("worker returned invalid JSON (" +:+ json_error (str_trim line) +:+ "): " +:+
                                   str_debug line))
      | Some response => read_response response
      end
  end.

(** Whether the call keeps its process. *)
(* @src rustvello/src/runner/executor/subprocess.rs 313-321 SubprocessExecutor::execute *)
Definition keeps_process (outcome : RustvelloResult string) : bool :=
  match outcome with
  | Err (ETaskExecution error_type _ _) => negb (bool_decide (error_type = "WorkerProcessCrashed"))
  | _ => true
  end.
End protocol.

(** ** Lemmas on blanks *)

Definition newline : string := String "010" "".

Lemma blank_prefix_shorter s r : blank_prefix s = Some r → (String.length r < String.length s)%nat.
Proof.
  unfold blank_prefix. destruct s as [|a [|b [|c s]]]; simpl; repeat case_match; intros; simplify_eq; simpl; lia.
Qed.

Lemma trim_fuel_more n s : (String.length s ≤ n)%nat → trim_start_fuel n s = trim_start_fuel (S n) s.
Proof.
  revert s. induction n as [|n IH]; intros s Hn.
  - destruct s; [done|simpl in Hn; lia].
  - change (match blank_prefix s with Some r => trim_start_fuel n r | None => s end =
      match blank_prefix s with Some r => trim_start_fuel (S n) r | None => s end).
    destruct (blank_prefix s) as [r|] eqn:Hr; [|done]. apply IH. apply blank_prefix_shorter in Hr. lia.
Qed.

Lemma trim_fuel_enough n s : (String.length s ≤ n)%nat → trim_start_fuel n s = trim_start s.
Proof.
  unfold trim_start. intros Hn. induction Hn as [|n Hn IH]; [done|]. rewrite <-trim_fuel_more by lia. done.
Qed.

Lemma trim_start_step s :
  trim_start s = match blank_prefix s with Some r => trim_start r | None => s end.
Proof.
  unfold trim_start at 1. destruct s as [|c s]; [done|]. simpl String.length.
  change (trim_start_fuel (S (String.length s)) (String c s)) with
    (match blank_prefix (String c s) with Some r => trim_start_fuel (String.length s) r | None => String c s end).
  destruct (blank_prefix (String c s)) as [r|] eqn:Hr; [|done].
  apply trim_fuel_enough. apply blank_prefix_shorter in Hr. simpl in Hr. lia.
Qed.

Lemma blank_prefix_line s :
  s ≠ "" → blank_prefix (s +:+ newline) = (λ r, r +:+ newline) <$> blank_prefix s.
Proof.
  intros Hne. destruct s as [|a [|b [|c s]]]; [done|..]; unfold blank_prefix; simpl.
  all: repeat case_match; try done; rewrite ?andb_false_r, ?orb_false_r in *; done.
Qed.

Lemma trim_start_line s :
  trim_start (s +:+ newline) = if bool_decide (trim_start s = "") then "" else trim_start s +:+ newline.
Proof.
  remember (String.length s) as n eqn:Hn. revert s Hn. induction (lt_wf n) as [n _ IH]. intros s ->.
  destruct s as [|c s]; [done|]. rewrite (trim_start_step (String c s)), trim_start_step, blank_prefix_line by done.
  destruct (blank_prefix (String c s)) as [r|] eqn:Hr; simpl; [|done].
  eapply IH; [by apply blank_prefix_shorter in Hr|done].
Qed.

Lemma trim_end_line s : trim_end (s +:+ newline) = trim_end s.
Proof.
  induction s as [|c s IH]; [done|]. simpl. change (String c (s +:+ newline)) with (String c s +:+ newline).
  rewrite trim_start_line, IH. destruct (trim_start (String c s)); [done|]. by rewrite !bool_decide_false.
Qed.

Lemma trim_start_length s : (String.length (trim_start s) ≤ String.length s)%nat ∧
  (String.length (trim_start s) = String.length s → trim_start s = s).
Proof.
  remember (String.length s) as n eqn:Hn. revert s Hn. induction (lt_wf n) as [n _ IH]. intros s ->.
  rewrite trim_start_step. destruct (blank_prefix s) as [r|] eqn:Hr; [|done].
  apply blank_prefix_shorter in Hr. destruct (IH _ Hr r eq_refl). split; lia || (intros; lia).
Qed.

Lemma trim_end_length s : (String.length (trim_end s) ≤ String.length s)%nat.
Proof. induction s as [|c s IH]; simpl; [lia|]. case_bool_decide; simpl; lia. Qed.

(** A text without blanks at its ends is what is left of its line. *)
Lemma trim_line text : str_trim text = text → str_trim (text +:+ newline) = text.
Proof.
  intros Ht. assert (trim_start text = text) as Hs.
  { apply trim_start_length. pose proof (trim_end_length (trim_start text)). unfold str_trim in Ht.
    pose proof (proj1 (trim_start_length text)). rewrite Ht in H. lia. }
  unfold str_trim in *. rewrite trim_start_line, Hs in *. case_bool_decide as He; [by subst|].
  by rewrite trim_end_line.
Qed.

(** ** Theorems *)

Section facts.
Context {J : JsonValue} {JT : JsonTexts}.

(** What a worker writes for an outcome: the response of the protocol. *)
Definition response_value (r : RustvelloResult string) : Value :=
  match r with
  | Ok text => VObject [("ok", VBool true); ("result", VString text)]
  | Err (ETaskExecution t m tb) =>
      VObject [("error_type", VString t); ("message", VString m); ("ok", VBool false);
               ("traceback", json_option tb)]
  | _ => VNull
  end.

(** The outcomes a worker reports: a result or a task error. *)
Definition reportable (r : RustvelloResult string) : Prop :=
  match r with Ok _ => True | Err (ETaskExecution _ _ _) => True | _ => False end.

(** A response is read back as the outcome the worker wrote: its result, or the
    type, message and traceback of its error, whatever blanks end the line; and
    the call keeps its process, except when the task's own error type is the one
    that stands for a crash. *)
Theorem responses_are_read_back r text :
  reportable r → str_trim text = text → json_from_str text = Some (response_value r) →
  round_trip (Answers (text +:+ newline)) = r ∧
  (keeps_process r = true ↔ ∀ m tb, r ≠ Err (ETaskExecution "WorkerProcessCrashed" m tb)).
Proof.
  intros Hr Ht Hj. unfold round_trip. rewrite (trim_line text Ht), Hj. split.
  - destruct r as [x|[] |]; try done. by destruct traceback.
  - unfold keeps_process. destruct r as [x|[] |]; try done.
    rewrite negb_true_iff, bool_decide_eq_false. split; [congruence|]. intros Hne ->. by eapply Hne.
Qed.

(** The ways an exchange breaks the protocol. *)
Definition breach (x : Exchange) : Prop :=
  match x with Answers line => json_from_str (str_trim line) = None | _ => True end.

(** Every breach of the protocol is a crash error of the call; every answer that
    is JSON is a result or a task error; and the process is lost in a breach, or
    when the answer itself carries the crash type. *)
Lemma round_trip_cases x :
  (breach x → ∃ m, round_trip x = Err (worker_crash m) ∧ keeps_process (round_trip x) = false) ∧
  (¬ breach x → reportable (round_trip x) ∧ ∃ line response, x = Answers line ∧
     json_from_str (str_trim line) = Some response ∧ round_trip x = read_response response).
Proof.
  destruct x as [e|e|e| |line]; simpl; try (split; [eauto|by intros []]).
  destruct (json_from_str (str_trim line)) as [response|] eqn:Hj; split; [done| |by eauto|by intros []].
  intros _. split; [unfold read_response; by case_bool_decide|by exists line, response].
Qed.

(** A started worker is accepted exactly when the line that was read is JSON
    that announces it ready and, if it lists tasks, lists every expected one;
    otherwise the runner gets a configuration error, which names each missing
    task. *)
Theorem worker_accepted_iff program expected read_ok ready :
  (check_ready program expected read_ok ready = Ok tt ↔
   read_ok = true ∧ ready ≠ "" ∧ ∃ v, json_from_str (str_trim ready) = Some v ∧
     get_as as_bool "ready" v = Some true ∧
     (∀ tasks, get_as as_array "tasks" v = Some tasks → ∀ t, t ∈ expected → VString t ∈ tasks)) ∧
  (∀ e, check_ready program expected read_ok ready = Err e → ∃ m, e = EConfiguration m) ∧
  is_panic (check_ready program expected read_ok ready) = false.
Proof.
  unfold check_ready, ready_announcement.
  assert (∀ v, missing_tasks expected v = None ↔
    ∀ tasks, get_as as_array "tasks" v = Some tasks → ∀ t, t ∈ expected → VString t ∈ tasks) as Hmissing.
  { intros v. unfold missing_tasks. destruct (get_as as_array "tasks" v) as [tasks|]; [|split; [done|done]].
    assert (∀ t, t ∈ (omap as_str tasks : list string) ↔ VString t ∈ tasks) as Hin.
    { intros t. rewrite list_elem_of_omap. split; [|by eauto].
      intros (x & Hx & Hs). by destruct x; simplify_eq/=. }
    case_bool_decide as Hb; (split; [|try done]).
    - intros _ tasks' [= <-] t Ht. apply Hin. destruct (decide (t ∈ (omap as_str tasks : list string))) as [?|Hn]; [done|].
      exfalso. assert (t ∈ ([] : list string)) as ?%elem_of_nil; [|done]. rewrite <-Hb.
      apply elem_of_bfilter. by rewrite bool_decide_false.
    - done.
    - intros Hall. destruct Hb. destruct (bfilter _ expected) as [|t l] eqn:Hf; [done|]. exfalso.
      assert (t ∈ bfilter (λ task, negb (bool_decide (task ∈ (omap as_str tasks : list string)))) expected) as [Hn Ht]%elem_of_bfilter
        by (rewrite Hf; by left).
      apply negb_true_iff, bool_decide_eq_false in Hn. by apply Hn, Hin, (Hall tasks). }
  destruct read_ok, (decide (ready = "")) as [->|Hne]; simpl;
    try (split_and!; [split; [done|naive_solver]|naive_solver|done]).
  rewrite bool_decide_false by done. simpl.
  destruct (json_from_str (str_trim ready)) as [v|]; simpl; [|split_and!; [split; [done|naive_solver]|naive_solver|done]].
  destruct (get_as as_bool "ready" v) as [[]|] eqn:Hready; simpl;
    [|split_and!; [split; [done|naive_solver]|naive_solver|done]..].
  specialize (Hmissing v). destruct (missing_tasks expected v) as [missing|]; simpl.
  - split_and!; [|naive_solver|done]. split; [done|]. intros (_ & _ & v' & [= <-] & _ & Hall).
    by apply Hmissing in Hall.
  - split_and!; [|done|done]. split; [|done]. intros _. split_and!; [done|done|].
    exists v. split_and!; [done|done|]. by apply Hmissing.
Qed.
End facts.

(** ** Witnesses *)

(** JSON texts that stand for one response and one announcement. *)
Definition two_lines : JsonValue :=
  {| json_number := integer_number;
     json_from_str s :=
       if decide (s = "done") then Some (VObject [("ok", VBool true); ("result", VString "42")])
       else if decide (s = "ready") then
         Some (VObject [("ready", VBool true); ("tasks", VArray [VString "python::m.a"; VString "python::m.b"])])
       else None;
     json_to_string v := None;
     json_display v := "" |}.
Definition no_texts : @JsonTexts two_lines :=
  @Build_JsonTexts two_lines (λ n : Z, n) (λ _, "").

Lemma responses_are_read_back_witness :
  @round_trip two_lines no_texts (Answers ("done" +:+ newline)) = Ok "42".
Proof.
  apply (@responses_are_read_back two_lines no_texts (Ok "42") "done").
  - done.
  - reflexivity.
  - reflexivity.
Defined.

Example worker_is_accepted :
  @check_ready two_lines "python" ["python::m.a"] true ("ready" +:+ newline) = Ok tt ∧
  is_ok (@check_ready two_lines "python" ["python::m.c"] true "ready") = false.
Proof. by vm_compute. Qed.
