(* ===== verification/Runner.v ===== *)
(** * Runner processes

    Models the code around the claims of a runner process:
    [runner/failure_log.rs] (rate-limited error lines), the start-up check of
    [runner/control_plane.rs], and of [runner/persistent_tokio/] the poll of a
    worker, the time slot of the atomic service and the table of workers with the
    identities they retire.  The loop of a worker (sleeping, spans, telemetry) is not
    modelled: an iteration is an operation, or an event of the worker table.  The
    management loop is the file Management.

    The theorems: what the start-up check accepts, and the error with which it
    refuses; a burst of failures is counted without loss by error lines that are at
    least an interval apart, but failures that alternate with successes are not
    limited at all; the heartbeats follow the workers, so the invocations of a retired worker become
    recoverable while those of a panicked one never do. *)
From S2P Require Import Prelude F64 Effects Json Identifiers Status Errors Config Call Invocation Trigger OrchestratorState MemOrchestrator MemOrchestratorFacts MemBroker MemStateBackend MemTrigger TaskCatalog Ports Orchestration Routing TriggerManager TriggerLoop Dispatch Recovery Execution Pools.

(** ** The failure log *)

(** The lines: the first failure, a later one with the failures since the last
    line, the interval and the failures since the last success, a recovery. *)
Inductive FailureLine :=
| FirstFailure
| StillFailing (pending interval total : Z)
| RecoveredAfter (total : Z).

(** Instants and the interval are nanoseconds. *)
(* @src rustvello/src/runner/failure_log.rs 13-21 FailureLog *)
Record FailureLog := mkFailureLog {
  fl_interval : Z;
  fl_pending : Z;
  fl_total : Z;
  fl_last_logged : option Z
}.

(* @src rustvello/src/runner/failure_log.rs 28-36 FailureLog::with_interval *)
Definition failure_log_with_interval (interval : Z) : FailureLog := mkFailureLog interval 0 0 None.

(* @src rustvello/src/runner/failure_log.rs 24-26 FailureLog::new *)
Definition failure_log_new : FailureLog := failure_log_with_interval (60 * 1000000000).

(** [at.elapsed()] saturates at zero. *)
Definition elapsed (now at_ : Z) : Z := Z.max 0 (now - at_).

(** [AtomicU64::fetch_add] wraps. *)
Definition u64_wrapping_add (a b : Z) : Z := (a + b) mod 2 ^ 64.

(** The clock is read at [now] to see what has elapsed and at [now'] for the line.
    The counters wrap. *)
(* @src rustvello/src/runner/failure_log.rs 39-65 FailureLog::failed *)
Definition log_failed (now now' : Z) (l : FailureLog) : option FailureLine * FailureLog :=
  let pending := u64_wrapping_add (fl_pending l) 1 in
  let total := u64_wrapping_add (fl_total l) 1 in
  let due := match fl_last_logged l with
             | None => true
             | Some at_ => fl_interval l <=? elapsed now at_
             end in
  if negb due then (None, mkFailureLog (fl_interval l) pending total (fl_last_logged l))
  else (Some (if total =? 1 then FirstFailure else StillFailing pending (fl_interval l / 1000000000) total),
        mkFailureLog (fl_interval l) 0 total (Some now')).

(* @src rustvello/src/runner/failure_log.rs 68-78 FailureLog::succeeded *)
Definition log_succeeded (l : FailureLog) : option FailureLine * FailureLog :=
  if 0 <? fl_total l
  then (Some (RecoveredAfter (fl_total l)), mkFailureLog (fl_interval l) 0 0 None)
  else (None, mkFailureLog (fl_interval l) (fl_pending l) 0 (fl_last_logged l)).

(** An attempt that failed with its two instants, or succeeded. *)
Inductive Attempted := AttemptFails (now now' : Z) | AttemptSucceeds.

(* @src rustvello/src/runner/failure_log.rs 81-88 FailureLog::record *)
Definition log_record (a : Attempted) (l : FailureLog) : option FailureLine * FailureLog :=
  match a with
  | AttemptFails now now' => log_failed now now' l
  | AttemptSucceeds => log_succeeded l
  end.

(** The lines a sequence of attempts logs, and the log after it. *)
Fixpoint log_records (l : FailureLog) (attempts : list Attempted) : list (option FailureLine) * FailureLog :=
  match attempts with
  | [] => ([], l)
  | a :: rest =>
      let '(line, l1) := log_record a l in
      let '(lines, l2) := log_records l1 rest in
      (line :: lines, l2)
  end.

(** The failures a line accounts for. *)
Definition line_failures (line : option FailureLine) : Z :=
  match line with
  | Some FirstFailure => 1
  | Some (StillFailing pending _ _) => pending
  | _ => 0
  end.

(** Each error line is an interval later than the one before, [last]. *)
Fixpoint spaced (interval : Z) (last : option Z) (fails : list (Z * Z)) (lines : list (option FailureLine)) : Prop :=
  match fails, lines with
  | (now, now') :: fails, Some _ :: lines =>
      (∀ at_, last = Some at_ → interval ≤ elapsed now at_) ∧ spaced interval (Some now') fails lines
  | (now, _) :: fails, None :: lines =>
      (∃ at_, last = Some at_ ∧ elapsed now at_ < interval) ∧ spaced interval last fails lines
  | _, _ => True
  end.

Definition accounted (lines : list (option FailureLine)) : Z := foldr Z.add 0 (line_failures <$> lines).

Lemma accounted_cons line lines : accounted (line :: lines) = line_failures line + accounted lines.
Proof. done. Qed.

Lemma log_records_app l a b :
  log_records l (a ++ b) =
    let '(la, l1) := log_records l a in let '(lb, l2) := log_records l1 b in (la ++ lb, l2).
Proof.
  revert l. induction a as [|x a IH]; intros l; simpl; [by destruct (log_records l b)|].
  destruct (log_record x l) as [line l1]. rewrite IH. destruct (log_records l1 a) as [la l2].
  by destruct (log_records l2 b).
Qed.

(** A run of failures from any point of a burst. *)
Lemma failures_counted fails l :
  0 ≤ fl_pending l → 0 ≤ fl_total l → fl_pending l + Z.of_nat (length fails) < 2 ^ 64 →
  fl_total l + Z.of_nat (length fails) < 2 ^ 64 → (fl_total l = 0 → fl_pending l = 0) →
  let '(lines, l') := log_records l ((λ p, AttemptFails p.1 p.2) <$> fails) in
  fl_total l' = fl_total l + Z.of_nat (length fails) ∧
  accounted lines + fl_pending l' = fl_pending l + Z.of_nat (length fails) ∧
  fl_interval l' = fl_interval l ∧ 0 ≤ fl_pending l' ∧
  spaced (fl_interval l) (fl_last_logged l) fails lines.
Proof.
  revert l. induction fails as [|[now now'] fails IH]; intros l Hp Ht Hpb Htb H0; simpl; [unfold accounted; simpl; split_and!; [lia..|done|done|done]|].
  cbn [length] in *.
  unfold log_failed. unfold u64_wrapping_add. rewrite !Z.mod_small by lia.
  destruct (match fl_last_logged l with None => true | Some at_ => fl_interval l <=? elapsed now at_ end) eqn:Hdue; simpl.
  - match goal with |- context [log_records ?x _] => specialize (IH x) end. simpl in IH.
    destruct (log_records _ _) as [lines l'].
    destruct IH as (IHt & IHs & IHi & IHp & IHsp); [lia..|].
    split_and!; [lia| |done|done| |done].
    + rewrite accounted_cons. destruct (Z.eqb_spec (fl_total l + 1) 1); simpl; [|lia].
      rewrite H0 in * by lia. lia.
    + intros at_ Hl. rewrite Hl in Hdue. by apply Z.leb_le.
  - match goal with |- context [log_records ?x _] => specialize (IH x) end. simpl in IH.
    destruct (log_records _ _) as [lines l'].
    destruct IH as (IHt & IHs & IHi & IHp & IHsp); [lia..|].
    split_and!; [lia|rewrite accounted_cons; simpl; lia|done|done| |done].
    destruct (fl_last_logged l) as [at_|]; [|done]. exists at_. split; [done|]. by apply Z.leb_gt.
Qed.

(** A burst of failures of any length below 2^64, recorded in a log that has
    none pending, is counted without loss.  The first failure is logged at once;
    later ones are logged exactly when the interval has passed since the last line;
    the failures the error lines account for and those still pending add up to the
    burst.  The success that ends it logs the size of the burst and leaves the log
    as it was. *)
Theorem failure_burst_is_counted (interval : Z) (fails : list (Z * Z)) :
  fails ≠ [] → Z.of_nat (length fails) < 2 ^ 64 →
  let '(lines, l) := log_records (failure_log_with_interval interval) ((λ p, AttemptFails p.1 p.2) <$> fails) in
  head lines = Some (Some FirstFailure) ∧
  spaced interval None fails lines ∧
  accounted lines + fl_pending l = Z.of_nat (length fails) ∧ 0 ≤ fl_pending l ∧
  log_record AttemptSucceeds l =
    (Some (RecoveredAfter (Z.of_nat (length fails))), failure_log_with_interval interval).
Proof.
  intros Hne Hlen. pose proof (failures_counted fails (failure_log_with_interval interval)) as H.
  destruct fails as [|[now now'] fails]; [done|]. cbn [length] in *. simpl in H |- *.
  destruct (log_records _ _) as [lines l]. destruct H as (Ht & Hs & Hi & Hp & Hsp); [lia..|].
  split_and!; [done|apply Hsp|apply Hsp|lia|done|].
  unfold log_succeeded. rewrite Ht, Hi. by rewrite (proj2 (Z.ltb_lt _ _)) by lia.
Qed.

(** The log is shared by the heartbeats of the runner and of its workers.
    When failures alternate with successes, each failure is a first one: every one
    of them is logged, however short the time between them. *)
Theorem alternating_failures_are_all_logged (interval : Z) (fails : list (Z * Z)) :
  log_records (failure_log_with_interval interval) (fails ≫= λ p, [AttemptFails p.1 p.2; AttemptSucceeds]) =
    (fails ≫= λ _, [Some FirstFailure; Some (RecoveredAfter 1)], failure_log_with_interval interval).
Proof.
  induction fails as [|[now now'] fails IH]; [done|]. rewrite !bind_cons, log_records_app.
  change (log_records _ [AttemptFails _ _; AttemptSucceeds]) with
    ([Some FirstFailure; Some (RecoveredAfter 1)], failure_log_with_interval interval).
  cbv beta iota. by rewrite IH.
Qed.

(** ** The control plane *)

(** What the runner asks of the backends besides the orchestrator's ports. *)
Class RunnerPorts `{JsonValue} (S : Type) := {
  ctl_backend_name : string;
  ctl_get_active_runner_ids : Z → M RustvelloError S (list RunnerId);
  sb_backend_name : string;
  br_backend_name : string;
  br_count_invocations_in_queues : list string → option TaskId → M RustvelloError S nat
}.

(** [op.await.map_err(f)]. *)
Definition map_error {S A} (f : RustvelloError → RustvelloError) (m : M RustvelloError S A)
    : M RustvelloError S A := λ c s,
  match m c s with (r, c', s') => (map_err f r, c', s') end.

Section control.
Context {J : JsonValue} {S : Type} {P : Ports S} {RP : RunnerPorts S}.
Context (app_id : string) (config : AppConfig).

(* @src rustvello/src/runner/control_plane.rs 142-151 RunnerControlPlane::startup_check *)
Definition refused (component name action : string) (error : RustvelloError) : RustvelloError :=
  EConfiguration (component +:+ " (" +:+ name +:+ ") refused " +:+ action +:+ " for app '" +:+ app_id +:+ "': " +:+
    error_display error +:+ ". The runner needs read and write access to this app's storage; see the " +:+
    "storage-and-permissions documentation page").

(** The queues whose depth is read. *)
(* @src rustvello/src/runner/control_plane.rs 191-195 RunnerControlPlane::startup_check *)
Definition checked_queues : list string :=
  match ac_runner_queues config with [] => ac_broker_queues config | queues => queues end.

(** The warning when the context just written is not read back is not modelled. *)
(* @src rustvello/src/runner/control_plane.rs 137-204 RunnerControlPlane::startup_check *)
Definition startup_check (runner_id : RunnerId) (runner_ctx : StoredRunnerContext) : M RustvelloError S unit :=
  map_error (refused "state backend" sb_backend_name "the runner context write")
    (sb_store_runner_context runner_ctx);;
  _ ← map_error (refused "state backend" sb_backend_name "the runner context read")
        (sb_get_runner_context runner_id);
  map_error (refused "orchestrator" ctl_backend_name "the heartbeat write") (ctl_register_heartbeat runner_id true);;
  _ ← map_error (refused "orchestrator" ctl_backend_name "the active runners read")
        (ctl_get_active_runner_ids (ac_runner_dead_after_seconds config));
  _ ← map_error (refused "broker" br_backend_name "the queue depth read")
        (br_count_invocations_in_queues checked_queues None);
  mret tt.

(* @src rustvello/src/runner/control_plane.rs 206-214 RunnerControlPlane::heartbeat *)
Definition control_heartbeat (runner_id : RunnerId) (atomic : bool) : M RustvelloError S unit :=
  ctl_register_heartbeat runner_id atomic.

(** The actions a backend may refuse. *)
Definition refusable : list (string * string * string) :=
  [("state backend", sb_backend_name, "the runner context write");
   ("state backend", sb_backend_name, "the runner context read");
   ("orchestrator", ctl_backend_name, "the heartbeat write");
   ("orchestrator", ctl_backend_name, "the active runners read");
   ("broker", br_backend_name, "the queue depth read")].

(** An error of a refusable action, as the check reports it. *)
Definition refusal_of (e : RustvelloError) : Prop :=
  ∃ component name action error, (component, name, action) ∈ refusable ∧ e = refused component name action error.

Definition errors_are {A} (Q : RustvelloError → Prop) (m : M RustvelloError S A) : Prop :=
  ∀ c s e, result_of m c s = Err e → Q e.

Lemma errors_ret {A} Q (a : A) : errors_are Q (mret a).
Proof. by intros c s e. Qed.

Lemma errors_bind {A B} Q (m : M RustvelloError S A) (f : A → M RustvelloError S B) :
  errors_are Q m → (∀ a, errors_are Q (f a)) → errors_are Q (m ≫= f).
Proof.
  intros Hm Hf c s e. specialize (Hm c s). unfold errors_are, result_of in *. unfold mbind, M_bind.
  destruct (m c s) as [[[a|e'|p] c'] s']; simpl in *; [apply Hf|intros [= ->]; by apply Hm|done].
Qed.

Lemma errors_map {A} Q f (m : M RustvelloError S A) : (∀ e, Q (f e)) → errors_are Q (map_error f m).
Proof.
  intros Hf c s e. unfold result_of, map_error. destruct (m c s) as [[[a|e'|p] c'] s']; simpl; [done| |done].
  intros [= <-]. apply Hf.
Qed.

(** Whatever the backends do, the only errors of the start-up check are
    configuration errors that name the component, its backend, the refused action,
    the app, and carry the backend's own error. *)
Theorem startup_errors_name_the_refusal runner_id ctx c s e :
  result_of (startup_check runner_id ctx) c s = Err e → refusal_of e.
Proof.
  revert c s e. unfold startup_check.
  repeat (apply errors_bind; [apply errors_map; intros e; repeat eexists; unfold refusable; set_solver|intros ?]).
  apply errors_ret.
Qed.
End control.

(** The in-memory backends. *)
Definition mem_runner_ports {J : JsonValue} {HO : HashOrder} {CH : Chrono} {T : Type} : RunnerPorts (Runtime T) :=
  {| ctl_backend_name := "In-Memory";
     ctl_get_active_runner_ids n := on_control (mem_get_active_runner_ids n);
     sb_backend_name := "In-Memory";
     br_backend_name := "In-Memory";
     br_count_invocations_in_queues queues t := on_broker (mem_count_invocations_in_queues queues t) |}.

Section on_memory.
Context {J : JsonValue} {HO : HashOrder} {CH : Chrono} {T : Type} (tm : option (TriggerPort T)) (delay : Z).
Context (app_id : string) (config : AppConfig).
#[local] Existing Instance mem_ports.
#[local] Existing Instance mem_runner_ports.

Lemma validate_queues_run queues c (q : list QueuedInvocation) :
  (Forall (λ n, validate_routing n 0 = Ok tt) queues ∧
     for_each (λ n, lift (validate_routing n 0)) queues c q = (Ok tt, c, q)) ∨
  ∃ n e, n ∈ queues ∧ validate_routing n 0 = Err e ∧
    for_each (λ n, lift (validate_routing n 0)) queues c q = (Err e, c, q).
Proof.
  induction queues as [|n queues IH]; [by left|]. simpl. unfold mbind, M_bind, lift.
  destruct (validate_routing_cases n 0) as [(Hn & _ & _)|(m & Hn & _)]; rewrite Hn.
  - destruct IH as [[HF IH]|(n' & e & Hin & He & IH)]; [left|right]; [by split; [constructor|]|].
    exists n', e. split_and!; [by right|done..].
  - right. exists n, (EConfiguration m). split_and!; [by left|done..].
Qed.

Lemma count_queued_run queues t c q :
  (Forall (λ n, validate_routing n 0 = Ok tt) queues ∧
     ∃ n c', mem_count_invocations_in_queues queues t c q = (Ok n, c', q)) ∨
  ∃ n e, n ∈ queues ∧ validate_routing n 0 = Err e ∧
    mem_count_invocations_in_queues queues t c q = (Err e, c, q).
Proof.
  unfold mem_count_invocations_in_queues, mbind, M_bind.
  destruct (validate_queues_run queues c q) as [[HF ->]|(n & e & Hin & He & ->)]; [left|right].
  - split; [done|]. eexists _, _. reflexivity.
  - exists n, e. by split_and!.
Qed.

Lemma heartbeat_run r b c x :
  ∃ c' x', mem_register_heartbeat r b c x = (Ok tt, c', x') ∧
    heartbeats x' = <[r := (clock_next c).1]> (heartbeats x) ∧
    runner_atomic_eligible x' = <[r := b]> (runner_atomic_eligible x) ∧
    status_records x' = status_records x ∧ retries x' = retries x.
Proof.
  cbv [mem_register_heartbeat mbind M_bind get utc_now modify mret M_ret]. simpl.
  destruct (runner_created x !! r); eexists _, _; by split_and!.
Qed.

Lemma active_ids_run n c x : ∃ l c', mem_get_active_runner_ids n c x = (Ok l, c', x).
Proof. cbv [mem_get_active_runner_ids mbind M_bind get utc_now mret M_ret]. eexists _, _. reflexivity. Qed.

(** The start-up check on the in-memory backends accepts the runner exactly if
    every queue it would poll has a valid name, and the refusal is the broker's.
    Either way it never panics, the context and the heartbeat are stored (a refused
    runner counts as alive until its heartbeat is too old), and no invocation,
    result, history or queue entry changes. *)
Theorem startup_check_on_memory runner_id ctx c s :
  let m := startup_check (P := mem_ports tm delay) app_id config runner_id ctx in
  let s' := state_after m c s in
  match result_of m c s with
  | Ok _ => Forall (λ n, validate_routing n 0 = Ok tt) (checked_queues config)
  | Err e => ∃ n error, n ∈ checked_queues config ∧ validate_routing n 0 = Err error ∧
      e = refused app_id "broker" "In-Memory" "the queue depth read" error
  | Panic _ => False
  end ∧
  mem_get_runner_context (rc_runner_id ctx) c (rt_state s') = (Ok (Some ctx), c, rt_state s') ∧
  is_Some (heartbeats (rt_control s') !! runner_id) ∧
  runner_atomic_eligible (rt_control s') !! runner_id = Some true ∧
  runtime_view s' = runtime_view s.
Proof.
  intros m s'. subst s'. unfold m, startup_check, map_error, result_of, state_after.
  destruct (heartbeat_run runner_id true c (rt_control s)) as (c1 & x1 & Hh & Hb & He & Hs & Hr).
  set (s1 := put_control x1 (put_state (with_b_runner_contexts <[rc_runner_id ctx := ctx]> (rt_state s)) s)).
  assert (mem_get_runner_context (rc_runner_id ctx) c (rt_state s1) = (Ok (Some ctx), c, rt_state s1) ∧
          is_Some (heartbeats x1 !! runner_id) ∧ runner_atomic_eligible x1 !! runner_id = Some true ∧
          runtime_view s1 = runtime_view s) as Hstored.
  { rewrite Hb, He, !lookup_insert_eq. split_and!; [|eauto|done|].
    - unfold mem_get_runner_context, gets. simpl. by rewrite lookup_insert_eq.
    - unfold runtime_view. simpl. by rewrite Hs, Hr. }
  destruct (active_ids_run (ac_runner_dead_after_seconds config) c1 x1) as (l & c2 & Hl).
  destruct (count_queued_run (checked_queues config) None c2 (rt_broker s)) as
    [(HF & n & c3 & Hn)|(n & e & Hin & Hv & Hn)];
    cbn -[mem_register_heartbeat mem_get_active_runner_ids mem_count_invocations_in_queues];
    cbv [mbind M_bind on_control on_state on_broker zoom];
    cbn -[mem_register_heartbeat mem_get_active_runner_ids mem_count_invocations_in_queues];
    rewrite Hh;
    cbn -[mem_register_heartbeat mem_get_active_runner_ids mem_count_invocations_in_queues];
    rewrite Hl;
    cbn -[mem_register_heartbeat mem_get_active_runner_ids mem_count_invocations_in_queues];
    rewrite Hn; (split; [|exact Hstored]); [exact HF|].
  exists n, e. by split_and!.
Qed.
End on_memory.

(** ** The poll of a worker and the time slot *)

Section worker.
Context {J : JsonValue} {S : Type} {P : Ports S} {EC : ExecutionCodec}.
Context {CH : Chrono} {FP : FloatPowi} {E : Environment} {PF : ParseF64} {UC : UnicodeCase} {G : Glob} {SF : Shuffle}.
Context {SH : Sha256} {SS : SerdeString} (fp : Failpoints).
Context (app_config : AppConfig) (catalog : TaskCatalog) (middlewares : list (TaskMiddleware (S := S))).

(** [run] says how an attempt at an invocation ends; it is the task executor's. *)
(* @src rustvello/src/runner/persistent_tokio/worker.rs 230-243 PersistentTokioRunner::run_one_as_worker *)
Definition run_one_as_worker (am : Ambient) (registry : TaskRegistry) (lang : TaskLanguage) (worker : RunnerId)
    (drawn : nat) (random_unit : f64) (run : InvocationId → ∀ limits, AttemptRun limits) : M RustvelloError S bool :=
  claimed ← claim_next am app_config registry lang;
  match claimed with
  | Some id =>
      execute_invocation_common app_config catalog middlewares worker drawn random_unit id (run id);;
      mret true
  | None => mret false
  end.

(** The clock before the epoch counts as the epoch. *)
(* @src rustvello/src/runner/persistent_tokio/execution.rs 62-106 PersistentTokioRunner::should_run_atomic_service *)
Definition should_run_atomic_service (runner_id : RunnerId) : M RustvelloError S bool :=
  found ← attempt (ctl_get_active_runners (ac_runner_dead_after_seconds app_config) (Some true));
  let runners := match found with inl runners => runners | inr _ => [] end in
  match runners with
  | [] => mret false
  | [_] => mret true
  | _ =>
      match runner_position runner_id runners with
      | None => mret false
      | Some position =>
          let interval := f64_mul (ac_atomic_service_interval_minutes app_config) (f64_of_u64 60) in
          let margin := f64_mul (ac_atomic_service_spread_margin_minutes app_config) (f64_of_u64 60) in
          let slot_size := f64_div interval (f64_of_u64 (Z.of_nat (length runners))) in
          let slot_start := f64_mul (f64_of_u64 (Z.of_nat position)) slot_size in
          let slot_end := f64_sub (f64_add slot_start slot_size) margin in
          let slot_end := if f64_leb slot_end slot_start
                          then f64_add slot_start (f64_div slot_size f64_two) else slot_end in
          now ← utc_now;
          let time_in_cycle := f64_rem (unix_seconds (Z.max 0 now) (Z.max 0 now)) interval in
          mret (f64_leb slot_start time_in_cycle && f64_ltb time_in_cycle slot_end)
      end
  end.

(** The runner's own copy of the time-slot test agrees with the orchestrator's
    on the runners it reads, at the time it reads; when the runners cannot be read
    the service does not run. *)
Theorem atomic_slot_agrees runner_id c s :
  let read := attempt (ctl_get_active_runners (ac_runner_dead_after_seconds app_config) (Some true)) in
  match read c s with
  | (Ok (inl runners), c', _) =>
      let now := Z.max 0 (clock_next c').1 in
      result_of (should_run_atomic_service runner_id) c s =
        Ok (can_run_atomic_service runner_id runners (unix_seconds now now)
              (ac_atomic_service_interval_minutes app_config) (ac_atomic_service_spread_margin_minutes app_config))
  | (Ok (inr _), _, _) => result_of (should_run_atomic_service runner_id) c s = Ok false
  | _ => True
  end.
Proof.
  intros read. unfold result_of, should_run_atomic_service. fold read. unfold mbind, M_bind.
  destruct (read c s) as [[[[runners|e]|e|p] c'] s']; try done.
  destruct runners as [|r1 [|r2 rs]]; [done..|]. unfold can_run_atomic_service.
  by destruct (runner_position runner_id (r1 :: r2 :: rs)).
Qed.
End worker.

(** ** The table of workers *)

(** What a worker loop does next: poll, or wait out a backoff before the first
    heartbeat of its new identity. *)
Inductive WorkerPhase := Polling | BackingOff.

(** [wp_states] are the keys of [worker_states], [wp_loops] the running loops by
    their current identity with their consecutive errors, [wp_beats] the last
    accepted heartbeat of each identity.  Besides, for the theorems: the identities
    that were retired, those whose loop panicked, and all that were drawn. *)
(* @src rustvello/src/runner/persistent_tokio/mod.rs 46-59 PersistentTokioRunner *)
Record WorkerPool := mkWorkerPool {
  wp_states : gset RunnerId;
  wp_loops : gmap RunnerId (Z * WorkerPhase);
  wp_beats : gmap RunnerId DateTime;
  wp_retired : gset RunnerId;
  wp_panicked : gset RunnerId;
  wp_drawn : gset RunnerId
}.

Definition worker_pool_new : WorkerPool := mkWorkerPool ∅ ∅ ∅ ∅ ∅ ∅.

(** [consecutive_errors.saturating_add(1).min(6)]. *)
(* @src rustvello/src/runner/persistent_tokio/worker.rs 186-186 PersistentTokioRunner::worker_loop *)
Definition next_errors (n : Z) : Z := Z.min (Z.min (n + 1) u32_max) 6.

(* @src rustvello/src/runner/persistent_tokio/worker.rs 187-187 PersistentTokioRunner::worker_loop *)
Definition backoff_ms (n : Z) : Z := Z.min (Z.shiftl 100 n) 5000.

(** Identities of new workers are fresh UUIDs; [accepted] says whether the backend
    took a heartbeat. *)
Inductive worker_event :=
| WorkerSpawns (id : RunnerId) (now : DateTime) (accepted : bool)
| PollSucceeds (w : RunnerId)
| PollFails (w : RunnerId) (id : RunnerId)
| WorkerReconnects (w : RunnerId) (now : DateTime) (accepted : bool)
| WorkerStops (w : RunnerId)
| WorkerPanics (w : RunnerId)
| HeartbeatTick (now : DateTime) (accepted : RunnerId → bool).

(** A heartbeat the backend may have refused. *)
Definition beat (now : DateTime) (accepted : bool) (w : RunnerId) (beats : gmap RunnerId DateTime)
    : gmap RunnerId DateTime := if accepted then <[w := now]> beats else beats.

(* @src rustvello/src/runner/persistent_tokio/worker.rs 56-96 PersistentTokioRunner::run_impl *)
Definition spawn_worker (p : WorkerPool) (id : RunnerId) (now : DateTime) (accepted : bool) : WorkerPool :=
  mkWorkerPool ({[id]} ∪ wp_states p) (<[id := (0, Polling)]> (wp_loops p)) (beat now accepted id (wp_beats p))
    (wp_retired p) (wp_panicked p) ({[id]} ∪ wp_drawn p).

(** The identity of a worker whose operation failed is replaced. *)
(* @src rustvello/src/runner/persistent_tokio/worker.rs 162-186 PersistentTokioRunner::worker_loop *)
Definition retire_worker (p : WorkerPool) (w : RunnerId) (errors : Z) (id : RunnerId) : WorkerPool :=
  mkWorkerPool ({[id]} ∪ wp_states p ∖ {[w]}) (<[id := (next_errors errors, BackingOff)]> (delete w (wp_loops p)))
    (wp_beats p) ({[w]} ∪ wp_retired p) (wp_panicked p) ({[id]} ∪ wp_drawn p).

(* @src rustvello/src/runner/persistent_tokio/worker.rs 222-225 PersistentTokioRunner::worker_loop *)
Definition stop_worker (p : WorkerPool) (w : RunnerId) : WorkerPool :=
  mkWorkerPool (wp_states p ∖ {[w]}) (delete w (wp_loops p)) (wp_beats p) ({[w]} ∪ wp_retired p)
    (wp_panicked p) (wp_drawn p).

(** A panic in the loop's task unwinds past the removal of its identity. *)
Definition panic_worker (p : WorkerPool) (w : RunnerId) : WorkerPool :=
  mkWorkerPool (wp_states p) (delete w (wp_loops p)) (wp_beats p) (wp_retired p) ({[w]} ∪ wp_panicked p) (wp_drawn p).

Definition set_loop (p : WorkerPool) (w : RunnerId) (l : Z * WorkerPhase) (beats : gmap RunnerId DateTime) : WorkerPool :=
  mkWorkerPool (wp_states p) (<[w := l]> (wp_loops p)) beats (wp_retired p) (wp_panicked p) (wp_drawn p).

(** The heartbeats of a management cycle, for every key of [worker_states]. *)
(* @src rustvello/src/runner/persistent_tokio/worker.rs 296-299 PersistentTokioRunner::management_loop *)
Definition beat_all (now : DateTime) (accepted : RunnerId → bool) (p : WorkerPool) : gmap RunnerId DateTime :=
  set_to_map (λ w, (w, now)) (filter (λ w, accepted w = true) (wp_states p)) ∪ wp_beats p.

(* @src rustvello/src/runner/persistent_tokio/worker.rs 144-227 PersistentTokioRunner::worker_loop *)
Definition worker_step (p : WorkerPool) (e : worker_event) : option WorkerPool :=
  match e with
  | WorkerSpawns id now accepted =>
      if decide (id ∈ wp_drawn p) then None else Some (spawn_worker p id now accepted)
  | PollSucceeds w =>
      '(_, ph) ← wp_loops p !! w;
      match ph with Polling => Some (set_loop p w (0, Polling) (wp_beats p)) | BackingOff => None end
  | PollFails w id =>
      '(errors, ph) ← wp_loops p !! w;
      if decide (id ∈ wp_drawn p) then None
      else match ph with Polling => Some (retire_worker p w errors id) | BackingOff => None end
  | WorkerReconnects w now accepted =>
      '(errors, ph) ← wp_loops p !! w;
      match ph with
      | Polling => None
      | BackingOff => Some (set_loop p w (errors, Polling) (beat now accepted w (wp_beats p)))
      end
  | WorkerStops w => _ ← wp_loops p !! w; Some (stop_worker p w)
  | WorkerPanics w => _ ← wp_loops p !! w; Some (panic_worker p w)
  | HeartbeatTick now accepted =>
      Some (mkWorkerPool (wp_states p) (wp_loops p) (beat_all now accepted p) (wp_retired p) (wp_panicked p) (wp_drawn p))
  end.

(** The consecutive errors of a loop; one that is backing off has had an error. *)
Definition loop_bound (l : Z * WorkerPhase) : Prop :=
  0 ≤ l.1 ≤ 6 ∧ (l.2 = BackingOff → 1 ≤ l.1).

(** The identities heartbeats are sent for are those of the running loops and of
    the panicked ones; no retired identity is among them. *)
Record worker_inv (p : WorkerPool) : Prop := {
  wi_states : wp_states p = dom (wp_loops p) ∪ wp_panicked p;
  wi_retired : wp_retired p ## wp_states p;
  wi_panicked : wp_panicked p ## dom (wp_loops p);
  wi_drawn : wp_states p ∪ wp_retired p ⊆ wp_drawn p;
  wi_errors w n ph : wp_loops p !! w = Some (n, ph) → loop_bound (n, ph)
}.

Lemma worker_inv_new : worker_inv worker_pool_new.
Proof. split; [done|set_solver..|]. intros w n ph. simpl. by rewrite lookup_empty. Qed.

Lemma loop_errors p w l :
  (∀ w n ph, wp_loops p !! w = Some (n, ph) → loop_bound (n, ph)) → loop_bound l →
  ∀ w' n ph, <[w := l]> (wp_loops p) !! w' = Some (n, ph) → loop_bound (n, ph).
Proof.
  intros Hall Hl w' n ph. rewrite lookup_insert_Some. intros [[<- ->]|[_ Hw]]; [exact Hl|by eapply Hall].
Qed.

(** Updating a running loop keeps the table. *)
Lemma set_loop_inv p w l l' beats :
  worker_inv p → wp_loops p !! w = Some l → loop_bound l' → worker_inv (set_loop p w l' beats).
Proof.
  intros [Hs Hr Hp Hd He] Hw Hl.
  assert (w ∈ dom (wp_loops p)) by (by apply elem_of_dom_2 in Hw).
  split; simpl; rewrite ?dom_insert_L; [set_solver..|]. by apply (loop_errors p).
Qed.

(** Taking a running loop out keeps it as well. *)
Lemma leave_inv p w l :
  worker_inv p → wp_loops p !! w = Some l → worker_inv (stop_worker p w) ∧ worker_inv (panic_worker p w).
Proof.
  intros [Hs Hr Hp Hd He] Hw.
  assert (w ∈ dom (wp_loops p)) by (by apply elem_of_dom_2 in Hw).
  assert (∀ w' n ph, delete w (wp_loops p) !! w' = Some (n, ph) → loop_bound (n, ph)) as He'.
  { intros w' n ph [_ Hw']%lookup_delete_Some. by eapply He. }
  split; (split; simpl; [..|exact He']); rewrite ?dom_delete_L; rewrite ?Hs in *.
  - apply set_eq. intros x. destruct (decide (x = w)); set_solver.
  - set_solver.
  - set_solver.
  - set_solver.
  - apply set_eq. intros x. destruct (decide (x = w)); set_solver.
  - set_solver.
  - set_solver.
  - set_solver.
Qed.

Lemma next_errors_bound n : 0 ≤ n ≤ 6 → 1 ≤ next_errors n ≤ 6.
Proof. unfold next_errors, u32_max. lia. Qed.

Lemma worker_step_inv p e p' : worker_inv p → worker_step p e = Some p' → worker_inv p'.
Proof.
  intros Hinv. destruct e as [id now a|w|w id|w now a|w|w|now a]; simpl.
  - destruct (decide _) as [|Hid]; [done|]. intros [= <-]. destruct Hinv as [Hs Hr Hp Hd He].
    split; simpl; rewrite ?dom_insert_L; rewrite ?Hs in *; [by rewrite union_assoc_L|clear -Hr Hp Hd Hid..|by apply loop_errors].
    + intros x Hx [->%elem_of_singleton|Hx']%elem_of_union; [|by apply (Hr x)]. apply Hid, Hd. set_solver.
    + set_solver.
    + set_solver.
  - intros ([n []] & Hw & [= <-])%bind_Some. by eapply set_loop_inv.
  - intros ([n ph] & Hw & Hn)%bind_Some. destruct (decide _) as [|Hid], ph; simplify_eq.
    destruct Hinv as [Hs Hr Hp Hd He].
    assert (w ∈ dom (wp_loops p)) by (by apply elem_of_dom_2 in Hw).
    pose proof (next_errors_bound n (proj1 (He _ _ _ Hw))).
    split; simpl; rewrite ?dom_insert_L, ?dom_delete_L; rewrite ?Hs in *.
    + apply set_eq. intros x. destruct (decide (x = w)); set_solver.
    + set_solver.
    + set_solver.
    + set_solver.
    + intros w' n' ph'. rewrite lookup_insert_Some, lookup_delete_Some.
      intros [[_ [= <- <-]]|(_ & _ & Hw')]; [split; simpl; lia|by eapply He].
  - intros ([n []] & Hw & [= <-])%bind_Some. eapply set_loop_inv; [done..|].
    destruct Hinv as [_ _ _ _ He]. by split; [apply (He _ _ _ Hw)|].
  - intros (l & Hw & [= <-])%bind_Some. by eapply leave_inv.
  - intros (l & Hw & [= <-])%bind_Some. by eapply leave_inv.
  - intros [= <-]. by destruct Hinv.
Qed.

Lemma worker_run_inv es p p' : worker_inv p → run_events worker_step es p = Some p' → worker_inv p'.
Proof.
  intros Hp. apply (run_invariant worker_step (λ _, True) worker_inv); [|by apply list.Forall_true|done].
  intros q e q' _. apply worker_step_inv.
Qed.

(** What no event undoes: a retired identity stays retired and its last heartbeat
    stays; a panicked one stays among those heartbeats are sent for. *)
Lemma worker_step_keeps p e p' w :
  worker_inv p → worker_step p e = Some p' →
  (w ∈ wp_retired p → w ∈ wp_retired p' ∧ wp_beats p' !! w = wp_beats p !! w) ∧
  (w ∈ wp_panicked p → w ∈ wp_panicked p').
Proof.
  intros [Hs Hr Hp Hd He].
  assert (∀ x now a, x ∉ wp_retired p → w ∈ wp_retired p → beat now a x (wp_beats p) !! w = wp_beats p !! w) as Hbeat.
  { intros x now [] Hx Hw; simpl; [|done]. apply lookup_insert_ne. set_solver. }
  destruct e as [id now a|x|x id|x now a|x|x|now a]; simpl.
  - destruct (decide _) as [|Hid]; [done|]. intros [= <-]. simpl. split; [|done].
    intros Hw. split; [done|]. apply Hbeat; set_solver.
  - intros ([n []] & Hw & [= <-])%bind_Some. done.
  - intros ([n ph] & Hw & Hn)%bind_Some. destruct (decide _) as [|Hid], ph; simplify_eq. simpl. set_solver.
  - intros ([n []] & Hw & [= <-])%bind_Some. simpl. split; [|done]. intros Hret. split; [done|].
    apply Hbeat; [|done]. apply elem_of_dom_2 in Hw. set_solver.
  - intros (l & Hw & [= <-])%bind_Some. simpl. set_solver.
  - intros (l & Hw & [= <-])%bind_Some. simpl. set_solver.
  - intros [= <-]. simpl. split; [|done]. intros Hw. split; [done|]. unfold beat_all.
    rewrite lookup_union_r; [done|]. apply eq_None_not_Some. intros [t Ht].
    apply lookup_set_to_map in Ht as (x & [_ Hx]%elem_of_filter & [= -> _]); [|by intros ? ? ? ? [= ->]].
    by apply (Hr w).
Qed.

Lemma backoff_bounds n : 1 ≤ n ≤ 6 → 200 ≤ backoff_ms n ≤ 5000 ∧ (n < 6 → 2 * backoff_ms n = 100 * 2 ^ (n + 1)).
Proof.
  intros Hn. assert (n = 1 ∨ n = 2 ∨ n = 3 ∨ n = 4 ∨ n = 5 ∨ n = 6) as Hc by lia.
  repeat destruct Hc as [-> | Hc]; subst; (split; [by vm_compute|by intros; vm_compute]) || lia.
Qed.

(** In every run of the worker table, heartbeats are sent for the identities of
    the running loops and of the loops that panicked, and never for a retired one;
    a worker that reconnects waits between 200 and 5000 milliseconds. *)
Theorem heartbeats_follow_the_workers es p :
  run_events worker_step es worker_pool_new = Some p →
  wp_states p = dom (wp_loops p) ∪ wp_panicked p ∧ wp_retired p ## wp_states p ∧
  ∀ w n, wp_loops p !! w = Some (n, BackingOff) → 200 ≤ backoff_ms n ≤ 5000.
Proof.
  intros Hrun. destruct (worker_run_inv es _ _ worker_inv_new Hrun) as [Hs Hr _ _ He].
  split_and!; [done..|]. intros w n Hw. destruct (He _ _ _ Hw) as [Hn Hb]. simpl in *.
  apply backoff_bounds. specialize (Hb eq_refl). lia.
Qed.

(** *** The invocations of lost workers *)

Lemma worker_run_keeps es p p' w :
  worker_inv p → run_events worker_step es p = Some p' →
  (w ∈ wp_retired p → w ∈ wp_retired p' ∧ wp_beats p' !! w = wp_beats p !! w) ∧
  (w ∈ wp_panicked p → w ∈ wp_panicked p').
Proof.
  intros Hp Hrun. apply (run_invariant worker_step (λ _, True) (λ q, worker_inv q ∧
    (w ∈ wp_retired p → w ∈ wp_retired q ∧ wp_beats q !! w = wp_beats p !! w) ∧
    (w ∈ wp_panicked p → w ∈ wp_panicked q))) in Hrun; [apply Hrun| |by apply list.Forall_true|done].
  intros q e q' _ (Hq & Hret & Hpan) Hstep.
  destruct (worker_step_keeps q e q' w Hq Hstep) as [Hr' Hp']. split; [by eapply worker_step_inv|].
  split; [|auto]. intros Hw. destruct (Hret Hw) as [Hw1 <-]. by apply Hr'.
Qed.

Section owners.
Context {HO : HashOrder} {CH : Chrono}.

(** The invocations of a retired identity are recovered.  From the state [p] in
    which it is retired, whatever the workers and the heartbeats do, once the time
    allowed has passed since the heartbeat it had then, the stale scan returns
    every invocation it left Running. *)
Theorem retired_workers_lose_their_invocations es0 p es p' w o id rec n l c :
  run_events worker_step es0 worker_pool_new = Some p → w ∈ wp_retired p →
  run_events worker_step es p = Some p' → heartbeats o !! w = wp_beats p' !! w →
  status_records o !! id = Some rec → rec_status rec = Running → rec_runner_id rec = Some w →
  match wp_beats p !! w with
  | Some hb => i64_saturating_of_u64 n < elapsed_seconds (clock_next c).1 hb
  | None => rec_timestamp rec < (clock_next c).1 - i64_saturating_of_u64 n * 1000000000
  end →
  result_of (mem_get_stale_running_invocations n) c o = Ok l → id ∈ l.
Proof.
  intros Hrun0 Hw Hrun Ho Hrec Hst Hown Hold Hl.
  apply (worker_run_inv es0 _ _ worker_inv_new) in Hrun0.
  destruct (worker_run_keeps es p p' w Hrun0 Hrun) as [Hret _].
  destruct (Hret Hw) as [_ Hb]. rewrite Hb in Ho.
  apply (stale_running_scan c o n l Hl). exists rec. split_and!; [done..|].
  unfold owner_is_dead. rewrite Hown, Ho. exact Hold.
Qed.

(** The invocations of a worker whose loop panicked are not.  Its identity stays
    in the table, every accepted heartbeat cycle renews it, and as long as the last
    one is not too old the stale scan never returns what it left Running. *)
Theorem panicked_workers_keep_their_invocations es0 p es p' now accepted w o id rec n l c :
  run_events worker_step es0 worker_pool_new = Some p → w ∈ wp_panicked p →
  run_events worker_step (es ++ [HeartbeatTick now accepted]) p = Some p' → accepted w = true →
  heartbeats o !! w = wp_beats p' !! w →
  status_records o !! id = Some rec → rec_runner_id rec = Some w →
  elapsed_seconds (clock_next c).1 now ≤ i64_saturating_of_u64 n →
  result_of (mem_get_stale_running_invocations n) c o = Ok l → id ∉ l.
Proof.
  intros Hrun0 Hw Hrun Hacc Ho Hrec Hown Hold Hl.
  apply (worker_run_inv es0 _ _ worker_inv_new) in Hrun0.
  rewrite run_events_app in Hrun. apply bind_Some in Hrun as (q & Hq & [= <-]).
  destruct (worker_run_keeps es p q w Hrun0 Hq) as [_ Hpan]. specialize (Hpan Hw).
  apply (worker_run_inv es p q Hrun0) in Hq as [Hs _ _ _ _].
  assert (heartbeats o !! w = Some now) as Hhb.
  { rewrite Ho. simpl. unfold beat_all. apply lookup_union_Some_l.
    apply lookup_set_to_map; [by intros ? ? ? ? [= ->]|]. exists w. split; [|done].
    apply elem_of_filter. split; [done|]. set_solver. }
  intros (rec' & Hrec' & _ & Hdead)%(stale_running_scan c o n l Hl). simplify_eq.
  unfold owner_is_dead in Hdead. rewrite Hown, Hhb in Hdead. lia.
Qed.
End owners.

(** ** Witnesses *)

Lemma failure_burst_is_counted_witness :
  let fails := [(0, 1); (5, 6); (12, 13)] in
  log_records (failure_log_with_interval 10) ((λ p, AttemptFails p.1 p.2) <$> fails) =
    ([Some FirstFailure; None; Some (StillFailing 2 0 3)], mkFailureLog 10 0 3 (Some 13)) ∧
  log_record AttemptSucceeds (mkFailureLog 10 0 3 (Some 13)) =
    (Some (RecoveredAfter 3), failure_log_with_interval 10).
Proof.
  split; [vm_compute; reflexivity|].
  apply (failure_burst_is_counted 10 [(0, 1); (5, 6); (12, 13)]); [done|vm_compute; reflexivity].
Defined.

(** A backend that refuses the read of the active runners. *)
Definition denying_ports : @RunnerPorts text_json (Runtime unit) :=
  {| ctl_backend_name := "MongoDB";
     ctl_get_active_runner_ids _ := throw (EConfiguration "not authorized");
     sb_backend_name := "MongoDB";
     br_backend_name := "MongoDB";
     br_count_invocations_in_queues queues t := on_broker (mem_count_invocations_in_queues queues t) |}.

Definition demo_runner_context : StoredRunnerContext :=
  runner_context_current (mkProcess 1 "host" 1) 0 "r1" "PersistentTokioRunner".

Lemma startup_errors_name_the_refusal_witness :
  let m := @startup_check text_json _ demo_ports denying_ports "app" (app_config_new "app") "r1" demo_runner_context in
  let e := refused "app" "orchestrator" "MongoDB" "the active runners read" (EConfiguration "not authorized") in
  result_of m demo_clock (runtime_new tt) = Err e ∧ @refusal_of text_json _ denying_ports "app" e.
Proof.
  intros m e. split; [vm_compute; reflexivity|].
  apply (@startup_errors_name_the_refusal text_json _ demo_ports denying_ports "app" (app_config_new "app") "r1"
    demo_runner_context demo_clock (runtime_new tt)). vm_compute. reflexivity.
Defined.

(** Worker "a" fails and reconnects as "b"; worker "c" panics. *)
Definition demo_worker_events : list worker_event :=
  [WorkerSpawns "a" 0 true; WorkerSpawns "c" 0 true; PollFails "a" "b"; WorkerPanics "c"].
Definition demo_later_events : list worker_event :=
  [WorkerReconnects "b" 1000000000 true; PollSucceeds "b"; HeartbeatTick 2000000000 (λ _, true)].

Definition demo_workers : WorkerPool := default worker_pool_new (run_events worker_step demo_worker_events worker_pool_new).
Definition demo_workers_later : WorkerPool := default worker_pool_new (run_events worker_step demo_later_events demo_workers).

(** Invocations left Running by the workers "a" and "c". *)
Definition demo_left_running : OrchestratorState :=
  with_heartbeats (λ _, wp_beats demo_workers_later)
    (with_status_records (λ _, {["ia" := mkRecord Running (Some "a") 0]} ∪ {["ic" := mkRecord Running (Some "c") 0]})
       orchestrator_new).

Lemma heartbeats_follow_the_workers_witness :
  run_events worker_step demo_worker_events worker_pool_new = Some demo_workers ∧
  wp_states demo_workers = {["b"; "c"]} ∧
  ∀ w n, wp_loops demo_workers !! w = Some (n, BackingOff) → 200 ≤ backoff_ms n ≤ 5000.
Proof.
  assert (run_events worker_step demo_worker_events worker_pool_new = Some demo_workers) as Hrun
    by (vm_compute; reflexivity).
  split; [exact Hrun|]. split; [vm_compute; reflexivity|].
  exact (proj2 (proj2 (heartbeats_follow_the_workers demo_worker_events demo_workers Hrun))).
Defined.

Definition demo_scan : Op (list InvocationId) :=
  @mem_get_stale_running_invocations identity_order chrono_in_seconds 2.
Definition demo_scan_clock : Clock := frozen_clock 4000000000.

Lemma retired_workers_lose_their_invocations_witness :
  result_of demo_scan demo_scan_clock demo_left_running = Ok ["ia"] ∧ "ia" ∈ ["ia"].
Proof.
  assert (result_of demo_scan demo_scan_clock demo_left_running = Ok ["ia"]) as Hl by (vm_compute; reflexivity).
  split; [exact Hl|].
  apply (@retired_workers_lose_their_invocations identity_order chrono_in_seconds demo_worker_events demo_workers
    demo_later_events demo_workers_later "a" demo_left_running "ia" (mkRecord Running (Some "a") 0) 2 ["ia"] demo_scan_clock).
  - vm_compute. reflexivity.
  - assert (wp_retired demo_workers = {["a"]}) as -> by (vm_compute; reflexivity). by apply elem_of_singleton.
  - vm_compute. reflexivity.
  - vm_compute. reflexivity.
  - vm_compute. reflexivity.
  - reflexivity.
  - reflexivity.
  - vm_compute. reflexivity.
  - exact Hl.
Defined.

Lemma panicked_workers_keep_their_invocations_witness :
  result_of demo_scan demo_scan_clock demo_left_running = Ok ["ia"] ∧ "ic" ∉ ["ia"].
Proof.
  assert (result_of demo_scan demo_scan_clock demo_left_running = Ok ["ia"]) as Hl by (vm_compute; reflexivity).
  split; [exact Hl|].
  apply (@panicked_workers_keep_their_invocations identity_order chrono_in_seconds demo_worker_events demo_workers
    [WorkerReconnects "b" 1000000000 true; PollSucceeds "b"] demo_workers_later 2000000000 (λ _, true) "c"
    demo_left_running "ic" (mkRecord Running (Some "c") 0) 2 ["ia"] demo_scan_clock).
  - vm_compute. reflexivity.
  - assert (wp_panicked demo_workers = {["c"]}) as -> by (vm_compute; reflexivity). by apply elem_of_singleton.
  - vm_compute. reflexivity.
  - reflexivity.
  - vm_compute. reflexivity.
  - vm_compute. reflexivity.
  - reflexivity.
  - vm_compute. discriminate.
  - exact Hl.
Defined.
