(* ===== verification/Management.v ===== *)
(** * The management loop of a runner

    Models [management_loop] of [rustvello/src/runner/persistent_tokio/worker.rs]:
    heartbeats of the runner and its workers, recovery, the atomic service and the
    evaluation of the triggers, each at its interval, until the runner is shut down.
    What the loop learns from outside in one turn is a [Turn]: whether shutdown is
    requested, the workers of that moment, and what ends the wait.  The clock's
    readings stand for the instants as well as for the times of day, in any order.

    The theorem says what the loop does for every outcome of every operation, by the
    trace of what it performs. *)
From S2P Require Import Prelude F64 Effects Json Identifiers Status Errors Config Call Invocation Trigger OrchestratorState MemOrchestrator MemOrchestratorFacts MemBroker MemStateBackend MemTrigger TaskCatalog Ports Orchestration Routing TriggerManager TriggerLoop Dispatch Recovery Execution Pools Runner.

(** What ends the wait at the end of a turn. *)
Inductive Wake := SleepEnds | SeesShutdown | GetsSigint | GetsSigterm.

(** [is_shutdown()], [active_worker_ids()] and the [select!] of one turn. *)
Record Turn := mkTurn { tn_shutdown : bool; tn_workers : list RunnerId; tn_wake : Wake }.

(** How far the loop got: it found the shutdown requested, requested it itself, or
    goes on. *)
Inductive LoopEnd := ShutdownFound | ShutdownRequested | GoesOn.

(** The local variables of the loop. *)
(* @src rustvello/src/runner/persistent_tokio/worker.rs 255-292 PersistentTokioRunner::management_loop *)
Record ManagementState := mkManagement {
  ml_last_heartbeat : Z;
  ml_last_recovery_check : Z;
  ml_last_atomic_check : Z;
  ml_last_trigger_eval : Z;
  ml_heartbeat_failures : FailureLog
}.

Section management.
Context {J : JsonValue} {S : Type} {P : Ports S} {EC : ExecutionCodec}.
Context {CH : Chrono} {FP : FloatPowi} {E : Environment} {PF : ParseF64} {UC : UnicodeCase} {G : Glob} {SF : Shuffle}.
Context {SH : Sha256} {SS : SerdeString} (fp : Failpoints).
Context (app_config : AppConfig) (catalog : TaskCatalog) (runner_id : RunnerId).
(** The check interval of the atomic service in nanoseconds: the code converts it
    from minutes, a double, before the loop. *)
Context (atomic_check_interval : Z).

(** ** The loop *)

Definition heartbeat_interval : Z := ac_heartbeat_interval_seconds app_config * 1000000000.
Definition recovery_interval : Z := ac_recovery_check_interval_seconds app_config * 1000000000.
Definition trigger_interval : Z := 5 * 1000000000.

(** [if let Err(e) = op.await { tracing::error!(..) }]. *)
Definition logged {A} (m : M RustvelloError S A) : M RustvelloError S unit := attempt m;; mret tt.

(** [heartbeat_failures.record(&self.heartbeat(..).await)]. *)
(* @src rustvello/src/runner/failure_log.rs 81-88 FailureLog::record *)
Definition beat_recorded (id : RunnerId) (can_run_atomic_service : bool) (l : FailureLog) : M RustvelloError S FailureLog :=
  r ← attempt (control_heartbeat id can_run_atomic_service);
  match r with
  | inl _ => mret (log_record AttemptSucceeds l).2
  | inr _ => now ← utc_now; now' ← utc_now; mret (log_record (AttemptFails now now') l).2
  end.

(* @src rustvello/src/runner/persistent_tokio/worker.rs 294-301 PersistentTokioRunner::management_loop *)
Definition heartbeats (workers : list RunnerId) (ml : ManagementState) : M RustvelloError S ManagementState :=
  t ← utc_now;
  if heartbeat_interval <=? elapsed t (ml_last_heartbeat ml) then
    l ← beat_recorded runner_id true (ml_heartbeat_failures ml);
    l ← for_fold (λ l wid, beat_recorded wid false l) l workers;
    now ← utc_now;
    mret (mkManagement now (ml_last_recovery_check ml) (ml_last_atomic_check ml) (ml_last_trigger_eval ml) l)
  else mret ml.

(* @src rustvello/src/runner/persistent_tokio/worker.rs 303-308 PersistentTokioRunner::management_loop *)
Definition recovery_check (ml : ManagementState) : M RustvelloError S ManagementState :=
  t ← utc_now;
  if recovery_interval <=? elapsed t (ml_last_recovery_check ml) then
    logged (recover_stale_invocations app_config catalog runner_id);;
    now ← utc_now;
    mret (mkManagement (ml_last_heartbeat ml) now (ml_last_atomic_check ml) (ml_last_trigger_eval ml) (ml_heartbeat_failures ml))
  else mret ml.

(* @src rustvello/src/runner/persistent_tokio/worker.rs 362-367 PersistentTokioRunner::evaluate_triggers *)
Definition evaluate_triggers : M RustvelloError S unit :=
  run_trigger_iteration fp app_config catalog runner_id;; mret tt.

(* @src rustvello/src/runner/persistent_tokio/worker.rs 311-328 PersistentTokioRunner::management_loop *)
Definition atomic_service : M RustvelloError S unit :=
  mine ← should_run_atomic_service app_config runner_id;
  if (mine : bool) then
    svc_start ← utc_now;
    match tg_manager (S := S) with Some _ => logged evaluate_triggers | None => mret tt end;;
    svc_end ← utc_now;
    logged (ctl_record_atomic_service_execution runner_id svc_start svc_end)
  else mret tt.

(* @src rustvello/src/runner/persistent_tokio/worker.rs 310-330 PersistentTokioRunner::management_loop *)
Definition atomic_check (ml : ManagementState) : M RustvelloError S ManagementState :=
  t ← utc_now;
  if atomic_check_interval <=? elapsed t (ml_last_atomic_check ml) then
    atomic_service;;
    now ← utc_now;
    mret (mkManagement (ml_last_heartbeat ml) (ml_last_recovery_check ml) now (ml_last_trigger_eval ml) (ml_heartbeat_failures ml))
  else mret ml.

(* @src rustvello/src/runner/persistent_tokio/worker.rs 334-338 PersistentTokioRunner::management_loop *)
Definition trigger_service : M RustvelloError S unit :=
  mine ← should_run_atomic_service app_config runner_id;
  if (mine : bool) then logged evaluate_triggers else mret tt.

(* @src rustvello/src/runner/persistent_tokio/worker.rs 332-341 PersistentTokioRunner::management_loop *)
Definition trigger_check (ml : ManagementState) : M RustvelloError S ManagementState :=
  match tg_manager (S := S) with
  | Some _ =>
      t ← utc_now;
      if trigger_interval <=? elapsed t (ml_last_trigger_eval ml) then
        trigger_service;;
        now ← utc_now;
        mret (mkManagement (ml_last_heartbeat ml) (ml_last_recovery_check ml) (ml_last_atomic_check ml) now (ml_heartbeat_failures ml))
      else mret ml
  | None => mret ml
  end.

(** The body of the loop up to the wait. *)
(* @src rustvello/src/runner/persistent_tokio/worker.rs 293-341 PersistentTokioRunner::management_loop *)
Definition management_turn (workers : list RunnerId) (ml : ManagementState) : M RustvelloError S ManagementState :=
  ml ← heartbeats workers ml;
  ml ← recovery_check ml;
  ml ← atomic_check ml;
  trigger_check ml.

(** The loop over the turns that are given; it goes on when they are used up. *)
(* @src rustvello/src/runner/persistent_tokio/worker.rs 293-360 PersistentTokioRunner::management_loop *)
Fixpoint management_loop (turns : list Turn) (ml : ManagementState) : M RustvelloError S (ManagementState * LoopEnd) :=
  match turns with
  | [] => mret (ml, GoesOn)
  | turn :: turns =>
      if tn_shutdown turn then mret (ml, ShutdownFound)
      else
        ml ← management_turn (tn_workers turn) ml;
        match tn_wake turn with
        | SleepEnds => management_loop turns ml
        | SeesShutdown => mret (ml, ShutdownFound)
        | GetsSigint | GetsSigterm => mret (ml, ShutdownRequested)
        end
  end.

(** ** What it performs *)

(** A reading of the clock, a heartbeat and whether it was accepted, and the other
    operations; a test of the time slot with its answer. *)
Inductive Event :=
| ReadsClock (t : Z)
| Beats (id : RunnerId) (can_run_atomic_service accepted : bool)
| Recovers
| TestsSlot (mine : bool)
| Evaluates
| RecordsService (svc_start svc_end : DateTime).

(** The operation ends, with a value or an error. *)
Definition returns {A} (m : M RustvelloError S A) (c : Clock) (s : S) (c' : Clock) (s' : S) : Prop :=
  (∃ a, m c s = (Ok a, c', s')) ∨ ∃ e, m c s = (Err e, c', s').

(** What an event does to the clock and the backends. *)
Definition performs_event (e : Event) (c : Clock) (s : S) (c' : Clock) (s' : S) : Prop :=
  match e with
  | ReadsClock t => clock_next c = (t, c') ∧ s' = s
  | Beats id can true => control_heartbeat id can c s = (Ok tt, c', s')
  | Beats id can false => ∃ e, control_heartbeat id can c s = (Err e, c', s')
  | Recovers => returns (recover_stale_invocations app_config catalog runner_id) c s c' s'
  | TestsSlot mine => should_run_atomic_service app_config runner_id c s = (Ok mine, c', s')
  | Evaluates => returns (run_trigger_iteration fp app_config catalog runner_id) c s c' s'
  | RecordsService svc_start svc_end =>
      returns (ctl_record_atomic_service_execution runner_id svc_start svc_end) c s c' s'
  end.

(** One after the other. *)
Inductive performs : list Event → Clock → S → Clock → S → Prop :=
| performs_nil c s : performs [] c s c s
| performs_cons e es c s c1 s1 c' s' :
    performs_event e c s c1 s1 → performs es c1 s1 c' s' → performs (e :: es) c s c' s'.

(** An operation of the loop panics. *)
Definition panics_in (p : string) (c : Clock) (s : S) (c' : Clock) (s' : S) : Prop :=
  (∃ id can, control_heartbeat id can c s = (Panic p, c', s')) ∨
  (∃ n, should_run_atomic_service app_config n c s = (Panic p, c', s')) ∨
  (∃ n, recover_stale_invocations app_config catalog n c s = (Panic p, c', s')) ∨
  (∃ n, run_trigger_iteration fp app_config catalog n c s = (Panic p, c', s')) ∨
  (∃ n t t', ctl_record_atomic_service_execution n t t' c s = (Panic p, c', s')).

(** *** What a turn should perform *)

(** A heartbeat with the instants its failure is logged at. *)
Definition beat_events (b : RunnerId * bool * Attempted) : list Event :=
  let '(id, can, a) := b in
  match a with
  | AttemptSucceeds => [Beats id can true]
  | AttemptFails now now' => [Beats id can false; ReadsClock now; ReadsClock now']
  end.

(** When the interval has passed since [last], [body] and a reading of the clock,
    which is the new [last]; else nothing. *)
Definition at_interval (interval last : Z) (body : list Event → Prop) (evs : list Event) (last' : Z) : Prop :=
  ∃ t, if interval <=? elapsed t last
       then ∃ es, body es ∧ evs = ReadsClock t :: es ++ [ReadsClock last']
       else evs = [ReadsClock t] ∧ last' = last.

Definition heartbeats_trace (workers : list RunnerId) (ml : ManagementState) (evs : list Event) (last' : Z)
    (l' : FailureLog) : Prop :=
  ∃ t, if heartbeat_interval <=? elapsed t (ml_last_heartbeat ml)
       then ∃ beats : list (RunnerId * bool * Attempted),
              beats.*1 = (runner_id, true) :: ((λ w, (w, false)) <$> workers) ∧
              evs = ReadsClock t :: (beats ≫= beat_events) ++ [ReadsClock last'] ∧
              l' = (log_records (ml_heartbeat_failures ml) (beats.*2)).2
       else evs = [ReadsClock t] ∧ last' = ml_last_heartbeat ml ∧ l' = ml_heartbeat_failures ml.

(** The triggers, when there is a trigger manager. *)
Definition evaluations : list Event := match tg_manager (S := S) with Some _ => [Evaluates] | None => [] end.

Definition atomic_trace (es : list Event) : Prop :=
  es = [TestsSlot false] ∨
  ∃ t t', es = TestsSlot true :: ReadsClock t :: evaluations ++ [ReadsClock t'; RecordsService t t'].

Definition trigger_trace (ml : ManagementState) (evs : list Event) (last' : Z) : Prop :=
  match tg_manager (S := S) with
  | Some _ => at_interval trigger_interval (ml_last_trigger_eval ml)
                (λ es, es = [TestsSlot false] ∨ es = [TestsSlot true; Evaluates]) evs last'
  | None => evs = [] ∧ last' = ml_last_trigger_eval ml
  end.

(** A turn: the four parts in order, each at its interval. *)
Inductive turn_trace (workers : list RunnerId) (ml : ManagementState) : list Event → ManagementState → Prop :=
| turn_parts e1 e2 e3 e4 t1 t2 t3 t4 l :
    heartbeats_trace workers ml e1 t1 l →
    at_interval recovery_interval (ml_last_recovery_check ml) (λ es, es = [Recovers]) e2 t2 →
    at_interval atomic_check_interval (ml_last_atomic_check ml) atomic_trace e3 t3 →
    trigger_trace ml e4 t4 →
    turn_trace workers ml (e1 ++ e2 ++ e3 ++ e4) (mkManagement t1 t2 t3 t4 l).

Inductive loop_trace : list Turn → ManagementState → list Event → ManagementState → Prop :=
| loop_nil ml : loop_trace [] ml [] ml
| loop_cons turn turns ml evs ml1 evs' ml' :
    turn_trace (tn_workers turn) ml evs ml1 → loop_trace turns ml1 evs' ml' →
    loop_trace (turn :: turns) ml (evs ++ evs') ml'.

(** The turns that are run: up to the first that finds or gets a request to stop. *)
Fixpoint turns_run (turns : list Turn) : list Turn :=
  match turns with
  | [] => []
  | turn :: turns =>
      if tn_shutdown turn then []
      else turn :: match tn_wake turn with SleepEnds => turns_run turns | _ => [] end
  end.

(** A signal makes the loop request the shutdown. *)
Fixpoint loop_end (turns : list Turn) : LoopEnd :=
  match turns with
  | [] => GoesOn
  | turn :: turns =>
      if tn_shutdown turn then ShutdownFound
      else match tn_wake turn with
           | SleepEnds => loop_end turns
           | SeesShutdown => ShutdownFound
           | GetsSigint | GetsSigterm => ShutdownRequested
           end
  end.

(** ** Lemmas *)

Lemma performs_app es es' c s c1 s1 c' s' :
  performs es c s c1 s1 → performs es' c1 s1 c' s' → performs (es ++ es') c s c' s'.
Proof. induction 1; [done|]. intros. econstructor; eauto. Qed.

Lemma performs_one e c s c' s' : performs_event e c s c' s' → performs [e] c s c' s'.
Proof. intros. econstructor; [done|constructor]. Qed.

(** [m] performs events that fit its result as [Q] says, whatever the backends do,
    unless one of its operations panics. *)
Definition does {A} (m : M RustvelloError S A) (Q : list Event → A → Prop) : Prop :=
  ∀ c s, match m c s with
         | (Ok a, c', s') => ∃ evs, Q evs a ∧ performs evs c s c' s'
         | (Err _, _, _) => False
         | (Panic p, c', s') => ∃ evs c1 s1, performs evs c s c1 s1 ∧ panics_in p c1 s1 c' s'
         end.

Lemma does_mono {A} m (Q Q' : list Event → A → Prop) : (∀ evs a, Q evs a → Q' evs a) → does m Q → does m Q'.
Proof.
  intros HQ Hm c s. specialize (Hm c s). destruct (m c s) as [[[a|e|p] c'] s']; [|done..].
  destruct Hm as (evs & H1 & H2). eauto.
Qed.

Lemma does_ret {A} (a : A) : does (mret a) (λ evs b, evs = [] ∧ b = a).
Proof. intros c s. exists []. by repeat constructor. Qed.

Lemma does_bind {A B} (m : M RustvelloError S A) (f : A → M RustvelloError S B) Q R :
  does m Q → (∀ a, does (f a) (R a)) →
  does (m ≫= f) (λ evs b, ∃ e1 e2 a, evs = e1 ++ e2 ∧ Q e1 a ∧ R a e2 b).
Proof.
  intros Hm Hf c s. specialize (Hm c s). unfold mbind, M_bind. destruct (m c s) as [[[a|e|p] c1] s1]; [|done..].
  destruct Hm as (e1 & HQ & H1). specialize (Hf a c1 s1). destruct (f a c1 s1) as [[[b|e|p] c2] s2]; [|done|].
  - destruct Hf as (e2 & HR & H2). exists (e1 ++ e2). split; [naive_solver|]. by eapply performs_app.
  - destruct Hf as (e2 & c3 & s3 & H2 & Hp). exists (e1 ++ e2), c3, s3. split; [by eapply performs_app|done].
Qed.

Lemma does_now : does utc_now (λ evs t, evs = [ReadsClock t]).
Proof. intros c s. eexists. split; [done|]. by apply performs_one. Qed.

Lemma does_logged {A} (m : M RustvelloError S A) e :
  (∀ c s c' s', returns m c s c' s' → performs_event e c s c' s') →
  (∀ p c s c' s', m c s = (Panic p, c', s') → panics_in p c s c' s') →
  does (logged m) (λ evs _, evs = [e]).
Proof.
  intros He Hp c s. unfold logged, mbind, M_bind, attempt, mret, M_ret.
  destruct (m c s) as [[[a|e'|p] c'] s'] eqn:Hm.
  - exists [e]. split; [done|]. apply performs_one, He. left. eauto.
  - exists [e]. split; [done|]. apply performs_one, He. right. eauto.
  - exists [], c, s. split; [constructor|by apply Hp].
Qed.

(** The test of the time slot has no error: a failing read of the runners is a no. *)
Lemma slot_test_returns id c s e : result_of (should_run_atomic_service app_config id) c s ≠ Err e.
Proof.
  unfold result_of, should_run_atomic_service.
  set (m := ctl_get_active_runners (ac_runner_dead_after_seconds app_config) (Some true)). clearbody m.
  unfold mbind, M_bind, attempt. destruct (m c s) as [[[l|e'|p] c1] s1]; [|done..].
  destruct l as [|r1 [|r2 rs]]; [done..|]. by destruct (runner_position id _).
Qed.

Lemma does_slot : does (should_run_atomic_service app_config runner_id) (λ evs mine, evs = [TestsSlot mine]).
Proof.
  intros c s. destruct (should_run_atomic_service app_config runner_id c s) as [[[a|e|p] c'] s'] eqn:Hm.
  - eexists. split; [done|]. by apply performs_one.
  - apply (slot_test_returns runner_id c s e). unfold result_of. by rewrite Hm.
  - exists [], c, s. split; [constructor|]. right; left. eauto.
Qed.

Lemma does_evaluate : does (logged evaluate_triggers) (λ evs _, evs = [Evaluates]).
Proof.
  apply does_logged.
  - intros c s c' s'. unfold performs_event, returns, evaluate_triggers. unfold mbind, M_bind.
    set (m := run_trigger_iteration fp app_config catalog runner_id). clearbody m.
    destruct (m c s) as [[[a|e|p] c1] s1]; intros [[? [=]]|[? [=]]]; subst; eauto.
  - intros p c s c' s'. unfold evaluate_triggers, panics_in. unfold mbind at 1, M_bind at 1.
    destruct (run_trigger_iteration fp app_config catalog runner_id c s) as [[[a|e|p'] c1] s1] eqn:Hr; intros [=]; subst.
    do 3 right. left. eauto.
Qed.

Lemma does_recover : does (logged (recover_stale_invocations app_config catalog runner_id)) (λ evs _, evs = [Recovers]).
Proof. apply does_logged; [done|]. intros. do 2 right. left. eauto. Qed.

Lemma does_record t t' :
  does (logged (ctl_record_atomic_service_execution runner_id t t')) (λ evs _, evs = [RecordsService t t']).
Proof. apply does_logged; [done|]. intros. do 4 right. eauto. Qed.

Lemma does_beat id can l :
  does (beat_recorded id can l) (λ evs l', ∃ a, evs = beat_events (id, can, a) ∧ l' = (log_record a l).2).
Proof.
  intros c s. unfold beat_recorded, mbind, M_bind, attempt, mret, M_ret, utc_now.
  destruct (control_heartbeat id can c s) as [[[[]|e|p] c1] s1] eqn:Hm.
  - exists [Beats id can true]. split; [by exists AttemptSucceeds|]. by apply performs_one.
  - eexists [_; _; _]. split; [eexists (AttemptFails _ _); done|].
    econstructor; [by exists e|]. econstructor; [done|]. econstructor; [done|]. constructor.
  - exists [], c, s. split; [constructor|]. left. eauto.
Qed.

Lemma does_beats ws l :
  does (for_fold (λ l wid, beat_recorded wid false l) l ws)
    (λ evs l', ∃ beats, beats.*1 = (λ w, (w, false)) <$> ws ∧ evs = beats ≫= beat_events ∧
       l' = (log_records l (beats.*2)).2).
Proof.
  revert l. induction ws as [|w ws IH]; intros l; cbn [for_fold].
  - eapply does_mono; [|apply does_ret]. intros evs l' [-> ->]. by exists [].
  - eapply does_mono; [|apply does_bind; [apply does_beat|intros l1; apply IH]].
    intros evs l' (e1 & e2 & l1 & -> & (a & -> & ->) & (beats & Hb & -> & ->)).
    exists ((w, false, a) :: beats). split_and!; [by rewrite !fmap_cons, Hb|done|]. simpl.
    destruct (log_record a l) as [line l1]. simpl. by destruct (log_records l1 _).
Qed.

Lemma does_heartbeats ws ml :
  does (heartbeats ws ml) (λ evs ml', ∃ last' l', heartbeats_trace ws ml evs last' l' ∧
    ml' = mkManagement last' (ml_last_recovery_check ml) (ml_last_atomic_check ml) (ml_last_trigger_eval ml) l').
Proof.
  unfold heartbeats, heartbeats_trace. eapply does_mono; [|eapply does_bind; [apply does_now|intros t]].
  2:{ instantiate (1 := λ t evs ml', ∃ last' l',
        (if heartbeat_interval <=? elapsed t (ml_last_heartbeat ml)
         then ∃ beats : list (RunnerId * bool * Attempted),
                beats.*1 = (runner_id, true) :: ((λ w, (w, false)) <$> ws) ∧
                evs = (beats ≫= beat_events) ++ [ReadsClock last'] ∧
                l' = (log_records (ml_heartbeat_failures ml) (beats.*2)).2
         else evs = [] ∧ last' = ml_last_heartbeat ml ∧ l' = ml_heartbeat_failures ml) ∧
        ml' = mkManagement last' (ml_last_recovery_check ml) (ml_last_atomic_check ml) (ml_last_trigger_eval ml) l').
      simpl. destruct (heartbeat_interval <=? elapsed t (ml_last_heartbeat ml)).
      - eapply does_mono; [|apply does_bind; [apply does_beat|intros l1];
          apply does_bind; [apply does_beats|intros l2]; apply does_bind; [apply does_now|intros now; apply does_ret]].
        intros evs ml' (e1 & e2 & l1 & -> & (a & -> & ->) & e3 & e4 & l2 & -> & (beats & Hb & -> & ->) &
          e5 & e6 & now & -> & -> & -> & ->).
        exists now. eexists. split; [|done]. exists ((runner_id, true, a) :: beats).
        split_and!; [by rewrite fmap_cons, Hb|by rewrite bind_cons, <-app_assoc|].
        simpl. destruct (log_record a (ml_heartbeat_failures ml)) as [line l1]. simpl. by destruct (log_records l1 _).
      - eapply does_mono; [|apply does_ret]. intros evs ml' [-> ->]. do 2 eexists. split; [done|]. by destruct ml. }
  intros evs ml' (e1 & e2 & t & -> & -> & last' & l' & Hif & ->). exists last', l'. split; [|done]. exists t.
  destruct (heartbeat_interval <=? _); [|naive_solver]. destruct Hif as (beats & ? & -> & ->). by exists beats.
Qed.

(** A part of the turn that runs at its interval. *)
Lemma does_interval (interval last : Z) (body : M RustvelloError S unit) B (upd : Z → ManagementState) ml :
  does body (λ es _, B es) → ml = upd last →
  does (t ← utc_now;
        if interval <=? elapsed t last then body;; now ← utc_now; mret (upd now) else mret ml)
    (λ evs ml', ∃ last', at_interval interval last B evs last' ∧ ml' = upd last').
Proof.
  intros Hbody Hml.
  eapply does_mono; [|eapply (does_bind _ _ _ (λ t evs ml',
    if interval <=? elapsed t last then ∃ es last', B es ∧ evs = es ++ [ReadsClock last'] ∧ ml' = upd last'
    else evs = [] ∧ ml' = upd last)); [apply does_now|intros t; simpl]].
  - intros evs ml' (e1 & e2 & t & -> & -> & Hif). destruct (interval <=? elapsed t last) eqn:Hd.
    + destruct Hif as (es & last' & ? & -> & ->). exists last'. split; [|done]. exists t. rewrite Hd. by exists es.
    + destruct Hif as [-> ->]. exists last. split; [|done]. exists t. by rewrite Hd.
  - destruct (interval <=? elapsed t last).
    + eapply does_mono; [|apply does_bind; [exact Hbody|intros u];
        apply does_bind; [apply does_now|intros now; apply does_ret]].
      intros evs ml' (e1 & e2 & u & -> & ? & e3 & e4 & now & -> & -> & -> & ->). by exists e1, now.
    + eapply does_mono; [|apply does_ret]. by intros evs ml' [-> ->].
Qed.

Lemma does_atomic_service : does atomic_service (λ es _, atomic_trace es).
Proof.
  eapply does_mono; [|eapply (does_bind _ _ _ (λ mine es (_ : unit), if (mine : bool) then
      ∃ t t', es = ReadsClock t :: evaluations ++ [ReadsClock t'; RecordsService t t'] else es = []));
    [apply does_slot|intros mine]].
  - intros evs u (e1 & e2 & mine & -> & -> & Hes). unfold atomic_trace.
    destruct mine; [right; destruct Hes as (t & t' & ->); by exists t, t'|left; by rewrite Hes].
  - destruct mine; [|eapply does_mono; [|apply does_ret]; by intros evs u [-> ->]].
    eapply does_mono; [|apply does_bind; [apply does_now|intros t];
      apply (does_bind _ _ (λ es _, es = evaluations)); [|intros u]; [|apply does_bind; [apply does_now|intros t'; apply does_record]]].
    + intros evs u (e1 & e2 & t & -> & -> & e3 & e4 & u' & -> & -> & e5 & e6 & t' & -> & -> & ->). by exists t, t'.
    + unfold evaluations. destruct tg_manager; [apply does_evaluate|].
      eapply does_mono; [|apply does_ret]. by intros evs u [-> ->].
Qed.

Lemma does_trigger_service : does trigger_service (λ es _, es = [TestsSlot false] ∨ es = [TestsSlot true; Evaluates]).
Proof.
  eapply does_mono; [|eapply (does_bind _ _ _ (λ mine es (_ : unit), es = if (mine : bool) then [Evaluates] else []));
    [apply does_slot|intros mine]].
  - intros evs u (e1 & e2 & [] & -> & -> & ->); [by right|by left].
  - destruct mine; [apply does_evaluate|]. eapply does_mono; [|apply does_ret]. by intros evs u [-> ->].
Qed.

Lemma does_trigger_check ml :
  does (trigger_check ml) (λ evs ml', ∃ last', trigger_trace ml evs last' ∧ ml' =
    mkManagement (ml_last_heartbeat ml) (ml_last_recovery_check ml) (ml_last_atomic_check ml) last' (ml_heartbeat_failures ml)).
Proof.
  unfold trigger_check, trigger_trace. destruct tg_manager.
  - apply (does_interval trigger_interval (ml_last_trigger_eval ml) trigger_service _ (λ last',
      mkManagement (ml_last_heartbeat ml) (ml_last_recovery_check ml) (ml_last_atomic_check ml) last' (ml_heartbeat_failures ml)));
      [apply does_trigger_service|by destruct ml].
  - eapply does_mono; [|apply does_ret]. intros evs ml' [-> ->]. eexists. split; [done|]. by destruct ml.
Qed.

Lemma does_turn ws ml : does (management_turn ws ml) (turn_trace ws ml).
Proof.
  unfold management_turn.
  eapply does_mono; [|apply does_bind; [apply does_heartbeats|intros ml1];
    apply does_bind; [apply (does_interval recovery_interval (ml_last_recovery_check ml1)
      (logged (recover_stale_invocations app_config catalog runner_id)) (λ es, es = [Recovers]) (λ last',
      mkManagement (ml_last_heartbeat ml1) last' (ml_last_atomic_check ml1) (ml_last_trigger_eval ml1) (ml_heartbeat_failures ml1)));
      [apply does_recover|by destruct ml1]|intros ml2];
    apply does_bind; [apply (does_interval atomic_check_interval (ml_last_atomic_check ml2) atomic_service atomic_trace (λ last',
      mkManagement (ml_last_heartbeat ml2) (ml_last_recovery_check ml2) last' (ml_last_trigger_eval ml2) (ml_heartbeat_failures ml2)));
      [apply does_atomic_service|by destruct ml2]|intros ml3; apply does_trigger_check]].
  intros evs ml' (e1 & r1 & ml1 & -> & (t1 & l & H1 & ->) & e2 & r2 & ml2 & -> & (t2 & H2 & ->) &
    e3 & e4 & ml3 & -> & (t3 & H3 & ->) & (t4 & H4 & ->)).
  by constructor.
Qed.

(** C36: the management loop of a runner, for every outcome of its operations:
    heartbeats, recovery, the test of the time slot, trigger evaluation and the record
    of the atomic service may each return an error at any time.  No error ends the
    loop or makes it skip anything: it runs turn after turn until shutdown is requested
    or a signal arrives (then it requests the shutdown itself), and a turn performs, in
    order, everything whose interval has passed on the clock since it was last done -
    one heartbeat of the runner and one of each worker, a recovery, the atomic service
    (its time slot, and in it the evaluation and the record), and the triggers of this
    runner's slot - and then notes the time.  The failure log has counted every
    heartbeat that failed.  Only a panic of one of the operations, or of the conversion
    of the check interval before the loop, ends it otherwise. *)
Theorem management_loop_behaviour turns ml c s :
  match management_loop turns ml c s with
  | (Ok (ml', e), c', s') =>
      e = loop_end turns ∧ ∃ evs, loop_trace (turns_run turns) ml evs ml' ∧ performs evs c s c' s'
  | (Err _, _, _) => False
  | (Panic p, c', s') => ∃ evs c1 s1, performs evs c s c1 s1 ∧ panics_in p c1 s1 c' s'
  end.
Proof.
  enough (does (management_loop turns ml) (λ evs r, r.2 = loop_end turns ∧ loop_trace (turns_run turns) ml evs r.1)) as Hd.
  { specialize (Hd c s). destruct (management_loop turns ml c s) as [[[[ml' e]|e|p] c'] s']; [|done..]. naive_solver. }
  clear c s. revert ml. induction turns as [|[stop ws wake] turns IH]; intros ml; simpl.
  { eapply does_mono; [|apply does_ret]. intros evs r [-> ->]. by repeat constructor. }
  destruct stop; [eapply does_mono; [|apply does_ret]; intros evs r [-> ->]; by repeat constructor|].
  destruct wake; (eapply does_mono; [|apply does_bind; [apply does_turn|intros ml1; first [apply IH|apply does_ret]]]);
    intros evs r (e1 & e2 & ml1 & -> & Ht & Hr).
  - destruct Hr as [He Hl]. split; [done|]. by econstructor.
  - destruct Hr as [-> ->]. split; [done|]. by repeat econstructor.
  - destruct Hr as [-> ->]. split; [done|]. by repeat econstructor.
  - destruct Hr as [-> ->]. split; [done|]. by repeat econstructor.
Qed.
End management.
