(* ===== verification/Lifecycle.v ===== *)
(** * From a submission to its result

    Composes Routing (submission), Dispatch (claims) and Execution on the in-memory
    backends: a call is submitted while nothing is queued and nobody waits, and a
    worker of its language polls.  One theorem follows the invocation through all
    three components, from the caller's submission to its stored result. *)
From S2P Require Import Prelude F64 Effects Json Identifiers Status Errors Config Call Invocation Trigger OrchestratorState MemOrchestrator MemOrchestratorFacts MemBroker MemStateBackend MemTrigger TaskCatalog Ports Orchestration Routing Dispatch Execution Runner.

Section lifecycle.
Context {J : JsonValue} {HO : HashOrder} {CH : Chrono} {T : Type} {EC : ExecutionCodec}.
Context {FP : FloatPowi} {E : Environment} {PF : ParseF64} {UC : UnicodeCase} {G : Glob} {SF : Shuffle}.
Context {SH : Sha256} {SS : SerdeString} {W : W3C} (delay : Z).
#[local] Instance untriggered : Ports (Runtime T) := mem_ports None delay.
#[local] Instance untriggered_laws : PortLaws untriggered runtime_view := mem_port_laws None delay.

(** A claim from a queue that holds one entry, whose invocation is not under a limit
    that is reached. *)
Lemma claim_single am config registry lang q e c s :
  waiters (rt_control s) = ∅ → retrieval_queues config = [q] → valid_queue_name q = true →
  rt_broker s = [e] → q_queue_name e = q → q_not_before e = None →
  default Rust (task_language <$> q_task_id e) = lang →
  match limited (runtime_view s) registry (q_invocation_id e) with
  | Some (i, cfg, args) => Z.of_nat (other_holders s (q_invocation_id e) (inv_task_id i) args) < concurrency_limit cfg
  | None => True
  end →
  ∃ c' s', claim_next am config registry lang c s = (Ok (Some (q_invocation_id e)), c', s') ∧
    runtime_view s' = set_v_queue (λ _, []) (runtime_view s).
Proof.
  intros Hw Hq Hv Hb Hn Hd Hl Hfree.
  destruct (poll_single None delay config lang q e c s Hq Hv Hb Hn Hd Hl) as (c1 & s1 & Hpoll & Hc1 & Hs1 & Hb1).
  assert (runtime_view s1 = set_v_queue (λ _, []) (runtime_view s)) as Hv1.
  { unfold runtime_view, set_v_queue. simpl. by rewrite Hc1, Hs1, Hb1. }
  assert (∃ s2, admit_candidate am registry (q_invocation_id e) c1 s1 = (Ok true, c1, s2) ∧
                runtime_view s2 = runtime_view s1) as (s2 & Hadmit & Hv2).
  { unfold untriggered. rewrite admit_run.
    assert (limited (runtime_view s1) registry (q_invocation_id e) =
            limited (runtime_view s) registry (q_invocation_id e)) as -> by (by rewrite Hv1).
    destruct (limited (runtime_view s) registry (q_invocation_id e)) as [[[i cfg] args]|]; [|exists s1; by split].
    unfold other_holders in *. rewrite Hc1. rewrite (proj2 (Z.leb_gt _ _) Hfree).
    eexists. split; [done|]. unfold runtime_view. simpl. by rewrite Hc1. }
  exists c1, s2. split; [|by rewrite Hv2].
  assert (attempt (ctl_get_blocking_invocations MAX_BLOCKING_CANDIDATES) c s = (Ok (inl []), c, s)) as Hblock.
  { simpl. unfold attempt, on_control, zoom, mem_get_blocking_invocations, gets.
    rewrite Hw, map_iter_empty. by destruct s. }
  unfold claim_next. rewrite (bind_run _ _ _ _ _ _ _ Hblock). simpl claim_blocking.
  rewrite (bind_run (mret None) _ _ _ _ _ _ eq_refl).
  change (claim_queued am config registry lang MAX_CC_RETRIES) with
    (claim_queued am config registry lang (Datatypes.S 7)).
  rewrite claim_queued_unfold, (bind_run _ _ _ _ _ _ _ Hpoll), (bind_run _ _ _ _ _ _ _ Hadmit). done.
Qed.

(** The slots taken are read off the index. *)
Lemma slot_holders_indexed x x' key pairs :
  cc_index x' = cc_index x → slot_holders x' key pairs = slot_holders x key pairs.
Proof.
  intros Hcc. unfold slot_holders. f_equal. generalize (@None (gset InvocationId)).
  induction pairs as [|[k v] pairs IH]; intros acc; [done|]. simpl. by rewrite Hcc, IH.
Qed.

(** A submission touches neither the table of waiters nor the index of slots. *)
Definition same_waiting (s s' : Runtime T) : Prop :=
  waiters (rt_control s') = waiters (rt_control s) ∧ cc_index (rt_control s') = cc_index (rt_control s).

#[local] Instance same_waiting_preorder : PreOrder same_waiting.
Proof. split; unfold same_waiting; repeat intro; intuition congruence. Qed.

Lemma zoom_waiting {U A} (get : Runtime T → U) put (m : M RustvelloError U A) :
  (∀ y s, rt_control (put y s) = rt_control s) → respects same_waiting (zoom get put m).
Proof. intros Hput. apply respects_zoom with (R := λ _ _, True); [|done]. intros t y _. unfold same_waiting. by rewrite Hput. Qed.

Lemma submission_waiting app_config catalog am fresh call explicit :
  respects same_waiting (submit_with_id app_config catalog am fresh call explicit None).
Proof.
  enough (respects same_waiting (lift (ok_or (catalog_get catalog (cd_task_id call)) (ETaskNotRegistered (cd_task_id call)))
    ≫= λ task, submit_task app_config catalog am fresh call explicit task None)) as H by exact H.
  apply respects_bind; [apply _|apply respects_lift; apply _|intros task].
  unfold submit_task, ensure_runner_context_stored, record_history. simpl.
  assert (∀ id call r, respects same_waiting (on_control (T := T) (mem_register_invocation_with_id id call r))) as Hreg
    by (intros id call' r c s; done).
  destruct (resolve_workflow am fresh (cd_task_id call) _) as [parent workflow].
  repeat first [apply Hreg | apply zoom_waiting; done | respects_step]; by apply respects_modify.
Qed.

Section submitted.
Context (app_config : AppConfig) (catalog : TaskCatalog) (middlewares : list (TaskMiddleware (S := Runtime T))).
Context (caller : Ambient) (fresh : InvocationId) (call : CallDTO) (explicit : option TraceContextCarrier).
Context (task : DynTask) (worker : RunnerId) (drawn : nat) (random_unit : f64).

(** The configuration the submission and the execution resolve. *)
Definition call_config : TaskConfig := resolved catalog app_config (cd_task_id call) (dt_config task).

Definition submission : M RustvelloError (Runtime T) InvocationId :=
  submit_with_id app_config catalog caller fresh call explicit None.

(** The worker's poll, for an attempt that ends as [run] says. *)
Definition poll (am : Ambient) (lang : TaskLanguage) (run : InvocationId → ∀ limits, AttemptRun limits)
    : M RustvelloError (Runtime T) bool :=
  run_one_as_worker app_config catalog middlewares am (cat_registry catalog) lang worker drawn random_unit run.

(** The statuses an invocation has had. *)
Definition status_history (v : RuntimeView) (id : InvocationId) : list InvocationStatus :=
  rec_status ∘ hist_status_record <$> entries (v_histories v) id.

Lemma status_history_add v h id :
  status_history (add_v_history h v) id =
    status_history v id ++ (if decide (hist_invocation_id h = id) then [rec_status (hist_status_record h)] else []).
Proof.
  unfold status_history, add_v_history, entries, push_entry. simpl. destruct (decide _) as [<-|Hne].
  - rewrite lookup_insert_eq. simpl. by rewrite fmap_app.
  - by rewrite lookup_insert_ne, app_nil_r by done.
Qed.

Lemma status_history_changed id rec w v :
  status_history (changed id rec w v) id = status_history v id ++ [rec_status rec].
Proof. unfold changed. rewrite status_history_add, decide_True by done. done. Qed.

(** Nothing is stored under an id that was never submitted. *)
Definition unused (v : RuntimeView) (id : InvocationId) : Prop :=
  entries (v_histories v) id = [] ∧ v_datum v id IDENTITY_KEY = None.

(** How the poll of a submitted call ends: the invocation has had three statuses and
    then [st]. *)
Definition call_reached (st : InvocationStatus) (r : RustvelloResult bool) (v' : RuntimeView) : Prop :=
  r = Ok true ∧ rec_status <$> v_status v' !! fresh = Some st ∧
  status_history v' fresh = [Registered; Pending; Running; st].

Definition submitted_call_ended (result : RustvelloResult string) (interruption : option Interruption)
    (r : RustvelloResult bool) (v' : RuntimeView) : Prop :=
  match result with
  | Ok value => call_reached Success r v' ∧ v_results v' !! fresh = Some value ∧ v_queue v' = []
  | Err e =>
      let error := task_error_of e in
      if should_retry (dt_config task) call_config 0 (timed_out interruption) error
      then call_reached Retry r v' ∧ ∃ entry, v_queue v' = [entry] ∧
             retry_entry (retry_delay call_config 0 random_unit * 1000000) fresh (cd_task_id call)
               (tc_queue call_config) (tc_priority call_config) entry
      else call_reached Failed r v' ∧ v_queue v' = [] ∧
           v_errors v' !! fresh = Some (mkTaskError (error_type error) (error_message error) None)
  | Panic p => r = Panic p
  end.

(** The retries so far, from the statuses. *)
Lemma retries_of_statuses v id :
  retries_of (entries (v_histories v) id) =
    Z.of_nat (length (bfilter (λ st, bool_decide (st = Retry)) (status_history v id))) mod 4294967296.
Proof.
  unfold retries_of, status_history. do 2 f_equal. induction (entries _ _) as [|h l IH]; [done|].
  unfold bfilter in *. simpl. by case_bool_decide; simpl; rewrite IH.
Qed.

Lemma no_retries v id l : status_history v id = l → Retry ∉ l → retries_of (entries (v_histories v) id) = 0.
Proof.
  intros Hh Hl. rewrite retries_of_statuses, Hh. assert (bfilter (λ st, bool_decide (st = Retry)) l = []) as ->; [|done].
  unfold bfilter. clear Hh. induction l as [|st l IH]; [done|]. simpl. rewrite bool_decide_false by set_solver. apply IH. set_solver.
Qed.

Lemma poll_runs am lang e q c s c1 s1 r v :
  claim_next am app_config (cat_registry catalog) lang c s = (Ok (Some q), c1, s1) →
  yields runtime_view (execute_invocation_common app_config catalog middlewares worker drawn random_unit q (e q)) c1 s1 r v →
  yields runtime_view (poll am lang e) c s (r ≫= λ _, Ok true) v.
Proof.
  intros Hc (c2 & s2 & Hr & Hv). exists c2, s2. unfold poll, run_one_as_worker.
  rewrite (bind_run _ _ _ _ _ _ _ Hc). unfold mbind at 1, M_bind. rewrite Hr. by destruct r.
Qed.
(** What a submission leaves, when its task is known and its route is valid. *)
Lemma submission_leaves trace c s :
  catalog_get catalog (cd_task_id call) = Some task → resolve_trace_context caller explicit = Ok trace →
  validate_routing (tc_queue call_config) (tc_priority call_config) = Ok tt →
  v_queue (runtime_view s) = [] →
  result_of submission c s = Ok fresh ∧
  ∃ created registered noted,
    runtime_view (state_after submission c s) =
      set_v_queue (λ _, [entry_now fresh (Some (cd_task_id call)) (tc_queue call_config) (tc_priority call_config)])
        (submitted_view app_config caller fresh call call_config trace created registered noted (runtime_view s)).
Proof.
  intros Htask Htrace Hroute Hq.
  pose proof (submission_run runtime_view app_config catalog caller fresh call explicit None c s) as Hsub.
  cbv zeta in Hsub. rewrite Htask, Htrace in Hsub. fold call_config in Hsub.
  destruct Hsub as (created & registered & noted & Hsub). rewrite Hroute in Hsub. destruct Hsub as [Hok Hv].
  split; [exact Hok|]. exists created, registered, noted. etrans; [exact Hv|].
  unfold submitted_view in *. destruct (resolve_workflow _ _ _ _) as [parent workflow].
  unfold set_v_queue. simpl. simpl in Hq. by rewrite Hq.
Qed.

(** The invocation a submission stores. *)
Lemma submitted_lookups trace created registered noted v :
  let v1 := submitted_view app_config caller fresh call call_config trace created registered noted v in
  (∃ inv, v_invocations v1 !! fresh = Some inv ∧ inv_id inv = fresh ∧ inv_task_id inv = cd_task_id call ∧
     inv_call_id inv = cd_call_id call) ∧
  v_calls v1 !! call_id_display (cd_call_id call) = Some call ∧
  (∃ r t, v_status v1 !! fresh = Some (mkRecord Registered r t)) ∧
  status_history v1 fresh = status_history v fresh ++ [Registered] ∧ v_data v1 = v_data v.
Proof.
  unfold submitted_view. destruct (resolve_workflow _ _ _ _) as [parent workflow]. cbv zeta. split_and!.
  - destruct workflow; (eexists; split; [simpl; apply lookup_insert_eq|]); by split_and!.
  - simpl. apply lookup_insert_eq.
  - eexists _, _. simpl. apply lookup_insert_eq.
  - rewrite status_history_add, decide_True by done. done.
  - done.
Qed.

(** The histories of an invocation that a worker has taken. *)
Lemma taken_history id cur n1 n2 v :
  status_history (taken worker id cur n1 n2 v).2 id = status_history v id ++ [Pending; Running].
Proof. unfold taken. simpl. rewrite !status_history_changed. by rewrite <-app_assoc. Qed.

Lemma registered_may_be_taken r t : may_transition (mkRecord Registered r t) Pending (Some worker).
Proof. split; [by vm_compute|]. right. split; [done|]. by vm_compute. Qed.
Lemma changed_reached v stored st now cur v' :
  status_history v fresh = [Registered; Pending; Running] →
  v_histories stored = v_histories v →
  let ended := changed fresh (moved now cur st (Some worker)) worker stored in
  v_status v' = v_status ended → v_histories v' = v_histories ended →
  call_reached st (Ok true) v'.
Proof.
  intros Hh Hsame ended Hs Hv. split_and!; [done| |].
  - rewrite Hs. simpl. by rewrite lookup_insert_eq.
  - unfold status_history at 1. rewrite Hv. change (status_history ended fresh = [Registered; Pending; Running; st]).
    unfold ended. rewrite status_history_changed. unfold status_history in Hh |- *. by rewrite Hsame, Hh.
Qed.

(** An attempt that ends a taken invocation, in terms of the submitted call. *)
Lemma attempt_ends_call {limits} inv cur n1 n2 (run : AttemptRun (S := Runtime T) limits) v r v' :
  inv_id inv = fresh → inv_task_id inv = cd_task_id call →
  status_history v fresh = [Registered] → v_datum v fresh IDENTITY_KEY = None → v_queue v = [] →
  validate_routing (tc_queue call_config) (tc_priority call_config) = Ok tt →
  let taken_v := taken worker fresh cur n1 n2 v in
  attempt_from app_config catalog worker drawn random_unit inv call task taken_v.1 run taken_v.2 r v' →
  submitted_call_ended (race_outcome run).1 (race_outcome run).2 (r ≫= λ _, Ok true) v'.
Proof.
  intros Hid Ht Hh Hdatum Hq Hroute taken_v. unfold attempt_from. rewrite Hid.
  assert (status_history taken_v.2 fresh = [Registered; Pending; Running]) as Hh2
    by (unfold taken_v; rewrite taken_history, Hh; done).
  assert (v_queue taken_v.2 = []) as Hq2 by exact Hq.
  assert (v_datum taken_v.2 fresh IDENTITY_KEY = None) as Hd2 by exact Hdatum.
  rewrite (no_retries _ _ _ Hh2) by set_solver.
  destruct (next_identity_fresh drawn _ _ 0 (inv_trace_context inv) Hd2) as (identity & -> & ->).
  set (v2 := set_v_data _ _ _ _). change (status_history v2 fresh = [Registered; Pending; Running]) in Hh2.
  change (v_queue v2 = []) in Hq2. clearbody v2 taken_v. clear Hd2.
  unfold attempt_ended, attempt_of, submitted_call_ended. cbn -[submitted_call_ended].
  rewrite Hid, Ht. fold call_config. destruct (race_outcome run).1 as [value|e|p].
  - intros (-> & now & ->). split_and!; [by eapply changed_reached| |exact Hq2].
    simpl. by rewrite lookup_insert_eq.
  - destruct (should_retry _ _ _ _ _).
    + intros (now & [(Hno & _)|Hdone]); [by destruct Hno|]. simpl in Hdone. rewrite Hroute in Hdone.
      destruct Hdone as (-> & entry & Hentry & ->). split; [by eapply changed_reached|].
      exists entry. split; [by simpl; rewrite Hq2|exact Hentry].
    + intros (-> & now & ->). split_and!; [by eapply changed_reached|exact Hq2|].
      simpl. by rewrite lookup_insert_eq.
  - by intros [-> ->].
Qed.
(** The slot a submitted call needs, if its task is limited, is free. *)
Definition slot_is_free (s : Runtime T) : Prop :=
  let cc := tc_concurrency_control (dt_config task) in
  cc = Unlimited ∨
  Z.of_nat (other_holders s fresh (cd_task_id call)
    (concurrency_arguments cc (tc_key_arguments (dt_config task)) (cd_serialized_arguments call)))
  < concurrency_limit (dt_config task).

Lemma submitted_is_admitted trace c s created registered noted q :
  catalog_get catalog (cd_task_id call) = Some task → slot_is_free s →
  runtime_view (state_after submission c s) = set_v_queue (λ _, q)
    (submitted_view app_config caller fresh call call_config trace created registered noted (runtime_view s)) →
  match limited (runtime_view (state_after submission c s)) (cat_registry catalog) fresh with
  | Some (i, cfg, args) =>
      Z.of_nat (other_holders (state_after submission c s) fresh (inv_task_id i) args) < concurrency_limit cfg
  | None => True
  end.
Proof.
  intros Htask Hfree Hv.
  destruct (submitted_lookups trace created registered noted (runtime_view s))
    as ((inv & Hinv & _ & Ht & Hcall) & Hcalls & _ & _ & _).
  destruct (submission_waiting app_config catalog caller fresh call explicit c s) as [_ Hcc]. fold submission in Hcc.
  unfold limited. rewrite Hv. cbn [set_v_queue v_invocations v_calls]. rewrite Hinv. simpl.
  unfold catalog_get in Htask. rewrite Ht, Htask. simpl. case_decide as Hu; [done|].
  rewrite Hcall, Hcalls. simpl. rewrite Ht. destruct Hfree as [?|Hfree]; [done|].
  unfold other_holders in *. by rewrite (slot_holders_indexed _ _ _ _ Hcc).
Qed.

Lemma submitted_call_run am lang (run : InvocationId → ∀ limits, AttemptRun limits) limits trace c s c1 :
  let s1 := state_after submission c s in
  let m := poll am lang run in
  unused (runtime_view s) fresh → v_queue (runtime_view s) = [] → waiters (rt_control s) = ∅ → slot_is_free s →
  catalog_get catalog (cd_task_id call) = Some task → resolve_trace_context caller explicit = Ok trace →
  validate_routing (tc_queue call_config) (tc_priority call_config) = Ok tt →
  retrieval_queues app_config = [tc_queue call_config] → task_language (cd_task_id call) = lang →
  limits_new (task_timeout call_config) (ac_cancellation_check_interval_seconds app_config) = Ok limits →
  quiet_hooks runtime_view middlewares → undisturbed runtime_view (run fresh limits) →
  result_of submission c s = Ok fresh ∧
  submitted_call_ended (race_outcome (run fresh limits)).1 (race_outcome (run fresh limits)).2
    (result_of m c1 s1) (runtime_view (state_after m c1 s1)).
Proof.
  intros s1 m [Hnohist Hnoid] Hempty Hw Hfree Htask Htrace Hroute Hqs Hlang Hlim Hhooks Hquiet.
  destruct (submission_leaves trace c s Htask Htrace Hroute Hempty) as [Hok (created & registered & noted & Hv1)].
  split; [exact Hok|]. pose proof (submitted_is_admitted _ _ _ _ _ _ _ Htask Hfree Hv1) as Hadmit.
  destruct (submission_waiting app_config catalog caller fresh call explicit c s) as [Hw1 _].
  fold submission in Hw1. fold s1 in Hv1, Hw1, Hadmit. rewrite Hw in Hw1.
  destruct (submitted_lookups trace created registered noted (runtime_view s))
    as ((inv & Hinv & Hid & Ht & Hcall) & Hcalls & (r0 & t0 & Hst) & Hhist & Hdata).
  destruct (claim_single am app_config (cat_registry catalog) lang (tc_queue call_config)
    (entry_now fresh (Some (cd_task_id call)) (tc_queue call_config) (tc_priority call_config)) c1 s1)
    as (c2 & s2 & Hclaim & Hv2); [done|done| |by apply (f_equal v_queue) in Hv1|done|done|done|exact Hadmit|].
  { by destruct (validate_routing_cases (tc_queue call_config) (tc_priority call_config)) as [(_ & ? & _)|(? & ? & _)];
      [|congruence]. }
  rewrite Hv1 in Hv2. set (v1 := submitted_view _ _ _ _ _ _ _ _ _ _) in *.
  pose proof (execution_run runtime_view app_config catalog middlewares worker drawn random_unit eq_refl inv call
    (mkRecord Registered r0 t0) limits (run fresh) c2 s2) as Hexec.
  rewrite Hid, Ht, Hcall, Hv2 in Hexec.
  specialize (Hexec Hst (registered_may_be_taken _ _) Hinv Hcalls).
  specialize (Hexec ltac:(intros task' Htask'; rewrite Htask in Htask'; by injection Htask' as <-) Hhooks Hquiet).
  set (exec := execute_invocation_common app_config catalog middlewares worker drawn random_unit fresh (run fresh)) in *.
  assert (yields runtime_view exec c2 s2 (result_of exec c2 s2) (runtime_view (state_after exec c2 s2))) as Hy.
  { unfold result_of, state_after. destruct (exec c2 s2) as [[r c3] s3] eqn:He. by exists c3, s3. }
  apply (poll_runs am lang run _ _ _ _ _ _ _ Hclaim) in Hy.
  destruct (yields_result _ _ _ _ _ _ Hy) as [Hr Hv]. fold m in Hr, Hv. rewrite Hr, Hv.
  destruct Hexec as (n1 & n2 & Hend). rewrite Ht, Htask in Hend.
  rewrite Hid in Hend.
  refine (attempt_ends_call inv _ n1 n2 (run fresh limits) (set_v_queue (λ _, []) (set_v_queue _ v1)) _ _ Hid Ht _ _ eq_refl Hroute Hend).
  - etrans; [exact Hhist|]. unfold status_history. by rewrite Hnohist.
  - unfold v_datum in *. by rewrite <-Hdata in Hnoid.
Qed.

(** C1: From submission to result, in one undisturbed pass.  The setting: the
    in-memory backends without a trigger manager; an invocation id nothing is stored
    under; an empty queue; nobody waiting; a free slot if the task is limited; a known
    task with a valid route and valid attempt limits, whose queue is the only one the
    worker polls, in the task's language; middleware hooks that neither fail nor write;
    and an attempt during which nobody - the task, other workers, a canceller - changes
    what the backends store (a task that submits children is not covered).  Then the
    submission answers with the new invocation, and the next poll claims and executes
    exactly it.  A value is stored, the statuses are Registered, Pending, Running,
    Success, and nothing stays queued.  An error (the attempt's, or its timeout) ends
    in Retry with one new entry, delayed by the first backoff, or in Failed with the
    error's type and message stored and nothing queued.  A panic is the poll's panic. *)
Theorem submitted_call_is_executed am lang (run : InvocationId → ∀ limits, AttemptRun limits) limits trace c s c1 :
  let s1 := state_after submission c s in
  let m := poll am lang run in
  unused (runtime_view s) fresh → v_queue (runtime_view s) = [] → waiters (rt_control s) = ∅ → slot_is_free s →
  catalog_get catalog (cd_task_id call) = Some task → resolve_trace_context caller explicit = Ok trace →
  validate_routing (tc_queue call_config) (tc_priority call_config) = Ok tt →
  retrieval_queues app_config = [tc_queue call_config] → task_language (cd_task_id call) = lang →
  limits_new (task_timeout call_config) (ac_cancellation_check_interval_seconds app_config) = Ok limits →
  quiet_hooks runtime_view middlewares → undisturbed runtime_view (run fresh limits) →
  result_of submission c s = Ok fresh ∧
  submitted_call_ended (race_outcome (run fresh limits)).1 (race_outcome (run fresh limits)).2
    (result_of m c1 s1) (runtime_view (state_after m c1 s1)).
Proof. apply submitted_call_run. Qed.
End submitted.
End lifecycle.
(** ** Witness *)

(** A call of [demo_task] is submitted and a worker "w1" polls; the task returns "42". *)
Definition demo_poll_run (id : InvocationId) (limits : AttemptLimits) : AttemptRun (S := Runtime unit) limits :=
  BodyReturns limits (λ s, s) 0 (Ok "42").

Definition demo_submit : M RustvelloError (Runtime unit) InvocationId :=
  @submission text_json identity_order chrono_in_seconds unit (env_list []) parse_one ascii_case literal_glob any_trace 0
    (app_config_new "app") demo_catalog demo_ambient "i9" demo_call None.

Definition demo_poll : M RustvelloError (Runtime unit) bool :=
  @poll text_json identity_order chrono_in_seconds unit digit_codec first_power (env_list []) parse_one ascii_case
    literal_glob same_order 0 (app_config_new "app") demo_catalog [] "w1" 0 0 demo_ambient Rust demo_poll_run.

Lemma submitted_call_is_executed_witness :
  let s1 := state_after demo_submit demo_clock (runtime_new tt) in
  result_of demo_poll demo_clock s1 = Ok true ∧
  v_results (runtime_view (state_after demo_poll demo_clock s1)) !! "i9" = Some "42".
Proof.
  intros s1. assert (result_of demo_poll demo_clock s1 = Ok true) as Hok by (vm_compute; reflexivity).
  split; [exact Hok|].
  destruct (@submitted_call_is_executed text_json identity_order chrono_in_seconds unit digit_codec first_power
    (env_list []) parse_one ascii_case literal_glob same_order any_trace 0 (app_config_new "app") demo_catalog []
    demo_ambient "i9" demo_call None (task_proxy demo_task task_config_default) "w1" 0 0 demo_ambient Rust demo_poll_run
    (mkLimits None (Some (f64_of_u64 1))) trace_context_default demo_clock (runtime_new tt) demo_clock)
    as [_ (_ & Hv & _)].
  - split; reflexivity.
  - vm_compute. reflexivity.
  - vm_compute. reflexivity.
  - left. reflexivity.
  - vm_compute. reflexivity.
  - vm_compute. reflexivity.
  - vm_compute. reflexivity.
  - vm_compute. reflexivity.
  - reflexivity.
  - vm_compute. reflexivity.
  - constructor.
  - exact (λ s, eq_refl).
  - exact Hv.
Defined.
