(* ===== verification/Typed.v ===== *)
(** * Typed tasks and calls

    Models [rustvello-core/src/call.rs], [serializer.rs] and the typed half of
    [task.rs]: parameters are taken apart into one JSON text per field when a call is
    made, and the worker puts the object together again before it parses it.  [serde]
    is a class ([Serde]) whose one law ([SerdeLaws]) is the order of an object's
    fields.  Nothing is assumed about reading a value back from its text.

    The theorems: a call executed from its stored arguments runs the task on what serde
    reads from the compact text of the parameters it was made with, one shape of
    parameters apart; and the arguments a typed call is limited by are those the
    orchestrator derives from the stored ones. *)
From S2P Require Import Prelude Effects Json Identifiers Status Errors Config Call TaskCatalog.

(** ** Serde *)

(** [serde_json::to_value], [to_string] and [from_str] at a type; an error is its text. *)
Class Serde `{JsonValue} (A : Type) := {
  serde_to_value : A → outcome string Value;
  serde_to_string : A → outcome string string;
  serde_from_str : string → outcome string A
}.

(** The texts of the errors of printing and parsing a [serde_json::Value]. *)
Class JsonErrors `{JsonValue} := {
  to_string_error : Value → string;
  from_str_error : string → string
}.

Definition serialization {A} (o : outcome string A) : RustvelloResult A := map_err ESerialization o.

(** [serde_json::to_string] of a value and of a key, and [from_str::<Value>]. *)
Definition print_value `{JsonErrors} (v : Value) : outcome string string :=
  ok_or (json_to_string v) (to_string_error v).
Definition print_key `{JsonErrors, SerdeString} (k : string) : outcome string string :=
  ok_or (json_string k) (to_string_error (VString k)).
Definition parse_value `{JsonErrors} (s : string) : outcome string Value :=
  ok_or (json_from_str s) (from_str_error s).

(** [SerdeSerializer], the default of the trait [Serializer]. *)
(* @src rustvello-core/src/serializer.rs 29-33 SerdeSerializer::serialize *)
Definition serialize `{Serde A} (value : A) : RustvelloResult string := serialization (serde_to_string value).
(* @src rustvello-core/src/serializer.rs 35-39 SerdeSerializer::deserialize *)
Definition deserialize `{Serde A} (data : string) : RustvelloResult A := serialization (serde_from_str data).

(** ** Parameters to arguments *)

Section arguments.
Context {J : JsonValue} {JE : JsonErrors}.

(* @src rustvello-core/src/call.rs 33-39 params_to_serialized_arguments *)
Fixpoint field_arguments (fields : list (string * Value)) (args : SerializedArguments)
    : RustvelloResult SerializedArguments :=
  match fields with
  | [] => Ok args
  | (k, v) :: rest =>
      v_str ← serialization (print_value v);
      field_arguments rest (arguments_insert k v_str args)
  end.

(* @src rustvello-core/src/call.rs 23-50 params_to_serialized_arguments *)
Definition params_to_serialized_arguments {P} {SP : Serde P} (params : P) : RustvelloResult SerializedArguments :=
  value ← serialization (serde_to_value params);
  match value with
  | VObject fields => field_arguments fields arguments_new
  | other =>
      v_str ← serialization (print_value other);
      Ok (arguments_insert "__args__" v_str arguments_new)
  end.

(** The loop over the entries, [i > 0] being [negb first]. *)
(* @src rustvello-core/src/task.rs 186-204 serialized_args_to_json *)
Fixpoint object_loop `{SerdeString} (first : bool) (pairs : list (string * string)) (buf : string)
    : RustvelloResult string :=
  match pairs with
  | [] => Ok buf
  | (k, v) :: rest =>
      let buf := if first then buf else buf +:+ "," in
      escaped_key ← map_err (λ e, ESerialization ("failed to escape JSON key: " +:+ e)) (print_key k);
      map_err (λ e, ESerialization ("invalid JSON value for key " +:+ k +:+ ": " +:+ e)) (parse_value v);;
      object_loop false rest (buf +:+ (escaped_key +:+ ":" +:+ v))
  end.

(* @src rustvello-core/src/task.rs 174-207 serialized_args_to_json *)
Definition serialized_args_to_json `{SerdeString} (args : SerializedArguments) : RustvelloResult string :=
  let build := buf ← object_loop true (btree_iter args) "{"; Ok (buf +:+ "}") in
  match (args : gmap string string) !! "__args__" with
  | Some raw => if bool_decide (size (args : gmap string string) = 1%nat) then Ok raw else build
  | None => build
  end.
End arguments.

(** ** Tasks *)

(** [t_run n] is the [n]-th run of the body, synchronous or awaited: what it answers
    may differ from one run to the next. *)
(* @src rustvello-core/src/task.rs 68-104 Task *)
Record Task (P R : Type) := mkTask {
  t_task_id : TaskId;
  t_config : TaskConfig;
  t_run : nat → P → RustvelloResult R
}.
#[global] Arguments mkTask {P R}.
#[global] Arguments t_task_id {P R}.
#[global] Arguments t_config {P R}.
#[global] Arguments t_run {P R}.

(** [ForeignTaskProxy]: a task that another runtime executes. *)
(* @src rustvello-core/src/task.rs 354-358 ForeignTaskProxy *)
Record ForeignTask := mkForeignTask { ft_task_id : TaskId; ft_config : TaskConfig }.

(* @src rustvello-core/src/task.rs 381-387 ForeignTaskProxy::new *)
Definition foreign_task_new (task_id : TaskId) : ForeignTask := mkForeignTask task_id task_config_default.
(* @src rustvello-core/src/task.rs 390-393 ForeignTaskProxy::with_config *)
Definition foreign_with_config (config : TaskConfig) (t : ForeignTask) : ForeignTask :=
  mkForeignTask (ft_task_id t) config.

Section tasks.
Context {J : JsonValue} {JE : JsonErrors} {SS : SerdeString} {P R : Type} {SP : Serde P} {SR : Serde R}.

(* @src rustvello-core/src/task.rs 220-230 DynTask::execute *)
Definition execute (task : Task P R) (n : nat) (args : SerializedArguments) : RustvelloResult string :=
  json_str ← serialized_args_to_json args;
  params ← deserialize json_str;
  result ← t_run task n params;
  serialize result.

(* @src rustvello-core/src/task.rs 209-250 DynTask *)
Definition dyn_task (task : Task P R) (n : nat) : DynTask :=
  {| dt_task_id := t_task_id task; dt_config := t_config task; dt_execute := execute task n |}.

(** ** Calls *)

(* @src rustvello-core/src/call.rs 86-90 Call *)
Record TypedCall := mkTypedCall { call_task : Task P R; call_params : P }.

(* @src rustvello-core/src/call.rs 118-122 Call::serialize_params *)
Definition serialize_params (call : TypedCall) : RustvelloResult string := serialize (call_params call).

(* @src rustvello-core/src/call.rs 129-131 Call::serialized_arguments *)
Definition serialized_arguments (call : TypedCall) : RustvelloResult SerializedArguments :=
  params_to_serialized_arguments (call_params call).

(* @src rustvello-core/src/call.rs 134-138 Call::call_id *)
Definition typed_call_id `{Sha256} (call : TypedCall) : RustvelloResult CallId :=
  args ← serialized_arguments call;
  Ok (call_id_new (t_task_id (call_task call)) (compute_args_id args)).

(* @src rustvello-core/src/call.rs 141-144 Call::to_dto *)
Definition to_dto `{Sha256} (call : TypedCall) : RustvelloResult CallDTO :=
  args ← serialized_arguments call;
  Ok (call_dto_new (t_task_id (call_task call)) args).

(* @src rustvello-core/src/call.rs 154-186 Call::serialized_args_for_concurrency_check *)
Definition serialized_args_for_concurrency_check (call : TypedCall)
    : RustvelloResult (option SerializedArguments) :=
  let config := t_config (call_task call) in
  match tc_concurrency_control config with
  | Unlimited => Ok None
  | CCTask => Ok (Some arguments_new)
  | CCArgument =>
      all_args ← serialized_arguments call;
      if bool_decide (tc_key_arguments config = []) then Ok (Some all_args)
      else Ok (Some (fold_left (λ filtered key,
             match (all_args : gmap string string) !! key with
             | Some val => arguments_insert key val filtered
             | None => filtered
             end) (tc_key_arguments config) arguments_new))
  | CCNone => all_args ← serialized_arguments call; Ok (Some all_args)
  end.
End tasks.
#[global] Arguments TypedCall P R : clear implicits.

(* @src rustvello-core/src/call.rs 190-196 call_dto_from_parts *)
Definition call_dto_from_parts `{Sha256, SerdeString} (task_id : TaskId) (serialized_args : gmap string string)
    : CallDTO :=
  call_dto_new task_id (fold_left (λ args p, arguments_insert p.1 p.2 args) (btree_iter serialized_args) arguments_new).

(** ** The laws of serde *)

(** The compact text of an object, from the texts of its keys and of its values. *)
Definition field_text `{JsonValue, SerdeString} (p : string * Value) : option string :=
  kt ← json_string p.1; vt ← json_to_string p.2; Some (kt +:+ (":" +:+ vt)).

Definition compact_text `{JsonValue, SerdeString} (v : Value) : option string :=
  match v with
  | VObject fields => texts ← mapM field_text fields; Some ("{" +:+ str_join "," texts +:+ "}")
  | other => json_to_string other
  end.

(** The printed fields of an object parse: [serde_json] prints a value of any depth and
    refuses to parse one that is nested too deeply. *)
Definition fields_parse `{JsonValue} (v : Value) : Prop :=
  match v with
  | VObject fields => Forall (λ p, ∀ t, json_to_string p.2 = Some t → is_Some (json_from_str t)) fields
  | _ => True
  end.

(** [serde_json::Map] is a [BTreeMap]: an object has its fields in the order of its
    keys, each key once. *)
Class SerdeLaws `{JsonValue} (A : Type) `{!Serde A} : Prop := {
  fields_sorted a fields : serde_to_value a = Ok (VObject fields) → Sorted str_le fields.*1 ∧ NoDup fields.*1
}.

(** ** Round trip *)

Lemma sorted_fields_in_order {V} (l : list (string * V)) :
  Sorted str_le l.*1 → NoDup l.*1 → btree_iter (list_to_map l) = l.
Proof.
  intros Hs Hnd. unfold btree_iter. set (R := le_of (λ p q : string * V, str_leb p.1 q.1)).
  assert (Transitive R) as HR by (intros p q r; apply str_le_trans).
  assert (sort_by (λ p q, str_leb p.1 q.1) (map_to_list (list_to_map (M := gmap string V) l)) ≡ₚ l) as Hp
    by (by rewrite sort_by_perm, map_to_list_to_map).
  apply (StronglySorted_unique_strong R); [| | |exact Hp].
  - intros [k v] [k' v'] Hx Hy H1 H2. rewrite Hp in Hx.
    assert (k = k') as <- by (by apply (str_le_antisymm)). f_equal.
    apply elem_of_list_to_map in Hx, Hy; [congruence|done..].
  - apply Sorted_StronglySorted; [exact HR|]. apply sort_by_sorted. intros p q. apply str_le_total.
  - apply Sorted_StronglySorted; [exact HR|]. clear Hp Hnd. induction l as [|p l IH]; [constructor|].
    rewrite fmap_cons in Hs. apply Sorted_inv in Hs as [Hs Hd]. constructor; [by apply IH|].
    destruct l; [constructor|]. rewrite fmap_cons in Hd. apply HdRel_inv in Hd. by constructor.
Qed.

Lemma str_app_nil_r s : s +:+ "" = s.
Proof. induction s as [|a s IH]; [done|]. simpl. by rewrite IH. Qed.

Section round_trip.
Context {J : JsonValue} {JE : JsonErrors} {SS : SerdeString}.

(** The arguments of an object: the printed text of each field under its key. *)
Definition printed (p : string * Value) (q : string * string) : Prop :=
  p.1 = q.1 ∧ json_to_string p.2 = Some q.2.

Lemma printed_keys fields pairs : Forall2 printed fields pairs → pairs.*1 = fields.*1.
Proof. induction 1 as [|p q fields pairs [Hk _] _ IH]; [done|]. by rewrite !fmap_cons, IH, Hk. Qed.

Lemma field_arguments_printed fields (args out : gmap string string) :
  NoDup fields.*1 → (∀ k, k ∈ fields.*1 → args !! k = None) → field_arguments fields args = Ok out →
  ∃ pairs, Forall2 printed fields pairs ∧ out = list_to_map pairs ∪ args.
Proof.
  revert args. induction fields as [|[k v] fields IH]; intros args Hnd Hfresh; simpl.
  - intros [= <-]. exists []. split; [constructor|]. change (args = ∅ ∪ args). by rewrite (left_id_L ∅ (∪)).
  - rewrite fmap_cons in Hnd, Hfresh. apply list.NoDup_cons in Hnd as [Hk Hnd]. simpl in Hk. unfold print_value, ok_or, serialization.
    destruct (json_to_string v) as [t|] eqn:Ht; [|done]. simpl. intros Hrun.
    apply IH in Hrun as (pairs & Hpairs & ->); [|done|].
    + exists ((k, t) :: pairs). split; [by constructor|].
      change (list_to_map (M := gmap string string) pairs ∪ <[k := t]> args =
              <[k := t]> (list_to_map pairs) ∪ args).
      rewrite <-insert_union_l, insert_union_r; [done|].
      apply not_elem_of_list_to_map_1. by rewrite (printed_keys _ _ Hpairs).
    + intros k' Hk'. change (<[k := t]> args !! k' = None). rewrite lookup_insert_ne by congruence. apply Hfresh. by right.
Qed.

(** The texts that the loop of [serialized_args_to_json] separates by commas. *)
Fixpoint comma_tail (texts : list string) : string :=
  match texts with [] => "" | t :: texts' => "," +:+ (t +:+ comma_tail texts') end.

Lemma str_join_tail t texts : str_join "," (t :: texts) = t +:+ comma_tail texts.
Proof.
  revert t. induction texts as [|u texts IH]; intros t; [simpl; by rewrite str_app_nil_r|].
  change (t +:+ "," +:+ str_join "," (u :: texts) = t +:+ ("," +:+ (u +:+ comma_tail texts))). by rewrite IH.
Qed.

Lemma object_loop_printed fields pairs : Forall2 printed fields pairs → fields_parse (VObject fields) →
  ∃ texts, mapM field_text fields = Some texts ∧
    (∀ buf, object_loop false pairs buf = Ok (buf +:+ comma_tail texts)) ∧
    (∀ buf, object_loop true pairs buf = Ok (buf +:+ str_join "," texts)).
Proof.
  induction 1 as [|[k v] [k' t] fields pairs [Hk Ht] _ IH]; intros Hparse.
  - exists []. split_and!; [done|intros buf; simpl; by rewrite str_app_nil_r..].
  - apply List.Forall_cons_iff in Hparse as [Hv Hparse]. destruct (IH Hparse) as (texts & Htexts & Hloop & _).
    simpl in Hk, Ht, Hv. subst k'. destruct (json_string_total k) as [kt Hkt].
    destruct (Hv t Ht) as [w Hw]. exists ((kt +:+ (":" +:+ t)) :: texts). split_and!.
    + assert (field_text (k, v) = Some (kt +:+ (":" +:+ t))) as Hf by (unfold field_text; simpl; by rewrite Hkt, Ht).
      cbn [mapM]. rewrite Hf. cbn. rewrite Htexts. done.
    + intros buf. simpl. unfold print_key, parse_value, ok_or. rewrite Hkt, Hw. simpl.
      rewrite Hloop. f_equal. by rewrite !str_app_assoc.
    + intros buf. rewrite str_join_tail. simpl. unfold print_key, parse_value, ok_or. rewrite Hkt, Hw. simpl.
      rewrite Hloop. f_equal. by rewrite !str_app_assoc.
Qed.

(** The parameters that do not survive: an object whose only field is ["__args__"]. *)
Definition lone_args (v : Value) : Prop := ∃ w, v = VObject [("__args__", w)].

Lemma arguments_of_object fields out :
  Sorted str_le fields.*1 → NoDup fields.*1 → field_arguments fields arguments_new = Ok out →
  ∃ pairs, Forall2 printed fields pairs ∧ out = list_to_map pairs ∧ btree_iter out = pairs.
Proof.
  intros Hs Hnd Hrun. destruct (field_arguments_printed fields ∅ out Hnd (λ k _, lookup_empty k) Hrun)
    as (pairs & Hpairs & ->). rewrite (right_id_L ∅ (∪)). exists pairs. split_and!; [done|done|].
  apply sorted_fields_in_order; by rewrite (printed_keys _ _ Hpairs).
Qed.

(** What the worker puts together is the compact text of the parameters. *)
Lemma arguments_text `{!Serde P, !SerdeLaws P} (p : P) v args :
  serde_to_value p = Ok v → fields_parse v → params_to_serialized_arguments p = Ok args → ¬ lone_args v →
  ∃ t, serialized_args_to_json args = Ok t ∧ compact_text v = Some t.
Proof.
  intros Hv Hparse. unfold params_to_serialized_arguments, serialization. rewrite Hv. simpl.
  assert (∀ w, (∀ fields, w ≠ VObject fields) →
    (v_str ← map_err ESerialization (print_value w); Ok (arguments_insert "__args__" v_str arguments_new)) = Ok args →
    ∃ t, serialized_args_to_json args = Ok t ∧ json_to_string w = Some t) as Hplain.
  { intros w _. unfold print_value, ok_or. destruct (json_to_string w) as [t|]; [|done]. simpl.
    intros [= <-]. by exists t. }
  destruct v as [|b|n|s|l|fields]; try (intros Hrun _; apply Hplain in Hrun; done).
  intros Hrun Hlone. destruct (fields_sorted p fields Hv) as [Hs Hnd].
  destruct (arguments_of_object _ _ Hs Hnd Hrun) as (pairs & Hpairs & -> & Hiter).
  destruct (object_loop_printed _ _ Hpairs Hparse) as (texts & Htexts & _ & Hloop).
  exists ("{" +:+ str_join "," texts +:+ "}"). split; [|by unfold compact_text; rewrite Htexts].
  unfold serialized_args_to_json. rewrite Hiter, Hloop. cbn [mbind outcome_bind]. rewrite str_app_assoc.
  change (list_to_map pairs : SerializedArguments) with (list_to_map (M := gmap string string) pairs) in *.
  destruct (list_to_map (M := gmap string string) pairs !! "__args__") as [raw|] eqn:Hraw; [|done].
  rewrite bool_decide_false; [done|]. intros Hsize. apply Hlone.
  change (size (list_to_map (M := gmap string string) pairs) = 1%nat) in Hsize.
  rewrite map_size_list_to_map in Hsize by (by rewrite (printed_keys _ _ Hpairs)).
  inversion Hpairs as [|[k w] [k' t] ? ? [Hk Ht] Hrest]; subst; [done|]. simpl in *.
  destruct Hrest; [|done]. exists w. subst k'. destruct (decide (k = "__args__")) as [->|Hne]; [done|].
  rewrite lookup_insert_ne in Hraw by done. change ((∅ : gmap string string) !! "__args__" = Some raw) in Hraw.
  by rewrite lookup_empty in Hraw.
Qed.

Lemma field_arguments_total fields texts args :
  mapM field_text fields = Some texts → ∃ out, field_arguments fields args = Ok out.
Proof.
  revert texts args. induction fields as [|[k v] fields IH]; intros texts args; [by eexists|].
  change (mapM field_text ((k, v) :: fields)) with
    (y ← field_text (k, v); ys ← mapM field_text fields; mret (M := option) (y :: ys)).
  intros (ft & Hf & (texts' & Hrest & _)%bind_Some)%bind_Some.
  unfold field_text in Hf. apply bind_Some in Hf as (kt & _ & (vt & Hvt & _)%bind_Some). simpl in Hvt.
  simpl. unfold print_value. rewrite Hvt. by eapply IH.
Qed.

Lemma arguments_total `{!Serde P} (p : P) v t :
  serde_to_value p = Ok v → compact_text v = Some t → ∃ args, params_to_serialized_arguments p = Ok args.
Proof.
  unfold params_to_serialized_arguments. intros -> Hc. cbn. destruct v as [|b|n|s|l|fields];
    try (unfold print_value; simpl in Hc; rewrite Hc; by eexists).
  unfold compact_text in Hc. apply bind_Some in Hc as (texts & Htexts & _). by eapply field_arguments_total.
Qed.

Section executed.
Context {P R : Type} {SP : Serde P} {SR : Serde R} {PL : SerdeLaws P} {SH : Sha256}.

(** What a worker makes of the text [t] of the parameters. *)
Definition run_on_text (task : Task P R) (n : nat) (t : string) : RustvelloResult string :=
  p ← deserialize t; result ← t_run task n p; serialize result.

Lemma run_on_text_read (task : Task P R) n t p :
  serde_from_str t = Ok p → run_on_text task n t = (result ← t_run task n p; serialize result).
Proof. unfold run_on_text, deserialize, serialization. by intros ->. Qed.

Lemma stored_call_runs (task : Task P R) n (p : P) v t dto :
  serde_to_value p = Ok v → compact_text v = Some t → fields_parse v → to_dto (mkTypedCall task p) = Ok dto → ¬ lone_args v →
  cd_task_id dto = t_task_id task ∧
  dt_execute (dyn_task task n) (cd_serialized_arguments dto) = run_on_text task n t.
Proof.
  intros Hv Ht Hparse Hdto Hlone. unfold to_dto, serialized_arguments in Hdto. simpl in Hdto.
  destruct (params_to_serialized_arguments p) as [args|e|e] eqn:Hargs; try done. injection Hdto as <-.
  split; [done|]. destruct (arguments_text p v args Hv Hparse Hargs Hlone) as (t' & Ht' & Hc).
  assert (t' = t) as -> by congruence. unfold dyn_task, execute. simpl. by rewrite Ht'.
Qed.

(** The arguments the orchestrator limits a stored call by. *)
Definition stored_concurrency_arguments (task : Task P R) (dto : CallDTO) : option SerializedArguments :=
  concurrency_arguments (tc_concurrency_control (t_config task)) (tc_key_arguments (t_config task))
    (cd_serialized_arguments dto).

(** C12: A typed call survives its journey.  Parameters that serde can print, whose
    printed fields parse again, make a call, under the digest of their arguments; the
    worker that executes the call from its stored arguments runs the task on what serde
    reads from the compact JSON text of the parameters, and answers with the printed
    result or with the error.  So the task runs on the very parameters whenever serde
    reads them back from that text - nothing is assumed about that: it does not hold
    for a float that is NaN or a field that is skipped.  The arguments the call is
    limited by are those the orchestrator derives from the stored ones.  An object
    whose single field is named __args__ is excluded. *)
Theorem typed_call_survives_its_journey (task : Task P R) n (p : P) v t :
  serde_to_value p = Ok v → compact_text v = Some t → fields_parse v → ¬ lone_args v →
  ∃ dto, to_dto (mkTypedCall task p) = Ok dto ∧
    typed_call_id (mkTypedCall task p) = Ok (cd_call_id dto) ∧ cd_task_id dto = t_task_id task ∧
    let answer := dt_execute (dyn_task task n) (cd_serialized_arguments dto) in
    answer = run_on_text task n t ∧
    (serde_from_str t = Ok p → answer = (result ← t_run task n p; serialize result)) ∧
    serialized_args_for_concurrency_check (mkTypedCall task p) = Ok (stored_concurrency_arguments task dto).
Proof.
  intros Hv Ht Hparse Hlone. destruct (arguments_total p v t Hv Ht) as [args Hargs].
  assert (to_dto (mkTypedCall task p) = Ok (call_dto_new (t_task_id task) args)) as Hdto
    by (unfold to_dto, serialized_arguments; simpl; by rewrite Hargs).
  destruct (stored_call_runs task n p v t _ Hv Ht Hparse Hdto Hlone) as [Hid Hrun].
  exists (call_dto_new (t_task_id task) args). cbv zeta. split_and!; [done| |done|exact Hrun| |].
  - unfold typed_call_id, serialized_arguments. simpl. by rewrite Hargs.
  - intros Hread. rewrite Hrun. by apply run_on_text_read.
  - unfold serialized_args_for_concurrency_check, stored_concurrency_arguments, concurrency_arguments,
      serialized_arguments. simpl. rewrite Hargs. simpl.
    destruct (tc_concurrency_control _); try done. by case_bool_decide.
Qed.

(** An object whose only field is ["__args__"] is taken for a plain value: the worker
    parses the text of the field. *)
Lemma lone_args_field_is_unwrapped (task : Task P R) (p : P) w t dto :
  serde_to_value p = Ok (VObject [("__args__", w)]) → json_to_string w = Some t →
  to_dto (mkTypedCall task p) = Ok dto → serialized_args_to_json (cd_serialized_arguments dto) = Ok t.
Proof.
  intros Hv Ht. unfold to_dto, serialized_arguments, params_to_serialized_arguments. simpl. rewrite Hv. cbn.
  unfold print_value. rewrite Ht. cbn. intros [= <-]. done.
Qed.
End executed.
End round_trip.
(** ** Witness *)

(** Two flags as an object with fields "x" and "y"; results are texts. *)
Definition demo_errors : @JsonErrors text_json :=
  @Build_JsonErrors text_json (λ _, "unprintable") (λ _, "unparseable").

Definition flag_value (b : bool) : @Value (@json_number text_json) := @VString (@json_number text_json) (if b then "t" else "f").
Definition flags_value (p : bool * bool) : @Value (@json_number text_json) :=
  VObject [("x", flag_value p.1); ("y", flag_value p.2)].

Definition flags_text (p : bool * bool) : option string := @compact_text text_json json_quotes (flags_value p).

Definition flag_serde : @Serde text_json (bool * bool) :=
  @Build_Serde text_json _ (λ p, Ok (flags_value p)) (λ p, ok_or (flags_text p) "unprintable")
    (λ s, ok_or (List.find (λ p, bool_decide (flags_text p = Some s))
                   [(true, true); (true, false); (false, true); (false, false)]) "not two flags").

Definition flag_laws : @SerdeLaws text_json (bool * bool) flag_serde.
Proof.
  split. intros [x y] fields [= <-]. split; [repeat constructor|]. simpl. repeat constructor; set_solver.
Defined.

Definition text_serde : @Serde text_json string :=
  @Build_Serde text_json _ (λ s, Ok (@VString (@json_number text_json) s)) Ok Ok.
(** Exclusive or of the flags; limited by the argument "x". *)
Definition xor_task : Task (bool * bool) string :=
  mkTask (mkTaskId Rust "logicxor" 5) task_config_default
    (λ _ p, if xorb p.1 p.2 then Ok "t" else Err (ETaskExecution "Equal" "the flags agree" None)).

Lemma typed_call_survives_its_journey_witness :
  ∃ dto, @to_dto text_json demo_errors json_quotes _ _ flag_serde pad_digest (mkTypedCall xor_task (true, false)) = Ok dto ∧
    dt_execute (@dyn_task text_json demo_errors json_quotes _ _ flag_serde text_serde xor_task 0)
      (cd_serialized_arguments dto) = Ok "t".
Proof.
  destruct (@typed_call_survives_its_journey text_json demo_errors json_quotes _ _ flag_serde text_serde
    flag_laws pad_digest xor_task 0 (true, false) (flags_value (true, false)) (default "" (flags_text (true, false))))
    as (dto & Hdto & _ & _ & _ & Hrun & _).
  - reflexivity.
  - vm_compute. reflexivity.
  - repeat constructor; intros t' _; by eexists.
  - intros [w [=]].
  - exists dto. split; [exact Hdto|]. apply Hrun. vm_compute. reflexivity.
Defined.
