(* ===== verification/Handles.v ===== *)
(** * Invocation handles and the submitting application

    Models [rustvello-core/src/invocation.rs] (what a caller holds: a handle to a
    submitted invocation, or the outcome of a synchronous run) and
    [rustvello/src/app/submission.rs] (the calls of the application).

    A wait polls.  Between two polls, and between the poll that sees the end and the
    read of the result, the rest of the system acts: [Others] says how it changes the
    state.  The number of polls is the fuel; [None] means that the caller still waits. *)
From S2P Require Import Prelude F64 Effects Json Identifiers Status Errors Config Call Invocation Trigger OrchestratorState MemOrchestrator MemOrchestratorFacts MemBroker MemStateBackend TaskCatalog Ports Orchestration Routing Dispatch Execution Runner Lifecycle Typed.

(** The two reads of the state backend that a handle adds to the ports, and what the
    theorems rely on: a read leaves the state as it is. *)
Class ResultReads (S : Type) := {
  sb_get_result : InvocationId → M RustvelloError S (option string);
  sb_get_error : InvocationId → M RustvelloError S (option TaskError)
}.

Class ReadLaws `{JsonValue} {S : Type} (P : Ports S) {RR : ResultReads S} (view : S → RuntimeView) : Prop := {
  read_status id c s :
    ctl_get_invocation_status id c s = (ok_or (v_status (view s) !! id) (EInvocationNotFound id), c, s);
  read_result id c s : sb_get_result id c s = (Ok (v_results (view s) !! id), c, s);
  read_error id c s : sb_get_error id c s = (Ok (v_errors (view s) !! id), c, s);
  wait_noted a b c s : ∃ s', ctl_set_waiting_for a b c s = (Ok tt, c, s') ∧ view s' = view s
}.

#[export] Instance mem_result_reads {T} : ResultReads (Runtime T) := {|
  sb_get_result id := on_state (mem_get_result id);
  sb_get_error id := on_state (mem_get_error id)
|}.

#[export] Instance mem_read_laws `{JsonValue, HashOrder, Chrono} {T} (tm : option (TriggerPort T)) (delay : Z) :
  ReadLaws (mem_ports tm delay) runtime_view.
Proof.
  split.
  - intros id c s. simpl. unfold on_control, zoom, mem_get_invocation_status, gets.
    destruct s; simpl. by destruct (_ !! id).
  - intros id c s. by destruct s.
  - intros id c s. by destruct s.
  - intros a b c s. eexists. by split.
Qed.

(** ** Handles *)

(** The backends of the handle are the ports. *)
(* @src rustvello-core/src/invocation.rs 40-45 InvocationHandle *)
Record InvocationHandle := mkHandle { ih_invocation_id : InvocationId }.

(** What the rest of the system does during the [k]-th pause of a wait, and between
    the poll that sees the end and the read of the result. *)
Record Others (S : Type) := mkOthers { during_pause : nat → S → S; before_result : S → S }.
#[global] Arguments during_pause {S}.
#[global] Arguments before_result {S}.

Section handle.
Context {J : JsonValue} {S : Type} {P : Ports S} {RR : ResultReads S} {R : Type} {SR : Serde R}.

(* @src rustvello-core/src/invocation.rs 68-74 InvocationHandle::status *)
Definition handle_status (h : InvocationHandle) : M RustvelloError S InvocationStatus :=
  record ← ctl_get_invocation_status (ih_invocation_id h);
  mret (rec_status record).

(* @src rustvello-core/src/invocation.rs 77-79 InvocationHandle::is_done *)
Definition handle_is_done (h : InvocationHandle) : M RustvelloError S bool :=
  status ← handle_status h; mret (is_terminal status).

(* @src rustvello-core/src/invocation.rs 84-119 InvocationHandle::result *)
Definition handle_result (h : InvocationHandle) : M RustvelloError S R :=
  let id := ih_invocation_id h in
  status ← handle_status h;
  match status with
  | Success =>
      found ← sb_get_result id;
      raw ← lift (ok_or found (EInternal ("invocation " +:+ id +:+ " has SUCCESS status but no stored result")));
      lift (deserialize raw)
  | Failed =>
      err ← sb_get_error id;
      throw (runner_err (match err with Some e => task_error_display e | None => "unknown error" end))
  | Cancelled => throw (EInvocationCancelled id)
  | other => throw (EInternal ("invocation " +:+ id +:+ " is not finished (status: " +:+
                               status_display other +:+ ")"))
  end.

(* @src rustvello-core/src/invocation.rs 135-140 InvocationHandle::wait *)
Fixpoint wait_loop (others : Others S) (polls k : nat) (h : InvocationHandle) : M RustvelloError S (option R) :=
  match polls with
  | O => mret None
  | Datatypes.S polls =>
      done ← handle_is_done h;
      if (done : bool) then
        modify (before_result others);;
        result ← handle_result h;
        mret (Some result)
      else
        modify (during_pause others k);;
        wait_loop others polls (Datatypes.S k) h
  end.

Definition note_waiting (am : Ambient) (h : InvocationHandle) : M RustvelloError S unit :=
  match am_invocation am with
  | Some ctx =>
      if decide (ix_invocation_id ctx = ih_invocation_id h) then mret tt
      else ctl_set_waiting_for (ix_invocation_id ctx) (ih_invocation_id h)
  | None => mret tt
  end.

(* @src rustvello-core/src/invocation.rs 127-141 InvocationHandle::wait *)
Definition handle_wait (am : Ambient) (others : Others S) (polls : nat) (h : InvocationHandle)
    : M RustvelloError S (option R) :=
  note_waiting am h;; wait_loop others polls 0 h.

(** [polls] is the number of polls before the deadline; the first one is made at once. *)
(* @src rustvello-core/src/invocation.rs 146-159 InvocationHandle::wait_timeout *)
Definition handle_wait_timeout (am : Ambient) (others : Others S) (polls : nat) (h : InvocationHandle)
    : M RustvelloError S R :=
  waited ← handle_wait am others polls h;
  match waited with
  | Some r => mret r
  | None => throw (runner_err ("timeout waiting for invocation " +:+ ih_invocation_id h))
  end.

(** ** Synchronous invocations, and both kinds behind one interface *)

(* @src rustvello-core/src/invocation.rs 191-195 SyncInvocation *)
Record SyncInvocation := mkSyncInvocation {
  si_invocation_id : InvocationId;
  si_status : InvocationStatus;
  si_result : RustvelloResult R
}.

(* @src rustvello-core/src/invocation.rs 199-205 SyncInvocation::success *)
Definition sync_success (id : InvocationId) (result : R) : SyncInvocation := mkSyncInvocation id Success (Ok result).
(* @src rustvello-core/src/invocation.rs 208-214 SyncInvocation::failed *)
Definition sync_failed (id : InvocationId) (error : RustvelloError) : SyncInvocation :=
  mkSyncInvocation id Failed (Err error).

(* @src rustvello-core/src/invocation.rs 254-259 Invocation *)
Inductive AnyInvocation := InvSync (s : SyncInvocation) | InvDistributed (h : InvocationHandle).

(* @src rustvello-core/src/invocation.rs 263-268 Invocation::invocation_id *)
Definition any_invocation_id (i : AnyInvocation) : InvocationId :=
  match i with InvSync s => si_invocation_id s | InvDistributed h => ih_invocation_id h end.
(* @src rustvello-core/src/invocation.rs 271-276 Invocation::status *)
Definition any_status (i : AnyInvocation) : M RustvelloError S InvocationStatus :=
  match i with InvSync s => mret (si_status s) | InvDistributed h => handle_status h end.
(* @src rustvello-core/src/invocation.rs 279-284 Invocation::is_done *)
Definition any_is_done (i : AnyInvocation) : M RustvelloError S bool :=
  match i with InvSync s => mret true | InvDistributed h => handle_is_done h end.
(* @src rustvello-core/src/invocation.rs 290-295 Invocation::result *)
Definition any_result (i : AnyInvocation) : M RustvelloError S R :=
  match i with InvSync s => lift (si_result s) | InvDistributed h => handle_result h end.
(* @src rustvello-core/src/invocation.rs 298-303 Invocation::wait *)
Definition any_wait (am : Ambient) (others : Others S) (polls : nat) (i : AnyInvocation)
    : M RustvelloError S (option R) :=
  match i with
  | InvSync s => r ← lift (si_result s); mret (Some r)
  | InvDistributed h => handle_wait am others polls h
  end.
(* @src rustvello-core/src/invocation.rs 306-315 Invocation::wait_timeout *)
Definition any_wait_timeout (am : Ambient) (others : Others S) (polls : nat) (i : AnyInvocation)
    : M RustvelloError S R :=
  match i with InvSync s => lift (si_result s) | InvDistributed h => handle_wait_timeout am others polls h end.
End handle.
#[global] Arguments SyncInvocation R : clear implicits.
#[global] Arguments AnyInvocation R : clear implicits.

(** ** The application *)

Section app.
Context {J : JsonValue} {S : Type} {P : Ports S} {RR : ResultReads S} {W : W3C} {U : Uuid}.
Context {E : Environment} {PF : ParseF64} {UC : UnicodeCase} {G : Glob}.
Context {JE : JsonErrors} {SS : SerdeString} {SM : SerdeMap} {SH : Sha256}.
Context (app_config : AppConfig) (catalog : TaskCatalog) (am : Ambient) (fresh : InvocationId).

(* @src rustvello/src/app/submission.rs 20-36 RustvelloApp::submit_with_id *)
Definition app_submit_with_id (id : InvocationId) (task_id : TaskId) (args : SerializedArguments)
    (trace_context : option TraceContextCarrier) : M RustvelloError S InvocationId :=
  submit_with_id app_config catalog am fresh (call_dto_new task_id args) trace_context (Some id).

(* @src rustvello/src/app/submission.rs 52-66 RustvelloApp::submit_with_trace_context *)
Definition submit_with_trace_context (task_id : TaskId) (args : SerializedArguments)
    (trace_context : option TraceContextCarrier) : M RustvelloError S InvocationId :=
  submit_with_id app_config catalog am fresh (call_dto_new task_id args) trace_context None.

(* @src rustvello/src/app/submission.rs 43-49 RustvelloApp::submit *)
Definition app_submit (task_id : TaskId) (args : SerializedArguments) : M RustvelloError S InvocationId :=
  submit_with_trace_context task_id args None.

(* @src rustvello/src/app/submission.rs 80-89 RustvelloApp::submit_with_cc *)
Definition submit_with_cc (task_id : TaskId) (args : SerializedArguments) (key_args : option SerializedArguments)
    : M RustvelloError S InvocationId :=
  submit_with_registration_control app_config catalog am fresh task_id args.

(* @src rustvello/src/app/submission.rs 94-111 RustvelloApp::submit_sync *)
Definition submit_sync (task_id : TaskId) (args : SerializedArguments) : RustvelloResult string :=
  task_def ← ok_or (get_legacy (cat_registry catalog) task_id) (ETaskNotRegistered task_id);
  args_json ← json_map args;
  td_func task_def args_json.

(* @src rustvello/src/app/submission.rs 114-124 RustvelloApp::get_status *)
Definition app_get_status (id : InvocationId) : M RustvelloError S InvocationStatus :=
  record ← ctl_get_invocation_status id; mret (rec_status record).

(* @src rustvello/src/app/submission.rs 133-141 RustvelloApp::cancel *)
Definition app_cancel (id : InvocationId) : M RustvelloError S CancelOutcome :=
  cancel_invocation id (rx_runner_id (get_or_create_runner_context am)).

(* @src rustvello/src/app/submission.rs 144-152 RustvelloApp::get_result *)
Definition app_get_result (id : InvocationId) : M RustvelloError S (option string) := sb_get_result id.

Section typed.
Context {A R : Type} {SA : Serde A} {SR : Serde R}.

(* @src rustvello/src/app/submission.rs 159-186 RustvelloApp::submit_call *)
Definition submit_call (task : Task A R) (params : A) : M RustvelloError S InvocationHandle :=
  let task_id := t_task_id task in
  if negb (catalog_contains catalog task_id) then throw (ETaskNotRegistered task_id)
  else
    dto ← lift (to_dto (mkTypedCall task params));
    invocation_id ← submit app_config catalog am fresh dto;
    mret (mkHandle invocation_id).

(* @src rustvello/src/app/submission.rs 189-210 RustvelloApp::submit_call_with_id *)
Definition submit_call_with_id (id : InvocationId) (task : Task A R) (params : A)
    (trace_context : option TraceContextCarrier) : M RustvelloError S InvocationHandle :=
  call ← lift (to_dto (mkTypedCall task params));
  id ← app_submit_with_id id (cd_task_id call) (cd_serialized_arguments call) trace_context;
  mret (mkHandle id).

(* @src rustvello/src/app/submission.rs 221-231 RustvelloApp::submit_call_with_key *)
Definition submit_call_with_key (key : string) (task : Task A R) (params : A)
    (trace_context : option TraceContextCarrier) : M RustvelloError S InvocationHandle :=
  submit_call_with_id (invocation_id_from_key (t_task_id task) key) task params trace_context.

(* @src rustvello/src/app/submission.rs 237-255 RustvelloApp::submit_foreign_call *)
Definition submit_foreign_call (task : ForeignTask) (params : A) : M RustvelloError S InvocationHandle :=
  let task_id := ft_task_id task in
  if negb (catalog_contains catalog task_id) then throw (ETaskNotRegistered task_id)
  else
    args ← lift (params_to_serialized_arguments params);
    invocation_id ← app_submit task_id args;
    mret (mkHandle invocation_id).

(* @src rustvello/src/app/submission.rs 263-265 RustvelloApp::execute_sync *)
Definition execute_sync (task : Task A R) (n : nat) (params : A) : RustvelloResult R := t_run task n params.

(** [n] runs are left, the next one is the [attempt]-th. *)
(* @src rustvello/src/app/submission.rs 317-343 RustvelloApp::run_sync_with_retries *)
Fixpoint attempts_loop (id : InvocationId) (runs : nat → RustvelloResult R) (n attempt : nat)
    (last_err : option RustvelloError) : RustvelloResult (SyncInvocation R) :=
  match n with
  | O => Ok (sync_failed id (default (EInternal "retry loop exited without result") last_err))
  | Datatypes.S n =>
      match runs attempt with
      | Ok result => Ok (sync_success id result)
      | Err e => attempts_loop id runs n (Datatypes.S attempt) (Some e)
      | Panic p => Panic p
      end
  end.

(* @src rustvello/src/app/submission.rs 307-344 RustvelloApp::run_sync_with_retries *)
Definition run_sync_with_retries (task : Task A R) (params : A) : RustvelloResult (SyncInvocation R) :=
  let max_retries := tc_max_retries (t_config task) in
  attempts_loop fresh (λ n, t_run task n params) (Datatypes.S (Z.to_nat max_retries)) 0 None.

(* @src rustvello/src/app/submission.rs 275-301 RustvelloApp::call *)
Definition app_call (task : Task A R) (params : A) : M RustvelloError S (AnyInvocation R) :=
  let task_id := t_task_id task in
  if negb (catalog_contains catalog task_id) then throw (ETaskNotRegistered task_id)
  else if ac_dev_mode_force_sync app_config then
    s ← lift (run_sync_with_retries task params); mret (InvSync s)
  else
    handle ← submit_call task params; mret (InvDistributed handle).
End typed.
End app.

(** ** Theorems *)

(** What a handle answers when the backends hold [v]: its invocation's result. *)
Definition outcome_in `{JsonValue} {R} {SR : Serde R} (v : RuntimeView) (id : InvocationId) : RustvelloResult R :=
  match rec_status <$> v_status v !! id with
  | None => Err (EInvocationNotFound id)
  | Some Success =>
      match v_results v !! id with
      | Some raw => deserialize raw
      | None => Err (EInternal ("invocation " +:+ id +:+ " has SUCCESS status but no stored result"))
      end
  | Some Failed => Err (runner_err (from_option task_error_display "unknown error" (v_errors v !! id)))
  | Some Cancelled => Err (EInvocationCancelled id)
  | Some st => Err (EInternal ("invocation " +:+ id +:+ " is not finished (status: " +:+ status_display st +:+ ")"))
  end.

(** The invocation has ended, or is unknown. *)
Definition settled (v : RuntimeView) (id : InvocationId) : bool :=
  match rec_status <$> v_status v !! id with Some st => is_terminal st | None => true end.

(** The state before the [k]-th pause, from the state [s] of the first poll. *)
Fixpoint after_pauses {S} (others : Others S) (j k : nat) (s : S) : S :=
  match k with O => s | Datatypes.S k => after_pauses others (Datatypes.S j) k (during_pause others j s) end.

Section waiting.
Context {J : JsonValue} {S : Type} {P : Ports S} {RR : ResultReads S} {view : S → RuntimeView} {L : ReadLaws P view}.
Context {R : Type} {SR : Serde R}.

Lemma handle_result_run h c s : handle_result h c s = (outcome_in (R := R) (view s) (ih_invocation_id h), c, s).
Proof.
  unfold handle_result, handle_status, outcome_in, mbind, M_bind, mret, M_ret. rewrite read_status.
  destruct (v_status (view s) !! ih_invocation_id h) as [rec|]; [|done]. simpl.
  destruct (rec_status rec); try done.
  - rewrite read_result. unfold lift. by destruct (v_results (view s) !! _).
  - rewrite read_error. by destruct (v_errors (view s) !! _).
Qed.

Lemma is_done_run h c s : handle_is_done h c s =
  (match rec_status <$> v_status (view s) !! ih_invocation_id h with
   | Some st => Ok (is_terminal st) | None => Err (EInvocationNotFound (ih_invocation_id h)) end, c, s).
Proof.
  unfold handle_is_done, handle_status, mbind, M_bind, mret, M_ret. rewrite read_status.
  by destruct (v_status (view s) !! ih_invocation_id h).
Qed.

(** A poll that sees the invocation settled ends the wait, with the outcome that is
    stored when it is read. *)
Definition wait_ends (others : Others S) (id : InvocationId) (s : S) : RustvelloResult R :=
  match v_status (view s) !! id with
  | None => Err (EInvocationNotFound id)
  | Some _ => outcome_in (view (before_result others s)) id
  end.

Lemma wait_loop_step others polls k h c s :
  wait_loop others (Datatypes.S polls) k h c s =
    if settled (view s) (ih_invocation_id h) then
      ((r ← wait_ends others (ih_invocation_id h) s; Ok (Some r)), c,
       if v_status (view s) !! ih_invocation_id h is Some _ then before_result others s else s)
    else wait_loop others polls (Datatypes.S k) h c (during_pause others k s).
Proof.
  cbn [wait_loop]. unfold mbind at 1, M_bind at 1. rewrite is_done_run. unfold settled, wait_ends.
  destruct (v_status (view s) !! ih_invocation_id h) as [rec|]; [|done]. cbn.
  destruct (is_terminal (rec_status rec)); [|done].
  unfold mbind, M_bind, modify, mret, M_ret. rewrite handle_result_run.
  by destruct (outcome_in _ _).
Qed.

(** Where the rest of the system has brought the backends when a wait ends that saw its
    invocation settled in [s]. *)
Definition read_in (others : Others S) (id : InvocationId) (s : S) : S :=
  if v_status (view s) !! id is Some _ then before_result others s else s.

Lemma wait_loop_settles others h n : ∀ polls k c s,
  (∀ j, (j < n)%nat → settled (view (after_pauses others k j s)) (ih_invocation_id h) = false) →
  settled (view (after_pauses others k n s)) (ih_invocation_id h) = true → (n < polls)%nat →
  wait_loop others polls k h c s =
    ((r ← wait_ends others (ih_invocation_id h) (after_pauses others k n s); Ok (Some r)), c,
     read_in others (ih_invocation_id h) (after_pauses others k n s)).
Proof.
  induction n as [|n IH]; intros [|polls] k c s Hbusy Hend Hn; try lia; rewrite wait_loop_step.
  - simpl in Hend. by rewrite Hend.
  - pose proof (Hbusy 0%nat ltac:(lia)) as H0. cbn [after_pauses] in H0. rewrite H0. apply IH; [|exact Hend|lia].
    intros j Hj. apply (Hbusy (Datatypes.S j)). lia.
Qed.

Lemma wait_loop_busy others h polls : ∀ k c s,
  (∀ j, (j < polls)%nat → settled (view (after_pauses others k j s)) (ih_invocation_id h) = false) →
  wait_loop (R := R) others polls k h c s = (Ok None, c, after_pauses others k polls s).
Proof.
  induction polls as [|polls IH]; intros k c s Hbusy; [done|]. rewrite wait_loop_step.
  pose proof (Hbusy 0%nat ltac:(lia)) as H0. cbn [after_pauses] in H0. rewrite H0. apply IH. intros j Hj. apply (Hbusy (Datatypes.S j)). lia.
Qed.

Lemma note_waiting_run am h c s : ∃ s', note_waiting am h c s = (Ok tt, c, s') ∧ view s' = view s.
Proof.
  unfold note_waiting. destruct (am_invocation am) as [ctx|]; [|by exists s].
  case_decide; [by exists s|apply wait_noted].
Qed.

Lemma waits_run am others polls h c s :
  let noted := state_after (note_waiting am h) c s in
  view noted = view s ∧
  handle_wait (R := R) am others polls h c s = wait_loop others polls 0 h c noted ∧
  handle_wait_timeout (R := R) am others polls h c s =
    (waited ← wait_loop others polls 0 h;
     lift (ok_or waited (runner_err ("timeout waiting for invocation " +:+ ih_invocation_id h)))) c noted.
Proof.
  destruct (note_waiting_run am h c s) as (s' & Hn & Hv).
  assert (handle_wait (R := R) am others polls h c s = wait_loop others polls 0 h c s') as Hw
    by (unfold handle_wait, mbind, M_bind; by rewrite Hn).
  assert (state_after (note_waiting am h) c s = s') as -> by (unfold state_after; by rewrite Hn).
  split_and!; [done|done|]. unfold handle_wait_timeout, mbind, M_bind. rewrite Hw.
  by destruct (wait_loop others polls 0 h c s') as [[[[r|]|e|e] c'] s''].
Qed.

(** C20: Waiting for a result, against everything the rest of the system does between
    the polls, on backends whose reads do not fail (the laws [ReadLaws]).  Whenever the
    invocation is settled at the [n]-th poll and not before, every wait that polls more
    often ends there, with the outcome the backends hold when it is read: the stored
    value, the stored error, the cancellation, that the invocation is unknown, or, for
    one that was finally rejected by its concurrency limit, the internal error that it
    is not finished.  While it is not settled a wait goes on, and one with a deadline
    ends in the timeout.  A wait writes nothing but the note that its own invocation
    waits: at its end the backends are where the others have brought them, starting
    from the note. *)
Theorem waiting_behaviour am others h c s :
  let noted := state_after (note_waiting am h) c s in
  let id := ih_invocation_id h in
  view noted = view s ∧
  (∀ n polls, (∀ j, (j < n)%nat → settled (view (after_pauses others 0 j noted)) id = false) →
     settled (view (after_pauses others 0 n noted)) id = true → (n < polls)%nat →
     let now := after_pauses others 0 n noted in
     let ending := wait_ends others id now in
     handle_wait am others polls h c s = ((r ← ending; Ok (Some r)), c, read_in others id now) ∧
     handle_wait_timeout am others polls h c s = (ending, c, read_in others id now)) ∧
  (∀ polls, (∀ j, (j < polls)%nat → settled (view (after_pauses others 0 j noted)) id = false) →
     handle_wait (R := R) am others polls h c s = (Ok None, c, after_pauses others 0 polls noted) ∧
     handle_wait_timeout (R := R) am others polls h c s =
       (Err (runner_err ("timeout waiting for invocation " +:+ id)), c, after_pauses others 0 polls noted)).
Proof.
  intros noted id. split; [by destruct (waits_run am others 0 h c s)|]. split.
  - intros n polls Hbusy Hend Hn now ending. destruct (waits_run am others polls h c s) as (_ & -> & ->). fold noted.
    pose proof (wait_loop_settles others h n polls 0 c noted Hbusy Hend Hn) as Hw. fold id now ending in Hw.
    unfold mbind at 2, M_bind. rewrite Hw. split; [done|]. by destruct ending.
  - intros polls Hbusy. destruct (waits_run am others polls h c s) as (_ & -> & ->). fold noted.
    unfold mbind, M_bind. by rewrite (wait_loop_busy others h polls 0 c noted Hbusy).
Qed.

(** [ConcurrencyControlledFinal] is terminal, so a wait for it ends, in the error that
    the invocation is not finished. *)
Lemma turned_away_invocation_is_done_and_unfinished h c s rec :
  v_status (view s) !! ih_invocation_id h = Some rec → rec_status rec = ConcurrencyControlledFinal →
  result_of (handle_is_done h) c s = Ok true ∧
  result_of (handle_result (R := R) h) c s =
    Err (EInternal ("invocation " +:+ ih_invocation_id h +:+
      " is not finished (status: CONCURRENCY_CONTROLLED_FINAL)")).
Proof.
  intros Hs Hst. unfold result_of. rewrite is_done_run, handle_result_run. unfold outcome_in. rewrite Hs. cbn. by rewrite Hst.
Qed.
End waiting.

(** ** Synchronous calls *)

Section sync.
Context {R : Type} (id : InvocationId) (runs : nat → RustvelloResult R).

Definition failed_before (k : nat) : Prop := ∀ j, (j < k)%nat → ∃ e, runs j = Err e.

(** How a synchronous call of at most [n] more runs ends. *)
Definition sync_ends (first n : nat) (r : RustvelloResult (SyncInvocation R)) : Prop :=
  (∃ k x, (first ≤ k ≤ first + n)%nat ∧ failed_before k ∧ runs k = Ok x ∧ r = Ok (sync_success id x)) ∨
  (∃ k p, (first ≤ k ≤ first + n)%nat ∧ failed_before k ∧ runs k = Panic p ∧ r = Panic p) ∨
  (∃ e, failed_before (first + n) ∧ runs (first + n)%nat = Err e ∧ r = Ok (sync_failed id e)).

Lemma failed_before_S k e : failed_before k → runs k = Err e → failed_before (Datatypes.S k).
Proof. intros Hk He j Hj. destruct (decide (j = k)) as [->|]; [by exists e|apply Hk; lia]. Qed.

Lemma attempts_loop_run n : ∀ k last, failed_before k → sync_ends k n (attempts_loop id runs (Datatypes.S n) k last).
Proof.
  induction n as [|n IH]; intros k last Hk; cbn [attempts_loop]; unfold sync_ends;
    destruct (runs k) as [x|e|p] eqn:Hr.
  1,4: left; exists k, x; split_and!; [lia|lia|done..].
  2,4: right; left; exists k, p; split_and!; [lia|lia|done..].
  - right; right. exists e. rewrite Nat.add_0_r. done.
  - replace (k + Datatypes.S n)%nat with (Datatypes.S k + n)%nat by lia.
    destruct (IH (Datatypes.S k) (Some e) (failed_before_S k e Hk Hr)) as [(j & x & ? & H)|[(j & p & ? & H)|H]].
    + left. exists j, x. split; [lia|done].
    + right; left. exists j, p. split; [lia|done].
    + by right; right.
Qed.
End sync.

(** ** From a call to its result *)

Section calls.
Context {J : JsonValue} {HO : HashOrder} {CH : Chrono} {T : Type} {EC : ExecutionCodec}.
Context {FP : FloatPowi} {E : Environment} {PF : ParseF64} {UC : UnicodeCase} {G : Glob} {SF : Shuffle}.
Context {SH : Sha256} {SS : SerdeString} {W : W3C} {JE : JsonErrors} (delay : Z).
Context {A R : Type} {SA : Serde A} {SR : Serde R} {AL : SerdeLaws A}.
#[local] Instance calls_ports : Ports (Runtime T) := mem_ports None delay.
Context (app_config : AppConfig) (catalog : TaskCatalog) (caller : Ambient) (fresh : InvocationId).
Context (task : Task A R) (p : A).

(** A call in the synchronous mode.  A registered task is run at once, at most
    [max_retries] times more after a first failure, and nothing is written: the answer
    holds the first value a run returns, or the error of the last run; a panic of a run
    is the panic of the call.  A task that is not registered is refused. *)
Theorem synchronous_call_behaviour c s :
  let called := app_call app_config catalog caller fresh task p c s in
  ac_dev_mode_force_sync app_config = true →
  if catalog_contains catalog (t_task_id task) then
    ∃ r, sync_ends fresh (λ n, t_run task n p) 0 (Z.to_nat (tc_max_retries (t_config task))) r ∧
      called = ((i ← r; Ok (InvSync i)), c, s)
  else called = (Err (ETaskNotRegistered (t_task_id task)), c, s).
Proof.
  intros called Hsync. unfold called, app_call. destruct (catalog_contains _ _); [|done]. cbn [negb]. rewrite Hsync.
  exists (run_sync_with_retries fresh task p). split.
  - apply attempts_loop_run. intros j Hj. lia.
  - unfold mbind at 1, M_bind, lift. by destruct (run_sync_with_retries fresh task p).
Qed.

(** A wait for an invocation that has already ended leaves the note that its own
    invocation waits: the waiters were released when the other one ended, and nothing
    releases this one. *)
Lemma late_wait_leaves_its_note am ctx others polls h c (s : Runtime T) rec :
  am_invocation am = Some ctx → ix_invocation_id ctx ≠ ih_invocation_id h →
  v_status (runtime_view s) !! ih_invocation_id h = Some rec → is_terminal (rec_status rec) = true →
  (∀ s, before_result others s = s) →
  waiting_for (rt_control (state_after (handle_wait (R := R) am others (Datatypes.S polls) h) c s))
    !! ix_invocation_id ctx = Some (ih_invocation_id h).
Proof.
  intros Hctx Hne Hs Hterm Hquiet. unfold state_after, handle_wait, note_waiting, mbind at 1, M_bind at 1. rewrite Hctx.
  rewrite decide_False by done.
  unfold calls_ports. cbn [ctl_set_waiting_for mem_ports]. unfold on_control, zoom, mem_set_waiting_for, modify. cbn -[wait_loop].
  rewrite wait_loop_step. unfold settled. cbn in Hs |- *. rewrite Hs. cbn. rewrite Hterm, Hquiet. cbn.
  apply lookup_insert_eq.
Qed.

(** The distributed call is the submission of its stored form. *)
Lemma app_call_submits dto c s : ac_dev_mode_force_sync app_config = false →
  catalog_contains catalog (t_task_id task) = true → to_dto (mkTypedCall task p) = Ok dto →
  app_call app_config catalog caller fresh task p c s =
    (i ← submission delay app_config catalog caller fresh dto None; mret (InvDistributed (mkHandle i))) c s.
Proof.
  intros Hasync Hknown Hdto. unfold app_call. rewrite Hknown, Hasync. cbn [negb].
  unfold submit_call. rewrite Hknown. cbn [negb].
  unfold mbind, M_bind, lift, mret, M_ret. rewrite Hdto. unfold submission, submit.
  by destruct (submit_with_id _ _ _ _ _ _ _ c s) as [[[i|e|e] c'] s'].
Qed.

Section distributed.
Context (n : nat) (dto : CallDTO) (worker : RunnerId) (drawn : nat) (random_unit : f64).
Context (middlewares : list (TaskMiddleware (S := Runtime T))).

(** The configuration the call is submitted and executed under. *)
Definition resolved_config : TaskConfig := call_config app_config catalog dto (dyn_task task n).

(** What the caller's handle answers after the worker's poll, and what the poll does,
    when the attempt answers [answer]. *)
Definition came_back (answer : RustvelloResult string) (polled : RustvelloResult bool) (result : RustvelloResult R) : Prop :=
  match answer with
  | Ok text => polled = Ok true ∧ result = deserialize text
  | Err e =>
      polled = Ok true ∧
      if should_retry (t_config task) resolved_config 0 false (task_error_of e)
      then result = Err (EInternal ("invocation " +:+ fresh +:+ " is not finished (status: RETRY)"))
      else result = Err (runner_err (task_error_display (task_error_of e)))
  | Panic m => polled = Panic m
  end.

(** The outcome a handle reads in the view that a poll leaves. *)
Lemma ended_call_comes_back answer polled v' :
  submitted_call_ended (T := T) delay app_config catalog fresh dto (dyn_task task n) random_unit answer None polled v' →
  came_back answer polled (outcome_in v' fresh).
Proof.
  unfold submitted_call_ended, came_back. fold resolved_config. destruct answer as [text|e|m]; [| |done].
  - intros ((-> & Hs & _) & Hr & _). split; [done|]. unfold outcome_in. by rewrite Hs, Hr.
  - cbn [timed_out]. destruct (should_retry _ _ _ _ _).
    + intros ((-> & Hs & _) & _). split; [done|]. unfold outcome_in. by rewrite Hs.
    + intros ((-> & Hs & _) & _ & He). split; [done|]. unfold outcome_in. by rewrite Hs, He.
Qed.

(** C2: A typed call comes back, in one undisturbed pass.  The setting is that of the
    submitted call: the in-memory backends without a trigger manager, an unused
    invocation id, an empty queue, nobody waiting, a free slot if the task is limited,
    a registered task with a valid route and valid attempt limits, one polled queue and
    the task's language, quiet middleware hooks, and an attempt that runs the task's
    body, within its timeout, while nobody else changes the backends.  The parameters
    print, their printed fields parse, and they are not an object whose only field is
    __args__.  Then the caller holds a handle, and after the next poll the handle
    answers what serde reads from the text the worker stored: the printed result of the
    task's run on what serde reads from the text of the parameters.  When serde reads
    back these parameters and this result from their texts (it does not for a NaN, say)
    the handle answers the very value the task returns for the parameters.  An error
    comes back as its text or, while it is to be retried, as the invocation not being
    finished. *)
Theorem typed_call_comes_back am lang (run : InvocationId → ∀ limits, AttemptRun limits) limits trace v t c s c1 c2 :
  let called := app_call app_config catalog caller fresh task p in
  let s1 := state_after called c s in
  let m := poll delay app_config catalog middlewares worker drawn random_unit am lang run in
  let handle := InvDistributed (mkHandle fresh) in
  serde_to_value p = Ok v → compact_text v = Some t → fields_parse v → ¬ lone_args v → to_dto (mkTypedCall task p) = Ok dto →
  ac_dev_mode_force_sync app_config = false → catalog_get catalog (t_task_id task) = Some (dyn_task task n) →
  unused (runtime_view s) fresh → v_queue (runtime_view s) = [] → waiters (rt_control s) = ∅ → slot_is_free fresh dto (dyn_task task n) s →
  resolve_trace_context caller None = Ok trace →
  validate_routing (tc_queue resolved_config) (tc_priority resolved_config) = Ok tt →
  retrieval_queues app_config = [tc_queue resolved_config] → task_language (t_task_id task) = lang →
  limits_new (task_timeout resolved_config) (ac_cancellation_check_interval_seconds app_config) = Ok limits →
  quiet_hooks runtime_view middlewares → undisturbed runtime_view (run fresh limits) →
  race_outcome (run fresh limits) = (dt_execute (dyn_task task n) (cd_serialized_arguments dto), None) →
  result_of called c s = Ok handle ∧
  let answer := result_of (any_result handle) c2 (state_after m c1 s1) in
  came_back (run_on_text task n t) (result_of m c1 s1) answer ∧
  (serde_from_str t = Ok p → ∀ result text, t_run task n p = Ok result → serialize result = Ok text →
     serde_from_str text = Ok result → answer = Ok result).
Proof.
  intros called s1 m handle Hv Ht Hparse Hlone Hdto Hasync Htask Hunused Hempty Hw Hfree Htrace Hroute Hqs Hlang Hlim Hhooks Hquiet Hrun.
  destruct (stored_call_runs task n p v t dto Hv Ht Hparse Hdto Hlone) as [Hid Hexec].
  assert (catalog_contains catalog (t_task_id task) = true) as Hknown
    by (apply bool_decide_true; unfold catalog_get, get_dyn in Htask; rewrite Htask; by eexists).
  pose proof (app_call_submits dto c s Hasync Hknown Hdto) as Hcall. fold called in Hcall.
  destruct (submitted_call_run delay app_config catalog middlewares caller fresh dto None (dyn_task task n) worker drawn
    random_unit am lang run limits trace c s c1) as [Hok Hend]; rewrite ?Hid; try done.
  set (sub := submission delay app_config catalog caller fresh dto None) in *.
  assert (result_of called c s = Ok handle ∧ s1 = state_after sub c s) as [Hr Hs1].
  { unfold result_of, s1, state_after in *. rewrite Hcall. unfold mbind, M_bind, mret, M_ret.
    destruct (sub c s) as [[[i|e|e] c'] s']; try done. simpl in Hok. injection Hok as ->. done. }
  split; [exact Hr|]. rewrite Hs1. fold m in Hend.
  rewrite Hrun, Hexec in Hend. cbn [fst snd] in Hend. apply ended_call_comes_back in Hend.
  assert (result_of (any_result handle) c2 (state_after m c1 (state_after sub c s)) =
    outcome_in (runtime_view (state_after m c1 (state_after sub c s))) fresh) as Hread
    by (unfold any_result, handle, result_of; by rewrite handle_result_run).
  cbv zeta. rewrite Hread. split; [exact Hend|]. intros Hback result text Hbody Htext Hres.
  rewrite (run_on_text_read _ _ _ _ Hback), Hbody in Hend. cbn [mbind outcome_bind] in Hend. rewrite Htext in Hend.
  destruct Hend as [_ ->]. unfold deserialize, serialization. by rewrite Hres.
Qed.
End distributed.
End calls.

(** ** Witnesses *)

(** "i1" runs on "w1", which reports its result during the first pause. *)
Definition demo_others : Others (Runtime unit) :=
  {| during_pause _ s := state_after (set_invocation_result_with_context (P := demo_ports) "i1" "42" "w1" demo_task
       arguments_new) demo_clock s; before_result s := s |}.

Definition demo_read_laws := @mem_read_laws text_json identity_order chrono_in_seconds unit None 0.

Lemma waiting_behaviour_witness :
  result_of (handle_wait (P := demo_ports) (SR := text_serde) demo_ambient demo_others 3 (mkHandle "i1"))
    demo_clock demo_running = Ok (Some "42").
Proof.
  destruct (@waiting_behaviour text_json _ demo_ports _ runtime_view demo_read_laws string text_serde demo_ambient
    demo_others (mkHandle "i1") demo_clock demo_running) as (_ & Hends & _).
  destruct (Hends 1%nat 3%nat) as [Hw _].
  - intros [|j] Hj; [vm_compute; reflexivity|lia].
  - vm_compute. reflexivity.
  - lia.
  - unfold result_of. rewrite Hw. vm_compute. reflexivity.
Defined.

(** [xor_task] is registered; the flags are called with. *)
Definition flags_catalog : TaskCatalog :=
  catalog_from_registry {| tr_tasks := {[ t_task_id xor_task := @dyn_task text_json demo_errors json_quotes _ _ flag_serde text_serde xor_task 0 ]};
                           tr_legacy := ∅ |}.

Definition force_sync (c : AppConfig) : AppConfig :=
  mkAppConfig (ac_app_id c) (ac_broker_queues c) (ac_runner_queues c) (ac_queue_selection_strategy c)
    (ac_priority_rules c) true (ac_max_pending_seconds c) (ac_heartbeat_interval_seconds c)
    (ac_runner_dead_after_seconds c) (ac_recovery_check_interval_seconds c) (ac_max_invocation_recoveries c)
    (ac_print_arguments c) (ac_argument_print_mode c) (ac_truncate_arguments_length c) (ac_recover_pending_cron c)
    (ac_recover_running_cron c) (ac_trigger_task_modules c) (ac_cached_status_time_seconds c) (ac_logging_level c)
    (ac_log_format c) (ac_log_use_colors c) (ac_compact_log_context c) (ac_blocking_control c)
    (ac_auto_final_invocation_purge_hours c) (ac_scheduler_interval_seconds c) (ac_enable_scheduler c)
    (ac_atomic_service_interval_minutes c) (ac_atomic_service_spread_margin_minutes c)
    (ac_atomic_service_check_interval_minutes c) (ac_cancellation_check_interval_seconds c).

(** The body of this task fails in its first run. *)
Definition flaky_task : Task (bool * bool) string :=
  mkTask (t_task_id xor_task) (apply_to (mkOverride None None (Some 2) None None None None None None None None None None None None None None None
      None None None) task_config_default)
    (λ n _, match n with O => Err (ETaskExecution "Network" "down" None) | _ => Ok "up" end).

(** The second run answers. *)
Lemma synchronous_call_behaviour_witness :
  let called := @app_call text_json _ demo_ports any_trace (env_list []) parse_one ascii_case literal_glob demo_errors
    json_quotes pad_digest (force_sync (app_config_new "app")) flags_catalog demo_ambient "i9" _ _ flag_serde flaky_task
    (true, false) in
  ∃ id, called demo_clock demo_running = (Ok (InvSync (sync_success id "up")), demo_clock, demo_running).
Proof.
  intros called.
  destruct (@synchronous_call_behaviour text_json identity_order chrono_in_seconds unit (env_list []) parse_one ascii_case
    literal_glob pad_digest json_quotes any_trace demo_errors 0 _ _ flag_serde (force_sync (app_config_new "app"))
    flags_catalog demo_ambient "i9" flaky_task (true, false) demo_clock demo_running eq_refl) as (r & Hr & Hcall).
  exists "i9". etrans; [exact Hcall|].
  destruct Hr as [(k & x & _ & Hbefore & Hk & ->)|[(k & m & _ & _ & Hk & _)|(e & _ & Hlast & _)]].
  - destruct k; [done|]. by injection Hk as <-.
  - by destruct k.
  - done.
Defined.

(** The attempt runs the body of [xor_task] on the flags. *)
Definition xor_run (id : InvocationId) (limits : AttemptLimits) : AttemptRun (S := Runtime unit) limits :=
  BodyReturns limits (λ s, s) 0 (Ok "t").

Definition xor_dto : CallDTO :=
  match @to_dto text_json demo_errors json_quotes _ _ flag_serde pad_digest (mkTypedCall xor_task (true, false)) with
  | Ok dto => dto
  | _ => demo_call
  end.

Definition xor_called : M RustvelloError (Runtime unit) (AnyInvocation string) :=
  @app_call text_json _ demo_ports any_trace (env_list []) parse_one ascii_case literal_glob demo_errors json_quotes
    pad_digest (app_config_new "app") flags_catalog demo_ambient "i9" _ _ flag_serde xor_task (true, false).

Definition xor_polled : M RustvelloError (Runtime unit) bool :=
  @poll text_json identity_order chrono_in_seconds unit digit_codec first_power (env_list []) parse_one ascii_case
    literal_glob same_order 0 (app_config_new "app") flags_catalog [] "w1" 0 0 demo_ambient Rust xor_run.

Lemma typed_call_comes_back_witness :
  let s1 := state_after xor_called demo_clock (runtime_new tt) in
  let s2 := state_after xor_polled demo_clock s1 in
  result_of (any_result (P := demo_ports) (SR := text_serde) (InvDistributed (mkHandle "i9"))) demo_clock s2 = Ok "t".
Proof.
  intros s1 s2.
  destruct (@typed_call_comes_back text_json identity_order chrono_in_seconds unit digit_codec first_power
    (env_list []) parse_one ascii_case literal_glob same_order pad_digest json_quotes any_trace demo_errors 0 _ _
    flag_serde text_serde flag_laws (app_config_new "app") flags_catalog demo_ambient "i9" xor_task (true, false) 0
    xor_dto "w1" 0 0 [] demo_ambient Rust xor_run (mkLimits None (Some (f64_of_u64 1))) trace_context_default
    (flags_value (true, false)) (default "" (flags_text (true, false))) demo_clock (runtime_new tt) demo_clock demo_clock)
    as (_ & _ & Hback).
  - reflexivity.
  - vm_compute. reflexivity.
  - repeat constructor; intros t' _; by eexists.
  - intros [w [=]].
  - vm_compute. reflexivity.
  - vm_compute. reflexivity.
  - vm_compute. reflexivity.
  - split; reflexivity.
  - vm_compute. reflexivity.
  - vm_compute. reflexivity.
  - left. reflexivity.
  - vm_compute. reflexivity.
  - vm_compute. reflexivity.
  - vm_compute. reflexivity.
  - reflexivity.
  - vm_compute. reflexivity.
  - constructor.
  - exact (λ s, eq_refl).
  - vm_compute. reflexivity.
  - eapply Hback; [vm_compute; reflexivity|reflexivity|reflexivity|reflexivity].
Defined.
