(* ===== verification/SqliteDb.v ===== *)
(** * The SQLite database

    Models the schema and the transactions of [rustvello-sqlite/src/db.rs], on
    which the broker, the orchestrator and the state backend of the SQLite
    crate work.

    - A table is a finite map from its primary key to the other columns; the
      delivery queue and the history, whose keys are increasing row numbers, are
      lists in row order.  Statuses, timestamps and runner contexts are stored as
      the values their text stands for; task, call and workflow type ids stay the
      text that is stored, because reading them back can fail.
    - [SELECT] without [ORDER BY] and [DELETE .. LIMIT] visit rows in an
      arbitrary order ([HashOrder]).
    - A transaction works on a copy of the database and [COMMIT] publishes it;
      leaving a transaction without it rolls back.  The connection's lock and the
      immediate lock of a write transaction make an operation one run of a
      program over the database.  I/O errors, a busy database and a poisoned lock
      are not modelled.

    The theorems: a transaction that does not commit leaves the database
    unchanged, and the file of one application is never that of another. *)
From S2P Require Import Prelude Effects Identifiers Status Errors Config Call Invocation MemStateBackend OrchestratorState TriggerManager.

(** ** Tables *)

(** [created_at] is written by default and never read. *)
(* @src rustvello-sqlite/src/db.rs 172-180 broker_queue *)
Record QueueRow := mkQueueRow {
  bq_id : Z;
  bq_invocation_id : InvocationId;
  bq_task_id : option string;
  bq_queue_name : string;
  bq_priority : f64
}.

#[export] Instance QueueRow_eq_dec : EqDecision QueueRow.
Proof. solve_decision. Defined.

(** The last row number handed out is what [AUTOINCREMENT] remembers; a
    reservation is a row number with the time in milliseconds at which it ends. *)
(* @src rustvello-sqlite/src/db.rs 172-199 Database::initialize_schema *)
Record QueueTables := mkQueueTables {
  t_broker_queue : list QueueRow;
  t_broker_sequence : Z;
  t_broker_reservations : gmap Z Z
}.

(* @src rustvello-sqlite/src/db.rs 201-228 invocations *)
Record InvocationRow := mkInvocationRow {
  ir_task_id : string;
  ir_call_id : string;
  ir_status : InvocationStatus;
  ir_created_at : DateTime;
  ir_updated_at : DateTime;
  ir_parent_invocation_id : option InvocationId;
  ir_workflow_id : option InvocationId;
  ir_workflow_type : option string;
  ir_workflow_depth : option Z;
  ir_workflow_parent_id : option InvocationId;
  ir_trace_context : TraceContextCarrier
}.

(* @src rustvello-sqlite/src/db.rs 236-241 calls *)
Record CallRow := mkCallRow { cr_task_id : string; cr_serialized_arguments : string }.

(* @src rustvello-sqlite/src/db.rs 257-268 history *)
Record HistoryRow := mkHistoryRow {
  hr_invocation_id : InvocationId;
  hr_status : InvocationStatus;
  hr_runner_id : option RunnerId;
  hr_timestamp : DateTime;
  hr_message : option string;
  hr_history_timestamp : option DateTime
}.

(* @src rustvello-sqlite/src/db.rs 230-268 Database::initialize_schema *)
Record StateTables := mkStateTables {
  t_invocations : gmap InvocationId InvocationRow;
  t_submissions : gmap InvocationId string;
  t_calls : gmap string CallRow;
  t_results : gmap InvocationId string;
  t_errors : gmap InvocationId TaskError;
  t_history : list HistoryRow
}.

(* @src rustvello-sqlite/src/db.rs 305-313 runner_heartbeats *)
Record HeartbeatRow := mkHeartbeatRow {
  hb_creation_time : DateTime;
  hb_last_heartbeat : DateTime;
  hb_can_run_atomic_service : bool;
  hb_last_service_start : option DateTime;
  hb_last_service_end : option DateTime
}.

(** [cc_arg_pairs] has the key (invocation, argument key, argument value). *)
(* @src rustvello-sqlite/src/db.rs 270-319 Database::initialize_schema *)
Record ControlTables := mkControlTables {
  t_status_records : gmap InvocationId InvocationStatusRecord;
  t_waiting_for : gset (InvocationId * InvocationId);
  t_cc_arg_pairs : gmap (InvocationId * string * string) string;
  t_runner_heartbeats : gmap RunnerId HeartbeatRow;
  t_retries : gmap InvocationId Z;
  t_auto_purge_schedule : gmap InvocationId DateTime
}.

(* @src rustvello-sqlite/src/db.rs 415-425 workflow_runs *)
Record WorkflowRunRow := mkWorkflowRunRow {
  wr_workflow_type : string;
  wr_parent_workflow_id : option InvocationId;
  wr_depth : Z
}.

(* @src rustvello-sqlite/src/db.rs 415-464 Database::initialize_schema *)
Record WorkflowTables := mkWorkflowTables {
  t_workflow_runs : gmap InvocationId WorkflowRunRow;
  t_workflow_data : gmap (InvocationId * string) string;
  t_app_infos : gmap string string;
  t_workflow_sub_invocations : gset (InvocationId * InvocationId);
  t_runner_contexts : gmap string StoredRunnerContext
}.

(* @src rustvello-sqlite/src/db.rs 170-475 Database::initialize_schema *)
Record Database := mkDatabase {
  db_queue : QueueTables;
  db_state : StateTables;
  db_control : ControlTables;
  db_workflow : WorkflowTables;
  db_client_data : gmap string string
}.

(* @src rustvello-sqlite/src/db.rs 110-133 Database::in_memory *)
Definition database_new : Database :=
  {| db_queue := mkQueueTables [] 0 ∅;
     db_state := mkStateTables ∅ ∅ ∅ ∅ ∅ [];
     db_control := mkControlTables ∅ ∅ ∅ ∅ ∅ ∅;
     db_workflow := mkWorkflowTables ∅ ∅ ∅ ∅ ∅;
     db_client_data := ∅ |}.

(** ** Updates of one table *)

Definition on_queue (f : QueueTables → QueueTables) (d : Database) : Database :=
  mkDatabase (f (db_queue d)) (db_state d) (db_control d) (db_workflow d) (db_client_data d).
Definition on_state_tables (f : StateTables → StateTables) (d : Database) : Database :=
  mkDatabase (db_queue d) (f (db_state d)) (db_control d) (db_workflow d) (db_client_data d).
Definition on_control_tables (f : ControlTables → ControlTables) (d : Database) : Database :=
  mkDatabase (db_queue d) (db_state d) (f (db_control d)) (db_workflow d) (db_client_data d).
Definition on_workflow_tables (f : WorkflowTables → WorkflowTables) (d : Database) : Database :=
  mkDatabase (db_queue d) (db_state d) (db_control d) (f (db_workflow d)) (db_client_data d).

Definition upd_client_data (f : gmap string string → gmap string string) (d : Database) : Database :=
  mkDatabase (db_queue d) (db_state d) (db_control d) (db_workflow d) (f (db_client_data d)).

Definition upd_invocations (f : gmap InvocationId InvocationRow → gmap InvocationId InvocationRow) :
    Database → Database :=
  on_state_tables (λ t, mkStateTables (f (t_invocations t)) (t_submissions t) (t_calls t) (t_results t)
    (t_errors t) (t_history t)).
Definition upd_submissions (f : gmap InvocationId string → gmap InvocationId string) :
    Database → Database :=
  on_state_tables (λ t, mkStateTables (t_invocations t) (f (t_submissions t)) (t_calls t) (t_results t)
    (t_errors t) (t_history t)).
Definition upd_calls (f : gmap string CallRow → gmap string CallRow) : Database → Database :=
  on_state_tables (λ t, mkStateTables (t_invocations t) (t_submissions t) (f (t_calls t)) (t_results t)
    (t_errors t) (t_history t)).
Definition upd_results (f : gmap InvocationId string → gmap InvocationId string) :
    Database → Database :=
  on_state_tables (λ t, mkStateTables (t_invocations t) (t_submissions t) (t_calls t) (f (t_results t))
    (t_errors t) (t_history t)).
Definition upd_errors (f : gmap InvocationId TaskError → gmap InvocationId TaskError) :
    Database → Database :=
  on_state_tables (λ t, mkStateTables (t_invocations t) (t_submissions t) (t_calls t) (t_results t)
    (f (t_errors t)) (t_history t)).
Definition upd_history (f : list HistoryRow → list HistoryRow) : Database → Database :=
  on_state_tables (λ t, mkStateTables (t_invocations t) (t_submissions t) (t_calls t) (t_results t)
    (t_errors t) (f (t_history t))).

Definition upd_status_records
    (f : gmap InvocationId InvocationStatusRecord → gmap InvocationId InvocationStatusRecord) :
    Database → Database :=
  on_control_tables (λ t, mkControlTables (f (t_status_records t)) (t_waiting_for t) (t_cc_arg_pairs t)
    (t_runner_heartbeats t) (t_retries t) (t_auto_purge_schedule t)).
Definition upd_waiting_for
    (f : gset (InvocationId * InvocationId) → gset (InvocationId * InvocationId)) :
    Database → Database :=
  on_control_tables (λ t, mkControlTables (t_status_records t) (f (t_waiting_for t)) (t_cc_arg_pairs t)
    (t_runner_heartbeats t) (t_retries t) (t_auto_purge_schedule t)).
Definition upd_cc_arg_pairs
    (f : gmap (InvocationId * string * string) string → gmap (InvocationId * string * string) string) :
    Database → Database :=
  on_control_tables (λ t, mkControlTables (t_status_records t) (t_waiting_for t) (f (t_cc_arg_pairs t))
    (t_runner_heartbeats t) (t_retries t) (t_auto_purge_schedule t)).
Definition upd_runner_heartbeats (f : gmap RunnerId HeartbeatRow → gmap RunnerId HeartbeatRow) :
    Database → Database :=
  on_control_tables (λ t, mkControlTables (t_status_records t) (t_waiting_for t) (t_cc_arg_pairs t)
    (f (t_runner_heartbeats t)) (t_retries t) (t_auto_purge_schedule t)).
Definition upd_retries (f : gmap InvocationId Z → gmap InvocationId Z) : Database → Database :=
  on_control_tables (λ t, mkControlTables (t_status_records t) (t_waiting_for t) (t_cc_arg_pairs t)
    (t_runner_heartbeats t) (f (t_retries t)) (t_auto_purge_schedule t)).
Definition upd_auto_purge_schedule (f : gmap InvocationId DateTime → gmap InvocationId DateTime) :
    Database → Database :=
  on_control_tables (λ t, mkControlTables (t_status_records t) (t_waiting_for t) (t_cc_arg_pairs t)
    (t_runner_heartbeats t) (t_retries t) (f (t_auto_purge_schedule t))).

Definition upd_workflow_runs (f : gmap InvocationId WorkflowRunRow → gmap InvocationId WorkflowRunRow) :
    Database → Database :=
  on_workflow_tables (λ t, mkWorkflowTables (f (t_workflow_runs t)) (t_workflow_data t) (t_app_infos t)
    (t_workflow_sub_invocations t) (t_runner_contexts t)).
Definition upd_workflow_data
    (f : gmap (InvocationId * string) string → gmap (InvocationId * string) string) :
    Database → Database :=
  on_workflow_tables (λ t, mkWorkflowTables (t_workflow_runs t) (f (t_workflow_data t)) (t_app_infos t)
    (t_workflow_sub_invocations t) (t_runner_contexts t)).
Definition upd_app_infos (f : gmap string string → gmap string string) : Database → Database :=
  on_workflow_tables (λ t, mkWorkflowTables (t_workflow_runs t) (t_workflow_data t) (f (t_app_infos t))
    (t_workflow_sub_invocations t) (t_runner_contexts t)).
Definition upd_workflow_sub_invocations
    (f : gset (InvocationId * InvocationId) → gset (InvocationId * InvocationId)) :
    Database → Database :=
  on_workflow_tables (λ t, mkWorkflowTables (t_workflow_runs t) (t_workflow_data t) (t_app_infos t)
    (f (t_workflow_sub_invocations t)) (t_runner_contexts t)).
Definition upd_runner_contexts
    (f : gmap string StoredRunnerContext → gmap string StoredRunnerContext) : Database → Database :=
  on_workflow_tables (λ t, mkWorkflowTables (t_workflow_runs t) (t_workflow_data t) (t_app_infos t)
    (t_workflow_sub_invocations t) (f (t_runner_contexts t))).

(** Short names of the columns read most. *)
Definition sq_status (d : Database) : gmap InvocationId InvocationStatusRecord :=
  t_status_records (db_control d).
Definition sq_invocations (d : Database) : gmap InvocationId InvocationRow := t_invocations (db_state d).
Definition sq_queue (d : Database) : list QueueRow := t_broker_queue (db_queue d).
Definition sq_leases (d : Database) : gmap Z Z := t_broker_reservations (db_queue d).

(** ** The delivery queue's statements *)

(** [INSERT INTO broker_queue], with the row number [AUTOINCREMENT] gives. *)
Definition enqueue (id : InvocationId) (task : option string) (queue : string) (priority : f64)
    (t : QueueTables) : QueueTables :=
  let n := t_broker_sequence t + 1 in
  mkQueueTables (t_broker_queue t ++ [mkQueueRow n id task queue priority]) n (t_broker_reservations t).

(** [DELETE FROM broker_queue WHERE ..], with the trigger
    [broker_queue_delete_reservation]. *)
(* @src rustvello-sqlite/src/db.rs 195-199 broker_queue_delete_reservation *)
Definition delete_rows (p : QueueRow → bool) (t : QueueTables) : QueueTables :=
  let gone := bfilter p (t_broker_queue t) in
  mkQueueTables (bfilter (λ r, negb (p r)) (t_broker_queue t)) (t_broker_sequence t)
    (foldr (λ r m, delete (bq_id r) m) (t_broker_reservations t) gone).

Definition delete_deliveries (id : InvocationId) : Database → Database :=
  on_queue (delete_rows (λ r, bool_decide (bq_invocation_id r = id))).

(** [INSERT INTO broker_reservations .. ON CONFLICT DO UPDATE]. *)
Definition lease (n expires_at_ms : Z) (t : QueueTables) : QueueTables :=
  mkQueueTables (t_broker_queue t) (t_broker_sequence t) (<[n := expires_at_ms]> (t_broker_reservations t)).

(** ** Errors *)

(** The failures of a statement that depend on the data; their texts are
    [rusqlite]'s. *)
Inductive SqlFailure := NoRows | ConstraintViolation | IntegerOutOfRange | DatatypeMismatch.

Class SqlText := { sql_failure_text : SqlFailure → string }.

(* @src rustvello-sqlite/src/db.rs 518-520 sql_err *)
Definition sql_err `{SqlText} (e : SqlFailure) : RustvelloError :=
  state_backend_err ("SQLite error: " +:+ sql_failure_text e).

(** ** Programs and transactions *)

(** An operation outside a transaction: every statement commits at once. *)
Abbreviation DbOp A := (M RustvelloError Database A) (only parsing).

(** Inside a transaction: what is committed, and the transaction's own view, of
    the tables [D] a component works on. *)
Record Transaction (D : Type) := mkTx { tx_committed : D; tx_working : D }.
#[global] Arguments mkTx {D} _ _.
#[global] Arguments tx_committed {D} _.
#[global] Arguments tx_working {D} _.
Abbreviation TxState := (Transaction Database).
Abbreviation TxOn D A := (M RustvelloError (Transaction D) A) (only parsing).
Abbreviation Tx A := (TxOn Database A) (only parsing).

Definition execute {D} (f : D → D) : TxOn D unit :=
  modify (λ t, mkTx (tx_committed t) (f (tx_working t))).
Definition query {D A} (f : D → A) : TxOn D A := gets (λ t, f (tx_working t)).
Definition commit {D} : TxOn D unit := modify (λ t, mkTx (tx_working t) (tx_working t)).

(** A statement that fails leaves the table as it was. *)
Definition execute_checked {D} `{SqlText} (f : D → SqlFailure + D) : TxOn D unit :=
  d ← query (λ d, d);
  match f d with
  | inl e => throw (sql_err e)
  | inr d' => execute (λ _, d')
  end.

(** [INSERT INTO ..] of a row whose key must be new. *)
Definition insert_new `{Countable K} {A} (k : K) (x : A) (m : gmap K A) : SqlFailure + gmap K A :=
  match m !! k with Some _ => inl ConstraintViolation | None => inr (<[k := x]> m) end.

(** [Transaction::new_unchecked]: dropped without a commit it rolls back. *)
Definition in_transaction {D A} (body : TxOn D A) : M RustvelloError D A := λ c d,
  let '(r, c', t) := body c (mkTx d d) in (r, c', tx_committed t).

(** Milliseconds since the epoch. *)
Definition now_ms {S} : M RustvelloError S Z := now ← utc_now; mret (now / 1000000).

(** [Utc::now() - chrono::Duration::seconds(n)], which may panic. *)
Definition cutoff_before `{Chrono} {S} (n : Z) : M RustvelloError S DateTime :=
  now ← utc_now;
  unwrap_or_panic (seconds_before now (i64_saturating_of_u64 n)) "Duration::seconds out of bounds".

(** ** The process's handle

    All operations of a process share one connection behind a [Mutex]; the work
    runs on the blocking pool.  A panic while the guard is held poisons the
    mutex, and the pool turns the panic into an error. *)

(* @src rustvello-sqlite/src/db.rs 8-17 Database *)
Record Connection (D : Type) := mkHandle { h_db : D; h_poisoned : bool }.
#[global] Arguments mkHandle {D} _ _.
#[global] Arguments h_db {D} _.
#[global] Arguments h_poisoned {D} _.
Abbreviation Handle := (Connection Database).

Definition handle_new {D} (d : D) : Connection D := mkHandle d false.

Abbreviation OpOn D A := (M RustvelloError (Connection D) A) (only parsing).
Abbreviation SqOp A := (OpOn Database A) (only parsing).

(** The text of the pool's error for a task that panicked ([tokio]). *)
Class JoinText := { join_error_text : string → string }.

(* @src rustvello-sqlite/src/db.rs 514-516 lock_err *)
Definition lock_err : RustvelloError :=
  state_backend_err "lock poisoned: poisoned lock: another task failed inside".

(* @src rustvello-sqlite/src/db.rs 522-536 blocking *)
Definition blocking `{JoinText} {D A} (m : OpOn D A) : OpOn D A := λ c h,
  match m c h with
  | (Panic p, c', h') => (Err (EInternal ("spawn_blocking join error: " +:+ join_error_text p)), c', h')
  | r => r
  end.

(** [let conn = db.conn.lock().map_err(lock_err)?] and the rest of the closure. *)
Definition with_connection {D A} (op : M RustvelloError D A) : OpOn D A := λ c h,
  if h_poisoned h then (Err lock_err, c, h)
  else let '(r, c', d) := op c (h_db h) in (r, c', mkHandle d (is_panic r)).

Definition sqlite `{JoinText} {D A} (op : M RustvelloError D A) : OpOn D A := blocking (with_connection op).

(** ** Opening a database file *)

(* @src rustvello-sqlite/src/db.rs 19-26 SqliteSynchronous *)
Inductive SqliteSynchronous := SyncNormal | SyncFull.

(** The timeout is in nanoseconds. *)
(* @src rustvello-sqlite/src/db.rs 28-32 SqliteOptions *)
Record SqliteOptions := mkSqliteOptions { so_synchronous : SqliteSynchronous; so_busy_timeout : Z }.

(* @src rustvello-sqlite/src/db.rs 34-41 SqliteOptions::default *)
Definition sqlite_options_default : SqliteOptions := mkSqliteOptions SyncFull (5 * 1000000000).

Definition app_id_char (c : Ascii.ascii) : bool :=
  char_in "a" "z" c || char_in "0" "9" c || bool_decide (c = "_"%char) || bool_decide (c = "-"%char).

(* @src rustvello-sqlite/src/db.rs 73-90 Database::open_with_options *)
Definition open_checks (app_id : string) (options : SqliteOptions) : RustvelloResult unit :=
  if (so_busy_timeout options =? 0) || (60 * 1000000000 <? so_busy_timeout options) then
    Err (EConfiguration "SQLite busy timeout must be in (0, 60s]")
  else if bool_decide (app_id = "") || (64 <? String.length app_id)%nat || negb (str_all app_id_char app_id)
  then Err (EConfiguration
    "SQLite app_id must contain 1..=64 lowercase ASCII letters, digits, '_' or '-'")
  else Ok tt.

(** [file_stem] and [extension] of a file name: a leading dot belongs to the stem. *)
Definition file_stem (name : string) : string :=
  match str_rsplit "." name with
  | Some (before, _) => if decide (before = "") then name else before
  | None => name
  end.
Definition file_extension (name : string) : option string :=
  match str_rsplit "." name with
  | Some (before, after) => if decide (before = "") then None else Some after
  | None => None
  end.

(** The file beside [name] that holds the data of [app_id]; the directory is kept. *)
(* @src rustvello-sqlite/src/db.rs 43-55 effective_path *)
Definition effective_name (name app_id : string) : string :=
  file_stem name +:+ "_" +:+ app_id +:+
  match file_extension name with Some e => "." +:+ e | None => "" end.

Example effective_name_doc : effective_name "data.db" "my_app" = "data_my_app.db".
Proof. reflexivity. Qed.

(** ** Lemmas *)

Lemma str_app_inj_l a s t : a +:+ s = a +:+ t → s = t.
Proof. induction a as [|c a IH]; simpl; [done|]. intros [= H]. by apply IH. Qed.

Lemma str_app_inj_r s t a : s +:+ a = t +:+ a → s = t.
Proof.
  intros H. assert (String.length s = String.length t) as Hl.
  { apply (f_equal String.length) in H. rewrite !str_length_app in H. lia. }
  by destruct (str_app_inj_length s t a a Hl H).
Qed.

(** The file of one application is never the file of another. *)
Lemma effective_name_inj name a b : effective_name name a = effective_name name b → a = b.
Proof. unfold effective_name. intros H. do 2 apply str_app_inj_l in H. by apply str_app_inj_r in H. Qed.

Section transactions.
Context {D A : Type}.

(** A transaction's body leaves the committed database alone until it commits. *)
Definition uncommitted (m : TxOn D A) : Prop := respects (λ t t', tx_committed t' = tx_committed t) m.

Lemma in_transaction_run (body : TxOn D A) c d r c' t :
  body c (mkTx d d) = (r, c', t) → in_transaction body c d = (r, c', tx_committed t).
Proof. unfold in_transaction. by intros ->. Qed.

Lemma sqlite_run `{JoinText} (op : M RustvelloError D A) c h :
  h_poisoned h = false → is_panic (op c (h_db h)).1.1 = false →
  sqlite op c h = ((op c (h_db h)).1.1, (op c (h_db h)).1.2, handle_new (op c (h_db h)).2).
Proof.
  intros Hh Hp. unfold sqlite, blocking, with_connection. rewrite Hh.
  destruct (op c (h_db h)) as [[r c'] d]. simpl in *. by destruct r.
Qed.

(** Once the lock is poisoned every operation fails and nothing changes. *)
Lemma sqlite_poisoned `{JoinText} (op : M RustvelloError D A) c h :
  h_poisoned h = true → sqlite op c h = (Err lock_err, c, h).
Proof. intros Hh. unfold sqlite, blocking, with_connection. by rewrite Hh. Qed.

(** A panic while the connection is locked poisons the lock. *)
Lemma sqlite_panics `{JoinText} (op : M RustvelloError D A) c h p c' d :
  h_poisoned h = false → op c (h_db h) = (Panic p, c', d) →
  sqlite op c h =
    (Err (EInternal ("spawn_blocking join error: " +:+ join_error_text p)), c', mkHandle d true).
Proof. intros Hh Hop. unfold sqlite, blocking, with_connection. by rewrite Hh, Hop. Qed.
End transactions.

#[export] Instance uncommitted_preorder {D} : PreOrder (λ t t' : Transaction D, tx_committed t' = tx_committed t).
Proof. split; [done|]. intros x y z Hxy Hyz. by rewrite Hyz. Qed.

#[global] Arguments on_queue _ _ /.
#[global] Arguments on_state_tables _ _ /.
#[global] Arguments on_control_tables _ _ /.
#[global] Arguments on_workflow_tables _ _ /.

(** *** The delivery queue *)

(** Row numbers increase, none is above the sequence, and every reservation
    belongs to a row. *)
Record queue_wf (t : QueueTables) : Prop := {
  qw_sorted : StronglySorted (λ a b, bq_id a < bq_id b) (t_broker_queue t);
  qw_bound r : r ∈ t_broker_queue t → 0 < bq_id r ≤ t_broker_sequence t;
  qw_reserved n : is_Some (t_broker_reservations t !! n) → ∃ r, r ∈ t_broker_queue t ∧ bq_id r = n;
  qw_sequence : 0 ≤ t_broker_sequence t
}.

Lemma foldr_delete_lookup (gone : list QueueRow) (m : gmap Z Z) n :
  foldr (λ r m, delete (bq_id r) m) m gone !! n =
    if bool_decide (n ∈ bq_id <$> gone) then None else m !! n.
Proof.
  induction gone as [|r gone IH]; [done|]. simpl.
  destruct (decide (bq_id r = n)) as [->|Hne].
  - rewrite lookup_delete_eq, bool_decide_true by set_solver. done.
  - rewrite lookup_delete_ne, IH by done. repeat case_bool_decide; set_solver.
Qed.

Lemma StronglySorted_filter {A} (R : relation A) (p : A → bool) l :
  StronglySorted R l → StronglySorted R (bfilter p l).
Proof.
  induction 1 as [|x l Hl IH Hx]; [constructor|]. unfold bfilter in *. simpl. destruct (p x); [|done].
  constructor; [done|]. rewrite list.Forall_forall in Hx |- *. intros y Hy. apply Hx.
  fold (bfilter p l) in Hy. by apply elem_of_bfilter in Hy as [_ ?].
Qed.

Lemma queue_wf_unique t r r' :
  queue_wf t → r ∈ t_broker_queue t → r' ∈ t_broker_queue t → bq_id r = bq_id r' → r = r'.
Proof.
  intros [Hs _ _ _]. induction Hs as [|x l Hl IH Hx]; [by intros ?%elem_of_nil|].
  rewrite list.Forall_forall in Hx. rewrite !elem_of_cons. intros [->|Hr] [->|Hr'] He.
  - done.
  - specialize (Hx r' Hr'). simpl in Hx. lia.
  - specialize (Hx r Hr). simpl in Hx. lia.
  - by apply IH.
Qed.

Lemma queue_wf_enqueue id task q p t : queue_wf t → queue_wf (enqueue id task q p t).
Proof.
  intros [Hs Hb Hr Hn]. split; simpl; [| | |lia].
  - clear Hr. induction Hs as [|x l Hl IH Hx]; simpl.
    + repeat constructor.
    + constructor; [apply IH; intros; apply Hb; set_solver|]. apply Forall_app. split; [done|].
      repeat constructor. simpl. specialize (Hb x ltac:(set_solver)). lia.
  - intros r. rewrite elem_of_app, list_elem_of_singleton. intros [Hin| ->]; [|simpl; lia].
    specialize (Hb r Hin). lia.
  - intros n Hin'. destruct (Hr n Hin') as (r & Hin & He). exists r. split; [|done].
    apply elem_of_app. by left.
Qed.

Lemma queue_wf_delete p t : queue_wf t → queue_wf (delete_rows p t).
Proof.
  intros Hwf. pose proof Hwf as [Hs Hb Hr Hn]. split; simpl; [| | |done].
  - by apply StronglySorted_filter.
  - intros r [_ Hin]%elem_of_bfilter. by apply Hb.
  - intros n. rewrite foldr_delete_lookup. case_bool_decide as Hnot; [by intros []|].
    intros Hm. destruct (Hr n Hm) as (r & Hin & He). exists r. split; [|done].
    apply elem_of_bfilter. split; [|done]. destruct (p r) eqn:Hp; [|done].
    destruct Hnot. apply list_elem_of_fmap. exists r. split; [done|]. by apply elem_of_bfilter.
Qed.

Lemma queue_wf_lease r e t : queue_wf t → r ∈ t_broker_queue t → queue_wf (lease (bq_id r) e t).
Proof.
  intros [Hs Hb Hr Hn] Hin. split; simpl; [done|done| |done].
  intros n. destruct (decide (bq_id r = n)) as [<-|Hne]; [by exists r|].
  rewrite lookup_insert_ne by done. apply Hr.
Qed.

Lemma queue_wf_new : queue_wf (db_queue database_new).
Proof. split; simpl; [apply SSorted_nil|set_solver|by intros n []|done]. Qed.
