(* ===== verification/SqliteBroker.v ===== *)
(** * The SQLite broker: leased delivery

    Models [rustvello-sqlite/src/broker.rs].  Retrieving an entry does not remove
    it: it gives the entry a lease, and the entry is removed when the
    orchestrator's change to [Pending] acknowledges it.  An entry whose lease ends
    without that is delivered again.

    The theorems: which entry a poll delivers and what it leaves, that an entry
    is delivered at most once per lease and again when the lease has ended, that a
    poll never removes an entry that can still be claimed. *)
From S2P Require Import Prelude Effects Identifiers Status Errors Config MemBroker SqliteDb.

(** The lease is in nanoseconds. *)
(* @src rustvello-sqlite/src/broker.rs 13-17 SqliteBroker *)
Record SqliteBroker := mkSqliteBroker { sb_reservation_lease : Z }.

(* @src rustvello-sqlite/src/broker.rs 20-25 SqliteBroker::new *)
Definition sqlite_broker_new : SqliteBroker := mkSqliteBroker (60 * 1000000000).

(* @src rustvello-sqlite/src/broker.rs 33-41 SqliteBroker::with_reservation_lease *)
Definition with_reservation_lease (lease : Z) (b : SqliteBroker) : RustvelloResult SqliteBroker :=
  if negb ((100 * 1000000 <=? lease) && (lease <=? 3600 * 1000000000)) then
    Err (EConfiguration "SQLite reservation lease must be between 100ms and 1h")
  else Ok (mkSqliteBroker lease).

Definition lease_ms (b : SqliteBroker) : Z := sb_reservation_lease b / 1000000.

(** ** The conditions of the statements *)

(** [status IN ('REGISTERED', 'RETRY', 'REROUTED')]. *)
Definition deliverable_status (s : InvocationStatus) : bool :=
  bool_decide (s ∈ [Registered; Retry; Rerouted]).

(** [EXISTS (SELECT 1 FROM status_records s WHERE s.invocation_id = q.invocation_id
    AND s.status NOT IN (..))]: the entry belongs to an owned or finished
    invocation. *)
Definition stale_delivery (d : Database) (r : QueueRow) : bool :=
  match sq_status d !! bq_invocation_id r with
  | Some rec => negb (deliverable_status (rec_status rec))
  | None => false
  end.

(** [r.queue_id IS NULL OR r.expires_at_ms <= now]. *)
Definition unleased (d : Database) (now : Z) (r : QueueRow) : bool :=
  match sq_leases d !! bq_id r with Some e => e <=? now | None => true end.

(** [?2 IS NULL OR q.task_id = ?2]. *)
Definition task_is (task : option string) (r : QueueRow) : bool :=
  match task with Some t => bool_decide (bq_task_id r = Some t) | None => true end.

(** [x LIKE p || '%']: [LIKE] ignores the case of ASCII letters. *)
Definition sql_like_prefix (p x : string) : bool := str_starts_with (str_lower p) (str_lower x).

(** [?3 IS NULL OR (q.task_id IS NULL AND ?3 = 'rust') OR q.task_id LIKE ?3 || '::%']. *)
Definition language_is (language : option TaskLanguage) (r : QueueRow) : bool :=
  match language with
  | None => true
  | Some l =>
      match bq_task_id r with
      | None => bool_decide (l = Rust)
      | Some t => sql_like_prefix (language_as_str l +:+ "::") t
      end
  end.

(** [ORDER BY q.priority DESC, q.id ASC]; SQLite compares the numbers, so both
    zeros are equal. *)
Definition row_before (a b : QueueRow) : bool :=
  (f64_num (bq_priority b) <? f64_num (bq_priority a)) ||
  ((f64_num (bq_priority a) =? f64_num (bq_priority b)) && (bq_id a <=? bq_id b)).

Definition candidate (d : Database) (queue : string) (task : option string)
    (language : option TaskLanguage) (now : Z) (r : QueueRow) : bool :=
  bool_decide (bq_queue_name r = queue) && task_is task r && language_is language r &&
  unleased d now r && negb (stale_delivery d r).

(** The first row of the query. *)
(* @src rustvello-sqlite/src/broker.rs 75-92 SqliteBroker::reserve *)
Definition select_delivery (queue : string) (task : option string) (language : option TaskLanguage)
    (now : Z) (d : Database) : option QueueRow :=
  head (sort_by row_before (bfilter (candidate d queue task language now) (sq_queue d))).

(** [DELETE .. WHERE id IN (SELECT .. LIMIT 128)]. *)
(* @src rustvello-sqlite/src/broker.rs 62-73 SqliteBroker::reserve *)
Definition clean_queue `{HashOrder} (queue : string) (d : Database) : Database :=
  let stale := bfilter (λ r, bool_decide (bq_queue_name r = queue) && stale_delivery d r) (sq_queue d) in
  let ids := take 128 (hash_order (bq_id <$> stale)) in
  on_queue (delete_rows (λ r, bool_decide (bq_id r ∈ ids))) d.

Section broker.
Context `{HashOrder} `{JoinText}.

(** ** Retrieval *)

(* @src rustvello-sqlite/src/broker.rs 55-106 SqliteBroker::reserve *)
Definition reserve_in_db (b : SqliteBroker) (queue : string) (task : option string)
    (language : option TaskLanguage) : DbOp (option InvocationId) :=
  in_transaction (
    execute (clean_queue queue);;
    now ← now_ms;
    row ← query (select_delivery queue task language now);
    match row with
    | Some r =>
        execute (on_queue (lease (bq_id r) (now + lease_ms b)));;
        commit;;
        mret (Some (bq_invocation_id r))
    | None => commit;; mret None
    end).

(* @src rustvello-sqlite/src/broker.rs 43-108 SqliteBroker::reserve *)
Definition reserve (b : SqliteBroker) (queue : string) (task : option TaskId)
    (language : option TaskLanguage) : SqOp (option InvocationId) :=
  lift (validate_routing queue 0);;
  sqlite (reserve_in_db b queue (task_id_display <$> task) language).

(* @src rustvello-sqlite/src/broker.rs 211-217 SqliteBroker::retrieve_invocation_from_queue *)
Definition sqlite_retrieve_invocation_from_queue (b : SqliteBroker) (queue_name : string)
    (task_id : option TaskId) : SqOp (option InvocationId) :=
  reserve b queue_name task_id None.

(* @src rustvello-sqlite/src/broker.rs 219-225 SqliteBroker::retrieve_invocation *)
Definition sqlite_retrieve_invocation (b : SqliteBroker) (task_id : option TaskId)
    : SqOp (option InvocationId) :=
  sqlite_retrieve_invocation_from_queue b DEFAULT_QUEUE task_id.

(* @src rustvello-sqlite/src/broker.rs 227-233 SqliteBroker::retrieve_invocation_for_language_from_queue *)
Definition sqlite_retrieve_for_language_from_queue (b : SqliteBroker) (language : TaskLanguage)
    (queue_name : string) : SqOp (option InvocationId) :=
  reserve b queue_name None (Some language).

(* @src rustvello-sqlite/src/broker.rs 235-241 SqliteBroker::retrieve_invocation_for_language *)
Definition sqlite_retrieve_for_language (b : SqliteBroker) (language : TaskLanguage)
    : SqOp (option InvocationId) :=
  sqlite_retrieve_for_language_from_queue b language DEFAULT_QUEUE.

(** ** Routing *)

(* @src rustvello-sqlite/src/broker.rs 127-150 SqliteBroker::route_invocation_with_options *)
Definition sqlite_route_invocation_with_options (id : InvocationId) (task_id : option TaskId)
    (queue_name : string) (priority : f64) : SqOp unit :=
  lift (validate_routing queue_name priority);;
  sqlite (modify (on_queue (enqueue id (task_id_display <$> task_id) queue_name priority))).

(** The delay is in nanoseconds. *)
(* @src rustvello-sqlite/src/broker.rs 111-115 not_before_ms *)
Definition not_before_ms {S} (delay : Z) : M RustvelloError S Z :=
  let delay := Z.min (delay / 1000000) i64_max in
  now ← now_ms;
  mret (Z.min (now + delay) i64_max).

(* @src rustvello-sqlite/src/broker.rs 152-154 SqliteBroker::supports_delayed_delivery *)
Definition sqlite_supports_delayed_delivery : bool := true.

(* @src rustvello-sqlite/src/broker.rs 156-195 SqliteBroker::route_invocation_after *)
Definition sqlite_route_invocation_after (id : InvocationId) (task_id : option TaskId)
    (queue_name : string) (priority : f64) (delay : Z) : SqOp unit :=
  lift (validate_routing queue_name priority);;
  sqlite (in_transaction (
    execute (on_queue (enqueue id (task_id_display <$> task_id) queue_name priority));;
    row_id ← query (λ d, t_broker_sequence (db_queue d));
    at_ ← not_before_ms delay;
    execute (on_queue (lease row_id at_));;
    commit)).

(* @src rustvello-sqlite/src/broker.rs 197-200 SqliteBroker::route_invocation *)
Definition sqlite_route_invocation (id : InvocationId) : SqOp unit :=
  sqlite_route_invocation_with_options id None DEFAULT_QUEUE 0.

(* @src rustvello-sqlite/src/broker.rs 202-209 SqliteBroker::route_invocation_for_task *)
Definition sqlite_route_invocation_for_task (id : InvocationId) (task_id : TaskId) : SqOp unit :=
  sqlite_route_invocation_with_options id (Some task_id) DEFAULT_QUEUE 0.

(** ** Counting and purging *)

Definition counted (d : Database) (queue : option string) (task : option string) (now : Z)
    (r : QueueRow) : bool :=
  match queue with Some q => bool_decide (bq_queue_name r = q) | None => true end &&
  task_is task r && unleased d now r && negb (stale_delivery d r).

(** A name that is listed twice is counted twice. *)
(* @src rustvello-sqlite/src/broker.rs 243-282 SqliteBroker::count_invocations_in_queues *)
Definition sqlite_count_in_queues (queue_names : list string) (task_id : option TaskId) : SqOp nat :=
  for_each (λ queue_name, lift (validate_routing queue_name 0)) queue_names;;
  sqlite (
    let queues := if bool_decide (queue_names = []) then [None] else Some <$> queue_names in
    now ← now_ms;
    gets (λ d, foldr (λ q n, length (bfilter (counted d q (task_id_display <$> task_id) now) (sq_queue d)) + n)%nat
                 O queues)).

(* @src rustvello-sqlite/src/broker.rs 284-286 SqliteBroker::count_invocations *)
Definition sqlite_count_queued (task_id : option TaskId) : SqOp nat :=
  sqlite_count_in_queues [] task_id.

(* @src rustvello-sqlite/src/broker.rs 288-306 SqliteBroker::purge *)
Definition sqlite_broker_purge (task_id : option TaskId) : SqOp unit :=
  sqlite (modify (on_queue (delete_rows (λ r,
    match task_id with
    | Some t => bool_decide (bq_task_id r = Some (task_id_display t))
    | None => true
    end)))).
End broker.

(** ** Lemmas *)

Lemma deliverable_is_available s : deliverable_status s = is_available_for_run s.
Proof. by destruct s; vm_compute. Qed.

Lemma row_before_spec a b :
  row_before a b = true ↔
    f64_num (bq_priority b) < f64_num (bq_priority a) ∨
    (f64_num (bq_priority a) = f64_num (bq_priority b) ∧ bq_id a ≤ bq_id b).
Proof. unfold row_before. rewrite orb_true_iff, andb_true_iff, Z.ltb_lt, Z.eqb_eq, Z.leb_le. done. Qed.

#[local] Instance row_before_total : Total (le_of row_before).
Proof. intros a b. unfold le_of. rewrite !row_before_spec. lia. Qed.

#[local] Instance row_before_trans : Transitive (le_of row_before).
Proof. intros a b c. unfold le_of. rewrite !row_before_spec. lia. Qed.

(** The first row of an ordered query is a row before which no other comes. *)
Lemma head_sorted p l r :
  head (sort_by row_before (bfilter p l)) = Some r →
  r ∈ l ∧ p r = true ∧ ∀ r', r' ∈ l → p r' = true → row_before r r' = true.
Proof.
  intros Hh. set (l' := bfilter p l) in *.
  assert (Sorted (le_of row_before) (sort_by row_before l')) as Hs%Sorted_StronglySorted
    by (apply sort_by_sorted, _); [|exact row_before_trans].
  assert (∀ x, x ∈ sort_by row_before l' ↔ p x = true ∧ x ∈ l) as Hin
    by (intros x; rewrite elem_of_sort_by; apply elem_of_bfilter).
  destruct (sort_by row_before l') as [|x rest]; [done|]. injection Hh as ->.
  destruct (proj1 (Hin r)) as [Hp Hr]; [set_solver|]. split_and!; [done..|].
  intros r' Hr' Hp'. inversion Hs as [|? ? _ Hall]; subst. rewrite list.Forall_forall in Hall.
  specialize (proj2 (Hin r') (conj Hp' Hr')). rewrite elem_of_cons. intros [->|Hx]; [|by apply Hall].
  apply row_before_spec. lia.
Qed.

Lemma head_none p l : head (sort_by row_before (bfilter p l)) = None → ∀ r, r ∈ l → p r = false.
Proof.
  intros Hh r Hr. destruct (p r) eqn:Hp; [|done].
  assert (r ∈ sort_by row_before (bfilter p l)) as Hin by (by apply elem_of_sort_by, elem_of_bfilter).
  destruct (sort_by row_before (bfilter p l)); [by apply elem_of_nil in Hin|done].
Qed.

Section clean.
Context `{HashOrder}.

Lemma clean_other queue d :
  db_state (clean_queue queue d) = db_state d ∧ db_control (clean_queue queue d) = db_control d ∧
  db_workflow (clean_queue queue d) = db_workflow d.
Proof. done. Qed.

Lemma clean_stale queue d r : stale_delivery (clean_queue queue d) r = stale_delivery d r.
Proof. done. Qed.

(** What cleaning keeps: every entry that can be delivered, and its lease. *)
Lemma clean_keeps queue d :
  queue_wf (db_queue d) →
  (∀ r, r ∈ sq_queue (clean_queue queue d) → r ∈ sq_queue d) ∧
  (∀ r, r ∈ sq_queue d → stale_delivery d r = false → r ∈ sq_queue (clean_queue queue d)) ∧
  (∀ r, r ∈ sq_queue (clean_queue queue d) →
     sq_leases (clean_queue queue d) !! bq_id r = sq_leases d !! bq_id r).
Proof.
  intros Hwf. unfold sq_queue, sq_leases, clean_queue. simpl.
  set (ids := take 128 (hash_order _)). split_and!.
  - intros r [_ Hr]%elem_of_bfilter. done.
  - intros r Hr Hs. apply elem_of_bfilter. split; [|done].
    rewrite bool_decide_false; [done|]. intros Hin. subst ids.
    apply elem_of_take in Hin as (i & Hi & _). apply list_elem_of_lookup_2 in Hi.
    rewrite hash_order_perm in Hi. apply list_elem_of_fmap in Hi as (r' & He & Hr').
    apply elem_of_bfilter in Hr' as [Hst Hr']. apply andb_true_iff in Hst as [_ Hst].
    assert (r' = r) as -> by (by eapply queue_wf_unique). congruence.
  - intros r [Hp Hr]%elem_of_bfilter. rewrite foldr_delete_lookup, bool_decide_false; [done|].
    intros (r' & He & Hr')%list_elem_of_fmap. apply elem_of_bfilter in Hr' as [Hp' Hr'].
    assert (r' = r) as -> by (by eapply queue_wf_unique). by rewrite Hp' in Hp.
Qed.

(** At most 128 entries go. *)
Lemma clean_bounded queue d :
  queue_wf (db_queue d) → (length (sq_queue d) ≤ length (sq_queue (clean_queue queue d)) + 128)%nat.
Proof.
  intros [Hs _ _ _]. unfold sq_queue, clean_queue. simpl. set (ids := take 128 (hash_order _)).
  assert (length ids ≤ 128)%nat as Hids by (unfold ids; rewrite length_take; lia).
  clearbody ids. set (p r := bool_decide (bq_id r ∈ ids)).
  assert (length (bfilter p (t_broker_queue (db_queue d))) ≤ length ids)%nat as Hgone.
  { rewrite <-(length_fmap bq_id). apply submseteq_length, NoDup_submseteq.
    - apply NoDup_fmap_bfilter. clear -Hs. induction Hs as [|x l Hl IH Hx]; [constructor|].
      constructor; [|done]. intros (y & He & Hy)%list_elem_of_fmap.
      rewrite list.Forall_forall in Hx. specialize (Hx y Hy). simpl in Hx. lia.
    - intros n (r & -> & Hr)%list_elem_of_fmap. apply elem_of_bfilter in Hr as [Hp _].
      by apply bool_decide_eq_true in Hp. }
  change (λ r, negb (bool_decide (bq_id r ∈ ids))) with (λ r, negb (p r)).
  enough (length (t_broker_queue (db_queue d)) =
    length (bfilter p (t_broker_queue (db_queue d))) +
    length (bfilter (λ r, negb (p r)) (t_broker_queue (db_queue d))))%nat by lia.
  clear. induction (t_broker_queue (db_queue d)) as [|r l IH]; [done|]. unfold bfilter in *. simpl.
  destruct (p r); simpl; lia.
Qed.

Lemma clean_candidate queue q task lang now d r :
  queue_wf (db_queue d) → r ∈ sq_queue (clean_queue queue d) →
  candidate (clean_queue queue d) q task lang now r = candidate d q task lang now r.
Proof.
  intros Hwf Hr. destruct (clean_keeps queue d Hwf) as (_&_&Hl). specialize (Hl r Hr).
  unfold candidate, unleased. by rewrite clean_stale, Hl.
Qed.

Lemma candidate_fresh d q task lang now r : candidate d q task lang now r = true → stale_delivery d r = false.
Proof. unfold candidate. rewrite !andb_true_iff, negb_true_iff. by intros [_ ?]. Qed.

Lemma candidate_due d q task lang now r e :
  candidate d q task lang now r = true → sq_leases d !! bq_id r = Some e → e ≤ now.
Proof.
  unfold candidate, unleased. rewrite !andb_true_iff. intros [[_ Hu] _] He. rewrite He in Hu.
  by apply Z.leb_le in Hu.
Qed.
End clean.

(** ** What one poll does *)

(** A poll at [now] over the entries [wanted] that ended with [r]: it delivers the
    first of them in priority order and leases it for [lease] milliseconds, or
    there is none.  Only entries of owned or finished invocations are removed. *)
Definition polled_db (wanted : QueueRow → bool) (now lease : Z) (d : Database)
    (r : option InvocationId) (d' : Database) : Prop :=
  db_state d' = db_state d ∧ db_control d' = db_control d ∧ db_workflow d' = db_workflow d ∧
  queue_wf (db_queue d') ∧
  (∀ e, e ∈ sq_queue d' → e ∈ sq_queue d) ∧
  (∀ e, e ∈ sq_queue d → stale_delivery d e = false → e ∈ sq_queue d') ∧
  (length (sq_queue d) ≤ length (sq_queue d') + 128)%nat ∧
  match r with
  | None => (∀ e, e ∈ sq_queue d → wanted e = false) ∧
            ∀ e, e ∈ sq_queue d' → sq_leases d' !! bq_id e = sq_leases d !! bq_id e
  | Some id => ∃ e, bq_invocation_id e = id ∧ e ∈ sq_queue d ∧ wanted e = true ∧
      (∀ e', e' ∈ sq_queue d → wanted e' = true → row_before e e' = true) ∧
      ∀ e', e' ∈ sq_queue d' → sq_leases d' !! bq_id e' =
        if decide (e' = e) then Some (now + lease) else sq_leases d !! bq_id e'
  end.

Section polls.
Context `{HashOrder} `{JoinText}.

Lemma reserve_in_db_run b queue task lang c d :
  queue_wf (db_queue d) →
  let now := (clock_next c).1 / 1000000 in
  ∃ r d', reserve_in_db b queue task lang c d = (Ok r, (clock_next c).2, d') ∧
    polled_db (candidate d queue task lang now) now (lease_ms b) d r d'.
Proof.
  intros Hwf now. set (d1 := clean_queue queue d).
  destruct (clean_keeps queue d Hwf) as (Hold & Hkeep & Hlease). fold d1 in Hold, Hkeep, Hlease.
  assert (queue_wf (db_queue d1)) as Hwf1 by apply queue_wf_delete, Hwf.
  assert (∀ e, e ∈ sq_queue d → candidate d queue task lang now e = true →
    e ∈ sq_queue d1 ∧ candidate d1 queue task lang now e = true) as Hcand.
  { intros e He Hc. assert (e ∈ sq_queue d1) as He1 by (apply Hkeep; [done|by eapply candidate_fresh]).
    split; [done|]. unfold d1. by rewrite clean_candidate. }
  unfold reserve_in_db, in_transaction, execute, query, commit, now_ms, mbind, M_bind, modify, gets,
    mret, M_ret, utc_now. simpl. change (readings c (tick c) / 1000000) with now.
  change (clean_queue queue d) with d1.
  destruct (select_delivery queue task lang now d1) as [e|] eqn:Hsel; simpl.
  - apply head_sorted in Hsel as (He & Hc & Hfirst).
    eexists (Some (bq_invocation_id e)), _. split; [done|]. split_and!; try done.
    + by apply (queue_wf_lease e).
    + by apply clean_bounded.
    + exists e. split_and!; [done|by apply Hold| | |].
      * unfold d1 in Hc, He. by rewrite clean_candidate in Hc.
      * intros e' He' Hc'. destruct (Hcand e' He' Hc') as [? ?]. by apply Hfirst.
      * intros e' He'. unfold sq_leases. simpl.
        case_decide as Heq; [subst; by rewrite lookup_insert_eq|].
        rewrite lookup_insert_ne; [by apply Hlease|].
        intros Hid. destruct Heq. by apply (queue_wf_unique (db_queue d1)).
  - exists None, d1. split; [done|]. split_and!; try done.
    + by apply clean_bounded.
    + intros e He. destruct (candidate d queue task lang now e) eqn:Hc; [|done].
      destruct (Hcand e He Hc) as [He1 Hc1]. rewrite <-Hc1. by eapply head_none.
Qed.

(** one poll of the SQLite broker, on a queue in order.  With a valid queue
    name it always succeeds.  It delivers the entry with the highest priority,
    the oldest among equals, of those that match the queue, the task and the
    language, are not under a lease and belong to an unknown or claimable
    invocation, and leases it until [now + lease]; it delivers nothing exactly
    when there is no such entry.  No other lease changes, no entry that could
    be claimed is removed, at most 128 are removed at all, and no status, result
    or workflow is touched. *)
Theorem reserve_behaviour b queue task lang c h :
  h_poisoned h = false → valid_queue_name queue = true → queue_wf (db_queue (h_db h)) →
  let now := (clock_next c).1 / 1000000 in
  ∃ r d', reserve b queue task lang c h = (Ok r, (clock_next c).2, handle_new d') ∧
    polled_db (candidate (h_db h) queue (task_id_display <$> task) lang now) now (lease_ms b) (h_db h) r d'.
Proof.
  intros Hp Hq Hwf now.
  destruct (reserve_in_db_run b queue (task_id_display <$> task) lang c (h_db h) Hwf) as (r & d' & Hr & Hd).
  exists r, d'. split; [|exact Hd].
  unfold reserve. unfold mbind at 1, M_bind, lift. rewrite (proj2 (validate_routing_Ok queue 0)) by done.
  rewrite sqlite_run by (done || by rewrite Hr). by rewrite Hr.
Qed.

(** ** A lease delivers once *)

(** A request of a worker. *)
Record PollRequest := mkPoll { pr_queue : string; pr_task : option TaskId; pr_language : option TaskLanguage }.

(** Any number of polls, with what they delivered. *)
Definition poll_all (b : SqliteBroker) (reqs : list PollRequest) : SqOp (list InvocationId) :=
  for_fold (λ got q, r ← reserve b (pr_queue q) (pr_task q) (pr_language q);
                     mret (match r with Some id => got ++ [id] | None => got end)) [] reqs.

(** Every entry of a delivered invocation is under a lease until [until]. *)
Definition leased_until (until : Z) (got : list InvocationId) (d : Database) : Prop :=
  NoDup got ∧ queue_wf (db_queue d) ∧ NoDup (bq_invocation_id <$> sq_queue d) ∧
  ∀ e, e ∈ sq_queue d → bq_invocation_id e ∈ got →
    ∃ x, sq_leases d !! bq_id e = Some x ∧ until ≤ x.

Lemma NoDup_invocation_unique (l : list QueueRow) e e' :
  NoDup (bq_invocation_id <$> l) → e ∈ l → e' ∈ l → bq_invocation_id e = bq_invocation_id e' → e = e'.
Proof.
  induction l as [|x l IH]; simpl; [by intros _ ?%elem_of_nil|].
  rewrite list.NoDup_cons, !elem_of_cons, list_elem_of_fmap. intros [Hx Hl] [->|He] [->|He'] Hid.
  - done.
  - destruct Hx. eauto.
  - destruct Hx. eauto.
  - by apply IH.
Qed.

Lemma NoDup_invocations_sub (l l' : list QueueRow) :
  NoDup (bq_invocation_id <$> l) → NoDup l' → (∀ e, e ∈ l' → e ∈ l) → NoDup (bq_invocation_id <$> l').
Proof.
  intros Hl Hl' Hsub. induction Hl' as [|x l' Hx Hl' IH]; simpl; [constructor|].
  constructor; [|apply IH; intros; apply Hsub; set_solver].
  intros (y & He & Hy)%list_elem_of_fmap. destruct Hx.
  assert (x = y) as <-; [|done]. apply (NoDup_invocation_unique l); try done; apply Hsub; set_solver.
Qed.

Lemma queue_wf_NoDup t : queue_wf t → NoDup (t_broker_queue t).
Proof.
  intros [Hs _ _ _]. induction Hs as [|x l Hl IH Hx]; constructor; [|done].
  intros Hin. rewrite list.Forall_forall in Hx. specialize (Hx x Hin). simpl in Hx. lia.
Qed.

Lemma poll_once until wanted now lease d r d' got :
  leased_until until got d → now < until → until ≤ now + lease →
  (∀ e x, wanted e = true → sq_leases d !! bq_id e = Some x → x ≤ now) →
  polled_db wanted now lease d r d' →
  leased_until until (match r with Some id => got ++ [id] | None => got end) d'.
Proof.
  intros (Hgot & Hwf & Hnd & Hl) Hnow Hlease Hdue (_&_&_&Hwf'&Hsub&_&_&Hr).
  assert (NoDup (bq_invocation_id <$> sq_queue d')) as Hnd'
    by (eapply NoDup_invocations_sub; [exact Hnd|by apply queue_wf_NoDup|done]).
  destruct r as [id|].
  - destruct Hr as (e & <- & He & Hw & _ & Hleases). split_and!; [|done|done|].
    + apply list.NoDup_app. split_and!; [done| |apply NoDup_singleton].
      intros x Hx ->%list_elem_of_singleton. destruct (Hl e He Hx) as (y & Hy & Hle).
      specialize (Hdue e y Hw Hy). lia.
    + intros e' He' Hin. rewrite (Hleases e' He'). case_decide as Heq; [eauto|].
      apply elem_of_app in Hin as [Hin|Hid%list_elem_of_singleton]; [by apply Hl; auto|].
      destruct Heq. eapply (NoDup_invocation_unique (sq_queue d)); eauto.
  - destruct Hr as [_ Hleases]. split_and!; [done..|].
    intros e He Hin. rewrite (Hleases e He). by apply Hl; auto.
Qed.

(** What is delivered, with one poll's answer. *)
Definition with_delivery (got : list InvocationId) (r : option InvocationId) : list InvocationId :=
  match r with Some id => got ++ [id] | None => got end.

(** All readings of the clock fall into the lease that ends at [until]. *)
Definition within_lease (b : SqliteBroker) (until : Z) (c : Clock) : Prop :=
  ∀ i, readings c i / 1000000 < until ≤ readings c i / 1000000 + lease_ms b.

Lemma poll_step b q until c d got :
  leased_until until got d → valid_queue_name (pr_queue q) = true → within_lease b until c →
  ∃ r d1, reserve b (pr_queue q) (pr_task q) (pr_language q) c (handle_new d) = (Ok r, (clock_next c).2, handle_new d1) ∧
    leased_until until (with_delivery got r) d1 ∧
    polled_db (candidate d (pr_queue q) (task_id_display <$> pr_task q) (pr_language q) ((clock_next c).1 / 1000000))
      ((clock_next c).1 / 1000000) (lease_ms b) d r d1.
Proof.
  intros Hl Hv Hc. pose proof Hl as (_ & Hwf & _ & _).
  destruct (reserve_in_db_run b (pr_queue q) (task_id_display <$> pr_task q) (pr_language q) c d Hwf)
    as (r & d1 & Hr & Hpoll).
  exists r, d1. split_and!; [| |exact Hpoll].
  - unfold reserve. unfold mbind at 1, M_bind, lift.
    rewrite (proj2 (validate_routing_Ok (pr_queue q) 0)) by done.
    rewrite sqlite_run by (done || simpl; by rewrite Hr). simpl. by rewrite Hr.
  - specialize (Hc (tick c)) as Hnow.
    eapply poll_once; [exact Hl|apply Hnow|apply Hnow| |exact Hpoll]. intros e x. apply candidate_due.
Qed.

(** The polls [reqs], after those that delivered [got]. *)
Definition polls_from (b : SqliteBroker) (got : list InvocationId) (reqs : list PollRequest) : SqOp (list InvocationId) :=
  for_fold (λ got q, r ← reserve b (pr_queue q) (pr_task q) (pr_language q); mret (with_delivery got r)) got reqs.

Lemma polls_from_step b got q reqs c d r c1 d1 :
  reserve b (pr_queue q) (pr_task q) (pr_language q) c (handle_new d) = (Ok r, c1, handle_new d1) →
  polls_from b got (q :: reqs) c (handle_new d) = polls_from b (with_delivery got r) reqs c1 (handle_new d1).
Proof. intros Hres. unfold polls_from. cbn [for_fold]. exact (bind_run _ _ _ _ _ _ _ (bind_run _ _ _ _ _ _ _ Hres)). Qed.

(** What a poll keeps of the entries that can be claimed: the entry, its status, and
    its lease unless it is the one delivered. *)
Lemma poll_keeps wanted now lease d r d1 e :
  polled_db wanted now lease d r d1 → e ∈ sq_queue d → stale_delivery d e = false →
  e ∈ sq_queue d1 ∧ stale_delivery d1 e = false ∧
  (sq_leases d1 !! bq_id e = sq_leases d !! bq_id e ∨
   r = Some (bq_invocation_id e) ∧ sq_leases d1 !! bq_id e = Some (now + lease)).
Proof.
  intros (_&Hctl&_&_&_&Hk&_&Hr) He Hs.
  assert (stale_delivery d1 e = stale_delivery d e) as Hst by (unfold stale_delivery, sq_status; by rewrite Hctl).
  specialize (Hk e He Hs) as He1. split_and!; [done|congruence|].
  destruct r as [id|]; [|left; by apply Hr]. destruct Hr as (e0 & <- & _ & _ & _ & Hleases).
  rewrite (Hleases e He1). case_decide; [subst; by right|by left].
Qed.

Lemma polls_run b reqs until c d got :
  leased_until until got d → (∀ q, q ∈ reqs → valid_queue_name (pr_queue q) = true) → within_lease b until c →
  ∃ got' c' d', polls_from b got reqs c (handle_new d) = (Ok got', c', handle_new d') ∧
    leased_until until got' d' ∧
    ∀ e, e ∈ sq_queue d → stale_delivery d e = false → e ∈ sq_queue d' ∧ stale_delivery d' e = false ∧
      (sq_leases d' !! bq_id e = sq_leases d !! bq_id e ∨
       ∃ i, sq_leases d' !! bq_id e = Some (readings c i / 1000000 + lease_ms b)).
Proof.
  revert c d got. induction reqs as [|q reqs IH]; intros c d got Hl Hv Hc.
  { exists got, c, d. by split_and!; auto. }
  destruct (poll_step b q until c d got Hl ltac:(apply Hv; set_solver) Hc) as (r & d1 & Hres & Hl1 & Hpoll).
  destruct (IH (clock_next c).2 d1 _ Hl1 ltac:(intros; apply Hv; set_solver) ltac:(intros i; apply Hc))
    as (got' & c' & d' & Hrun & Hl' & Hkept).
  exists got', c', d'. split_and!; [by rewrite (polls_from_step _ _ _ _ _ _ _ _ _ Hres)|done|].
  intros e He Hs. destruct (poll_keeps _ _ _ _ _ _ _ Hpoll He Hs) as (He1 & Hs1 & Hlease).
  destruct (Hkept e He1 Hs1) as (? & ? & [Hle|[i Hi]]); (split_and!; [done..|]).
  - rewrite Hle. destruct Hlease as [->|[_ ->]]; [by left|right]. by exists (tick c).
  - right. by exists i.
Qed.

(** [e] waits in [queue]: it can be claimed, and its lease has ended for [c]. *)
Definition waits_in (queue : string) (c : Clock) (d : Database) (e : QueueRow) : Prop :=
  e ∈ sq_queue d ∧ bq_queue_name e = queue ∧ stale_delivery d e = false ∧
  ∀ i x, sq_leases d !! bq_id e = Some x → x ≤ readings c i / 1000000.

Lemma waits_candidate queue c d e :
  waits_in queue c d e → candidate d queue None None ((clock_next c).1 / 1000000) e = true.
Proof.
  intros (_ & Hq & Hs & Hl). unfold candidate, unleased. rewrite Hs, bool_decide_true by done. simpl.
  destruct (sq_leases d !! bq_id e) as [x|] eqn:Hx; [|done]. simpl. rewrite andb_true_r. apply Z.leb_le.
  by apply (Hl (tick c)).
Qed.

(** Polls of one queue, without filters, deliver something each until nothing waits. *)
Lemma polls_drain b queue n until c d got got' c' h' :
  leased_until until got d → valid_queue_name queue = true → within_lease b until c →
  polls_from b got (replicate n (mkPoll queue None None)) c (handle_new d) = (Ok got', c', h') →
  got ⊆ got' ∧ (∀ id, id ∈ got' → id ∈ got ∨ id ∈ bq_invocation_id <$> sq_queue d) ∧ NoDup got' ∧
  (length got' = length got + n ∨ ∀ e, waits_in queue c d e → bq_invocation_id e ∈ got')%nat.
Proof.
  revert c d got. induction n as [|n IH]; intros c d got Hl Hv Hc Hrun.
  { injection Hrun as <- <- <-. split_and!; [done|by left|apply Hl|left; lia]. }
  destruct (poll_step b (mkPoll queue None None) until c d got Hl Hv Hc) as (r & d1 & Hres & Hl1 & Hpoll).
  cbn [replicate] in Hrun. rewrite (polls_from_step _ _ _ _ _ _ _ _ _ Hres) in Hrun.
  apply IH in Hrun as (Hsub & Hfrom & Hnd & Hend); [|done|done|intros i; apply Hc].
  pose proof Hpoll as (_ & _ & _ & _ & Hold & _ & _ & Hr). split_and!; [| |done|].
  - destruct r; simpl in Hsub; set_solver.
  - intros id [Hid|(e & -> & He)%list_elem_of_fmap]%Hfrom; [|right; apply list_elem_of_fmap; eauto].
    destruct r as [id'|]; [|by left]. apply elem_of_app in Hid as [?|Hid]; [by left|right].
    apply list_elem_of_singleton in Hid as ->.
    destruct Hr as (e & <- & He & _). apply list_elem_of_fmap. eauto.
  - destruct r as [id|]; simpl in Hend.
    + destruct Hend as [Hlen|Hall]; [left; rewrite Hlen, length_app; simpl; lia|right].
      intros e (He & Hq & Hs & Hle). destruct (poll_keeps _ _ _ _ _ _ _ Hpoll He Hs) as (He1 & Hs1 & [Hl2|[Hid _]]).
      * apply Hall. split_and!; [done..|]. rewrite Hl2. intros i x. apply (Hle i x).
      * apply Hsub. injection Hid as ->. simpl. set_solver.
    + right. intros e He. destruct Hr as [Hnone _]. specialize (Hnone e (proj1 He)).
      pose proof (waits_candidate _ _ _ _ He) as Hwaits. simpl in Hnone, Hwaits. congruence.
Qed.

(** As many polls as there are entries deliver all that waits. *)
Lemma polls_reach_all b queue n until c d got c' h' :
  queue_wf (db_queue d) → NoDup (bq_invocation_id <$> sq_queue d) → valid_queue_name queue = true →
  within_lease b until c → (length (sq_queue d) ≤ n)%nat →
  polls_from b [] (replicate n (mkPoll queue None None)) c (handle_new d) = (Ok got, c', h') →
  ∀ e, waits_in queue c d e → bq_invocation_id e ∈ got.
Proof.
  intros Hwf Hnd Hv Hc Hn Hrun e He.
  assert (leased_until until [] d) as Hl by (split_and!; [constructor|done..|by intros ? _ ?%elem_of_nil]).
  destruct (polls_drain _ _ _ _ _ _ _ _ _ _ Hl Hv Hc Hrun) as (_ & Hfrom & Hgot & [Hlen|Hall]); [|by apply Hall].
  assert (got ⊆+ bq_invocation_id <$> sq_queue d) as Hsub.
  { apply NoDup_submseteq; [done|]. intros id Hid. destruct (Hfrom id Hid) as [?%elem_of_nil|?]; done. }
  simpl in Hlen. assert (got ≡ₚ bq_invocation_id <$> sq_queue d) as ->.
  { apply submseteq_length_Permutation; [done|]. rewrite length_fmap. lia. }
  apply list_elem_of_fmap. exists e. split; [done|apply He].
Qed.

(** C34: a lease delivers an entry once, and an entry whose lease has ended is
    delivered again.  Take a queue with at most one entry for each invocation, and
    polls of any queues (with valid names), tasks and languages that all happen
    within one lease time of each other.  No invocation is delivered twice, and no
    entry of an invocation that can still be claimed is removed.  Once the leases
    have ended - those given by these polls, and the one the entry had before, if
    any - an entry that nobody claimed meanwhile is delivered again: of a later run
    of polls of its queue, at least as many as the queue table has entries and
    again within one lease time, one delivers it. *)
Theorem one_delivery_per_lease b reqs until c d :
  queue_wf (db_queue d) → NoDup (bq_invocation_id <$> sq_queue d) →
  (∀ q, q ∈ reqs → valid_queue_name (pr_queue q) = true) → within_lease b until c →
  ∃ got c' d', poll_all b reqs c (handle_new d) = (Ok got, c', handle_new d') ∧ NoDup got ∧
    ∀ e, e ∈ sq_queue d → stale_delivery d e = false →
      e ∈ sq_queue d' ∧
      ∀ n until2 c2, valid_queue_name (bq_queue_name e) = true → within_lease b until2 c2 →
        (length (sq_queue d') ≤ n)%nat →
        (∀ i j, readings c i / 1000000 + lease_ms b ≤ readings c2 j / 1000000) →
        (∀ x j, sq_leases d !! bq_id e = Some x → x ≤ readings c2 j / 1000000) →
        ∃ got2 c2' d2, poll_all b (replicate n (mkPoll (bq_queue_name e) None None)) c2 (handle_new d') =
            (Ok got2, c2', handle_new d2) ∧ bq_invocation_id e ∈ got2.
Proof.
  intros Hwf Hnd Hv Hc. destruct (polls_run b reqs until c d []) as (got & c' & d' & Hrun & (Hgot & Hwf' & Hnd' & _) & Hk);
    [split_and!; [constructor|done|done|by intros e _ ?%elem_of_nil]|done|done|].
  exists got, c', d'. split_and!; [exact Hrun|done|]. intros e He Hs.
  destruct (Hk e He Hs) as (He' & Hs' & Hlease). split; [done|]. intros n until2 c2 Hq Hc2 Hn Hgap Hbefore.
  destruct (polls_run b (replicate n (mkPoll (bq_queue_name e) None None)) until2 c2 d' [])
    as (got2 & c2' & d2 & Hrun2 & _ & _).
  { split_and!; [constructor|done|done|by intros ? _ ?%elem_of_nil]. }
  { by intros q [-> _]%elem_of_replicate. }
  { done. }
  exists got2, c2', d2. split; [exact Hrun2|].
  apply (polls_reach_all b (bq_queue_name e) n until2 c2 d' got2 c2' (handle_new d2)); [done..|].
  split_and!; [done..|]. intros j x. destruct Hlease as [->|[i ->]]; [by apply Hbefore|].
  intros [= <-]. apply Hgap.
Qed.
End polls.

(** ** Witnesses *)

Definition demo_join : JoinText := {| join_error_text p := "panicked: " +:+ p |}.

(** Two entries, the later one with the higher priority. *)
Definition demo_delivery : Database :=
  on_queue (enqueue "b" (Some "rust::app.work") DEFAULT_QUEUE 0x3FF0000000000000)
    (on_queue (enqueue "a" None DEFAULT_QUEUE 0) database_new).

Lemma demo_delivery_wf : queue_wf (db_queue demo_delivery).
Proof. repeat apply queue_wf_enqueue. apply queue_wf_new. Qed.

Lemma reserve_behaviour_witness :
  let c := frozen_clock 5000000 in
  ∃ r d', @reserve identity_order demo_join sqlite_broker_new DEFAULT_QUEUE None (Some Rust) c
      (handle_new demo_delivery) = (Ok r, (clock_next c).2, handle_new d') ∧ r = Some "b".
Proof.
  intros c.
  destruct (@reserve_behaviour identity_order demo_join sqlite_broker_new DEFAULT_QUEUE None (Some Rust) c
    (handle_new demo_delivery) eq_refl eq_refl demo_delivery_wf) as (r & d' & Hr & _).
  exists r, d'. split; [exact Hr|]. vm_compute in Hr. by injection Hr as <-.
Defined.

Lemma one_delivery_per_lease_witness :
  let reqs := replicate 3 (mkPoll DEFAULT_QUEUE None None) in
  ∃ got c' d' got2 c2' d2, @poll_all identity_order demo_join sqlite_broker_new reqs (frozen_clock 0)
      (handle_new demo_delivery) = (Ok got, c', handle_new d') ∧ NoDup got ∧ got = ["b"; "a"] ∧
    @poll_all identity_order demo_join sqlite_broker_new reqs (frozen_clock 60000000000) (handle_new d') =
      (Ok got2, c2', handle_new d2) ∧ "a" ∈ got2.
Proof.
  intros reqs.
  destruct (@one_delivery_per_lease identity_order demo_join sqlite_broker_new reqs 60000 (frozen_clock 0)
    demo_delivery) as (got & c' & d' & Hr & Hn & Hk).
  - apply demo_delivery_wf.
  - vm_compute. repeat constructor; set_solver.
  - intros q Hq. repeat (apply elem_of_cons in Hq as [->|Hq]; [reflexivity|]). by apply elem_of_nil in Hq.
  - intros i. vm_compute. done.
  - destruct (Hk (mkQueueRow 1 "a" None DEFAULT_QUEUE 0)) as (_ & Hk2); [vm_compute; set_solver|done|].
    assert (got = ["b"; "a"] ∧ length (sq_queue d') = 2%nat) as [Hgot Hlen]
      by (vm_compute in Hr; by injection Hr as <- _ <-).
    destruct (Hk2 3%nat 120000 (frozen_clock 60000000000)) as (got2 & c2' & d2 & Hr2 & Hin);
      [done|intros i; vm_compute; done|lia|intros i j; vm_compute; done|by intros x j [=]|].
    exists got, c', d', got2, c2', d2. split_and!; [exact Hr|exact Hn|exact Hgot|exact Hr2|exact Hin].
Defined.
