(* ===== verification/SqliteState.v ===== *)
(** * The SQLite state backend

    Models [rustvello-sqlite/src/state_backend] ([core.rs], [query.rs],
    [runner.rs]), [completion.rs] and [client_data_store.rs].  Ids of tasks,
    calls and workflow types are stored as text and parsed when they are read; the
    JSON of arguments is a codec of [serde_json].

    The theorems: an invocation and its call are read back as they were stored,
    what a history entry keeps, and that only the owner of a running invocation
    can store its result or error. *)
From S2P Require Import Prelude Effects Identifiers Status Errors Config Call Invocation MemStateBackend ClientData SqliteDb SqliteBroker SqliteOrchestrator.

(** [serde_json] on the map of arguments; the reader's error is its text. *)
Class ArgumentsCodec := {
  arguments_to_json : SerializedArguments → string;
  arguments_from_json : string → outcome string SerializedArguments;
  arguments_json_roundtrip a : arguments_from_json (arguments_to_json a) = Ok a
}.

(** The texts of [ParseTaskIdError]. *)
(* @src rustvello-proto/src/identifiers.rs 271-275 ParseTaskIdError::fmt *)
Definition parse_task_id_display (e : ParseTaskIdError) : string :=
  match e with
  | UnsupportedLanguage v =>
      "unsupported task language " +:+ str_debug v +:+ "; supported languages are rust and python"
  | UnsupportedExecutorKind v => "unsupported executor kind " +:+ str_debug v
  | NameEmpty => "TaskId name must not be empty"
  | NameInvalid n => "TaskId name must not contain '.' or '::': " +:+ str_debug n
  | ModuleEmpty => "TaskId module must not be empty"
  | ModuleInvalid m => "TaskId module must not contain '::': " +:+ str_debug m
  | EmptyTaskIdString => "empty task ID string"
  | EmptyLanguage => "empty language before '::'"
  | NoDotSeparator s => "no '.' separator in task ID: " +:+ str_debug s
  | EmptyModuleIn s => "empty module in task ID: " +:+ str_debug s
  | EmptyNameIn s => "empty name in task ID: " +:+ str_debug s
  end.

(** [text.parse::<TaskId>()] with the message of the column it came from. *)
Definition parse_task (what text : string) : RustvelloResult TaskId :=
  map_err (λ e, state_backend_err ("invalid " +:+ what +:+ " in database: " +:+ parse_task_id_display e))
    (task_id_from_str text).

(** [u32::try_from(n).unwrap_or(0)]. *)
Definition u32_or_zero (n : Z) : Z := if (0 <=? n) && (n <=? u32_max) then n else 0.

(** [LIMIT] and [OFFSET] with [n as i64]: a negative limit is none, a negative
    offset is zero. *)
Definition sql_take {A} (n : nat) (l : list A) : list A := if Z.of_nat n <=? i64_max then take n l else l.
Definition sql_drop {A} (n : nat) (l : list A) : list A := if Z.of_nat n <=? i64_max then drop n l else l.

(** ** Rows *)

Definition invocation_row (i : InvocationDTO) : InvocationRow :=
  {| ir_task_id := task_id_display (inv_task_id i);
     ir_call_id := call_id_display (inv_call_id i);
     ir_status := inv_status i;
     ir_created_at := inv_created_at i;
     ir_updated_at := inv_updated_at i;
     ir_parent_invocation_id := inv_parent i;
     ir_workflow_id := workflow_id <$> inv_workflow i;
     ir_workflow_type := (λ w, task_id_display (workflow_type w)) <$> inv_workflow i;
     ir_workflow_depth := wf_depth <$> inv_workflow i;
     ir_workflow_parent_id := inv_workflow i ≫= wf_parent_id;
     ir_trace_context := inv_trace_context i |}.

(** The text after the last colon. *)
Definition args_part (call_id : string) : string :=
  match str_rsplit ":" call_id with Some (_, a) => a | None => call_id end.

(* @src rustvello-sqlite/src/state_backend/core.rs 134-176 SqliteStateBackend::get_invocation *)
Definition read_invocation (id : InvocationId) (r : InvocationRow) : RustvelloResult InvocationDTO :=
  task_id ← parse_task "task_id" (ir_task_id r);
  let call_id := call_id_new task_id (args_part (ir_call_id r)) in
  workflow ← match ir_workflow_id r, ir_workflow_type r with
    | Some wf_id, Some wf_type =>
        wf_task_id ← parse_task "workflow task_id" wf_type;
        Ok (Some {| workflow_id := wf_id; workflow_type := wf_task_id;
                    wf_parent_id := ir_workflow_parent_id r;
                    wf_depth := u32_or_zero (default 0 (ir_workflow_depth r)) |})
    | _, _ => Ok None
    end;
  Ok {| inv_id := id; inv_task_id := task_id; inv_call_id := call_id; inv_status := ir_status r;
        inv_created_at := ir_created_at r; inv_updated_at := ir_updated_at r;
        inv_parent := ir_parent_invocation_id r; inv_workflow := workflow;
        inv_trace_context := ir_trace_context r |}.

Definition run_row (w : WorkflowIdentity) : WorkflowRunRow :=
  mkWorkflowRunRow (task_id_display (workflow_type w)) (wf_parent_id w) (wf_depth w).

Definition read_run (p : InvocationId * WorkflowRunRow) : RustvelloResult WorkflowIdentity :=
  task_id ← parse_task "workflow task_id" (wr_workflow_type p.2);
  Ok {| workflow_id := p.1; workflow_type := task_id; wf_parent_id := wr_parent_workflow_id p.2;
        wf_depth := u32_or_zero (wr_depth p.2) |}.

Definition history_row (h : InvocationHistory) : HistoryRow :=
  {| hr_invocation_id := hist_invocation_id h;
     hr_status := rec_status (hist_status_record h);
     hr_runner_id := rec_runner_id (hist_status_record h);
     hr_timestamp := rec_timestamp (hist_status_record h);
     hr_message := hist_message h;
     hr_history_timestamp := hist_timestamp h |}.

(* @src rustvello-sqlite/src/state_backend/core.rs 387-432 SqliteStateBackend::get_history *)
Definition read_history (r : HistoryRow) : InvocationHistory :=
  {| hist_invocation_id := hr_invocation_id r;
     hist_status_record := mkRecord (hr_status r) (hr_runner_id r) (hr_timestamp r);
     hist_message := hr_message r;
     hist_runner_id := hr_runner_id r;
     hist_registered_by := None;
     hist_timestamp := hr_history_timestamp r |}.

(** [thread_id as i64] when it is written, [u64::try_from(..).unwrap_or(0)] when it
    is read. *)
(* @src rustvello-sqlite/src/state_backend/runner.rs 233-268 parse_runner_context *)
Definition parse_runner_context (c : StoredRunnerContext) : StoredRunnerContext :=
  {| rc_runner_cls := rc_runner_cls c; rc_runner_language := rc_runner_language c;
     rc_executor_kind := rc_executor_kind c; rc_runner_id := rc_runner_id c;
     rc_pid := u32_or_zero (rc_pid c); rc_hostname := rc_hostname c;
     rc_thread_id := if rc_thread_id c <=? i64_max then rc_thread_id c else 0;
     rc_started_at := rc_started_at c; rc_parent_runner_id := rc_parent_runner_id c;
     rc_parent_runner_cls := rc_parent_runner_cls c |}.

(** [text LIKE pattern]: [%] is any text, [_] any character, and the case of ASCII
    letters is ignored. *)
Fixpoint like_bytes (pattern : string) : string → bool :=
  match pattern with
  | EmptyString => λ s, match s with EmptyString => true | _ => false end
  | String c p =>
      if bool_decide (c = "%"%char) then
        fix any (s : string) : bool :=
          like_bytes p s || match s with EmptyString => false | String _ s' => any s' end
      else if bool_decide (c = "_"%char) then
        λ s, match s with
             | EmptyString => false
             | String _ s' =>
                 (fix rest (s : string) : bool :=
                    match s with
                    | String d s' => if utf8_continuation d then rest s' else like_bytes p s
                    | EmptyString => like_bytes p s
                    end) s'
             end
      else λ s, match s with
                | EmptyString => false
                | String d s' => bool_decide (c = d) && like_bytes p s'
                end
  end.

Definition sql_like (pattern text : string) : bool := like_bytes (str_lower pattern) (str_lower text).

Example like_examples :
  sql_like "%RUN_1%" "runner-1" = false ∧ sql_like "%RUN_1%" "my-run-1x" = true ∧ sql_like "%" "" = true.
Proof. vm_compute. done. Qed.

Section backend.
Context `{HashOrder} `{SqlText} `{JoinText} `{ArgumentsCodec}.

(** ** Invocations, calls, results, errors, history ([core.rs]) *)

(* @src rustvello-sqlite/src/state_backend/core.rs 29-105 SqliteStateBackend::upsert_invocation *)
Definition sqlite_upsert_invocation (i : InvocationDTO) (call : CallDTO) : SqOp unit :=
  sqlite (in_transaction (
    execute (upd_invocations <[inv_id i := invocation_row i]>);;
    execute (upd_calls <[call_id_display (cd_call_id call) :=
      mkCallRow (task_id_display (cd_task_id call)) (arguments_to_json (cd_serialized_arguments call))]>);;
    commit)).

(* @src rustvello-sqlite/src/state_backend/core.rs 107-180 SqliteStateBackend::get_invocation *)
Definition sqlite_get_invocation (id : InvocationId) : SqOp InvocationDTO :=
  sqlite (
    d ← get;
    r ← lift (ok_or (sq_invocations d !! id) (EInvocationNotFound id));
    lift (read_invocation id r)).

(* @src rustvello-sqlite/src/state_backend/core.rs 182-217 SqliteStateBackend::get_call *)
Definition sqlite_get_call (call_id : CallId) : SqOp CallDTO :=
  sqlite (
    d ← get;
    r ← lift (ok_or (t_calls (db_state d) !! call_id_display call_id)
                (state_backend_err ("call not found: " +:+ call_id_display call_id)));
    task_id ← lift (parse_task "task_id" (cr_task_id r));
    args ← lift (map_err ESerialization (arguments_from_json (cr_serialized_arguments r)));
    mret {| cd_call_id := call_id; cd_task_id := task_id; cd_serialized_arguments := args |}).

(* @src rustvello-sqlite/src/state_backend/core.rs 219-237 SqliteStateBackend::store_result *)
Definition sqlite_store_result (id : InvocationId) (result : string) : SqOp unit :=
  sqlite (modify (upd_results <[id := result]>)).

(** A payload is written only for the owner of a running invocation. *)
(* @src rustvello-sqlite/src/completion.rs 11-49 write_owned *)
Definition write_owned (id : InvocationId) (runner_id : RunnerId) (terminal : InvocationStatus)
    (write : Database → Database) : SqOp unit :=
  sqlite (in_transaction (
    d ← query (λ d, d);
    rec ← lift (ok_or (sq_status d !! id) (sql_err NoRows));
    (if bool_decide (rec_status rec ≠ Running) || bool_decide (rec_runner_id rec ≠ Some runner_id) then
       throw (EOwnershipViolation id (rec_status rec) terminal (default "" (rec_runner_id rec)) runner_id
                "completion payload requires current Running ownership")
     else mret tt);;
    execute write;;
    commit)).

(* @src rustvello-sqlite/src/state_backend/core.rs 239-260 SqliteStateBackend::store_result_for_runner *)
Definition sqlite_store_result_for_runner (id : InvocationId) (result : string) (runner_id : RunnerId) :
    SqOp unit :=
  write_owned id runner_id Success (upd_results <[id := result]>).

(* @src rustvello-sqlite/src/state_backend/core.rs 262-277 SqliteStateBackend::get_result *)
Definition sqlite_get_result (id : InvocationId) : SqOp (option string) :=
  sqlite (gets (λ d, t_results (db_state d) !! id)).

(* @src rustvello-sqlite/src/state_backend/core.rs 279-304 SqliteStateBackend::store_error *)
Definition sqlite_store_error (id : InvocationId) (error : TaskError) : SqOp unit :=
  sqlite (modify (upd_errors <[id := error]>)).

(* @src rustvello-sqlite/src/state_backend/core.rs 306-322 SqliteStateBackend::store_error_for_runner *)
Definition sqlite_store_error_for_runner (id : InvocationId) (error : TaskError) (runner_id : RunnerId) :
    SqOp unit :=
  write_owned id runner_id Failed (upd_errors <[id := error]>).

(* @src rustvello-sqlite/src/state_backend/core.rs 324-344 SqliteStateBackend::get_error *)
Definition sqlite_get_error (id : InvocationId) : SqOp (option TaskError) :=
  sqlite (gets (λ d, t_errors (db_state d) !! id)).

(* @src rustvello-sqlite/src/state_backend/core.rs 346-369 SqliteStateBackend::add_history *)
Definition sqlite_add_history (h : InvocationHistory) : SqOp unit :=
  sqlite (modify (upd_history (λ l, l ++ [history_row h]))).

Definition history_of (d : Database) (id : InvocationId) : list HistoryRow :=
  bfilter (λ r, bool_decide (hr_invocation_id r = id)) (t_history (db_state d)).

(* @src rustvello-sqlite/src/state_backend/core.rs 371-438 SqliteStateBackend::get_history *)
Definition sqlite_get_history (id : InvocationId) : SqOp (list InvocationHistory) :=
  sqlite (gets (λ d, read_history <$> history_of d id)).

(** Every invocation becomes a tombstone; the statuses go, but retry counts, slots
    and heartbeats stay. *)
(* @src rustvello-sqlite/src/state_backend/core.rs 440-468 SqliteStateBackend::purge *)
Definition sqlite_backend_purge : SqOp unit :=
  sqlite (in_transaction (
    execute (λ d, upd_submissions (λ m, fmap (λ _, "") ((fmap (λ _, "") (sq_invocations d)) ∪ m)) d);;
    execute (upd_invocations (λ _, ∅));;
    execute (upd_calls (λ _, ∅));;
    execute (upd_results (λ _, ∅));;
    execute (upd_errors (λ _, ∅));;
    execute (upd_history (λ _, []));;
    execute (upd_status_records (λ _, ∅));;
    execute (upd_waiting_for (λ _, ∅));;
    execute (on_queue (delete_rows (λ _, true)));;
    execute (upd_workflow_runs (λ _, ∅));;
    execute (upd_workflow_data (λ _, ∅));;
    execute (upd_app_infos (λ _, ∅));;
    execute (upd_workflow_sub_invocations (λ _, ∅));;
    execute (upd_runner_contexts (λ _, ∅));;
    commit)).

(** ** Workflows and applications ([query.rs]) *)

Definition runs_of (t : TaskId) (d : Database) : list (InvocationId * WorkflowRunRow) :=
  bfilter (λ p, bool_decide (wr_workflow_type p.2 = task_id_display t)) (map_iter (t_workflow_runs (db_workflow d))).

(* @src rustvello-sqlite/src/state_backend/query.rs 17-32 SqliteStateBackend::get_workflow_run_offset *)
Definition sqlite_get_workflow_run_offset (wtype : TaskId) (wid : InvocationId) : SqOp (option nat) :=
  sqlite (gets (λ d,
    if bool_decide (wid ∈ (runs_of wtype d).*1)
    then Some (length (bfilter (λ p, str_gtb p.1 wid) (runs_of wtype d)))
    else None)).

Definition workflow_members (wid : InvocationId) (d : Database) : list InvocationId :=
  (bfilter (λ p, bool_decide (ir_workflow_id p.2 = Some wid)) (map_iter (sq_invocations d))).*1.

(* @src rustvello-sqlite/src/state_backend/query.rs 34-56 SqliteStateBackend::get_workflow_invocations_page *)
Definition sqlite_get_workflow_invocations_page (wid : InvocationId) (limit offset : nat) :
    SqOp (list InvocationId * nat) :=
  sqlite (gets (λ d,
    (take limit (drop offset (str_sort (workflow_members wid d))), length (workflow_members wid d)))).

(* @src rustvello-sqlite/src/state_backend/query.rs 58-80 SqliteStateBackend::get_workflow_invocations *)
Definition sqlite_get_workflow_invocations (wid : InvocationId) : SqOp (list InvocationId) :=
  sqlite (gets (workflow_members wid)).

(* @src rustvello-sqlite/src/state_backend/query.rs 82-104 SqliteStateBackend::get_child_invocations *)
Definition sqlite_get_child_invocations (parent : InvocationId) : SqOp (list InvocationId) :=
  sqlite (gets (λ d,
    (bfilter (λ p, bool_decide (ir_parent_invocation_id p.2 = Some parent)) (map_iter (sq_invocations d))).*1)).

(* @src rustvello-sqlite/src/state_backend/query.rs 106-126 SqliteStateBackend::store_workflow_run *)
Definition sqlite_store_workflow_run (w : WorkflowIdentity) : SqOp unit :=
  sqlite (modify (upd_workflow_runs <[workflow_id w := run_row w]>)).

(* @src rustvello-sqlite/src/state_backend/query.rs 128-153 SqliteStateBackend::get_all_workflow_types *)
Definition sqlite_get_all_workflow_types : SqOp (list TaskId) :=
  sqlite (
    types ← gets (λ d, set_iter (list_to_set (wr_workflow_type <$> (map_to_list (t_workflow_runs (db_workflow d))).*2) : gset string));
    lift (mapM (parse_task "task_id") types)).

(* @src rustvello-sqlite/src/state_backend/query.rs 155-197 SqliteStateBackend::get_workflow_runs *)
Definition sqlite_get_workflow_runs (wtype : TaskId) : SqOp (list WorkflowIdentity) :=
  sqlite (rows ← gets (runs_of wtype); lift (mapM read_run rows)).

(* @src rustvello-sqlite/src/state_backend/query.rs 199-214 SqliteStateBackend::count_workflow_runs *)
Definition sqlite_count_workflow_runs (wtype : TaskId) : SqOp nat :=
  sqlite (gets (λ d, length (runs_of wtype d))).

(* @src rustvello-sqlite/src/state_backend/query.rs 216-268 SqliteStateBackend::get_workflow_runs_paginated *)
Definition sqlite_get_workflow_runs_paginated (wtype : TaskId) (limit offset : nat) :
    SqOp (list WorkflowIdentity) :=
  sqlite (
    rows ← gets (λ d, take limit (drop offset (sort_by (λ a b, str_leb b.1 a.1) (runs_of wtype d))));
    lift (mapM read_run rows)).

(* @src rustvello-sqlite/src/state_backend/query.rs 270-292 SqliteStateBackend::set_workflow_data *)
Definition sqlite_set_workflow_data (wid : InvocationId) (key value : string) : SqOp unit :=
  sqlite (modify (upd_workflow_data <[(wid, key) := value]>)).

(* @src rustvello-sqlite/src/state_backend/query.rs 294-314 SqliteStateBackend::get_workflow_data *)
Definition sqlite_get_workflow_data (wid : InvocationId) (key : string) : SqOp (option string) :=
  sqlite (gets (λ d, t_workflow_data (db_workflow d) !! (wid, key))).

(* @src rustvello-sqlite/src/state_backend/query.rs 316-330 SqliteStateBackend::store_app_info *)
Definition sqlite_store_app_info (app_id info_json : string) : SqOp unit :=
  sqlite (modify (upd_app_infos <[app_id := info_json]>)).

(* @src rustvello-sqlite/src/state_backend/query.rs 332-347 SqliteStateBackend::get_app_info *)
Definition sqlite_get_app_info (app_id : string) : SqOp (option string) :=
  sqlite (gets (λ d, t_app_infos (db_workflow d) !! app_id)).

(* @src rustvello-sqlite/src/state_backend/query.rs 349-368 SqliteStateBackend::get_all_app_infos *)
Definition sqlite_get_all_app_infos : SqOp (list (string * string)) :=
  sqlite (gets (λ d, map_iter (t_app_infos (db_workflow d)))).

(* @src rustvello-sqlite/src/state_backend/query.rs 370-390 SqliteStateBackend::store_workflow_sub_invocation *)
Definition sqlite_store_workflow_sub_invocation (wid sub_inv_id : InvocationId) : SqOp unit :=
  sqlite (modify (upd_workflow_sub_invocations (λ X, {[ (wid, sub_inv_id) ]} ∪ X))).

(* @src rustvello-sqlite/src/state_backend/query.rs 392-415 SqliteStateBackend::get_workflow_sub_invocations *)
Definition sqlite_get_workflow_sub_invocations (wid : InvocationId) : SqOp (list InvocationId) :=
  sqlite (gets (λ d,
    (bfilter (λ p, bool_decide (p.1 = wid)) (set_iter (t_workflow_sub_invocations (db_workflow d)))).*2)).

(* @src rustvello-sqlite/src/state_backend/query.rs 418-456 SqliteStateBackend::get_all_workflow_runs *)
Definition sqlite_get_all_workflow_runs : SqOp (list WorkflowIdentity) :=
  sqlite (rows ← gets (λ d, map_iter (t_workflow_runs (db_workflow d))); lift (mapM read_run rows)).

(** ** Runners ([runner.rs]) *)

(* @src rustvello-sqlite/src/state_backend/runner.rs 18-45 SqliteStateBackend::store_runner_context *)
Definition sqlite_store_runner_context (c : StoredRunnerContext) : SqOp unit :=
  sqlite (modify (upd_runner_contexts <[rc_runner_id c := c]>)).

(* @src rustvello-sqlite/src/state_backend/runner.rs 47-67 SqliteStateBackend::get_runner_context *)
Definition sqlite_get_runner_context (runner_id : string) : SqOp (option StoredRunnerContext) :=
  sqlite (gets (λ d, parse_runner_context <$> t_runner_contexts (db_workflow d) !! runner_id)).

Definition contexts_where (p : StoredRunnerContext → bool) (d : Database) : list StoredRunnerContext :=
  parse_runner_context <$> bfilter p (map_iter (t_runner_contexts (db_workflow d))).*2.

(* @src rustvello-sqlite/src/state_backend/runner.rs 69-92 SqliteStateBackend::get_runner_contexts_by_parent *)
Definition sqlite_get_runner_contexts_by_parent (parent : string) : SqOp (list StoredRunnerContext) :=
  sqlite (gets (contexts_where (λ c, bool_decide (rc_parent_runner_id c = Some parent)))).

(** [SELECT DISTINCT invocation_id FROM history WHERE runner_id = ..]. *)
Definition invocations_of_runner (d : Database) (runner_id : string) : gset InvocationId :=
  list_to_set (hr_invocation_id <$> bfilter (λ r, bool_decide (hr_runner_id r = Some runner_id)) (t_history (db_state d))).

(* @src rustvello-sqlite/src/state_backend/runner.rs 94-124 SqliteStateBackend::get_invocation_ids_by_runner *)
Definition sqlite_get_invocation_ids_by_runner (runner_id : string) (limit offset : nat) :
    SqOp (list InvocationId) :=
  sqlite (gets (λ d,
    let ids := sql_drop offset (set_iter (invocations_of_runner d runner_id)) in
    if (0 <? limit)%nat then sql_take limit ids else ids)).

(* @src rustvello-sqlite/src/state_backend/runner.rs 126-141 SqliteStateBackend::count_invocations_by_runner *)
Definition sqlite_count_invocations_by_runner (runner_id : string) : SqOp nat :=
  sqlite (gets (λ d, size (invocations_of_runner d runner_id))).

(** [COALESCE(history_timestamp, timestamp)]. *)
Definition row_time (r : HistoryRow) : DateTime := default (hr_timestamp r) (hr_history_timestamp r).

(* @src rustvello-sqlite/src/state_backend/runner.rs 143-204 SqliteStateBackend::get_history_in_timerange *)
Definition sqlite_get_history_in_timerange (start finish : DateTime) (limit offset : nat) :
    SqOp (list InvocationHistory) :=
  sqlite (gets (λ d,
    let rows := bfilter (λ r, (start <=? row_time r) && (row_time r <=? finish)) (t_history (db_state d)) in
    let rows := sql_drop offset (sort_by (λ a b, row_time a <=? row_time b) (hash_order rows)) in
    read_history <$> (if (0 <? limit)%nat then sql_take limit rows else rows))).

(* @src rustvello-sqlite/src/state_backend/runner.rs 206-230 SqliteStateBackend::get_matching_runner_contexts *)
Definition sqlite_get_matching_runner_contexts (partial_id : string) : SqOp (list StoredRunnerContext) :=
  sqlite (gets (contexts_where (λ c, sql_like ("%" +:+ partial_id +:+ "%") (rc_runner_id c)))).
End backend.

(** ** The client data store *)

Section client_data.
Context `{SqlText} `{JoinText}.

(* @src rustvello-sqlite/src/client_data_store.rs 32-46 SqliteClientDataStore::store *)
Definition sqlite_client_store (key value : string) : SqOp unit :=
  sqlite (modify (upd_client_data <[key := value]>)).

(* @src rustvello-sqlite/src/client_data_store.rs 48-66 SqliteClientDataStore::retrieve *)
Definition sqlite_client_retrieve (key : string) : SqOp string :=
  sqlite (d ← get; lift (ok_or (db_client_data d !! key) (state_backend_err ("key not found: " +:+ key)))).

(* @src rustvello-sqlite/src/client_data_store.rs 68-77 SqliteClientDataStore::purge *)
Definition sqlite_client_purge : SqOp unit := sqlite (modify (upd_client_data (λ _, ∅))).

(** The SQLite store keeps the contract the client data manager relies on, also
    with a poisoned lock. *)
#[export] Instance sqlite_client_data : ClientDataStore Handle.
Proof.
  refine {| cs_data h k := db_client_data (h_db h) !! k;
            cs_store := sqlite_client_store; cs_retrieve := sqlite_client_retrieve;
            cs_purge := sqlite_client_purge |}.
  - intros k v c h. unfold state_after, result_of, sqlite_client_store, sqlite, blocking, with_connection.
    destruct (h_poisoned h); simpl; [split; [by left|done]|].
    split; [|by rewrite lookup_insert_eq].
    intros k'. destruct (decide (k' = k)) as [->|Hk]; [right; by rewrite lookup_insert_eq|left].
    by rewrite lookup_insert_ne.
  - intros k c h. unfold state_after, result_of, sqlite_client_retrieve, sqlite, blocking, with_connection.
    destruct (h_poisoned h); [done|]. cbv [mbind M_bind get lift].
    destruct (db_client_data (h_db h) !! k) as [v|] eqn:Hk; simpl; (split; [done|]); [by intros v' [= <-]|done].
  - intros c h. unfold state_after, result_of, sqlite_client_purge, sqlite, blocking, with_connection.
    destruct (h_poisoned h); simpl; [done|]. split; intros; by rewrite lookup_empty in *.
Defined.
End client_data.

(** ** Lemmas *)

Lemma parse_task_display what t : task_id_valid t → parse_task what (task_id_display t) = Ok t.
Proof.
  intros Hv. unfold parse_task, task_id_display. pose proof Hv as (_&_&Hn&Hd&_&Hm&_).
  rewrite task_id_from_str_display by done. by rewrite task_id_valid_rebuild.
Qed.

Lemma args_part_display c : str_contains_char ":" (args_id c) = false → args_part (call_id_display c) = args_id c.
Proof.
  intros Hc. unfold args_part, call_id_display.
  change (":" +:+ args_id c) with (String ":" (args_id c)). by rewrite str_rsplit_app.
Qed.

Lemma u32_or_zero_small n : 0 ≤ n ≤ u32_max → u32_or_zero n = n.
Proof. intros Hn. unfold u32_or_zero. by rewrite (proj2 (Z.leb_le 0 n)), (proj2 (Z.leb_le n u32_max)) by lia. Qed.

(** What the engine's constructors guarantee of an invocation: ids of tasks are
    valid, the call is one of the task, digests have no colon, depths fit. *)
Definition well_formed_invocation (i : InvocationDTO) : Prop :=
  task_id_valid (inv_task_id i) ∧ call_task_id (inv_call_id i) = inv_task_id i ∧
  str_contains_char ":" (args_id (inv_call_id i)) = false ∧
  ∀ w, inv_workflow i = Some w → task_id_valid (workflow_type w) ∧ 0 ≤ wf_depth w ≤ u32_max.

Lemma read_invocation_row i : well_formed_invocation i → read_invocation (inv_id i) (invocation_row i) = Ok i.
Proof.
  destruct i as [id t [ct a] st cr up par wf tr].
  intros (Ht & Hc & Ha & Hw). unfold read_invocation, invocation_row. simpl in *. subst ct.
  rewrite parse_task_display by done. simpl. change (task_id_display t +:+ ":" +:+ a) with (call_id_display (mkCallId t a)).
  rewrite args_part_display by done. destruct wf as [w|]; simpl; [|done].
  destruct (Hw w eq_refl) as [Hty Hd]. rewrite parse_task_display by done. simpl.
  rewrite u32_or_zero_small by done. by destruct w.
Qed.

Section facts.
Context `{HashOrder} `{SqlText} `{JoinText} `{ArgumentsCodec}.

(** invocations and calls survive the database.  What [upsert_invocation]
    stored is what [get_invocation] and [get_call] read back, field by field,
    the workflow identity and the trace context included; every other invocation
    and every other call reads as before. *)
Theorem sqlite_invocation_roundtrip i call c d :
  well_formed_invocation i → task_id_valid (cd_task_id call) →
  ∃ d', sqlite_upsert_invocation i call c (handle_new d) = (Ok tt, c, handle_new d') ∧
    sqlite_get_invocation (inv_id i) c (handle_new d') = (Ok i, c, handle_new d') ∧
    sqlite_get_call (cd_call_id call) c (handle_new d') = (Ok call, c, handle_new d') ∧
    (∀ id, id ≠ inv_id i →
       result_of (sqlite_get_invocation id) c (handle_new d') = result_of (sqlite_get_invocation id) c (handle_new d)) ∧
    (∀ k, call_id_display k ≠ call_id_display (cd_call_id call) →
       result_of (sqlite_get_call k) c (handle_new d') = result_of (sqlite_get_call k) c (handle_new d)).
Proof.
  intros Hi Ht. eexists. split; [reflexivity|].
  unfold result_of, sqlite_get_invocation, sqlite_get_call, sqlite, blocking, with_connection, handle_new.
  cbv [mbind M_bind get lift h_poisoned h_db mret M_ret]. unfold sq_invocations. simpl. split_and!.
  - rewrite lookup_insert_eq. simpl. by rewrite read_invocation_row.
  - rewrite lookup_insert_eq. simpl. rewrite parse_task_display by done. rewrite arguments_json_roundtrip. simpl.
    by destruct call.
  - intros id Hid. rewrite lookup_insert_ne by done. by destruct (ok_or _ _) as [r| |]; [destruct (read_invocation _ _)| |].
  - intros k Hk. rewrite lookup_insert_ne by done. destruct (ok_or _ _) as [r| |]; [|done..].
    destruct (parse_task _ _); [|done..]. by destruct (map_err _ _).
Qed.

(** only the owner stores an outcome.  The result of an invocation is
    accepted exactly from the runner that owns it while it is running, and then
    nothing but the result changes; any other runner or status is refused with
    the ownership at hand, and the database keeps its result, if it has one. *)
Theorem sqlite_result_needs_ownership id x r c d :
  let m := sqlite_store_result_for_runner id x r in
  match sq_status d !! id with
  | Some rec =>
      if decide (rec_status rec = Running ∧ rec_runner_id rec = Some r) then
        m c (handle_new d) = (Ok tt, c, handle_new (upd_results <[id := x]> d))
      else m c (handle_new d) =
        (Err (EOwnershipViolation id (rec_status rec) Success (default "" (rec_runner_id rec)) r
           "completion payload requires current Running ownership"), c, handle_new d)
  | None => m c (handle_new d) = (Err (sql_err NoRows), c, handle_new d)
  end.
Proof.
  intros m. unfold m, sqlite_store_result_for_runner, write_owned, sqlite, blocking, with_connection, handle_new.
  cbn [h_poisoned h_db]. unfold in_transaction, query, gets, mbind, M_bind. cbn [tx_working].
  destruct (sq_status d !! id) as [rec|]; [|done]. cbn [ok_or lift].
  case_decide as Ho.
  - destruct Ho as [Hs Hr]. rewrite (bool_decide_false (rec_status rec ≠ Running)) by naive_solver.
    rewrite (bool_decide_false (rec_runner_id rec ≠ Some r)) by naive_solver. done.
  - destruct (decide (rec_status rec = Running)) as [Hs|Hs].
    + rewrite (bool_decide_false (rec_status rec ≠ Running)) by naive_solver.
      rewrite (bool_decide_true (rec_runner_id rec ≠ Some r)) by naive_solver. done.
    + rewrite (bool_decide_true (rec_status rec ≠ Running)) by done. done.
Qed.

(** what history keeps.  An added entry becomes the last of its invocation's
    history and no other history changes; it is read back with the status
    record's runner in place of its own and without the invocation that
    registered it, and otherwise as it was. *)
Theorem sqlite_history_appends h c d :
  ∃ d', sqlite_add_history h c (handle_new d) = (Ok tt, c, handle_new d') ∧
    ∀ id, ∃ l, sqlite_get_history id c (handle_new d) = (Ok l, c, handle_new d) ∧
      sqlite_get_history id c (handle_new d') =
        (Ok (if decide (id = hist_invocation_id h)
             then l ++ [mkHistory (hist_invocation_id h) (hist_status_record h) (hist_message h)
                          (rec_runner_id (hist_status_record h)) None (hist_timestamp h)]
             else l), c, handle_new d').
Proof.
  eexists. split; [reflexivity|]. intros id. eexists. split; [reflexivity|].
  unfold sqlite_get_history, sqlite, blocking, with_connection, handle_new, gets. cbn [h_poisoned h_db].
  do 4 f_equal. unfold history_of. simpl. unfold bfilter. rewrite List.filter_app. simpl.
  destruct (decide (id = hist_invocation_id h)) as [->|Hne].
  - rewrite bool_decide_true by done. rewrite fmap_app. simpl. unfold read_history, history_row. simpl.
    by destruct (hist_status_record h).
  - rewrite bool_decide_false by done. by rewrite app_nil_r.
Qed.
End facts.

(** ** Witnesses *)

Definition demo_arguments_codec : ArgumentsCodec.
Proof.
  refine {| arguments_to_json a := digits_of (encode (a : gmap string string));
            arguments_from_json s := match decode (of_digits s) with
                                     | Some a => Ok (a : gmap string string)
                                     | None => Err "invalid JSON"
                                     end |}.
  intros a. by rewrite of_digits_of, decode_encode.
Defined.

Definition sql_task : TaskId := mkTaskId Rust "appwork" 3.
Definition sql_call : CallDTO := mkCallDTO (mkCallId sql_task "no_args") sql_task arguments_new.
Definition sql_invocation : InvocationDTO :=
  mkInvocation "i" sql_task (mkCallId sql_task "no_args") Registered 1 1 (Some "p")
    (Some (mkWorkflow "w" sql_task (Some "v") 2)) trace_context_default.

Lemma sql_task_valid : task_id_valid sql_task.
Proof. repeat split; vm_compute; try done; lia. Qed.

Lemma sqlite_invocation_roundtrip_witness :
  ∃ d', @sqlite_upsert_invocation demo_join demo_arguments_codec sql_invocation sql_call demo_now
      (handle_new database_new) = (Ok tt, demo_now, handle_new d') ∧
    @sqlite_get_invocation demo_join "i" demo_now (handle_new d') = (Ok sql_invocation, demo_now, handle_new d').
Proof.
  destruct (@sqlite_invocation_roundtrip demo_join demo_arguments_codec sql_invocation sql_call demo_now database_new)
    as (d' & Hrun & Hget & _).
  - split_and!; [exact sql_task_valid|done|reflexivity|]. intros w [= <-]. split; [exact sql_task_valid|by vm_compute].
  - exact sql_task_valid.
  - exists d'. split; [exact Hrun|exact Hget].
Defined.
