(* ===== verification/SqlitePublication.v ===== *)
(** * Transactional publication on SQLite

    Models [rustvello-sqlite/src/publication.rs]: the submission of an invocation
    and every change of a submitted one are one transaction over status, history,
    payload, queue, slots and waiters.  The failpoints of [failpoints.rs] are the
    places where the code may be interrupted.

    The theorem: whichever failpoint fails, a publication happened completely or
    not at all.  What the operations do is proved in [SqlitePublished]. *)
From S2P Require Import Prelude F64 Effects Json Identifiers Status Errors Config Call Invocation Trigger OrchestratorState MemOrchestrator MemBroker MemStateBackend Ports TriggerManager Execution SqliteDb SqliteBroker SqliteOrchestrator SqliteState.

(* @src rustvello-sqlite/src/publication.rs 29-33 configuration *)
Definition configuration (message : string) : RustvelloError := EConfiguration message.

(* @src rustvello-sqlite/src/publication.rs 35-42 validate_route *)
Definition validate_route (route : PublicationRoute) : RustvelloResult unit :=
  if bool_decide (route_queue route = "") || negb (f64_is_finite (route_priority route)) then
    Err (configuration "publication requires a nonempty queue and finite priority")
  else Ok tt.

(** Replaces any entry of the invocation. *)
(* @src rustvello-sqlite/src/publication.rs 44-57 publish *)
Definition publish (id : InvocationId) (task : string) (route : PublicationRoute) : Tx unit :=
  lift (validate_route route);;
  execute (delete_deliveries id);;
  execute (on_queue (enqueue id (Some task) (route_queue route) (route_priority route))).

(* @src rustvello-sqlite/src/publication.rs 59-73 delay_delivery *)
Definition delay_delivery (id : InvocationId) (delay : Z) : Tx unit :=
  at_ ← not_before_ms delay;
  execute (on_queue (λ t, foldr (λ r t, lease (bq_id r) at_ t) t
    (bfilter (λ r, bool_decide (bq_invocation_id r = id)) (t_broker_queue t)))).

(* @src rustvello-sqlite/src/publication.rs 75-84 history *)
Definition history_entry (id : InvocationId) (record : InvocationStatusRecord) (runner : RunnerId) : Tx unit :=
  execute (upd_history (λ l, l ++ [{| hr_invocation_id := id; hr_status := rec_status record;
    hr_runner_id := Some runner; hr_timestamp := rec_timestamp record; hr_message := None;
    hr_history_timestamp := Some (rec_timestamp record) |}])).

(* @src rustvello-sqlite/src/publication.rs 86-103 current *)
Definition current (id : InvocationId) : Tx InvocationStatusRecord :=
  d ← query (λ d, d);
  lift (ok_or (sq_status d !! id) (EInvocationNotFound id)).

(* @src rustvello-sqlite/src/publication.rs 105-142 transition *)
Definition transition (id : InvocationId) (runner : RunnerId) (old : InvocationStatusRecord)
    (status : InvocationStatus) : Tx InvocationStatusRecord :=
  record ← lift_now (λ now,
    map_err (λ e, status_machine_error_to_rustvello e id (rec_status old))
      (status_record_transition now (Some old) status (Some runner)));
  execute (write_status id record);;
  history_entry id record runner;;
  (if bool_decide (status = Pending) || is_terminal status then execute (delete_deliveries id) else mret tt);;
  mret record.

Section publication.
Context `{Chrono} `{SqlText} `{JoinText} `{ArgumentsCodec} `{SubmissionCodec} `{ExecutionCodec}.
Context (fp : Failpoints).

(** ** Beginning an attempt *)

(** [json_error] is the text of [serde_json] for an identity it cannot read. *)
(* @src rustvello-sqlite/src/publication.rs 164-179 SqlitePublication::begin_execution *)
Definition begin_tx (drawn : nat) (json_error : string) (id : InvocationId)
    (runner : RunnerId) (retries : Z) (incoming : TraceContextCarrier) : Tx ExecutionAttemptIdentity :=
  old ← current id;
  (if bool_decide (rec_status old ≠ Running) || bool_decide (rec_runner_id old ≠ Some runner) then
     throw (configuration "execution identity requires current Running ownership")
   else mret tt);;
  encoded ← query (λ d, t_workflow_data (db_workflow d) !! (id, IDENTITY_KEY));
  previous ← lift (match encoded with
    | Some s => i ← ok_or (identity_from_json s) (configuration json_error); Ok (Some i)
    | None => Ok None
    end);
  identity ← lift (next_execution_identity drawn previous retries incoming);
  execute (upd_workflow_data <[(id, IDENTITY_KEY) := identity_to_json identity]>);;
  boundary fp "execution.before_commit" id;;
  commit;;
  boundary fp "execution.after_commit" id;;
  mret identity.

(* @src rustvello-sqlite/src/publication.rs 154-181 SqlitePublication::begin_execution *)
Definition sqlite_begin_execution (drawn : nat) (json_error : string) (id : InvocationId)
    (runner : RunnerId) (retries : Z) (incoming : TraceContextCarrier) : SqOp ExecutionAttemptIdentity :=
  sqlite (in_transaction (begin_tx drawn json_error id runner retries incoming)).

(** ** Submission *)

(** Whether anything but a submission knows the id. *)
Definition occupied (id : InvocationId) (d : Database) : bool :=
  bool_decide (is_Some (sq_invocations d !! id)) ||
  existsb (λ r, bool_decide (hr_invocation_id r = id)) (t_history (db_state d)) ||
  bool_decide (is_Some (t_results (db_state d) !! id)) ||
  bool_decide (is_Some (t_errors (db_state d) !! id)) ||
  existsb (λ p, bool_decide (p.1.1 = id)) (map_to_list (t_workflow_data (db_workflow d))) ||
  bool_decide (is_Some (t_workflow_runs (db_workflow d) !! id)).

Definition with_row {T} (set : T → Database → Database) (r : SqlFailure + T) (d : Database) :
    SqlFailure + Database :=
  match r with inl e => inl e | inr x => inr (set x d) end.

Definition insert_invocation_row (id : InvocationId) (r : InvocationRow) : Tx unit :=
  execute_checked (λ d, with_row (λ m, upd_invocations (λ _, m)) (insert_new id r (sq_invocations d)) d).

(** The row of a submitted invocation: registered now. *)
Definition submitted_row (i : InvocationDTO) (now : DateTime) : InvocationRow :=
  let r := invocation_row i in
  {| ir_task_id := ir_task_id r; ir_call_id := ir_call_id r; ir_status := Registered;
     ir_created_at := now; ir_updated_at := now; ir_parent_invocation_id := ir_parent_invocation_id r;
     ir_workflow_id := ir_workflow_id r; ir_workflow_type := ir_workflow_type r;
     ir_workflow_depth := ir_workflow_depth r; ir_workflow_parent_id := None;
     ir_trace_context := ir_trace_context r |}.

Definition set_workflow_parent (id : InvocationId) (parent : option InvocationId) : Database → Database :=
  upd_invocations (alter (λ r, mkInvocationRow (ir_task_id r) (ir_call_id r) (ir_status r) (ir_created_at r)
    (ir_updated_at r) (ir_parent_invocation_id r) (ir_workflow_id r) (ir_workflow_type r)
    (ir_workflow_depth r) parent (ir_trace_context r)) id).

(** A [u64] above [i64::MAX] cannot be bound. *)
Definition ignore_runner_context (c : StoredRunnerContext) : Tx unit :=
  if i64_max <? rc_thread_id c then throw (sql_err IntegerOutOfRange)
  else execute (upd_runner_contexts (insert_or_ignore (rc_runner_id c) c)).

(* @src rustvello-sqlite/src/publication.rs 198-243 SqlitePublication::submit *)
Definition submit_tx (s : SubmissionPublication) : Tx bool :=
  let i := sp_invocation s in
  let id := inv_id i in
  let call := sp_call s in
  existing ← query (λ d, t_submissions (db_state d) !! id);
  match existing with
  | Some x =>
      if bool_decide (x = "") then throw (configuration "submission ID was removed; use a fresh ID")
      else if negb (bool_decide (x = submission_identity s)) then
        throw (configuration "submission ID already accepted with different content or lineage")
      else mret false
  | None =>
      taken ← query (occupied id);
      (if taken : bool then
         throw (configuration "submission ID belongs to a legacy invocation; use a fresh ID")
       else mret tt);;
      now ← utc_now;
      insert_invocation_row id (submitted_row i now);;
      execute_checked (λ d, with_row (λ m, upd_status_records (λ _, m))
        (insert_new id (mkRecord Registered (Some (sp_runner_id s)) now) (sq_status d)) d);;
      boundary fp "submit.control" id;;
      execute (set_workflow_parent id (inv_workflow i ≫= wf_parent_id));;
      execute (upd_calls (insert_or_ignore (call_id_display (cd_call_id call))
        (mkCallRow (task_id_display (cd_task_id call)) (arguments_to_json (cd_serialized_arguments call)))));;
      boundary fp "submit.call" id;;
      match (if sp_workflow_root s then inv_workflow i else None) with
      | Some w => execute_checked (λ d, with_row (λ m, upd_workflow_runs (λ _, m))
                    (insert_new (workflow_id w) (run_row w) (t_workflow_runs (db_workflow d))) d)
      | None => mret tt
      end;;
      boundary fp "submit.workflow" id;;
      match sp_runner_context s with Some c => ignore_runner_context c | None => mret tt end;;
      history_entry id (mkRecord Registered (Some (sp_runner_id s)) now) (sp_runner_id s);;
      boundary fp "submit.history" id;;
      match sp_cc_arguments s with
      | Some args => for_each (λ p, execute_checked (λ d, with_row (λ m, upd_cc_arg_pairs (λ _, m))
            (insert_new (id, p.1, p.2) (task_id_display (inv_task_id i)) (t_cc_arg_pairs (db_control d))) d))
          (cc_arg_pairs args)
      | None => mret tt
      end;;
      publish id (task_id_display (inv_task_id i)) (sp_route s);;
      boundary fp "submit.queue" id;;
      execute_checked (λ d, with_row (λ m, upd_submissions (λ _, m))
        (insert_new id (submission_identity s) (t_submissions (db_state d))) d);;
      boundary fp "submit.before_commit" id;;
      commit;;
      boundary fp "submit.after_commit" id;;
      mret true
  end.

(* @src rustvello-sqlite/src/publication.rs 183-197 SqlitePublication::submit *)
Definition sqlite_submit (s : SubmissionPublication) : SqOp bool :=
  let i := sp_invocation s in
  blocking (
    lift (validate_route (sp_route s));;
    (if bool_decide (inv_task_id i ≠ cd_task_id (sp_call s)) || bool_decide (inv_call_id i ≠ cd_call_id (sp_call s))
     then throw (configuration "invocation and call identities differ")
     else mret tt);;
    boundary fp "submit.before_begin" (inv_id i);;
    with_connection (in_transaction (submit_tx s))).

(** ** Changes *)

(* @src rustvello-sqlite/src/publication.rs 257-267 SqlitePublication::change *)
Definition change_operation (change : PublicationChange) : string :=
  match change with
  | ChangeRecover _ _ _ => "recover"
  | ChangeRetry _ | ChangeDelayedRetry _ _ => "retry"
  | ChangeReroute _ | ChangeConcurrencyReroute _ => "reroute"
  | ChangeSuccess _ | ChangeFailure _ => "complete"
  | ChangeStatus s => "status." +:+ status_display s
  end.

Definition change_route (change : PublicationChange) : option PublicationRoute :=
  match change with
  | ChangeRecover _ _ route | ChangeConcurrencyReroute route | ChangeRetry route
  | ChangeReroute route | ChangeDelayedRetry route _ => Some route
  | _ => None
  end.

(* @src rustvello-sqlite/src/publication.rs 299-305 SqlitePublication::change *)
Definition change_status (change : PublicationChange) : InvocationStatus :=
  match change with
  | ChangeStatus s => s
  | ChangeRetry _ | ChangeDelayedRetry _ _ => Retry
  | ChangeSuccess _ => Success
  | ChangeFailure _ => Failed
  | _ => Rerouted
  end.

Definition is_completion (change : PublicationChange) : bool :=
  match change with ChangeSuccess _ | ChangeFailure _ => true | _ => false end.

(** The first part of a change: the intermediate status of a recovery and of a
    concurrency reroute.  [None] ends the change without an effect. *)
(* @src rustvello-sqlite/src/publication.rs 272-298 SqlitePublication::change *)
Definition change_prepare (id : InvocationId) (runner : RunnerId) (change : PublicationChange)
    (old : InvocationStatusRecord) : Tx (option InvocationStatusRecord) :=
  let point stage := boundary fp (change_operation change +:+ "." +:+ stage) id in
  match change with
  | ChangeRecover status stale_after_seconds _ =>
      expected ← lift (match status with
        | PendingRecovery => Ok Pending
        | RunningRecovery => Ok Running
        | _ => Err (configuration "invalid recovery status")
        end);
      if bool_decide (rec_status old ≠ expected) then mret None
      else
        cutoff ← cutoff_before stale_after_seconds;
        heartbeat ← query (λ d, r ← rec_runner_id old; t_runner_heartbeats (db_control d) !! r);
        let last_seen :=
          if decide (expected = Pending) then rec_timestamp old
          else match heartbeat with Some row => hb_last_heartbeat row | None => rec_timestamp old end in
        if cutoff <=? last_seen then mret None
        else
          old' ← transition id runner old status;
          point "recovery_status";;
          mret (Some old')
  | ChangeConcurrencyReroute _ =>
      old' ← transition id runner old ConcurrencyControlled;
      point "concurrency_status";;
      mret (Some old')
  | _ => mret (Some old)
  end.

(** The retry counter or the payload. *)
(* @src rustvello-sqlite/src/publication.rs 317-331 SqlitePublication::change *)
Definition change_payload (id : InvocationId) (change : PublicationChange) : Tx unit :=
  let point stage := boundary fp (change_operation change +:+ "." +:+ stage) id in
  match change with
  | ChangeRetry _ | ChangeDelayedRetry _ _ => execute (bump_retries id);; point "counter"
  | ChangeSuccess result => execute (upd_results <[id := result]>);; point "payload"
  | ChangeFailure error => execute (upd_errors <[id := error]>);; point "payload"
  | _ => mret tt
  end.

(** The new queue entry. *)
(* @src rustvello-sqlite/src/publication.rs 332-340 SqlitePublication::change *)
Definition change_queue (id : InvocationId) (change : PublicationChange) : Tx unit :=
  let point stage := boundary fp (change_operation change +:+ "." +:+ stage) id in
  match change_route change with
  | Some route =>
      d ← query (λ d, d);
      row ← lift (ok_or (sq_invocations d !! id) (sql_err NoRows));
      publish id (ir_task_id row) route;;
      match change with ChangeDelayedRetry _ delay => delay_delivery id delay | _ => mret tt end;;
      execute (delete_cc_pairs id);;
      point "queue"
  | None => mret tt
  end.

(** What a terminal status releases. *)
(* @src rustvello-sqlite/src/publication.rs 341-348 SqlitePublication::change *)
Definition change_terminal (id : InvocationId) (change : PublicationChange) (auto_purge : bool)
    (record : InvocationStatusRecord) : Tx unit :=
  let point stage := boundary fp (change_operation change +:+ "." +:+ stage) id in
  if is_terminal (change_status change) then
    execute (upd_waiting_for (filter (λ w, w.2 ≠ id)));;
    execute (delete_cc_pairs id);;
    (if auto_purge then execute (upd_auto_purge_schedule <[id := rec_timestamp record]>) else mret tt);;
    point "terminal_effects"
  else mret tt.

(** The rest, from the record [old] the first part left. *)
(* @src rustvello-sqlite/src/publication.rs 299-352 SqlitePublication::change *)
Definition change_apply (id : InvocationId) (runner : RunnerId) (change : PublicationChange)
    (auto_purge : bool) (old : InvocationStatusRecord) : Tx (option InvocationStatusRecord) :=
  let point stage := boundary fp (change_operation change +:+ "." +:+ stage) id in
  let status := change_status change in
  (if is_completion change &&
      (bool_decide (rec_status old ≠ Running) || bool_decide (rec_runner_id old ≠ Some runner)) then
     throw (EOwnershipViolation id (rec_status old) status (default "" (rec_runner_id old)) runner
              "completion payload requires current Running ownership")
   else mret tt);;
  record ← transition id runner old status;
  point "status_history";;
  change_payload id change;;
  change_queue id change;;
  change_terminal id change auto_purge record;;
  point "before_commit";;
  commit;;
  point "after_commit";;
  mret (Some record).

(* @src rustvello-sqlite/src/publication.rs 270-353 SqlitePublication::change *)
Definition change_tx (id : InvocationId) (runner : RunnerId) (change : PublicationChange)
    (auto_purge : bool) : Tx (option InvocationStatusRecord) :=
  old ← current id;
  prepared ← change_prepare id runner change old;
  match prepared with
  | None => mret None
  | Some old => change_apply id runner change auto_purge old
  end.

(* @src rustvello-sqlite/src/publication.rs 246-354 SqlitePublication::change *)
Definition sqlite_change (id : InvocationId) (runner : RunnerId) (change : PublicationChange)
    (auto_purge : bool) : SqOp (option InvocationStatusRecord) :=
  blocking (
    boundary fp (change_operation change +:+ ".before_begin") id;;
    with_connection (in_transaction (change_tx id runner change auto_purge))).

(* @src rustvello-sqlite/src/publication.rs 144-152 SqlitePublication::domain *)
Definition sqlite_publication (domain : string) (drawn : nat) (json_error : string) : RuntimePublication Handle :=
  {| pub_domain := domain;
     pub_supports_delayed_retry := true;
     pub_begin_execution := sqlite_begin_execution drawn json_error;
     pub_submit := sqlite_submit;
     pub_change := sqlite_change |}.
End publication.

(** ** Interrupted transactions *)

(** The part of a transaction before its commit: [m] does what [m0] does until it
    stops, and neither touches what is committed. *)
Definition follows_open {A} (m m0 : Tx A) : Prop :=
  uncommitted m0 ∧
  ∀ c t, m c t = m0 c t ∨
    is_ok (result_of m c t) = false ∧ tx_committed (state_after m c t) = tx_committed t.

(** A whole transaction: where [m] stops before [m0] does, what is committed is
    what was before or what [m0] commits. *)
Definition follows {A} (m m0 : Tx A) : Prop :=
  ∀ c t, m c t = m0 c t ∨
    is_ok (result_of m c t) = false ∧
    (tx_committed (state_after m c t) = tx_committed t ∨
     tx_committed (state_after m c t) = tx_committed (state_after m0 c t)).

Lemma open_same {A} (m : Tx A) : uncommitted m → follows_open m m.
Proof. intros Hm. split; [done|]. intros c t. by left. Qed.

Lemma follows_same {A} (m : Tx A) : follows m m.
Proof. intros c t. by left. Qed.

Lemma open_boundary fp name id : follows_open (boundary fp name id) (boundary no_failpoints name id).
Proof.
  split; [apply respects_lift, _|]. intros c t. unfold boundary, no_failpoints, lift, result_of, state_after.
  simpl. destruct (fp name id) as [[]| |]; [by left|by right..].
Qed.

Lemma open_bind {A B} (m m0 : Tx A) (f f0 : A → Tx B) :
  follows_open m m0 → (∀ a, follows_open (f a) (f0 a)) → follows_open (m ≫= f) (m0 ≫= f0).
Proof.
  intros [Hu Hm] Hf. split; [apply respects_bind; [apply _|done|intros a; apply Hf]|].
  intros c t. specialize (Hu c t). specialize (Hm c t). unfold result_of, state_after in *.
  unfold mbind, M_bind. destruct Hm as [-> | [Hr Ht]].
  - destruct (m0 c t) as [[[a|e|p] c1] t1]; simpl in *; [|by left..].
    destruct (proj2 (Hf a) c1 t1) as [-> | [Hr Ht]]; [by left|right].
    unfold result_of, state_after in *. split; [done|]. by rewrite Ht.
  - right. destruct (m c t) as [[[a|e|p] c1] t1]; simpl in *; done.
Qed.

Lemma follows_bind {A B} (m m0 : Tx A) (f f0 : A → Tx B) :
  follows_open m m0 → (∀ a, follows (f a) (f0 a)) → follows (m ≫= f) (m0 ≫= f0).
Proof.
  intros [Hu Hm] Hf c t. specialize (Hu c t). specialize (Hm c t). unfold result_of, state_after in *.
  unfold mbind, M_bind. destruct Hm as [-> | [Hr Ht]].
  - destruct (m0 c t) as [[[a|e|p] c1] t1]; simpl in *; [|by left..].
    destruct (Hf a c1 t1) as [-> | [Hr Ht]]; [by left|right]. unfold result_of, state_after in *.
    split; [done|]. rewrite <-Hu. done.
  - right. destruct (m c t) as [[[a|e|p] c1] t1]; simpl in *; [done|by auto..].
Qed.

Lemma follows_commit {A} fp name id (a : A) :
  follows (commit;; boundary fp name id;; mret a) (commit;; boundary no_failpoints name id;; mret a).
Proof.
  intros c t. unfold commit, boundary, no_failpoints, modify, lift, result_of, state_after, mbind, M_bind, mret, M_ret.
  simpl. destruct (fp name id) as [[]| |]; simpl; auto.
Qed.

Lemma in_transaction_follows {A} (m m0 : Tx A) c d :
  follows m m0 →
  in_transaction m c d = in_transaction m0 c d ∨
  is_ok (result_of (in_transaction m) c d) = false ∧
  (state_after (in_transaction m) c d = d ∨
   state_after (in_transaction m) c d = state_after (in_transaction m0) c d).
Proof.
  intros Hf. specialize (Hf c (mkTx d d)). unfold in_transaction, result_of, state_after in *.
  destruct Hf as [-> | [Hr Ht]]; [by left|right].
  destruct (m c (mkTx d d)) as [[r c1] t1], (m0 c (mkTx d d)) as [[r0 c2] t2]. done.
Qed.

Ltac uncommitted_step :=
  match goal with
  | |- uncommitted _ => unfold uncommitted
  | |- respects _ (execute _) => apply respects_modify; done
  | |- respects _ (query _) => apply respects_gets, _
  | |- respects _ (execute_checked _) => unfold execute_checked
  | |- respects _ (insert_invocation_row _ _) => unfold insert_invocation_row
  | |- respects _ (history_entry _ _ _) => unfold history_entry
  | |- respects _ (publish _ _ _) => unfold publish
  | |- respects _ (current _) => unfold current
  | |- respects _ (transition _ _ _ _) => unfold transition
  | |- respects _ (ignore_runner_context _) => unfold ignore_runner_context
  | |- respects _ (delay_delivery _ _) => unfold delay_delivery
  | |- respects _ (not_before_ms _) => unfold not_before_ms
  | |- respects _ (cutoff_before _) => unfold cutoff_before
  | |- respects _ now_ms => unfold now_ms
  | |- respects _ _ => respects_step
  end.
Ltac solve_uncommitted := repeat uncommitted_step.

(** Walks through a transaction and its failpoint-free twin. *)
Ltac follows_step :=
  match goal with
  | |- follows (commit;; _) _ => apply follows_commit
  | |- follows (mbind _ _) _ => apply follows_bind; [|intros ?]
  | |- follows (match ?x with _ => _ end) _ => destruct x
  | |- follows _ _ => apply follows_same
  | |- follows_open (boundary _ _ _) _ => apply open_boundary
  | |- follows_open ?m ?m => apply open_same; solve_uncommitted
  | |- follows_open (mbind _ _) _ => apply open_bind; [|intros ?]
  | |- follows_open (match ?x with _ => _ end) _ => destruct x
  end.

Section atomic.
Context `{Chrono} `{SqlText} `{JoinText} `{ArgumentsCodec} `{SubmissionCodec} `{ExecutionCodec}.

(** A call of the publication port. *)
Inductive publication_op :=
| PubBegin (drawn : nat) (json_error : string) (id : InvocationId) (runner : RunnerId) (retries : Z)
    (incoming : TraceContextCarrier)
| PubSubmit (s : SubmissionPublication)
| PubChange (id : InvocationId) (runner : RunnerId) (change : PublicationChange) (auto_purge : bool).

Definition run_publication (fp : Failpoints) (op : publication_op) : SqOp unit :=
  match op with
  | PubBegin drawn err id runner retries incoming =>
      sqlite_begin_execution fp drawn err id runner retries incoming;; mret tt
  | PubSubmit s => sqlite_submit fp s;; mret tt
  | PubChange id runner change purge => sqlite_change fp id runner change purge;; mret tt
  end.

Lemma begin_follows fp drawn err id runner retries incoming :
  follows (begin_tx fp drawn err id runner retries incoming)
          (begin_tx no_failpoints drawn err id runner retries incoming).
Proof. unfold begin_tx. repeat follows_step. Qed.

Lemma submit_follows fp s : follows (submit_tx fp s) (submit_tx no_failpoints s).
Proof. unfold submit_tx. cbv zeta. repeat follows_step. Qed.

Lemma change_follows fp id runner change purge :
  follows (change_tx fp id runner change purge) (change_tx no_failpoints id runner change purge).
Proof.
  unfold change_tx, change_apply, change_prepare, change_payload, change_queue, change_terminal. cbv zeta.
  repeat follows_step.
Qed.

(** A transaction that fails commits nothing. *)
Definition rolls_back {A} (m : Tx A) : Prop :=
  ∀ c t, is_ok (result_of m c t) = false → tx_committed (state_after m c t) = tx_committed t.

Lemma rolls_back_open {A} (m : Tx A) : uncommitted m → rolls_back m.
Proof. intros Hm c t _. apply Hm. Qed.

Lemma rolls_back_bind {A B} (m : Tx A) (f : A → Tx B) :
  uncommitted m → (∀ a, rolls_back (f a)) → rolls_back (m ≫= f).
Proof.
  intros Hm Hf c t. specialize (Hm c t). unfold result_of, state_after in *. unfold mbind, M_bind.
  destruct (m c t) as [[[a|e|p] c1] t1]; simpl in *; [|done|done].
  intros Hr. rewrite <-Hm. by apply (Hf a c1 t1).
Qed.

Lemma rolls_back_commit {A} name id (a : A) : rolls_back (commit;; boundary no_failpoints name id;; mret a).
Proof. by intros c t. Qed.

Ltac rolls_back_step :=
  match goal with
  | |- rolls_back (commit;; _) => apply rolls_back_commit
  | |- rolls_back (match ?x with _ => _ end) => destruct x
  | |- rolls_back (mbind _ _) => apply rolls_back_bind; [unfold boundary; solve_uncommitted|intros ?]
  | |- rolls_back _ => apply rolls_back_open; solve_uncommitted
  end.

Lemma begin_rolls_back drawn err id runner retries incoming :
  rolls_back (begin_tx no_failpoints drawn err id runner retries incoming).
Proof. unfold begin_tx. repeat rolls_back_step. Qed.

Lemma submit_rolls_back s : rolls_back (submit_tx no_failpoints s).
Proof. unfold submit_tx. cbv zeta. repeat rolls_back_step. Qed.

Lemma change_rolls_back id runner change purge : rolls_back (change_tx no_failpoints id runner change purge).
Proof.
  unfold change_tx, change_apply, change_prepare, change_payload, change_queue, change_terminal. cbv zeta.
  repeat rolls_back_step.
Qed.

(** What holds of [m] with failpoints and [m0] without. *)
Definition atomic_pair {A} (m m0 : SqOp A) : Prop := ∀ c h,
  (m c h = m0 c h ∨
   is_ok (result_of m c h) = false ∧
   (h_db (state_after m c h) = h_db h ∨ h_db (state_after m c h) = h_db (state_after m0 c h))) ∧
  (is_ok (result_of m0 c h) = false → h_db (state_after m0 c h) = h_db h).

Lemma atomic_connection {A} (m m0 : Tx A) :
  follows m m0 → rolls_back m0 → atomic_pair (with_connection (in_transaction m)) (with_connection (in_transaction m0)).
Proof.
  intros Hf Hr c h. pose proof (in_transaction_follows m m0 c (h_db h) Hf) as Hi.
  specialize (Hr c (mkTx (h_db h) (h_db h))).
  unfold in_transaction, with_connection, result_of, state_after in *. destruct (h_poisoned h); simpl; [auto|].
  destruct (m c _) as [[r c1] t1], (m0 c _) as [[r0 c2] t2]. simpl in *. split; [|exact Hr].
  destruct Hi as [[= <- <- Ht] | [Hk Hd]]; [left; by rewrite Ht|right; done].
Qed.

Lemma atomic_blocking {A} (m m0 : SqOp A) : atomic_pair m m0 → atomic_pair (blocking m) (blocking m0).
Proof.
  intros Hm c h. destruct (Hm c h) as [Hp Hr]. unfold blocking, result_of, state_after in *.
  destruct Hp as [Hp | [Hk Hd]].
  - rewrite Hp. split; [by left|]. destruct (m0 c h) as [[[a|e|p] c1] h1]; auto.
  - split.
    + right. destruct (m c h) as [[[a|e|p] c1] h1], (m0 c h) as [[[a0|e0|p0] c2] h2]; simpl in *; auto.
    + destruct (m0 c h) as [[[a|e|p] c1] h1]; auto.
Qed.

Lemma atomic_guard {A B} (g : SqOp B) (m m0 : B → SqOp A) :
  read_only g → (∀ b, atomic_pair (m b) (m0 b)) → atomic_pair (g ≫= m) (g ≫= m0).
Proof.
  intros Hg Hm c h. specialize (Hg c h). unfold result_of, state_after in *. unfold mbind, M_bind.
  destruct (g c h) as [[[b|e|p] c1] h1]; simpl in *; subst h1; [apply (Hm b c1 h)|by auto..].
Qed.

Lemma atomic_boundary {A} fp name id (m m0 : SqOp A) :
  atomic_pair m m0 → atomic_pair (boundary fp name id;; m) (boundary no_failpoints name id;; m0).
Proof.
  intros Hm c h. destruct (Hm c h) as [Hp Hr]. unfold boundary, no_failpoints, lift, mbind, M_bind, result_of, state_after in *.
  simpl. destruct (fp name id) as [[]| |]; simpl; auto.
Qed.

Lemma atomic_forget {A} (m m0 : SqOp A) : atomic_pair m m0 → atomic_pair (m;; mret tt) (m0;; mret tt).
Proof.
  intros Hm c h. destruct (Hm c h) as [Hp Hr]. unfold mbind, M_bind, mret, M_ret, result_of, state_after in *.
  destruct Hp as [-> | [Hk Hd]]; simpl.
  - split; [by left|]. destruct (m0 c h) as [[[a|e|p] c1] h1]; simpl in *; [done|by auto..].
  - split.
    + right. destruct (m c h) as [[[a|e|p] c1] h1], (m0 c h) as [[[a0|e0|p0] c2] h2]; simpl in *; auto.
    + destruct (m0 c h) as [[[a|e|p] c1] h1]; simpl in *; [done|by auto..].
Qed.

Lemma publication_pair fp op : atomic_pair (run_publication fp op) (run_publication no_failpoints op).
Proof.
  destruct op as [drawn err id runner retries incoming|s|id runner change purge]; apply atomic_forget.
  - apply atomic_blocking, atomic_connection; [apply begin_follows|apply begin_rolls_back].
  - unfold sqlite_submit. apply atomic_blocking. apply atomic_guard; [apply respects_lift, _|intros _].
    apply atomic_guard; [unfold read_only; solve_respects|intros _].
    apply atomic_boundary, atomic_connection; [apply submit_follows|apply submit_rolls_back].
  - unfold sqlite_change. apply atomic_blocking, atomic_boundary, atomic_connection;
      [apply change_follows|apply change_rolls_back].
Qed.

(** C8: a publication happens completely or not at all.  Whatever failpoint stops
    a submission, a change of status, a retry, a recovery, a completion or the
    beginning of an attempt, the database is afterwards either exactly what it was
    or exactly what the uninterrupted operation leaves; if it was not stopped, it
    ran as without failpoints; and an operation that fails without a failpoint
    leaves the database as it was. *)
Theorem publication_is_atomic fp op c h :
  let m := run_publication fp op in
  let m0 := run_publication no_failpoints op in
  (m c h = m0 c h ∨
   is_ok (result_of m c h) = false ∧
   (h_db (state_after m c h) = h_db h ∨ h_db (state_after m c h) = h_db (state_after m0 c h))) ∧
  (is_ok (result_of m0 c h) = false → h_db (state_after m0 c h) = h_db h).
Proof. exact (publication_pair fp op c h). Qed.
End atomic.
