(* ===== verification/SqlitePublished.v ===== *)
(** * What publications do

    The behaviour of the operations of [SqlitePublication]: a submission is
    accepted once and never under an id that was used for something else; a change
    is the status machine's, with its payload, queue entry and retry counter.  What
    every sequence of operations keeps of the queue is proved in [SqliteDelivery]. *)
From S2P Require Import Prelude F64 Effects Json Identifiers Status Errors Config Call Invocation Trigger OrchestratorState MemOrchestrator MemOrchestratorFacts MemBroker MemStateBackend Ports TriggerManager Execution SqliteDb SqliteBroker SqliteOrchestrator SqliteState SqlitePublication.

(** ** Submission *)

(** One statement of a transaction. *)
Lemma execute_bind {A} f (k : unit → Tx A) c t :
  (execute f ≫= k) c t = k tt c (mkTx (tx_committed t) (f (tx_working t))).
Proof. done. Qed.

Lemma query_bind {A B} (f : Database → A) (k : A → Tx B) c t : (query f ≫= k) c t = k (f (tx_working t)) c t.
Proof. done. Qed.

Lemma point_bind {A} name id (k : unit → Tx A) c t : (boundary no_failpoints name id ≫= k) c t = k tt c t.
Proof. done. Qed.

Lemma ret_bind {A B} (a : A) (k : A → Tx B) c t : ((mret a : Tx A) ≫= k) c t = k a c t.
Proof. done. Qed.

Lemma now_bind {A} (k : DateTime → Tx A) c t : (utc_now ≫= k) c t = k (clock_next c).1 (clock_next c).2 t.
Proof. done. Qed.

Lemma lift_bind {A B} (o : RustvelloResult A) a (k : A → Tx B) c t : o = Ok a → (lift o ≫= k) c t = k a c t.
Proof. by intros ->. Qed.

Lemma checked_bind `{SqlText} {A} f d' (k : unit → Tx A) c t :
  f (tx_working t) = inr d' → (execute_checked f ≫= k) c t = k tt c (mkTx (tx_committed t) d').
Proof. intros Hf. unfold execute_checked, query, gets, mbind, M_bind. by rewrite Hf. Qed.

Lemma insert_new_free `{Countable K} {A} (k : K) (x : A) m : m !! k = None → insert_new k x m = inr (<[k := x]> m).
Proof. intros Hm. unfold insert_new. by rewrite Hm. Qed.

Lemma insert_or_ignore_free `{Countable K} {A} (k : K) (x : A) m :
  m !! k = None → insert_or_ignore k x m = <[k := x]> m.
Proof. intros Hm. unfold insert_or_ignore. by rewrite Hm. Qed.

Lemma insert_or_ignore_is_Some `{Countable K} {A} (k : K) (x : A) m : is_Some (insert_or_ignore k x m !! k).
Proof.
  unfold insert_or_ignore. destruct (m !! k) as [y|] eqn:Hm; [by rewrite Hm|].
  rewrite lookup_insert_eq. eauto.
Qed.

Section submission.
Context `{Chrono} `{SqlText} `{JoinText} `{ArgumentsCodec} `{SubmissionCodec} `{ExecutionCodec}.

(** The row of an accepted invocation. *)
Definition accepted_row (i : InvocationDTO) (now : DateTime) : InvocationRow :=
  invocation_row (mkInvocation (inv_id i) (inv_task_id i) (inv_call_id i) Registered now now (inv_parent i)
    (inv_workflow i) (inv_trace_context i)).

Definition submitted_pairs (s : SubmissionPublication) : list (string * string) :=
  match sp_cc_arguments s with Some args => cc_arg_pairs args | None => [] end.

(** Nothing is known under the id, and the rows to insert have no conflict. *)
Record submission_free (s : SubmissionPublication) (d : Database) : Prop := {
  sf_submission : t_submissions (db_state d) !! inv_id (sp_invocation s) = None;
  sf_occupied : occupied (inv_id (sp_invocation s)) d = false;
  sf_status : sq_status d !! inv_id (sp_invocation s) = None;
  sf_workflow w : sp_workflow_root s = true → inv_workflow (sp_invocation s) = Some w →
    t_workflow_runs (db_workflow d) !! workflow_id w = None;
  sf_cc k v : (k, v) ∈ submitted_pairs s →
    t_cc_arg_pairs (db_control d) !! (inv_id (sp_invocation s), k, v) = None;
  sf_thread ctx : sp_runner_context s = Some ctx → rc_thread_id ctx ≤ i64_max
}.

(** What an accepted submission writes. *)
Definition submitted (s : SubmissionPublication) (now : DateTime) (d d' : Database) : Prop :=
  let i := sp_invocation s in
  let id := inv_id i in
  let task := task_id_display (inv_task_id i) in
  let rec := mkRecord Registered (Some (sp_runner_id s)) now in
  sq_status d' = <[id := rec]> (sq_status d) ∧
  sq_invocations d' = <[id := accepted_row i now]> (sq_invocations d) ∧
  t_submissions (db_state d') = <[id := submission_identity s]> (t_submissions (db_state d)) ∧
  is_Some (t_calls (db_state d') !! call_id_display (cd_call_id (sp_call s))) ∧
  t_history (db_state d') = t_history (db_state d) ++
    [mkHistoryRow id Registered (Some (sp_runner_id s)) now None (Some now)] ∧
  t_results (db_state d') = t_results (db_state d) ∧ t_errors (db_state d') = t_errors (db_state d) ∧
  sq_queue d' = bfilter (λ r, negb (bool_decide (bq_invocation_id r = id))) (sq_queue d) ++
    [mkQueueRow (t_broker_sequence (db_queue d) + 1) id (Some task) (route_queue (sp_route s))
       (route_priority (sp_route s))] ∧
  (∀ k v, t_cc_arg_pairs (db_control d') !! (id, k, v) =
     if bool_decide ((k, v) ∈ submitted_pairs s) then Some task else t_cc_arg_pairs (db_control d) !! (id, k, v)) ∧
  (queue_wf (db_queue d) → queue_wf (db_queue d')).

Lemma submitted_pairs_NoDup s : NoDup (submitted_pairs s).
Proof.
  unfold submitted_pairs. destruct (sp_cc_arguments s) as [args|]; [|constructor]. unfold cc_arg_pairs.
  destruct (arguments_empty args); [apply NoDup_singleton|apply NoDup_btree_iter].
Qed.

Lemma insert_each_pair {A} id task pairs (k : unit → Tx A) c t :
  NoDup pairs → (∀ p, p ∈ pairs → t_cc_arg_pairs (db_control (tx_working t)) !! (id, p.1, p.2) = None) →
  (for_each (λ p, execute_checked (λ d, with_row (λ m, upd_cc_arg_pairs (λ _, m))
      (insert_new (id, p.1, p.2) task (t_cc_arg_pairs (db_control d))) d)) pairs ≫= k) c t =
    k tt c (mkTx (tx_committed t) (insert_pairs id task pairs (tx_working t))).
Proof.
  intros Hnd. revert t. induction Hnd as [|p pairs Hp Hnd IH]; intros t Hfree; cbn [for_each].
  - by destruct t as [c0 [q st ct w cd]], ct.
  - rewrite <-bind_assoc_run.
    erewrite checked_bind by (unfold with_row; rewrite insert_new_free by (apply Hfree; set_solver); reflexivity).
    rewrite IH; [done|]. intros p' Hp'. simpl. rewrite lookup_insert_ne; [apply Hfree; set_solver|].
    intros Heq. destruct p as [a b], p' as [a' b']. simplify_eq/=. done.
Qed.

(** The database except for its workflow tables and runner contexts. *)
Definition same_outside_workflows (d d' : Database) : Prop :=
  db_queue d' = db_queue d ∧ db_state d' = db_state d ∧ db_control d' = db_control d.

Lemma workflow_step s c t :
  (∀ w, sp_workflow_root s = true → inv_workflow (sp_invocation s) = Some w →
     t_workflow_runs (db_workflow (tx_working t)) !! workflow_id w = None) →
  ∃ w', match (if sp_workflow_root s then inv_workflow (sp_invocation s) else None) with
        | Some w => execute_checked (λ d, with_row (λ m, upd_workflow_runs (λ _, m))
                      (insert_new (workflow_id w) (run_row w) (t_workflow_runs (db_workflow d))) d)
        | None => mret tt
        end c t = (Ok tt, c, mkTx (tx_committed t) w') ∧ same_outside_workflows (tx_working t) w'.
Proof.
  intros Hw. destruct (if sp_workflow_root s then _ else None) as [w|] eqn:Hr.
  - destruct (sp_workflow_root s) eqn:Hroot; [|done]. eexists. split.
    + unfold execute_checked, query, gets, mbind, M_bind, with_row. rewrite insert_new_free by (by apply Hw). reflexivity.
    + done.
  - exists (tx_working t). split; [by destruct t|done].
Qed.

Lemma context_step s c t :
  (∀ ctx, sp_runner_context s = Some ctx → rc_thread_id ctx ≤ i64_max) →
  ∃ w', match sp_runner_context s with Some ctx => ignore_runner_context ctx | None => mret tt end c t =
      (Ok tt, c, mkTx (tx_committed t) w') ∧ same_outside_workflows (tx_working t) w'.
Proof.
  intros Hth. destruct (sp_runner_context s) as [ctx|].
  - eexists. split; [|].
    + unfold ignore_runner_context. rewrite (proj2 (Z.ltb_ge _ _)) by (by apply Hth). reflexivity.
    + done.
  - exists (tx_working t). split; [by destruct t|done].
Qed.

Lemma pairs_step {A} s (k : unit → Tx A) c t :
  (∀ a b, (a, b) ∈ submitted_pairs s →
     t_cc_arg_pairs (db_control (tx_working t)) !! (inv_id (sp_invocation s), a, b) = None) →
  (match sp_cc_arguments s with
   | Some args => for_each (λ p, execute_checked (λ d, with_row (λ m, upd_cc_arg_pairs (λ _, m))
         (insert_new (inv_id (sp_invocation s), p.1, p.2) (task_id_display (inv_task_id (sp_invocation s)))
            (t_cc_arg_pairs (db_control d))) d)) (cc_arg_pairs args)
   | None => mret tt
   end ≫= k) c t =
    k tt c (mkTx (tx_committed t) (insert_pairs (inv_id (sp_invocation s))
      (task_id_display (inv_task_id (sp_invocation s))) (submitted_pairs s) (tx_working t))).
Proof.
  intros Hfree. pose proof (submitted_pairs_NoDup s) as Hnd. unfold submitted_pairs in *.
  destruct (sp_cc_arguments s) as [args|].
  - apply insert_each_pair; [done|]. intros [a b] Hp. by apply Hfree.
  - by destruct t as [c0 [q st ct w cd]], ct.
Qed.

Lemma submit_runs s c d :
  validate_route (sp_route s) = Ok tt → submission_free s d →
  ∃ d', submit_tx no_failpoints s c (mkTx d d) = (Ok true, (clock_next c).2, mkTx d' d') ∧
    submitted s (clock_next c).1 d d'.
Proof.
  intros Hroute [Hsub Hocc Hst Hwf Hcc Hth]. unfold submit_tx. rewrite query_bind. cbn [tx_working].
  rewrite Hsub. rewrite query_bind. cbn [tx_working]. rewrite Hocc. rewrite ret_bind, now_bind.
  unfold insert_invocation_row.
  assert (sq_invocations d !! inv_id (sp_invocation s) = None) as Hinv.
  { unfold occupied in Hocc. rewrite !orb_false_iff in Hocc. destruct Hocc as [[[[[Hi _] _] _] _] _].
    apply bool_decide_eq_false in Hi. by apply eq_None_not_Some. }
  erewrite checked_bind by (unfold with_row; rewrite insert_new_free by exact Hinv; reflexivity).
  erewrite checked_bind by (unfold with_row; rewrite insert_new_free by exact Hst; reflexivity).
  rewrite point_bind, !execute_bind, point_bind. cbn [tx_committed tx_working].
  set (id := inv_id (sp_invocation s)) in *. set (now := (clock_next c).1).
  match goal with |- context[mkTx d ?w] => set (w1 := w) end.
  destruct (workflow_step s (clock_next c).2 (mkTx d w1) Hwf) as (w2 & Hs2 & Hf2).
  rewrite (bind_run _ _ _ _ _ _ _ Hs2). clear Hs2.
  rewrite point_bind. cbn [tx_committed tx_working] in *.
  destruct (context_step s (clock_next c).2 (mkTx d w2) Hth) as (w3 & Hs3 & Hf3).
  rewrite (bind_run _ _ _ _ _ _ _ Hs3). clear Hs3.
  unfold history_entry. rewrite execute_bind, point_bind. cbn [tx_committed tx_working] in *.
  destruct Hf2 as (Hq2 & Ht2 & Hc2), Hf3 as (Hq3 & Ht3 & Hc3). rewrite Hq2 in Hq3. rewrite Ht2 in Ht3. rewrite Hc2 in Hc3.
  rewrite pairs_step by (intros a b Hab; cbn; rewrite Hc3; by apply Hcc). cbn [tx_committed tx_working].
  unfold publish. rewrite <-!bind_assoc_run. erewrite lift_bind by exact Hroute.
  rewrite <-!bind_assoc_run. rewrite !execute_bind, point_bind. cbn [tx_committed tx_working].
  erewrite checked_bind by (unfold with_row; rewrite insert_new_free by
    (change (t_submissions (db_state w3) !! id = None); rewrite Ht3; exact Hsub); reflexivity).
  rewrite point_bind. eexists. split; [reflexivity|].
  unfold submitted. fold id. cbn. unfold sq_status, sq_invocations, sq_queue in *. cbn.
  rewrite Hq3, Ht3, Hc3. cbn. split_and!; try done.
  - fold id. rewrite alter_insert_eq. done.
  - apply insert_or_ignore_is_Some.
  - intros a b. pose proof (insert_pairs_lookup id (task_id_display (inv_task_id (sp_invocation s)))
      (submitted_pairs s) w1 id a b) as Hl. cbn in Hl. rewrite Hl.
    by repeat case_bool_decide; naive_solver.
  - intros Hqwf. apply queue_wf_enqueue, queue_wf_delete, Hqwf.
Qed.

(** *** Nothing else is accepted *)

Lemma checked_inv {A} f (k : unit → Tx A) c t a c' t' :
  (execute_checked f ≫= k) c t = (Ok a, c', t') →
  ∃ d', f (tx_working t) = inr d' ∧ k tt c (mkTx (tx_committed t) d') = (Ok a, c', t').
Proof.
  unfold execute_checked, query, gets, execute, modify, throw, lift, mbind, M_bind. cbn.
  destruct (f (tx_working t)) as [e|d']; [done|]. eauto.
Qed.

Lemma insert_new_inv `{Countable K} {A} (set : gmap K A → Database → Database) k (x : A) m d d' :
  with_row set (insert_new k x m) d = inr d' → m !! k = None ∧ d' = set (<[k := x]> m) d.
Proof. unfold with_row, insert_new. destruct (m !! k); [done|]. by intros [= <-]. Qed.

Lemma bind_inv {A B} (m : Tx A) (k : A → Tx B) c t b c' t' :
  (m ≫= k) c t = (Ok b, c', t') → ∃ a c1 t1, m c t = (Ok a, c1, t1) ∧ k a c1 t1 = (Ok b, c', t').
Proof. unfold mbind, M_bind. destruct (m c t) as [[[a|e|p] c1] t1]; [eauto|done|done]. Qed.

Lemma each_pair_inv id task pairs c t c' t' :
  for_each (λ p, execute_checked (λ d, with_row (λ m, upd_cc_arg_pairs (λ _, m))
      (insert_new (id, p.1, p.2) task (t_cc_arg_pairs (db_control d))) d)) pairs c t = (Ok tt, c', t') →
  ∀ p, p ∈ pairs → t_cc_arg_pairs (db_control (tx_working t)) !! (id, p.1, p.2) = None.
Proof.
  revert c t. induction pairs as [|p pairs IH]; intros c t Hrun q Hq; [by apply elem_of_nil in Hq|].
  cbn [for_each] in Hrun. apply checked_inv in Hrun as (d1 & Hins & Hrun).
  apply insert_new_inv in Hins as [Hfree ->]. apply elem_of_cons in Hq as [->|Hq]; [done|].
  specialize (IH _ _ Hrun q Hq). simpl in IH. by apply lookup_insert_None in IH as [? _].
Qed.

(** A submission that is accepted had nothing in its way. *)
Lemma submit_accepts_free s c d c' t' :
  submit_tx no_failpoints s c (mkTx d d) = (Ok true, c', t') → submission_free s d.
Proof.
  unfold submit_tx. rewrite query_bind. cbn [tx_working].
  destruct (t_submissions (db_state d) !! inv_id (sp_invocation s)) as [x|] eqn:Hsub.
  { by repeat case_match. }
  rewrite query_bind. cbn [tx_working].
  destruct (occupied (inv_id (sp_invocation s)) d) eqn:Hocc; [done|].
  rewrite ret_bind, now_bind. unfold insert_invocation_row. intros Hrun.
  apply checked_inv in Hrun as (d1 & Hins & Hrun). cbn [tx_working] in Hins.
  apply insert_new_inv in Hins as [Hinv ->].
  apply checked_inv in Hrun as (d2 & Hins & Hrun). cbn [tx_working tx_committed] in Hins, Hrun.
  apply insert_new_inv in Hins as [Hst ->]. rewrite point_bind, !execute_bind, point_bind in Hrun.
  cbn [tx_working tx_committed] in Hrun.
  match type of Hrun with context[mkTx d ?w] => set (w1 := w) in Hrun end.
  apply bind_inv in Hrun as (u1 & c1 & t1 & Hw & Hrun). rewrite point_bind in Hrun.
  apply bind_inv in Hrun as (u2 & c2 & t2 & Hctx & Hrun).
  unfold history_entry in Hrun. rewrite execute_bind, point_bind in Hrun.
  assert (same_outside_workflows w1 (tx_working t1) ∧
    ∀ w, sp_workflow_root s = true → inv_workflow (sp_invocation s) = Some w →
      t_workflow_runs (db_workflow d) !! workflow_id w = None) as [Hf1 Hroot].
  { destruct (sp_workflow_root s), (inv_workflow (sp_invocation s)) as [w|]; simpl in Hw;
      try (injection Hw as <- <- <-; done).
    unfold execute_checked, query, gets, execute, modify, throw, lift, mbind, M_bind in Hw. cbn in Hw.
    destruct (with_row _ _ _) as [e|d3] eqn:Hins in Hw; [done|]. injection Hw as _ _ <-.
    apply insert_new_inv in Hins as [Hfree ->]. split; [done|]. by intros w' _ [= <-]. }
  assert (same_outside_workflows (tx_working t1) (tx_working t2) ∧
    ∀ ctx, sp_runner_context s = Some ctx → rc_thread_id ctx ≤ i64_max) as [Hf2 Hth].
  { destruct (sp_runner_context s) as [ctx|]; [|injection Hctx as <- <- <-; done].
    unfold ignore_runner_context in Hctx. destruct (i64_max <? rc_thread_id ctx) eqn:Hlt; [done|].
    injection Hctx as _ _ <-. split; [done|]. intros ctx' [= <-]. by apply Z.ltb_ge. }
  apply bind_inv in Hrun as (u3 & c3 & t3 & Hpairs & _).
  destruct Hf1 as (_ & _ & Hc1), Hf2 as (_ & _ & Hc2). rewrite Hc1 in Hc2.
  split; try done. intros k v Hkv. unfold submitted_pairs in Hkv.
  destruct (sp_cc_arguments s) as [args|]; [|by apply elem_of_nil in Hkv].
  destruct u3. pose proof (each_pair_inv _ _ _ _ _ _ _ Hpairs (k, v) Hkv) as Hp. cbn in Hp. by rewrite Hc2 in Hp.
Qed.

Lemma submit_handle s c d :
  validate_route (sp_route s) = Ok tt → inv_task_id (sp_invocation s) = cd_task_id (sp_call s) →
  inv_call_id (sp_invocation s) = cd_call_id (sp_call s) →
  sqlite_submit no_failpoints s c (handle_new d) =
    blocking (with_connection (in_transaction (submit_tx no_failpoints s))) c (handle_new d).
Proof.
  intros Hr Ht Hc. unfold sqlite_submit. rewrite (bool_decide_false (_ ≠ cd_task_id _)) by naive_solver.
  rewrite (bool_decide_false (_ ≠ cd_call_id _)) by naive_solver.
  unfold blocking, lift, boundary, no_failpoints, mbind, M_bind, mret, M_ret, lift. by rewrite Hr.
Qed.

(** The answer to a submission under an id that has been submitted as [x]. *)
Definition repeated (s : SubmissionPublication) (x : string) : RustvelloResult bool :=
  if decide (x = "") then Err (configuration "submission ID was removed; use a fresh ID")
  else if decide (x = submission_identity s) then Ok false
  else Err (configuration "submission ID already accepted with different content or lineage").

Lemma submit_again s x c d :
  validate_route (sp_route s) = Ok tt → inv_task_id (sp_invocation s) = cd_task_id (sp_call s) →
  inv_call_id (sp_invocation s) = cd_call_id (sp_call s) →
  t_submissions (db_state d) !! inv_id (sp_invocation s) = Some x →
  sqlite_submit no_failpoints s c (handle_new d) = (repeated s x, c, handle_new d).
Proof.
  intros Hr Ht Hc Hx. rewrite submit_handle by done.
  unfold blocking, with_connection, in_transaction, submit_tx, handle_new. cbn [h_poisoned h_db].
  rewrite query_bind. cbn [tx_working]. rewrite Hx. unfold repeated.
  destruct (decide (x = "")) as [He|He]; [|destruct (decide (x = submission_identity s)) as [Hi|Hi]].
  - by rewrite (bool_decide_true (x = "")).
  - rewrite (bool_decide_false (x = "")) by done. by rewrite (bool_decide_true (x = _)).
  - rewrite (bool_decide_false (x = "")) by done. by rewrite (bool_decide_false (x = _)).
Qed.

Lemma submit_fresh s c d :
  validate_route (sp_route s) = Ok tt → inv_task_id (sp_invocation s) = cd_task_id (sp_call s) →
  inv_call_id (sp_invocation s) = cd_call_id (sp_call s) → submission_free s d →
  ∃ d', sqlite_submit no_failpoints s c (handle_new d) = (Ok true, (clock_next c).2, handle_new d') ∧
    submitted s (clock_next c).1 d d'.
Proof.
  intros Hr Ht Hc Hf. destruct (submit_runs s c d Hr Hf) as (d' & Hrun & Hd). exists d'. split; [|done].
  rewrite submit_handle by done. unfold blocking, with_connection, handle_new. cbn [h_poisoned h_db].
  unfold in_transaction. by rewrite Hrun.
Qed.

(** Only a repeated submission is answered with [false]. *)
Lemma submit_false s c d c' t :
  submit_tx no_failpoints s c (mkTx d d) = (Ok false, c', t) →
  is_Some (t_submissions (db_state d) !! inv_id (sp_invocation s)) ∧ tx_committed t = d.
Proof.
  unfold submit_tx. rewrite query_bind. cbn [tx_working]. intros Hrun.
  destruct (t_submissions (db_state d) !! _) as [x|].
  - destruct (bool_decide (x = "")); [done|]. destruct (negb _); [done|]. injection Hrun as _ <-. eauto.
  - exfalso. repeat (apply bind_inv in Hrun as (? & ? & ? & _ & Hrun)). done.
Qed.

(** A submission that is answered with [true] was free; one that fails changes nothing. *)
Lemma submit_inv s c d r c' h :
  validate_route (sp_route s) = Ok tt → inv_task_id (sp_invocation s) = cd_task_id (sp_call s) →
  inv_call_id (sp_invocation s) = cd_call_id (sp_call s) →
  sqlite_submit no_failpoints s c (handle_new d) = (r, c', h) →
  match r with
  | Ok true => submission_free s d
  | Ok false => is_Some (t_submissions (db_state d) !! inv_id (sp_invocation s)) ∧ h = handle_new d
  | _ => h_db h = d
  end.
Proof.
  intros Hr Ht Hc. rewrite submit_handle by done. pose proof (submit_accepts_free s c d) as Hfree.
  pose proof (submit_rolls_back s c (mkTx d d)) as Hback.
  unfold blocking, with_connection, handle_new, in_transaction, result_of, state_after in *. cbn [h_poisoned h_db].
  destruct (submit_tx no_failpoints s c (mkTx d d)) as [[[[]|e|p] c1] t] eqn:Hrun; intros [= <- <- <-].
  - by eapply Hfree.
  - apply submit_false in Hrun as [Hx Ht']. by rewrite Ht'.
  - by apply Hback.
  - by apply Hback.
Qed.

(** a submission to SQLite.  Under an id that was submitted before it is
    accepted again only with the same content, and changes nothing; an id that
    was removed or that belongs to an invocation of another origin is refused
    without a change; and otherwise it is accepted exactly when no row is in its
    way: then one transaction writes the registered status, the invocation, its
    call, its history entry, its concurrency index and exactly one queue entry,
    behind all others, and if not the database stays as it was. *)
Theorem sqlite_submission_behaviour s c d :
  validate_route (sp_route s) = Ok tt → inv_task_id (sp_invocation s) = cd_task_id (sp_call s) →
  inv_call_id (sp_invocation s) = cd_call_id (sp_call s) →
  let m := sqlite_submit no_failpoints s in
  match t_submissions (db_state d) !! inv_id (sp_invocation s) with
  | Some x => m c (handle_new d) = (repeated s x, c, handle_new d)
  | None =>
      (occupied (inv_id (sp_invocation s)) d = true → m c (handle_new d) =
         (Err (configuration "submission ID belongs to a legacy invocation; use a fresh ID"), c, handle_new d)) ∧
      (submission_free s d → ∃ d', m c (handle_new d) = (Ok true, (clock_next c).2, handle_new d') ∧
         submitted s (clock_next c).1 d d') ∧
      (¬ submission_free s d → is_ok (result_of m c (handle_new d)) = false ∧
         h_db (state_after m c (handle_new d)) = d)
  end.
Proof.
  intros Hr Ht Hc m. destruct (t_submissions (db_state d) !! _) as [x|] eqn:Hx; [by apply submit_again|].
  split_and!; [| by apply submit_fresh|].
  - intros Hocc. unfold m. rewrite submit_handle by done.
    unfold blocking, with_connection, in_transaction, submit_tx, handle_new. cbn [h_poisoned h_db].
    rewrite query_bind. cbn [tx_working]. rewrite Hx. rewrite query_bind. cbn [tx_working]. by rewrite Hocc.
  - intros Hno. unfold result_of, state_after. destruct (m c (handle_new d)) as [[r c'] h] eqn:Hrun.
    pose proof (submit_inv s c d r c' h Hr Ht Hc Hrun) as Hi. destruct r as [[]|e|p]; simpl; try done.
    destruct Hi as [[y Hy] _]. congruence.
Qed.

Lemma remove_run id c d :
  ∃ d', sqlite_remove_invocation id c (handle_new d) = (Ok tt, c, handle_new d') ∧
    (is_Some (sq_invocations d !! id) → t_submissions (db_state d') !! id = Some "") ∧
    sq_status d' !! id = None ∧ sq_invocations d' !! id = None ∧
    (∀ e, e ∈ sq_queue d' → bq_invocation_id e ≠ id).
Proof.
  eexists. split; [reflexivity|]. unfold bury, sq_status, sq_invocations, sq_queue.
  split_and!.
  - intros [r Hr]. cbn. rewrite Hr. cbn. apply lookup_insert_eq.
  - destruct (t_invocations (db_state d) !! id); cbn; by rewrite lookup_delete_eq.
  - destruct (t_invocations (db_state d) !! id) eqn:Hi; cbn; by rewrite lookup_delete_eq.
  - intros e He. destruct (t_invocations (db_state d) !! id); cbn in He;
      apply elem_of_bfilter in He as [He _]; by apply negb_true_iff, bool_decide_eq_false in He.
Qed.

(** C13: an id is submitted once.  After an accepted submission, a second one under
    the same id is answered [false] without an effect when it says the same and
    refused when it says anything else; and after the invocation was removed,
    every submission under its id is refused for good.  In no case does the second
    submission create an invocation, a status or a queue entry. *)
Theorem submission_is_accepted_once s s' c c' d :
  let id := inv_id (sp_invocation s) in
  validate_route (sp_route s) = Ok tt → inv_task_id (sp_invocation s) = cd_task_id (sp_call s) →
  inv_call_id (sp_invocation s) = cd_call_id (sp_call s) → submission_free s d →
  validate_route (sp_route s') = Ok tt → inv_task_id (sp_invocation s') = cd_task_id (sp_call s') →
  inv_call_id (sp_invocation s') = cd_call_id (sp_call s') → inv_id (sp_invocation s') = id →
  ∃ d1 d2, sqlite_submit no_failpoints s c (handle_new d) = (Ok true, (clock_next c).2, handle_new d1) ∧
    sqlite_submit no_failpoints s' c' (handle_new d1) =
      (repeated s' (submission_identity s), c', handle_new d1) ∧
    (repeated s' (submission_identity s) = Ok false ↔ submission_content s' = submission_content s) ∧
    sqlite_remove_invocation id c' (handle_new d1) = (Ok tt, c', handle_new d2) ∧
    sqlite_submit no_failpoints s' c' (handle_new d2) =
      (Err (configuration "submission ID was removed; use a fresh ID"), c', handle_new d2).
Proof.
  intros id Hr Ht Hc Hf Hr' Ht' Hc' Hid.
  destruct (submit_fresh s c d Hr Ht Hc Hf) as (d1 & Hs & (Hst & Hinv & Hsub & _)).
  destruct (remove_run id c' d1) as (d2 & Hrm & Hgrave & _).
  assert (∀ p, validate_route p = Ok tt → f64_is_finite (route_priority p) = true) as Hfin.
  { intros p. unfold validate_route. destruct (f64_is_finite _); [done|]. by rewrite orb_true_r. }
  exists d1, d2. split_and!; [done| | |done|].
  - apply submit_again; [done..|]. by rewrite Hsub, Hid, lookup_insert_eq.
  - unfold repeated. rewrite decide_False by apply submission_identity_object.
    rewrite <-(submission_identity_faithful s' s) by auto. case_decide; split; intros; try done; congruence.
  - rewrite (submit_again s' "") by (done || by rewrite Hid; apply Hgrave; rewrite Hinv, lookup_insert_eq).
    unfold repeated. by rewrite decide_True.
Qed.
End submission.

(** ** Changes *)

(** The effects of the parts of a change on the database. *)
Definition transitioned (id : InvocationId) (runner : RunnerId) (rec : InvocationStatusRecord) (w : Database) :
    Database :=
  let w1 := upd_history (λ l, l ++ [mkHistoryRow id (rec_status rec) (Some runner) (rec_timestamp rec) None
                                      (Some (rec_timestamp rec))]) (write_status id rec w) in
  if bool_decide (rec_status rec = Pending) || is_terminal (rec_status rec) then delete_deliveries id w1 else w1.

Definition paid (id : InvocationId) (change : PublicationChange) : Database → Database :=
  match change with
  | ChangeRetry _ | ChangeDelayedRetry _ _ => bump_retries id
  | ChangeSuccess result => upd_results <[id := result]>
  | ChangeFailure error => upd_errors <[id := error]>
  | _ => λ w, w
  end.

Definition hidden_until (id : InvocationId) (at_ : Z) : Database → Database :=
  on_queue (λ t, foldr (λ r t, lease (bq_id r) at_ t) t
    (bfilter (λ r, bool_decide (bq_invocation_id r = id)) (t_broker_queue t))).

(** When a delayed retry is due, in milliseconds. *)
Definition due_ms (now : DateTime) (change : PublicationChange) : Z :=
  match change with
  | ChangeDelayedRetry _ delay => Z.min (now / 1000000 + Z.min (delay / 1000000) i64_max) i64_max
  | _ => 0
  end.

Definition requeued (id : InvocationId) (change : PublicationChange) (task : string) (at_ : Z) (w : Database) :
    Database :=
  match change_route change with
  | Some route =>
      let w1 := on_queue (enqueue id (Some task) (route_queue route) (route_priority route))
                  (delete_deliveries id w) in
      delete_cc_pairs id (match change with ChangeDelayedRetry _ _ => hidden_until id at_ w1 | _ => w1 end)
  | None => w
  end.

Definition released (id : InvocationId) (change : PublicationChange) (auto_purge : bool)
    (rec : InvocationStatusRecord) (w : Database) : Database :=
  if is_terminal (change_status change) then
    let w1 := delete_cc_pairs id (upd_waiting_for (filter (λ x, x.2 ≠ id)) w) in
    if auto_purge then upd_auto_purge_schedule <[id := rec_timestamp rec]> w1 else w1
  else w.

Lemma transition_run id runner old st c t :
  transition id runner old st c t =
    match status_record_transition (clock_next c).1 (Some old) st (Some runner) with
    | Ok rec => (Ok rec, (clock_next c).2, mkTx (tx_committed t) (transitioned id runner rec (tx_working t)))
    | Err e => (Err (status_machine_error_to_rustvello e id (rec_status old)), c, t)
    | Panic p => (Panic p, c, t)
    end.
Proof.
  unfold transition, transitioned. unfold mbind at 1, M_bind, lift_now.
  destruct (status_record_transition _ _ _ _) as [rec|e|p] eqn:Ht; [|done..]. cbn [map_err].
  apply transition_Ok in Ht as [_ Hr]. assert (st = rec_status rec) as Hst by (by rewrite Hr).
  clear Hr. subst st.
  unfold history_entry. rewrite !execute_bind. cbn [tx_committed tx_working].
  by destruct (bool_decide (rec_status rec = Pending) || is_terminal (rec_status rec)).
Qed.

(** *** Queue entries of one invocation and of the others *)

Definition entries_of (id : InvocationId) (d : Database) : list QueueRow :=
  bfilter (λ r, bool_decide (bq_invocation_id r = id)) (sq_queue d).
Definition entries_beside (id : InvocationId) (d : Database) : list QueueRow :=
  bfilter (λ r, negb (bool_decide (bq_invocation_id r = id))) (sq_queue d).

(** [d'] has the same entries beside those of [id], under the same leases. *)
Definition queue_beside (id : InvocationId) (d d' : Database) : Prop :=
  entries_beside id d' = entries_beside id d ∧
  ∀ e, e ∈ entries_beside id d → sq_leases d' !! bq_id e = sq_leases d !! bq_id e.

#[export] Instance queue_beside_preorder id : PreOrder (queue_beside id).
Proof.
  split; [done|]. intros x y z [Hxy Hl] [Hyz Hl']. split; [congruence|].
  intros e He. rewrite Hl' by (by rewrite Hxy). by apply Hl.
Qed.

Lemma elem_of_beside id d e : e ∈ entries_beside id d ↔ bq_invocation_id e ≠ id ∧ e ∈ sq_queue d.
Proof. unfold entries_beside. by rewrite elem_of_bfilter, negb_true_iff, bool_decide_eq_false. Qed.

Lemma elem_of_entries_of id d e : e ∈ entries_of id d ↔ bq_invocation_id e = id ∧ e ∈ sq_queue d.
Proof. unfold entries_of. by rewrite elem_of_bfilter, bool_decide_eq_true. Qed.

Lemma bfilter_idem {A} (p q : A → bool) l : (∀ x, q x = true → p x = true) → bfilter p (bfilter q l) = bfilter q l.
Proof.
  intros Hpq. induction l as [|x l IH]; [done|]. unfold bfilter in *. simpl.
  destruct (q x) eqn:Hq; simpl; [|done]. by rewrite (Hpq x Hq), IH.
Qed.

Lemma bfilter_none {A} (p q : A → bool) l : (∀ x, q x = true → p x = false) → bfilter p (bfilter q l) = [].
Proof.
  intros Hpq. induction l as [|x l IH]; [done|]. unfold bfilter in *. simpl.
  destruct (q x) eqn:Hq; simpl; [|done]. by rewrite (Hpq x Hq), IH.
Qed.

Lemma delete_deliveries_queue id d :
  queue_wf (db_queue d) →
  queue_beside id d (delete_deliveries id d) ∧ entries_of id (delete_deliveries id d) = [] ∧
  sq_queue (delete_deliveries id d) = entries_beside id d ∧ queue_wf (db_queue (delete_deliveries id d)).
Proof.
  intros Hwf. destruct (delete_deliveries_spec id d Hwf) as (Hin & Hl & Hwf').
  assert (sq_queue (delete_deliveries id d) = entries_beside id d) as Hq by done.
  split_and!; [split|..]; [| | |done|done].
  - unfold entries_beside at 1. rewrite Hq. by apply bfilter_idem.
  - intros e He. apply Hl. by rewrite Hq.
  - unfold entries_of. rewrite Hq. apply bfilter_none. intros x Hx. by apply negb_true_iff in Hx.
Qed.

Lemma enqueue_queue id task q p d :
  queue_wf (db_queue d) →
  let d' := on_queue (enqueue id task q p) d in
  let e := mkQueueRow (t_broker_sequence (db_queue d) + 1) id task q p in
  queue_beside id d d' ∧ entries_of id d' = entries_of id d ++ [e] ∧ sq_leases d' !! bq_id e = None ∧
  queue_wf (db_queue d').
Proof.
  intros Hwf d' e. pose proof (queue_wf_enqueue id task q p _ Hwf) as Hwf'. split_and!; [split|..]; [| | | |done].
  - unfold entries_beside, d', sq_queue, bfilter. simpl. rewrite List.filter_app. simpl.
    by rewrite bool_decide_true, app_nil_r.
  - done.
  - unfold entries_of, d', sq_queue, bfilter. simpl. rewrite List.filter_app. simpl. by rewrite bool_decide_true.
  - destruct (sq_leases d' !! bq_id e) as [x|] eqn:Hx; [|done].
    destruct (qw_reserved _ Hwf (bq_id e)) as (r & Hr & Hid); [by exists x|].
    destruct (qw_bound _ Hwf r Hr) as [_ Hb]. simpl in Hid. lia.
Qed.

Lemma foldr_lease_queue at_ rows t :
  t_broker_queue (foldr (λ r t, lease (bq_id r) at_ t) t rows) = t_broker_queue t ∧
  t_broker_sequence (foldr (λ r t, lease (bq_id r) at_ t) t rows) = t_broker_sequence t ∧
  ∀ n, t_broker_reservations (foldr (λ r t, lease (bq_id r) at_ t) t rows) !! n =
    if bool_decide (n ∈ bq_id <$> rows) then Some at_ else t_broker_reservations t !! n.
Proof.
  induction rows as [|r rows (IHq & IHs & IHr)]; [done|]. simpl. split_and!; [done..|].
  intros n. destruct (decide (bq_id r = n)) as [<-|Hne].
  - rewrite lookup_insert_eq, bool_decide_true by set_solver. done.
  - rewrite lookup_insert_ne, IHr by done. repeat case_bool_decide; set_solver.
Qed.

Lemma hidden_until_queue id at_ d :
  queue_wf (db_queue d) →
  let d' := hidden_until id at_ d in
  queue_beside id d d' ∧ entries_of id d' = entries_of id d ∧
  (∀ e, e ∈ entries_of id d → sq_leases d' !! bq_id e = Some at_) ∧ queue_wf (db_queue d').
Proof.
  intros Hwf d'. destruct (foldr_lease_queue at_ (entries_of id d) (db_queue d)) as (Hq & Hs & Hr).
  assert (sq_queue d' = sq_queue d) as Hq' by exact Hq.
  split_and!; [split|..].
  - unfold entries_beside. by rewrite Hq'.
  - intros e [Hne He]%elem_of_beside. unfold sq_leases, d', hidden_until. simpl. fold (sq_queue d).
    fold (entries_of id d). rewrite Hr, bool_decide_false; [done|].
    intros (e' & Hid & [He1 He2]%elem_of_entries_of)%list_elem_of_fmap.
    assert (e = e') as <- by (by apply (queue_wf_unique (db_queue d))). done.
  - unfold entries_of. by rewrite Hq'.
  - intros e He. unfold sq_leases, d', hidden_until. simpl. fold (sq_queue d). fold (entries_of id d).
    rewrite Hr, bool_decide_true; [done|]. apply list_elem_of_fmap. eauto.
  - destruct Hwf as [Hsort Hb Hres Hn]. split.
    + unfold d', hidden_until. simpl. fold (sq_queue d). fold (entries_of id d). by rewrite Hq.
    + unfold d', hidden_until. simpl. fold (sq_queue d). fold (entries_of id d). rewrite Hq, Hs. done.
    + unfold d', hidden_until. simpl. fold (sq_queue d). fold (entries_of id d). intros n. rewrite Hq, Hr.
      case_bool_decide as Hin; [|apply Hres]. intros _. apply list_elem_of_fmap in Hin as (e & -> & He).
      apply elem_of_entries_of in He as [_ He]. by exists e.
    + unfold d', hidden_until. simpl. fold (sq_queue d). fold (entries_of id d). by rewrite Hs.
Qed.

(** What each part does to the queue. *)
Lemma transitioned_queue id runner rec w :
  queue_wf (db_queue w) →
  let w' := transitioned id runner rec w in
  queue_beside id w w' ∧ queue_wf (db_queue w') ∧ t_broker_sequence (db_queue w') = t_broker_sequence (db_queue w) ∧
  entries_of id w' =
    if bool_decide (rec_status rec = Pending) || is_terminal (rec_status rec) then [] else entries_of id w.
Proof.
  intros Hwf w'. unfold w', transitioned. destruct (_ || _); [|split_and!; done].
  set (w1 := upd_history _ _). assert (queue_wf (db_queue w1)) as Hwf1 by exact Hwf.
  destruct (delete_deliveries_queue id w1 Hwf1) as (Hb & He & _ & Hwf2). split_and!; [exact Hb|done|done|done].
Qed.

Lemma requeued_queue id change task at_ w :
  queue_wf (db_queue w) →
  let w' := requeued id change task at_ w in
  queue_beside id w w' ∧ queue_wf (db_queue w') ∧
  match change_route change with
  | Some route =>
      let e := mkQueueRow (t_broker_sequence (db_queue w) + 1) id (Some task) (route_queue route)
                 (route_priority route) in
      entries_of id w' = [e] ∧
      sq_leases w' !! bq_id e = match change with ChangeDelayedRetry _ _ => Some at_ | _ => None end
  | None => w' = w
  end.
Proof.
  intros Hwf w'. unfold w', requeued. destruct (change_route change) as [route|]; [|done].
  destruct (delete_deliveries_queue id w Hwf) as (Hb & He & Hq & Hwf1).
  destruct (enqueue_queue id (Some task) (route_queue route) (route_priority route) _ Hwf1) as (Hb2 & He2 & Hl2 & Hwf2).
  rewrite He in He2. set (w1 := on_queue _ _) in *.
  assert (queue_beside id w w1) as Hbw by (etrans; [exact Hb|exact Hb2]).
  destruct (hidden_until_queue id at_ w1 Hwf2) as (Hb3 & He3 & Hl3 & Hwf3).
  destruct change; try (split_and!; [exact Hbw|exact Hwf2|exact He2|exact Hl2]).
  split_and!; [etrans; [exact Hbw|exact Hb3]|exact Hwf3|exact (eq_trans He3 He2)|].
  apply Hl3. rewrite He2. set_solver.
Qed.

Lemma transitioned_fields id runner rec cur w :
  sq_status w !! id = Some cur →
  let w' := transitioned id runner rec w in
  sq_status w' = <[id := rec]> (sq_status w) ∧
  (∀ i, i ≠ id → sq_invocations w' !! i = sq_invocations w !! i) ∧
  (ir_status <$> sq_invocations w' !! id) = (λ _, rec_status rec) <$> (sq_invocations w !! id) ∧
  (ir_task_id <$> sq_invocations w' !! id) = ir_task_id <$> (sq_invocations w !! id) ∧
  t_history (db_state w') = t_history (db_state w) ++
    [mkHistoryRow id (rec_status rec) (Some runner) (rec_timestamp rec) None (Some (rec_timestamp rec))].
Proof.
  intros Hcur w'. destruct (write_status_written id rec cur w Hcur) as (Hs & Hi & Hst & _).
  assert (db_control w' = db_control (write_status id rec w) ∧
    t_invocations (db_state w') = t_invocations (db_state (write_status id rec w)) ∧
    t_history (db_state w') = t_history (db_state w) ++
      [mkHistoryRow id (rec_status rec) (Some runner) (rec_timestamp rec) None (Some (rec_timestamp rec))])
    as (Hc & Hinv & Hh) by (unfold w', transitioned; by destruct (_ || _)).
  unfold sq_status, sq_invocations in *. rewrite Hc, Hinv. split_and!; [done..| |done].
  unfold write_status. simpl. rewrite lookup_alter_eq. by destruct (t_invocations (db_state w) !! id).
Qed.

Section change.
Context `{Chrono} `{SqlText} `{JoinText} `{ArgumentsCodec} `{SubmissionCodec} `{ExecutionCodec}.

Lemma payload_run id change c t :
  change_payload no_failpoints id change c t = (Ok tt, c, mkTx (tx_committed t) (paid id change (tx_working t))).
Proof. by destruct change, t. Qed.

Lemma terminal_run id change purge rec c t :
  change_terminal no_failpoints id change purge rec c t =
    (Ok tt, c, mkTx (tx_committed t) (released id change purge rec (tx_working t))).
Proof.
  unfold change_terminal, released. destruct (is_terminal (change_status change)); [|by destruct t].
  rewrite !execute_bind. by destruct purge.
Qed.

(** The queue part: it fails on an invalid route and for an invocation without a
    row. *)
Lemma queue_run id change c t :
  match change_route change with
  | None => change_queue no_failpoints id change c t = (Ok tt, c, t)
  | Some route =>
      match validate_route route, sq_invocations (tx_working t) !! id with
      | Ok _, Some row => ∃ c' now, change_queue no_failpoints id change c t =
          (Ok tt, c', mkTx (tx_committed t)
             (requeued id change (ir_task_id row) (due_ms now change) (tx_working t)))
      | _, _ => ∃ e c' t', change_queue no_failpoints id change c t = (Err e, c', t')
      end
  end.
Proof.
  unfold change_queue, requeued. destruct (change_route change) as [route|] eqn:Hroute; [|done].
  rewrite query_bind.
  destruct (sq_invocations (tx_working t) !! id) as [row|] eqn:Hrow.
  - erewrite lift_bind by done. unfold publish.
    destruct (validate_route route) as [[]|e|p] eqn:Hv.
    + rewrite <-!bind_assoc_run. rewrite (lift_bind _ tt) by done. rewrite <-!bind_assoc_run. rewrite !execute_bind.
      cbn [tx_committed tx_working].
      destruct change; try done; rewrite ?ret_bind, ?execute_bind, ?point_bind; try (by exists c, 0).
      exists (clock_next c).2, (clock_next c).1. reflexivity.
    + do 3 eexists. reflexivity.
    + unfold validate_route in Hv. by destruct (_ || _).
  - destruct (validate_route route); do 3 eexists; reflexivity.
Qed.

Lemma apply_cases id runner change purge old c d w :
  (∃ e c' t', change_apply no_failpoints id runner change purge old c (mkTx d w) = (Err e, c', t')) ∨
  ∃ rec c' task now,
    let w1 := paid id change (transitioned id runner rec w) in
    let d' := released id change purge rec (requeued id change task (due_ms now change) w1) in
    change_apply no_failpoints id runner change purge old c (mkTx d w) = (Ok (Some rec), c', mkTx d' d') ∧
    status_record_transition (clock_next c).1 (Some old) (change_status change) (Some runner) = Ok rec ∧
    (is_completion change = true → rec_status old = Running ∧ rec_runner_id old = Some runner) ∧
    (is_Some (change_route change) → ∃ row, sq_invocations w1 !! id = Some row ∧ ir_task_id row = task).
Proof.
  unfold change_apply.
  destruct (is_completion change && (bool_decide (rec_status old ≠ Running) || bool_decide (rec_runner_id old ≠ Some runner)))
    eqn:Hown; [left; do 3 eexists; reflexivity|].
  rewrite ret_bind.
  destruct (status_record_transition (clock_next c).1 (Some old) (change_status change) (Some runner)) as [rec|e|p] eqn:Ht.
  2: { left. do 3 eexists. unfold mbind at 1, M_bind. rewrite transition_run, Ht. reflexivity. }
  2: { pose proof (transition_never_panics (clock_next c).1 (Some old) (change_status change) (Some runner)) as Hp.
       by rewrite Ht in Hp. }
  assert (transition id runner old (change_status change) c (mkTx d w) =
    (Ok rec, (clock_next c).2, mkTx d (transitioned id runner rec w))) as Hrun by (by rewrite transition_run, Ht).
  rewrite (bind_run _ _ _ _ _ _ _ Hrun), point_bind, (bind_run _ _ _ _ _ _ _ (payload_run id change _ _)).
  cbn [tx_committed tx_working].
  set (w1 := paid id change (transitioned id runner rec w)).
  pose proof (queue_run id change (clock_next c).2 (mkTx d w1)) as Hq. cbn [tx_committed tx_working] in Hq.
  assert (is_completion change = true → rec_status old = Running ∧ rec_runner_id old = Some runner) as Hco.
  { intros Hc. rewrite Hc in Hown. simpl in Hown. apply orb_false_iff in Hown as [Ho1 Ho2].
    apply bool_decide_eq_false in Ho1, Ho2. split; [by destruct (decide (rec_status old = Running))|].
    by destruct (decide (rec_runner_id old = Some runner)). }
  assert (∀ c1 w2, (change_terminal no_failpoints id change purge rec;;
    boundary no_failpoints (change_operation change +:+ "." +:+ "before_commit") id;; commit;;
    boundary no_failpoints (change_operation change +:+ "." +:+ "after_commit") id;; mret (Some rec)) c1 (mkTx d w2) =
      (Ok (Some rec), c1, mkTx (released id change purge rec w2) (released id change purge rec w2))) as Hend.
  { intros c1 w2. rewrite (bind_run _ _ _ _ _ _ _ (terminal_run id change purge rec c1 (mkTx d w2))). reflexivity. }
  destruct (change_route change) as [route|] eqn:Hroute.
  - destruct (validate_route route) as [[]|e|p].
    2, 3: destruct Hq as (e' & c' & t' & Hq); left; do 3 eexists; unfold mbind at 1, M_bind; by rewrite Hq.
    destruct (sq_invocations w1 !! id) as [row|] eqn:Hrow.
    2: destruct Hq as (e' & c' & t' & Hq); left; do 3 eexists; unfold mbind at 1, M_bind; by rewrite Hq.
    destruct Hq as (c' & now & Hq). right. exists rec, c', (ir_task_id row), now. split_and!; [|done|done|eauto].
    by rewrite (bind_run _ _ _ _ _ _ _ Hq), Hend.
  - right. exists rec, (clock_next c).2, "", 0. split_and!; [|done|done|by intros []].
    rewrite (bind_run _ _ _ _ _ _ _ Hq), Hend. unfold requeued. by rewrite Hroute.
Qed.

(** The status a change passes through. *)
Definition change_via (change : PublicationChange) : option InvocationStatus :=
  match change with
  | ChangeRecover status _ _ => Some status
  | ChangeConcurrencyReroute _ => Some ConcurrencyControlled
  | _ => None
  end.

(** The steps of the status machine a change makes for [runner], from [old] by way
    of [mid] to [rec]. *)
Definition change_moves (runner : RunnerId) (change : PublicationChange)
    (old mid rec : InvocationStatusRecord) : Prop :=
  match change_via change with
  | Some st => may_transition old st (Some runner) ∧ ∃ t, mid = moved t old st (Some runner)
  | None => mid = old
  end ∧
  may_transition mid (change_status change) (Some runner) ∧
  ∃ t, rec = moved t mid (change_status change) (Some runner).

Lemma prepare_cases id runner change old c d :
  match change_prepare no_failpoints id runner change old c (mkTx d d) with
  | (Ok (Some mid), c', t') => tx_committed t' = d ∧
      match change_via change with
      | Some st => may_transition old st (Some runner) ∧ (∃ t, mid = moved t old st (Some runner)) ∧
                   tx_working t' = transitioned id runner mid d
      | None => mid = old ∧ tx_working t' = d
      end
  | (Ok None, _, t') => ∃ st n route, change = ChangeRecover st n route
  | _ => True
  end.
Proof.
  assert (∀ st c1, match transition id runner old st c1 (mkTx d d) with
    | (Ok mid, _, t') => tx_committed t' = d ∧ may_transition old st (Some runner) ∧
        (∃ t, mid = moved t old st (Some runner)) ∧ tx_working t' = transitioned id runner mid d
    | (Err _, _, _) => True
    | (Panic _, _, _) => True
    end) as Htr.
  { intros st c1. rewrite transition_run. destruct (status_record_transition _ _ _ _) as [mid|e|p] eqn:Ht; [|done..].
    apply transition_Ok in Ht as [? ?]. split_and!; eauto. }
  unfold change_prepare. destruct change as [st|route|route delay|route|route|st n route|x|err]; try done.
  - specialize (Htr ConcurrencyControlled c). unfold mbind, M_bind. cbv beta.
    destruct (transition _ _ _ _ _ _) as [[[mid|e|p] c1] t1]; [|done..]. destruct Htr as (?&?&?&?). simpl. done.
  - destruct st; try done; [specialize (Htr PendingRecovery (clock_next c).2)|specialize (Htr RunningRecovery (clock_next c).2)].
    all: rewrite (lift_bind _ _) by reflexivity; case_bool_decide; [simpl; eauto|].
    all: unfold mbind at 1, M_bind; rewrite cutoff_run; destruct (seconds_before _ _) as [cutoff|]; [|done].
    all: rewrite query_bind; cbv zeta; destruct (cutoff <=? _) eqn:Hseen; [simpl; eauto|].
    all: unfold mbind, M_bind; cbv beta.
    all: destruct (transition _ _ _ _ _ _) as [[[mid|e|p] c1] t1]; [|done..]; destruct Htr as (?&?&?&?); simpl; done.
Qed.

(** The history entry of a transition. *)
Definition transition_entry (id : InvocationId) (runner : RunnerId) (rec : InvocationStatusRecord) : HistoryRow :=
  mkHistoryRow id (rec_status rec) (Some runner) (rec_timestamp rec) None (Some (rec_timestamp rec)).

(** What a change leaves behind in [d'] when it ends with [rec]. *)
Record changed (id : InvocationId) (runner : RunnerId) (change : PublicationChange)
    (mid rec : InvocationStatusRecord) (d d' : Database) : Prop := {
  ch_status : sq_status d' = <[id := rec]> (sq_status d);
  ch_others i : i ≠ id → sq_invocations d' !! i = sq_invocations d !! i;
  ch_row : ir_status <$> sq_invocations d' !! id = (λ _, rec_status rec) <$> (sq_invocations d !! id);
  ch_history : t_history (db_state d') = t_history (db_state d) ++
    (if change_via change is Some _ then [transition_entry id runner mid] else []) ++ [transition_entry id runner rec];
  ch_results : t_results (db_state d') =
    match change with ChangeSuccess r => <[id := r]> (t_results (db_state d)) | _ => t_results (db_state d) end;
  ch_errors : t_errors (db_state d') =
    match change with ChangeFailure e => <[id := e]> (t_errors (db_state d)) | _ => t_errors (db_state d) end;
  ch_retries : t_retries (db_control d') =
    match change with
    | ChangeRetry _ | ChangeDelayedRetry _ _ =>
        <[id := default 0 (t_retries (db_control d) !! id) + 1]> (t_retries (db_control d))
    | _ => t_retries (db_control d)
    end;
  ch_beside : queue_beside id d d';
  ch_entries :
    match change_route change with
    | Some route => ∃ task at_,
        let e := mkQueueRow (t_broker_sequence (db_queue d) + 1) id (Some task) (route_queue route)
                   (route_priority route) in
        entries_of id d' = [e] ∧
        sq_leases d' !! bq_id e = match change with ChangeDelayedRetry _ _ => Some at_ | _ => None end
    | None => entries_of id d' =
        if bool_decide (rec_status rec = Pending) || is_terminal (rec_status rec) then [] else entries_of id d
    end;
  ch_queue_wf : queue_wf (db_queue d')
}.

(** What the payload, the queue entry and the releases of a change leave alone. *)
Lemma settled_fields id change purge rec task at_ w :
  let d' := released id change purge rec (requeued id change task at_ (paid id change w)) in
  sq_status d' = sq_status w ∧ sq_invocations d' = sq_invocations w ∧
  t_history (db_state d') = t_history (db_state w) ∧
  t_results (db_state d') =
    match change with ChangeSuccess r => <[id := r]> (t_results (db_state w)) | _ => t_results (db_state w) end ∧
  t_errors (db_state d') =
    match change with ChangeFailure e => <[id := e]> (t_errors (db_state w)) | _ => t_errors (db_state w) end ∧
  t_retries (db_control d') =
    match change with
    | ChangeRetry _ | ChangeDelayedRetry _ _ =>
        <[id := default 0 (t_retries (db_control w) !! id) + 1]> (t_retries (db_control w))
    | _ => t_retries (db_control w)
    end ∧
  db_queue d' = db_queue (requeued id change task at_ w).
Proof.
  unfold released, requeued, paid. destruct change as [st|?|? ?|?|?|? ? ?|?|?]; simpl; destruct purge; try done.
  all: by destruct (is_terminal st).
Qed.

Lemma transitioned_payload id runner rec w :
  let w' := transitioned id runner rec w in
  t_results (db_state w') = t_results (db_state w) ∧ t_errors (db_state w') = t_errors (db_state w) ∧
  t_retries (db_control w') = t_retries (db_control w).
Proof. simpl. unfold transitioned. by destruct (_ || _). Qed.

(** What holds of the working state [w] after the first part of a change. *)
Record prepared (id : InvocationId) (runner : RunnerId) (change : PublicationChange)
    (mid : InvocationStatusRecord) (d w : Database) : Prop := {
  pp_status : sq_status w !! id = Some mid;
  pp_written rec : <[id := rec]> (sq_status w) = <[id := rec]> (sq_status d);
  pp_others i : i ≠ id → sq_invocations w !! i = sq_invocations d !! i;
  pp_row (rec : InvocationStatusRecord) :
    (λ _, rec_status rec) <$> (sq_invocations w !! id) = (λ _, rec_status rec) <$> (sq_invocations d !! id);
  pp_history : t_history (db_state w) = t_history (db_state d) ++
    (if change_via change is Some _ then [transition_entry id runner mid] else []);
  pp_results : t_results (db_state w) = t_results (db_state d);
  pp_errors : t_errors (db_state w) = t_errors (db_state d);
  pp_retries : t_retries (db_control w) = t_retries (db_control d);
  pp_beside : queue_beside id d w;
  pp_sequence : t_broker_sequence (db_queue w) = t_broker_sequence (db_queue d);
  pp_entries : change_route change = None → entries_of id w = entries_of id d;
  pp_wf : queue_wf (db_queue w)
}.

Lemma prepared_refl id runner change old d :
  change_via change = None → sq_status d !! id = Some old → queue_wf (db_queue d) →
  prepared id runner change old d d.
Proof. intros Hvia Hold Hwf. split; try done. by rewrite Hvia, app_nil_r. Qed.

Lemma prepared_via id runner change st old mid d :
  change_via change = Some st → sq_status d !! id = Some old → queue_wf (db_queue d) →
  prepared id runner change mid d (transitioned id runner mid d).
Proof.
  intros Hvia Hold Hwf.
  destruct (transitioned_fields id runner mid old d Hold) as (Hs & Ho & Hr & _ & Hh).
  destruct (transitioned_payload id runner mid d) as (Hres & Herr & Hret).
  destruct (transitioned_queue id runner mid d Hwf) as (Hb & Hwf1 & Hn & He). split; try done.
  - by rewrite Hs, lookup_insert_eq.
  - intros rec. by rewrite Hs, insert_insert_eq.
  - intros rec. destruct (sq_invocations d !! id), (sq_invocations (transitioned id runner mid d) !! id); done.
  - by rewrite Hvia.
  - destruct change; done.
Qed.

(** The second part of a change. *)
Lemma change_applied id runner change purge mid rec task at_ d w :
  prepared id runner change mid d w →
  changed id runner change mid rec d (released id change purge rec
    (requeued id change task at_ (paid id change (transitioned id runner rec w)))).
Proof.
  intros Hp. set (d' := released _ _ _ _ _). pose proof (pp_wf _ _ _ _ _ _ Hp) as Hwf.
  destruct (transitioned_fields id runner rec mid w (pp_status _ _ _ _ _ _ Hp)) as (Hs & Ho & Hr & _ & Hh).
  destruct (transitioned_payload id runner rec w) as (Hres & Herr & Hret).
  destruct (transitioned_queue id runner rec w Hwf) as (Hb & Hwf1 & Hn & He).
  set (w1 := transitioned id runner rec w) in *.
  destruct (settled_fields id change purge rec task at_ w1) as (Hs' & Hi' & Hh' & Hres' & Herr' & Hret' & Hq').
  destruct (requeued_queue id change task at_ w1 Hwf1) as (Hb2 & Hwf2 & He2).
  fold d' in Hs', Hi', Hh', Hres', Herr', Hret', Hq'. destruct Hp. split.
  - rewrite Hs', Hs. auto.
  - intros i Hi. rewrite Hi', Ho by done. auto.
  - rewrite Hi', Hr. auto.
  - rewrite Hh', Hh, pp_history0. by rewrite <-app_assoc.
  - by rewrite Hres', Hres, pp_results0.
  - by rewrite Herr', Herr, pp_errors0.
  - by rewrite Hret', Hret, pp_retries0.
  - assert (queue_beside id d (requeued id change task at_ w1)) as Hall
      by (etrans; [exact pp_beside0|]; etrans; [exact Hb|exact Hb2]).
    unfold queue_beside, entries_beside, sq_queue, sq_leases in *. by rewrite Hq'.
  - unfold entries_of, sq_queue, sq_leases in *. rewrite Hq'. destruct (change_route change).
    + rewrite Hn, pp_sequence0 in He2. eauto.
    + rewrite He2, He. by rewrite pp_entries0.
  - by rewrite Hq'.
Qed.

Lemma prepare_uncommitted id runner change old : uncommitted (change_prepare no_failpoints id runner change old).
Proof. unfold change_prepare, boundary. cbv zeta. solve_uncommitted. Qed.

(** What a change did: it moved the status by way of [mid] to [rec]. *)
Definition change_done (id : InvocationId) (runner : RunnerId) (change : PublicationChange)
    (rec : InvocationStatusRecord) (d d' : Database) : Prop :=
  ∃ old mid, sq_status d !! id = Some old ∧ change_moves runner change old mid rec ∧
    (is_completion change = true → rec_status old = Running ∧ rec_runner_id old = Some runner) ∧
    changed id runner change mid rec d d'.

Lemma change_tx_cases id runner change purge c d :
  queue_wf (db_queue d) →
  match change_tx no_failpoints id runner change purge c (mkTx d d) with
  | (Ok (Some rec), _, t) => change_done id runner change rec d (tx_committed t)
  | (Ok None, _, t) => (∃ st n route, change = ChangeRecover st n route) ∧ tx_committed t = d
  | (_, _, t) => tx_committed t = d
  end.
Proof.
  intros Hwf. pose proof (change_rolls_back id runner change purge c (mkTx d d)) as Hback.
  unfold change_tx, result_of, state_after in *. unfold current in *.
  destruct (sq_status d !! id) as [old|] eqn:Hold.
  2: { unfold mbind, M_bind, query, gets, lift in *. cbn [tx_working] in *. rewrite Hold in *. by apply Hback. }
  rewrite <-bind_assoc_run, query_bind in *. cbn [tx_working] in *.
  erewrite lift_bind in * by (by rewrite Hold).
  pose proof (prepare_cases id runner change old c d) as Hprep.
  pose proof (prepare_uncommitted id runner change old c (mkTx d d)) as Hun. unfold state_after in Hun.
  unfold mbind, M_bind in *.
  destruct (change_prepare no_failpoints id runner change old c (mkTx d d)) as [[[[mid|]|e|p] c1] [t0 w]];
    [|split; [exact Hprep|exact Hun]|by apply Hback|by apply Hback].
  destruct Hprep as [Hc Hvia]. simpl in Hc, Hun. subst t0.
  destruct (apply_cases id runner change purge mid c1 d w) as [(e & c2 & t' & Herr) | Hok].
  { rewrite Herr in *. by apply Hback. }
  destruct Hok as (rec & c2 & task & now & Hrun & Hmove & Hown & _). rewrite Hrun. cbn [tx_committed].
  apply transition_Ok in Hmove as [Hmay Hrec]. exists old, mid. split_and!; [done| | |].
  - split; [|eauto]. destruct (change_via change) as [st|]; [|by destruct Hvia as [-> _]].
    destruct Hvia as (? & ? & _). done.
  - intros Hcomp. assert (mid = old) as -> by (destruct change; try done; by destruct Hvia). auto.
  - apply change_applied. cbn [tx_working] in Hvia. destruct (change_via change) as [st|] eqn:Hv.
    + destruct Hvia as (_ & _ & ->). by apply (prepared_via _ _ _ st old).
    + destruct Hvia as [-> ->]. by apply prepared_refl.
Qed.

(** C9: a change of an invocation on SQLite.  When it succeeds, the status moved
    from the recorded one along the transitions the status machine allows that
    runner - for a recovery and a concurrency reroute through the intermediate
    status -, a completion only for the runner that owns the running invocation;
    and in the same commit the result, the error or the retry counter is written,
    the history grows by one entry per transition, a route leaves exactly one
    queue entry for the invocation, hidden when the retry is delayed, [Pending]
    and terminal statuses leave none, and no other invocation's status, row,
    queue entry or lease moves.  Only a recovery answers with no record, and then,
    as after every error, the database is the one before. *)
Theorem change_behaviour id runner change purge c d :
  queue_wf (db_queue d) →
  match sqlite_change no_failpoints id runner change purge c (handle_new d) with
  | (Ok (Some rec), _, h) => ∃ d', h = handle_new d' ∧ change_done id runner change rec d d'
  | (Ok None, _, h) => (∃ st n route, change = ChangeRecover st n route) ∧ h = handle_new d
  | (_, _, h) => h_db h = d
  end.
Proof.
  intros Hwf. pose proof (change_tx_cases id runner change purge c d Hwf) as Ht.
  unfold sqlite_change, blocking, boundary, no_failpoints, lift, with_connection, in_transaction, handle_new,
    mbind, M_bind. cbn [h_poisoned h_db].
  destruct (change_tx _ _ _ _ _ _ _) as [[[[rec|]|e|p] c'] t]; simpl.
  - eauto.
  - destruct Ht as [? ->]. done.
  - done.
  - done.
Qed.
End change.

(** ** Witnesses *)

Definition demo_submission_codec : SubmissionCodec.
Proof.
  refine {| submission_identity s := String "{" (digits_of (encode (submission_content s))) |}; [done|].
  intros s s' _ _. split; [|by intros ->]. intros Heq. injection Heq as Heq.
  apply (f_equal of_digits) in Heq. rewrite !of_digits_of in Heq. by apply (inj encode).
Defined.

Definition sql_submission : SubmissionPublication :=
  mkSubmission sql_invocation sql_call "r" None true (Some arguments_new) (mkRoute DEFAULT_QUEUE 0).

Lemma demo_submission_free : submission_free sql_submission database_new.
Proof. split; try done. Qed.

Lemma sqlite_submission_behaviour_witness :
  ∃ d', @sqlite_submit demo_sql demo_join demo_arguments_codec demo_submission_codec no_failpoints sql_submission
      demo_now (handle_new database_new) = (Ok true, (clock_next demo_now).2, handle_new d') ∧
    (bq_invocation_id <$> sq_queue d') = ["i"].
Proof.
  destruct (@sqlite_submission_behaviour demo_sql demo_join demo_arguments_codec demo_submission_codec sql_submission
    demo_now database_new) as [_ Hfresh]; [done..|].
  destruct (proj1 Hfresh demo_submission_free) as (d' & Hrun & Hd). exists d'. split; [exact Hrun|].
  destruct Hd as (_ & _ & _ & _ & _ & _ & _ & Hq & _). rewrite Hq. reflexivity.
Defined.

Lemma submission_is_accepted_once_witness :
  ∃ d1, @sqlite_submit demo_sql demo_join demo_arguments_codec demo_submission_codec no_failpoints sql_submission
      demo_now (handle_new d1) = (Ok false, demo_now, handle_new d1).
Proof.
  destruct (@submission_is_accepted_once demo_sql demo_join demo_arguments_codec demo_submission_codec
    sql_submission sql_submission demo_now demo_now database_new)
    as (d1 & d2 & _ & Hagain & Hsame & _); try (exact demo_submission_free || done).
  exists d1. rewrite (proj2 Hsame eq_refl) in Hagain. exact Hagain.
Defined.

(** "b" runs on "r"; its result is reported. *)
Lemma change_behaviour_witness :
  ∃ rec d', @sqlite_change chrono_in_seconds demo_sql demo_join no_failpoints "b" "r" (ChangeSuccess "1") false demo_now
      (handle_new demo_control) = (Ok (Some rec), (clock_next demo_now).2, handle_new d') ∧
    t_results (db_state d') !! "b" = Some "1".
Proof.
  pose proof (@change_behaviour chrono_in_seconds demo_sql demo_join "b" "r" (ChangeSuccess "1") false demo_now
    demo_control demo_control_wf) as Hc.
  destruct (sqlite_change _ _ _ _ _ _ _) as [[[[rec|]|e|p] c] h] eqn:Hrun in Hc.
  - destruct Hc as (d' & -> & old & mid & _ & _ & _ & Hd). exists rec, d'.
    split; [|rewrite (ch_results _ _ _ _ _ _ _ Hd); apply lookup_insert_eq].
    assert (c = (clock_next demo_now).2) as -> by (apply (f_equal (λ r, r.1.2)) in Hrun; vm_compute in Hrun; by rewrite <-Hrun).
    exact Hrun.
  - exfalso. by vm_compute in Hrun.
  - exfalso. by vm_compute in Hrun.
  - exfalso. by vm_compute in Hrun.
Defined.
