(* ===== verification/SqliteDelivery.v ===== *)
(** * No invocation is lost

    The contract of the SQLite backend towards the runners: an invocation that
    waits to be run has exactly one queue entry, whatever the processes that share
    the file do and wherever they are stopped.  The steps are the operations the
    orchestrator performs on the backend: submissions, changes and attempts with
    any failpoint, polls, status writes of the admission control, waiting, slots,
    heartbeats, removals and purges. *)
From S2P Require Import Prelude F64 Effects Json Identifiers Status Errors Config Call Invocation Trigger OrchestratorState MemOrchestrator MemBroker Ports TriggerManager Execution SqliteDb SqliteBroker SqliteOrchestrator SqliteState SqlitePublication SqlitePublished.

(** The invocation waits for a runner. *)
Definition awaits (d : Database) (id : InvocationId) : Prop :=
  ∃ rec, sq_status d !! id = Some rec ∧ deliverable_status (rec_status rec) = true.

(** The queue is in order and every waiting invocation has its entry. *)
Record nothing_lost (d : Database) : Prop := {
  nl_queue : queue_wf (db_queue d);
  nl_entry id : awaits d id → ∃ e, entries_of id d = [e]
}.

(** ** What keeps it *)

Lemma nothing_lost_new : nothing_lost database_new.
Proof. split; [apply queue_wf_new|]. by intros id (rec & Hrec & _). Qed.

(** Whatever leaves the queue and the statuses alone. *)
Lemma nothing_lost_quiet d d' :
  db_queue d' = db_queue d → sq_status d' = sq_status d → nothing_lost d → nothing_lost d'.
Proof.
  intros Hq Hs [Hwf He]. split; [by rewrite Hq|]. intros id (rec & Hrec & Hdel).
  unfold entries_of, sq_queue. rewrite Hq. apply He. exists rec. by rewrite <-Hs.
Qed.

Lemma bfilter_of_bfilter {A} (p q : A → bool) l :
  (∀ x, p x = true → q x = true) → bfilter p (bfilter q l) = bfilter p l.
Proof.
  intros Hpq. unfold bfilter. induction l as [|x l IH]; [done|]. simpl. destruct (q x) eqn:Hq; simpl.
  - by rewrite IH.
  - rewrite IH. destruct (p x) eqn:Hp; [|done]. apply Hpq in Hp. congruence.
Qed.

(** Entries of one invocation do not depend on those of another. *)
Lemma entries_of_beside id id' d d' :
  id' ≠ id → entries_beside id d' = entries_beside id d → entries_of id' d' = entries_of id' d.
Proof.
  intros Hne Hb. unfold entries_of, entries_beside in *.
  assert (∀ r : QueueRow, bool_decide (bq_invocation_id r = id') = true →
    negb (bool_decide (bq_invocation_id r = id)) = true) as Hsub.
  { intros r Hr%bool_decide_eq_true. apply negb_true_iff, bool_decide_eq_false. congruence. }
  by rewrite <-(bfilter_of_bfilter _ _ (sq_queue d') Hsub), Hb, bfilter_of_bfilter.
Qed.

(** A step for one invocation: the others keep their status and entries, and if
    this one waits afterwards, it has an entry. *)
Lemma nothing_lost_local id d d' :
  nothing_lost d → queue_wf (db_queue d') → entries_beside id d' = entries_beside id d →
  (∀ i, i ≠ id → sq_status d' !! i = sq_status d !! i) →
  (awaits d' id → ∃ e, entries_of id d' = [e]) → nothing_lost d'.
Proof.
  intros [_ He] Hwf Hb Hs Hid. split; [done|]. intros i Hi.
  destruct (decide (i = id)) as [->|Hne]; [by apply Hid|].
  rewrite (entries_of_beside id i d d') by done. apply He.
  destruct Hi as (rec & Hrec & Hdel). exists rec. by rewrite <-Hs.
Qed.

(** A poll: it takes away entries of invocations that do not wait. *)
Lemma nothing_lost_sub d d' :
  nothing_lost d → queue_wf (db_queue d') → sq_status d' = sq_status d →
  (∀ e, e ∈ sq_queue d' → e ∈ sq_queue d) →
  (∀ e, e ∈ sq_queue d → stale_delivery d e = false → e ∈ sq_queue d') → nothing_lost d'.
Proof.
  intros [Hwf He] Hwf' Hs Hsub Hkeep. split; [done|]. intros id (rec & Hrec & Hdel).
  rewrite Hs in Hrec. destruct (He id) as [e Hone]; [by exists rec|]. exists e.
  assert (e ∈ entries_of id d) as [Hid Hin]%elem_of_entries_of by (rewrite Hone; set_solver).
  assert (e ∈ entries_of id d') as Hin'.
  { apply elem_of_entries_of. split; [done|]. apply Hkeep; [done|].
    unfold stale_delivery. rewrite Hid, Hrec. by rewrite Hdel. }
  assert (∀ x, x ∈ entries_of id d' → x = e) as Hall.
  { intros x [Hx1 Hx2]%elem_of_entries_of. apply list_elem_of_singleton. rewrite <-Hone.
    apply elem_of_entries_of. auto. }
  assert (NoDup (entries_of id d')) as Hnd.
  { unfold entries_of, bfilter. apply NoDup_bfilter, queue_wf_NoDup, Hwf'. }
  destruct (entries_of id d') as [|x [|y l]] eqn:Hl; [by apply elem_of_nil in Hin'| |].
  - by rewrite (Hall x) by set_solver.
  - rewrite (Hall x), (Hall y) in Hnd by set_solver. exfalso. apply list.NoDup_cons in Hnd as [Hn _]. set_solver.
Qed.

(** ** The steps *)

Section steps.
Context `{HashOrder} `{Chrono} `{SqlText} `{JoinText} `{ArgumentsCodec} `{SubmissionCodec} `{ExecutionCodec}.

(** An operation of a process on the shared file. *)
Inductive delivery_op :=
| OpPublish (op : publication_op)
| OpPoll (b : SqliteBroker) (queue : string) (task : option TaskId) (language : option TaskLanguage)
| OpSetStatus (id : InvocationId) (st : InvocationStatus) (runner : option RunnerId)
| OpRemove (id : InvocationId)
| OpAutoPurge (max_age_secs : Z)
| OpScheduleAutoPurge (id : InvocationId)
| OpPurge
| OpWaitFor (waiter waited_on : InvocationId)
| OpReleaseWaiters (completed : InvocationId)
| OpAcquireSlot (id : InvocationId) (task : TaskId) (config : TaskConfig) (args : option SerializedArguments)
| OpReleaseSlot (id : InvocationId)
| OpHeartbeat (runner : RunnerId) (atomic : bool)
| OpServiceExecution (runner : RunnerId) (start finish : DateTime).

Definition run_delivery (fp : Failpoints) (op : delivery_op) : SqOp unit :=
  match op with
  | OpPublish op => run_publication fp op
  | OpPoll b queue task language => reserve b queue task language;; mret tt
  | OpSetStatus id st runner => sqlite_set_invocation_status id st runner;; mret tt
  | OpRemove id => sqlite_remove_invocation id
  | OpAutoPurge secs => sqlite_run_auto_purge secs;; mret tt
  | OpScheduleAutoPurge id => sqlite_schedule_auto_purge id
  | OpPurge => sqlite_purge
  | OpWaitFor a b => sqlite_set_waiting_for a b
  | OpReleaseWaiters id => sqlite_release_waiters id;; mret tt
  | OpAcquireSlot id task config args => sqlite_try_acquire_concurrency_slot id task config args;; mret tt
  | OpReleaseSlot id => sqlite_remove_from_concurrency_index id
  | OpHeartbeat runner atomic => sqlite_register_heartbeat runner atomic
  | OpServiceExecution runner start finish => sqlite_record_atomic_service_execution runner start finish
  end.

(** A status that waits is written together with an entry only: the orchestrator
    uses a retry or a reroute for it, never a plain change of status. *)
Definition by_the_rules (op : delivery_op) : Prop :=
  match op with
  | OpPublish (PubChange _ _ (ChangeStatus st) _) | OpSetStatus _ st _ => deliverable_status st = false
  | _ => True
  end.

(** Some process, with a connection of its own or after a panic on the shared one,
    performs an operation that may be stopped at any failpoint. *)
Definition delivery_step (d d' : Database) : Prop :=
  ∃ fp op c poisoned, by_the_rules op ∧ d' = h_db (state_after (run_delivery fp op) c (mkHandle d poisoned)).

(** *** Each operation keeps the invariant *)

Abbreviation kept m := (respects (keeps (λ h, nothing_lost (h_db h))) m) (only parsing).

Lemma kept_blocking {A} (m : SqOp A) : kept m → kept (blocking m).
Proof.
  intros Hm c h. specialize (Hm c h). unfold state_after, blocking in *. by destruct (m c h) as [[[a|e|p] c'] h'].
Qed.

Lemma kept_connection {A} (op : DbOp A) : respects (keeps nothing_lost) op → kept (with_connection op).
Proof.
  intros Hop c h. specialize (Hop c (h_db h)). unfold state_after, with_connection in *.
  destruct (h_poisoned h); [done|]. by destruct (op c (h_db h)) as [[r c'] d'].
Qed.

Lemma kept_sqlite {A} (op : DbOp A) : respects (keeps nothing_lost) op → kept (sqlite op).
Proof. intros Hop. by apply kept_blocking, kept_connection. Qed.

(** What a transaction holds at any time. *)
Abbreviation kept_tx m :=
  (respects (keeps (λ t, nothing_lost (tx_committed t) ∧ nothing_lost (tx_working t))) m) (only parsing).

Lemma kept_transaction {A} (m : Tx A) : kept_tx m → respects (keeps nothing_lost) (in_transaction m).
Proof.
  intros Hm c d Hd. specialize (Hm c (mkTx d d)). unfold state_after, in_transaction in *.
  destruct (m c (mkTx d d)) as [[r c'] t]. by apply Hm.
Qed.

Lemma kept_execute f : (∀ d, nothing_lost d → nothing_lost (f d)) → kept_tx (execute f).
Proof. intros Hf c t [Hc Hw]. split; [done|]. by apply Hf. Qed.

Lemma kept_quiet f :
  (∀ d, db_queue (f d) = db_queue d) → (∀ d, sq_status (f d) = sq_status d) → kept_tx (execute f).
Proof. intros Hq Hs. apply kept_execute. intros d. by apply nothing_lost_quiet. Qed.

Lemma kept_modify f :
  (∀ d, db_queue (f d) = db_queue d) → (∀ d, sq_status (f d) = sq_status d) →
  respects (keeps nothing_lost) (modify (E := RustvelloError) f).
Proof. intros Hq Hs c d. exact (nothing_lost_quiet d (f d) (Hq d) (Hs d)). Qed.

Lemma kept_query {A} (f : Database → A) : kept_tx (query f).
Proof. by intros c t. Qed.

Lemma kept_commit : kept_tx commit.
Proof. by intros c t [Hc Hw]. Qed.

(** Statements, down to what they change. *)
Ltac kept_step :=
  match goal with
  | |- respects _ (sqlite _) => apply kept_sqlite
  | |- respects _ (blocking _) => apply kept_blocking
  | |- respects _ (with_connection _) => apply kept_connection
  | |- respects _ (in_transaction _) => apply kept_transaction
  | |- respects _ (query _) => apply kept_query
  | |- respects _ commit => apply kept_commit
  | |- respects _ (execute _) => apply kept_quiet; done
  | |- respects _ (modify _) => apply kept_modify; done
  | |- respects _ (boundary _ _ _) => apply respects_lift, _
  | |- respects _ (cutoff_before _) => unfold cutoff_before
  | |- respects _ (current _) => unfold current
  | |- respects _ _ => respects_step
  end.
Ltac solve_kept := repeat kept_step.

Lemma status_change_lost id rec cur d :
  nothing_lost d → sq_status d !! id = Some cur → deliverable_status (rec_status rec) = false →
  nothing_lost (if decide (rec_status rec = Pending) then delete_deliveries id (write_status id rec d)
                else write_status id rec d).
Proof.
  intros Hn Hcur Hdel. pose proof (nl_queue _ Hn) as Hwf.
  destruct (write_status_written id rec cur d Hcur) as (Hs & _ & _ & _ & Hq).
  set (w := write_status id rec d) in *. assert (queue_wf (db_queue w)) as Hwfw by (by rewrite Hq).
  destruct (delete_deliveries_queue id w Hwfw) as (Hb & _ & _ & Hwf').
  assert (¬ awaits w id) as Hno.
  { intros (rec' & Hrec & Hdel'). rewrite Hs, lookup_insert_eq in Hrec. congruence. }
  assert (entries_beside id w = entries_beside id d) as Hbw by (unfold entries_beside, sq_queue; by rewrite Hq).
  assert (∀ i, i ≠ id → sq_status w !! i = sq_status d !! i) as Hother
    by (intros i Hi; by rewrite Hs, lookup_insert_ne).
  case_decide; eapply (nothing_lost_local id d); try done; by rewrite (proj1 Hb).
Qed.

Lemma kept_set_status id st runner :
  deliverable_status st = false → kept (sqlite_set_invocation_status id st runner).
Proof.
  intros Hst. apply kept_sqlite. intros c d Hd. unfold state_after, in_transaction, query, gets, mbind, M_bind.
  cbn [tx_working]. destruct (sq_status d !! id) as [cur|] eqn:Hcur; [|done]. cbn [ok_or lift]. unfold lift_now.
  destruct (status_record_transition (clock_next c).1 (Some cur) st runner) as [rec|e|p] eqn:Ht; [|done..].
  apply transition_Ok in Ht as [_ Hrec]. assert (rec_status rec = st) as Hr by (by rewrite Hrec).
  clear Hrec. subst st. pose proof (status_change_lost id rec cur d Hd Hcur Hst) as Hn.
  cbn [map_err]. unfold execute, commit, modify, mret, M_ret. by destruct (decide (rec_status rec = Pending)).
Qed.

Lemma kept_remove id : kept (sqlite_remove_invocation id).
Proof.
  apply kept_sqlite. intros c d Hd. pose proof (nl_queue _ Hd) as Hwf.
  unfold state_after, in_transaction. rewrite !execute_bind. cbn [tx_committed tx_working commit modify snd].
  set (d' := upd_auto_purge_schedule _ _).
  assert (queue_wf (db_queue (bury id d))) as Hwfb by (unfold bury; by destruct (sq_invocations d !! id)).
  destruct (delete_deliveries_queue id (bury id d) Hwfb) as ([Hb _] & _ & _ & Hwf').
  assert (db_queue d' = db_queue (delete_deliveries id (bury id d))) as Hq by done.
  assert (sq_status d' = delete id (sq_status d)) as Hs
    by (unfold d', bury, sq_status; simpl; by destruct (sq_invocations d !! id)).
  apply (nothing_lost_local id d); [done|by rewrite Hq| | |].
  - unfold entries_beside, sq_queue in *. rewrite Hq, Hb. unfold bury. by destruct (sq_invocations d !! id).
  - intros i Hi. by rewrite Hs, lookup_delete_ne.
  - intros (rec & Hrec & _). by rewrite Hs, lookup_delete_eq in Hrec.
Qed.

Lemma kept_purge : kept sqlite_purge.
Proof.
  unfold sqlite_purge. solve_kept. apply kept_execute. intros d [Hwf _].
  split; [done|]. by intros id (rec & Hrec & _).
Qed.

Lemma kept_poll b queue task language : kept (reserve b queue task language).
Proof.
  unfold reserve. apply respects_bind; [apply _|apply respects_lift, _|intros _]. apply kept_sqlite.
  intros c d Hd. destruct (reserve_in_db_run b queue (task_id_display <$> task) language c d (nl_queue _ Hd))
    as (r & d' & Hrun & Hp). unfold state_after. rewrite Hrun. cbn [snd].
  destruct Hp as (_ & Hc & _ & Hwf & Hsub & Hkeep & _). apply (nothing_lost_sub d); try done.
  unfold sq_status. by rewrite Hc.
Qed.

Lemma submitted_lost s now d d' : nothing_lost d → submitted s now d d' → nothing_lost d'.
Proof.
  intros Hn (Hst & _ & _ & _ & _ & _ & _ & Hq & _ & Hwf).
  apply (nothing_lost_local (inv_id (sp_invocation s)) d); [done|by apply Hwf, nl_queue| | |].
  - unfold entries_beside. rewrite Hq. unfold bfilter. rewrite List.filter_app. simpl.
    rewrite (bool_decide_true (inv_id _ = _)), app_nil_r by done. by apply bfilter_idem.
  - intros i Hi. by rewrite Hst, lookup_insert_ne.
  - intros _. unfold entries_of. rewrite Hq. unfold bfilter at 1. rewrite List.filter_app. simpl.
    rewrite (bool_decide_true (inv_id _ = _)) by done.
    pose proof (bfilter_none (λ r, bool_decide (bq_invocation_id r = inv_id (sp_invocation s)))
      (λ r, negb (bool_decide (bq_invocation_id r = inv_id (sp_invocation s)))) (sq_queue d)) as Hnone.
    unfold bfilter in Hnone |- *. rewrite Hnone by (by intros x Hx%negb_true_iff). simpl. eauto.
Qed.

Lemma kept_submit s : kept (sqlite_submit no_failpoints s).
Proof.
  intros c [d poisoned] Hn. unfold state_after.
  destruct (validate_route (sp_route s)) as [[]|e|p] eqn:Hr.
  2: { unfold sqlite_submit, blocking, lift, mbind, M_bind. by rewrite Hr. }
  2: { unfold validate_route in Hr. by destruct (_ || _) in Hr. }
  destruct (decide (inv_task_id (sp_invocation s) = cd_task_id (sp_call s) ∧
    inv_call_id (sp_invocation s) = cd_call_id (sp_call s))) as [[Ht Hc]|Hne].
  2: { unfold sqlite_submit, blocking, lift, mbind, M_bind. rewrite Hr.
       by destruct (bool_decide_reflect (inv_task_id (sp_invocation s) ≠ cd_task_id (sp_call s))),
         (bool_decide_reflect (inv_call_id (sp_invocation s) ≠ cd_call_id (sp_call s))); [..|naive_solver]. }
  destruct poisoned.
  { unfold sqlite_submit, blocking, lift, mbind, M_bind. rewrite Hr, !bool_decide_false by naive_solver. done. }
  change (mkHandle d false) with (handle_new d) in *.
  destruct (sqlite_submit no_failpoints s c (handle_new d)) as [[r c'] h] eqn:Hrun.
  pose proof (submit_inv s c d r c' h Hr Ht Hc Hrun) as Hi. destruct r as [[]|e|p]; simpl in *.
  - destruct (submit_fresh s c d Hr Ht Hc Hi) as (d' & Hrun' & Hd). rewrite Hrun in Hrun'.
    injection Hrun' as _ ->. by eapply submitted_lost.
  - by destruct Hi as [_ ->].
  - by rewrite Hi.
  - by rewrite Hi.
Qed.

Lemma change_lost id runner change rec d d' :
  (∀ st, change = ChangeStatus st → deliverable_status st = false) →
  nothing_lost d → change_done id runner change rec d d' → nothing_lost d'.
Proof.
  intros Hrule Hn (old & mid & Hold & (_ & _ & t & Hrec) & _ & Hd).
  pose proof (ch_status _ _ _ _ _ _ _ Hd) as Hs. pose proof (ch_entries _ _ _ _ _ _ _ Hd) as He.
  apply (nothing_lost_local id d); [done|exact (ch_queue_wf _ _ _ _ _ _ _ Hd)|exact (proj1 (ch_beside _ _ _ _ _ _ _ Hd))| |].
  - intros i Hi. by rewrite Hs, lookup_insert_ne.
  - intros (rec' & Hrec' & Hdel). rewrite Hs, lookup_insert_eq in Hrec'. injection Hrec' as <-.
    assert (rec_status rec = change_status change) as Hst by (by rewrite Hrec). rewrite Hst in Hdel.
    destruct change as [st|?|? ?|?|?|? ? ?|?|?]; simpl in *;
      try (destruct He as (? & ? & He & _); by eauto); try done.
    by rewrite (Hrule st eq_refl) in Hdel.
Qed.

Lemma change_poisoned id runner change purge c d :
  sqlite_change no_failpoints id runner change purge c (mkHandle d true) = (Err lock_err, c, mkHandle d true).
Proof. done. Qed.

Lemma kept_change id runner change purge :
  (∀ st, change = ChangeStatus st → deliverable_status st = false) →
  kept (sqlite_change no_failpoints id runner change purge).
Proof.
  intros Hrule c [d [|]] Hn; [by unfold state_after; rewrite change_poisoned|].
  change (mkHandle d false) with (handle_new d). unfold state_after. simpl in Hn.
  pose proof (change_tx_cases id runner change purge c d (nl_queue _ Hn)) as Ht.
  unfold sqlite_change, blocking, boundary, no_failpoints, lift, with_connection, in_transaction, handle_new,
    mbind, M_bind. cbn [h_poisoned h_db].
  destruct (change_tx _ _ _ _ _ _ _) as [[[[rec|]|e|p] c'] t]; simpl; [|by destruct Ht as [_ ->]|by rewrite Ht..].
  by eapply change_lost.
Qed.

Lemma kept_begin drawn err id runner retries incoming :
  kept (sqlite_begin_execution no_failpoints drawn err id runner retries incoming).
Proof. unfold sqlite_begin_execution, begin_tx. solve_kept. Qed.

Lemma kept_publication op : by_the_rules (OpPublish op) → kept (run_publication no_failpoints op).
Proof.
  intros Hrule. destruct op as [drawn err id runner retries incoming|s|id runner change purge]; simpl;
    (apply respects_bind; [apply _| |intros _; apply respects_ret, _]).
  - apply kept_begin.
  - apply kept_submit.
  - apply kept_change. intros st ->. exact Hrule.
Qed.

(** Every operation keeps it, wherever it is stopped. *)
Lemma kept_delivery fp op : by_the_rules op → kept (run_delivery fp op).
Proof.
  intros Hrule. destruct op; cbn [run_delivery].
  - intros c h Hn. destruct (publication_pair fp op c h) as [Hp _].
    pose proof (kept_publication op Hrule c h Hn) as Hk. unfold result_of, state_after in *.
    destruct Hp as [-> | [_ [-> | ->]]]; done.
  - apply respects_bind; [apply _|apply kept_poll|intros _; apply respects_ret, _].
  - apply respects_bind; [apply _|by apply kept_set_status|intros _; apply respects_ret, _].
  - apply kept_remove.
  - apply respects_bind; [apply _| |intros _; apply respects_ret, _]. unfold sqlite_run_auto_purge.
    solve_kept. apply kept_remove.
  - unfold sqlite_schedule_auto_purge. solve_kept.
  - apply kept_purge.
  - unfold sqlite_set_waiting_for. solve_kept.
  - unfold sqlite_release_waiters. solve_kept.
  - unfold sqlite_try_acquire_concurrency_slot. solve_kept.
  - unfold sqlite_remove_from_concurrency_index. solve_kept.
  - unfold sqlite_register_heartbeat. solve_kept.
  - unfold sqlite_record_atomic_service_execution. solve_kept.
Qed.

(** A database the processes can reach. *)
Definition reachable (d : Database) : Prop := rtc delivery_step database_new d.

Lemma reachable_nothing_lost d : reachable d → nothing_lost d.
Proof.
  intros Hd. pose proof nothing_lost_new as Hn. induction Hd as [d|d d1 d2 Hstep _ IH]; [done|].
  apply IH. destruct Hstep as (fp & op & c & poisoned & Hrule & ->).
  exact (kept_delivery fp op Hrule c (mkHandle d poisoned) Hn).
Qed.

(** C6: No waiting invocation is lost and none is queued twice, on the SQLite backend
    shared by any number of processes.  The database is one the processes can reach
    from an empty file by submissions, publications, polls, status writes, slots,
    waiting, heartbeats, removals, automatic purges and purges of the control data, in
    any order, each stopped at any failpoint, under one rule: a status that waits to be
    run is written by a publication that also queues the invocation, never by a bare
    status write (set_invocation_status to Rerouted, say, leaves no entry).  Purging the
    broker alone and the non-transactional route_invocation are not among the
    operations.  In every such database an invocation that waits to be run has exactly
    one queue entry; and once the lease of this entry is over, a poll of its queue by a
    worker of any language and task does not come back empty: it delivers this
    invocation or one ahead of it. *)
Theorem waiting_invocations_are_queued_once d id rec :
  reachable d → sq_status d !! id = Some rec → deliverable_status (rec_status rec) = true →
  ∃ e, entries_of id d = [e] ∧
    ∀ b c, valid_queue_name (bq_queue_name e) = true → unleased d ((clock_next c).1 / 1000000) e = true →
      ∃ e' c' d', reserve b (bq_queue_name e) None None c (handle_new d) =
          (Ok (Some (bq_invocation_id e')), c', handle_new d') ∧
        e' ∈ sq_queue d ∧ row_before e' e = true ∧ nothing_lost d'.
Proof.
  intros Hd%reachable_nothing_lost Hrec Hdel. destruct (nl_entry _ Hd id) as [e He]; [by exists rec|].
  exists e. split; [done|]. intros b c Hq Hu.
  assert (e ∈ entries_of id d) as [Hid Hin]%elem_of_entries_of by (rewrite He; set_solver).
  pose proof (kept_poll b (bq_queue_name e) None None c (handle_new d) Hd) as Hk.
  destruct (reserve_in_db_run b (bq_queue_name e) None None c d (nl_queue _ Hd)) as (r & d' & Hrun & Hp).
  assert (reserve b (bq_queue_name e) None None c (handle_new d) = (Ok r, (clock_next c).2, handle_new d')) as Hres.
  { unfold reserve. unfold mbind at 1, M_bind, lift.
    rewrite (proj2 (validate_routing_Ok (bq_queue_name e) 0)) by done.
    rewrite sqlite_run by (done || simpl; by rewrite Hrun). simpl. by rewrite Hrun. }
  unfold state_after in Hk. rewrite Hres in Hk.
  assert (candidate d (bq_queue_name e) None None ((clock_next c).1 / 1000000) e = true) as Hc.
  { unfold candidate. rewrite bool_decide_true, Hu by done. simpl.
    unfold stale_delivery. rewrite Hid, Hrec. by rewrite Hdel. }
  destruct Hp as (_ & _ & _ & _ & _ & _ & _ & Hr). destruct r as [id'|].
  - destruct Hr as (e' & <- & He' & _ & Hfirst & _). exists e', (clock_next c).2, d'. split_and!; auto.
  - destruct Hr as [Hnone _]. by rewrite (Hnone e Hin) in Hc.
Qed.
End steps.

(** ** Witnesses *)

Definition demo_submitted : Database :=
  h_db (state_after (@run_delivery identity_order chrono_in_seconds demo_sql demo_join demo_arguments_codec
    demo_submission_codec digit_codec no_failpoints (OpPublish (PubSubmit sql_submission))) demo_now
    (handle_new database_new)).

Lemma demo_submitted_reachable :
  @reachable identity_order chrono_in_seconds demo_sql demo_join demo_arguments_codec demo_submission_codec
    digit_codec demo_submitted.
Proof.
  eapply rtc_l; [|apply rtc_refl]. exists no_failpoints, (OpPublish (PubSubmit sql_submission)), demo_now, false.
  done.
Qed.

Lemma waiting_invocations_are_queued_once_witness :
  ∃ e e' c' d', entries_of "i" demo_submitted = [e] ∧
    @reserve identity_order demo_join sqlite_broker_new DEFAULT_QUEUE None None demo_now (handle_new demo_submitted) =
      (Ok (Some e'), c', handle_new d').
Proof.
  destruct (@waiting_invocations_are_queued_once identity_order chrono_in_seconds demo_sql demo_join
    demo_arguments_codec demo_submission_codec digit_codec demo_submitted "i"
    (mkRecord Registered (Some "r") 9000000000) demo_submitted_reachable) as (e & He & Hpoll).
  - vm_compute. reflexivity.
  - reflexivity.
  - assert (e = mkQueueRow 1 "i" (Some "rust::app.work") DEFAULT_QUEUE 0) as -> by
      (vm_compute in He; injection He as <-; reflexivity).
    destruct (Hpoll sqlite_broker_new demo_now) as (e' & c' & d' & Hrun & _); [reflexivity|reflexivity|].
    exists (mkQueueRow 1 "i" (Some "rust::app.work") DEFAULT_QUEUE 0), (bq_invocation_id e'), c', d'.
    split; [exact He|exact Hrun].
Defined.
