(* ===== verification/SqliteRuntime.v ===== *)
(** * The runtime over SQLite

    The orchestrator's ports over one SQLite file, as [AppBuilder::build] connects
    them for the SQLite preset: control, state, broker and trigger store share one
    database, so publication is transactional.  The fields beside the file are the
    orchestrator's and the process's own. *)
From S2P Require Import Prelude F64 Effects Json Identifiers Status Errors Config Call Invocation Trigger OrchestratorState MemOrchestrator MemOrchestratorFacts MemBroker MemStateBackend TaskCatalog Ports TriggerManager Orchestration Routing Dispatch Execution Runner SqliteDb SqliteBroker SqliteOrchestrator SqliteState SqlitePublication SqlitePublished SqliteDelivery.

(** One process: its connection, the cache of stored runners, the queue counter and
    the number of shuffles. *)
Record SqliteRuntime := mkSqliteRuntime {
  sr_handle : Handle;
  sr_runner_cache : gset string;
  sr_queue_index : Z;
  sr_shuffles : nat
}.

Definition put_handle (h : Handle) (s : SqliteRuntime) : SqliteRuntime :=
  mkSqliteRuntime h (sr_runner_cache s) (sr_queue_index s) (sr_shuffles s).

Definition on_file {A} (m : SqOp A) : M RustvelloError SqliteRuntime A := zoom sr_handle put_handle m.

Definition file_publication (p : RuntimePublication Handle) : RuntimePublication SqliteRuntime :=
  {| pub_domain := pub_domain p;
     pub_supports_delayed_retry := pub_supports_delayed_retry p;
     pub_begin_execution id r n t := on_file (pub_begin_execution p id r n t);
     pub_submit s := on_file (pub_submit p s);
     pub_change id r change purge := on_file (pub_change p id r change purge) |}.

Definition file_triggers `{JsonValue} (tm : TriggerPort Handle) : TriggerPort SqliteRuntime :=
  {| tm_report_status_change ctx := on_file (tm_report_status_change tm ctx);
     tm_report_result ctx := on_file (tm_report_result tm ctx);
     tm_report_failure ctx := on_file (tm_report_failure tm ctx);
     tm_evaluate_cron_conditions := on_file (tm_evaluate_cron_conditions tm);
     tm_evaluate_trigger_runs := on_file (tm_evaluate_trigger_runs tm);
     tm_pending_trigger_runs limit := on_file (tm_pending_trigger_runs tm limit);
     tm_complete_trigger_run run id := on_file (tm_complete_trigger_run tm run id);
     tm_purge := on_file (tm_purge tm) |}.

Definition next_file_queue_index : M RustvelloError SqliteRuntime Z :=
  s ← get;
  modify (λ s, mkSqliteRuntime (sr_handle s) (sr_runner_cache s) ((sr_queue_index s + 1) mod 18446744073709551616)
                 (sr_shuffles s));;
  mret (sr_queue_index s).

Definition next_file_shuffle : M RustvelloError SqliteRuntime nat :=
  s ← get;
  modify (λ s, mkSqliteRuntime (sr_handle s) (sr_runner_cache s) (sr_queue_index s) (S (sr_shuffles s)));;
  mret (sr_shuffles s).

Section runtime.
Context `{JsonValue} `{HashOrder} `{Chrono} `{SqlText} `{JoinText} `{ArgumentsCodec} `{SubmissionCodec} `{ExecutionCodec}.

(** What a process was built with: the domain of its file, the texts and draws of
    the libraries, the broker, the triggers and the auto-purge delay. *)
Record SqliteConfig := mkSqliteConfig {
  sc_domain : string;
  sc_failpoints : Failpoints;
  sc_drawn : nat;
  sc_json_error : string;
  sc_broker : SqliteBroker;
  sc_triggers : option (TriggerPort Handle);
  sc_auto_purge_delay_secs : Z
}.

(** Every port of the runtime over the file. *)
(* @src rustvello/src/builder/build.rs 190-214 RustvelloBuilder::resolve_preset *)
Definition sqlite_ports (cfg : SqliteConfig) : Ports SqliteRuntime :=
  {| ctl_runtime_publication :=
       Some (file_publication (sqlite_publication (sc_failpoints cfg) (sc_domain cfg) (sc_drawn cfg) (sc_json_error cfg)));
     ctl_register_invocation_with_id id call r := on_file (sqlite_register_invocation_with_id id call r);
     ctl_increment_invocation_retries id := on_file (sqlite_increment_invocation_retries id);
     ctl_get_invocation_status id := on_file (sqlite_get_invocation_status id);
     ctl_set_invocation_status id st r := on_file (sqlite_set_invocation_status id st r);
     ctl_schedule_auto_purge id := on_file (sqlite_schedule_auto_purge id);
     ctl_purge := on_file sqlite_purge;
     ctl_check_running_concurrency t c args := on_file (sqlite_check_running_concurrency t c args);
     ctl_index_for_concurrency_control id t args := on_file (sqlite_index_for_concurrency_control id t args);
     ctl_remove_from_concurrency_index id := on_file (sqlite_remove_from_concurrency_index id);
     ctl_try_acquire_concurrency_slot id t c args := on_file (sqlite_try_acquire_concurrency_slot id t c args);
     ctl_set_waiting_for a b := on_file (sqlite_set_waiting_for a b);
     ctl_release_waiters id := on_file (sqlite_release_waiters id);
     ctl_get_invocations_by_status st t := on_file (sqlite_get_invocations_by_status st t);
     ctl_get_blocking_invocations n := on_file (sqlite_get_blocking_invocations n);
     ctl_get_existing_invocations t args sts := on_file (sqlite_get_existing_invocations t args sts);
     ctl_get_stale_pending_invocations n := on_file (sqlite_get_stale_pending_invocations n);
     ctl_get_stale_running_invocations n := on_file (sqlite_get_stale_running_invocations n);
     ctl_register_heartbeat r b := on_file (sqlite_register_heartbeat r b);
     ctl_get_active_runners n b := on_file (sqlite_get_active_runners n b);
     ctl_record_atomic_service_execution r t t' := on_file (sqlite_record_atomic_service_execution r t t');
     sb_publication_domain := Some (sc_domain cfg);
     sb_upsert_invocation i call := on_file (sqlite_upsert_invocation i call);
     sb_get_invocation id := on_file (sqlite_get_invocation id);
     sb_get_call call_id := on_file (sqlite_get_call call_id);
     sb_store_result_for_runner id x r := on_file (sqlite_store_result_for_runner id x r);
     sb_store_error id e := on_file (sqlite_store_error id e);
     sb_store_error_for_runner id e r := on_file (sqlite_store_error_for_runner id e r);
     sb_add_history h := on_file (sqlite_add_history h);
     sb_get_history id := on_file (sqlite_get_history id);
     sb_store_workflow_run w := on_file (sqlite_store_workflow_run w);
     sb_get_runner_context r := on_file (sqlite_get_runner_context r);
     sb_store_runner_context ctx := on_file (sqlite_store_runner_context ctx);
     sb_get_workflow_data w k := on_file (sqlite_get_workflow_data w k);
     sb_set_workflow_data w k x := on_file (sqlite_set_workflow_data w k x);
     sb_purge := on_file sqlite_backend_purge;
     br_publication_domain := Some (sc_domain cfg);
     br_supports_delayed_delivery := sqlite_supports_delayed_delivery;
     br_route_invocation_with_options id t q p := on_file (sqlite_route_invocation_with_options id t q p);
     br_route_invocation_after id t q p delay := on_file (sqlite_route_invocation_after id t q p delay);
     br_retrieve_invocation_from_queue q t := on_file (sqlite_retrieve_invocation_from_queue (sc_broker cfg) q t);
     br_retrieve_invocation_for_language_from_queue lang q :=
       on_file (sqlite_retrieve_for_language_from_queue (sc_broker cfg) lang q);
     br_purge := on_file (sqlite_broker_purge None);
     tg_manager := file_triggers <$> sc_triggers cfg;
     orch_auto_purge_delay_secs := sc_auto_purge_delay_secs cfg;
     orch_runner_cached r := gets (λ s, bool_decide (r ∈ sr_runner_cache s));
     orch_cache_runner r := modify (λ s, mkSqliteRuntime (sr_handle s) ({[r]} ∪ sr_runner_cache s)
                                          (sr_queue_index s) (sr_shuffles s));
     next_queue_index := next_file_queue_index;
     next_shuffle := next_file_shuffle |}.

(** ** Reading through the ports *)

Lemma on_file_run {A} (m : SqOp A) c s r c' :
  m c (sr_handle s) = (r, c', sr_handle s) → on_file m c s = (r, c', s).
Proof. intros Hm. unfold on_file, zoom. rewrite Hm. by destruct s. Qed.

Lemma sqlite_gets_run {A} (f : Database → A) c d :
  sqlite (gets f) c (handle_new d) = (Ok (f d), c, handle_new d).
Proof. done. Qed.

Lemma attempt_Ok {S A B} (m : M RustvelloError S A) (k : A + RustvelloError → M RustvelloError S B) c s a c' s' :
  m c s = (Ok a, c', s') → (attempt m ≫= k) c s = k (inl a) c' s'.
Proof. intros Hm. unfold attempt, mbind, M_bind. by rewrite Hm. Qed.

Lemma attempt_Err {S A B} (m : M RustvelloError S A) (k : A + RustvelloError → M RustvelloError S B) c s e c' s' :
  m c s = (Err e, c', s') → (attempt m ≫= k) c s = k (inr e) c' s'.
Proof. intros Hm. unfold attempt, mbind, M_bind. by rewrite Hm. Qed.

(** The orchestrator finds the transactional publication of the file. *)
Lemma publication_found cfg c s :
  publication (P := sqlite_ports cfg) c s =
    (Ok (Some (file_publication (sqlite_publication (sc_failpoints cfg) (sc_domain cfg) (sc_drawn cfg) (sc_json_error cfg)))),
     c, s).
Proof. unfold publication. simpl. by rewrite bool_decide_true. Qed.

(** A change of status the status machine does not know. *)
Lemma change_refused id runner st purge old c d :
  sq_status d !! id = Some old → can_transition_to (rec_status old) st = false →
  sqlite_change no_failpoints id runner (ChangeStatus st) purge c (handle_new d) =
    (Err (EInvalidStatusTransition id (rec_status old) st (valid_transitions (rec_status old))), c, handle_new d).
Proof.
  intros Hold Hno.
  unfold sqlite_change, blocking, boundary, no_failpoints, lift, with_connection, in_transaction, handle_new,
    mbind at 1, M_bind. cbn [h_poisoned h_db].
  unfold change_tx, current. rewrite <-bind_assoc_run, query_bind. cbn [tx_working].
  erewrite lift_bind by (by rewrite Hold). unfold change_prepare. rewrite ret_bind.
  unfold change_apply. cbn [is_completion andb change_status]. rewrite ret_bind.
  unfold mbind at 1, M_bind. rewrite transition_run. unfold status_record_transition. cbn [fmap option_fmap option_map].
  rewrite validate_transition_some, Hno. done.
Qed.
End runtime.

(** ** Waiting for a running invocation *)

Section starvation.
Context {J : JsonValue} {HO : HashOrder} {CH : Chrono} {SQ : SqlText} {JT : JoinText} {AC : ArgumentsCodec}
  {SC : SubmissionCodec} {EC : ExecutionCodec}.
Context {FP : FloatPowi} {EN : Environment} {PF : ParseF64} {UC : UnicodeCase} {G : Glob} {SF : Shuffle}.
Context (cfg : SqliteConfig) (app_config : AppConfig) (catalog : TaskCatalog)
  (middlewares : list (TaskMiddleware (S := SqliteRuntime))).

(** The only invocation others wait for, itself waiting for nobody, runs; it is one
    of the workers' language, and its task has no concurrency limit here. *)
Record running_blocker (registry : TaskRegistry) (lang : TaskLanguage) (id : InvocationId) (d : Database) : Prop := {
  rb_only : bfilter (blocking_row d) (set_iter (waited_on d)) = [id];
  rb_running : rec_status <$> sq_status d !! id = Some Running;
  rb_row : ∃ r i, sq_invocations d !! id = Some r ∧ read_invocation id r = Ok i ∧
    task_language (inv_task_id i) = lang ∧
    ∀ task, get_dyn registry (inv_task_id i) = Some task → tc_concurrency_control (dt_config task) = Unlimited
}.

Lemma blocker_is_claimed am registry lang id d c s :
  running_blocker registry lang id d → sr_handle s = handle_new d →
  claim_next (P := sqlite_ports cfg) am app_config registry lang c s = (Ok (Some id), c, s).
Proof.
  intros [Hone Hrun (r & i & Hrow & Hread & Hlang & Hun)] Hs.
  assert (∀ c', on_file (sqlite_get_invocation id) c' s = (Ok i, c', s)) as Hget.
  { intros c'. apply on_file_run. rewrite Hs. unfold sqlite_get_invocation, sqlite, blocking, with_connection, handle_new.
    cbn [h_poisoned h_db]. unfold get, lift, mbind, M_bind. by rewrite Hrow; cbn [ok_or]; rewrite Hread. }
  assert (on_file (sqlite_get_blocking_invocations MAX_BLOCKING_CANDIDATES) c s = (Ok [id], c, s)) as Hblock.
  { apply on_file_run. rewrite Hs. unfold sqlite_get_blocking_invocations. rewrite sqlite_gets_run, Hone. done. }
  unfold claim_next. cbn [sqlite_ports ctl_get_blocking_invocations].
  rewrite (attempt_Ok _ _ _ _ _ _ _ Hblock). cbn [claim_blocking].
  assert (candidate_matches_language (P := sqlite_ports cfg) id lang c s = (Ok true, c, s)) as Hm.
  { unfold candidate_matches_language. cbn [sqlite_ports sb_get_invocation].
    rewrite (attempt_Ok _ _ _ _ _ _ _ (Hget c)). by rewrite Hlang, bool_decide_true. }
  assert (admit_candidate (P := sqlite_ports cfg) am registry id c s = (Ok true, c, s)) as Ha.
  { unfold admit_candidate. cbn [sqlite_ports sb_get_invocation].
    rewrite (attempt_Ok _ _ _ _ _ _ _ (Hget c)).
    destruct (get_dyn registry (inv_task_id i)) as [task|] eqn:Hd; [|done]. by rewrite decide_True by (by apply Hun). }
  rewrite <-bind_assoc_run, (bind_run _ _ _ _ _ _ _ Hm). cbn [negb].
  rewrite <-bind_assoc_run, (bind_run _ _ _ _ _ _ _ Ha). done.
Qed.

(** The claim of the worker is refused: the invocation runs already. *)
Lemma blocker_claim_refused worker id d c s :
  sc_triggers cfg = None → sc_failpoints cfg = no_failpoints → sr_handle s = handle_new d →
  rec_status <$> sq_status d !! id = Some Running →
  claim_ownership (P := sqlite_ports cfg) id worker c s = (Ok false, c, s).
Proof.
  intros Htm Hfp Hs Hrun. destruct (sq_status d !! id) as [old|] eqn:Hold; [|done]. injection Hrun as Hrun.
  assert (set_invocation_status (P := sqlite_ports cfg) id Pending worker c s =
    (Err (EInvalidStatusTransition id Running Pending (valid_transitions Running)), c, s)) as Hset.
  { unfold set_invocation_status, context_if_triggers. cbn [sqlite_ports tg_manager]. rewrite Htm. cbn [fmap option_fmap option_map].
    unfold mbind at 1, M_bind, mret at 1, M_ret. unfold set_invocation_status_with_context.
    rewrite (bind_run _ _ _ _ _ _ _ (publication_found cfg c s)). cbn [file_publication sqlite_publication pub_change].
    unfold mbind, M_bind. rewrite (on_file_run _ c s (Err (EInvalidStatusTransition id Running Pending (valid_transitions Running))) c);
      [done|].
    rewrite Hs, Hfp, (change_refused _ _ _ _ old) by (done || by rewrite Hrun). by rewrite Hrun. }
  unfold claim_ownership. rewrite (attempt_Err _ _ _ _ _ _ _ Hset).
  unfold release_nontransactional_concurrency_slot. rewrite <-bind_assoc_run.
  by rewrite (bind_run _ _ _ _ _ _ _ (publication_found cfg c s)).
Qed.

(** while the invocation others wait for runs, no worker takes anything from
    the queue.  The SQLite query for blocking invocations returns running ones
    too, although the contract asks for those that are available to be run; every
    poll of every worker of its language then claims the running invocation, is
    refused, reports that it did work - so it polls again at once - and has not
    looked at the queue, however many invocations wait there. *)
Theorem running_blocker_starves_workers am registry lang id d worker drawn random_unit run c s :
  sc_triggers cfg = None → sc_failpoints cfg = no_failpoints → sr_handle s = handle_new d →
  running_blocker registry lang id d →
  run_one_as_worker (P := sqlite_ports cfg) app_config catalog middlewares am registry lang worker drawn
    random_unit run c s = (Ok true, c, s).
Proof.
  intros Htm Hfp Hs Hb. unfold run_one_as_worker.
  rewrite (bind_run _ _ _ _ _ _ _ (blocker_is_claimed am registry lang id d c s Hb Hs)).
  assert (execute_invocation_common (P := sqlite_ports cfg) app_config catalog middlewares worker drawn random_unit
    id (run id) c s = (Ok tt, c, s)) as Hexec.
  { unfold execute_invocation_common.
    by rewrite (bind_run _ _ _ _ _ _ _ (blocker_claim_refused worker id d c s Htm Hfp Hs (rb_running _ _ _ _ Hb))). }
  by rewrite (bind_run _ _ _ _ _ _ _ Hexec).
Qed.
End starvation.

(** ** Witnesses *)

Definition demo_sqlite : SqliteConfig :=
  @mkSqliteConfig text_json "file" no_failpoints 0 "bad identity" sqlite_broker_new None 0.

(** "c" waits for "b", which runs on "r", while "a" waits in the queue. *)
Definition demo_running_blocker : Database :=
  upd_invocations (λ _, {[ "b" := invocation_row (mkInvocation "b" sql_task (mkCallId sql_task "no_args") Running 1 1
    None None trace_context_default) ]}) demo_control.

Definition sqlite_poll_run (id : InvocationId) (limits : AttemptLimits) : AttemptRun (S := SqliteRuntime) limits :=
  BodyReturns limits (λ s, s) 0 (Ok "42").

Definition demo_process : SqliteRuntime := mkSqliteRuntime (handle_new demo_running_blocker) ∅ 0 0.

Lemma running_blocker_starves_workers_witness :
  let registry := cat_registry demo_catalog in
  queued_ids (Ok tt, demo_now, sr_handle demo_process) = ["a"; "b"] ∧
  @run_one_as_worker text_json SqliteRuntime
    (@sqlite_ports text_json identity_order chrono_in_seconds demo_sql demo_join demo_arguments_codec
       demo_submission_codec digit_codec demo_sqlite)
    digit_codec first_power (env_list []) parse_one ascii_case literal_glob same_order (app_config_new "app")
    demo_catalog [] demo_ambient registry Rust "w" 0 0 sqlite_poll_run demo_now demo_process =
    (Ok true, demo_now, demo_process).
Proof.
  intros registry. split; [reflexivity|].
  apply (@running_blocker_starves_workers text_json identity_order chrono_in_seconds demo_sql demo_join
    demo_arguments_codec demo_submission_codec digit_codec first_power (env_list []) parse_one ascii_case literal_glob
    same_order demo_sqlite (app_config_new "app") demo_catalog [] demo_ambient registry Rust "b" demo_running_blocker).
  - reflexivity.
  - reflexivity.
  - reflexivity.
  - split; [vm_compute; reflexivity|vm_compute; reflexivity|]. do 2 eexists.
    split_and!; [reflexivity|vm_compute; reflexivity|reflexivity|]. intros task Ht. by vm_compute in Ht.
Defined.
