(* ===== verification/SqliteTrigger.v ===== *)
(** * The SQLite trigger store

    Models [rustvello-sqlite/src/trigger] ([mod.rs], [store.rs]) and its tables in
    [db.rs].  The tables of triggers have no foreign keys to the others, so they are
    a state of their own, [TriggerTables], on a connection as in [SqliteDb].

    - A table is a finite map from its primary key, a table without other columns a
      set of keys.  A JSON column holds the value whose text was written to it, and a
      reader gets what [serde_json] reads back from that text ([JsonColumn]), which
      may be another value or an error; times are instants, since the order of their
      text is theirs in the years 0 to 9999.  Ids of tasks and logics are the stored
      text, which is parsed when it is read.
    - [SELECT] without [ORDER BY] visits rows in an arbitrary order ([HashOrder]),
      and rows with equal sort keys too.

    The operations implement the interface of [TriggerManager]; what they promise is
    in [SqliteTriggerFacts]. *)
From S2P Require Import Prelude Effects Json Identifiers Status Errors Call Invocation MemStateBackend Trigger MemTrigger TriggerManager SqliteDb SqliteOrchestrator SqliteState.

(** ** JSON columns *)

(** [serde_json::from_str] of the text that [to_string] prints for a value; printing
    does not fail at these types.  The result need not be the value: a filter that is
    JSON null reads back as no filter, a float may lose its last bit, and a value that
    is nested too deeply is an error. *)
Class JsonColumn (A : Type) := { from_column : A → outcome string A }.

(** The columns of the trigger tables. *)
Class JsonColumns `{JsonValue} := {
  #[global] column_condition :: JsonColumn TriggerCondition;
  #[global] column_template :: JsonColumn Value;
  #[global] column_context :: JsonColumn ConditionContext;
  #[global] column_event :: JsonColumn EventRecord;
  #[global] column_run :: JsonColumn TriggerRunRecord
}.

Definition read_column `{JsonColumn A} (a : A) : RustvelloResult A := map_err ESerialization (from_column a).

(** One column of a row that may be missing, of all rows, and beside a key. *)
Definition read_optional `{JsonColumn A} (o : option A) : RustvelloResult (option A) :=
  match o with Some a => b ← read_column a; Ok (Some b) | None => Ok None end.
Definition read_rows `{JsonColumn A} (l : list A) : RustvelloResult (list A) := mapM read_column l.
Definition read_keyed `{JsonColumn A} {K} (l : list (K * A)) : RustvelloResult (list (K * A)) :=
  mapM (λ p, a ← read_column p.2; Ok (p.1, a)) l.

(** ** Tables *)

(* @src rustvello-sqlite/src/db.rs 322-327 trg_conditions *)
Record ConditionRow `{JsonValue} := mkConditionRow {
  cn_type : string;
  cn_event_code : option string;
  cn_condition : TriggerCondition
}.

(* @src rustvello-sqlite/src/db.rs 334-339 trg_triggers *)
Record TriggerRow `{JsonValue} := mkTriggerRow {
  tg_task_id : string;
  tg_logic : string;
  tg_argument_template : option Value
}.

(* @src rustvello-sqlite/src/db.rs 351-355 trg_valid_conditions *)
Record ValidRow `{JsonValue} := mkValidRow {
  vr_condition_id : ConditionId;
  vr_context : ConditionContext
}.

(* @src rustvello-sqlite/src/db.rs 379-385 trg_events *)
Record EventRow `{JsonValue} := mkEventRow {
  ev_code : string;
  ev_timestamp : DateTime;
  ev_emitter : option string;
  ev_event : EventRecord
}.

(** With the column [planned_invocation_id] that a migration adds. *)
(* @src rustvello-sqlite/src/db.rs 390-395 trg_trigger_runs *)
Record RunRow `{JsonValue} := mkRunRow {
  rn_claimed_at : DateTime;
  rn_triggered_invocation_id : option InvocationId;
  rn_planned_invocation_id : option InvocationId;
  rn_run : TriggerRunRecord
}.

(* @src rustvello-sqlite/src/db.rs 321-413 Database::initialize_schema *)
Record TriggerTables `{JsonValue} := mkTriggerTables {
  q_conditions : gmap ConditionId ConditionRow;
  q_source_tasks : gset (string * ConditionId);
  q_triggers : gmap TriggerDefinitionId TriggerRow;
  q_links : gset (ConditionId * TriggerDefinitionId);
  q_valid : gmap string ValidRow;
  q_crons : gmap ConditionId DateTime;
  q_claims : gmap TriggerRunId DateTime;
  q_events : gmap string EventRow;
  q_runs : gmap TriggerRunId RunRow;
  q_run_events : gset (TriggerRunId * string);
  q_run_sources : gset (TriggerRunId * InvocationId)
}.

(** [DELETE .. WHERE run = id] on a table of pairs. *)
Definition forget_first `{Countable K, Countable L} (k : K) (X : gset (K * L)) : gset (K * L) :=
  filter (λ p, p.1 ≠ k) X.
Definition forget_second `{Countable K, Countable L} (l : L) (X : gset (K * L)) : gset (K * L) :=
  filter (λ p, p.2 ≠ l) X.

Section store.
Context {J : JsonValue} {HO : HashOrder} {SH : Sha256} {JC : JsonColumns}.
Implicit Types (t : TriggerTables).

Definition trigger_tables_new : TriggerTables := mkTriggerTables _ ∅ ∅ ∅ ∅ ∅ ∅ ∅ ∅ ∅ ∅ ∅.

(** ** Updates of one table *)

Definition upd_conditions (f : gmap ConditionId ConditionRow → gmap ConditionId ConditionRow) t :=
  mkTriggerTables _ (f (q_conditions t)) (q_source_tasks t) (q_triggers t) (q_links t) (q_valid t)
    (q_crons t) (q_claims t) (q_events t) (q_runs t) (q_run_events t) (q_run_sources t).
Definition upd_source_tasks (f : gset (string * ConditionId) → gset (string * ConditionId)) t :=
  mkTriggerTables _ (q_conditions t) (f (q_source_tasks t)) (q_triggers t) (q_links t) (q_valid t)
    (q_crons t) (q_claims t) (q_events t) (q_runs t) (q_run_events t) (q_run_sources t).
Definition upd_triggers (f : gmap TriggerDefinitionId TriggerRow → gmap TriggerDefinitionId TriggerRow) t :=
  mkTriggerTables _ (q_conditions t) (q_source_tasks t) (f (q_triggers t)) (q_links t) (q_valid t)
    (q_crons t) (q_claims t) (q_events t) (q_runs t) (q_run_events t) (q_run_sources t).
Definition upd_links
    (f : gset (ConditionId * TriggerDefinitionId) → gset (ConditionId * TriggerDefinitionId)) t :=
  mkTriggerTables _ (q_conditions t) (q_source_tasks t) (q_triggers t) (f (q_links t)) (q_valid t)
    (q_crons t) (q_claims t) (q_events t) (q_runs t) (q_run_events t) (q_run_sources t).
Definition upd_valid (f : gmap string ValidRow → gmap string ValidRow) t :=
  mkTriggerTables _ (q_conditions t) (q_source_tasks t) (q_triggers t) (q_links t) (f (q_valid t))
    (q_crons t) (q_claims t) (q_events t) (q_runs t) (q_run_events t) (q_run_sources t).
Definition upd_crons (f : gmap ConditionId DateTime → gmap ConditionId DateTime) t :=
  mkTriggerTables _ (q_conditions t) (q_source_tasks t) (q_triggers t) (q_links t) (q_valid t)
    (f (q_crons t)) (q_claims t) (q_events t) (q_runs t) (q_run_events t) (q_run_sources t).
Definition upd_claims (f : gmap TriggerRunId DateTime → gmap TriggerRunId DateTime) t :=
  mkTriggerTables _ (q_conditions t) (q_source_tasks t) (q_triggers t) (q_links t) (q_valid t)
    (q_crons t) (f (q_claims t)) (q_events t) (q_runs t) (q_run_events t) (q_run_sources t).
Definition upd_events (f : gmap string EventRow → gmap string EventRow) t :=
  mkTriggerTables _ (q_conditions t) (q_source_tasks t) (q_triggers t) (q_links t) (q_valid t)
    (q_crons t) (q_claims t) (f (q_events t)) (q_runs t) (q_run_events t) (q_run_sources t).
Definition upd_runs (f : gmap TriggerRunId RunRow → gmap TriggerRunId RunRow) t :=
  mkTriggerTables _ (q_conditions t) (q_source_tasks t) (q_triggers t) (q_links t) (q_valid t)
    (q_crons t) (q_claims t) (q_events t) (f (q_runs t)) (q_run_events t) (q_run_sources t).
Definition upd_run_events (f : gset (TriggerRunId * string) → gset (TriggerRunId * string)) t :=
  mkTriggerTables _ (q_conditions t) (q_source_tasks t) (q_triggers t) (q_links t) (q_valid t)
    (q_crons t) (q_claims t) (q_events t) (q_runs t) (f (q_run_events t)) (q_run_sources t).
Definition upd_run_sources
    (f : gset (TriggerRunId * InvocationId) → gset (TriggerRunId * InvocationId)) t :=
  mkTriggerTables _ (q_conditions t) (q_source_tasks t) (q_triggers t) (q_links t) (q_valid t)
    (q_crons t) (q_claims t) (q_events t) (q_runs t) (q_run_events t) (f (q_run_sources t)).

(** ** Conditions *)

(* @src rustvello-sqlite/src/trigger/mod.rs 26-34 parse_logic *)
Definition parse_logic (s : string) : RustvelloResult TriggerLogic :=
  if bool_decide (s = "OR") then Ok LogicOr
  else if bool_decide (s = "AND") then Ok LogicAnd
  else Err (state_backend_err ("unknown trigger logic in database: " +:+ str_debug s)).

(* @src rustvello-sqlite/src/trigger/mod.rs 36-47 condition_type_tag *)
Definition condition_type_tag (cond : TriggerCondition) : string :=
  match cond with
  | CondCron _ => "Cron"
  | CondStatus _ => "Status"
  | CondEvent _ => "Event"
  | CondResult _ => "Result"
  | CondException _ => "Exception"
  | CondComposite _ _ => "Composite"
  end.

Definition condition_row (cond : TriggerCondition) : ConditionRow :=
  {| cn_type := condition_type_tag cond;
     cn_event_code := match cond with CondEvent c => Some (evn_event_code c) | _ => None end;
     cn_condition := cond |}.

Abbreviation TrOp A := (M RustvelloError TriggerTables A) (only parsing).

(* @src rustvello-sqlite/src/trigger/store.rs 22-60 SqliteTriggerStore::register_condition *)
Definition sql_register_condition (cond : TriggerCondition) : TrOp ConditionId :=
  let id := condition_id cond in
  in_transaction (
    execute (upd_conditions <[id := condition_row cond]>);;
    for_each (λ task, execute (upd_source_tasks (union {[(task_id_display task, id)]}))) (source_task_ids cond);;
    commit;;
    mret id).

(* @src rustvello-sqlite/src/trigger/store.rs 64-93 SqliteTriggerStore::get_condition *)
Definition sql_get_condition (id : ConditionId) : TrOp (option TriggerCondition) :=
  row ← gets (λ t, cn_condition <$> q_conditions t !! id);
  lift (read_optional row).

(** The rows of conditions that a query selects. *)
Definition conditions_where (p : ConditionRow → bool) t : list (ConditionId * TriggerCondition) :=
  (λ r, (r.1, cn_condition r.2)) <$> bfilter (λ r, p r.2) (map_iter (q_conditions t)).

(* @src rustvello-sqlite/src/trigger/store.rs 95-132 SqliteTriggerStore::get_conditions_for_task *)
Definition sql_get_conditions_for_task (task_id : TaskId) : TrOp (list (ConditionId * TriggerCondition)) :=
  rows ← gets (λ t, omap (λ p : string * ConditionId, (λ r, (p.2, cn_condition r)) <$> q_conditions t !! p.2)
    (bfilter (λ p, bool_decide (p.1 = task_id_display task_id)) (set_iter (q_source_tasks t))));
  lift (read_keyed rows).

(* @src rustvello-sqlite/src/trigger/store.rs 134-164 SqliteTriggerStore::get_cron_conditions *)
Definition sql_get_cron_conditions : TrOp (list (ConditionId * TriggerCondition)) :=
  rows ← gets (conditions_where (λ r, bool_decide (cn_type r = "Cron")));
  lift (read_keyed rows).

(* @src rustvello-sqlite/src/trigger/store.rs 166-194 SqliteTriggerStore::get_all_conditions *)
Definition sql_get_all_conditions : TrOp (list (ConditionId * TriggerCondition)) :=
  rows ← gets (conditions_where (λ _, true));
  lift (read_keyed rows).

(* @src rustvello-sqlite/src/trigger/store.rs 196-230 SqliteTriggerStore::get_event_conditions *)
Definition sql_get_event_conditions (event_code : string) : TrOp (list (ConditionId * TriggerCondition)) :=
  rows ← gets (conditions_where (λ r, bool_decide (cn_type r = "Event") &&
                               bool_decide (cn_event_code r = Some event_code)));
  lift (read_keyed rows).

(** ** Trigger definitions *)

Definition trigger_row (trigger : TriggerDefinitionDTO) : TriggerRow :=
  {| tg_task_id := task_id_display (td_task_id trigger);
     tg_logic := trigger_logic_display (td_logic trigger);
     tg_argument_template := td_argument_template trigger |}.

(* @src rustvello-sqlite/src/trigger/store.rs 232-265 SqliteTriggerStore::register_trigger *)
Definition sql_register_trigger (trigger : TriggerDefinitionDTO) : TrOp unit :=
  let id := td_trigger_id trigger in
  in_transaction (
    execute (upd_triggers <[id := trigger_row trigger]>);;
    for_each (λ cid, execute (upd_links (union {[(cid, id)]}))) (td_condition_ids trigger);;
    commit).

(* @src rustvello-sqlite/src/trigger/mod.rs 49-62 get_condition_ids_for_trigger *)
Definition get_condition_ids_for_trigger (id : TriggerDefinitionId) t : list ConditionId :=
  (bfilter (λ p, bool_decide (p.2 = id)) (set_iter (q_links t))).*1.

(** The definition that a row and its links stand for. *)
(* @src rustvello-sqlite/src/trigger/store.rs 294-315 SqliteTriggerStore::get_trigger *)
Definition read_trigger t (id : TriggerDefinitionId) (row : TriggerRow) : RustvelloResult TriggerDefinitionDTO :=
  task_id ← parse_task "task_id" (tg_task_id row);
  logic ← parse_logic (tg_logic row);
  argument_template ← read_optional (tg_argument_template row);
  Ok {| td_trigger_id := id; td_task_id := task_id;
        td_condition_ids := get_condition_ids_for_trigger id t;
        td_logic := logic; td_argument_template := argument_template |}.

(* @src rustvello-sqlite/src/trigger/store.rs 267-321 SqliteTriggerStore::get_trigger *)
Definition sql_get_trigger (id : TriggerDefinitionId) : TrOp (option TriggerDefinitionDTO) :=
  t ← get;
  match q_triggers t !! id with
  | Some row => trigger ← lift (read_trigger t id row); mret (Some trigger)
  | None => mret None
  end.

(* @src rustvello-sqlite/src/trigger/store.rs 323-376 SqliteTriggerStore::get_triggers_for_condition *)
Definition sql_get_triggers_for_condition (cid : ConditionId) : TrOp (list TriggerDefinitionDTO) :=
  t ← get;
  let rows := omap (λ p : ConditionId * TriggerDefinitionId, (λ row, (p.2, row)) <$> q_triggers t !! p.2)
                (bfilter (λ p, bool_decide (p.1 = cid)) (set_iter (q_links t))) in
  lift (mapM (λ r : TriggerDefinitionId * TriggerRow, read_trigger t r.1 r.2) rows).

(* @src rustvello-sqlite/src/trigger/store.rs 378-414 SqliteTriggerStore::remove_triggers_for_task *)
Definition sql_remove_triggers_for_task (task_id : TaskId) : TrOp Z :=
  in_transaction (
    ids ← query (λ t, (bfilter (λ p : TriggerDefinitionId * TriggerRow,
        bool_decide (tg_task_id p.2 = task_id_display task_id)) (map_iter (q_triggers t))).*1);
    for_each (λ id, execute (upd_links (forget_second id));; execute (upd_triggers (delete id))) ids;;
    commit;;
    mret (Z.min (Z.of_nat (length ids)) u32_max)).

(** ** Valid conditions and cron executions *)

Definition valid_row (vc : ValidCondition) : ValidRow := mkValidRow _ (vc_condition_id vc) (vc_context vc).

(* @src rustvello-sqlite/src/trigger/store.rs 416-436 SqliteTriggerStore::record_valid_condition *)
Definition sql_record_valid_condition (vc : ValidCondition) : TrOp unit :=
  modify (upd_valid <[vc_valid_condition_id vc := valid_row vc]>).

(* @src rustvello-sqlite/src/trigger/store.rs 438-475 SqliteTriggerStore::get_valid_conditions *)
Definition sql_get_valid_conditions : TrOp (list ValidCondition) :=
  rows ← gets (λ t, map_iter (q_valid t));
  lift (mapM (λ r : string * ValidRow, context ← read_column (vr_context r.2);
                Ok (mkValidCondition _ r.1 (vr_condition_id r.2) context)) rows).

(** Each row is deleted by a statement of its own. *)
(* @src rustvello-sqlite/src/trigger/store.rs 477-492 SqliteTriggerStore::clear_valid_conditions *)
Definition sql_clear_valid_conditions (ids : list string) : TrOp unit :=
  for_each (λ id, modify (upd_valid (delete id))) ids.

(* @src rustvello-sqlite/src/trigger/store.rs 494-527 SqliteTriggerStore::get_last_cron_execution *)
Definition sql_get_last_cron_execution (id : ConditionId) : TrOp (option DateTime) := gets (λ t, q_crons t !! id).

(* @src rustvello-sqlite/src/trigger/store.rs 529-564 SqliteTriggerStore::store_cron_execution *)
Definition sql_store_cron_execution (id : ConditionId) (time : DateTime) (expected_last : option DateTime)
    : TrOp bool :=
  last ← gets (λ t, q_crons t !! id);
  match expected_last with
  | None =>
      modify (upd_crons (insert_or_ignore id time));;
      mret (bool_decide (last = None))
  | Some expected =>
      if bool_decide (last = Some expected)
      then modify (upd_crons <[id := time]>);; mret true
      else mret false
  end.

(** ** Runs *)

(* @src rustvello-sqlite/src/trigger/store.rs 566-585 SqliteTriggerStore::claim_trigger_run *)
Definition sql_claim_trigger_run (id : TriggerRunId) : TrOp bool :=
  now ← utc_now;
  claim ← gets (λ t, q_claims t !! id);
  modify (upd_claims (insert_or_ignore id now));;
  mret (bool_decide (claim = None)).

Definition run_row (run : TriggerRunRecord) : RunRow :=
  {| rn_claimed_at := tr_claimed_at run;
     rn_triggered_invocation_id := tr_triggered_invocation_id run;
     rn_planned_invocation_id := tr_planned_invocation_id run;
     rn_run := run |}.

(* @src rustvello-sqlite/src/trigger/store.rs 905-953 write_trigger_run *)
Definition write_trigger_run (run : TriggerRunRecord) : TxOn TriggerTables unit :=
  let id := tr_trigger_run_id run in
  execute (upd_runs <[id := run_row run]>);;
  execute (upd_run_events (forget_first id));;
  execute (upd_run_sources (forget_first id));;
  for_each (λ event, execute (upd_run_events (union {[(id, event)]}))) (event_ids run);;
  for_each (λ source, execute (upd_run_sources (union {[(id, source)]}))) (source_invocation_ids run).

(* @src rustvello-sqlite/src/trigger/store.rs 705-716 SqliteTriggerStore::store_trigger_run *)
Definition sql_store_trigger_run (run : TriggerRunRecord) : TrOp unit :=
  in_transaction (write_trigger_run run;; commit).

(** One record of the batch. *)
(* @src rustvello-sqlite/src/trigger/store.rs 735-756 SqliteTriggerStore::claim_trigger_runs_with_records *)
Definition sql_claim_record (now : DateTime) (claimed : list bool) (record : TriggerRunRecord)
    : TxOn TriggerTables (list bool) :=
  let run_id := tr_trigger_run_id record in
  claim ← query (λ t, q_claims t !! run_id);
  let first := bool_decide (claim = None) in
  execute (upd_claims (insert_or_ignore run_id now));;
  recorded ← query (λ t, bool_decide (is_Some (q_runs t !! run_id)));
  (if first || negb recorded then write_trigger_run record else mret tt);;
  mret (claimed ++ [first]).

(* @src rustvello-sqlite/src/trigger/store.rs 718-772 SqliteTriggerStore::claim_trigger_runs_with_records *)
Definition sql_claim_trigger_runs_with_records (fp : Failpoints) (records : list TriggerRunRecord)
    (consumed : list string) : TrOp (list bool) :=
  in_transaction (
    now ← utc_now;
    claimed ← for_fold (sql_claim_record now) [] records;
    for_each (λ id, execute (upd_valid (delete id))) consumed;;
    let subject := match records with record :: _ => tr_trigger_run_id record | [] => "" end in
    boundary fp "trigger.claim.before_commit" subject;;
    commit;;
    boundary fp "trigger.claim.after_commit" subject;;
    mret claimed).

(** [i64::try_from(n).unwrap_or(i64::MAX)] as a bound of [LIMIT]. *)
Definition sql_limit {A} (n : Z) (l : list A) : list A := truncate (i64_saturating_of_u64 n) l.

(** Selected rows are sorted after an arbitrary order, which settles ties. *)
(* @src rustvello-sqlite/src/trigger/store.rs 778-805 SqliteTriggerStore::get_pending_trigger_runs *)
Definition sql_get_pending_trigger_runs (limit : Z) : TrOp (list TriggerRunRecord) :=
  rows ← gets (λ t, rn_run <$> sql_limit limit
    (sort_by (λ a b, rn_claimed_at a <=? rn_claimed_at b)
      (bfilter (λ r, bool_decide (rn_triggered_invocation_id r = None) &&
                     bool_decide (is_Some (rn_planned_invocation_id r))) (map_iter (q_runs t)).*2)));
  lift (read_rows rows).

(* @src rustvello-sqlite/src/trigger/store.rs 807-831 SqliteTriggerStore::get_trigger_run *)
Definition sql_get_trigger_run (id : TriggerRunId) : TrOp (option TriggerRunRecord) :=
  row ← gets (λ t, rn_run <$> q_runs t !! id);
  lift (read_optional row).

(** The [WHERE] of the next query. *)
(* @src rustvello-sqlite/src/trigger/store.rs 842-853 SqliteTriggerStore::get_trigger_runs *)
Definition run_row_selected (q : TriggerRunQuery) t (id : TriggerRunId) (r : RunRow) : bool :=
  is_none_or (tq_event_id q) (λ event, bool_decide ((id, event) ∈ q_run_events t)) &&
  is_none_or (tq_source_invocation_id q) (λ source, bool_decide ((id, source) ∈ q_run_sources t)) &&
  is_none_or (tq_triggered_invocation_id q) (λ i, bool_decide (rn_triggered_invocation_id r = Some i)) &&
  is_none_or (tq_start q) (λ start, start <=? rn_claimed_at r) &&
  is_none_or (tq_end q) (λ stop, rn_claimed_at r <=? stop).

(* @src rustvello-sqlite/src/trigger/store.rs 833-879 SqliteTriggerStore::get_trigger_runs *)
Definition sql_get_trigger_runs (q : TriggerRunQuery) : TrOp (list TriggerRunRecord) :=
  rows ← gets (λ t, rn_run <$> sql_limit (default 1000 (tq_limit q))
    (sort_by (λ a b, rn_claimed_at b <=? rn_claimed_at a)
      (bfilter (λ p, run_row_selected q t p.1 p.2) (map_iter (q_runs t))).*2));
  lift (read_rows rows).

(** ** Events *)

Definition event_row (e : EventRecord) : EventRow :=
  {| ev_code := er_event_code e; ev_timestamp := er_timestamp e;
     ev_emitter := er_emitted_by_invocation_id e; ev_event := e |}.

(* @src rustvello-sqlite/src/trigger/store.rs 587-615 SqliteTriggerStore::store_event *)
Definition sql_store_event (event : EventRecord) : TrOp unit :=
  modify (upd_events <[er_event_id event := event_row event]>).

(* @src rustvello-sqlite/src/trigger/store.rs 618-638 SqliteTriggerStore::get_event *)
Definition sql_get_event (id : string) : TrOp (option EventRecord) :=
  row ← gets (λ t, ev_event <$> q_events t !! id);
  lift (read_optional row).

(** The [WHERE] of the next query. *)
(* @src rustvello-sqlite/src/trigger/store.rs 645-651 SqliteTriggerStore::get_events *)
Definition event_row_selected (q : EventQuery) (r : EventRow) : bool :=
  is_none_or (eq_event_code q) (λ code, bool_decide (ev_code r = code)) &&
  is_none_or (eq_emitted_by_invocation_id q) (λ id, bool_decide (ev_emitter r = Some id)) &&
  is_none_or (eq_start q) (λ start, start <=? ev_timestamp r) &&
  is_none_or (eq_end q) (λ stop, ev_timestamp r <=? stop).

(* @src rustvello-sqlite/src/trigger/store.rs 660-669 SqliteTriggerStore::get_events *)
Definition events_limit (q : EventQuery) : Z :=
  if bool_decide (is_Some (eq_matched q)) || bool_decide (is_Some (eq_triggered q)) then i64_max
  else Z.min (default 0 (eq_offset q) + default 1000 (eq_limit q)) u64_max.

(* @src rustvello-sqlite/src/trigger/store.rs 640-703 SqliteTriggerStore::get_events *)
Definition sql_get_events (q : EventQuery) : TrOp (list EventRecord) :=
  rows ← gets (λ t, ev_event <$> sql_limit (events_limit q) (sort_by (λ a b, ev_timestamp b <=? ev_timestamp a)
    (bfilter (event_row_selected q) (map_iter (q_events t)).*2)));
  events ← lift (read_rows rows);
  let events := bfilter (λ e, is_none_or (eq_matched q) (λ m, Bool.eqb (is_matched e) m) &&
                              is_none_or (eq_triggered q) (λ b, Bool.eqb (is_triggered e) b)) events in
  let events := match eq_offset q with Some offset => drop (Z.to_nat offset) events | None => events end in
  mret (match eq_limit q with Some limit => truncate limit events | None => events end).

(* @src rustvello-sqlite/src/trigger/store.rs 881-902 SqliteTriggerStore::purge *)
Definition sql_purge_triggers : TrOp unit := modify (λ _, trigger_tables_new).

(** ** The interface *)

Context {JT : JoinText}.

#[export] Instance sqlite_trigger_store_ops : TriggerStoreOps (Connection TriggerTables) :=
  {| ts_register_condition cond := sqlite (sql_register_condition cond);
     ts_get_conditions_for_task task := sqlite (sql_get_conditions_for_task task);
     ts_get_cron_conditions := sqlite sql_get_cron_conditions;
     ts_get_event_conditions code := sqlite (sql_get_event_conditions code);
     ts_register_trigger trigger := sqlite (sql_register_trigger trigger);
     ts_get_triggers_for_condition id := sqlite (sql_get_triggers_for_condition id);
     ts_record_valid_condition vc := sqlite (sql_record_valid_condition vc);
     ts_get_valid_conditions := sqlite sql_get_valid_conditions;
     ts_clear_valid_conditions ids := sqlite (sql_clear_valid_conditions ids);
     ts_get_last_cron_execution id := sqlite (sql_get_last_cron_execution id);
     ts_store_cron_execution id time expected := sqlite (sql_store_cron_execution id time expected);
     ts_claim_trigger_run id := sqlite (sql_claim_trigger_run id);
     ts_store_event event := sqlite (sql_store_event event);
     ts_get_event id := sqlite (sql_get_event id);
     ts_store_trigger_run run := sqlite (sql_store_trigger_run run);
     ts_get_trigger_run id := sqlite (sql_get_trigger_run id);
     ts_get_trigger_runs q := sqlite (sql_get_trigger_runs q);
     ts_purge := sqlite sql_purge_triggers |}.

(** The batch claim is one transaction, and pending runs have a query. *)
(* @src rustvello-sqlite/src/trigger/store.rs 774-776 SqliteTriggerStore::atomic_trigger_claims *)
#[export] Instance sqlite_trigger_store (fp : Failpoints) : TriggerStore (Connection TriggerTables) :=
  {| ts_ops := sqlite_trigger_store_ops;
     ts_claim_trigger_runs_with_records records consumed :=
       sqlite (sql_claim_trigger_runs_with_records fp records consumed);
     ts_get_pending_trigger_runs limit := sqlite (sql_get_pending_trigger_runs limit) |}.
End store.
