(* ===== verification/SqliteTriggerFacts.v ===== *)
(** * The two trigger stores side by side

    The relation between the in-memory store of [MemTrigger] and the tables of
    [SqliteTrigger], on which [SqliteTriggerRefinement] builds: the calls and
    answers of both as data, [represents] between a state and the tables that hold
    the same, the invariant [indexed] of the in-memory indexes, and that each change
    of the two states keeps both. *)
From S2P Require Import Prelude Effects Json Identifiers Status Errors Call Invocation MemStateBackend Trigger MemOrchestratorFacts MemTrigger Ports Routing TriggerManager TriggerFacts SqliteDb SqliteBroker SqliteOrchestrator SqliteState SqliteTrigger.

(** ** Calls and answers *)

(** The calls of the interface. *)
(* @src rustvello-core/src/trigger.rs 58-230 TriggerStore *)
Inductive trigger_call `{JsonValue} :=
| CallRegisterCondition (cond : TriggerCondition)
| CallGetCondition (id : ConditionId)
| CallGetConditionsForTask (task_id : TaskId)
| CallGetCronConditions
| CallGetEventConditions (event_code : string)
| CallGetAllConditions
| CallRegisterTrigger (trigger : TriggerDefinitionDTO)
| CallGetTrigger (id : TriggerDefinitionId)
| CallGetTriggersForCondition (id : ConditionId)
| CallRemoveTriggersForTask (task_id : TaskId)
| CallRecordValidCondition (vc : ValidCondition)
| CallGetValidConditions
| CallClearValidConditions (ids : list string)
| CallGetLastCronExecution (id : ConditionId)
| CallStoreCronExecution (id : ConditionId) (time : DateTime) (expected_last : option DateTime)
| CallClaimTriggerRun (id : TriggerRunId)
| CallClaimBatch (records : list TriggerRunRecord) (consumed : list string)
| CallStoreEvent (event : EventRecord)
| CallGetEvent (id : string)
| CallGetEvents (q : EventQuery)
| CallStoreTriggerRun (run : TriggerRunRecord)
| CallGetTriggerRun (id : TriggerRunId)
| CallGetTriggerRuns (q : TriggerRunQuery)
| CallGetPendingTriggerRuns (limit : Z)
| CallPurge.

Inductive trigger_answer `{JsonValue} :=
| AnswerUnit
| AnswerId (id : ConditionId)
| AnswerBool (b : bool)
| AnswerBools (bs : list bool)
| AnswerCount (n : Z)
| AnswerTime (t : option DateTime)
| AnswerCondition (c : option TriggerCondition)
| AnswerConditions (cs : list (ConditionId * TriggerCondition))
| AnswerTrigger (tr : option TriggerDefinitionDTO)
| AnswerTriggers (trs : list TriggerDefinitionDTO)
| AnswerValid (vcs : list ValidCondition)
| AnswerEvent (e : option EventRecord)
| AnswerEvents (es : list EventRecord)
| AnswerRun (r : option TriggerRunRecord)
| AnswerRuns (rs : list TriggerRunRecord).

(** One result of a run. *)
Definition answer {E S A B} (f : A → B) (m : M E S A) : M E S B := a ← m; mret (f a).

Definition memory_call {J : JsonValue} {SH : Sha256} {HO : HashOrder} (call : trigger_call)
    : M RustvelloError TriggerState trigger_answer :=
  match call with
  | CallRegisterCondition cond => answer AnswerId (mem_register_condition cond)
  | CallGetCondition id => answer AnswerCondition (mem_get_condition id)
  | CallGetConditionsForTask task_id => answer AnswerConditions (mem_get_conditions_for_task task_id)
  | CallGetCronConditions => answer AnswerConditions mem_get_cron_conditions
  | CallGetEventConditions code => answer AnswerConditions (mem_get_event_conditions code)
  | CallGetAllConditions => answer AnswerConditions mem_get_all_conditions
  | CallRegisterTrigger trigger => answer (λ _, AnswerUnit) (mem_register_trigger trigger)
  | CallGetTrigger id => answer AnswerTrigger (mem_get_trigger id)
  | CallGetTriggersForCondition id => answer AnswerTriggers (mem_get_triggers_for_condition id)
  | CallRemoveTriggersForTask task_id => answer AnswerCount (mem_remove_triggers_for_task task_id)
  | CallRecordValidCondition vc => answer (λ _, AnswerUnit) (mem_record_valid_condition vc)
  | CallGetValidConditions => answer AnswerValid mem_get_valid_conditions
  | CallClearValidConditions ids => answer (λ _, AnswerUnit) (mem_clear_valid_conditions ids)
  | CallGetLastCronExecution id => answer AnswerTime (mem_get_last_cron_execution id)
  | CallStoreCronExecution id time expected => answer AnswerBool (mem_store_cron_execution id time expected)
  | CallClaimTriggerRun id => answer AnswerBool (mem_claim_trigger_run id)
  | CallClaimBatch records consumed => answer AnswerBools (mem_claim_trigger_runs_with_records records consumed)
  | CallStoreEvent event => answer (λ _, AnswerUnit) (mem_store_event event)
  | CallGetEvent id => answer AnswerEvent (mem_get_event id)
  | CallGetEvents q => answer AnswerEvents (mem_get_events q)
  | CallStoreTriggerRun run => answer (λ _, AnswerUnit) (mem_store_trigger_run run)
  | CallGetTriggerRun id => answer AnswerRun (mem_get_trigger_run id)
  | CallGetTriggerRuns q => answer AnswerRuns (mem_get_trigger_runs q)
  | CallGetPendingTriggerRuns limit => answer AnswerRuns (default_get_pending_trigger_runs limit)
  | CallPurge => answer (λ _, AnswerUnit) mem_purge_triggers
  end.

(** What runs on the connection. *)
Definition database_call {J : JsonValue} {SH : Sha256} {HO : HashOrder} {JC : JsonColumns} (fp : Failpoints) (call : trigger_call)
    : M RustvelloError TriggerTables trigger_answer :=
  match call with
  | CallRegisterCondition cond => answer AnswerId (sql_register_condition cond)
  | CallGetCondition id => answer AnswerCondition (sql_get_condition id)
  | CallGetConditionsForTask task_id => answer AnswerConditions (sql_get_conditions_for_task task_id)
  | CallGetCronConditions => answer AnswerConditions sql_get_cron_conditions
  | CallGetEventConditions code => answer AnswerConditions (sql_get_event_conditions code)
  | CallGetAllConditions => answer AnswerConditions sql_get_all_conditions
  | CallRegisterTrigger trigger => answer (λ _, AnswerUnit) (sql_register_trigger trigger)
  | CallGetTrigger id => answer AnswerTrigger (sql_get_trigger id)
  | CallGetTriggersForCondition id => answer AnswerTriggers (sql_get_triggers_for_condition id)
  | CallRemoveTriggersForTask task_id => answer AnswerCount (sql_remove_triggers_for_task task_id)
  | CallRecordValidCondition vc => answer (λ _, AnswerUnit) (sql_record_valid_condition vc)
  | CallGetValidConditions => answer AnswerValid sql_get_valid_conditions
  | CallClearValidConditions ids => answer (λ _, AnswerUnit) (sql_clear_valid_conditions ids)
  | CallGetLastCronExecution id => answer AnswerTime (sql_get_last_cron_execution id)
  | CallStoreCronExecution id time expected => answer AnswerBool (sql_store_cron_execution id time expected)
  | CallClaimTriggerRun id => answer AnswerBool (sql_claim_trigger_run id)
  | CallClaimBatch records consumed =>
      answer AnswerBools (sql_claim_trigger_runs_with_records fp records consumed)
  | CallStoreEvent event => answer (λ _, AnswerUnit) (sql_store_event event)
  | CallGetEvent id => answer AnswerEvent (sql_get_event id)
  | CallGetEvents q => answer AnswerEvents (sql_get_events q)
  | CallStoreTriggerRun run => answer (λ _, AnswerUnit) (sql_store_trigger_run run)
  | CallGetTriggerRun id => answer AnswerRun (sql_get_trigger_run id)
  | CallGetTriggerRuns q => answer AnswerRuns (sql_get_trigger_runs q)
  | CallGetPendingTriggerRuns limit => answer AnswerRuns (sql_get_pending_trigger_runs limit)
  | CallPurge => answer (λ _, AnswerUnit) sql_purge_triggers
  end.

(** ** The relation *)

(** The same page of two orderings of the same records. *)
Definition same_page {A} (R : relation A) (l1 l2 : list A) : Prop :=
  ∃ f1 f2 skip n, f1 ≡ₚ f2 ∧ Sorted R f1 ∧ Sorted R f2 ∧ l1 = take n (drop skip f1) ∧ l2 = take n (drop skip f2).

Section refinement.
Context {J : JsonValue} {SH : Sha256} {JC : JsonColumns}.
Implicit Types (s : TriggerState) (t : TriggerTables) (tr : TriggerDefinitionDTO).

(** The database keeps no order of a trigger's conditions. *)
Record same_trigger tr tr' : Prop := {
  st_id : td_trigger_id tr = td_trigger_id tr';
  st_task : td_task_id tr = td_task_id tr';
  st_conditions : td_condition_ids tr ≡ₚ td_condition_ids tr';
  st_logic : td_logic tr = td_logic tr';
  st_template : td_argument_template tr = td_argument_template tr'
}.

Definition event_newer (a b : EventRecord) : Prop := er_timestamp b ≤ er_timestamp a.
Definition run_newer (a b : TriggerRunRecord) : Prop := tr_claimed_at b ≤ tr_claimed_at a.
Definition run_older (a b : TriggerRunRecord) : Prop := tr_claimed_at a ≤ tr_claimed_at b.

Definition same_answer (call : trigger_call) (a b : trigger_answer) : Prop :=
  match a, b with
  | AnswerConditions l, AnswerConditions l' => l ≡ₚ l'
  | AnswerTrigger o, AnswerTrigger o' => option_Forall2 same_trigger o o'
  | AnswerTriggers l, AnswerTriggers l' => ∃ l1, l ≡ₚ l1 ∧ Forall2 same_trigger l1 l'
  | AnswerValid l, AnswerValid l' => l ≡ₚ l'
  | AnswerEvents l, AnswerEvents l' => same_page event_newer l l'
  | AnswerRuns l, AnswerRuns l' =>
      match call with CallGetPendingTriggerRuns _ => same_page run_older l l' | _ => same_page run_newer l l' end
  | _, _ => a = b
  end.

(** What the engine guarantees of a call: task ids are valid and the conditions of
    a definition distinct; the id of a definition, a digest, determines its
    conditions; a query has a limit, or filters that the database does not apply;
    fewer than 2^63 rows are stored.  What is stored in a JSON column is a value that
    [serde_json] reads back as it is. *)
Definition reads_back `{JsonColumn A} (a : A) : Prop := from_column a = Ok a.
Definition template_reads_back tr : Prop := ∀ x, td_argument_template tr = Some x → reads_back x.

Definition admissible (call : trigger_call) s : Prop :=
  match call with
  | CallRegisterCondition cond => reads_back cond
  | CallRegisterTrigger tr => task_id_valid (td_task_id tr) ∧ NoDup (td_condition_ids tr) ∧
      (∀ old, t_triggers s !! td_trigger_id tr = Some old → td_condition_ids tr ≡ₚ td_condition_ids old) ∧
      template_reads_back tr
  | CallRecordValidCondition vc => reads_back (vc_context vc)
  | CallStoreEvent e => reads_back e
  | CallStoreTriggerRun run => reads_back run
  | CallClaimBatch records _ => Forall reads_back records
  | CallGetEvents q =>
      (is_Some (eq_limit q) ∨ is_Some (eq_matched q) ∨ is_Some (eq_triggered q)) ∧
      0 ≤ default 0 (eq_limit q) ∧ 0 ≤ default 0 (eq_offset q) ∧ Z.of_nat (size (t_events s)) ≤ i64_max
  | CallGetTriggerRuns q => is_Some (tq_limit q) ∧ Z.of_nat (size (t_trigger_runs s)) ≤ i64_max
  | CallGetPendingTriggerRuns _ => Z.of_nat (size (t_trigger_runs s)) ≤ i64_max
  | _ => True
  end.

(** The tables [t] hold what the maps and indexes of [s] hold. *)
Record represents s t : Prop := {
  rp_conditions : q_conditions t = condition_row <$> t_conditions s;
  rp_source_tasks task id : (task, id) ∈ q_source_tasks t ↔ id ∈ ids_at (t_source_task_conditions s) task;
  rp_triggers : q_triggers t = trigger_row <$> t_triggers s;
  rp_links cid id : (cid, id) ∈ q_links t ↔ ∃ tr, t_triggers s !! id = Some tr ∧ cid ∈ td_condition_ids tr;
  rp_valid : q_valid t = valid_row <$> t_valid_conditions s;
  rp_crons : q_crons t = t_cron_executions s;
  rp_claims id : is_Some (q_claims t !! id) ↔ is_Some (t_trigger_run_claims s !! id);
  rp_events : q_events t = event_row <$> t_events s;
  rp_runs : q_runs t = run_row <$> t_trigger_runs s;
  rp_run_events id e : (id, e) ∈ q_run_events t ↔ ∃ r, t_trigger_runs s !! id = Some r ∧ e ∈ event_ids r;
  rp_run_sources id i :
    (id, i) ∈ q_run_sources t ↔ ∃ r, t_trigger_runs s !! id = Some r ∧ i ∈ source_invocation_ids r
}.

(** The indexes of the in-memory store, without repetitions, hold what they index. *)
Record indexed s : Prop := {
  ix_conditions id cond : t_conditions s !! id = Some cond → condition_id cond = id;
  ix_tasks task : NoDup (ids_at (t_source_task_conditions s) task);
  ix_events code id : id ∈ ids_at (t_event_conditions s) code ↔
    ∃ c, t_conditions s !! id = Some (CondEvent c) ∧ evn_event_code c = code;
  ix_events_once code : NoDup (ids_at (t_event_conditions s) code);
  ix_crons id : id ∈ t_cron_condition_ids s ↔ ∃ c, t_conditions s !! id = Some (CondCron c);
  ix_crons_once : NoDup (t_cron_condition_ids s);
  ix_triggers id tr : t_triggers s !! id = Some tr →
    td_trigger_id tr = id ∧ task_id_valid (td_task_id tr) ∧ NoDup (td_condition_ids tr);
  ix_links cid id : id ∈ ids_at (t_condition_triggers s) cid ↔
    ∃ tr, t_triggers s !! id = Some tr ∧ cid ∈ td_condition_ids tr;
  ix_links_once cid : NoDup (ids_at (t_condition_triggers s) cid);
  ix_valid id vc : t_valid_conditions s !! id = Some vc → vc_valid_condition_id vc = id
}.

(** What is stored reads back. *)
Record readable s : Prop := {
  rd_conditions id cond : t_conditions s !! id = Some cond → reads_back cond;
  rd_triggers id tr : t_triggers s !! id = Some tr → template_reads_back tr;
  rd_valid id vc : t_valid_conditions s !! id = Some vc → reads_back (vc_context vc);
  rd_events id e : t_events s !! id = Some e → reads_back e;
  rd_runs id r : t_trigger_runs s !! id = Some r → reads_back r
}.

Lemma read_column_back `{JsonColumn A} (a : A) : reads_back a → read_column a = Ok a.
Proof. unfold read_column. by intros ->. Qed.

Lemma read_optional_back `{JsonColumn A} (o : option A) :
  (∀ a, o = Some a → reads_back a) → read_optional o = Ok o.
Proof. destruct o as [a|]; [|done]. intros Ha. simpl. by rewrite read_column_back by auto. Qed.

Lemma read_rows_back `{JsonColumn A} (l : list A) : (∀ a, a ∈ l → reads_back a) → read_rows l = Ok l.
Proof.
  induction l as [|a l IH]; intros Hl; [done|]. unfold read_rows in *. cbn [mapM].
  rewrite read_column_back by (apply Hl; by left). simpl. rewrite IH; [done|]. intros x Hx. apply Hl. by right.
Qed.

Lemma read_keyed_back `{JsonColumn A} {K} (l : list (K * A)) :
  (∀ k a, (k, a) ∈ l → reads_back a) → read_keyed l = Ok l.
Proof.
  induction l as [|[k a] l IH]; intros Hl; [done|]. unfold read_keyed in *. cbn [mapM]. simpl.
  rewrite read_column_back by (apply (Hl k); by left). simpl. rewrite IH; [done|]. intros j x Hx. apply (Hl j). by right.
Qed.
End refinement.

(** ** Runs of loops of statements *)

Lemma statements_each {A D} (body : A → TxOn D unit) (f : A → D → D) l c (t : Transaction D) :
  (∀ x c t, body x c t = (Ok tt, c, mkTx (tx_committed t) (f x (tx_working t)))) →
  for_each body l c t = (Ok tt, c, mkTx (tx_committed t) (fold_left (λ d x, f x d) l (tx_working t))).
Proof.
  intros Hbody. revert t. induction l as [|x l IH]; intros [d w]; [done|]. cbn [for_each].
  unfold mbind, M_bind. rewrite Hbody. apply IH.
Qed.

Lemma execute_each {A D} (f : A → D → D) l c (t : Transaction D) :
  for_each (λ x, execute (f x)) l c t =
    (Ok tt, c, mkTx (tx_committed t) (fold_left (λ d x, f x d) l (tx_working t))).
Proof. by apply statements_each. Qed.

Lemma modify_each {A D} (f : A → D → D) l c (d : D) :
  for_each (E := RustvelloError) (λ x, modify (f x)) l c d = (Ok tt, c, fold_left (λ d x, f x d) l d).
Proof.
  revert d. induction l as [|x l IH]; intros d; [done|]. cbn [for_each]. unfold mbind, M_bind. simpl. apply IH.
Qed.

(** Inserting keys one by one into a table of the state. *)
Lemma fold_insert_keys {A D} `{Countable K} (table : D → gset K) (upd : (gset K → gset K) → D → D)
    (key : A → K) l d :
  (∀ f g d, f (table d) = g (table d) → upd f d = upd g d) →
  (∀ f g d, upd f (upd g d) = upd (λ X, f (g X)) d) → (∀ d, upd (λ X, X) d = d) →
  fold_left (λ d x, upd (union {[key x]}) d) l d = upd (union (list_to_set (key <$> l))) d.
Proof.
  intros Hext Hcomp Hid. revert d. induction l as [|x l IH]; intros d; simpl.
  - rewrite <-(Hid d) at 1. apply Hext. set_solver.
  - rewrite IH, Hcomp. apply Hext. set_solver.
Qed.

(** ** Rows and records *)

(** The rows of a table that holds images under [f], in any order. *)
Lemma rows_of `{Countable K} {V W} (O1 O2 : HashOrder) (f : V → W) (m : gmap K V) :
  ∃ l, @map_iter O2 K _ _ W (f <$> m) = (λ p : K * V, (p.1, f p.2)) <$> l ∧ l ≡ₚ @map_iter O1 K _ _ V m.
Proof.
  assert (@map_iter O2 K _ _ W (f <$> m) ≡ₚ (λ p : K * V, (p.1, f p.2)) <$> @map_iter O1 K _ _ V m) as Hp.
  { unfold map_iter. rewrite !hash_order_perm. rewrite map_to_list_fmap. apply fmap_Permutation.
    apply reflexivity. }
  apply Permutation_map_inv in Hp as (l & Hl & Hp). exists l. by split.
Qed.

Lemma bfilter_fmap {A B} (f : A → B) (p : B → bool) l : bfilter p (f <$> l) = f <$> bfilter (λ x, p (f x)) l.
Proof.
  unfold bfilter. induction l as [|x l IH]; [done|]. rewrite fmap_cons. cbn [List.filter]. rewrite IH.
  by destruct (p (f x)).
Qed.

Lemma bfilter_ext {A} (p q : A → bool) l : (∀ x, x ∈ l → p x = q x) → bfilter p l = bfilter q l.
Proof.
  unfold bfilter. induction l as [|x l IH]; simpl; intros Hpq; [done|].
  rewrite (Hpq x) by (by left). rewrite IH; [done|]. intros y Hy. apply Hpq. by right.
Qed.

Lemma bfilter_true {A} (l : list A) : bfilter (λ _, true) l = l.
Proof. unfold bfilter. induction l as [|x l IH]; simpl; by rewrite ?IH. Qed.

Lemma insert_by_fmap {A B} (f : A → B) leb x l :
  insert_by leb (f x) (f <$> l) = f <$> insert_by (λ a b, leb (f a) (f b)) x l.
Proof.
  induction l as [|y l IH]; [done|]. rewrite fmap_cons. cbn [insert_by]. rewrite IH.
  by destruct (leb (f x) (f y)).
Qed.

Lemma sort_by_fmap {A B} (f : A → B) leb l : sort_by leb (f <$> l) = f <$> sort_by (λ a b, leb (f a) (f b)) l.
Proof. induction l as [|x l IH]; [done|]. rewrite fmap_cons. cbn [sort_by]. by rewrite IH, insert_by_fmap. Qed.

Lemma sql_limit_all {A} n (l : list A) : Z.of_nat (length l) ≤ n → Z.of_nat (length l) ≤ i64_max → sql_limit n l = l.
Proof.
  intros Hn Hl. unfold sql_limit. rewrite truncate_to_nat, take_ge; [done|].
  unfold i64_saturating_of_u64. destruct (Z.leb_spec n i64_max); lia.
Qed.

Lemma sql_limit_take {A} n (l : list A) :
  Z.of_nat (length l) ≤ i64_max → sql_limit n l = take (Z.to_nat n) l.
Proof.
  intros Hl. unfold sql_limit. rewrite truncate_to_nat. unfold i64_saturating_of_u64.
  destruct (Z.leb_spec n i64_max); [done|]. rewrite !take_ge; [done|lia|lia].
Qed.

(** Sorting by a time. *)
Lemma sort_by_time_sorted {A} (leb : A → A → bool) (R : relation A) l :
  (∀ a b, leb a b = true ↔ R a b) → Total R → Sorted R (sort_by leb l).
Proof.
  intros Hle Htot. eapply Sorted_ind with (P := Sorted R); [constructor| |].
  - intros x l' _ Hl' Hx. constructor; [done|]. inversion Hx as [|y l2 Hxy]; constructor.
    exact (proj1 (Hle x y) Hxy).
  - apply sort_by_sorted. intros a b. unfold le_of. rewrite !Hle. apply Htot.
Qed.

Lemma Sorted_bfilter {A} (R : relation A) `{!Transitive R} (p : A → bool) l : Sorted R l → Sorted R (bfilter p l).
Proof. intros Hl. apply StronglySorted_Sorted, StronglySorted_filter. by apply Sorted_StronglySorted. Qed.

(** ** Indexes of the in-memory store *)

Lemma NoDup_push id l : NoDup l → NoDup (push_once id l).
Proof.
  unfold push_once. case_bool_decide; [done|]. intros Hl. apply list.NoDup_app.
  split_and!; [done| |apply NoDup_singleton]. set_solver.
Qed.

Lemma NoDup_index_once key id index k : NoDup (ids_at index k) → NoDup (ids_at (index_once key id index) k).
Proof.
  unfold index_once, ids_at at 2. intros Hn. destruct (decide (k = key)) as [->|Hk].
  - rewrite lookup_insert_eq. by apply NoDup_push.
  - by rewrite lookup_insert_ne.
Qed.

Lemma NoDup_index_all {A} (key : A → string) id l index k :
  NoDup (ids_at index k) → NoDup (ids_at (fold_left (λ index x, index_once (key x) id index) l index) k).
Proof. revert index. induction l as [|x l IH]; intros index Hn; simpl; [done|]. by apply IH, NoDup_index_once. Qed.

Lemma unindex_at id cid index k :
  ids_at (unindex id index cid) k =
    if decide (k = cid) then bfilter (λ i, negb (bool_decide (i = id))) (ids_at index k) else ids_at index k.
Proof.
  unfold unindex, ids_at. destruct (index !! cid) as [l|] eqn:Hc; case_decide as Hk; try subst k.
  - by rewrite lookup_insert_eq, Hc.
  - by rewrite lookup_insert_ne.
  - by rewrite Hc.
  - done.
Qed.

Lemma unindex_all id cids index k :
  ids_at (fold_left (unindex id) cids index) k =
    if decide (k ∈ cids) then bfilter (λ i, negb (bool_decide (i = id))) (ids_at index k) else ids_at index k.
Proof.
  revert index. induction cids as [|cid cids IH]; intros index; cbn [fold_left].
  { by rewrite decide_False by (by intros ?%elem_of_nil). }
  rewrite IH, unindex_at.
  assert (∀ l, bfilter (λ i, negb (bool_decide (i = id))) (bfilter (λ i, negb (bool_decide (i = id))) l) =
    bfilter (λ i, negb (bool_decide (i = id))) l) as Hidem.
  { intros l. rewrite (bfilter_ext _ (λ _, true)), bfilter_true; [done|]. by intros x [? _]%elem_of_bfilter. }
  destruct (decide (k = cid)) as [Hk|Hk], (decide (k ∈ cids)) as [Hin|Hin]; case_decide; try set_solver.
  all: by rewrite ?Hidem.
Qed.

Lemma hex_digit_plain n : 0 ≤ n < 16 → hex_digit n ≠ "#"%char.
Proof.
  intros Hn. assert (n ∈ seqZ 0 16) as Hin by (apply elem_of_seqZ; lia). clear Hn.
  repeat (apply elem_of_cons in Hin as [->|Hin]; [by vm_compute|]). by apply elem_of_nil in Hin.
Qed.

Lemma hex_plain bytes : Forall (λ b, 0 ≤ b < 256) bytes → str_contains_char "#" (lower_hex bytes) = false.
Proof.
  induction 1 as [|b bytes Hb _ IH]; [done|]. cbn [lower_hex str_contains_char]. rewrite IH.
  rewrite !bool_decide_false; [done|apply hex_digit_plain|apply hex_digit_plain].
  - by apply Z.mod_pos_bound.
  - split; [apply Z.div_pos; lia|apply Z.div_lt_upper_bound; lia].
Qed.

(** The id of an event condition tells its event code. *)
Lemma condition_id_event_code `{JsonValue} `{Sha256} c c' :
  condition_id (CondEvent c) = condition_id (CondEvent c') → evn_event_code c = evn_event_code c'.
Proof.
  assert (∀ f, str_contains_char "#" (argument_filter_id f) = false) as Hplain.
  { intros [f|]; [|done]. unfold argument_filter_id. case_bool_decide; [done|].
    cbn [String.append str_contains_char]. apply hex_plain, sha256_bytes. }
  assert (∀ c, str_rsplit "#" (condition_id (CondEvent c)) =
    Some ("event#" +:+ evn_event_code c, argument_filter_id (evn_payload_filter c))) as Hsplit.
  { intros x. rewrite <-(str_rsplit_app "#" _ _ (Hplain _)). f_equal. }
  intros He. apply (f_equal (str_rsplit "#")) in He. rewrite !Hsplit in He. injection He as He _. done.
Qed.

(** ** Steps of the two states *)

Section steps.
Context {J : JsonValue} {SH : Sha256} {JC : JsonColumns}.
Implicit Types (s : TriggerState) (t : TriggerTables).

Lemma represents_new : represents trigger_store_new trigger_tables_new.
Proof.
  split; simpl; intros; rewrite ?fmap_empty, ?lookup_empty; try done.
  - split; [set_solver|]. unfold ids_at. rewrite lookup_empty. by intros ?%elem_of_nil.
  - split; [set_solver|]. by intros (tr & ? & _).
  - split; [set_solver|]. by intros (r & ? & _).
  - split; [set_solver|]. by intros (r & ? & _).
Qed.

Lemma readable_new : readable trigger_store_new.
Proof. split; simpl; intros id x; by rewrite lookup_empty. Qed.

Lemma indexed_new : indexed trigger_store_new.
Proof.
  split; simpl; try done; unfold ids_at; intros; rewrite ?lookup_empty in *; simpl; try constructor.
  - by intros ?%elem_of_nil.
  - by intros (c & ? & _).
  - by intros ?%elem_of_nil.
  - by intros (c & ?).
  - by intros ?%elem_of_nil.
  - by intros (tr & ? & _).
Qed.

(** *** Conditions *)

Definition condition_rows (cond : TriggerCondition) t : TriggerTables :=
  upd_source_tasks (union (list_to_set ((λ task, (task_id_display task, condition_id cond)) <$> source_task_ids cond)))
    (upd_conditions <[condition_id cond := condition_row cond]> t).

Lemma sql_register_condition_run cond c t :
  sql_register_condition cond c t = (Ok (condition_id cond), c, condition_rows cond t).
Proof.
  unfold sql_register_condition, in_transaction, condition_rows. unfold mbind, M_bind. simpl.
  rewrite execute_each. simpl.
  rewrite (fold_insert_keys q_source_tasks upd_source_tasks
    (λ task, (task_id_display task, condition_id cond))); [done| |done|by intros []].
  intros f g d Hfg. unfold upd_source_tasks. by rewrite Hfg.
Qed.

Lemma represents_condition cond s t :
  represents s t → represents (condition_registered cond s) (condition_rows cond t).
Proof.
  intros [Hc Hs Ht Hl Hv Hcr Hcl He Hr Hre Hrs]. split; try done; simpl.
  - by rewrite fmap_insert, Hc.
  - intros task id. rewrite elem_of_union, elem_of_list_to_set, (elem_of_index_all task_id_display), <-Hs.
    rewrite !list_elem_of_fmap. split; [intros [(x & [= -> ->] & Hx)|?]; [left|by right]|].
    + split; [by exists x|done].
    + intros [[(x & -> & Hx) ->]|?]; [left; by exists x|by right].
Qed.

(** What an index holds after a condition was indexed under its key. *)
Lemma indexed_condition cond s : indexed s → indexed (condition_registered cond s).
Proof.
  intros [Hc Ht He Heo Hcr Hcro Htr Hl Hlo Hv]. set (id := condition_id cond).
  assert (∀ i, <[id := cond]> (t_conditions s) !! i = if decide (i = id) then Some cond else t_conditions s !! i)
    as Hlook.
  { intros i. case_decide as Hi; [by rewrite Hi, lookup_insert_eq|by rewrite lookup_insert_ne]. }
  split; try done; simpl; fold id; try setoid_rewrite Hlook.
  - intros i x. case_decide as Hi; [by intros [= <-]|apply Hc].
  - intros task. by apply NoDup_index_all.
  - intros code i.
    assert (i = id → (∃ c, t_conditions s !! i = Some (CondEvent c) ∧ evn_event_code c = code) →
      ∃ c, cond = CondEvent c ∧ evn_event_code c = code) as Hsame.
    { intros -> (c & Hi & Hcode). apply Hc in Hi. destruct (condition_id_event cond c (eq_sym Hi)) as [c' ->].
      exists c'. split; [done|]. rewrite <-Hcode. symmetry. by apply condition_id_event_code. }
    destruct (decide (i = id)) as [Hi|Hi].
    + transitivity (∃ c, cond = CondEvent c ∧ evn_event_code c = code); [|split; intros (c & Hx & Hcode)].
      * destruct cond as [?|?|c0|?|?|? ?]; rewrite ?elem_of_index_once, He.
        3:{ split; [intros [[-> _]|Hx]; [eauto|by apply Hsame]|]. intros (c & [= ->] & <-). by left. }
        all: split; [by apply Hsame|intros (y & ? & _); done].
      * exists c. by rewrite Hx.
      * injection Hx as Hx. by exists c.
    + rewrite <-He. destruct cond; try done. rewrite elem_of_index_once. naive_solver.
  - intros code. destruct cond; try done. by apply NoDup_index_once.
  - intros i.
    assert (i = id → (∃ c, t_conditions s !! i = Some (CondCron c)) → ∃ c, cond = CondCron c) as Hsame.
    { intros -> (c & Hi). apply Hc in Hi. by apply (condition_id_cron cond c). }
    destruct (decide (i = id)) as [Hi|Hi].
    + transitivity (∃ c, cond = CondCron c); [|split; intros (c & Hx)].
      * destruct cond as [c0|?|?|?|?|? ?]; rewrite ?elem_of_pushed_id, Hcr.
        1:{ split; [by eauto|]. by left. }
        all: split; [by apply Hsame|intros (y & ?); done].
      * exists c. by rewrite Hx.
      * injection Hx as Hx. by exists c.
    + rewrite <-Hcr. destruct cond; try done. rewrite elem_of_pushed_id. naive_solver.
  - destruct cond; try done. by apply NoDup_push.
Qed.

(** *** Trigger definitions *)

Definition trigger_registered tr s : TriggerState :=
  set_triggers (<[td_trigger_id tr := tr]> (t_triggers s))
    (fold_left (λ index cid, index_once cid (td_trigger_id tr) index) (td_condition_ids tr)
       (t_condition_triggers s)) s.

Definition trigger_rows tr t : TriggerTables :=
  upd_links (union (list_to_set ((λ cid, (cid, td_trigger_id tr)) <$> td_condition_ids tr)))
    (upd_triggers <[td_trigger_id tr := trigger_row tr]> t).

Lemma sql_register_trigger_run tr c t : sql_register_trigger tr c t = (Ok tt, c, trigger_rows tr t).
Proof.
  unfold sql_register_trigger, in_transaction, trigger_rows. unfold mbind, M_bind. simpl.
  rewrite execute_each. simpl.
  rewrite (fold_insert_keys q_links upd_links (λ cid, (cid, td_trigger_id tr))); [done| |done|by intros []].
  intros f g d Hfg. unfold upd_links. by rewrite Hfg.
Qed.

(** The links of a definition are those of its conditions, old and new alike. *)
Lemma links_registered tr s cid id :
  (∀ old, t_triggers s !! td_trigger_id tr = Some old → td_condition_ids tr ≡ₚ td_condition_ids old) →
  (∃ x, <[td_trigger_id tr := tr]> (t_triggers s) !! id = Some x ∧ cid ∈ td_condition_ids x) ↔
  (id = td_trigger_id tr ∧ cid ∈ td_condition_ids tr) ∨
  (∃ x, t_triggers s !! id = Some x ∧ cid ∈ td_condition_ids x).
Proof.
  intros Hold. destruct (decide (id = td_trigger_id tr)) as [->|Hid].
  - setoid_rewrite lookup_insert_eq. split; [intros (x & [= <-] & ?); by left|].
    intros [[_ ?]|(x & Hx & ?)]; exists tr; (split; [done|]); [done|]. by rewrite (Hold x Hx).
  - setoid_rewrite lookup_insert_ne; [|done..]. naive_solver.
Qed.

Lemma represents_trigger tr s t :
  admissible (CallRegisterTrigger tr) s → represents s t →
  represents (trigger_registered tr s) (trigger_rows tr t).
Proof.
  intros (_ & _ & Hold & _) [Hc Hs Ht Hl Hv Hcr Hcl He Hr Hre Hrs]. split; try done; simpl.
  - by rewrite fmap_insert, Ht.
  - intros cid id. rewrite (links_registered tr s cid id Hold), elem_of_union, elem_of_list_to_set, <-Hl.
    rewrite list_elem_of_fmap. naive_solver.
Qed.

Lemma indexed_trigger tr s :
  admissible (CallRegisterTrigger tr) s → indexed s → indexed (trigger_registered tr s).
Proof.
  intros (Hvalid & Hnd & Hold & _) [Hc Ht He Heo Hcr Hcro Htr Hl Hlo Hv]. split; try done; simpl.
  - intros id x. destruct (decide (id = td_trigger_id tr)) as [->|Hid].
    + rewrite lookup_insert_eq. by intros [= <-].
    + rewrite lookup_insert_ne by done. apply Htr.
  - intros cid id. rewrite (links_registered tr s cid id Hold), (elem_of_index_all (λ cid, cid)), Hl.
    rewrite list_fmap_id. tauto.
  - intros cid. by apply (NoDup_index_all (λ cid, cid)).
Qed.

(** Removing one definition. *)
Definition trigger_forgotten t (id : TriggerDefinitionId) : TriggerTables :=
  upd_triggers (delete id) (upd_links (forget_second id) t).

Lemma represents_removed id s t :
  represents s t → represents (trigger_removed s id) (trigger_forgotten t id).
Proof.
  intros [Hc Hs Ht Hl Hv Hcr Hcl He Hr Hre Hrs].
  assert (∀ x, (∃ tr, delete id (t_triggers s) !! x.2 = Some tr ∧ x.1 ∈ td_condition_ids tr) ↔
    x ∈ forget_second id (q_links t)) as Hlinks.
  { intros [cid i]. unfold forget_second. rewrite elem_of_filter, Hl. simpl.
    destruct (decide (i = id)) as [->|Hi].
    - rewrite lookup_delete_eq. naive_solver.
    - rewrite lookup_delete_ne by done. naive_solver. }
  unfold trigger_removed. destruct (t_triggers s !! id) as [tr|] eqn:Hid.
  - split; try done; simpl.
    + by rewrite fmap_delete, Ht.
    + intros cid i. by rewrite <-(Hlinks (cid, i)).
  - assert (delete id (t_triggers s) = t_triggers s) as Hsame by by apply delete_id.
    split; try done; simpl.
    + rewrite Ht. rewrite <-Hsame at 2. by rewrite fmap_delete.
    + intros cid i. rewrite <-(Hlinks (cid, i)), Hsame. done.
Qed.

Lemma indexed_removed id s : indexed s → indexed (trigger_removed s id).
Proof.
  intros Hix. unfold trigger_removed. destruct (t_triggers s !! id) as [tr|] eqn:Hid; [|done].
  destruct Hix as [Hc Ht He Heo Hcr Hcro Htr Hl Hlo Hv]. split; try done; simpl.
  - intros i x [_ Hx]%lookup_delete_Some. by apply Htr.
  - intros cid i. rewrite unindex_all.
    transitivity (i ≠ id ∧ i ∈ ids_at (t_condition_triggers s) cid).
    + case_decide as Hcid.
      * rewrite elem_of_bfilter, negb_true_iff, bool_decide_eq_false. done.
      * split; [|tauto]. intros Hi. split; [|done]. intros ->. apply Hl in Hi as (x & Hx & Hin).
        destruct Hcid. congruence.
    + rewrite Hl. destruct (decide (i = id)) as [->|Hi].
      * rewrite lookup_delete_eq. naive_solver.
      * rewrite lookup_delete_ne by done. naive_solver.
  - intros cid. rewrite unindex_all. case_decide; [|done]. by apply NoDup_bfilter.
Qed.

Lemma removed_all ids s t :
  indexed s → represents s t →
  indexed (fold_left trigger_removed ids s) ∧
  represents (fold_left trigger_removed ids s) (fold_left trigger_forgotten ids t).
Proof.
  revert s t. induction ids as [|id ids IH]; intros s t Hix Hr; [done|].
  apply IH; [by apply indexed_removed|by apply represents_removed].
Qed.

(** The order of the deletions does not matter. *)
Lemma forgotten_perm ids ids' t :
  ids ≡ₚ ids' → fold_left trigger_forgotten ids t = fold_left trigger_forgotten ids' t.
Proof.
  intros Hp. revert t. induction Hp as [|x l l' _ IH|x y l|l1 l2 l3 _ IH1 _ IH2]; intros t; simpl.
  - done.
  - apply IH.
  - f_equal. unfold trigger_forgotten, upd_links, upd_triggers. simpl. f_equal; [apply delete_delete|].
    unfold forget_second. set_solver.
  - by rewrite IH1.
Qed.

Lemma sql_remove_triggers_run {O : HashOrder} task c t :
  ∃ ids, ids ≡ₚ (bfilter (λ p : TriggerDefinitionId * TriggerRow,
      bool_decide (tg_task_id p.2 = task_id_display task)) (map_iter (q_triggers t))).*1 ∧
    sql_remove_triggers_for_task task c t =
      (Ok (Z.min (Z.of_nat (length ids)) u32_max), c, fold_left trigger_forgotten ids t).
Proof.
  eexists. split; [reflexivity|]. unfold sql_remove_triggers_for_task, in_transaction, query, gets.
  unfold mbind, M_bind. simpl. rewrite (statements_each _ (λ id t, trigger_forgotten t id)) by done. done.
Qed.

(** *** Valid conditions, cron executions and events *)

Lemma clear_rows ids (m : gmap string ValidCondition) : clear_ids ids (valid_row <$> m) = valid_row <$> clear_ids ids m.
Proof.
  unfold clear_ids. revert m. induction ids as [|id ids IH]; intros m; [done|]. cbn [fold_left].
  by rewrite <-fmap_delete, IH.
Qed.

Lemma delete_valid_each ids t :
  fold_left (λ t id, upd_valid (delete id) t) ids t = upd_valid (clear_ids ids) t.
Proof. revert t. induction ids as [|id ids IH]; intros t; [by destruct t|]. cbn [fold_left]. by rewrite IH. Qed.

Lemma represents_valid f g s t :
  g (valid_row <$> t_valid_conditions s) = valid_row <$> f (t_valid_conditions s) →
  represents s t → represents (set_valid f s) (upd_valid g t).
Proof. intros Hfg [Hc Hs Ht Hl Hv Hcr Hcl He Hr Hre Hrs]. split; try done. simpl. by rewrite Hv. Qed.

Lemma indexed_valid f s :
  (∀ id vc, f (t_valid_conditions s) !! id = Some vc → vc_valid_condition_id vc = id) →
  indexed s → indexed (set_valid f s).
Proof. intros Hf [Hc Ht He Heo Hcr Hcro Htr Hl Hlo Hv]. by split. Qed.

Lemma represents_crons f s t :
  represents s t → represents (set_cron_executions f s) (upd_crons f t).
Proof. intros [Hc Hs Ht Hl Hv Hcr Hcl He Hr Hre Hrs]. split; try done. simpl. by rewrite Hcr. Qed.

Lemma indexed_crons f s : indexed s → indexed (set_cron_executions f s).
Proof. intros [Hc Ht He Heo Hcr Hcro Htr Hl Hlo Hv]. by split. Qed.

Lemma represents_event e s t :
  represents s t →
  represents (set_events <[er_event_id e := e]> s) (upd_events <[er_event_id e := event_row e]> t).
Proof.
  intros [Hc Hs Ht Hl Hv Hcr Hcl He Hr Hre Hrs]. split; try done. simpl. by rewrite fmap_insert, He.
Qed.

Lemma indexed_event f s : indexed s → indexed (set_events f s).
Proof. intros [Hc Ht He Heo Hcr Hcro Htr Hl Hlo Hv]. by split. Qed.

(** *** Runs *)

Lemma indexed_runs cl rs s : indexed s → indexed (set_runs cl rs s).
Proof. intros [Hc Ht He Heo Hcr Hcro Htr Hl Hlo Hv]. by split. Qed.

(** A run record with its lookup rows. *)
Definition run_rows (run : TriggerRunRecord) t : TriggerTables :=
  let id := tr_trigger_run_id run in
  upd_run_sources (λ X, list_to_set ((λ i, (id, i)) <$> source_invocation_ids run) ∪ forget_first id X)
    (upd_run_events (λ X, list_to_set ((λ e, (id, e)) <$> event_ids run) ∪ forget_first id X)
      (upd_runs <[id := run_row run]> t)).

Lemma write_trigger_run_run run c (t : Transaction TriggerTables) :
  write_trigger_run run c t = (Ok tt, c, mkTx (tx_committed t) (run_rows run (tx_working t))).
Proof.
  unfold write_trigger_run. unfold mbind, M_bind. simpl. rewrite !execute_each. simpl.
  rewrite (fold_insert_keys q_run_events upd_run_events (λ e, (tr_trigger_run_id run, e)));
    [|intros f g d Hfg; unfold upd_run_events; by rewrite Hfg|done|by intros []].
  rewrite (fold_insert_keys q_run_sources upd_run_sources (λ i, (tr_trigger_run_id run, i)));
    [done|intros f g d Hfg; unfold upd_run_sources; by rewrite Hfg|done|by intros []].
Qed.

(** The lookup rows of a run, among those of the others. *)
Lemma lookup_rows `{Countable L} (id : string) (refs : TriggerRunRecord → list L) (run : TriggerRunRecord)
    (runs : gmap string TriggerRunRecord) (X : gset (string * L)) k x :
  (∀ k x, (k, x) ∈ X ↔ ∃ r, runs !! k = Some r ∧ x ∈ refs r) →
  (k, x) ∈ (list_to_set ((λ i, (id, i)) <$> refs run) : gset (string * L)) ∪ forget_first id X ↔
  ∃ r, <[id := run]> runs !! k = Some r ∧ x ∈ refs r.
Proof.
  intros HX. unfold forget_first. rewrite elem_of_union, elem_of_list_to_set, elem_of_filter, HX, list_elem_of_fmap.
  simpl. destruct (decide (k = id)) as [->|Hk].
  - rewrite lookup_insert_eq. naive_solver.
  - rewrite lookup_insert_ne by done. naive_solver.
Qed.

Lemma represents_run cl cl' run s t :
  (∀ id, is_Some (cl' !! id) ↔ is_Some (cl !! id)) → represents s t →
  represents (set_runs cl (<[tr_trigger_run_id run := run]> (t_trigger_runs s)) s)
    (run_rows run (upd_claims (λ _, cl') t)).
Proof.
  intros Hclaims [Hc Hs Ht Hl Hv Hcr Hcl He Hr Hre Hrs]. split; try done; simpl.
  - by rewrite fmap_insert, Hr.
  - intros id e. by apply lookup_rows.
  - intros id i. by apply lookup_rows.
Qed.

Lemma represents_claims cl cl' s t :
  (∀ id, is_Some (cl' !! id) ↔ is_Some (cl !! id)) → represents s t →
  represents (set_runs cl (t_trigger_runs s) s) (upd_claims (λ _, cl') t).
Proof. intros Hclaims [Hc Hs Ht Hl Hv Hcr Hcl He Hr Hre Hrs]. by split. Qed.

Lemma lookup_insert_or_ignore_is_Some {V} (k : string) (v : V) m i :
  is_Some (insert_or_ignore k v m !! i) ↔ i = k ∨ is_Some (m !! i).
Proof.
  unfold insert_or_ignore. destruct (m !! k) eqn:Hk.
  - split; [by right|]. intros [->|?]; [eauto|done].
  - rewrite lookup_insert_is_Some. destruct (decide (k = i)); naive_solver.
Qed.

Lemma insert_is_Some {V} (k : string) (v : V) (m : gmap string V) i :
  is_Some (<[k := v]> m !! i) ↔ i = k ∨ is_Some (m !! i).
Proof. rewrite lookup_insert_is_Some. destruct (decide (k = i)); naive_solver. Qed.

(** One record of a batch. *)
Definition claim_rows (now : DateTime) (r : TriggerRunRecord) t : TriggerTables :=
  let key := tr_trigger_run_id r in
  let t1 := upd_claims (insert_or_ignore key now) t in
  if bool_decide (q_claims t !! key = None) || bool_decide (q_runs t !! key = None) then run_rows r t1 else t1.

Lemma sql_claim_record_run now acc r c (t : Transaction TriggerTables) :
  sql_claim_record now acc r c t =
    (Ok (acc ++ [bool_decide (q_claims (tx_working t) !! tr_trigger_run_id r = None)]), c,
     mkTx (tx_committed t) (claim_rows now r (tx_working t))).
Proof.
  unfold sql_claim_record, query, gets, claim_rows. unfold mbind, M_bind, mret, M_ret. simpl.
  rewrite bool_decide_None.
  destruct (bool_decide _ || bool_decide _); [by rewrite write_trigger_run_run|done].
Qed.

Lemma represents_record_claimed now now' r s t :
  represents s t →
  represents (record_claimed now r s) (claim_rows now' r t) ∧
  bool_decide (q_claims t !! tr_trigger_run_id r = None) =
    bool_decide (t_trigger_run_claims s !! tr_trigger_run_id r = None).
Proof.
  intros Hrep. set (key := tr_trigger_run_id r).
  assert (bool_decide (q_claims t !! key = None) = bool_decide (t_trigger_run_claims s !! key = None)) as Hfirst.
  { apply bool_decide_ext. rewrite !eq_None_not_Some. by rewrite (rp_claims _ _ Hrep). }
  assert (bool_decide (q_runs t !! key = None) = bool_decide (t_trigger_runs s !! key = None)) as Hrec.
  { apply bool_decide_ext. rewrite (rp_runs _ _ Hrep), lookup_fmap. apply fmap_None. }
  split; [|done]. unfold record_claimed, claim_rows. fold key. rewrite Hfirst, Hrec.
  set (cl := if bool_decide _ then _ else _).
  assert (∀ id, is_Some (insert_or_ignore key now' (q_claims t) !! id) ↔ is_Some (cl !! id)) as Hcl.
  { intros id. rewrite lookup_insert_or_ignore_is_Some, (rp_claims _ _ Hrep). unfold cl.
    destruct (bool_decide_reflect (t_trigger_run_claims s !! key = None)) as [Hk|Hk].
    - by rewrite insert_is_Some.
    - split; [|by right]. intros [->|?]; [by apply not_eq_None_Some|done]. }
  change (upd_claims (insert_or_ignore key now') t)
    with (upd_claims (λ _, insert_or_ignore key now' (q_claims t)) t).
  destruct (bool_decide (t_trigger_run_claims s !! key = None) || _).
  - by apply (represents_run cl).
  - by apply represents_claims.
Qed.
End steps.
