(* ===== verification/SqliteTriggerRefinement.v ===== *)
(** * The SQLite trigger store refines the in-memory one

    Both stores of the trigger subsystem answer every sequence of calls alike: the
    answers are equal, up to the order of unordered answers and, in pages sorted by
    time, of records with one instant.  The simulation of each call, its
    composition, the atomicity of a batch of claims under faults, and what lies
    outside of the agreement. *)
From S2P Require Import Prelude Effects Json Identifiers Status Errors Call Invocation MemStateBackend Trigger MemOrchestratorFacts MemTrigger Ports Routing TriggerManager TriggerFacts SqliteDb SqliteBroker SqliteOrchestrator SqliteState SqliteTrigger SqliteTriggerFacts.

(** ** Calls, one by one *)

Section calls.
Context {J : JsonValue} {SH : Sha256} {JC : JsonColumns} {O1 O2 : HashOrder}.
Implicit Types (s : TriggerState) (t : TriggerTables).

(** The two stores, each with its own order of iteration and its own clock,
    answer [call] alike and stay related. *)
Definition simulated (call : trigger_call) : Prop := ∀ c c' s t,
  indexed s → readable s → represents s t → admissible call s →
  ∃ a b c1 s' c2 t',
    memory_call (HO := O1) call c s = (Ok a, c1, s') ∧
    database_call (HO := O2) no_failpoints call c' t = (Ok b, c2, t') ∧
    same_answer call a b ∧ indexed s' ∧ represents s' t'.

(** A query changes nothing. *)
Lemma simulated_query call (f : TriggerState → trigger_answer) (g : TriggerTables → trigger_answer) :
  (∀ c s, memory_call (HO := O1) call c s = (Ok (f s), c, s)) →
  (∀ c s t, readable s → represents s t → database_call (HO := O2) no_failpoints call c t = (Ok (g t), c, t)) →
  (∀ s t, indexed s → represents s t → admissible call s → same_answer call (f s) (g t)) →
  simulated call.
Proof. intros Hf Hg Hfg c c' s t Hi Hd Hr Ha. exists (f s), (g t), c, s, c', t. split_and!; eauto. Qed.

(** What a change leaves readable: the rest of what was, and what it adds. *)
Lemma readable_changed s s' : readable s →
  (∀ id c, t_conditions s' !! id = Some c → t_conditions s !! id = Some c ∨ reads_back c) →
  (∀ id tr, t_triggers s' !! id = Some tr → t_triggers s !! id = Some tr ∨ template_reads_back tr) →
  (∀ id vc, t_valid_conditions s' !! id = Some vc → t_valid_conditions s !! id = Some vc ∨ reads_back (vc_context vc)) →
  (∀ id e, t_events s' !! id = Some e → t_events s !! id = Some e ∨ reads_back e) →
  (∀ id r, t_trigger_runs s' !! id = Some r → t_trigger_runs s !! id = Some r ∨ reads_back r) →
  readable s'.
Proof.
  intros [Hc Ht Hv He Hr] Hc' Ht' Hv' He' Hr'. split; intros id x Hx.
  - destruct (Hc' id x Hx); [by eapply Hc|done].
  - destruct (Ht' id x Hx); [by eapply Ht|done].
  - destruct (Hv' id x Hx); [by eapply Hv|done].
  - destruct (He' id x Hx); [by eapply He|done].
  - destruct (Hr' id x Hx); [by eapply Hr|done].
Qed.

Lemma inserted {V} (Q : V → Prop) (m : gmap string V) k v i x :
  Q v → <[k := v]> m !! i = Some x → m !! i = Some x ∨ Q x.
Proof. intros Hv [(_ & <-)|(_ & ?)]%lookup_insert_Some; auto. Qed.

Lemma readable_removed ids s : readable s → readable (fold_left trigger_removed ids s).
Proof.
  revert s. induction ids as [|id ids IH]; intros s Hs; [done|]. apply IH. unfold trigger_removed.
  destruct (t_triggers s !! id); [|done]. apply (readable_changed s); simpl; auto.
  intros i tr [_ ?]%lookup_delete_Some. by left.
Qed.

Lemma readable_claimed now r s : readable s → reads_back r → readable (record_claimed now r s).
Proof.
  intros Hs Hr. unfold record_claimed. apply (readable_changed s); simpl; auto.
  intros id x. destruct (_ || _); [by apply inserted|by left].
Qed.

Lemma readable_batch records acc c s : readable s → Forall reads_back records →
  readable (state_after (for_fold claim_record acc records) c s).
Proof.
  intros Hs Hr. revert acc c s Hs. induction Hr as [|r records Hr _ IH]; intros acc c s Hs; [done|].
  destruct (claim_record_run acc r c s) as (c1 & Hrun). unfold state_after. cbn [for_fold].
  rewrite (bind_run _ _ _ _ _ _ _ Hrun). by apply IH, readable_claimed.
Qed.

(** Every call keeps what is stored readable. *)
Lemma readable_call call c s :
  readable s → admissible call s → readable (state_after (memory_call (HO := O1) call) c s).
Proof.
  intros Hs Ha. destruct call; try exact Hs.
  - apply (readable_changed s); simpl; auto. intros i x. by apply inserted.
  - apply (readable_changed s); simpl; auto. intros i x. apply inserted, Ha.
  - unfold state_after, memory_call, answer, mem_remove_triggers_for_task.
    cbv [mbind M_bind get modify mret M_ret]. by apply readable_removed.
  - apply (readable_changed s); simpl; auto. intros i x. by apply (inserted (λ vc, reads_back (vc_context vc))).
  - apply (readable_changed s); simpl; auto. intros i x [Hx _]%clear_ids_lookup. by left.
  - unfold state_after, memory_call, answer, mem_store_cron_execution. cbv [mbind M_bind get modify mret M_ret].
    destruct (bool_decide _); [|done]. by apply (readable_changed s); simpl; auto.
  - unfold state_after, memory_call, answer, mem_claim_trigger_run. cbv [mbind M_bind get modify utc_now mret M_ret].
    destruct (bool_decide _); [done|]. by apply (readable_changed s); simpl; auto.
  - pose proof (readable_batch records [] c s Hs Ha) as Hb. revert Hb.
    unfold state_after, memory_call, answer, mem_claim_trigger_runs_with_records. unfold mbind, M_bind.
    destruct (for_fold claim_record [] records c s) as [[[bs|e|p] c1] s1]; simpl; [|done..]. intros Hb.
    apply (readable_changed s1); simpl; auto. intros i x [Hx _]%clear_ids_lookup. by left.
  - apply (readable_changed s); simpl; auto. intros i x. by apply inserted.
  - apply (readable_changed s); simpl; auto. intros i x. by apply inserted.
  - apply readable_new.
Qed.

(** A query whose rows are read back. *)
Lemma simulated_rows {A B} call f (wrap : B → trigger_answer) (rows : TriggerTables → A)
    (read : A → RustvelloResult B) (result : TriggerTables → B) :
  (∀ c s, memory_call (HO := O1) call c s = (Ok (f s), c, s)) →
  (∀ c t, database_call (HO := O2) no_failpoints call c t = answer wrap (x ← gets rows; lift (read x)) c t) →
  (∀ s t, readable s → represents s t → read (rows t) = Ok (result t)) →
  (∀ s t, indexed s → represents s t → admissible call s → same_answer call (f s) (wrap (result t))) →
  simulated call.
Proof.
  intros Hf Hg Hread Hsame. apply (simulated_query call f (λ t, wrap (result t))); [done| |done].
  intros c s t Hd Hr. rewrite Hg. unfold answer, gets, lift, mbind, M_bind, mret, M_ret. by rewrite (Hread s t Hd Hr).
Qed.

(** *** Conditions *)

Lemma NoDup_conditions_of ids s : NoDup ids → NoDup (conditions_of ids s).
Proof.
  intros Hn. apply (NoDup_fmap_1 fst). unfold conditions_of. induction Hn as [|id ids Hid Hn IH]; [constructor|].
  simpl. destruct (t_conditions s !! id); simpl; [|done]. constructor; [|done].
  intros ((i & cond) & -> & Hin)%list_elem_of_fmap. by apply elem_of_conditions_of in Hin as [? _].
Qed.

Lemma conditions_where_spec p s t id cond :
  represents s t →
  (id, cond) ∈ @conditions_where J O2 p t ↔ t_conditions s !! id = Some cond ∧ p (condition_row cond) = true.
Proof.
  intros Hr. unfold conditions_where. rewrite list_elem_of_fmap. setoid_rewrite elem_of_bfilter. split.
  - intros ([k row] & [= -> ->] & Hp & Hin). simpl in *. apply elem_of_map_iter in Hin.
    rewrite (rp_conditions _ _ Hr), lookup_fmap in Hin. apply fmap_Some in Hin as (x & Hx & ->). by split.
  - intros [Hc Hp]. exists (id, condition_row cond). split_and!; [done|done|]. apply elem_of_map_iter.
    by rewrite (rp_conditions _ _ Hr), lookup_fmap, Hc.
Qed.

Lemma conditions_where_read p s t : readable s → represents s t →
  read_keyed (@conditions_where J O2 p t) = Ok (@conditions_where J O2 p t).
Proof.
  intros Hd Hr. apply read_keyed_back. intros id cond Hin.
  apply (conditions_where_spec p s t id cond Hr) in Hin as [Hin _]. by apply (rd_conditions _ Hd id).
Qed.

Lemma NoDup_conditions_where p t : NoDup (@conditions_where J O2 p t).
Proof.
  apply (NoDup_fmap_1 fst). unfold conditions_where. rewrite <-list_fmap_compose.
  apply (NoDup_fmap_bfilter (λ r : string * ConditionRow, r.1)). apply NoDup_map_iter_fst.
Qed.

(** The conditions of an index are those that a query selects. *)
Lemma index_query ids p s t :
  represents s t → NoDup ids →
  (∀ id cond, t_conditions s !! id = Some cond → id ∈ ids ↔ p (condition_row cond) = true) →
  conditions_of ids s ≡ₚ @conditions_where J O2 p t.
Proof.
  intros Hr Hn Hp. apply NoDup_Permutation; [by apply NoDup_conditions_of|apply NoDup_conditions_where|].
  intros [id cond]. rewrite elem_of_conditions_of, (conditions_where_spec p s t) by done.
  specialize (Hp id cond). naive_solver.
Qed.

Lemma simulated_register_condition cond : simulated (CallRegisterCondition cond).
Proof.
  intros c c' s t Hi Hd Hr _. do 6 eexists. split_and!; [reflexivity| |reflexivity| |].
  - unfold database_call, answer, mbind, M_bind. by rewrite sql_register_condition_run.
  - by apply indexed_condition.
  - by apply represents_condition.
Qed.

Lemma simulated_get_condition id : simulated (CallGetCondition id).
Proof.
  eapply simulated_rows; [reflexivity|reflexivity| |].
  { intros s t Hd Hr. apply read_optional_back.
    rewrite (rp_conditions _ _ Hr), lookup_fmap. intros cond Hx. apply (rd_conditions _ Hd id).
    by destruct (t_conditions s !! id). }
  intros s t _ Hr _. simpl.
  rewrite (rp_conditions _ _ Hr), lookup_fmap. by destruct (t_conditions s !! id).
Qed.

Lemma simulated_conditions_for_task task : simulated (CallGetConditionsForTask task).
Proof.
  eapply simulated_rows; [reflexivity|reflexivity| |].
  { intros s t Hd Hr. apply read_keyed_back.
    intros id cond ([k i] & _ & Hin)%list_elem_of_omap. rewrite (rp_conditions _ _ Hr) in Hin. simpl in Hin.
    rewrite lookup_fmap in Hin. destruct (t_conditions s !! i) as [x|] eqn:Hx; [|done].
    injection Hin as <- <-. by apply (rd_conditions _ Hd i). }
  intros s t Hi Hr _. simpl. set (key := task_id_display task).
  assert (bfilter (λ p : string * ConditionId, bool_decide (p.1 = key)) (@set_iter O2 _ _ _ (q_source_tasks t)) ≡ₚ
    (λ id, (key, id)) <$> ids_at (t_source_task_conditions s) key) as Hp.
  { apply NoDup_Permutation.
    - apply NoDup_bfilter, NoDup_set_iter.
    - apply NoDup_fmap_2; [by intros ?? [=]|apply (ix_tasks _ Hi)].
    - intros [k id]. rewrite elem_of_bfilter, elem_of_set_iter, (rp_source_tasks _ _ Hr), list_elem_of_fmap.
      rewrite bool_decide_eq_true. simpl. naive_solver. }
  rewrite Hp, (rp_conditions _ _ Hr). unfold conditions_of. clear Hp. induction (ids_at (t_source_task_conditions s) key) as [|id l IH]; [done|].
  rewrite fmap_cons. cbn [omap list_omap]. simpl. rewrite lookup_fmap.
  destruct (t_conditions s !! id); simpl; [exact (perm_skip _ IH)|done].
Qed.

Lemma simulated_cron_conditions : simulated CallGetCronConditions.
Proof.
  eapply simulated_rows; [reflexivity|reflexivity|apply conditions_where_read|]. intros s t Hi Hr _. simpl.
  apply index_query; [done|apply (ix_crons_once _ Hi)|]. intros id cond Hid. rewrite (ix_crons _ Hi), Hid.
  rewrite bool_decide_eq_true. destruct cond; simpl; naive_solver.
Qed.

Lemma simulated_event_conditions code : simulated (CallGetEventConditions code).
Proof.
  eapply simulated_rows; [reflexivity|reflexivity|apply conditions_where_read|]. intros s t Hi Hr _. simpl.
  apply index_query; [done|apply (ix_events_once _ Hi)|]. intros id cond Hid. rewrite (ix_events _ Hi), Hid.
  rewrite andb_true_iff, !bool_decide_eq_true. destruct cond; simpl; naive_solver.
Qed.

Lemma simulated_all_conditions : simulated CallGetAllConditions.
Proof.
  eapply simulated_rows; [reflexivity|reflexivity|apply conditions_where_read|]. intros s t _ Hr _. simpl.
  apply NoDup_Permutation; [apply (NoDup_fmap_1 fst), NoDup_map_iter_fst|apply NoDup_conditions_where|].
  intros [id cond]. rewrite elem_of_map_iter, (conditions_where_spec _ s t) by done. tauto.
Qed.

(** *** Trigger definitions *)

Lemma simulated_register_trigger tr : simulated (CallRegisterTrigger tr).
Proof.
  intros c c' s t Hi Hd Hr Ha. do 6 eexists. split_and!; [reflexivity| |reflexivity| |].
  - unfold database_call, answer, mbind, M_bind. by rewrite sql_register_trigger_run.
  - by apply (indexed_trigger tr).
  - by apply (represents_trigger tr).
Qed.

Lemma read_trigger_run s t id tr :
  indexed s → readable s → represents s t → t_triggers s !! id = Some tr →
  ∃ tr', read_trigger (HO := O2) t id (trigger_row tr) = Ok tr' ∧ same_trigger tr tr'.
Proof.
  intros Hi Hd Hr Hid. destruct (ix_triggers _ Hi id tr Hid) as (Htid & Hvalid & Hnd).
  unfold read_trigger, trigger_row. simpl. rewrite parse_task_display by done. simpl.
  assert (parse_logic (trigger_logic_display (td_logic tr)) = Ok (td_logic tr)) as -> by by destruct (td_logic tr).
  simpl. rewrite read_optional_back by apply (rd_triggers _ Hd id tr Hid).
  eexists. split; [reflexivity|]. split; try done. simpl. unfold get_condition_ids_for_trigger.
  apply NoDup_Permutation; [done| |].
  - apply NoDup_fmap_2_strong; [|apply NoDup_bfilter, NoDup_set_iter].
    intros [a x] [b y] [Hx _]%elem_of_bfilter [Hy _]%elem_of_bfilter Hab.
    apply bool_decide_eq_true in Hx, Hy. simpl in *. congruence.
  - intros cid. rewrite list_elem_of_fmap. setoid_rewrite elem_of_bfilter. setoid_rewrite elem_of_set_iter. split.
    + intros Hin. exists (cid, id). rewrite bool_decide_true by done. split_and!; [done..|].
      apply (rp_links _ _ Hr). by exists tr.
    + intros ([k i] & -> & Hp & Hin). apply bool_decide_eq_true in Hp. simpl in *. subst i.
      apply (rp_links _ _ Hr) in Hin as (x & Hx & Hin). congruence.
Qed.

Lemma simulated_get_trigger id : simulated (CallGetTrigger id).
Proof.
  intros c c' s t Hi Hd Hr _. destruct (t_triggers s !! id) as [tr|] eqn:Hid.
  - destruct (read_trigger_run s t id tr Hi Hd Hr Hid) as (tr' & Hread & Hsame).
    exists (AnswerTrigger (Some tr)), (AnswerTrigger (Some tr')), c, s, c', t. split_and!; [| |by constructor|done..].
    + unfold memory_call, answer, mem_get_trigger, gets, mbind, M_bind. by rewrite Hid.
    + unfold database_call, answer, sql_get_trigger, get, lift, mbind, M_bind.
      rewrite (rp_triggers _ _ Hr), lookup_fmap, Hid. simpl. by rewrite Hread.
  - exists (AnswerTrigger None), (AnswerTrigger None), c, s, c', t. split_and!; [| |by constructor|done..].
    + unfold memory_call, answer, mem_get_trigger, gets, mbind, M_bind. by rewrite Hid.
    + unfold database_call, answer, sql_get_trigger, get, lift, mbind, M_bind.
      by rewrite (rp_triggers _ _ Hr), lookup_fmap, Hid.
Qed.

Lemma read_triggers_run s t trs :
  indexed s → readable s → represents s t → Forall (λ tr, t_triggers s !! td_trigger_id tr = Some tr) trs →
  ∃ trs', mapM (λ r : TriggerDefinitionId * TriggerRow, read_trigger (HO := O2) t r.1 r.2)
      ((λ tr, (td_trigger_id tr, trigger_row tr)) <$> trs) = Ok trs' ∧ Forall2 same_trigger trs trs'.
Proof.
  intros Hi Hd Hr. induction 1 as [|tr trs Htr _ (trs' & Hrun & Hsame)]; [by exists []|].
  destruct (read_trigger_run s t _ tr Hi Hd Hr Htr) as (tr' & Hread & Hone). exists (tr' :: trs').
  split; [|by constructor]. rewrite fmap_cons. cbn [mapM]. simpl fst. simpl snd. rewrite Hread. simpl. by rewrite Hrun.
Qed.

Lemma simulated_triggers_for_condition cid : simulated (CallGetTriggersForCondition cid).
Proof.
  intros c c' s t Hi Hd Hr _. set (ids := ids_at (t_condition_triggers s) cid).
  set (rows := omap (λ p : ConditionId * TriggerDefinitionId, (λ row, (p.2, row)) <$> q_triggers t !! p.2)
    (bfilter (λ p, bool_decide (p.1 = cid)) (@set_iter O2 _ _ _ (q_links t)))).
  assert (rows ≡ₚ (λ tr, (td_trigger_id tr, trigger_row tr)) <$> triggers_at s cid) as Hrows.
  { assert (bfilter (λ p, bool_decide (p.1 = cid)) (@set_iter O2 _ _ _ (q_links t)) ≡ₚ
      (λ id, (cid, id)) <$> ids) as Hp.
    { apply NoDup_Permutation.
      - apply NoDup_bfilter, NoDup_set_iter.
      - apply NoDup_fmap_2; [by intros ?? [=]|apply (ix_links_once _ Hi)].
      - intros [k id]. rewrite elem_of_bfilter, elem_of_set_iter, (rp_links _ _ Hr), list_elem_of_fmap.
        rewrite bool_decide_eq_true. unfold ids. simpl. setoid_rewrite (ix_links _ Hi). naive_solver. }
    unfold rows. rewrite Hp, (rp_triggers _ _ Hr). unfold triggers_at. fold ids. clear Hp. induction ids as [|id l IH]; [done|].
    rewrite fmap_cons. cbn [omap list_omap]. simpl. rewrite lookup_fmap.
    destruct (t_triggers s !! id) as [tr|] eqn:Hid; simpl; [|done].
    destruct (ix_triggers _ Hi id tr Hid) as (-> & _). exact (perm_skip _ IH). }
  apply Permutation_map_inv in Hrows as (trs & Hrows & Hp).
  destruct (read_triggers_run s t trs Hi Hd Hr) as (trs' & Hrun & Hsame).
  { apply list.Forall_forall. intros tr Hin. rewrite <-Hp in Hin. unfold triggers_at in Hin.
    apply list_elem_of_omap in Hin as (id & _ & Hid). by destruct (ix_triggers _ Hi id tr Hid) as (-> & _). }
  exists (AnswerTriggers (triggers_at s cid)), (AnswerTriggers trs'), c, s, c', t.
  split_and!; [reflexivity| |by exists trs|done..].
  unfold database_call, answer, sql_get_triggers_for_condition, get, lift, mbind, M_bind. fold rows.
  rewrite Hrows. change (map ?f trs) with (f <$> trs). by rewrite Hrun.
Qed.

Lemma simulated_remove_triggers task : simulated (CallRemoveTriggersForTask task).
Proof.
  intros c c' s t Hi Hd Hr _.
  destruct (sql_remove_triggers_run (O := O2) task c' t) as (ids & Hids & Hrun).
  set (ids1 := (bfilter (λ p : string * TriggerDefinitionDTO,
    bool_decide (task_id_display (td_task_id p.2) = task_id_display task)) (@map_iter O1 _ _ _ _ (t_triggers s))).*1).
  assert (ids ≡ₚ ids1) as Hp.
  { destruct (rows_of O1 O2 trigger_row (t_triggers s)) as (l & Hl & Hperm).
    rewrite Hids, (rp_triggers _ _ Hr), Hl, bfilter_fmap, <-list_fmap_compose. unfold ids1.
    apply fmap_Permutation. by apply bfilter_perm. }
  destruct (removed_all ids1 s t Hi Hr) as [Hi' Hr'].
  exists (AnswerCount (Z.min (Z.of_nat (length ids1)) u32_max)),
    (AnswerCount (Z.min (Z.of_nat (length ids)) u32_max)), c, (fold_left trigger_removed ids1 s), c',
    (fold_left trigger_forgotten ids t). split_and!; [reflexivity| |by simpl; rewrite Hp|done|].
  - unfold database_call, answer, mbind, M_bind. by rewrite Hrun.
  - by rewrite (forgotten_perm ids ids1 t Hp).
Qed.

(** *** Valid conditions, cron executions and events *)

Lemma simulated_record_valid vc : simulated (CallRecordValidCondition vc).
Proof.
  intros c c' s t Hi Hd Hr _. do 6 eexists. split_and!; [reflexivity|reflexivity|reflexivity| |].
  - apply indexed_valid; [|done]. apply keyed_insert; [done|apply (ix_valid _ Hi)].
  - apply represents_valid; [|done]. by rewrite fmap_insert.
Qed.

Lemma read_valid_back (l : list (string * ValidRow)) : (∀ k r, (k, r) ∈ l → reads_back (vr_context r)) →
  mapM (λ r : string * ValidRow, context ← read_column (vr_context r.2);
          Ok (mkValidCondition _ r.1 (vr_condition_id r.2) context)) l =
    Ok ((λ r, mkValidCondition _ r.1 (vr_condition_id r.2) (vr_context r.2)) <$> l).
Proof.
  induction l as [|[k r] l IH]; intros Hl; [done|]. cbn [mapM]. simpl.
  rewrite read_column_back by (apply (Hl k); by left). simpl. rewrite IH; [done|]. intros j x Hx. apply (Hl j). by right.
Qed.

Lemma simulated_get_valid : simulated CallGetValidConditions.
Proof.
  eapply simulated_rows; [reflexivity|reflexivity| |].
  { intros s t Hd Hr. apply read_valid_back.
    intros k r Hin. rewrite elem_of_map_iter, (rp_valid _ _ Hr), lookup_fmap in Hin.
    apply fmap_Some in Hin as (vc & Hvc & ->). by apply (rd_valid _ Hd k). }
  intros s t Hi Hr _. simpl.
  destruct (rows_of O1 O2 valid_row (t_valid_conditions s)) as (l & Hl & Hp).
  rewrite (rp_valid _ _ Hr), Hl, <-list_fmap_compose, <-Hp.
  assert (Forall (λ p : string * ValidCondition, vc_valid_condition_id p.2 = p.1) l) as Hall.
  { apply list.Forall_forall. intros [k vc] Hin. rewrite Hp, elem_of_map_iter in Hin. by apply (ix_valid _ Hi). }
  clear -Hall. induction Hall as [|[k vc] l Hk _ IH]; [done|]. simpl in *. subst k.
  destruct vc. exact (perm_skip _ IH).
Qed.

Lemma simulated_clear_valid ids : simulated (CallClearValidConditions ids).
Proof.
  intros c c' s t Hi Hd Hr _. do 6 eexists. split_and!; [reflexivity| |reflexivity| |].
  - unfold database_call, answer, sql_clear_valid_conditions, mbind, M_bind.
    rewrite (modify_each (λ id, upd_valid (delete id))), delete_valid_each. reflexivity.
  - apply indexed_valid; [|done]. intros id vc [Hvc _]%clear_ids_lookup. by apply (ix_valid _ Hi).
  - apply represents_valid; [|done]. apply clear_rows.
Qed.

Lemma simulated_last_cron id : simulated (CallGetLastCronExecution id).
Proof.
  eapply simulated_query; [reflexivity|reflexivity|]. intros s t _ Hr _. simpl. by rewrite (rp_crons _ _ Hr).
Qed.

Lemma simulated_store_cron id time expected : simulated (CallStoreCronExecution id time expected).
Proof.
  intros c c' s t Hi Hd Hr _. pose proof (rp_crons _ _ Hr) as Hcr.
  unfold memory_call, database_call, answer, mem_store_cron_execution, sql_store_cron_execution.
  cbv [mbind M_bind get gets modify mret M_ret]. rewrite Hcr.
  destruct expected as [x|].
  - destruct (bool_decide (t_cron_executions s !! id = Some x)).
    + do 6 eexists. split_and!; [reflexivity|reflexivity|reflexivity| |]; [by apply indexed_crons|].
      by apply represents_crons.
    + do 6 eexists. split_and!; [reflexivity|reflexivity|reflexivity|done|done].
  - destruct (t_cron_executions s !! id) as [x|] eqn:Hid; simpl.
    + do 6 eexists. split_and!; [reflexivity|reflexivity|reflexivity|done|].
      replace (upd_crons (insert_or_ignore id time) t) with t; [done|].
      unfold upd_crons, insert_or_ignore. rewrite Hcr, Hid, <-Hcr. by destruct t.
    + do 6 eexists. split_and!; [reflexivity|reflexivity|reflexivity|by apply (indexed_crons <[id := time]>)|].
      replace (upd_crons (insert_or_ignore id time) t) with (upd_crons <[id := time]> t);
        [by apply represents_crons|].
      unfold upd_crons, insert_or_ignore. by rewrite Hcr, Hid.
Qed.

Lemma simulated_store_event e : simulated (CallStoreEvent e).
Proof.
  intros c c' s t Hi Hd Hr _. do 6 eexists. split_and!; [reflexivity|reflexivity|reflexivity| |].
  - by apply indexed_event.
  - by apply represents_event.
Qed.

Lemma simulated_get_event id : simulated (CallGetEvent id).
Proof.
  eapply simulated_rows; [reflexivity|reflexivity| |].
  { intros s t Hd Hr. apply read_optional_back.
    rewrite (rp_events _ _ Hr), lookup_fmap. intros e Hx. apply (rd_events _ Hd id). by destruct (t_events s !! id). }
  intros s t _ Hr _. simpl.
  rewrite (rp_events _ _ Hr), lookup_fmap. by destruct (t_events s !! id).
Qed.

(** *** Runs *)

Lemma simulated_claim id : simulated (CallClaimTriggerRun id).
Proof.
  intros c c' s t Hi Hd Hr _. pose proof (rp_claims _ _ Hr id) as Hid.
  unfold memory_call, database_call, answer, mem_claim_trigger_run, sql_claim_trigger_run.
  cbv [mbind M_bind get gets modify utc_now mret M_ret].
  change (upd_claims (insert_or_ignore id (clock_next c').1) t)
    with (upd_claims (λ _, insert_or_ignore id (clock_next c').1 (q_claims t)) t).
  destruct (t_trigger_run_claims s !! id) as [x|] eqn:Hs.
  - rewrite bool_decide_true by done. destruct (proj2 Hid ltac:(eauto)) as [y Hy]. rewrite Hy.
    do 6 eexists. split_and!; [reflexivity|reflexivity|reflexivity|done|].
    rewrite <-(set_runs_self s). apply represents_claims; [|done].
    intros i. rewrite lookup_insert_or_ignore_is_Some, (rp_claims _ _ Hr). split; [|by right].
    intros [->|?]; [by rewrite Hs|done].
  - rewrite bool_decide_false by (by intros [? ?]).
    assert (q_claims t !! id = None) as Ht.
    { apply eq_None_not_Some. rewrite Hid. by intros [? ?]. }
    rewrite Ht. do 6 eexists. split_and!; [reflexivity|reflexivity|reflexivity|by apply indexed_runs|].
    apply represents_claims; [|done]. intros i.
    by rewrite lookup_insert_or_ignore_is_Some, insert_is_Some, (rp_claims _ _ Hr).
Qed.

Lemma claim_fold_run now records acc c c' s (t : Transaction TriggerTables) :
  indexed s → represents s (tx_working t) →
  ∃ bs c1 s' t', for_fold claim_record acc records c s = (Ok (acc ++ bs), c1, s') ∧
    for_fold (sql_claim_record now) acc records c' t = (Ok (acc ++ bs), c', mkTx (tx_committed t) t') ∧
    indexed s' ∧ represents s' t'.
Proof.
  revert acc c s t. induction records as [|r records IH]; intros acc c s t Hi Hr.
  { exists [], c, s, (tx_working t). rewrite app_nil_r. by destruct t. }
  destruct (claim_record_run acc r c s) as (c1 & Hmem). cbn [for_fold].
  destruct (represents_record_claimed (clock_next c).1 now r s (tx_working t) Hr) as [Hr' Hfirst].
  destruct (IH (acc ++ [bool_decide (t_trigger_run_claims s !! tr_trigger_run_id r = None)]) c1
    (record_claimed (clock_next c).1 r s) (mkTx (tx_committed t) (claim_rows now r (tx_working t))))
    as (bs & c2 & s' & t' & Hm & Hs & Hi' & Hr''); [by apply indexed_runs|done|].
  exists (bool_decide (t_trigger_run_claims s !! tr_trigger_run_id r = None) :: bs), c2, s', t'.
  rewrite (bind_run _ _ _ _ _ _ _ Hmem), (bind_run _ _ _ _ _ _ _ (sql_claim_record_run now acc r c' t)), Hfirst.
  rewrite <-app_assoc in Hm, Hs. split_and!; [exact Hm|exact Hs|done|done].
Qed.

Lemma simulated_claim_batch records consumed : simulated (CallClaimBatch records consumed).
Proof.
  intros c c' s t Hi Hd Hr _.
  destruct (claim_fold_run (clock_next c').1 records [] c (clock_next c').2 s (mkTx t t) Hi Hr)
    as (bs & c1 & s' & t' & Hm & Hs & Hi' & Hr').
  cbn [app tx_committed] in Hm, Hs.
  exists (AnswerBools bs), (AnswerBools bs), c1, (set_valid (clear_ids consumed) s'), (clock_next c').2,
    (upd_valid (clear_ids consumed) t'). split_and!; [| |done| |].
  - unfold memory_call, answer, mem_claim_trigger_runs_with_records. unfold mbind, M_bind. by rewrite Hm.
  - unfold database_call, answer, sql_claim_trigger_runs_with_records, in_transaction. unfold mbind, M_bind.
    unfold utc_now. rewrite Hs, execute_each, delete_valid_each. done.
  - apply indexed_valid; [|done]. intros id vc [Hvc _]%clear_ids_lookup. by apply (ix_valid _ Hi').
  - apply represents_valid; [|done]. apply clear_rows.
Qed.

Lemma simulated_store_run run : simulated (CallStoreTriggerRun run).
Proof.
  intros c c' s t Hi Hd Hr _. do 6 eexists. split_and!; [reflexivity| |reflexivity| |].
  - unfold database_call, answer, sql_store_trigger_run, in_transaction. unfold mbind, M_bind.
    rewrite write_trigger_run_run. reflexivity.
  - by apply indexed_runs.
  - replace t with (upd_claims (λ _, q_claims t) t) by (by destruct t).
    apply represents_run; [apply (rp_claims _ _ Hr)|done].
Qed.

Lemma simulated_get_run id : simulated (CallGetTriggerRun id).
Proof.
  eapply simulated_rows; [reflexivity|reflexivity| |].
  { intros s t Hd Hr. apply read_optional_back.
    rewrite (rp_runs _ _ Hr), lookup_fmap. intros r Hx. apply (rd_runs _ Hd id). by destruct (t_trigger_runs s !! id). }
  intros s t _ Hr _. simpl.
  rewrite (rp_runs _ _ Hr), lookup_fmap. by destruct (t_trigger_runs s !! id).
Qed.

Lemma simulated_purge : simulated CallPurge.
Proof.
  intros c c' s t _ _ _ _. do 6 eexists. split_and!; [reflexivity|reflexivity|reflexivity| |].
  - apply indexed_new.
  - apply represents_new.
Qed.

(** *** Pages *)

(** The records of a table, as rows. *)
Lemma rows_values `{Countable K} {V W} (f : V → W) (m : gmap K V) :
  ∃ l, (@map_iter O2 K _ _ W (f <$> m)).*2 = f <$> l ∧ l ≡ₚ (@map_iter O1 K _ _ V m).*2 ∧ length l = size m.
Proof.
  destruct (rows_of O1 O2 f m) as (l & Hl & Hp). exists l.*2.
  rewrite Hl, <-!list_fmap_compose. split_and!; [done|by rewrite Hp|].
  by rewrite length_fmap, Hp, length_map_iter.
Qed.

Lemma bfilter_and {A} (p q : A → bool) l : bfilter q (bfilter p l) = bfilter (λ x, p x && q x) l.
Proof.
  unfold bfilter. induction l as [|x l IH]; [done|]. cbn [List.filter]. rewrite <-IH. by destruct (p x).
Qed.

Lemma length_bfilter {A} (p : A → bool) l : (length (bfilter p l) ≤ length l)%nat.
Proof. apply List.filter_length_le. Qed.

Lemma take_drop_take {A} n o N (l : list A) :
  (o + n ≤ N)%nat ∨ (length l ≤ N)%nat → take n (drop o (take N l)) = take n (drop o l).
Proof.
  intros [HN|HN]; [|by rewrite (take_ge l)].
  rewrite !take_drop_commute, take_take. do 2 f_equal. lia.
Qed.

(** A page of two sorted lists that hold the same. *)
Lemma pages_agree {A} (R : relation A) (o n : nat) (f1 f2 : list A) :
  f1 ≡ₚ f2 → Sorted R f1 → Sorted R f2 → same_page R (take n (drop o f1)) (take n (drop o f2)).
Proof. intros. by exists f1, f2, o, n. Qed.

Lemma first_pages_agree {A} (R : relation A) (n : nat) (f1 f2 : list A) :
  f1 ≡ₚ f2 → Sorted R f1 → Sorted R f2 → same_page R (take n f1) (take n f2).
Proof. apply (pages_agree R 0). Qed.

(** What the database does not filter. *)
Definition event_kept (q : EventQuery) (e : EventRecord) : bool :=
  is_none_or (eq_matched q) (λ m, Bool.eqb (is_matched e) m) &&
  is_none_or (eq_triggered q) (λ b, Bool.eqb (is_triggered e) b).

Lemma event_selected_split q e : event_selected q e = event_row_selected q (event_row e) && event_kept q e.
Proof. unfold event_selected, event_row_selected, event_kept. simpl. by rewrite !andb_assoc. Qed.

Definition page_of {A} (offset limit : option Z) (l : list A) : list A :=
  let l := match offset with Some o => drop (Z.to_nat o) l | None => l end in
  match limit with Some n => truncate n l | None => l end.

#[local] Arguments page_of : simpl never.

Lemma page_of_take {A} offset limit (l : list A) k :
  (length l ≤ k)%nat →
  page_of offset limit l =
    take (match limit with Some n => Z.to_nat n | None => k end) (drop (Z.to_nat (default 0 offset)) l).
Proof.
  intros Hk. unfold page_of.
  assert (match offset with Some o => drop (Z.to_nat o) l | None => l end = drop (Z.to_nat (default 0 offset)) l)
    as -> by by destruct offset.
  destruct limit as [n|]; [apply truncate_to_nat|]. rewrite take_ge; [done|]. rewrite length_drop. lia.
Qed.

Lemma events_window q (l : list EventRecord) :
  (is_Some (eq_limit q) ∨ is_Some (eq_matched q) ∨ is_Some (eq_triggered q)) →
  0 ≤ default 0 (eq_limit q) → 0 ≤ default 0 (eq_offset q) → Z.of_nat (length l) ≤ i64_max →
  page_of (eq_offset q) (eq_limit q) (bfilter (event_kept q) (sql_limit (events_limit q) l)) =
  page_of (eq_offset q) (eq_limit q) (bfilter (event_kept q) l).
Proof.
  intros Hq Hn Ho Hl. unfold events_limit.
  destruct (bool_decide (is_Some (eq_matched q)) || bool_decide (is_Some (eq_triggered q))) eqn:Hf.
  { by rewrite sql_limit_all. }
  rewrite orb_false_iff, !bool_decide_eq_false in Hf. destruct Hf as [Hm Ht].
  destruct (eq_limit q) as [n|] eqn:Hlim; [|naive_solver].
  cbn [default from_option id] in *.
  assert (∀ l, bfilter (event_kept q) l = l) as Hall.
  { intros x. rewrite (bfilter_ext _ (λ _, true)), bfilter_true; [done|]. intros e _. unfold event_kept.
    apply eq_None_not_Some in Hm, Ht. by rewrite Hm, Ht. }
  rewrite !Hall, sql_limit_take by done.
  rewrite !(page_of_take _ _ _ (length l)); [|done|by rewrite length_take; lia].
  apply take_drop_take. unfold i64_max, u64_max in *. lia.
Qed.

(** The rows a page of a table selects are among its rows. *)
Lemma page_rows `{Countable K} {V W} (f : V → W) (col : W → V) (m : gmap K V) (le : W → W → bool) (p : W → bool) n v :
  (∀ v, col (f v) = v) →
  v ∈ col <$> sql_limit n (sort_by le (bfilter p (@map_iter O2 K _ _ W (f <$> m)).*2)) → ∃ k, m !! k = Some v.
Proof.
  intros Hcol (w & -> & Hw)%list_elem_of_fmap. unfold sql_limit in Hw. rewrite truncate_to_nat in Hw.
  apply (subseteq_take) in Hw. rewrite sort_by_perm, elem_of_bfilter in Hw. destruct Hw as [_ Hw].
  apply list_elem_of_fmap in Hw as ([k w'] & -> & Hin). rewrite elem_of_map_iter, lookup_fmap in Hin.
  apply fmap_Some in Hin as (x & Hx & Hw). simpl in *. exists k. by rewrite Hw, Hcol.
Qed.

Lemma simulated_get_events q : simulated (CallGetEvents q).
Proof.
  eapply (simulated_query _ _ (λ t, AnswerEvents (page_of (eq_offset q) (eq_limit q) (bfilter (event_kept q)
    (ev_event <$> sql_limit (events_limit q) (sort_by (λ a b, ev_timestamp b <=? ev_timestamp a)
        (bfilter (event_row_selected q) (@map_iter O2 _ _ _ _ (q_events t)).*2))))))); [reflexivity| |].
  { intros c s t Hd Hr. unfold database_call, answer, sql_get_events. cbv [mbind M_bind gets lift mret M_ret].
    rewrite read_rows_back; [done|]. intros e He. rewrite (rp_events _ _ Hr) in He.
    apply (page_rows event_row ev_event) in He as [k He]; [by apply (rd_events _ Hd k)|done]. }
  intros s t _ Hr (Hq & Hn & Ho & Hsize). simpl.
  change (same_page event_newer (page_of (eq_offset q) (eq_limit q)
      (sort_by (λ a b, er_timestamp b <=? er_timestamp a)
        (bfilter (event_selected q) (@map_iter O1 _ _ _ _ (t_events s)).*2)))
    (page_of (eq_offset q) (eq_limit q) (bfilter (event_kept q) (ev_event <$>
      sql_limit (events_limit q) (sort_by (λ a b, ev_timestamp b <=? ev_timestamp a)
        (bfilter (event_row_selected q) (@map_iter O2 _ _ _ _ (q_events t)).*2)))))).
  rewrite (rp_events _ _ Hr). destruct (rows_values event_row (t_events s)) as (es & -> & Hp & Hlen).
  rewrite (bfilter_fmap event_row), (sort_by_fmap event_row). simpl.
  set (sel := sort_by (λ a b, er_timestamp b <=? er_timestamp a)
    (bfilter (λ x, event_row_selected q (event_row x)) es)).
  assert (length sel ≤ length es)%nat as Hsel.
  { unfold sel. rewrite sort_by_length. apply length_bfilter. }
  assert (ev_event <$> sql_limit (events_limit q) (event_row <$> sel) = sql_limit (events_limit q) sel) as ->.
  { unfold sql_limit. rewrite !truncate_to_nat, <-fmap_take, <-list_fmap_compose. apply list_fmap_id. }
  rewrite events_window by (done || lia).
  set (f1 := sort_by _ (bfilter (event_selected q) _)). set (f2 := bfilter _ sel).
  assert (f1 ≡ₚ f2) as Hf.
  { unfold f1, f2, sel. rewrite !sort_by_perm, bfilter_and, <-Hp. erewrite bfilter_ext; [done|].
    intros e _. apply event_selected_split. }
  rewrite !(page_of_take _ _ _ (length f2)); [|by rewrite ?Hf..].
  apply pages_agree; [done| |].
  - apply sort_by_time_sorted; [intros a b; apply Z.leb_le|intros a b; unfold event_newer; lia].
  - apply Sorted_bfilter; [intros a b c; unfold event_newer; lia|].
    apply sort_by_time_sorted; [intros a b; apply Z.leb_le|intros a b; unfold event_newer; lia].
Qed.

(** The rows that a query of runs selects are those of the records it selects. *)
Lemma run_row_selected_spec q s t id r :
  represents s t → t_trigger_runs s !! id = Some r → run_row_selected q t id (run_row r) = run_selected q r.
Proof.
  intros Hr Hid. unfold run_row_selected, run_selected.
  assert (is_none_or (tq_event_id q) (λ e, bool_decide ((id, e) ∈ q_run_events t)) =
    is_none_or (tq_event_id q) (λ e, bool_decide (e ∈ event_ids r))) as ->.
  { destruct (tq_event_id q) as [e|]; [|done]. apply bool_decide_ext. rewrite (rp_run_events _ _ Hr).
    split; [intros (x & Hx & ?); congruence|by exists r]. }
  assert (is_none_or (tq_source_invocation_id q) (λ i, bool_decide ((id, i) ∈ q_run_sources t)) =
    is_none_or (tq_source_invocation_id q) (λ i, bool_decide (i ∈ source_invocation_ids r))) as ->; [|done].
  destruct (tq_source_invocation_id q) as [i|]; [|done]. apply bool_decide_ext.
  rewrite (rp_run_sources _ _ Hr). split; [intros (x & Hx & ?); congruence|by exists r].
Qed.

Lemma simulated_get_runs q : simulated (CallGetTriggerRuns q).
Proof.
  eapply simulated_rows; [reflexivity|reflexivity| |].
  { intros s t Hd Hr. apply read_rows_back. intros r Hin. rewrite (rp_runs _ _ Hr) in Hin.
    apply list_elem_of_fmap in Hin as (row & -> & Hin). unfold sql_limit in Hin. rewrite truncate_to_nat in Hin.
    apply subseteq_take in Hin. rewrite sort_by_perm in Hin. apply list_elem_of_fmap in Hin as ([k w] & -> & Hin).
    apply elem_of_bfilter in Hin as [_ Hin]. rewrite elem_of_map_iter, lookup_fmap in Hin.
    apply fmap_Some in Hin as (x & Hx & ->). by apply (rd_runs _ Hd k). }
  intros s t _ Hr ([n Hn] & Hsize). simpl. rewrite Hn. simpl.
  destruct (rows_of O1 O2 run_row (t_trigger_runs s)) as (l & Hl & Hp). rewrite (rp_runs _ _ Hr), Hl.
  set (sel := sort_by (λ a b, tr_claimed_at b <=? tr_claimed_at a) (bfilter (run_selected q) l.*2)).
  assert ((bfilter (λ p : string * RunRow, run_row_selected q t p.1 p.2) ((λ p, (p.1, run_row p.2)) <$> l)).*2 =
    run_row <$> bfilter (run_selected q) l.*2) as ->.
  { rewrite (bfilter_fmap (λ p : string * TriggerRunRecord, (p.1, run_row p.2))), (bfilter_fmap snd).
    rewrite <-!list_fmap_compose. f_equal. apply bfilter_ext. intros [id r] Hin. simpl.
    rewrite Hp, elem_of_map_iter in Hin. by apply (run_row_selected_spec q s). }
  rewrite (sort_by_fmap run_row). simpl. fold sel.
  assert (length sel ≤ length l)%nat as Hsel.
  { unfold sel. rewrite sort_by_length, length_bfilter. by rewrite length_fmap. }
  assert (length l = size (t_trigger_runs s)) as Hlen by by rewrite Hp, length_map_iter.
  assert (rn_run <$> sql_limit n (run_row <$> sel) = take (Z.to_nat n) sel) as ->.
  { rewrite sql_limit_take by (rewrite length_fmap; lia). rewrite <-fmap_take, <-list_fmap_compose.
    apply list_fmap_id. }
  rewrite truncate_to_nat. apply first_pages_agree.
  - unfold sel. rewrite !sort_by_perm. by rewrite Hp.
  - apply sort_by_time_sorted; [intros a b; apply Z.leb_le|intros a b; unfold run_newer; lia].
  - apply sort_by_time_sorted; [intros a b; apply Z.leb_le|intros a b; unfold run_newer; lia].
Qed.

Lemma simulated_get_pending n : simulated (CallGetPendingTriggerRuns n).
Proof.
  eapply simulated_rows; [reflexivity|reflexivity| |].
  { intros s t Hd Hr. apply read_rows_back. intros r Hin. rewrite (rp_runs _ _ Hr) in Hin.
    apply (page_rows run_row rn_run) in Hin as [k Hin]; [by apply (rd_runs _ Hd k)|done]. }
  intros s t _ Hr Hsize. simpl in Hsize |- *.
  destruct (rows_values run_row (t_trigger_runs s)) as (l & Hl & Hp & Hlen).
  rewrite (rp_runs _ _ Hr), Hl, (bfilter_fmap run_row), (sort_by_fmap run_row). simpl.
  set (sel := sort_by (λ a b, tr_claimed_at a <=? tr_claimed_at b) (bfilter _ l)).
  assert (length sel ≤ length l)%nat as Hsel.
  { unfold sel. rewrite sort_by_length. apply length_bfilter. }
  assert (rn_run <$> sql_limit n (run_row <$> sel) = take (Z.to_nat n) sel) as ->.
  { rewrite sql_limit_take by (rewrite length_fmap; lia). rewrite <-fmap_take, <-list_fmap_compose.
    apply list_fmap_id. }
  rewrite (truncate_all u64_max).
  2:{ rewrite sort_by_length. etrans; [apply inj_le, length_bfilter|]. rewrite <-Hp, Hlen.
      unfold i64_max, u64_max in *. lia. }
  rewrite truncate_to_nat. apply first_pages_agree.
  - unfold sel. rewrite !sort_by_perm, bfilter_and, <-Hp. erewrite bfilter_ext; [done|].
    intros r _. unfold is_pending. simpl. by rewrite andb_comm.
  - apply sort_by_time_sorted; [intros a b; apply Z.leb_le|intros a b; unfold run_older; lia].
  - apply sort_by_time_sorted; [intros a b; apply Z.leb_le|intros a b; unfold run_older; lia].
Qed.

Lemma every_call_simulated call : simulated call.
Proof.
  destruct call; auto using simulated_register_condition, simulated_get_condition, simulated_conditions_for_task,
    simulated_cron_conditions, simulated_event_conditions, simulated_all_conditions, simulated_register_trigger,
    simulated_get_trigger, simulated_triggers_for_condition, simulated_remove_triggers, simulated_record_valid,
    simulated_get_valid, simulated_clear_valid, simulated_last_cron, simulated_store_cron, simulated_claim,
    simulated_claim_batch, simulated_store_event, simulated_get_event, simulated_get_events, simulated_store_run,
    simulated_get_run, simulated_get_runs, simulated_get_pending, simulated_purge.
Qed.

(** ** Sequences of calls *)

(** Calls one after the other, with their answers. *)
Definition memory_calls (calls : list trigger_call) : M RustvelloError TriggerState (list trigger_answer) :=
  for_fold (λ answers call, a ← memory_call (HO := O1) call; mret (answers ++ [a])) [] calls.

Definition database_calls {JT : JoinText} (calls : list trigger_call) : OpOn TriggerTables (list trigger_answer) :=
  for_fold (λ answers call, a ← sqlite (database_call (HO := O2) no_failpoints call); mret (answers ++ [a])) [] calls.

(** Each call is admissible when it is made. *)
Fixpoint all_admissible (calls : list trigger_call) (c : Clock) s : Prop :=
  match calls with
  | [] => True
  | call :: calls =>
      admissible call s ∧
      all_admissible calls (memory_call (HO := O1) call c s).1.2 (state_after (memory_call (HO := O1) call) c s)
  end.

Lemma calls_simulated {JT : JoinText} calls acc acc' c c' s t :
  indexed s → readable s → represents s t → all_admissible calls c s →
  ∃ xs ys c1 c2 s' t',
    for_fold (λ answers call, a ← memory_call (HO := O1) call; mret (answers ++ [a])) acc calls c s =
      (Ok (acc ++ xs), c1, s') ∧
    for_fold (λ answers call, a ← sqlite (database_call (HO := O2) no_failpoints call); mret (answers ++ [a]))
      acc' calls c' (handle_new t) = (Ok (acc' ++ ys), c2, handle_new t') ∧
    Forall2 (λ x p, same_answer p.1 x p.2) xs (zip calls ys) ∧ length ys = length calls ∧
    indexed s' ∧ represents s' t'.
Proof.
  revert acc acc' c c' s t. induction calls as [|call calls IH]; intros acc acc' c c' s t Hi Hd Hr Ha.
  { exists [], [], c, c', s, t. rewrite !app_nil_r. split_and!; done || apply List.Forall2_nil. }
  destruct Ha as [Ha Hrest].
  pose proof (readable_call call c s Hd Ha) as Hd1.
  destruct (every_call_simulated call c c' s t Hi Hd Hr Ha) as (a & b & c1 & s1 & c2 & t1 & Hm & Hs & Hab & Hi1 & Hr1).
  unfold state_after in Hrest, Hd1. rewrite Hm in Hrest, Hd1.
  destruct (IH (acc ++ [a]) (acc' ++ [b]) c1 c2 s1 t1 Hi1 Hd1 Hr1 Hrest)
    as (xs & ys & c3 & c4 & s' & t' & Hxs & Hys & Hall & Hlen & Hi' & Hr').
  exists (a :: xs), (b :: ys), c3, c4, s', t'. cbn [for_fold].
  rewrite <-app_assoc in Hxs, Hys. split_and!.
  - rewrite (bind_run _ _ _ _ _ _ _ (bind_run _ _ _ _ _ _ _ Hm)). exact Hxs.
  - assert (sqlite (database_call (HO := O2) no_failpoints call) c' (handle_new t) = (Ok b, c2, handle_new t1)) as Hrun.
    { rewrite sqlite_run; [by simpl; rewrite Hs|done|by simpl; rewrite Hs]. }
    rewrite (bind_run _ _ _ _ _ _ _ (bind_run _ _ _ _ _ _ _ Hrun)). exact Hys.
  - by constructor.
  - simpl. by rewrite Hlen.
  - done.
  - done.
Qed.

(** C25: The SQLite trigger store refines the in-memory one, on admissible calls: task
    ids are valid, the conditions of a definition distinct and the same whenever its id
    is registered again; a query of events or runs has a limit, or filters that the
    database does not apply; fewer than 2^63 rows are stored; and every condition,
    argument template, context, event and run that is stored in a JSON column is read
    back as it is (a result filter that is JSON null is not: it reads back as no
    filter, see the findings).  Any sequence of such calls on empty stores, each store
    with its own clock and its own order of unordered rows, succeeds on both and is
    answered alike call by call: with equal values, unordered lists up to their order,
    definitions up to the order of their conditions, and pages sorted by time as the
    same page of two orderings of the same records.  The tables then hold what the
    memory holds. *)
Theorem sqlite_triggers_refine_memory {JT : JoinText} calls c c' :
  all_admissible calls c trigger_store_new →
  ∃ xs ys c1 c2 s t,
    memory_calls calls c trigger_store_new = (Ok xs, c1, s) ∧
    database_calls calls c' (handle_new trigger_tables_new) = (Ok ys, c2, handle_new t) ∧
    Forall2 (λ x p, same_answer p.1 x p.2) xs (zip calls ys) ∧ length ys = length calls ∧
    indexed s ∧ represents s t.
Proof.
  intros Ha. exact (calls_simulated calls [] [] c c' _ _ indexed_new readable_new represents_new Ha).
Qed.
End calls.

(** ** Batches of claims under faults *)

Section faults.
Context {J : JsonValue} {SH : Sha256}.
Implicit Types (t : TriggerTables).

(** What a batch leaves when it commits. *)
Definition batch_rows (now : DateTime) (records : list TriggerRunRecord) (consumed : list string) t
    : TriggerTables :=
  upd_valid (clear_ids consumed) (fold_left (λ t r, claim_rows now r t) records t).


(** The run of a batch: where it stops is where the faults are. *)
Lemma sql_batch_run fp records consumed c t :
  ∃ claimed, length claimed = length records ∧
    sql_claim_trigger_runs_with_records fp records consumed c t =
    (let subject := match records with record :: _ => tr_trigger_run_id record | [] => "" end in
     match fp "trigger.claim.before_commit" subject with
     | Ok _ =>
         (match fp "trigger.claim.after_commit" subject with
          | Ok _ => Ok claimed | Err e => Err e | Panic p => Panic p end,
          (clock_next c).2, batch_rows (clock_next c).1 records consumed t)
     | Err e => (Err e, (clock_next c).2, t)
     | Panic p => (Panic p, (clock_next c).2, t)
     end).
Proof.
  assert (∀ acc (x : Transaction TriggerTables) c', ∃ bs, length bs = length records ∧
    for_fold (sql_claim_record (clock_next c).1) acc records c' x = (Ok (acc ++ bs), c',
      mkTx (tx_committed x) (fold_left (λ t r, claim_rows (clock_next c).1 r t) records (tx_working x)))) as Hfold.
  { induction records as [|r records IH]; intros acc x c'.
    { exists []. rewrite app_nil_r. by destruct x. }
    cbn [for_fold]. destruct (IH (acc ++ [bool_decide (q_claims (tx_working x) !! tr_trigger_run_id r = None)])
      (mkTx (tx_committed x) (claim_rows (clock_next c).1 r (tx_working x))) c') as (bs & Hlen & Hrun).
    eexists (_ :: bs). split; [by simpl; rewrite Hlen|].
    rewrite (bind_run _ _ _ _ _ _ _ (sql_claim_record_run (clock_next c).1 acc r c' x)), Hrun.
    rewrite <-app_assoc. reflexivity. }
  destruct (Hfold [] (mkTx t t) (clock_next c).2) as (bs & Hlen & Hrun). exists bs. split; [done|].
  unfold sql_claim_trigger_runs_with_records, in_transaction. unfold mbind, M_bind, utc_now. rewrite Hrun.
  rewrite execute_each. unfold boundary, lift, batch_rows. rewrite <-delete_valid_each.
  destruct (fp "trigger.claim.before_commit" _); [|done..].
  by destruct (fp "trigger.claim.after_commit" _).
Qed.

(** A run that is claimed and recorded. *)
Definition settled t (r : TriggerRunRecord) : Prop :=
  is_Some (q_claims t !! tr_trigger_run_id r) ∧ is_Some (q_runs t !! tr_trigger_run_id r).

Lemma claim_rows_settled now r t : settled t r → claim_rows now r t = t.
Proof.
  intros [[x Hx] [y Hy]]. unfold claim_rows. rewrite Hx, Hy. simpl.
  unfold upd_claims, insert_or_ignore. rewrite Hx. by destruct t.
Qed.

Lemma claim_rows_settles now r r' t : r' = r ∨ settled t r' → settled (claim_rows now r t) r'.
Proof.
  unfold settled, claim_rows. set (key := tr_trigger_run_id r). intros Hr. split.
  - assert (is_Some (insert_or_ignore key now (q_claims t) !! tr_trigger_run_id r')) as Hc.
    { apply lookup_insert_or_ignore_is_Some. destruct Hr as [->|[? _]]; [by left|by right]. }
    destruct (_ || _); exact Hc.
  - destruct (bool_decide_reflect (q_claims t !! key = None)) as [Hc|Hc],
      (bool_decide_reflect (q_runs t !! key = None)) as [Hn|Hn]; simpl;
      try (apply insert_is_Some; destruct Hr as [->|[_ ?]]; [by left|by right]).
    destruct Hr as [->|[_ ?]]; [by apply not_eq_None_Some|done].
Qed.

Lemma fold_settles now records r t :
  r ∈ records ∨ settled t r → settled (fold_left (λ t r, claim_rows now r t) records t) r.
Proof.
  revert t. induction records as [|x records IH]; intros t Hr; simpl.
  - destruct Hr as [?%elem_of_nil|?]; done.
  - apply IH. rewrite elem_of_cons in Hr. destruct Hr as [[->|?]|?]; [right|by left|right].
    + apply claim_rows_settles. by left.
    + apply claim_rows_settles. by right.
Qed.

Lemma fold_settled now records t :
  (∀ r, r ∈ records → settled t r) → fold_left (λ t r, claim_rows now r t) records t = t.
Proof.
  induction records as [|x records IH]; intros Hr; simpl; [done|].
  rewrite claim_rows_settled by (apply Hr; by left). apply IH. intros r Hin. apply Hr. by right.
Qed.

(** A batch that committed changes nothing when it is claimed again. *)
Lemma batch_rows_again now now' records consumed t :
  batch_rows now' records consumed (batch_rows now records consumed t) = batch_rows now records consumed t.
Proof.
  unfold batch_rows at 1. rewrite fold_settled.
  - unfold batch_rows, upd_valid. simpl. f_equal. apply map_eq. intros k. apply option_eq. intros vc.
    rewrite !clear_ids_lookup. tauto.
  - intros r Hr. unfold batch_rows. by apply (fold_settles now records r t (or_introl Hr)).
Qed.

Abbreviation claim_batch := sql_claim_trigger_runs_with_records.

(** C26: claims of a batch are all or nothing on SQLite, and a retry settles them.
    Wherever a fault stops the claim of a batch, the tables are untouched or hold
    the whole batch: every run claimed and recorded, every consumed condition gone.
    Claiming the batch again then leaves what one undisturbed claim leaves, whether
    the first one had committed or not. *)
Theorem sqlite_claims_survive_faults fp records consumed c c' t :
  (state_after (claim_batch fp records consumed) c t = t ∨
   state_after (claim_batch fp records consumed) c t = state_after (claim_batch no_failpoints records consumed) c t) ∧
  ∃ clock, (clock = c ∨ clock = c') ∧
    let final := state_after (claim_batch no_failpoints records consumed) clock t in
    state_after (claim_batch no_failpoints records consumed) c'
      (state_after (claim_batch fp records consumed) c t) = final ∧
    (∀ r, r ∈ records → settled final r) ∧ (∀ id, id ∈ consumed → q_valid final !! id = None).
Proof.
  assert (∀ c t, state_after (claim_batch no_failpoints records consumed) c t =
    batch_rows (clock_next c).1 records consumed t) as Hclean.
  { intros c0 t0. destruct (sql_batch_run no_failpoints records consumed c0 t0) as (bs & _ & Hrun).
    unfold state_after. by rewrite Hrun. }
  set (t1 := state_after (claim_batch fp records consumed) c t).
  assert (t1 = t ∨ t1 = batch_rows (clock_next c).1 records consumed t) as Ht1.
  { destruct (sql_batch_run fp records consumed c t) as (bs & _ & Hrun).
    unfold t1, state_after. rewrite Hrun. simpl. destruct (fp "trigger.claim.before_commit" _); auto. }
  assert (∀ now, (∀ r, r ∈ records → settled (batch_rows now records consumed t) r) ∧
    (∀ id, id ∈ consumed → q_valid (batch_rows now records consumed t) !! id = None)) as Hsettled.
  { intros now. split.
    - intros r Hr. by apply (fold_settles _ records r t (or_introl Hr)).
    - intros id Hid. apply eq_None_not_Some. by intros [vc [_ ?]%clear_ids_lookup]. }
  rewrite Hclean. split; [done|]. destruct Ht1 as [->| ->].
  - exists c'. destruct (Hsettled (clock_next c').1). rewrite !Hclean. auto.
  - exists c. destruct (Hsettled (clock_next c).1). rewrite !Hclean, batch_rows_again. auto.
Qed.
End faults.

(** ** Outside of the agreement *)

Lemma read_rows_length `{JsonColumn A} (l l' : list A) : read_rows l = Ok l' → length l' = length l.
Proof.
  unfold read_rows. revert l'. induction l as [|a l IH]; intros l'; cbn [mapM]; [by intros [= <-]|].
  destruct (read_column a); [|done..]. simpl. destruct (mapM read_column l) as [l1|e|p]; [|done..].
  intros [= <-]. simpl. by rewrite (IH l1).
Qed.

(** A query of runs without a limit returns at most 1000 of them, in memory all. *)
Lemma unlimited_runs_are_cut {J : JsonValue} {JC : JsonColumns} {O : HashOrder} q c (t : TriggerTables) runs :
  tq_limit q = None → result_of (sql_get_trigger_runs q) c t = Ok runs → (length runs ≤ 1000)%nat.
Proof.
  intros Hq. unfold result_of, sql_get_trigger_runs, gets, lift, mbind, M_bind. rewrite Hq. simpl default.
  destruct (read_rows _) as [rs|e|p] eqn:Hread; [|done..]. intros [= <-]. rewrite (read_rows_length _ _ Hread). unfold sql_limit.
  rewrite truncate_to_nat, length_fmap, length_take. change (i64_saturating_of_u64 1000) with 1000. lia.
Qed.

(** Columns that are read back as they were written. *)
Definition exact_columns : @JsonColumns text_json :=
  let exact A := {| from_column := λ a : A, Ok a |} in
  Build_JsonColumns _ (exact _) (exact _) (exact _) (exact _) (exact _).

Definition wide_trigger : @TriggerDefinitionDTO text_json :=
  mkTriggerDefinition _ "t1" sql_task ["a"; "b"] LogicAnd None.
Definition narrow_trigger : @TriggerDefinitionDTO text_json :=
  mkTriggerDefinition _ "t1" sql_task ["a"] LogicAnd None.

(** A definition that is registered again with fewer conditions keeps, in the
    database, the links of the ones it lost: it waits for all of them, and it is
    found under them.  In memory the new definition replaces the old one. *)
Lemma reregistered_trigger_keeps_its_links :
  let mem := (mem_register_trigger wide_trigger;; mem_register_trigger narrow_trigger;; mem_get_trigger "t1") in
  let sql := (sql_register_trigger wide_trigger;; sql_register_trigger narrow_trigger;;
    @sql_get_trigger text_json identity_order exact_columns "t1") in
  result_of mem demo_clock trigger_store_new = Ok (Some narrow_trigger) ∧
  ∃ tr, result_of sql demo_clock trigger_tables_new = Ok (Some tr) ∧ td_condition_ids tr ≡ₚ ["a"; "b"].
Proof.
  split; [vm_compute; reflexivity|].
  exists (mkTriggerDefinition _ "t1" sql_task (get_condition_ids_for_trigger (HO := identity_order) "t1"
    (state_after (sql_register_trigger wide_trigger) demo_clock trigger_tables_new)) LogicAnd None).
  split; [vm_compute; reflexivity|]. vm_compute. solve [reflexivity|apply Permutation_swap].
Qed.

(** ** Witnesses *)

(** A trigger on "done", a batch of one claim, and queries. *)
Definition demo_run : @TriggerRunRecord text_json :=
  {| tr_trigger_run_id := "run"; tr_trigger_id := "t1"; tr_task_id := sql_task; tr_logic := LogicOr;
     tr_arguments := VNull; tr_participants := [mkParticipant "event" demo_event_id "v1" (Some "e1") None "done"];
     tr_claimed_at := 5; tr_executed_at := None; tr_planned_invocation_id := Some "i";
     tr_triggered_invocation_id := None; tr_atomic_service_run_id := None; tr_atomic_service_runner_id := None |}.

Definition demo_calls : list (@trigger_call text_json) :=
  [CallRegisterCondition demo_event;
   CallRegisterTrigger (mkTriggerDefinition _ "t1" sql_task [demo_event_id] LogicOr None);
   CallRecordValidCondition (demo_valid "v1");
   CallClaimBatch [demo_run] ["v1"];
   CallGetTriggersForCondition demo_event_id;
   CallGetTriggerRuns (mkTriggerRunQuery (Some "e1") None None None None (Some 10));
   CallGetPendingTriggerRuns 5;
   CallGetValidConditions].

Definition demo_answers : list (@trigger_answer text_json) :=
  [AnswerId demo_event_id; AnswerUnit; AnswerUnit; AnswerBools [true];
   AnswerTriggers [mkTriggerDefinition _ "t1" sql_task [demo_event_id] LogicOr None];
   AnswerRuns [demo_run]; AnswerRuns [demo_run]; AnswerValid []].

Lemma demo_answers_ok :
  result_of (@database_calls text_json pad_digest exact_columns identity_order demo_join demo_calls) demo_clock
    (handle_new trigger_tables_new) = Ok demo_answers.
Proof. vm_cast_no_check (@eq_refl (RustvelloResult (list (@trigger_answer text_json))) (Ok demo_answers)). Qed.

Lemma demo_calls_admissible :
  @all_admissible text_json pad_digest exact_columns identity_order demo_calls demo_clock trigger_store_new.
Proof.
  cbn [all_admissible demo_calls admissible]. split_and!; try exact I.
  - reflexivity.
  - exact sql_task_valid.
  - apply NoDup_singleton.
  - intros old Hold. by vm_compute in Hold.
  - intros x [=].
  - reflexivity.
  - by repeat constructor.
  - by exists 10.
  - by vm_compute.
  - by vm_compute.
Qed.

Lemma sqlite_triggers_refine_memory_witness :
  ∃ ys c2 t, @database_calls text_json pad_digest exact_columns identity_order demo_join demo_calls demo_clock
      (handle_new trigger_tables_new) = (Ok ys, c2, handle_new t) ∧ ys = demo_answers.
Proof.
  destruct (@sqlite_triggers_refine_memory text_json pad_digest exact_columns identity_order identity_order demo_join demo_calls
    demo_clock demo_clock) as (xs & ys & c1 & c2 & s & t & _ & Hsql & _).
  - exact demo_calls_admissible.
  - exists ys, c2, t. split; [exact Hsql|]. pose proof demo_answers_ok as Hok. unfold result_of in Hok.
    rewrite Hsql in Hok. by injection Hok.
Defined.
