(* ===== verification/Lanes.v ===== *)
(** * The lanes of the timeline

    Models [rustvello-monitoring/src/svg/lane_assign.rs] and the construction of
    the chains in [svg/builder/mod.rs]: the history of each invocation is cut into
    chains of consecutive entries of one runner, and every chain gets a lane of its
    runner, the first one where it overlaps nothing.  Chains that are only dots are
    deferred and share lane 0.

    The theorems: the chains of an invocation are the maximal runs of its history;
    [LaneOccupancy::overlaps], a binary search with an early exit, finds exactly
    the overlaps on the lanes the assignment builds; no two chains of a lane
    overlap; and a chain is put on a lane only when on every lane below another chain
    of its runner is running at its start. *)
From S2P Require Import Prelude Effects Identifiers Status Invocation.

(** [slice::binary_search_by] on sorted keys: any position of an equal key, or the
    place where the key would go. *)
Class BinarySearch := {
  binary_search : list Z → Z → nat + nat;
  binary_search_spec l k : StronglySorted Z.le l →
    match binary_search l k with
    | inl i => l !! i = Some k
    | inr i => (i ≤ length l)%nat ∧ Forall (λ x, x < k) (take i l) ∧ Forall (λ x, k < x) (drop i l)
    end
}.

(** ** Chains *)

(* @src rustvello-monitoring/src/svg/lane_assign.rs 13-29 ElementChain *)
Record ElementChain := mkChain {
  ch_invocation_id : string;
  ch_runner_id : string;
  ch_start : DateTime;
  ch_end : DateTime;
  ch_deferred : bool;
  ch_lane_index : nat;
  ch_entry_start : nat;
  ch_entry_end : nat
}.

(* @src rustvello-monitoring/src/svg/lane_assign.rs 31-50 ElementChain::new *)
Definition chain_new (invocation_id runner_id : string) (start finish : DateTime) (deferred : bool) : ElementChain :=
  mkChain invocation_id runner_id start finish deferred 0 0 0.

Definition with_lane (k : nat) (c : ElementChain) : ElementChain :=
  mkChain (ch_invocation_id c) (ch_runner_id c) (ch_start c) (ch_end c) (ch_deferred c) k
    (ch_entry_start c) (ch_entry_end c).

Definition with_entries (a b : nat) (c : ElementChain) : ElementChain :=
  mkChain (ch_invocation_id c) (ch_runner_id c) (ch_start c) (ch_end c) (ch_deferred c) (ch_lane_index c) a b.

(** The runner an entry counts for. *)
(* @src rustvello-monitoring/src/svg/builder/mod.rs 242-258 TimelineDataBuilder::build_chains *)
Definition effective_runner (e : InvocationHistory) : string :=
  match hist_runner_id e with
  | Some r => r
  | None => default "unassigned" (rec_runner_id (hist_status_record e))
  end.

Definition entry_time (e : InvocationHistory) : DateTime := rec_timestamp (hist_status_record e).

(** The chain of the entries [a..b] of an invocation. *)
(* @src rustvello-monitoring/src/svg/builder/mod.rs 264-278 TimelineDataBuilder::build_chains *)
Definition group_chain (inv_id : string) (entries : list InvocationHistory) (a b : nat) : list ElementChain :=
  let group := take (b - a) (drop a entries) in
  match group with
  | [] => []
  | first :: _ =>
      let latest := List.last group first in
      let deferred := (length group =? 1)%nat && bool_decide (rec_status (hist_status_record first) = Registered) in
      [with_entries a b (chain_new inv_id (effective_runner first) (entry_time first) (entry_time latest) deferred)]
  end.

(** The body of the loop over [1..=entries.len()]. *)
(* @src rustvello-monitoring/src/svg/builder/mod.rs 261-281 TimelineDataBuilder::build_chains *)
Definition group_step (inv_id : string) (entries : list InvocationHistory)
    (st : nat * list ElementChain) (i : nat) : nat * list ElementChain :=
  let effective := effective_runner <$> entries in
  if bool_decide (i = length entries) || negb (bool_decide (effective !! i = effective !! st.1))
  then (i, st.2 ++ group_chain inv_id entries st.1 i)
  else st.

Definition invocation_chains (inv_id : string) (entries : list InvocationHistory) : list ElementChain :=
  match entries with
  | [] => []
  | _ => (fold_left (group_step inv_id entries) (seq 1 (length entries)) (0%nat, [])).2
  end.

(** The histories are a hash map. *)
(* @src rustvello-monitoring/src/svg/builder/mod.rs 234-285 TimelineDataBuilder::build_chains *)
Definition build_chains `{HashOrder} (histories : gmap string (list InvocationHistory)) : list ElementChain :=
  mjoin ((λ p, invocation_chains p.1 p.2) <$> map_iter histories).

(** [entries.sort_by_key(|e| e.status_record.timestamp)]. *)
(* @src rustvello-monitoring/src/svg/builder/mod.rs 123-126 TimelineDataBuilder::build *)
Definition sort_histories (histories : gmap string (list InvocationHistory)) : gmap string (list InvocationHistory) :=
  sort_by (λ a b, entry_time a <=? entry_time b) <$> histories.

(** ** Occupancy *)

(** The intervals of a lane, as (end, start), by their ends. *)
(* @src rustvello-monitoring/src/svg/lane_assign.rs 52-58 LaneOccupancy *)
Abbreviation LaneOccupancy := (list (DateTime * DateTime)).

Section lanes.
Context {BS : BinarySearch}.

Definition search_end (l : LaneOccupancy) (t : DateTime) : nat :=
  match binary_search (fst <$> l) t with inl i => i | inr i => i end.

(** The loop over the intervals from the found one on. *)
(* @src rustvello-monitoring/src/svg/lane_assign.rs 69-77 LaneOccupancy::overlaps *)
Fixpoint overlaps_forward (start finish : DateTime) (l : LaneOccupancy) : bool :=
  match l with
  | [] => false
  | (e, s) :: rest =>
      if finish <=? s then false
      else if (start <? e) && (s <? finish) then true
      else overlaps_forward start finish rest
  end.

(** The loop backwards over those before. *)
(* @src rustvello-monitoring/src/svg/lane_assign.rs 79-89 LaneOccupancy::overlaps *)
Fixpoint overlaps_backward (start finish : DateTime) (l : LaneOccupancy) : bool :=
  match l with
  | [] => false
  | (e, s) :: rest =>
      if e <=? start then false
      else if (start <? e) && (s <? finish) then true
      else overlaps_backward start finish rest
  end.

(* @src rustvello-monitoring/src/svg/lane_assign.rs 60-92 LaneOccupancy::overlaps *)
Definition overlaps (l : LaneOccupancy) (start finish : DateTime) : bool :=
  let idx := search_end l start in
  if overlaps_forward start finish (drop idx l) then true
  else if (0 <? idx)%nat then overlaps_backward start finish (rev (take idx l))
  else false.

(* @src rustvello-monitoring/src/svg/lane_assign.rs 94-101 LaneOccupancy::insert *)
Definition lane_insert (start finish : DateTime) (l : LaneOccupancy) : LaneOccupancy :=
  let pos := search_end l finish in take pos l ++ (finish, start) :: drop pos l.

(** The first lane without an overlap takes the chain, or a new one. *)
(* @src rustvello-monitoring/src/svg/lane_assign.rs 141-161 assign_to_lane *)
Fixpoint first_fit (start finish : DateTime) (lanes : list LaneOccupancy) : list LaneOccupancy * nat :=
  match lanes with
  | [] => ([lane_insert start finish []], 0%nat)
  | lane :: rest =>
      if negb (overlaps lane start finish) then (lane_insert start finish lane :: rest, 0%nat)
      else let '(rest', k) := first_fit start finish rest in (lane :: rest', S k)
  end.

(** The lanes of every runner, and the chains. *)
Definition LaneState : Type := gmap string (list LaneOccupancy) * list ElementChain.

(* @src rustvello-monitoring/src/svg/lane_assign.rs 136-161 assign_to_lane *)
Definition assign_to_lane (st : LaneState) (i : nat) : LaneState :=
  match st.2 !! i with
  | None => st
  | Some c =>
      let '(lanes, k) := first_fit (ch_start c) (ch_end c) (default [] (st.1 !! ch_runner_id c)) in
      (<[ch_runner_id c := lanes]> st.1, <[i := with_lane k c]> st.2)
  end.

(** Deferred chains go on lane 0 whatever is there. *)
(* @src rustvello-monitoring/src/svg/lane_assign.rs 124-132 assign_lanes *)
Definition defer_chain (st : LaneState) (i : nat) : LaneState :=
  match st.2 !! i with
  | None => st
  | Some c =>
      let lanes := match default [] (st.1 !! ch_runner_id c) with [] => [[]] | lanes => lanes end in
      let lanes := match lanes with l :: rest => lane_insert (ch_start c) (ch_end c) l :: rest | [] => [] end in
      (<[ch_runner_id c := lanes]> st.1, <[i := with_lane 0 c]> st.2)
  end.

(** The positions of the chains of one kind, by their start; the sort is stable. *)
(* @src rustvello-monitoring/src/svg/lane_assign.rs 109-114 assign_lanes *)
Definition pass_order (deferred : bool) (chains : list ElementChain) : list nat :=
  (sort_by (λ a b, ch_start a.2 <=? ch_start b.2)
     (bfilter (λ p, Bool.eqb (ch_deferred p.2) deferred) (zip (seq 0 (length chains)) chains))).*1.

(* @src rustvello-monitoring/src/svg/lane_assign.rs 103-133 assign_lanes *)
Definition assign_lanes (chains : list ElementChain) : list ElementChain :=
  let st := fold_left assign_to_lane (pass_order false chains) (∅, chains) in
  (fold_left defer_chain (pass_order true chains) st).2.
End lanes.

(** ** Overlaps *)

(** Two intervals, as (end, start), have a time in common. *)
Definition clash (x y : DateTime * DateTime) : Prop := x.2 < y.1 ∧ y.2 < x.1.

#[export] Instance clash_dec x y : Decision (clash x y).
Proof. unfold clash. apply _. Defined.

(** A lane is in order and free of overlaps. *)
Record lane_wf (l : LaneOccupancy) : Prop := {
  lw_sorted : StronglySorted Z.le (fst <$> l);
  lw_disjoint x y : x ∈ l → y ∈ l → x = y ∨ ¬ clash x y
}.

Lemma StronglySorted_split (l : list Z) i :
  StronglySorted Z.le l → ∀ x y, x ∈ take i l → y ∈ drop i l → x ≤ y.
Proof. intros Hl x y. rewrite <-(take_drop i l) in Hl. by apply StronglySorted_app_1_elem_of. Qed.

Lemma elem_of_drop_in {A} (x : A) i l : x ∈ drop i l → x ∈ l.
Proof. intros Hx. rewrite <-(take_drop i l). apply elem_of_app. by right. Qed.

Section occupancy.
Context {BS : BinarySearch}.

Lemma search_end_spec (l : LaneOccupancy) t :
  StronglySorted Z.le (fst <$> l) →
  (∀ x, x ∈ take (search_end l t) l → x.1 ≤ t) ∧ (∀ x, x ∈ drop (search_end l t) l → t ≤ x.1).
Proof.
  intros Hs. pose proof (binary_search_spec _ t Hs) as Hb. unfold search_end.
  assert (∀ i x, x ∈ take i l → x.1 ∈ take i (fst <$> l)) as Htake
    by (intros i x Hx; rewrite <-fmap_take; by apply list_elem_of_fmap_2).
  assert (∀ i x, x ∈ drop i l → x.1 ∈ drop i (fst <$> l)) as Hdrop
    by (intros i x Hx; rewrite <-fmap_drop; by apply list_elem_of_fmap_2).
  destruct (binary_search (fst <$> l) t) as [i|i].
  - pose proof (StronglySorted_split _ i Hs) as Hsplit.
    rewrite (drop_S (fst <$> l) t i) in Hsplit by done. split.
    + intros x Hx%Htake. apply Hsplit; [done|by left].
    + intros x Hx%Hdrop. rewrite (drop_S (fst <$> l) t i) in Hx by done.
      apply elem_of_cons in Hx as [->|Hx]; [done|].
      pose proof (StronglySorted_split _ (S i) Hs t x.1) as Ht. apply Ht; [|done].
      rewrite (take_S_r _ _ t) by done. set_solver.
  - destruct Hb as (_ & Hl & Hr). rewrite list.Forall_forall in Hl. rewrite list.Forall_forall in Hr.
    split; intros x Hx.
    + apply Htake, Hl in Hx. lia.
    + apply Hdrop, Hr in Hx. lia.
Qed.

Lemma backward_none start finish l : (∀ x, x ∈ l → x.1 ≤ start) → overlaps_backward start finish l = false.
Proof.
  destruct l as [|[e s] l]; [done|]. intros Hl. simpl. specialize (Hl (e, s)). simpl in Hl.
  by rewrite (proj2 (Z.leb_le e start)) by (apply Hl; left).
Qed.

Lemma forward_correct start finish l :
  StronglySorted Z.le (fst <$> l) → (∀ x y, x ∈ l → y ∈ l → x = y ∨ ¬ clash x y) →
  (∀ x, x ∈ l → start ≤ x.1 ∧ x.2 ≤ start) → start ≤ finish →
  overlaps_forward start finish l = true ↔ ∃ x, x ∈ l ∧ clash x (finish, start).
Proof.
  induction l as [|[e s] l IH]; intros Hs Hd Hb Hle; simpl.
  { split; [done|]. by intros (x & ?%elem_of_nil & _). }
  simpl in Hs. apply StronglySorted_inv in Hs as [Hs He]. rewrite list.Forall_forall in He.
  destruct (Hb (e, s)) as [Hb1 Hb2]; [by left|]. simpl in Hb1, Hb2.
  destruct (finish <=? s) eqn:Hf.
  - apply Z.leb_le in Hf. assert (s = start ∧ finish = start) as [-> ->] by lia.
    split; [done|]. intros ([e' s'] & Hin & Hc). unfold clash in Hc. simpl in Hc.
    apply elem_of_cons in Hin as [Heq|Hin]; [simplify_eq; lia|].
    assert (e ≤ e') by (apply He; by apply list_elem_of_fmap_2 with (f := fst) in Hin).
    destruct (Hd (e, start) (e', s')) as [Heq|Hno]; [by left|by right|simplify_eq; lia|].
    destruct Hno. unfold clash. simpl. lia.
  - apply Z.leb_gt in Hf. destruct ((start <? e) && (s <? finish)) eqn:Hov.
    + split; [|done]. intros _. exists (e, s). split; [by left|]. unfold clash. simpl. lia.
    + rewrite IH; [|done| |by intros x Hx; apply Hb; right|done].
      2: { intros x y Hx Hy. apply Hd; by right. }
      split.
      * intros (x & Hx & Hc). exists x. split; [by right|done].
      * intros (x & Hx & Hc). apply elem_of_cons in Hx as [->|Hx]; [|by exists x].
        exfalso. unfold clash in Hc. simpl in Hc. lia.
Qed.

(** On a lane in order whose intervals all start before it, an interval overlaps
    exactly if it clashes with one of them. *)
Lemma overlaps_correct l start finish :
  lane_wf l → (∀ x, x ∈ l → x.2 ≤ start) → start ≤ finish →
  overlaps l start finish = true ↔ ∃ x, x ∈ l ∧ clash x (finish, start).
Proof.
  intros [Hs Hd] Hst Hle. destruct (search_end_spec l start Hs) as [Hlo Hhi].
  unfold overlaps. set (i := search_end l start) in *.
  assert (overlaps_backward start finish (rev (take i l)) = false) as Hback.
  { apply backward_none. intros x Hx. apply Hlo. apply list_elem_of_In in Hx. apply list_elem_of_In. by apply in_rev. }
  assert (overlaps_forward start finish (drop i l) = true ↔ ∃ x, x ∈ drop i l ∧ clash x (finish, start)) as Hfwd.
  { apply forward_correct; [| | |done].
    - rewrite fmap_drop. rewrite <-(take_drop i (fst <$> l)) in Hs. by apply StronglySorted_app_1_r in Hs.
    - intros x y Hx Hy. apply Hd; by eapply elem_of_drop_in.
    - intros x Hx. split; [by apply Hhi|]. apply Hst. by eapply elem_of_drop_in. }
  rewrite Hback. transitivity (overlaps_forward start finish (drop i l) = true).
  { destruct (overlaps_forward _ _ _); [done|]. by destruct (0 <? i)%nat. }
  rewrite Hfwd. split; intros (x & Hx & Hc).
  - exists x. split; [by eapply elem_of_drop_in|done].
  - exists x. split; [|done]. rewrite <-(take_drop i l) in Hx. apply elem_of_app in Hx as [Hx|Hx]; [|done].
    apply Hlo in Hx. unfold clash in Hc. simpl in Hc. lia.
Qed.

Lemma elem_of_lane_insert x start finish l : x ∈ lane_insert start finish l ↔ x = (finish, start) ∨ x ∈ l.
Proof.
  unfold lane_insert. rewrite elem_of_app, elem_of_cons. set (i := search_end l finish).
  rewrite <-(take_drop i l) at 3. rewrite elem_of_app. tauto.
Qed.

Lemma lane_insert_wf start finish l :
  lane_wf l → (∀ x, x ∈ l → ¬ clash x (finish, start)) → lane_wf (lane_insert start finish l).
Proof.
  intros [Hs Hd] Hno. destruct (search_end_spec l finish Hs) as [Hlo Hhi]. split.
  - unfold lane_insert. set (i := search_end l finish) in *. rewrite fmap_app. simpl.
    pose proof Hs as Hs'. rewrite <-(take_drop i l), fmap_app in Hs'.
    apply StronglySorted_app in Hs' as (Hx & Hl & Hr). apply StronglySorted_app. split_and!; [|done|].
    + intros x1 x2 H1 H2. apply elem_of_cons in H2 as [->|H2]; [|by apply Hx].
      apply list_elem_of_fmap in H1 as (y & -> & Hy). by apply Hlo.
    + constructor; [done|]. apply list.Forall_forall. intros x (y & -> & Hy)%list_elem_of_fmap. by apply Hhi.
  - assert (∀ x y, clash x y → clash y x) as Hsym by (unfold clash; tauto).
    intros x y Hx Hy. apply elem_of_lane_insert in Hx as [->|Hx], Hy as [->|Hy]; [by left| | |by apply Hd].
    + right. intros Hc%Hsym. by apply (Hno y).
    + right. by apply Hno.
Qed.

(** *** First fit *)

(** The chosen lane is the first without an overlap. *)
Lemma first_fit_spec start finish lanes lanes' k :
  first_fit start finish lanes = (lanes', k) →
  (k ≤ length lanes)%nat ∧
  lanes' = take k lanes ++ lane_insert start finish (default [] (lanes !! k)) :: drop (S k) lanes ∧
  (∀ j l, (j < k)%nat → lanes !! j = Some l → overlaps l start finish = true) ∧
  (∀ l, lanes !! k = Some l → overlaps l start finish = false).
Proof.
  revert lanes' k. induction lanes as [|l lanes IH]; intros lanes' k; simpl.
  { intros [= <- <-]. split_and!; [lia|done|lia|done]. }
  destruct (overlaps l start finish) eqn:Hov; simpl.
  - destruct (first_fit start finish lanes) as [rest k'] eqn:Hrest. intros [= <- <-].
    destruct (IH rest k' eq_refl) as (Hk & Hl & Hbefore & Hfree). split_and!; [lia|by rewrite Hl| |done].
    intros [|j] l' Hj Hl'; simpl in Hl'; [by simplify_eq|]. apply (Hbefore j); [lia|done].
  - intros [= <- <-]. split_and!; [lia|by rewrite drop_0|lia|]. intros l' [= <-]. done.
Qed.

Lemma lookup_first_fit start finish lanes lanes' k j :
  first_fit start finish lanes = (lanes', k) →
  lanes' !! j = if decide (j = k) then Some (lane_insert start finish (default [] (lanes !! k))) else lanes !! j.
Proof.
  intros (Hk & -> & _)%first_fit_spec. assert (length (take k lanes) = k) as Hlen by (rewrite length_take; lia).
  destruct (decide (j = k)) as [->|Hne].
  - rewrite lookup_app_r by lia. by rewrite Hlen, Nat.sub_diag.
  - destruct (decide (j < k)%nat) as [Hlt|Hge].
    + rewrite lookup_app_l by lia. by apply lookup_take_lt.
    + rewrite lookup_app_r by lia. rewrite Hlen. replace (j - k)%nat with (S (j - S k)) by lia. simpl.
      rewrite lookup_drop. f_equal. lia.
Qed.
End occupancy.

(** ** The first pass *)

Definition interval_of (c : ElementChain) : DateTime * DateTime := (ch_end c, ch_start c).

(** The chain is running when [c] starts. *)
Definition runs_at_start_of (c c' : ElementChain) : Prop :=
  ch_runner_id c' = ch_runner_id c ∧ ch_start c' ≤ ch_start c < ch_end c'.

(** After the chains at the positions [placed] have their lanes. *)
Record pass_inv (chains : list ElementChain) (placed : list nat) (st : LaneState) : Prop := {
  pi_length : length st.2 = length chains;
  pi_same i c : st.2 !! i = Some c → ∃ c0, chains !! i = Some c0 ∧ c = with_lane (ch_lane_index c) c0 ∧ (i ∉ placed → c = c0);
  pi_lane r k l : default [] (st.1 !! r) !! k = Some l → lane_wf l ∧
    ∀ x, x ∈ l ↔ ∃ i c, i ∈ placed ∧ st.2 !! i = Some c ∧ ch_runner_id c = r ∧ ch_lane_index c = k ∧ x = interval_of c;
  pi_bound i c : i ∈ placed → st.2 !! i = Some c →
    (ch_lane_index c < length (default [] (st.1 !! ch_runner_id c)))%nat;
  pi_apart i j c c' : i ∈ placed → j ∈ placed → i ≠ j → st.2 !! i = Some c → st.2 !! j = Some c' →
    ch_runner_id c = ch_runner_id c' → ch_lane_index c = ch_lane_index c' → ¬ clash (interval_of c) (interval_of c');
  pi_needed i c : i ∈ placed → st.2 !! i = Some c → ∀ l, (l < ch_lane_index c)%nat →
    ∃ j c', j ∈ placed ∧ st.2 !! j = Some c' ∧ ch_lane_index c' = l ∧ runs_at_start_of c c'
}.

Lemma pass_inv_start chains : pass_inv chains [] (∅, chains).
Proof.
  split; simpl; try done; try (by intros ? ? ?%elem_of_nil); try (by intros ? ? ? ? ?%elem_of_nil).
  intros i c Hc. exists c. split_and!; [done|by destruct c|done].
Qed.

(** The intervals of a lane of a runner, also of the lane after the last. *)
Lemma pass_lane chains placed st r k :
  pass_inv chains placed st → (k ≤ length (default [] (st.1 !! r)))%nat →
  let l := default [] (default [] (st.1 !! r) !! k) in
  lane_wf l ∧
  ∀ x, x ∈ l ↔ ∃ i c, i ∈ placed ∧ st.2 !! i = Some c ∧ ch_runner_id c = r ∧ ch_lane_index c = k ∧ x = interval_of c.
Proof.
  intros Hi Hk. destruct (default [] (st.1 !! r) !! k) as [l|] eqn:Hl; simpl; [by eapply pi_lane|].
  split; [split; [constructor|by intros x y ?%elem_of_nil]|]. intros x. split; [by intros ?%elem_of_nil|].
  intros (i & c & Hin & Hc & Hr & Hlane & _). pose proof (pi_bound _ _ _ Hi i c Hin Hc) as Hb.
  rewrite Hr, Hlane in Hb. apply lookup_ge_None in Hl. lia.
Qed.

(** *** One chain *)

Section step.
Context {BS : BinarySearch}.
Context (chains : list ElementChain) (placed : list nat) (st : LaneState) (i : nat) (c : ElementChain).
Context (Hi : pass_inv chains placed st) (Hnew : i ∉ placed) (Hc : st.2 !! i = Some c).
Context (Hle : ch_start c ≤ ch_end c).
Context (Hbefore : ∀ j c', j ∈ placed → st.2 !! j = Some c' → ch_start c' ≤ ch_start c).
Context (lanes' : list LaneOccupancy) (k : nat).
Context (Hfit : first_fit (ch_start c) (ch_end c) (default [] (st.1 !! ch_runner_id c)) = (lanes', k)).

Abbreviation lanes := (default [] (st.1 !! ch_runner_id c)) (only parsing).
Abbreviation out' := (<[i := with_lane k c]> st.2) (only parsing).

Lemma step_overlaps j l :
  lanes !! j = Some l → overlaps l (ch_start c) (ch_end c) = true ↔ ∃ x, x ∈ l ∧ clash x (interval_of c).
Proof.
  intros Hl. destruct (pi_lane _ _ _ Hi _ j l Hl) as [Hwf Hin]. apply overlaps_correct; [done| |done].
  intros x Hx. apply Hin in Hx as (i' & c' & Hp & Hc' & _ & _ & ->). by eapply Hbefore.
Qed.

Lemma step_lane_free x : x ∈ default [] (lanes !! k) → ¬ clash x (interval_of c).
Proof.
  pose proof (first_fit_spec _ _ _ _ _ Hfit) as (_ & _ & _ & Hfree).
  intros Hx Hcl. destruct (lanes !! k) as [l|] eqn:Hl; simpl in Hx; [|by apply elem_of_nil in Hx].
  assert (overlaps l (ch_start c) (ch_end c) = true) as Ht by (apply (step_overlaps k l Hl); eauto).
  by rewrite (Hfree l eq_refl) in Ht.
Qed.

Lemma step_old j x : j ∈ placed → out' !! j = Some x ↔ st.2 !! j = Some x.
Proof. intros Hj. rewrite list_lookup_insert_ne; [done|]. by intros ->. Qed.

Lemma step_at : out' !! i = Some (with_lane k c).
Proof. apply list_lookup_insert_eq. by eapply lookup_lt_Some. Qed.

Lemma step_same j x : out' !! j = Some x →
  ∃ c0, chains !! j = Some c0 ∧ x = with_lane (ch_lane_index x) c0 ∧ (j ∉ i :: placed → x = c0).
Proof.
  intros Hx. apply list_lookup_insert_Some in Hx as [(<- & <- & _)|[Hne' Hx]].
  - destruct (pi_same _ _ _ Hi i c Hc) as (c0 & H0 & He & Hs). exists c0. rewrite (Hs Hnew).
    split_and!; [done|done|]. set_solver.
  - destruct (pi_same _ _ _ Hi j x Hx) as (c0 & H0 & He & Hs). exists c0. split_and!; [done|done|set_solver].
Qed.

(** The members of a lane after the step. *)
Lemma step_members r k' x :
  (∃ i' c', i' ∈ i :: placed ∧ out' !! i' = Some c' ∧ ch_runner_id c' = r ∧ ch_lane_index c' = k' ∧ x = interval_of c') ↔
  (r = ch_runner_id c ∧ k' = k ∧ x = interval_of c) ∨
  ∃ i' c', i' ∈ placed ∧ st.2 !! i' = Some c' ∧ ch_runner_id c' = r ∧ ch_lane_index c' = k' ∧ x = interval_of c'.
Proof.
  split.
  - intros (i' & c' & Hin' & Hc' & Hr' & Hk' & Hx). apply elem_of_cons in Hin' as [->|Hin'].
    + rewrite step_at in Hc'. injection Hc' as <-. by left.
    + right. exists i', c'. by rewrite step_old in Hc' by done.
  - intros [(-> & -> & ->)|(i' & c' & Hin' & Hc' & Hrest)].
    + exists i, (with_lane k c). split_and!; [by left|apply step_at|done..].
    + exists i', c'. split; [by right|]. by rewrite step_old.
Qed.

Lemma step_lane r k' l :
  default [] (<[ch_runner_id c := lanes']> st.1 !! r) !! k' = Some l → lane_wf l ∧
  ∀ x, x ∈ l ↔ ∃ i' c', i' ∈ i :: placed ∧ out' !! i' = Some c' ∧ ch_runner_id c' = r ∧ ch_lane_index c' = k' ∧
                         x = interval_of c'.
Proof.
  intros Hl. pose proof (first_fit_spec _ _ _ _ _ Hfit) as (Hk & _ & _).
  destruct (pass_lane chains placed st (ch_runner_id c) k Hi Hk) as [Hwf Hin].
  destruct (decide (r = ch_runner_id c)) as [->|Hr'].
  - rewrite lookup_insert_eq in Hl. simpl in Hl. rewrite (lookup_first_fit _ _ _ _ _ _ Hfit) in Hl.
    case_decide as Hkk.
    + subst k'. injection Hl as <-. split; [apply lane_insert_wf; [done|apply step_lane_free]|].
      intros x. rewrite step_members, elem_of_lane_insert, Hin. clear. unfold interval_of. tauto.
    + destruct (pi_lane _ _ _ Hi _ k' l Hl) as [Hwf' Hin']. split; [done|]. intros x.
      rewrite step_members, Hin'. clear -Hkk. tauto.
  - rewrite lookup_insert_ne in Hl by done. destruct (pi_lane _ _ _ Hi r k' l Hl) as [Hwf' Hin'].
    split; [done|]. intros x. rewrite step_members, Hin'. clear -Hr'. tauto.
Qed.

Lemma step_bound j x : j ∈ i :: placed → out' !! j = Some x →
  (ch_lane_index x < length (default [] (<[ch_runner_id c := lanes']> st.1 !! ch_runner_id x)))%nat.
Proof.
  intros Hj Hx. pose proof (λ j, lookup_first_fit _ _ _ _ _ j Hfit) as Hlanes'.
  assert (is_Some (lanes' !! k)) as [lk Hlk] by (rewrite Hlanes', decide_True by done; eauto).
  apply elem_of_cons in Hj as [->|Hj].
  - rewrite step_at in Hx. injection Hx as <-. simpl. rewrite lookup_insert_eq. simpl. by eapply lookup_lt_Some.
  - apply step_old in Hx; [|done]. pose proof (pi_bound _ _ _ Hi j x Hj Hx) as Hb.
    destruct (decide (ch_runner_id x = ch_runner_id c)) as [Hr|Hr]; [|by rewrite lookup_insert_ne].
    rewrite Hr, lookup_insert_eq. simpl. rewrite Hr in Hb. apply lookup_lt_is_Some in Hb as [l Hl].
    destruct (decide (ch_lane_index x = k)) as [->|Hne]; [by eapply lookup_lt_Some|].
    apply (lookup_lt_Some lanes' _ l). by rewrite Hlanes', decide_False.
Qed.

Lemma step_apart a b ca cb :
  a ∈ i :: placed → b ∈ i :: placed → a ≠ b → out' !! a = Some ca → out' !! b = Some cb →
  ch_runner_id ca = ch_runner_id cb → ch_lane_index ca = ch_lane_index cb → ¬ clash (interval_of ca) (interval_of cb).
Proof.
  pose proof (first_fit_spec _ _ _ _ _ Hfit) as (Hk & _ & _).
  destruct (pass_lane chains placed st (ch_runner_id c) k Hi Hk) as [_ Hin].
  assert (∀ j c', j ∈ placed → st.2 !! j = Some c' → ch_runner_id c' = ch_runner_id c → ch_lane_index c' = k →
    ¬ clash (interval_of c') (interval_of c)) as Hfar.
  { intros j c' Hj Hc' Hr Hlane. apply step_lane_free, Hin. by exists j, c'. }
  intros Ha Hb Hab Hca Hcb Hr Hlane.
  apply elem_of_cons in Ha as [->|Ha], Hb as [->|Hb]; [done| | |].
  - rewrite step_at in Hca. injection Hca as <-. apply step_old in Hcb; [|done]. intros Hcl.
    apply (Hfar b cb Hb Hcb); [done..|]. unfold clash, interval_of in *. simpl in *. tauto.
  - rewrite step_at in Hcb. injection Hcb as <-. apply step_old in Hca; [|done]. intros Hcl.
    by apply (Hfar a ca Ha Hca).
  - apply step_old in Hca, Hcb; [|done..]. by eapply (pi_apart _ _ _ Hi a b).
Qed.

Lemma step_needed j x : j ∈ i :: placed → out' !! j = Some x → ∀ l, (l < ch_lane_index x)%nat →
  ∃ y c', y ∈ i :: placed ∧ out' !! y = Some c' ∧ ch_lane_index c' = l ∧ runs_at_start_of x c'.
Proof.
  pose proof (first_fit_spec _ _ _ _ _ Hfit) as (Hk & _ & Hfull & _).
  intros Hj Hx l Hl. apply elem_of_cons in Hj as [->|Hj].
  - rewrite step_at in Hx. injection Hx as <-. simpl in Hl.
    destruct (lanes !! l) as [occ|] eqn:Hocc; [|apply lookup_ge_None in Hocc; lia].
    destruct (proj1 (step_overlaps l occ Hocc) (Hfull l occ Hl Hocc)) as (x & Hx & Hcl).
    apply (pi_lane _ _ _ Hi _ l occ Hocc) in Hx as (y & c' & Hp & Hc' & Hr & Hlane & ->).
    exists y, c'. split_and!; [by right|by apply step_old|done|]. split; [done|]. split; [by eapply Hbefore|apply Hcl].
  - apply step_old in Hx; [|done]. destruct (pi_needed _ _ _ Hi j x Hj Hx l Hl) as (y & c' & Hp & Hc' & Hlane & Hrun).
    exists y, c'. split_and!; [by right|by apply step_old|done|done].
Qed.
End step.

Section passes.
Context {BS : BinarySearch}.

Lemma assign_step chains placed st i c :
  pass_inv chains placed st → i ∉ placed → st.2 !! i = Some c → ch_start c ≤ ch_end c →
  (∀ j c', j ∈ placed → st.2 !! j = Some c' → ch_start c' ≤ ch_start c) →
  pass_inv chains (i :: placed) (assign_to_lane st i).
Proof.
  intros Hi Hnew Hc Hle Hbefore. unfold assign_to_lane. rewrite Hc.
  destruct (first_fit _ _ _) as [lanes' k] eqn:Hfit. split; simpl.
  - rewrite length_insert. apply Hi.
  - by eapply step_same.
  - by eapply step_lane.
  - by eapply step_bound.
  - by eapply step_apart.
  - by eapply step_needed.
Qed.

(** The positions a pass goes through. *)
Lemma elem_of_positions deferred chains p :
  p ∈ sort_by (λ a b, ch_start a.2 <=? ch_start b.2)
        (bfilter (λ p, Bool.eqb (ch_deferred p.2) deferred) (zip (seq 0 (length chains)) chains)) ↔
  chains !! p.1 = Some p.2 ∧ ch_deferred p.2 = deferred.
Proof.
  rewrite elem_of_sort_by, elem_of_bfilter, eqb_true_iff. destruct p as [i c]. simpl.
  split; intros [H1 H2]; first [split; [|done]|split; [done|]].
  - apply list_elem_of_lookup in H2 as [j Hj]. apply lookup_zip_Some in Hj as [Hs Hc].
    apply lookup_seq in Hs as [-> _]. done.
  - apply list_elem_of_lookup. exists i. apply lookup_zip_Some. split; [|done].
    apply lookup_seq. split; [done|]. by eapply lookup_lt_Some.
Qed.

Lemma elem_of_pass_order deferred chains i :
  i ∈ pass_order deferred chains ↔ ∃ c, chains !! i = Some c ∧ ch_deferred c = deferred.
Proof.
  unfold pass_order. rewrite list_elem_of_fmap. split.
  - intros (p & -> & Hp%elem_of_positions). by exists p.2.
  - intros (c & Hc & Hd). exists (i, c). split; [done|]. by apply elem_of_positions.
Qed.

Lemma NoDup_pass_order deferred chains : NoDup (pass_order deferred chains).
Proof.
  unfold pass_order. rewrite sort_by_perm. apply NoDup_fmap_bfilter.
  rewrite fst_zip by (by rewrite length_seq). apply NoDup_seq.
Qed.

Lemma pass_order_sorted deferred chains i j a b ca cb :
  (a < b)%nat → pass_order deferred chains !! a = Some i → pass_order deferred chains !! b = Some j →
  chains !! i = Some ca → chains !! j = Some cb → ch_start ca ≤ ch_start cb.
Proof.
  intros Hab Ha Hb Hca Hcb. unfold pass_order in *. rewrite list_lookup_fmap in Ha, Hb.
  set (ps := sort_by _ _) in *.
  destruct (ps !! a) as [pa|] eqn:Hpa; [|done]. destruct (ps !! b) as [pb|] eqn:Hpb; [|done]. simplify_eq/=.
  assert (pa ∈ ps ∧ pb ∈ ps) as [Hina Hinb] by (split; by eapply list_elem_of_lookup_2).
  apply elem_of_positions in Hina as [Ha _], Hinb as [Hb _]. rewrite Hca in Ha. rewrite Hcb in Hb. simplify_eq.
  set (leb := λ x y : nat * ElementChain, ch_start x.2 <=? ch_start y.2) in *.
  assert (StronglySorted (le_of leb) ps) as Hs.
  { apply Sorted_StronglySorted; [intros x y z; unfold le_of, leb; rewrite !Z.leb_le; lia|].
    apply sort_by_sorted. intros x y. unfold le_of, leb. rewrite !Z.leb_le. lia. }
  assert (le_of leb pa pb) as Hle.
  { rewrite <-(take_drop b ps) in Hs. eapply StronglySorted_app_1_elem_of; [exact Hs| |].
    - apply (list_elem_of_lookup_2 _ a). by rewrite lookup_take_lt.
    - apply (list_elem_of_lookup_2 _ 0). rewrite lookup_drop. by rewrite Nat.add_0_r. }
  by apply Z.leb_le.
Qed.

Lemma first_pass chains order placed st :
  pass_inv chains placed st → NoDup order → (∀ i, i ∈ order → (i ∉ placed) ∧ (i < length chains)%nat) →
  (∀ i c, i ∈ order → chains !! i = Some c → ch_start c ≤ ch_end c) →
  (∀ i j c c', i ∈ placed → j ∈ order → chains !! i = Some c → chains !! j = Some c' → ch_start c ≤ ch_start c') →
  (∀ a b i j c c', (a < b)%nat → order !! a = Some i → order !! b = Some j → chains !! i = Some c → chains !! j = Some c' →
    ch_start c ≤ ch_start c') →
  ∃ placed', (∀ i, i ∈ placed' ↔ i ∈ order ∨ i ∈ placed) ∧
    pass_inv chains placed' (fold_left assign_to_lane order st).
Proof.
  intros Hi Hnd. revert placed st Hi. induction Hnd as [|i order Hn Hnd IH]; intros placed st Hi Hfresh Hlen Hpl Hord.
  { exists placed. split; [set_solver|done]. }
  destruct (Hfresh i) as [Hnew Hlt]; [by left|]. rewrite <-(pi_length _ _ _ Hi) in Hlt.
  apply lookup_lt_is_Some in Hlt as [c Hc].
  destruct (pi_same _ _ _ Hi i c Hc) as (c0 & Hc0 & _ & Heq). rewrite <-(Heq Hnew) in Hc0.
  assert (pass_inv chains (i :: placed) (assign_to_lane st i)) as Hi'.
  { apply (assign_step chains placed st i c); [done|done|exact Hc|by apply (Hlen i); [left|]|].
    intros j c' Hj Hc'. destruct (pi_same _ _ _ Hi j c' Hc') as (c1 & Hc1 & -> & _). simpl.
    eapply (Hpl j i); [done|by left|done|done]. }
  destruct (IH _ _ Hi') as (placed' & Hin & Hfin).
  - intros j Hj. split; [|apply Hfresh; by right]. rewrite elem_of_cons. intros [->|Hp]; [done|].
    by apply (Hfresh j); [right|].
  - intros j cj Hj. apply Hlen. by right.
  - intros a b ca cb Ha Hb Hca Hcb. apply elem_of_cons in Ha as [->|Ha].
    + apply list_elem_of_lookup in Hb as [n Hb]. by eapply (Hord 0%nat (S n)); [lia|..].
    + eapply Hpl; [exact Ha|by right|done|done].
  - intros a b x y cx cy Hab Hx Hy. by apply (Hord (S a) (S b)); [lia|..].
  - exists placed'. split; [|done]. intros j. rewrite Hin, !elem_of_cons. tauto.
Qed.

(** The second pass puts its chains on lane 0 and leaves the others alone. *)
Lemma second_pass order st :
  NoDup order →
  let out := (fold_left defer_chain order st).2 in
  length out = length st.2 ∧
  (∀ i, i ∉ order → out !! i = st.2 !! i) ∧ (∀ i, i ∈ order → out !! i = (with_lane 0 <$> st.2 !! i)).
Proof.
  intros Hnd. revert st. induction Hnd as [|i order Hn Hnd IH]; intros st; [split_and!; [done|done|by intros i ?%elem_of_nil]|].
  cbn [fold_left]. destruct (IH (defer_chain st i)) as (Hlen & Hout & Hin). cbv zeta in *.
  assert (length (defer_chain st i).2 = length st.2 ∧ (∀ j, j ≠ i → (defer_chain st i).2 !! j = st.2 !! j) ∧
    (defer_chain st i).2 !! i = (with_lane 0 <$> st.2 !! i)) as (Hl & Ho & Hat).
  { unfold defer_chain. destruct (st.2 !! i) as [c|] eqn:Hc; [|rewrite Hc; done]. simpl. split_and!.
    - apply length_insert.
    - intros j Hj. by apply list_lookup_insert_ne.
    - apply list_lookup_insert_eq. by eapply lookup_lt_Some. }
  split_and!; [congruence| |].
  - intros j Hj. rewrite Hout by set_solver. apply Ho. set_solver.
  - intros j Hj. apply elem_of_cons in Hj as [->|Hj]; [by rewrite Hout|].
    rewrite Hin by done. rewrite Ho; [done|]. by intros ->.
Qed.

(** The whole assignment. *)
Lemma assigned chains :
  (∀ c, c ∈ chains → ch_start c ≤ ch_end c) →
  ∃ placed st, pass_inv chains placed st ∧ (∀ i, i ∈ placed ↔ ∃ c, chains !! i = Some c ∧ ch_deferred c = false) ∧
    length (assign_lanes chains) = length chains ∧
    (∀ i c, chains !! i = Some c → ch_deferred c = true → assign_lanes chains !! i = Some (with_lane 0 c)) ∧
    (∀ i, i ∈ placed → assign_lanes chains !! i = st.2 !! i).
Proof.
  intros Hle.
  destruct (first_pass chains (pass_order false chains) [] (∅, chains)) as (placed & Hin & Hi).
  - apply pass_inv_start.
  - apply NoDup_pass_order.
  - intros i (c & Hc & _)%elem_of_pass_order. split; [apply not_elem_of_nil|by eapply lookup_lt_Some].
  - intros i c _ Hc. apply Hle. by eapply list_elem_of_lookup_2.
  - by intros i j c c' ?%elem_of_nil.
  - intros a b i j c c' Hab Ha Hb Hc Hc'. by eapply (pass_order_sorted false chains).
  - set (st := fold_left assign_to_lane _ _) in *. exists placed, st.
    assert (∀ i, i ∈ placed ↔ ∃ c, chains !! i = Some c ∧ ch_deferred c = false) as Hreg
      by (intros i; rewrite Hin, elem_of_pass_order, elem_of_nil; tauto).
    destruct (second_pass (pass_order true chains) st (NoDup_pass_order true chains)) as (Hl & Ho & Hd).
    split_and!; [done|done| | |].
    + unfold assign_lanes. fold st. rewrite Hl. apply Hi.
    + intros i c Hc Hdef. unfold assign_lanes. fold st. rewrite Hd by (apply elem_of_pass_order; eauto).
      assert (is_Some (st.2 !! i)) as [c' Hc'] by (apply lookup_lt_is_Some; rewrite (pi_length _ _ _ Hi); by eapply lookup_lt_Some).
      destruct (pi_same _ _ _ Hi i c' Hc') as (c0 & Hc0 & Heq & _). rewrite Hc', Heq. simpl. by simplify_eq.
    + intros i Hp. unfold assign_lanes. fold st. apply Ho. rewrite elem_of_pass_order.
      apply Hreg in Hp as (c & Hc & Hdef). intros (c' & Hc' & Hdef'). congruence.
Qed.
End passes.

(** ** The chains of a history *)

Definition chain_entries (entries : list InvocationHistory) (c : ElementChain) : list InvocationHistory :=
  take (ch_entry_end c - ch_entry_start c) (drop (ch_entry_start c) entries).

(** A chain stands for some consecutive entries of its runner. *)
Definition chain_of_run (inv_id : string) (entries : list InvocationHistory) (c : ElementChain) : Prop :=
  ch_invocation_id c = inv_id ∧
  ∃ first rest, chain_entries entries c = first :: rest ∧
    Forall (λ e, effective_runner e = ch_runner_id c) (first :: rest) ∧
    ch_start c = entry_time first ∧ ch_end c = entry_time (List.last (first :: rest) first) ∧
    ch_deferred c = bool_decide (rest = [] ∧ rec_status (hist_status_record first) = Registered).

(** Neighbours belong to different runners, so no run could be longer. *)
Definition alternating (cs : list ElementChain) : Prop :=
  ∀ j c c', cs !! j = Some c → cs !! S j = Some c' → ch_runner_id c ≠ ch_runner_id c'.

Record runs_inv (inv_id : string) (entries : list InvocationHistory) (i : nat) (st : nat * list ElementChain) : Prop := {
  ri_start : (st.1 < i)%nat;
  ri_same j : (st.1 ≤ j < i)%nat → (effective_runner <$> entries) !! j = (effective_runner <$> entries) !! st.1;
  ri_chains : Forall (chain_of_run inv_id entries) st.2;
  ri_cover : mjoin (chain_entries entries <$> st.2) = take st.1 entries;
  ri_alternating : alternating st.2;
  ri_last c : List.last (Some <$> st.2) None = Some c →
    (effective_runner <$> entries) !! st.1 ≠ Some (ch_runner_id c)
}.

Lemma take_slice {A} a b (l : list A) : (a ≤ b)%nat → take a l ++ take (b - a) (drop a l) = take b l.
Proof. intros Hab. rewrite take_take_drop. f_equal. lia. Qed.

(** The chain of the entries [a..b]. *)
Lemma group_chain_spec inv_id entries a b r :
  (a < b ≤ length entries)%nat → (∀ j, (a ≤ j < b)%nat → (effective_runner <$> entries) !! j = Some r) →
  ∃ c, group_chain inv_id entries a b = [c] ∧ chain_of_run inv_id entries c ∧ ch_runner_id c = r ∧
    chain_entries entries c = take (b - a) (drop a entries).
Proof.
  intros Hab Hr. unfold group_chain.
  destruct (take (b - a) (drop a entries)) as [|first rest] eqn:Hg.
  { apply (f_equal length) in Hg. rewrite length_take, length_drop in Hg. simpl in Hg. lia. }
  assert (∀ e, e ∈ first :: rest → effective_runner e = r) as Hall.
  { intros e (j & Hj)%list_elem_of_lookup. rewrite <-Hg in Hj. apply lookup_take_Some in Hj as [Hj Hlt].
    rewrite lookup_drop in Hj. specialize (Hr (a + j)%nat). rewrite list_lookup_fmap, Hj in Hr.
    simpl in Hr. enough (Some (effective_runner e) = Some r) as [= He] by done. apply Hr. lia. }
  eexists. split; [reflexivity|]. unfold chain_of_run, chain_entries. simpl. rewrite Hg. split_and!; try done.
  - exists first, rest. split_and!; try done.
    + apply list.Forall_forall. intros e He. rewrite (Hall e He). symmetry. apply Hall. by left.
    + apply eq_true_iff_eq. rewrite andb_true_iff, !bool_decide_eq_true, Nat.eqb_eq.
      split; intros [? ?]; (split; [|done]); [by destruct rest|by subst].
  - apply Hall. by left.
Qed.

Lemma last_Some_app {A} (l : list A) x : List.last (Some <$> (l ++ [x])) None = Some x.
Proof. rewrite fmap_app. simpl. by rewrite List.last_last. Qed.

Lemma group_step_inv inv_id entries i st :
  (i ≤ length entries)%nat → runs_inv inv_id entries i st →
  let st' := group_step inv_id entries st i in
  if decide (i = length entries) then
    Forall (chain_of_run inv_id entries) st'.2 ∧ mjoin (chain_entries entries <$> st'.2) = entries ∧ alternating st'.2
  else runs_inv inv_id entries (S i) st'.
Proof.
  intros Hi [Hlt Hsame Hch Hcov Halt Hlast] st'.
  assert (is_Some ((effective_runner <$> entries) !! st.1)) as [r Hr]
    by (apply lookup_lt_is_Some; rewrite length_fmap; lia).
  destruct (group_chain_spec inv_id entries st.1 i r) as (c & Hc & Hrun & Hcr & Hce); [lia| |].
  { intros j Hj. by rewrite Hsame. }
  assert (Forall (chain_of_run inv_id entries) (st.2 ++ [c])) as Hch' by (apply Forall_app; split; [done|by constructor]).
  assert (mjoin (chain_entries entries <$> st.2 ++ [c]) = take i entries) as Hcov'.
  { rewrite fmap_app, join_app. simpl. rewrite Hcov, Hce, app_nil_r. apply take_slice. lia. }
  assert (alternating (st.2 ++ [c])) as Halt'.
  { intros j x y Hx Hy. apply lookup_app_Some in Hy as [Hy|[Hge Hy]].
    - rewrite lookup_app_l in Hx by (apply lookup_lt_Some in Hy; lia). by eapply Halt.
    - destruct (S j - length st.2)%nat as [|n] eqn:Hn; simpl in Hy; [|done]. injection Hy as <-.
      rewrite lookup_app_l in Hx by lia. intros Heq. apply (Hlast x); [|by rewrite Hr, <-Hcr, Heq].
      destruct st.2 as [|z l] eqn:Hs using rev_ind; [by rewrite lookup_nil in Hx|].
      rewrite last_Some_app. rewrite length_app in Hn, Hge. simpl in Hn, Hge.
      rewrite lookup_app_r in Hx by lia. replace (j - length l)%nat with 0%nat in Hx by lia. done. }
  unfold st', group_step. rewrite Hc. destruct (decide (i = length entries)) as [->|Hne].
  - rewrite bool_decide_true by done. simpl. split_and!; [done| |done]. rewrite Hcov'. by apply take_ge.
  - rewrite (bool_decide_false (i = _)) by done. simpl. case_bool_decide as Heq; simpl.
    + split; [lia| |done..]. intros j Hj. destruct (decide (j = i)) as [->|Hji]; [done|]. apply Hsame. lia.
    + split; simpl; [lia| |done|done|done|].
      * intros j Hj. by replace j with i by lia.
      * intros c'. rewrite last_Some_app. intros [= <-]. by rewrite Hcr, <-Hr.
Qed.

Lemma group_steps inv_id entries n i st :
  (i + n = length entries)%nat → (0 < n)%nat → runs_inv inv_id entries (S i) st →
  let st' := fold_left (group_step inv_id entries) (seq (S i) n) st in
  Forall (chain_of_run inv_id entries) st'.2 ∧ mjoin (chain_entries entries <$> st'.2) = entries ∧ alternating st'.2.
Proof.
  revert i st. induction n as [|n IH]; [lia|]. intros i st Hlen _ Hi. cbn [seq fold_left].
  pose proof (group_step_inv inv_id entries (S i) st ltac:(lia) Hi) as Hs. cbv zeta in Hs. case_decide as Hend.
  - replace n with 0%nat by lia. exact Hs.
  - apply IH; [lia|lia|done].
Qed.

Lemma invocation_chains_runs inv_id entries :
  let cs := invocation_chains inv_id entries in
  Forall (chain_of_run inv_id entries) cs ∧ mjoin (chain_entries entries <$> cs) = entries ∧ alternating cs.
Proof.
  unfold invocation_chains. destruct entries as [|e entries']; [split_and!; [constructor|done|done]|].
  set (entries := e :: entries'). apply (group_steps inv_id entries (length entries) 0 (0%nat, [])); [done|simpl; lia|].
  split; simpl; [lia| |constructor|done|done|done]. intros j Hj. by replace j with 0%nat by lia.
Qed.

(** the chains of the timeline are the runs of the history.  The chains of an
    invocation, in order, cut its whole history into consecutive pieces; each piece
    has entries of one runner only and its first and last time are the chain's; two
    neighbouring chains have different runners, so no piece could be longer; and a
    chain is deferred exactly when it is a single registration. *)
Theorem chains_are_runs inv_id entries :
  let cs := invocation_chains inv_id entries in
  mjoin (chain_entries entries <$> cs) = entries ∧ alternating cs ∧
  ∀ c, c ∈ cs → chain_of_run inv_id entries c.
Proof.
  destruct (invocation_chains_runs inv_id entries) as (Hall & Hcov & Halt). split_and!; [done..|].
  rewrite list.Forall_forall in Hall. auto.
Qed.

(** Chains of sorted histories do not end before they start. *)
Lemma chain_forward inv_id entries c :
  StronglySorted (λ a b, entry_time a ≤ entry_time b) entries → chain_of_run inv_id entries c → ch_start c ≤ ch_end c.
Proof.
  intros Hs (_ & first & rest & Hg & _ & -> & -> & _).
  assert (StronglySorted (λ a b, entry_time a ≤ entry_time b) (first :: rest)) as Hr.
  { rewrite <-Hg. unfold chain_entries. rewrite <-(take_drop (ch_entry_start c) entries) in Hs.
    apply StronglySorted_app_1_r in Hs.
    rewrite <-(take_drop (ch_entry_end c - ch_entry_start c) (drop (ch_entry_start c) entries)) in Hs.
    by apply StronglySorted_app_1_l in Hs. }
  apply StronglySorted_inv in Hr as [_ Hr]. rewrite list.Forall_forall in Hr.
  destruct (decide (rest = [])) as [->|Hne]; [done|].
  apply Hr. destruct rest as [|x rest] using rev_ind; [done|].
  change (first :: rest ++ [x]) with ((first :: rest) ++ [x]). rewrite List.last_last. set_solver.
Qed.

Section timeline.
Context `{HashOrder} {BS : BinarySearch}.

Lemma built_chains_forward histories c :
  c ∈ build_chains (sort_histories histories) → ch_start c ≤ ch_end c.
Proof.
  unfold build_chains. intros (cs & Hc & Hcs)%list_elem_of_join.
  apply list_elem_of_fmap in Hcs as ([id entries] & -> & Hin). apply elem_of_map_iter in Hin. simpl in Hc.
  unfold sort_histories in Hin. rewrite lookup_fmap in Hin. destruct (histories !! id) as [l|]; [|done].
  injection Hin as <-. destruct (invocation_chains_runs id (sort_by (λ a b, entry_time a <=? entry_time b) l)) as (Hall & _ & _).
  rewrite list.Forall_forall in Hall. eapply chain_forward; [|by apply Hall].
  set (leb := λ a b, entry_time a <=? entry_time b).
  assert (StronglySorted (le_of leb) (sort_by leb l)) as Hs.
  { apply Sorted_StronglySorted; [intros x y z; unfold le_of, leb; rewrite !Z.leb_le; lia|].
    apply sort_by_sorted. intros x y. unfold le_of, leb. rewrite !Z.leb_le. lia. }
  clear -Hs. induction Hs as [|x t Ht IH Hx]; constructor; [done|].
  eapply list.Forall_impl; [exact Hx|]. intros y Hy. by apply Z.leb_le.
Qed.

(** C38: the lanes of the timeline.  For every set of histories, the assignment
    changes the lane of a chain and nothing else.  Dots - chains of a single
    registration - lie on lane 0; of the other chains, no two on the same lane of a
    runner have a time in common; and no lane is wasted: when a chain got lane [k],
    then on each of the [k] lanes below there is another chain of its runner, not a
    dot, that had started by its start and ends after it. *)
Theorem timeline_lanes_are_disjoint_and_needed histories :
  let chains := build_chains (sort_histories histories) in
  let out := assign_lanes chains in
  length out = length chains ∧
  (∀ i c, out !! i = Some c → ∃ c0, chains !! i = Some c0 ∧ c = with_lane (ch_lane_index c) c0 ∧
     (ch_deferred c = true → ch_lane_index c = 0%nat)) ∧
  (∀ i j c c', i ≠ j → out !! i = Some c → out !! j = Some c' → ch_deferred c = false → ch_deferred c' = false →
     ch_runner_id c = ch_runner_id c' → ch_lane_index c = ch_lane_index c' →
     ch_end c ≤ ch_start c' ∨ ch_end c' ≤ ch_start c) ∧
  (∀ i c, out !! i = Some c → ch_deferred c = false → ∀ l, (l < ch_lane_index c)%nat →
     ∃ j c', j ≠ i ∧ out !! j = Some c' ∧ ch_deferred c' = false ∧ ch_lane_index c' = l ∧ runs_at_start_of c c').
Proof.
  intros chains out.
  destruct (assigned chains) as (placed & st & Hi & Hreg & Hlen & Hdef & Hout); [by intros c; apply built_chains_forward|].
  assert (∀ i c, out !! i = Some c → ∃ c0, chains !! i = Some c0 ∧ c = with_lane (ch_lane_index c) c0 ∧
    (ch_deferred c = true → ch_lane_index c = 0%nat) ∧ (ch_deferred c = false → i ∈ placed ∧ st.2 !! i = Some c)) as Hall.
  { intros i c Hc. assert (is_Some (chains !! i)) as [c0 Hc0]
      by (apply lookup_lt_is_Some; rewrite <-Hlen; by eapply lookup_lt_Some).
    exists c0. split; [done|]. destruct (ch_deferred c0) eqn:Hd.
    - unfold out in Hc. rewrite (Hdef i c0 Hc0 Hd) in Hc. injection Hc as <-. simpl. by rewrite Hd.
    - assert (i ∈ placed) as Hp by (apply Hreg; eauto). unfold out in Hc. rewrite Hout in Hc by done.
      destruct (pi_same _ _ _ Hi i c Hc) as (c1 & Hc1 & Heq & _). assert (c1 = c0) as -> by congruence.
      split; [done|]. rewrite Heq. simpl. rewrite Hd. split; [done|]. by rewrite <-Heq. }
  split_and!; [done| | |].
  - intros i c Hc. destruct (Hall i c Hc) as (c0 & ? & ? & ? & _). eauto.
  - intros i j c c' Hij Hc Hc' Hd Hd' Hr Hlane.
    destruct (Hall i c Hc) as (_ & _ & _ & _ & Hpc), (Hall j c' Hc') as (_ & _ & _ & _ & Hpc').
    destruct (Hpc Hd) as [Hp Hst], (Hpc' Hd') as [Hp' Hst'].
    pose proof (pi_apart _ _ _ Hi i j c c' Hp Hp' Hij Hst Hst' Hr Hlane) as Hno.
    unfold clash, interval_of in Hno. simpl in Hno. lia.
  - intros i c Hc Hd l Hl. destruct (Hall i c Hc) as (_ & _ & _ & _ & Hpc). destruct (Hpc Hd) as [Hp Hst].
    destruct (pi_needed _ _ _ Hi i c Hp Hst l Hl) as (j & c' & Hp' & Hc' & Hlane & Hrun). exists j, c'.
    split_and!; [| | |done|exact Hrun].
    + intros ->. assert (c' = c) as -> by congruence. lia.
    + unfold out. by rewrite Hout.
    + destruct (pi_same _ _ _ Hi j c' Hc') as (c1 & Hc1 & -> & _). simpl.
      apply Hreg in Hp' as (c2 & Hc2 & Hd2). congruence.
Qed.
End timeline.

(** ** A search and what it misses *)

Fixpoint count_below (l : list Z) (k : Z) : nat :=
  match l with [] => 0%nat | x :: rest => if x <? k then S (count_below rest k) else 0%nat end.

Lemma count_below_spec l k :
  StronglySorted Z.le l →
  (count_below l k ≤ length l)%nat ∧ Forall (λ x, x < k) (take (count_below l k) l) ∧
  Forall (λ x, k ≤ x) (drop (count_below l k) l).
Proof.
  induction 1 as [|x l Hl (Hlen & Hlo & Hhi) Hx]; simpl; [split_and!; [lia|constructor|constructor]|].
  destruct (x <? k) eqn:Hk; simpl.
  - split_and!; [lia|constructor; [by apply Z.ltb_lt|done]|done].
  - apply Z.ltb_ge in Hk. split_and!; [lia|constructor|]. constructor; [done|].
    eapply list.Forall_impl; [exact Hx|]. simpl. lia.
Qed.

(** The leftmost equal key. *)
Definition leftmost_search : BinarySearch.
Proof.
  refine {| binary_search l k := let i := count_below l k in if decide (l !! i = Some k) then inl i else inr i |}.
  intros l k Hl. simpl. destruct (count_below_spec l k Hl) as (Hlen & Hlo & Hhi). case_decide as Hk; [done|].
  split_and!; [done|done|]. destruct (drop (count_below l k) l) as [|x rest] eqn:Hd; [constructor|].
  assert (l !! count_below l k = Some x) as Hx by (rewrite <-(Nat.add_0_r (count_below l k)), <-lookup_drop; by rewrite Hd).
  assert (StronglySorted Z.le (x :: rest)) as Hs.
  { rewrite <-Hd. rewrite <-(take_drop (count_below l k) l) in Hl. by apply StronglySorted_app_1_r in Hl. }
  apply StronglySorted_inv in Hs as [_ Hs]. apply List.Forall_cons_iff in Hhi as [Hkx _].
  assert (k < x) as Hlt by (destruct (decide (k = x)) as [->|]; [done|lia]).
  constructor; [done|]. eapply list.Forall_impl; [exact Hs|]. simpl. lia.
Defined.

(** The early exit relies on the intervals being disjoint, not only on their order:
    beside an interval that lies inside another one, an overlap is missed. *)
Lemma overlaps_misses_enclosing :
  let l := @lane_insert leftmost_search 1 20 (@lane_insert leftmost_search 8 10 []) in
  l = [(10, 8); (20, 1)] ∧ @overlaps leftmost_search l 5 7 = false ∧ clash (20, 1) (7, 5).
Proof. split_and!; [reflexivity|reflexivity|]. unfold clash. simpl. lia. Qed.
