(* ===== verification/Histogram.v ===== *)
(** * The occupancy histogram

    Models the data of [rustvello-monitoring/src/histogram/mod.rs]: the size of the
    buckets of a time window, the invocations that occupy each bucket in a selected
    status, and the table of tasks and runtimes beside the chart.  The SVG and the
    HTML around the numbers are left out.

    The theorems: a window never has more than 240 buckets of the default size; which
    invocations a bucket holds, exactly, and where that differs from the overlap it
    stands for; the counts of a bucket by task and by runtime add up; and so do the rows
    and columns of the table; the text form of a selection reads back as it. *)
From stdpp Require Import numbers list.
From S2P Require Import Prelude Effects Identifiers Status Invocation OrchestratorState MemStateBackend Subprocess.

(** ** Categories *)

(* @src rustvello-monitoring/src/histogram/mod.rs 31-36 HistogramCategory *)
Inductive HistogramCategory := CatRegistered | CatPending | CatRunning.

#[export] Instance HistogramCategory_eq_dec : EqDecision HistogramCategory.
Proof. solve_decision. Defined.
#[export] Instance HistogramCategory_countable : Countable HistogramCategory.
Proof.
  apply (inj_countable' (λ c, match c with CatRegistered => 0%nat | CatPending => 1%nat | CatRunning => 2%nat end)
    (λ n, match n with O => CatRegistered | S O => CatPending | _ => CatRunning end)).
  by intros [].
Defined.

(* @src rustvello-monitoring/src/histogram/mod.rs 39-39 HistogramCategory::ALL *)
Definition ALL_CATEGORIES : list HistogramCategory := [CatRegistered; CatPending; CatRunning].

(* @src rustvello-monitoring/src/histogram/mod.rs 49-55 HistogramCategory::value *)
Definition category_value (c : HistogramCategory) : string :=
  match c with CatRegistered => "registered" | CatPending => "pending" | CatRunning => "running" end.

(* @src rustvello-monitoring/src/histogram/mod.rs 57-63 HistogramCategory::label *)
Definition category_label (c : HistogramCategory) : string :=
  match c with CatRegistered => "Registered" | CatPending => "Pending" | CatRunning => "Running" end.

(** [str::split] at a character. *)
Fixpoint str_split (sep : Ascii.ascii) (s : string) : list string :=
  match s with
  | EmptyString => [""]
  | String a s' =>
      if bool_decide (a = sep) then "" :: str_split sep s'
      else match str_split sep s' with
           | piece :: rest => String a piece :: rest
           | [] => [String a ""]
           end
  end.

Definition category_of_text (item : string) : option HistogramCategory :=
  let t := str_lower (str_trim item) in
  if bool_decide (t = "registered") then Some CatRegistered
  else if bool_decide (t = "pending") then Some CatPending
  else if bool_decide (t = "running") then Some CatRunning
  else None.

(* @src rustvello-monitoring/src/histogram/mod.rs 66-84 parse_categories *)
Definition parse_categories (value : option string) : gset HistogramCategory :=
  match value with
  | None => {[CatPending; CatRunning]}
  | Some raw => list_to_set (omap category_of_text (str_split ","%char raw) : list HistogramCategory)
  end.

(* @src rustvello-monitoring/src/histogram/mod.rs 86-93 serialize_categories *)
Definition serialize_categories (categories : gset HistogramCategory) : string :=
  str_join "," (category_value <$> bfilter (λ c, bool_decide (c ∈ categories)) ALL_CATEGORIES).

(* @src rustvello-monitoring/src/histogram/mod.rs 257-270 category_for_status *)
Definition category_for_status (s : InvocationStatus) : option HistogramCategory :=
  match s with
  | Registered | Rerouted | ConcurrencyControlled => Some CatRegistered
  | Pending | PendingRecovery | Retry => Some CatPending
  | Running | RunningRecovery => Some CatRunning
  | _ => None
  end.

(* @src rustvello-monitoring/src/histogram/mod.rs 722-734 exact_statuses *)
Definition exact_statuses (selected : gset HistogramCategory) : string :=
  str_join "," (
    (if bool_decide (CatRegistered ∈ selected) then ["Registered"; "Rerouted"; "ConcurrencyControlled"] else []) ++
    (if bool_decide (CatPending ∈ selected) then ["Pending"; "PendingRecovery"; "Retry"] else []) ++
    (if bool_decide (CatRunning ∈ selected) then ["Running"; "RunningRecovery"] else [])).

(** ** Colours and runtimes *)

(* @src rustvello-monitoring/src/histogram/mod.rs 19-22 TASK_PALETTE *)
Definition TASK_PALETTE : list string :=
  ["#4c78a8"; "#f58518"; "#e45756"; "#72b7b2"; "#54a24b"; "#eeca3b"; "#b279a2"; "#ff9da6";
   "#9d755d"; "#79706e"; "#59a14f"; "#76b7b2"; "#b6992d"; "#4c9f70"; "#d37295"].

(** One step of the 32-bit FNV-1a hash. *)
Definition fnv_step (hash : Z) (byte : Ascii.ascii) : Z :=
  (Z.lxor hash (Z.of_N (Ascii.N_of_ascii byte)) * 16777619) mod 4294967296.

Fixpoint fnv_hash (hash : Z) (s : string) : Z :=
  match s with EmptyString => hash | String a s' => fnv_hash (fnv_step hash a) s' end.

(* @src rustvello-monitoring/src/histogram/mod.rs 95-103 task_color *)
Definition task_color (task_id : string) : string :=
  if bool_decide (task_id = "__other__") then "#cccccc"
  else default "" (TASK_PALETTE !! Z.to_nat (fnv_hash 2166136261 task_id mod 15)).

(* @src rustvello-monitoring/src/histogram/mod.rs 105-113 runtime_color *)
Definition runtime_color (runtime : string) : string :=
  if bool_decide (runtime = "rust") then "#ce422b"
  else if bool_decide (runtime = "python") then "#3776ab"
  else "#6c757d".

(* @src rustvello-monitoring/src/histogram/mod.rs 115-123 runtime_label *)
Definition runtime_label (runtime : string) : string :=
  if bool_decide (runtime = "rust") then "Rust workers"
  else if bool_decide (runtime = "python") then "Python workers"
  else if bool_decide (runtime = "external") then "External submitters"
  else if bool_decide (runtime = "unknown") then "Unknown runtime"
  else runtime +:+ " workers".

(* @src rustvello-monitoring/src/histogram/mod.rs 125-133 runtime_short_label *)
Definition runtime_short_label (runtime : string) : string :=
  if bool_decide (runtime = "rust") then "Rust"
  else if bool_decide (runtime = "python") then "Python"
  else if bool_decide (runtime = "external") then "External"
  else if bool_decide (runtime = "unknown") then "Unknown"
  else runtime.

(* @src rustvello-monitoring/src/histogram/mod.rs 135-143 runtime_order *)
Definition runtime_order (runtime : string) : Z * string :=
  (if bool_decide (runtime = "rust") then 0
   else if bool_decide (runtime = "python") then 1
   else if bool_decide (runtime = "external") then 2
   else if bool_decide (runtime = "unknown") then 3
   else 9, runtime).

(** The order of such pairs. *)
Definition runtime_leb (a b : string) : bool :=
  let '(x, s) := runtime_order a in
  let '(y, t) := runtime_order b in
  (x <? y) || ((x =? y) && str_leb s t).

(* @src rustvello-monitoring/src/histogram/mod.rs 145-150 language_from_task_id *)
Definition language_from_task_id (task_id : string) : string :=
  match str_split_first_cc task_id with Some (language, _) => language | None => "unknown" end.

(** ** Entries *)

(* @src rustvello-monitoring/src/histogram/mod.rs 272-280 HistogramEntry *)
Record HistogramEntry := mkHistogramEntry {
  he_invocation_id : string;
  he_task_id : string;
  he_runner_id : option string;
  he_runner_language : option string;
  he_status : InvocationStatus;
  he_timestamp : DateTime
}.

(* @src rustvello-monitoring/src/histogram/mod.rs 152-158 runner_id_for_history *)
Definition runner_id_for_history (h : InvocationHistory) : option string :=
  match hist_runner_id h with Some r => Some r | None => rec_runner_id (hist_status_record h) end.

(* @src rustvello-monitoring/src/histogram/mod.rs 287-308 HistogramEntry::from_history_with_runner_contexts *)
Definition from_history_with_runner_contexts (h : InvocationHistory) (task_id : string)
    (runner_contexts : gmap string StoredRunnerContext) : HistogramEntry :=
  let runner_id := runner_id_for_history h in
  mkHistogramEntry (hist_invocation_id h) task_id runner_id
    (context ← (id ← runner_id; runner_contexts !! id); Some (language_as_str (rc_runner_language context)))
    (rec_status (hist_status_record h)) (rec_timestamp (hist_status_record h)).

(* @src rustvello-monitoring/src/histogram/mod.rs 283-285 HistogramEntry::from_history *)
Definition from_history (h : InvocationHistory) (task_id : string) : HistogramEntry :=
  from_history_with_runner_contexts h task_id ∅.

(** ** Buckets *)

(** The counts of the three categories and the identifiers by key, in order. *)
(* @src rustvello-monitoring/src/histogram/mod.rs 311-323 HistogramBucket *)
Record HistogramBucket := mkBucket {
  hb_start : DateTime;
  hb_end : DateTime;
  hb_counts : HistogramCategory → nat;
  hb_counts_by_task : gmap string nat;
  hb_counts_by_runtime : gmap string nat;
  hb_counts_by_runtime_task : gmap string (gmap string nat);
  hb_invocation_ids_by_runtime : gmap string (list string);
  hb_runner_ids_by_runtime : gmap string (list string);
  hb_invocation_ids_by_category : HistogramCategory → list string;
  hb_invocation_ids : list string
}.

(* @src rustvello-monitoring/src/histogram/mod.rs 326-328 HistogramBucket::total_count *)
Definition total_count (b : HistogramBucket) : nat := length (hb_invocation_ids b).

(* @src rustvello-monitoring/src/histogram/mod.rs 331-340 HistogramData *)
Record HistogramData := mkHistogramData {
  hd_start : DateTime;
  hd_end : DateTime;
  hd_bucket_size : Z;
  hd_buckets : list HistogramBucket;
  hd_selected : gset HistogramCategory;
  hd_max_count : nat;
  hd_empty_reason : option string
}.

Definition max_of (l : list nat) : nat := foldr Nat.max 0%nat l.

(* @src rustvello-monitoring/src/histogram/mod.rs 343-350 HistogramData::peak_worker_count *)
Definition peak_worker_count (d : HistogramData) : nat :=
  max_of (length <$> (hd_buckets d ≫= λ b, (btree_iter (hb_runner_ids_by_runtime b)).*2)).

(** ** Bucket sizes *)

(** Durations are nanoseconds; [TimeDelta::num_milliseconds] truncates. *)
Definition num_milliseconds (d : Z) : Z := Z.quot d 1000000.
Definition milliseconds (ms : Z) : Z := ms * 1000000.

(* @src rustvello-monitoring/src/histogram/mod.rs 14-14 MAX_BUCKETS *)
Definition MAX_BUCKETS : Z := 240.
(* @src rustvello-monitoring/src/histogram/mod.rs 15-15 TARGET_BUCKETS *)
Definition TARGET_BUCKETS : Z := 220.

(* @src rustvello-monitoring/src/histogram/mod.rs 355-373 bucket_size_for_window *)
Definition semantic_bucket_ms (ms : Z) : Z :=
  let seconds := (ms + 999) ÷ 1000 in
  if ms <=? 5000 then 250
  else if ms <=? 30000 then 500
  else if ms <=? 60000 then 1000
  else if seconds <=? 15 * 60 then 5000
  else if seconds <=? 60 * 60 then 15000
  else if seconds <=? 3 * 60 * 60 then 60000
  else if seconds <=? 12 * 60 * 60 then 5 * 60000
  else if seconds <=? 3 * 24 * 60 * 60 then 30 * 60000
  else 60 * 60000.

(* @src rustvello-monitoring/src/histogram/mod.rs 353-384 bucket_size_for_window *)
Definition bucket_size_for_window (duration : Z) : Z :=
  let ms := Z.max (num_milliseconds duration) 1 in
  let minimum_for_bucket_cap := (ms + MAX_BUCKETS - 1) ÷ MAX_BUCKETS in
  let maximum_for_detail := Z.max (ms ÷ TARGET_BUCKETS) 1 in
  milliseconds (Z.max (Z.min (semantic_bucket_ms ms) maximum_for_detail) minimum_for_bucket_cap).

(** ** The histogram *)

(** What the loops insert for one invocation in one bucket. *)
Record Mark := mkMark {
  mk_bucket : nat;
  mk_category : HistogramCategory;
  mk_task : string;
  mk_runtime : string;
  mk_invocation : string;
  mk_runner : option string
}.

(** The sets of one bucket. *)
Record BucketSets := mkBucketSets {
  bs_category : HistogramCategory → gset string;
  bs_task : gmap string (gset string);
  bs_runtime : gmap string (gset string);
  bs_runtime_task : gmap string (gmap string (gset string));
  bs_runtime_runner : gmap string (gset string)
}.

Definition sets_new : BucketSets := mkBucketSets (λ _, ∅) ∅ ∅ ∅ ∅.

(* @src rustvello-monitoring/src/histogram/mod.rs 490-522 build_histogram *)
Definition add_mark (m : Mark) (b : BucketSets) : BucketSets :=
  {| bs_category := λ c, if decide (c = mk_category m) then {[mk_invocation m]} ∪ bs_category b c else bs_category b c;
     bs_task := insert_member (mk_task m) (mk_invocation m) (bs_task b);
     bs_runtime := insert_member (mk_runtime m) (mk_invocation m) (bs_runtime b);
     bs_runtime_task := <[mk_runtime m :=
       insert_member (mk_task m) (mk_invocation m) (default ∅ (bs_runtime_task b !! mk_runtime m))]> (bs_runtime_task b);
     bs_runtime_runner :=
       if decide (mk_category m = CatRunning) then
         match mk_runner m with
         | Some r => insert_member (mk_runtime m) r (bs_runtime_runner b)
         | None => bs_runtime_runner b
         end
       else bs_runtime_runner b |}.

(** The window and its buckets: [w_count] buckets of [w_size]. *)
Record Window := mkWindow { w_start : DateTime; w_end : DateTime; w_size : Z; w_count : Z }.

(** [k as i32]. *)
Definition as_i32 (k : Z) : Z := (k + 2 ^ 31) mod 2 ^ 32 - 2 ^ 31.

(* @src rustvello-monitoring/src/histogram/mod.rs 531-532 build_histogram *)
Definition bucket_start (w : Window) (k : Z) : DateTime := w_start w + w_size w * as_i32 k.
Definition bucket_end (w : Window) (k : Z) : DateTime := Z.min (bucket_start w k + w_size w) (w_end w).

(** [first..=last]. *)
Definition inclusive_range (first last : Z) : list Z := seqZ first (last - first + 1).

(** The time an entry occupies: from its own to the next one's, within the window;
    a span shorter than a bucket counts as a point. *)
Definition interval_start (w : Window) (e : HistogramEntry) : DateTime := Z.max (he_timestamp e) (w_start w).
Definition interval_end (w : Window) (next : option HistogramEntry) : DateTime :=
  Z.min (match next with Some n => he_timestamp n | None => w_end w end) (w_end w).
Definition is_point_status (w : Window) (lo hi : DateTime) : bool := (hi <=? lo) || (hi - lo <? w_size w).

(** The buckets the loop goes through and keeps. *)
(* @src rustvello-monitoring/src/histogram/mod.rs 456-489 build_histogram *)
Definition occupied_buckets (w : Window) (lo hi : DateTime) : list Z :=
  let size_ms := num_milliseconds (w_size w) in
  let point := is_point_status w lo hi in
  if point && negb ((w_start w <=? lo) && (lo <? w_end w)) then []
  else
    let occupied_end := if point then lo + 1000 else hi in
    let first := Z.max (num_milliseconds (lo - w_start w) ÷ size_ms) 0 in
    let interval_end_ms := num_milliseconds (occupied_end - w_start w) in
    let last := if point then Z.min first (w_count w - 1)
                else Z.min ((interval_end_ms + size_ms - 1) ÷ size_ms - 1) (w_count w - 1) in
    bfilter (λ k,
        if point then (bucket_start w k <=? lo) && (lo <? bucket_end w k)
        else (lo <? bucket_end w k) && (bucket_start w k <? hi))
      (inclusive_range first last).

(* @src rustvello-monitoring/src/histogram/mod.rs 439-455 build_histogram *)
Definition entry_marks (w : Window) (selected : gset HistogramCategory) (invocation_id task_id : string)
    (entry : HistogramEntry) (next : option HistogramEntry) : list Mark :=
  match category_for_status (he_status entry) with
  | None => []
  | Some category =>
      if negb (bool_decide (category ∈ selected)) || is_terminal (he_status entry) then []
      else
        let runtime := if decide (category = CatRunning)
                       then default (language_from_task_id task_id) (he_runner_language entry)
                       else language_from_task_id task_id in
        (λ k, mkMark (Z.to_nat k) category task_id runtime invocation_id (he_runner_id entry)) <$>
          occupied_buckets w (interval_start w entry) (interval_end w next)
  end.

Fixpoint history_marks (w : Window) (selected : gset HistogramCategory) (invocation_id task_id : string)
    (history : list HistogramEntry) : list Mark :=
  match history with
  | [] => []
  | entry :: rest =>
      entry_marks w selected invocation_id task_id entry (head rest) ++
      history_marks w selected invocation_id task_id rest
  end.

(** [sort_by_key] and the first task id that is not empty. *)
Definition sort_history (history : list HistogramEntry) : list HistogramEntry :=
  sort_by (λ a b, he_timestamp a <=? he_timestamp b) history.

Definition history_task (history : list HistogramEntry) : string :=
  match list_find (λ e, he_task_id e ≠ "") history with Some (_, e) => he_task_id e | None => "unknown" end.

(* @src rustvello-monitoring/src/histogram/mod.rs 426-432 build_histogram *)
Definition histories_of (entries : list HistogramEntry) : gmap string (list HistogramEntry) :=
  fold_left (λ m e, push_entry (he_invocation_id e) e m) entries ∅.

(* @src rustvello-monitoring/src/histogram/mod.rs 433-527 build_histogram *)
Definition all_marks `{HashOrder} (w : Window) (selected : gset HistogramCategory) (entries : list HistogramEntry) :
    list Mark :=
  map_iter (histories_of entries) ≫= λ p,
    let history := sort_history p.2 in
    history_marks w selected p.1 (history_task history) history.

Definition sizes (m : gmap string (gset string)) : gmap string nat := size <$> m.
Definition id_lists (m : gmap string (gset string)) : gmap string (list string) := (λ X, str_sort (elements X)) <$> m.

(** The identifiers of all categories. *)
Definition category_union (b : BucketSets) : gset string := ⋃ (bs_category b <$> ALL_CATEGORIES).

(* @src rustvello-monitoring/src/histogram/mod.rs 530-578 build_histogram *)
Definition finish_bucket (w : Window) (index : nat) (b : BucketSets) : HistogramBucket :=
  {| hb_start := bucket_start w (Z.of_nat index);
     hb_end := bucket_end w (Z.of_nat index);
     hb_counts := λ c, size (bs_category b c);
     hb_counts_by_task := sizes (bs_task b);
     hb_counts_by_runtime := sizes (bs_runtime b);
     hb_counts_by_runtime_task := sizes <$> bs_runtime_task b;
     hb_invocation_ids_by_runtime := id_lists (bs_runtime b);
     hb_runner_ids_by_runtime := id_lists (bs_runtime_runner b);
     hb_invocation_ids_by_category := λ c, str_sort (elements (bs_category b c));
     hb_invocation_ids := str_sort (elements (category_union b)) |}.

Definition histogram_window (start finish : DateTime) (size : Z) : Window :=
  let size_ms := num_milliseconds size in
  mkWindow start finish size (Z.max ((num_milliseconds (finish - start) + size_ms - 1) ÷ size_ms) 1).

(** The sets after all insertions. *)
Definition filled_sets (w : Window) (marks : list Mark) : list BucketSets :=
  fold_left (λ bs m, alter (add_mark m) (mk_bucket m) bs) marks (replicate (Z.to_nat (w_count w)) sets_new).

(** [start + size * i] and [.. + size]: both must be within [chrono]'s range. *)
Definition bucket_in_range `{Chrono} (w : Window) (k : Z) : bool :=
  bool_decide (datetime_min ≤ bucket_start w k) && bool_decide (bucket_start w k + w_size w ≤ datetime_max).

(** The assertion on the size panics, and so does a time out of range: the loops
    compute the times of every bucket.  The sum of the lengths of the window and of a
    bucket fits in 64 bits of milliseconds, and the buckets fit in memory. *)
(* @src rustvello-monitoring/src/histogram/mod.rs 386-591 build_histogram *)
Definition build_histogram `{HashOrder} `{Chrono} (entries : list HistogramEntry) (start finish : DateTime)
    (selected : gset HistogramCategory) (explicit_bucket_size : option Z) : outcome Empty_set HistogramData :=
  let default_size := bucket_size_for_window (finish - start) in
  let empty reason := Ok (mkHistogramData start finish default_size [] selected 0 (Some reason)) in
  if finish <=? start then empty "Invalid time range."
  else if bool_decide (selected = ∅) then empty "Select at least one status."
  else if bool_decide (entries = []) then empty "No invocation history in this time range."
  else
    let bucket_size := default default_size explicit_bucket_size in
    if negb (0 <? num_milliseconds bucket_size) then Panic "bucket size must be positive"
    else
      let w := histogram_window start finish bucket_size in
      if negb (forallb (bucket_in_range w) (seqZ 0 (w_count w))) then Panic "`DateTime + TimeDelta` overflowed"
      else
        let sets := filled_sets w (all_marks w selected entries) in
        let buckets := imap (finish_bucket w) sets in
        let max_count := max_of (total_count <$> buckets) in
        Ok (mkHistogramData start finish bucket_size buckets selected max_count
              (if (max_count =? 0)%nat then Some "No selected statuses occupied this time range." else None)).

(** ** The table beside the chart *)

(* @src rustvello-monitoring/src/histogram/mod.rs 23-23 MAX_TASK_LEGEND *)
Definition MAX_TASK_LEGEND : nat := 12.

(** The totals of the tasks over all buckets. *)
Definition task_totals (d : HistogramData) : gmap string nat :=
  foldl (λ totals b, union_with (λ x y, Some (x + y)%nat) totals (hb_counts_by_task b)) ∅ (hd_buckets d).

(** The most frequent tasks first; equal ones by name. *)
(* @src rustvello-monitoring/src/histogram/mod.rs 160-182 task_series *)
Definition task_series (d : HistogramData) : list string * bool :=
  let ordered := sort_by (λ a b, (b.2 <? a.2)%nat || ((a.2 =? b.2)%nat && str_leb a.1 b.1)) (btree_iter (task_totals d)) in
  ((take MAX_TASK_LEGEND ordered).*1, (MAX_TASK_LEGEND <? length ordered)%nat).

(* @src rustvello-monitoring/src/histogram/mod.rs 184-189 VisibleTask *)
Record VisibleTask := mkVisibleTask { vt_id : string; vt_label : string; vt_color : string }.

(* @src rustvello-monitoring/src/histogram/mod.rs 191-209 visible_tasks *)
Definition visible_tasks (d : HistogramData) : list VisibleTask :=
  let '(ids, has_other) := task_series d in
  ((λ t, mkVisibleTask t t (task_color t)) <$> ids) ++
  (if has_other then [mkVisibleTask "__other__" "Other" (task_color "__other__")] else []).

(* @src rustvello-monitoring/src/histogram/mod.rs 211-225 histogram_groups *)
Definition histogram_groups (d : HistogramData) : list string :=
  sort_by runtime_leb (str_sort (elements (⋃ ((λ b, dom (hb_counts_by_runtime b)) <$> hd_buckets d) : gset string))).

(* @src rustvello-monitoring/src/histogram/mod.rs 227-246 bucket_task_counts *)
Definition bucket_task_counts (counts_by_task : gmap string nat) (visible : gset string) : list (string * nat) :=
  let counts := btree_iter counts_by_task in
  let other := sum_list (bfilter (λ p, negb (bool_decide (p.1 ∈ visible))) counts).*2 in
  bfilter (λ p, bool_decide (p.1 ∈ visible) && (0 <? p.2)%nat) counts ++
  (if (0 <? other)%nat then [("__other__", other)] else []).

(* @src rustvello-monitoring/src/histogram/mod.rs 248-255 bucket_task_counts_for_runtime *)
Definition bucket_task_counts_for_runtime (counts_by_task : option (gmap string nat)) (visible : gset string) :
    list (string * nat) :=
  match counts_by_task with Some counts => bucket_task_counts counts visible | None => [] end.

(* @src rustvello-monitoring/src/histogram/mod.rs 764-782 task_count_for_runtime *)
Definition task_count_for_runtime (b : HistogramBucket) (runtime task_id : string) (visible : gset string) : nat :=
  match hb_counts_by_runtime_task b !! runtime with
  | None => 0
  | Some counts =>
      if bool_decide (task_id = "__other__") then
        sum_list (bfilter (λ p, negb (bool_decide (p.1 ∈ visible))) (btree_iter counts)).*2
      else default 0%nat (counts !! task_id)
  end.

(** The total of a task for one runtime: the body of the loop over the groups. *)
(* @src rustvello-monitoring/src/histogram/mod.rs 784-801 task_totals_by_runtime *)
Definition task_total_of_runtime (d : HistogramData) (runtime task_id : string) (visible : gset string) : nat :=
  sum_list ((λ b, task_count_for_runtime b runtime task_id visible) <$> hd_buckets d).

Definition task_totals_by_runtime (d : HistogramData) (groups : list string) (task_id : string) (visible : gset string) :
    gmap string nat :=
  list_to_map ((λ runtime, (runtime, task_total_of_runtime d runtime task_id visible)) <$> groups).

(* @src rustvello-monitoring/src/histogram/mod.rs 803-814 runtime_total *)
Definition runtime_total (d : HistogramData) (runtime : string) : nat :=
  sum_list ((λ b, default 0%nat (hb_counts_by_runtime b !! runtime)) <$> hd_buckets d).

(* @src rustvello-monitoring/src/histogram/mod.rs 816-828 peak_workers *)
Definition peak_workers (d : HistogramData) (runtime : string) : nat :=
  max_of ((λ b, default 0%nat (length <$> hb_runner_ids_by_runtime b !! runtime)) <$> hd_buckets d).

(** The visible tasks without the collective row. *)
(* @src rustvello-monitoring/src/histogram/mod.rs 836-840 render_client_data_json *)
Definition visible_task_set (tasks : list VisibleTask) : gset string :=
  list_to_set (bfilter (λ id, negb (bool_decide (id = "__other__"))) (vt_id <$> tasks)).

(** ** The size and the place of the buckets *)

Lemma num_milliseconds_whole (ms : Z) : num_milliseconds (milliseconds ms) = ms.
Proof. unfold num_milliseconds, milliseconds. rewrite Z.quot_mul; lia. Qed.

(** The least count that covers a length. *)
Lemma ceil_div (a b : Z) (Ha : 0 ≤ a) (Hb : 0 < b) :
  let n := (a + b - 1) ÷ b in a ≤ n * b ∧ (n - 1) * b < a ∧ 0 ≤ n.
Proof.
  cbn zeta. rewrite Z.quot_div_nonneg by lia.
  pose proof (Z.div_mod (a + b - 1) b ltac:(lia)) as Hdm.
  pose proof (Z.mod_pos_bound (a + b - 1) b Hb). nia.
Qed.

Lemma num_milliseconds_floor (d : Z) (Hd : 0 ≤ d) :
  milliseconds (num_milliseconds d) ≤ d ∧ d < milliseconds (num_milliseconds d + 1) ∧ 0 ≤ num_milliseconds d.
Proof.
  unfold milliseconds, num_milliseconds. rewrite Z.quot_div_nonneg by lia.
  pose proof (Z.div_mod d 1000000 ltac:(lia)) as Hdm.
  pose proof (Z.mod_pos_bound d 1000000 ltac:(lia)). lia.
Qed.

Lemma as_i32_small (k : Z) (Hk : 0 ≤ k < 2 ^ 31) : as_i32 k = k.
Proof. unfold as_i32. rewrite Z.mod_small; lia. Qed.

(** A window whose buckets are a whole number of milliseconds long, and whose bucket
    numbers fit in 32 bits. *)
Record whole_window (w : Window) (ms : Z) : Prop := mkWhole {
  whole_size : w_size w = milliseconds ms;
  whole_positive : 0 < ms;
  whole_ordered : w_start w < w_end w;
  whole_count : w_count w = Z.max ((num_milliseconds (w_end w - w_start w) + ms - 1) ÷ ms) 1;
  whole_few : w_count w ≤ 2 ^ 31
}.

Lemma histogram_window_whole (start finish ms : Z) (Ho : start < finish) (Hms : 0 < ms)
    (Hfew : w_count (histogram_window start finish (milliseconds ms)) ≤ 2 ^ 31) :
  whole_window (histogram_window start finish (milliseconds ms)) ms.
Proof. split; [done..| |done]. cbn. by rewrite num_milliseconds_whole. Qed.

Lemma whole_num (w : Window) (ms : Z) (W : whole_window w ms) : num_milliseconds (w_size w) = ms.
Proof. rewrite (whole_size _ _ W). apply num_milliseconds_whole. Qed.

Lemma whole_start (w : Window) (ms : Z) (W : whole_window w ms) k (Hk : 0 ≤ k < w_count w) :
  bucket_start w k = w_start w + milliseconds ms * k.
Proof.
  pose proof (whole_few _ _ W). unfold bucket_start. rewrite as_i32_small by lia. by rewrite (whole_size _ _ W).
Qed.

(** Every bucket starts inside the window, and together the buckets reach its last
    whole millisecond. *)
Lemma whole_cover (w : Window) (ms : Z) (W : whole_window w ms) :
  1 ≤ w_count w ∧ (∀ k, 0 ≤ k < w_count w → w_start w ≤ w_start w + milliseconds ms * k < w_end w) ∧
  w_start w + milliseconds (num_milliseconds (w_end w - w_start w)) ≤ w_start w + milliseconds ms * w_count w.
Proof.
  destruct W as [Hsize Hpos Hord Hcount _].
  pose proof (num_milliseconds_floor (w_end w - w_start w) ltac:(lia)) as (Hlo & Hhi & Hnn).
  pose proof (ceil_div _ _ Hnn Hpos) as (Hc1 & Hc2 & Hc3).
  unfold milliseconds in *. rewrite Hcount.
  split; [lia|]. split; [|nia].
  intros k Hk. split; [nia|].
  destruct (decide ((num_milliseconds (w_end w - w_start w) + ms - 1) ÷ ms ≤ 0)); [assert (k = 0) as -> by lia; lia|].
  nia.
Qed.

Lemma default_size_whole (d : Z) : ∃ ms, 0 < ms ∧ bucket_size_for_window d = milliseconds ms ∧
  Z.max (num_milliseconds d) 1 ≤ ms * MAX_BUCKETS.
Proof.
  unfold bucket_size_for_window.
  set (ms := Z.max (num_milliseconds d) 1). set (cap := (ms + MAX_BUCKETS - 1) ÷ MAX_BUCKETS).
  pose proof (ceil_div ms MAX_BUCKETS ltac:(lia) ltac:(done)) as (Hcap & _ & _). fold cap in Hcap.
  eexists. split; [|split; [reflexivity|]]; unfold MAX_BUCKETS in *; lia.
Qed.

(** The default size makes at most 240 buckets. *)
Lemma default_window_count (start finish ms : Z) (Ho : start < finish) (Hms : 0 < ms)
    (Hcap : Z.max (num_milliseconds (finish - start)) 1 ≤ ms * MAX_BUCKETS) :
  w_count (histogram_window start finish (milliseconds ms)) ≤ MAX_BUCKETS.
Proof.
  cbn. rewrite num_milliseconds_whole.
  pose proof (num_milliseconds_floor (finish - start) ltac:(lia)) as (_ & _ & Hnn).
  pose proof (ceil_div (num_milliseconds (finish - start)) ms Hnn Hms) as (_ & Hc & _).
  unfold MAX_BUCKETS in *. nia.
Qed.

(** a histogram with the default size of buckets never has more than 240 of them,
    each a whole, positive number of milliseconds long; each bucket lies in the window
    and is not empty, it ends where the next one starts, and every instant of the
    window, up to its last whole millisecond, lies in exactly one of them. *)
Theorem window_is_partitioned (start finish : DateTime) (Ho : start < finish) :
  let size := bucket_size_for_window (finish - start) in
  let w := histogram_window start finish size in
  (∃ ms, 0 < ms ∧ size = milliseconds ms) ∧ 1 ≤ w_count w ≤ MAX_BUCKETS ∧
  (∀ k, 0 ≤ k < w_count w → start ≤ bucket_start w k < bucket_end w k ∧ bucket_end w k ≤ finish) ∧
  (∀ k, 0 ≤ k < w_count w - 1 → bucket_end w k = bucket_start w (k + 1)) ∧
  (∀ t, start ≤ t < start + milliseconds (num_milliseconds (finish - start)) →
     exists! k, 0 ≤ k < w_count w ∧ bucket_start w k ≤ t < bucket_end w k).
Proof.
  cbn zeta. destruct (default_size_whole (finish - start)) as (len & Hlen & -> & Hcap).
  pose proof (default_window_count start finish len Ho Hlen Hcap) as Hmax.
  pose proof (histogram_window_whole start finish len Ho Hlen ltac:(unfold MAX_BUCKETS in *; lia)) as W.
  set (w := histogram_window start finish (milliseconds len)) in *.
  pose proof (whole_cover w len W) as (Hc1 & Hin & Hreach).
  pose proof (whole_start w len W) as Hbs.
  assert (w_size w = milliseconds len) as Hsz by done.
  assert (w_start w = start ∧ w_end w = finish) as [Es Ef] by done. rewrite Es, Ef in *.
  split; [by exists len|]. split; [done|].
  pose proof (num_milliseconds_floor (finish - start) ltac:(lia)) as (Hfl & _ & _).
  assert (∀ k, 0 ≤ k < w_count w → bucket_end w k = Z.min (start + milliseconds len * k + milliseconds len) finish) as Hbe.
  { intros k Hk. unfold bucket_end. by rewrite Hbs, Ef, Hsz by done. }
  unfold milliseconds in *.
  split; [intros k Hk; rewrite Hbs, Hbe by done; specialize (Hin k Hk); lia|].
  split; [intros k Hk; rewrite Hbs, Hbe by lia; specialize (Hin (k + 1) ltac:(lia)); lia|].
  intros t Ht. exists ((t - start) / (len * 1000000)).
  pose proof (Z.div_mod (t - start) (len * 1000000) ltac:(lia)) as Hdm.
  pose proof (Z.mod_pos_bound (t - start) (len * 1000000) ltac:(lia)) as Hmod.
  set (q := (t - start) / (len * 1000000)) in *.
  assert (0 ≤ q) by (apply Z.div_pos; lia). assert (q < w_count w) by nia.
  split; [split; [done|rewrite Hbs, Hbe by done; lia]|].
  intros k [Hk Hb]. rewrite Hbs, Hbe in Hb by done. nia.
Qed.

Lemma window_is_partitioned_witness :
  0 < milliseconds 5000 ∧
  let w := histogram_window 0 (milliseconds 5000) (bucket_size_for_window (milliseconds 5000 - 0)) in
  1 ≤ w_count w ≤ MAX_BUCKETS.
Proof. split; [done|]. by apply (window_is_partitioned 0 (milliseconds 5000)). Defined.

(** ** The text of a selection *)

Lemma categories_text (f : HistogramCategory → bool) :
  omap category_of_text (str_split ","%char (str_join "," (category_value <$> bfilter f ALL_CATEGORIES))) =
  (bfilter f ALL_CATEGORIES : list HistogramCategory).
Proof.
  unfold bfilter, ALL_CATEGORIES. cbn [List.filter].
  destruct (f CatRegistered), (f CatPending), (f CatRunning); vm_compute; reflexivity.
Qed.

(** the text that a link or a form carries for a selection of categories reads back
    as that selection, the empty one included. *)
Theorem categories_roundtrip (selected : gset HistogramCategory) :
  parse_categories (Some (serialize_categories selected)) = selected.
Proof.
  unfold parse_categories, serialize_categories. rewrite categories_text. apply set_eq. intros c.
  rewrite elem_of_list_to_set, elem_of_bfilter, bool_decide_eq_true.
  split; [tauto|]. intros Hc. split; [done|]. destruct c; set_solver.
Qed.

(** ** Which buckets an entry occupies *)

(** An entry occupies a bucket: a point lies in it, a longer span overlaps it. *)
Definition occupies (w : Window) (lo hi : DateTime) (k : Z) : Prop :=
  lo < bucket_end w k ∧ if is_point_status w lo hi then bucket_start w k ≤ lo else bucket_start w k < hi.

(** A span that reaches less than a millisecond into the bucket: the code takes its
    end for the bucket's start. *)
Definition barely_reaches (w : Window) (lo hi : DateTime) (k : Z) : Prop :=
  is_point_status w lo hi = false ∧ hi < bucket_start w k + milliseconds 1.

Lemma elem_of_inclusive_range (first last k : Z) : k ∈ inclusive_range first last ↔ first ≤ k ≤ last.
Proof. unfold inclusive_range. rewrite elem_of_seqZ. lia. Qed.

Section buckets.
Context (w : Window) (ms : Z) (W : whole_window w ms).

Lemma occupied_in_range lo hi k : k ∈ occupied_buckets w lo hi → 0 ≤ k < w_count w.
Proof.
  unfold occupied_buckets. destruct (_ && _); [by intros ?%elem_of_nil|].
  rewrite elem_of_bfilter, elem_of_inclusive_range. intros [_ Hk]. destruct (is_point_status w lo hi); lia.
Qed.

Lemma occupied_point lo hi k (Hlo : w_start w ≤ lo) (Hp : is_point_status w lo hi = true) (Hk : 0 ≤ k < w_count w) :
  k ∈ occupied_buckets w lo hi ↔ bucket_start w k ≤ lo < bucket_end w k.
Proof.
  unfold occupied_buckets. rewrite Hp, (whole_num _ _ W). cbn [andb].
  destruct ((w_start w <=? lo) && (lo <? w_end w)) eqn:Hin; cbn [negb].
  - apply andb_true_iff in Hin as [_ Hend%Z.ltb_lt].
    rewrite elem_of_bfilter, elem_of_inclusive_range, andb_true_iff, Z.leb_le, Z.ltb_lt.
    pose proof (num_milliseconds_floor (lo - w_start w) ltac:(lia)) as (Hf1 & Hf2 & Hf3).
    pose proof (whole_positive _ _ W) as Hpos. pose proof (whole_size _ _ W) as Hsize.
    rewrite Z.quot_div_nonneg by lia.
    pose proof (Z.div_mod (num_milliseconds (lo - w_start w)) ms ltac:(lia)) as Hdm.
    pose proof (Z.mod_pos_bound (num_milliseconds (lo - w_start w)) ms Hpos) as Hmod.
    pose proof (Z.div_pos (num_milliseconds (lo - w_start w)) ms Hf3 Hpos) as Hq.
    unfold bucket_end. rewrite (whole_start w ms W k Hk), Hsize. unfold milliseconds in *.
    split; [by intros [Hb _]|].
    intros Hb. split; [done|].
    assert (k = num_milliseconds (lo - w_start w) / ms) as <- by nia. lia.
  - split; [by intros ?%elem_of_nil|]. intros Hb. apply andb_false_iff in Hin.
    rewrite Z.leb_gt, Z.ltb_ge in Hin. unfold bucket_end in Hb. lia.
Qed.

Lemma occupied_span lo hi k (Hlo : w_start w ≤ lo) (Hp : is_point_status w lo hi = false) (Hk : 0 ≤ k < w_count w) :
  k ∈ occupied_buckets w lo hi ↔ lo < bucket_end w k ∧ bucket_start w k + milliseconds 1 ≤ hi.
Proof.
  unfold occupied_buckets. rewrite Hp, (whole_num _ _ W). cbn [andb].
  rewrite elem_of_bfilter, elem_of_inclusive_range, andb_true_iff, !Z.ltb_lt.
  unfold is_point_status in Hp. apply orb_false_iff in Hp as [Hlt%Z.leb_gt _].
  pose proof (num_milliseconds_floor (lo - w_start w) ltac:(lia)) as (Hf1 & Hf2 & Hf3).
  pose proof (num_milliseconds_floor (hi - w_start w) ltac:(lia)) as (Hg1 & Hg2 & Hg3).
  pose proof (whole_positive _ _ W) as Hpos. pose proof (whole_size _ _ W) as Hsize.
  pose proof (ceil_div _ _ Hg3 Hpos) as (Hc1 & Hc2 & Hc3).
  rewrite (Z.quot_div_nonneg (num_milliseconds (lo - w_start w))) by lia.
  pose proof (Z.div_mod (num_milliseconds (lo - w_start w)) ms ltac:(lia)) as Hdm.
  pose proof (Z.mod_pos_bound (num_milliseconds (lo - w_start w)) ms Hpos) as Hmod.
  pose proof (Z.div_pos (num_milliseconds (lo - w_start w)) ms Hf3 Hpos) as Hq.
  set (q := num_milliseconds (lo - w_start w) / ms) in *.
  set (c := (num_milliseconds (hi - w_start w) + ms - 1) ÷ ms) in *.
  unfold bucket_end. rewrite (whole_start w ms W k Hk), Hsize. unfold milliseconds in *.
  split.
  - intros [[Hb1 Hb2] Hr]. split; [lia|nia].
  - intros (Hb & Hr). repeat split; [lia|lia| |]; [nia|].
    assert (k < c) by nia. lia.
Qed.

(** The loop over the buckets finds the occupied ones, but for those that the entry
    barely reaches. *)
Lemma occupied_spec lo hi k (Hlo : w_start w ≤ lo) :
  k ∈ occupied_buckets w lo hi ↔ 0 ≤ k < w_count w ∧ occupies w lo hi k ∧ ¬ barely_reaches w lo hi k.
Proof.
  destruct (decide (0 ≤ k < w_count w)) as [Hk|Hk]; [|split; [by intros ?%occupied_in_range|tauto]].
  unfold occupies, barely_reaches, milliseconds. destruct (is_point_status w lo hi) eqn:Hp.
  - rewrite occupied_point by done. naive_solver lia.
  - rewrite occupied_span by done. unfold milliseconds. naive_solver lia.
Qed.
End buckets.

(** ** The marks of an entry *)

Lemma category_not_terminal (s : InvocationStatus) (c : HistogramCategory) :
  category_for_status s = Some c → is_terminal s = false.
Proof. by destruct s. Qed.

(** The runtime under which an entry is counted. *)
Definition entry_runtime (task_id : string) (c : HistogramCategory) (e : HistogramEntry) : string :=
  if decide (c = CatRunning) then default (language_from_task_id task_id) (he_runner_language e)
  else language_from_task_id task_id.

(** What the code counts: the bucket is occupied and not barely reached. *)
Definition counted_in (w : Window) (e : HistogramEntry) (next : option HistogramEntry) (k : Z) : Prop :=
  occupies w (interval_start w e) (interval_end w next) k ∧
  ¬ barely_reaches w (interval_start w e) (interval_end w next) k.

Lemma elem_of_entry_marks w ms selected id task e next m (W : whole_window w ms) :
  m ∈ entry_marks w selected id task e next ↔
  ∃ c k, category_for_status (he_status e) = Some c ∧ c ∈ selected ∧ 0 ≤ k < w_count w ∧
    counted_in w e next k ∧
    m = mkMark (Z.to_nat k) c task (entry_runtime task c e) id (he_runner_id e).
Proof.
  unfold entry_marks. destruct (category_for_status (he_status e)) as [c|] eqn:Hc.
  2: { split; [by intros ?%elem_of_nil|]. by intros (c & k & ? & _). }
  rewrite (category_not_terminal _ _ Hc), orb_false_r.
  assert (w_start w ≤ interval_start w e) as Hlo by (unfold interval_start; lia).
  destruct (bool_decide (c ∈ selected)) eqn:Hs; cbn [negb].
  - apply bool_decide_eq_true in Hs. rewrite list_elem_of_fmap. split.
    + intros (k & -> & Hk). apply (occupied_spec w ms W) in Hk as [Hk Ho]; [|done]. exists c, k. done.
    + intros (c' & k & [= <-] & _ & Hk & Ho & ->). exists k. split; [done|]. by apply (occupied_spec w ms W).
  - apply bool_decide_eq_false in Hs. split; [by intros ?%elem_of_nil|].
    by intros (c' & k & [= <-] & Hs' & _).
Qed.

Lemma elem_of_history_marks w selected id task history m :
  m ∈ history_marks w selected id task history ↔
  ∃ i e, history !! i = Some e ∧ m ∈ entry_marks w selected id task e (history !! S i).
Proof.
  induction history as [|e rest IH]; cbn [history_marks].
  { split; [by intros ?%elem_of_nil|]. by intros (i & e & ? & _). }
  rewrite elem_of_app, IH. split.
  - intros [Hm|(i & e' & Hi & Hm)]; [|by exists (S i), e'].
    exists 0%nat, e. split; [done|]. by destruct rest.
  - intros ([|i] & e' & Hi & Hm); cbn in Hi, Hm; [|right; by exists i, e'].
    simplify_eq. left. by destruct rest.
Qed.

(** ** Grouping the entries *)

Lemma fold_entries id es m :
  entries (fold_left (λ m e, push_entry (he_invocation_id e) e m) es m) id =
  entries m id ++ bfilter (λ e, bool_decide (he_invocation_id e = id)) es.
Proof.
  revert m. induction es as [|e es IH]; intros m; unfold bfilter in *; cbn [fold_left List.filter]; [by rewrite app_nil_r|].
  rewrite IH, entries_push. case_decide as Hk.
  - rewrite (bool_decide_true _ Hk), <-app_assoc. done.
  - by rewrite (bool_decide_false _ Hk).
Qed.

(** The history of an invocation, by time. *)
Definition history_in (es : list HistogramEntry) (id : string) : list HistogramEntry :=
  sort_history (bfilter (λ e, bool_decide (he_invocation_id e = id)) es).

Lemma histories_lookup es id :
  histories_of es !! id = None ∧ history_in es id = [] ∨
  ∃ h, histories_of es !! id = Some h ∧ sort_history h = history_in es id.
Proof.
  pose proof (fold_entries id es ∅) as He. fold (histories_of es) in He.
  unfold history_in. unfold entries in He. rewrite lookup_empty in He. cbn in He. rewrite <-He.
  destruct (histories_of es !! id) as [h|]; [right; eauto|by left].
Qed.

Lemma elem_of_all_marks `{HashOrder} w selected es m :
  m ∈ all_marks w selected es ↔
  ∃ id, m ∈ history_marks w selected id (history_task (history_in es id)) (history_in es id).
Proof.
  unfold all_marks. rewrite list_elem_of_bind. split.
  - intros ([id h] & Hm & Hin). apply elem_of_map_iter in Hin. cbn [fst snd] in Hm. exists id.
    destruct (histories_lookup es id) as [[? _]|(h' & Hl & Hs)]; [congruence|].
    simplify_eq. by rewrite <-Hs.
  - intros (id & Hm). destruct (histories_lookup es id) as [[_ Hn]|(h & Hl & Hs)].
    + rewrite Hn in Hm. by apply elem_of_nil in Hm.
    + exists (id, h). split; [|by apply elem_of_map_iter]. cbn [fst snd]. by rewrite Hs.
Qed.

(** ** The sets of a bucket *)

(** What the sets of a bucket hold after some marks. *)
Record holds (marks : list Mark) (b : BucketSets) : Prop := mkHolds {
  holds_category c x : x ∈ bs_category b c ↔ ∃ m, m ∈ marks ∧ mk_category m = c ∧ mk_invocation m = x;
  holds_task t x : x ∈ members (bs_task b) t ↔ ∃ m, m ∈ marks ∧ mk_task m = t ∧ mk_invocation m = x;
  holds_runtime r x : x ∈ members (bs_runtime b) r ↔ ∃ m, m ∈ marks ∧ mk_runtime m = r ∧ mk_invocation m = x;
  holds_runtime_task r t x : x ∈ members (default ∅ (bs_runtime_task b !! r)) t ↔
    ∃ m, m ∈ marks ∧ mk_runtime m = r ∧ mk_task m = t ∧ mk_invocation m = x;
  holds_runner r x : x ∈ members (bs_runtime_runner b) r ↔
    ∃ m, m ∈ marks ∧ mk_runtime m = r ∧ mk_category m = CatRunning ∧ mk_runner m = Some x
}.

Lemma holds_new : holds [] sets_new.
Proof.
  split; intros; cbn; rewrite ?lookup_empty; cbn; rewrite ?members_empty.
  all: split; [by intros ?%elem_of_empty|by intros (m & ?%elem_of_nil & _)].
Qed.

(** A mark more on the left of the disjunction. *)
Lemma exists_snoc {A : Type} (P : A → Prop) (l : list A) (a : A) :
  (∃ m, m ∈ l ++ [a] ∧ P m) ↔ P a ∨ ∃ m, m ∈ l ∧ P m.
Proof.
  setoid_rewrite elem_of_app. setoid_rewrite list_elem_of_singleton. split.
  - intros (m & [Hm| ->] & HP); [right; eauto|by left].
  - intros [HP|(m & Hm & HP)]; [exists a; auto|exists m; auto].
Qed.

Lemma holds_add (marks : list Mark) (b : BucketSets) (m : Mark) (H : holds marks b) :
  holds (marks ++ [m]) (add_mark m b).
Proof.
  split; intros; rewrite exists_snoc; cbn [add_mark bs_category bs_task bs_runtime bs_runtime_task bs_runtime_runner].
  - rewrite <-(holds_category _ _ H). case_decide as Hc; [|naive_solver].
    rewrite elem_of_union, elem_of_singleton. naive_solver.
  - rewrite <-(holds_task _ _ H), elem_of_insert_member. naive_solver.
  - rewrite <-(holds_runtime _ _ H), elem_of_insert_member. naive_solver.
  - rewrite <-(holds_runtime_task _ _ H). destruct (decide (mk_runtime m = r)) as [<-|Hr].
    + rewrite lookup_insert_eq. cbn. rewrite elem_of_insert_member. naive_solver.
    + rewrite lookup_insert_ne by done. naive_solver.
  - rewrite <-(holds_runner _ _ H). case_decide as Hc; [|naive_solver].
    destruct (mk_runner m) as [y|] eqn:Hy; [|naive_solver].
    rewrite elem_of_insert_member. naive_solver.
Qed.

Definition fill (marks : list Mark) : BucketSets := fold_left (λ b m, add_mark m b) marks sets_new.

Lemma holds_fill (marks : list Mark) : holds marks (fill marks).
Proof.
  unfold fill. induction marks as [|m marks IH] using rev_ind; [apply holds_new|].
  rewrite fold_left_app. by apply holds_add.
Qed.

(** The marks of one bucket. *)
Definition marks_of (k : nat) (marks : list Mark) : list Mark := bfilter (λ m, (mk_bucket m =? k)%nat) marks.

Lemma fold_alter (marks : list Mark) (bs : list BucketSets) (k : nat) :
  fold_left (λ bs m, alter (add_mark m) (mk_bucket m) bs) marks bs !! k =
  (λ b, fold_left (λ b m, add_mark m b) (marks_of k marks) b) <$> bs !! k.
Proof.
  revert bs. induction marks as [|m marks IH]; intros bs; unfold marks_of, bfilter in *; cbn [fold_left List.filter].
  { by destruct (bs !! k). }
  rewrite IH. destruct (Nat.eqb_spec (mk_bucket m) k) as [<-|Hk].
  - rewrite list_lookup_alter_eq. by destruct (bs !! mk_bucket m).
  - by rewrite list_lookup_alter_ne.
Qed.

Lemma filled_lookup (w : Window) (marks : list Mark) (k : nat) :
  filled_sets w marks !! k = if decide (k < Z.to_nat (w_count w))%nat then Some (fill (marks_of k marks)) else None.
Proof.
  unfold filled_sets. rewrite fold_alter. case_decide as Hk.
  - rewrite lookup_replicate_2 by done. done.
  - destruct (_ !! k) as [x|] eqn:Hx; [|done]. apply lookup_replicate in Hx as [_ Hx]. done.
Qed.

Lemma elem_of_category_union (b : BucketSets) x : x ∈ category_union b ↔ ∃ c, x ∈ bs_category b c.
Proof.
  unfold category_union, ALL_CATEGORIES. rewrite elem_of_union_list. split.
  - intros (X & HX & Hx). apply list_elem_of_fmap in HX as (c & -> & _). by exists c.
  - intros (c & Hc). exists (bs_category b c). split; [|done]. apply list_elem_of_fmap. exists c. split; [done|].
    destruct c; repeat (apply list_elem_of_here || apply list_elem_of_further).
Qed.

(** ** The result *)

(** The buckets of a histogram: none, or all of the window. *)
Lemma build_Ok `{HashOrder} `{Chrono} es start finish selected explicit d
    (Hb : build_histogram es start finish selected explicit = Ok d) :
  let w := histogram_window start finish (hd_bucket_size d) in
  hd_bucket_size d = default (bucket_size_for_window (finish - start)) explicit ∧
    hd_buckets d = imap (finish_bucket w) (filled_sets w (all_marks w selected es)) ∧
    start < finish ∧ hd_max_count d = max_of (total_count <$> hd_buckets d)
  ∨ hd_buckets d = [] ∧ hd_max_count d = 0%nat.
Proof.
  unfold build_histogram in Hb.
  destruct (Z.leb_spec finish start); [simplify_eq/=; by right|].
  destruct (bool_decide (selected = ∅)); [simplify_eq/=; by right|].
  destruct (bool_decide (es = [])); [simplify_eq/=; by right|].
  destruct (negb _); [done|]. destruct (negb _); [done|]. simplify_eq/=. by left.
Qed.

Lemma bucket_lookup `{HashOrder} `{Chrono} es start finish selected explicit d k b
    (Hb : build_histogram es start finish selected explicit = Ok d) (Hk : hd_buckets d !! k = Some b) :
  let w := histogram_window start finish (hd_bucket_size d) in
  start < finish ∧ hd_bucket_size d = default (bucket_size_for_window (finish - start)) explicit ∧
  (k < Z.to_nat (w_count w))%nat ∧ b = finish_bucket w k (fill (marks_of k (all_marks w selected es))).
Proof.
  cbn zeta. destruct (build_Ok es start finish selected explicit d Hb) as [(Hs & He & Hlt & _)|[He _]].
  2: by rewrite He in Hk.
  rewrite He, list_lookup_imap, filled_lookup in Hk. case_decide; [|done]. simplify_eq/=. done.
Qed.

(** The buckets in force: a whole number of milliseconds long, their numbers fit in 32
    bits, and the window lies within [chrono]'s range, with a bucket's length to spare. *)
Record fitting `{Chrono} (start finish : DateTime) (explicit : option Z) : Prop := mkFitting {
  fit_whole : match explicit with Some s => ∃ ms, 0 < ms ∧ s = milliseconds ms | None => True end;
  fit_few : match explicit with Some s => w_count (histogram_window start finish s) ≤ 2 ^ 31 | None => True end;
  fit_start : datetime_min ≤ start;
  fit_end : finish + default (bucket_size_for_window (finish - start)) explicit ≤ datetime_max
}.

Lemma fitting_window `{Chrono} start finish explicit :
  fitting start finish explicit → start < finish →
  ∃ ms, 0 < ms ∧ default (bucket_size_for_window (finish - start)) explicit = milliseconds ms ∧
    whole_window (histogram_window start finish (milliseconds ms)) ms.
Proof.
  intros [Hwhole Hfew _ _] Ho. destruct explicit as [s|].
  - destruct Hwhole as (ms & Hms & ->). exists ms. split_and!; [done..|]. by apply histogram_window_whole.
  - destruct (default_size_whole (finish - start)) as (ms & Hms & Hd & Hcap). exists ms. split_and!; [done..|].
    apply histogram_window_whole; [done..|]. pose proof (default_window_count start finish ms Ho Hms Hcap).
    unfold MAX_BUCKETS in *. lia.
Qed.

(** Then no time of a bucket is out of range. *)
Lemma fitting_in_range `{Chrono} start finish explicit ms :
  fitting start finish explicit → start < finish →
  default (bucket_size_for_window (finish - start)) explicit = milliseconds ms →
  let w := histogram_window start finish (milliseconds ms) in
  whole_window w ms → forallb (bucket_in_range w) (seqZ 0 (w_count w)) = true.
Proof.
  intros [_ _ Hmin Hmax] Ho Hd w W. apply forallb_forall. intros k Hk%list_elem_of_In%elem_of_seqZ.
  destruct (whole_cover w ms W) as (_ & Hin & _).
  assert (0 ≤ k < w_count w) as Hk' by lia.
  specialize (Hin k Hk'). unfold bucket_in_range. rewrite (whole_start w ms W k Hk').
  change (w_start w) with start in *. change (w_end w) with finish in *. change (w_size w) with (milliseconds ms).
  rewrite Hd in Hmax. rewrite andb_true_iff, !bool_decide_eq_true. lia.
Qed.

(** The invocation has an entry of the category, selected, in the bucket as [within]
    says: the entry lasts until the next one of the same invocation. *)
Definition in_status (within : HistogramEntry → option HistogramEntry → Prop) (selected : gset HistogramCategory)
    (es : list HistogramEntry) (id : string) (c : HistogramCategory) : Prop :=
  ∃ i e, history_in es id !! i = Some e ∧ category_for_status (he_status e) = Some c ∧ c ∈ selected ∧
    within e (history_in es id !! S i).

(** The times are whole milliseconds after the start of the window. *)
Definition in_milliseconds (start finish : DateTime) (es : list HistogramEntry) : Prop :=
  (1000000 | finish - start) ∧ ∀ e, e ∈ es → (1000000 | he_timestamp e - start).

Lemma elem_of_str_elements (X : gset string) x : x ∈ str_sort (elements X) ↔ x ∈ X.
Proof. unfold str_sort. rewrite elem_of_sort_by. apply elem_of_elements. Qed.

Lemma length_str_elements (X : gset string) : length (str_sort (elements X)) = size X.
Proof. unfold str_sort. by rewrite sort_by_length. Qed.

Lemma NoDup_str_elements (X : gset string) : NoDup (str_sort (elements X)).
Proof. unfold str_sort. rewrite sort_by_perm. apply NoDup_elements. Qed.

Lemma bucket_category `{HashOrder} w ms selected es (k : nat) c x (W : whole_window w ms)
    (Hk : (k < Z.to_nat (w_count w))%nat) :
  x ∈ bs_category (fill (marks_of k (all_marks w selected es))) c ↔
  in_status (λ e next, counted_in w e next (Z.of_nat k)) selected es x c.
Proof.
  rewrite (holds_category _ _ (holds_fill _)). unfold marks_of. setoid_rewrite elem_of_bfilter. unfold in_status.
  split.
  - intros (m & [Hmk%Nat.eqb_eq Hm] & Hc & Hx). apply elem_of_all_marks in Hm as (id & Hm).
    apply elem_of_history_marks in Hm as (i & e & Hi & Hm).
    apply (elem_of_entry_marks _ ms) in Hm as (c' & k' & Hc' & Hsel & Hk' & Ho & ->); [|done].
    cbn in Hmk, Hc, Hx. subst. rewrite Z2Nat.id by lia. by exists i, e.
  - intros (i & e & Hi & Hc & Hsel & Ho).
    exists (mkMark k c (history_task (history_in es x)) (entry_runtime (history_task (history_in es x)) c e) x (he_runner_id e)).
    cbn. split; [|done]. split; [apply Nat.eqb_refl|]. apply elem_of_all_marks. exists x.
    apply elem_of_history_marks. exists i, e. split; [done|].
    apply (elem_of_entry_marks _ ms); [done|]. exists c, (Z.of_nat k). rewrite Nat2Z.id. split_and!; [done|done|lia|lia|done|done].
Qed.

Lemma filled_length (w : Window) (marks : list Mark) : length (filled_sets w marks) = Z.to_nat (w_count w).
Proof.
  unfold filled_sets. rewrite <-(length_replicate (Z.to_nat (w_count w)) sets_new) at 2.
  generalize (replicate (Z.to_nat (w_count w)) sets_new). induction marks as [|m marks IH]; intros bs; [done|].
  cbn [fold_left]. rewrite IH. apply length_alter.
Qed.

(** With times in milliseconds nothing is barely reached. *)
Lemma whole_times_reach w ms start finish es id i e k (W : whole_window w ms) :
  w_start w = start → w_end w = finish → in_milliseconds start finish es → 0 ≤ k < w_count w →
  history_in es id !! i = Some e →
  occupies w (interval_start w e) (interval_end w (history_in es id !! S i)) k →
  ¬ barely_reaches w (interval_start w e) (interval_end w (history_in es id !! S i)) k.
Proof.
  intros <- <- [Hend Hes] Hk _ [_ Ho] [Hp Hb]. rewrite Hp in Ho.
  rewrite (whole_start w ms W k Hk) in *. unfold milliseconds in *.
  assert (1000000 | interval_end w (history_in es id !! S i) - w_start w) as [q Hq].
  { unfold interval_end. destruct (history_in es id !! S i) as [n|] eqn:Hn; [|by rewrite Z.min_id].
    assert (n ∈ es) as Hin.
    { apply list_elem_of_lookup_2 in Hn. unfold history_in, sort_history in Hn.
      by apply elem_of_sort_by, elem_of_bfilter in Hn as [_ ?]. }
    destruct (Z.min_spec (he_timestamp n) (w_end w)) as [[_ ->]|[_ ->]]; [by apply Hes|done]. }
  nia.
Qed.

(** A bucket of the window, as it is finished. *)
Lemma bucket_contents `{HashOrder} es start finish selected ms (k : nat) :
  let w := histogram_window start finish (milliseconds ms) in
  whole_window w ms → (0 ≤ Z.of_nat k < w_count w) →
  let b := finish_bucket w k (fill (marks_of k (all_marks w selected es))) in
  (hb_start b = start + milliseconds ms * Z.of_nat k ∧ hb_end b = Z.min (start + milliseconds ms * Z.of_nat (S k)) finish ∧
   start ≤ hb_start b < finish) ∧
  (∀ c, hb_counts b c = length (hb_invocation_ids_by_category b c) ∧ NoDup (hb_invocation_ids_by_category b c)) ∧
  (∀ c id, id ∈ hb_invocation_ids_by_category b c ↔
     in_status (λ e next, counted_in w e next (Z.of_nat k)) selected es id c) ∧
  (∀ id, id ∈ hb_invocation_ids b ↔ ∃ c, id ∈ hb_invocation_ids_by_category b c) ∧
  (in_milliseconds start finish es → ∀ c id, id ∈ hb_invocation_ids_by_category b c ↔
     in_status (λ e next, occupies w (interval_start w e) (interval_end w next) (Z.of_nat k)) selected es id c).
Proof.
  intros w W Hk b. assert (k < Z.to_nat (w_count w))%nat as Hcount by lia.
  assert (∀ c id, id ∈ hb_invocation_ids_by_category b c ↔
    in_status (λ e next, counted_in w e next (Z.of_nat k)) selected es id c) as Hids.
  { intros c id. etransitivity; [apply elem_of_str_elements|]. by apply (bucket_category w ms). }
  destruct (whole_cover w ms W) as (_ & Hin & _). specialize (Hin _ Hk).
  pose proof (whole_start w ms W _ Hk) as Hbs.
  split_and!; [exact Hbs| | | | |exact Hids| |].
  - change (Z.min (bucket_start w (Z.of_nat k) + milliseconds ms) finish = Z.min (start + milliseconds ms * Z.of_nat (S k)) finish).
    rewrite Hbs. change (w_start w) with start. f_equal. lia.
  - etransitivity; [|by apply Z.eq_le_incl, eq_sym, Hbs]. apply Hin.
  - eapply Z.le_lt_trans; [by apply Z.eq_le_incl, Hbs|]. apply Hin.
  - intros c. cbn -[elements]. rewrite length_str_elements. split; [done|apply NoDup_str_elements].
  - intros id. etransitivity; [apply elem_of_str_elements|]. etransitivity; [apply elem_of_category_union|].
    split; intros [c Hc]; exists c; by apply elem_of_str_elements.
  - intros Hwhole c id. rewrite Hids. split; intros (i & e & Hi & Hc & Hs & Hin'); exists i, e; (split_and!; [done..|]); [apply Hin'|].
    split; [done|]. by eapply (whole_times_reach w ms start finish es id i e).
Qed.


Definition demo_entry (id task : string) (s : InvocationStatus) (t : DateTime) : HistogramEntry :=
  mkHistogramEntry id task (Some "r1") (Some "python") s t.

(** One invocation that runs from the start of a ten-second window until half a
    millisecond after its third second, and one that waits. *)
Definition demo_entries : list HistogramEntry :=
  [demo_entry "b" "rust::m.g" Pending (milliseconds 4200);
   demo_entry "a" "rust::m.f" Success (milliseconds 3000 + 500000);
   demo_entry "a" "rust::m.f" Running 0;
   demo_entry "b" "rust::m.g" Running (milliseconds 4600)].

Definition both_statuses : gset HistogramCategory := {[CatPending; CatRunning]}.


(** A span that reaches less than a millisecond into a bucket overlaps it and is not
    counted there: the end of the span is rounded down to a millisecond first. *)
Lemma short_reach_is_not_counted :
  let w := histogram_window 0 (milliseconds 10000) (milliseconds 1000) in
  let hi := milliseconds 3000 + 500000 in
  bucket_start w 3 < hi ∧ 0 < bucket_end w 3 ∧ occupied_buckets w 0 hi = [0; 1; 2].
Proof. repeat split; vm_compute; reflexivity. Qed.

(** An event in the last, incomplete millisecond of a window lies in no bucket. *)
Lemma last_fraction_is_not_counted :
  let finish := milliseconds 2000 + 900000 in
  let w := histogram_window 0 finish (milliseconds 1000) in
  let t := milliseconds 2000 + 100000 in
  t < finish ∧ occupied_buckets w t finish = [].
Proof. repeat split; vm_compute; reflexivity. Qed.

(** Buckets of a millisecond in a window of twenty-five days: the number of the last
    ones does not fit in 32 bits, and they start before the window. *)
Lemma late_buckets_start_before_the_window :
  let w := histogram_window 0 (milliseconds (25 * 24 * 60 * 60 * 1000)) (milliseconds 1) in
  2 ^ 31 < w_count w ∧ bucket_start w (2 ^ 31) = - milliseconds (2 ^ 31).
Proof. split; vm_compute; reflexivity. Qed.

(** ** Adding up the counts *)

(** The sum of the values whose key passes a test. *)
Definition sum_where (p : string → bool) (m : gmap string nat) : nat :=
  sum_list (bfilter (λ q, p q.1) (btree_iter m)).*2.

Lemma sum_list_perm (l1 l2 : list nat) : l1 ≡ₚ l2 → sum_list l1 = sum_list l2.
Proof. intros Hp. induction Hp; cbn; lia. Qed.

Lemma btree_insert_perm {V : Type} (m : gmap string V) k v (Hk : m !! k = None) :
  btree_iter (<[k := v]> m) ≡ₚ (k, v) :: btree_iter m.
Proof. unfold btree_iter. rewrite !sort_by_perm. by apply map_to_list_insert. Qed.

Lemma sum_where_empty p : sum_where p ∅ = 0%nat.
Proof. done. Qed.

Lemma sum_where_insert p m k v (Hk : m !! k = None) :
  sum_where p (<[k := v]> m) = ((if p k then v else 0) + sum_where p m)%nat.
Proof.
  unfold sum_where. rewrite (sum_list_perm _ _ (fmap_Permutation snd _ _ (bfilter_perm _ _ _ (btree_insert_perm m k v Hk)))).
  unfold bfilter. cbn [List.filter fst]. by destruct (p k).
Qed.

Lemma sum_all (m : gmap string nat) : sum_list (btree_iter m).*2 = sum_where (λ _, true) m.
Proof. unfold sum_where. f_equal. f_equal. unfold bfilter. induction (btree_iter m); cbn; congruence. Qed.

Lemma sum_where_ext p q m (Hpq : ∀ k, is_Some (m !! k) → p k = q k) : sum_where p m = sum_where q m.
Proof.
  revert Hpq. induction m as [|k v m Hk IH] using map_ind; intros Hpq; [done|].
  rewrite !sum_where_insert by done. rewrite IH.
  2: { intros k' Hk'. apply Hpq. destruct (decide (k = k')) as [<-|];
       [rewrite lookup_insert_eq; eauto|by rewrite lookup_insert_ne]. }
  rewrite (Hpq k); [done|]. rewrite lookup_insert_eq. eauto.
Qed.

(** The sum over some keys, each named once, and the sum over the others make the
    whole sum. *)
Lemma sum_listed_and_others (ks : list string) (m : gmap string nat) (Hnd : NoDup ks) :
  (sum_list ((λ k : string, default 0%nat (m !! k)) <$> ks) + sum_where (λ k, negb (bool_decide (k ∈ ks))) m)%nat =
  sum_where (λ _, true) m.
Proof.
  induction m as [|k v m Hk IH] using map_ind.
  { rewrite !sum_where_empty. clear. induction ks as [|k ks IH]; cbn; [done|]. by rewrite lookup_empty. }
  rewrite !sum_where_insert, <-IH by done. clear IH.
  assert (sum_list ((λ k' : string, default 0%nat (<[k := v]> m !! k')) <$> ks) =
    ((if bool_decide (k ∈ ks) then v else 0) + sum_list ((λ k' : string, default 0%nat (m !! k')) <$> ks))%nat) as ->.
  { induction Hnd as [|k' ks Hk' Hnd IH]; cbn.
    { by rewrite bool_decide_false by apply not_elem_of_nil. }
    rewrite IH. destruct (decide (k = k')) as [<-|Hne].
    - rewrite lookup_insert_eq, Hk, bool_decide_false, bool_decide_true by (done || apply list_elem_of_here). cbn. lia.
    - rewrite lookup_insert_ne by done. rewrite (bool_decide_ext (k ∈ k' :: ks) (k ∈ ks)); [lia|].
      rewrite elem_of_cons. naive_solver. }
  destruct (bool_decide (k ∈ ks)); cbn; lia.
Qed.

(** The sizes of disjoint sets add up to that of their union. *)
Lemma sum_sizes_disjoint (m : gmap string (gset string)) (X : gset string)
    (Hd : ∀ t1 t2 x, x ∈ members m t1 → x ∈ members m t2 → t1 = t2)
    (HX : ∀ x, x ∈ X ↔ ∃ t, x ∈ members m t) :
  sum_list (btree_iter (sizes m)).*2 = size X.
Proof.
  rewrite sum_all. unfold sizes. revert X Hd HX. induction m as [|t Y m Ht IH] using map_ind; intros X Hd HX.
  - rewrite fmap_empty, sum_where_empty. symmetry. apply size_empty_iff. intros x. rewrite HX.
    split; [|by intros ?%elem_of_empty]. intros [t Hx]. rewrite members_empty in Hx. done.
  - assert (∀ t' x, x ∈ members (<[t := Y]> m) t' ↔ (t' = t ∧ x ∈ Y) ∨ x ∈ members m t') as Hm.
    { intros t' x. rewrite !elem_of_members. destruct (decide (t = t')) as [<-|Hne].
      - rewrite lookup_insert_eq, Ht. naive_solver.
      - rewrite lookup_insert_ne by done. naive_solver. }
    assert (∀ t' x, x ∈ members m t' → t' ≠ t) as Hne.
    { intros t' x (Z & HZ & _)%elem_of_members ->. congruence. }
    rewrite fmap_insert, sum_where_insert by (by rewrite lookup_fmap, Ht).
    rewrite (IH (X ∖ Y)).
    + assert (Y ⊆ X) as Hsub. { intros x Hx. apply HX. exists t. apply Hm. by left. }
      pose proof (subseteq_size _ _ Hsub). rewrite size_difference by done. lia.
    + intros t1 t2 x H1 H2. apply (Hd t1 t2 x); apply Hm; by right.
    + intros x. rewrite elem_of_difference, HX. setoid_rewrite Hm. split.
      * intros [[t' [[-> ?]|?]] ?]; [done|by exists t'].
      * intros [t' Hx]. split; [exists t'; by right|]. intros HY. apply (Hne _ _ Hx).
        apply (Hd t' t x); apply Hm; [by right|by left].
Qed.

(** Without disjointness the sum is at least the size of the union. *)
Lemma sum_sizes_cover (m : gmap string (gset string)) (X : gset string)
    (HX : ∀ x, x ∈ X → ∃ t, x ∈ members m t) :
  (size X ≤ sum_list (btree_iter (sizes m)).*2)%nat.
Proof.
  rewrite sum_all. unfold sizes. revert X HX. induction m as [|t Y m Ht IH] using map_ind; intros X HX.
  - assert (X ≡ ∅) as HX0. { intros x. split; [|by intros ?%elem_of_empty]. intros [t Hx]%HX. by rewrite members_empty in Hx. }
    apply size_empty_iff in HX0. lia.
  - rewrite fmap_insert, sum_where_insert by (by rewrite lookup_fmap, Ht).
    assert (size (X ∖ Y) ≤ sum_where (λ _, true) (size <$> m))%nat as Hle.
    { apply IH. intros x [Hx HnY]%elem_of_difference. apply HX in Hx as [t' Hx]. exists t'.
      apply elem_of_members in Hx as (Z & HZ & Hx). apply elem_of_members. exists Z. split; [|done].
      destruct (decide (t = t')) as [<-|Hne]; [|by rewrite lookup_insert_ne in HZ].
      rewrite lookup_insert_eq in HZ. by simplify_eq. }
    assert (size X ≤ size (X ∖ Y) + size Y)%nat.
    { etransitivity; [apply (subseteq_size X ((X ∖ Y) ∪ Y)); intros x; destruct (decide (x ∈ Y)); set_solver|].
      rewrite size_union_alt. apply Nat.add_le_mono_l, subseteq_size. set_solver. }
    lia.
Qed.

Lemma entry_marks_of w selected id task e next m (Hm : m ∈ entry_marks w selected id task e next) :
  mk_task m = task ∧ mk_invocation m = id ∧ (mk_category m ≠ CatRunning → mk_runtime m = language_from_task_id task).
Proof.
  unfold entry_marks in Hm. destruct (category_for_status _) as [c|]; [|by apply elem_of_nil in Hm].
  destruct (_ || _); [by apply elem_of_nil in Hm|].
  apply list_elem_of_fmap in Hm as (k & -> & _). cbn. split_and!; [done|done|]. intros Hc. by case_decide.
Qed.

(** Within a histogram an invocation has one task. *)
Lemma mark_task `{HashOrder} w selected es m (Hm : m ∈ all_marks w selected es) :
  mk_task m = history_task (history_in es (mk_invocation m)).
Proof.
  apply elem_of_all_marks in Hm as (id & Hm). apply elem_of_history_marks in Hm as (i & e & _ & Hm).
  by apply entry_marks_of in Hm as (-> & -> & _).
Qed.

Lemma max_of_spec (l : list nat) n : n ∈ l → (n ≤ max_of l)%nat.
Proof. unfold max_of. induction l as [|x l IH]; [by intros ?%elem_of_nil|]. intros [-> |?%IH]%elem_of_cons; cbn; lia. Qed.

Section counts.
Context `{HashOrder} (w : Window) (selected : gset HistogramCategory) (es : list HistogramEntry) (k : nat).
Local Abbreviation marks := (marks_of k (all_marks w selected es)).
Local Abbreviation b := (finish_bucket w k (fill marks)).

Lemma marks_of_task m : m ∈ marks → mk_task m = history_task (history_in es (mk_invocation m)).
Proof. unfold marks_of. intros [_ Hm]%elem_of_bfilter. by eapply mark_task. Qed.

Lemma bucket_total : total_count b = size (category_union (fill marks)).
Proof. unfold total_count, finish_bucket. cbn -[elements]. apply length_str_elements. Qed.

Lemma union_marks x : x ∈ category_union (fill marks) ↔ ∃ m, m ∈ marks ∧ mk_invocation m = x.
Proof.
  rewrite elem_of_category_union. setoid_rewrite (holds_category _ _ (holds_fill marks)).
  split; [intros (c & m & ? & _ & ?); eauto|intros (m & ? & ?); eauto].
Qed.

Lemma task_counts_total : sum_list (btree_iter (hb_counts_by_task b)).*2 = total_count b.
Proof.
  rewrite bucket_total. apply sum_sizes_disjoint.
  - intros t1 t2 x (m1 & Hm1 & <- & <-)%(holds_task _ _ (holds_fill marks)) (m2 & Hm2 & <- & Hx)%(holds_task _ _ (holds_fill marks)).
    rewrite (marks_of_task m1 Hm1), (marks_of_task m2 Hm2). by rewrite Hx.
  - intros x. rewrite union_marks. setoid_rewrite (holds_task _ _ (holds_fill marks)).
    split; [intros (m & ? & ?); eauto|intros (t & m & ? & _ & ?); eauto].
Qed.

Lemma runtime_count_size r : default 0%nat (hb_counts_by_runtime b !! r) = size (members (bs_runtime (fill marks)) r).
Proof.
  unfold finish_bucket, sizes, members. cbn -[size fill]. rewrite lookup_fmap. by destruct (_ !! r).
Qed.

Lemma runtime_task_counts r :
  sum_list (btree_iter (default ∅ (hb_counts_by_runtime_task b !! r))).*2 = default 0%nat (hb_counts_by_runtime b !! r).
Proof.
  rewrite runtime_count_size.
  assert (default ∅ (hb_counts_by_runtime_task b !! r) = sizes (default ∅ (bs_runtime_task (fill marks) !! r))) as ->.
  { unfold finish_bucket. cbn -[fill]. rewrite lookup_fmap. by destruct (_ !! r). }
  apply sum_sizes_disjoint.
  - intros t1 t2 x (m1 & Hm1 & _ & <- & <-)%(holds_runtime_task _ _ (holds_fill marks))
      (m2 & Hm2 & _ & <- & Hx)%(holds_runtime_task _ _ (holds_fill marks)).
    rewrite (marks_of_task m1 Hm1), (marks_of_task m2 Hm2). by rewrite Hx.
  - intros x. rewrite (holds_runtime _ _ (holds_fill marks)).
    setoid_rewrite (holds_runtime_task _ _ (holds_fill marks)).
    split; [intros (m & ? & ? & ?); by exists (mk_task m), m|intros (t & m & ? & ? & _ & ?); by exists m].
Qed.

Lemma runtime_counts_cover : (total_count b ≤ sum_list (btree_iter (hb_counts_by_runtime b)).*2)%nat.
Proof.
  rewrite bucket_total. apply sum_sizes_cover. intros x (m & Hm & Hx)%union_marks.
  exists (mk_runtime m). apply (holds_runtime _ _ (holds_fill marks)). eauto.
Qed.

Lemma category_count_le c : (hb_counts b c ≤ total_count b)%nat.
Proof.
  rewrite bucket_total. unfold finish_bucket. cbn -[fill size]. apply subseteq_size. intros x Hx.
  apply elem_of_category_union. eauto.
Qed.

Lemma category_counts_cover :
  (total_count b ≤ hb_counts b CatRegistered + hb_counts b CatPending + hb_counts b CatRunning)%nat.
Proof.
  rewrite bucket_total. unfold finish_bucket. cbn -[fill size].
  set (f := bs_category (fill marks)).
  assert (category_union (fill marks) ⊆ (f CatRegistered ∪ f CatPending) ∪ f CatRunning) as Hs.
  { intros x [[] Hx]%elem_of_category_union; set_solver. }
  apply subseteq_size in Hs.
  assert (∀ X Y : gset string, size (X ∪ Y) ≤ size X + size Y)%nat as Hu.
  { intros X Y. rewrite size_union_alt. apply Nat.add_le_mono_l, subseteq_size. set_solver. }
  etransitivity; [exact Hs|]. etransitivity; [apply Hu|]. apply Nat.add_le_mono_r, Hu.
Qed.
End counts.

(** the numbers of a bucket agree with one another: its counts by task add up to
    its total, its counts by task within a runtime to the count of the runtime; the
    runtimes and the categories, which may share invocations, add up to at least the
    total, and no category exceeds it; and the highest bar of the chart is the maximum
    over the buckets. *)
Theorem bucket_counts_agree `{HashOrder} `{Chrono} es start finish selected explicit d b
    (Hb : build_histogram es start finish selected explicit = Ok d) (Hin : b ∈ hd_buckets d) :
  sum_list (btree_iter (hb_counts_by_task b)).*2 = total_count b ∧
  (∀ r, sum_list (btree_iter (default ∅ (hb_counts_by_runtime_task b !! r))).*2 =
        default 0%nat (hb_counts_by_runtime b !! r)) ∧
  (total_count b ≤ sum_list (btree_iter (hb_counts_by_runtime b)).*2)%nat ∧
  (total_count b ≤ hb_counts b CatRegistered + hb_counts b CatPending + hb_counts b CatRunning)%nat ∧
  (∀ c, hb_counts b c ≤ total_count b)%nat ∧ (total_count b ≤ hd_max_count d)%nat.
Proof.
  assert (total_count b ≤ hd_max_count d)%nat as Hmax.
  { destruct (build_Ok es start finish selected explicit d Hb) as [(_ & _ & _ & ->)|[He _]].
    - apply max_of_spec. by apply list_elem_of_fmap_2.
    - rewrite He in Hin. by apply elem_of_nil in Hin. }
  apply list_elem_of_lookup in Hin as [k Hk].
  destruct (bucket_lookup es start finish selected explicit d k b Hb Hk) as (_ & _ & _ & ->).
  split_and!; [apply task_counts_total|apply runtime_task_counts|apply runtime_counts_cover|
    apply category_counts_cover|apply category_count_le|done].
Qed.

(** The histogram of the example, and its fifth bucket. *)
Definition demo_histogram : HistogramData :=
  match @build_histogram identity_order chrono_in_seconds demo_entries 0 (milliseconds 10000) both_statuses (Some (milliseconds 1000)) with
  | Ok d => d
  | _ => mkHistogramData 0 0 0 [] ∅ 0 None
  end.

Definition demo_bucket : HistogramBucket :=
  default (finish_bucket (mkWindow 0 0 0 0) 0 sets_new) (hd_buckets demo_histogram !! 4%nat).

Lemma bucket_counts_agree_witness :
  @build_histogram identity_order chrono_in_seconds demo_entries 0 (milliseconds 10000) both_statuses (Some (milliseconds 1000)) =
    Ok demo_histogram ∧
  sum_list (btree_iter (hb_counts_by_task demo_bucket)).*2 = total_count demo_bucket ∧
  total_count demo_bucket = 1%nat ∧ hb_counts demo_bucket CatPending = 1%nat.
Proof.
  split; [reflexivity|]. split; [|split; vm_compute; reflexivity].
  refine (proj1 (@bucket_counts_agree identity_order chrono_in_seconds demo_entries 0 (milliseconds 10000) both_statuses
    (Some (milliseconds 1000)) demo_histogram demo_bucket eq_refl _)).
  apply (list_elem_of_lookup_2 _ 4). reflexivity.
Defined.

(** ** The table *)

Lemma sum_list_add {A : Type} (f g : A → nat) (l : list A) :
  sum_list ((λ x, f x + g x)%nat <$> l) = (sum_list (f <$> l) + sum_list (g <$> l))%nat.
Proof. induction l as [|x l IH]; cbn in *; lia. Qed.

(** Rows first or columns first. *)
Lemma sum_exchange {A B : Type} (f : A → B → nat) (l : list A) (k : list B) :
  sum_list ((λ a, sum_list (f a <$> k)) <$> l) = sum_list ((λ b, sum_list ((λ a, f a b) <$> l)) <$> k).
Proof.
  induction l as [|a l IH].
  - cbn. induction k; cbn in *; lia.
  - change (sum_list (f a <$> k) + sum_list ((λ a, sum_list (f a <$> k)) <$> l) =
      sum_list ((λ b, f a b + sum_list ((λ a, f a b) <$> l)) <$> k))%nat.
    by rewrite sum_list_add, IH.
Qed.

Lemma sum_where_zero p m (Hz : ∀ k v, p k = true → m !! k = Some v → v = 0%nat) : sum_where p m = 0%nat.
Proof.
  revert Hz. induction m as [|k v m Hk IH] using map_ind; intros Hz; [done|].
  rewrite sum_where_insert, IH by (done || intros k' v' Hp Hm; apply (Hz k' v' Hp); rewrite lookup_insert_ne; congruence).
  destruct (p k) eqn:Hp; [|done]. rewrite (Hz k v Hp); [done|apply lookup_insert_eq].
Qed.

(** One column of the table: the listed tasks and, when there are more, the others. *)
Lemma column_total (ids : list string) (other : bool) (m : gmap string nat) (visible : gset string)
    (Hnd : NoDup ids) (Hno : "__other__" ∉ ids) (Hv : ∀ t, t ∈ visible ↔ t ∈ ids)
    (Hall : other = false → ∀ t v, t ∉ ids → m !! t = Some v → v = 0%nat) :
  sum_list ((λ t : string, if bool_decide (t = "__other__") then sum_where (λ k, negb (bool_decide (k ∈ visible))) m
             else default 0%nat (m !! t)) <$> ids ++ (if other then ["__other__"] else [])) =
  sum_where (λ _, true) m.
Proof.
  rewrite <-(sum_listed_and_others ids m Hnd), fmap_app.
  assert (sum_where (λ k, negb (bool_decide (k ∈ visible))) m = sum_where (λ k, negb (bool_decide (k ∈ ids))) m) as ->.
  { apply sum_where_ext. intros k _. f_equal. apply bool_decide_ext, Hv. }
  set (others := sum_where _ m).
  assert (∀ l : list string, "__other__" ∉ l → (λ t : string, if bool_decide (t = "__other__") then others else default 0%nat (m !! t)) <$> l =
    (λ k : string, default 0%nat (m !! k)) <$> l) as Hsame.
  { intros l Hl. apply list_fmap_ext. intros i t Ht. rewrite bool_decide_false; [done|].
    intros ->. by apply Hl, (list_elem_of_lookup_2 _ i). }
  rewrite (Hsame ids Hno).
  rewrite sum_list_with_app. f_equal. destruct other; [cbn [fmap list_fmap]; rewrite bool_decide_true by done; cbn; unfold id; lia|]. cbn. unfold others. symmetry. apply sum_where_zero.
  intros k v Hk. apply negb_true_iff, bool_decide_eq_false in Hk. by apply Hall.
Qed.

Lemma totals_fold (bs : list HistogramBucket) (m : gmap string nat) t :
  is_Some (foldl (λ totals b, union_with (λ x y, Some (x + y)%nat) totals (hb_counts_by_task b)) m bs !! t) ↔
  is_Some (m !! t) ∨ ∃ b, b ∈ bs ∧ is_Some (hb_counts_by_task b !! t).
Proof.
  revert m. induction bs as [|b bs IH]; intros m; cbn [foldl].
  - split; [by left|]. by intros [?|(b & ?%elem_of_nil & _)].
  - rewrite IH, lookup_union_with. setoid_rewrite elem_of_cons.
    assert (is_Some (union_with (λ x y : nat, Some (x + y)%nat) (m !! t) (hb_counts_by_task b !! t)) ↔
      is_Some (m !! t) ∨ is_Some (hb_counts_by_task b !! t)) as ->.
    { destruct (m !! t), (hb_counts_by_task b !! t); cbn; unfold is_Some; naive_solver. }
    naive_solver.
Qed.

(** The tasks of the chart are those with a count in some bucket. *)
Lemma task_totals_spec (d : HistogramData) t :
  is_Some (task_totals d !! t) ↔ ∃ b, b ∈ hd_buckets d ∧ is_Some (hb_counts_by_task b !! t).
Proof. unfold task_totals. rewrite totals_fold, lookup_empty. split; [by intros [[? ?]|?]|by right]. Qed.

Lemma task_series_spec (d : HistogramData) :
  NoDup (task_series d).1 ∧ (∀ t, t ∈ (task_series d).1 → is_Some (task_totals d !! t)) ∧
  ((task_series d).2 = false → ∀ t, is_Some (task_totals d !! t) → t ∈ (task_series d).1).
Proof.
  unfold task_series. set (ordered := sort_by _ _). cbn [fst snd].
  assert (ordered ≡ₚ map_to_list (task_totals d)) as Hp by (unfold ordered, btree_iter; by rewrite !sort_by_perm).
  assert (∀ p, p ∈ ordered ↔ task_totals d !! p.1 = Some p.2) as Hin.
  { intros [t n]. rewrite Hp. apply elem_of_map_to_list. }
  split_and!.
  - rewrite fmap_take. eapply sublist_NoDup; [|apply sublist_take]. rewrite Hp. apply NoDup_fst_map_to_list.
  - intros t ([t' n] & -> & Ht%elem_of_take)%list_elem_of_fmap. destruct Ht as (i & Hi & _).
    apply list_elem_of_lookup_2, Hin in Hi. eauto.
  - intros Hlen%Nat.ltb_ge t [n Hn]. rewrite take_ge by done. apply list_elem_of_fmap. exists (t, n). by rewrite Hin.
Qed.

Lemma visible_ids (d : HistogramData) :
  vt_id <$> visible_tasks d = (task_series d).1 ++ (if (task_series d).2 then ["__other__"] else []).
Proof.
  unfold visible_tasks. destruct (task_series d) as [ids other]. rewrite fmap_app, <-list_fmap_compose.
  f_equal; [by rewrite list_fmap_id|by destruct other].
Qed.

Lemma task_key (marks : list Mark) t : is_Some (bs_task (fill marks) !! t) → ∃ m, m ∈ marks ∧ mk_task m = t.
Proof.
  unfold fill. induction marks as [|m marks IH] using rev_ind; [by cbn; intros [? ?]|].
  rewrite fold_left_app, exists_snoc. cbn [fold_left add_mark bs_task]. unfold insert_member.
  destruct (decide (mk_task m = t)) as [<-|Ht]; [by left|]. rewrite lookup_insert_ne by done. by right; apply IH.
Qed.

(** Where the name of a task comes from. *)
Lemma history_task_cases (es : list HistogramEntry) id :
  history_task (history_in es id) = "unknown" ∨ ∃ e, e ∈ es ∧ history_task (history_in es id) = he_task_id e.
Proof.
  unfold history_task. destruct (list_find _ _) as [[i e]|] eqn:Hf; [right|by left].
  apply list_find_Some in Hf as (Hi & _). exists e. split; [|done].
  apply list_elem_of_lookup_2 in Hi. unfold history_in, sort_history in Hi.
  rewrite elem_of_sort_by, elem_of_bfilter in Hi. by destruct Hi.
Qed.

Lemma listed_task_exists `{HashOrder} `{Chrono} es start finish selected explicit d t
    (Hb : build_histogram es start finish selected explicit = Ok d) (Ht : is_Some (task_totals d !! t)) :
  t = "unknown" ∨ ∃ e, e ∈ es ∧ t = he_task_id e.
Proof.
  apply task_totals_spec in Ht as (b & [k Hk]%list_elem_of_lookup & Ht).
  destruct (bucket_lookup es start finish selected explicit d k b Hb Hk) as (_ & _ & _ & ->).
  unfold finish_bucket, sizes in Ht. cbn -[fill] in Ht. rewrite lookup_fmap, fmap_is_Some in Ht.
  apply task_key in Ht as (m & Hm & <-). rewrite (marks_of_task _ _ _ _ m Hm).
  apply history_task_cases.
Qed.

(** A task that a runtime counts is among those of the chart. *)
Lemma runtime_task_listed `{HashOrder} `{Chrono} es start finish selected explicit d b r t v
    (Hb : build_histogram es start finish selected explicit = Ok d) (Hin : b ∈ hd_buckets d)
    (Ht : default ∅ (hb_counts_by_runtime_task b !! r) !! t = Some v) (Hv : v ≠ 0%nat) :
  is_Some (task_totals d !! t).
Proof.
  apply task_totals_spec. exists b. split; [done|]. apply list_elem_of_lookup in Hin as [k Hk].
  destruct (bucket_lookup es start finish selected explicit d k b Hb Hk) as (_ & _ & _ & ->).
  set (marks := marks_of _ _) in *. unfold finish_bucket, sizes in *. cbn -[fill size] in *.
  rewrite lookup_fmap in Ht. destruct (bs_runtime_task (fill marks) !! r) as [X|] eqn:HX; [|done]. cbn -[size] in Ht.
  rewrite lookup_fmap in Ht. destruct (X !! t) as [Y|] eqn:HY; [|done]. cbn -[size] in Ht. simplify_eq.
  apply size_non_empty_iff, set_choose in Hv as [x Hx].
  assert (x ∈ members (bs_task (fill marks)) t) as HM.
  { apply (holds_task _ _ (holds_fill marks)).
    assert (x ∈ members (default ∅ (bs_runtime_task (fill marks) !! r)) t) as (m & ? & _ & ? & ?)%(holds_runtime_task _ _ (holds_fill marks)).
    { rewrite HX. apply elem_of_members. eauto. }
    eauto. }
  apply elem_of_members in HM as (Z & HZ & _). rewrite lookup_fmap, HZ. by eexists.
Qed.

Lemma row_lookup {A : Type} (f : string → A) (rs : list string) r (Hr : r ∈ rs) :
  (list_to_map ((λ r, (r, f r)) <$> rs) : gmap string A) !! r = Some (f r).
Proof.
  induction rs as [|r' rs IH]; [by apply elem_of_nil in Hr|]. cbn.
  destruct (decide (r' = r)) as [<-|Hne]; [apply lookup_insert_eq|]. rewrite lookup_insert_ne by done.
  apply IH. apply elem_of_cons in Hr as [->|?]; done.
Qed.

(** the table under the chart is consistent.  It has at most twelve tasks and one
    row for all the others, and for each runtime the rows add up to the runtime's own
    total, so that no invocation counted in the chart is missing from the table or is
    in two rows; provided that no task bears the reserved name of the last row. *)
Theorem table_rows_add_up `{HashOrder} `{Chrono} es start finish selected explicit d
    (Hb : build_histogram es start finish selected explicit = Ok d)
    (Hname : ∀ e, e ∈ es → he_task_id e ≠ "__other__") :
  let tasks := visible_tasks d in
  let groups := histogram_groups d in
  (length tasks ≤ S MAX_TASK_LEGEND)%nat ∧ NoDup (vt_id <$> tasks) ∧
  ∀ r, r ∈ groups →
    sum_list ((λ t, default 0%nat (task_totals_by_runtime d groups (vt_id t) (visible_task_set tasks) !! r)) <$> tasks) =
    runtime_total d r.
Proof.
  cbn zeta. destruct (task_series_spec d) as (Hnd & Hlisted & Hcomplete).
  assert ("__other__" ∉ (task_series d).1) as Hno.
  { intros Ht%Hlisted. destruct (listed_task_exists es start finish selected explicit d _ Hb Ht) as [|(e & He & Hx)]; [done|].
    by apply (Hname e He). }
  pose proof (visible_ids d) as Hids.
  split; [|split].
  - rewrite <-(length_fmap vt_id), Hids, length_app. unfold task_series. cbn [fst snd].
    rewrite length_fmap, length_take. destruct (_ <? _)%nat; cbn [length]; lia.
  - rewrite Hids. destruct (task_series d) as [ids []]; cbn [fst snd] in *; [|by rewrite app_nil_r].
    apply list.NoDup_app. split_and!; [done| |apply NoDup_singleton]. intros t Ht ->%list_elem_of_singleton. done.
  - intros r Hr. unfold task_totals_by_runtime.
    rewrite (list_fmap_ext _ (λ t, task_total_of_runtime d r (vt_id t) (visible_task_set (visible_tasks d)))).
    2: { intros i t _. by rewrite row_lookup. }
    unfold task_total_of_runtime, runtime_total.
    rewrite sum_exchange. f_equal. apply list_fmap_ext. intros k b Hk.
    trans (sum_list ((λ t, task_count_for_runtime b r t (visible_task_set (visible_tasks d))) <$> (vt_id <$> visible_tasks d)));
      [by rewrite <-list_fmap_compose|]. rewrite Hids.
    destruct (bucket_lookup es start finish selected explicit d k b Hb Hk) as (_ & _ & _ & Heq).
    rewrite Heq, <-runtime_task_counts, <-Heq, sum_all. rewrite <-(column_total _ (task_series d).2 _ (visible_task_set (visible_tasks d)) Hnd Hno).
    + f_equal. apply list_fmap_ext. intros i t _. unfold task_count_for_runtime.
      destruct (hb_counts_by_runtime_task b !! r) as [m|]; cbn; [done|]. by destruct (bool_decide _).
    + intros t. unfold visible_task_set. rewrite elem_of_list_to_set, elem_of_bfilter, Hids, elem_of_app, negb_true_iff, bool_decide_eq_false.
      destruct (task_series d).2; rewrite ?list_elem_of_singleton, ?elem_of_nil; clear -Hno; [|naive_solver].
      split; [tauto|]. intros Ht. split; [by intros ->|by left].
    + intros Hf t v Hnt Hm. destruct v; [done|]. exfalso. apply Hnt, (Hcomplete Hf).
      by apply (runtime_task_listed es start finish selected explicit d b r t (S v) Hb (list_elem_of_lookup_2 _ _ _ Hk) Hm).
Qed.

Lemma table_rows_add_up_witness :
  ("python" ∈ histogram_groups demo_histogram) ∧ (∀ e, e ∈ demo_entries → he_task_id e ≠ "__other__") ∧
  runtime_total demo_histogram "python" = 9%nat ∧
  NoDup (vt_id <$> visible_tasks demo_histogram).
Proof.
  assert (∀ e, e ∈ demo_entries → he_task_id e ≠ "__other__") as Hname.
  { unfold demo_entries. intros e He. repeat (apply elem_of_cons in He as [->|He]; [done|]). by apply elem_of_nil in He. }
  split; [vm_compute; right; left|]. split; [done|]. split; [vm_compute; reflexivity|].
  apply (@table_rows_add_up identity_order chrono_in_seconds demo_entries 0 (milliseconds 10000) both_statuses
    (Some (milliseconds 1000)) demo_histogram eq_refl Hname).
Defined.
