(* ===== verification/FamilyTree.v ===== *)
(** * The family tree of an invocation

    Models [rustvello-monitoring/src/family_tree/tree.rs]: the walk to the root of an
    invocation's family and the tree that is drawn from there, within limits of depth
    and of nodes.  The reads of the backends are a snapshot, [Family]; a read that
    fails is [None].

    The theorems: the walk ends whatever the parents are, cycles included, and where;
    the tree stays within its limits, holds what the backends hold, leaves children out
    only at the limits, and says where; and an invocation whose parent is gone has no tree. *)
From S2P Require Import Prelude F64 Effects Identifiers Status Errors Call Invocation.

(** What the two backends answer: [get_invocation], [get_child_invocations] and
    [get_invocation_status]. *)
Record Family := mkFamily {
  fm_invocation : InvocationId → option InvocationDTO;
  fm_children : InvocationId → option (list InvocationId);
  fm_status : InvocationId → option InvocationStatus
}.

Unset Elimination Schemes.
(* @src rustvello-monitoring/src/family_tree/tree.rs 10-22 FamilyTreeNode *)
Inductive FamilyTreeNode := mkNode {
  nd_invocation_id : InvocationId;
  nd_task_module : string;
  nd_task_func : string;
  nd_status : InvocationStatus;
  nd_created_at : DateTime;
  nd_elapsed_secs : f64;
  nd_children : list FamilyTreeNode;
  nd_truncated : bool
}.
Set Elimination Schemes.

(* @src rustvello-monitoring/src/family_tree/tree.rs 24-24 MAX_DEPTH *)
Definition MAX_DEPTH : nat := 8.
(* @src rustvello-monitoring/src/family_tree/tree.rs 25-25 MAX_NODES *)
Definition MAX_NODES : nat := 60.

Lemma some_nodes : (MAX_NODES <=? 0)%nat = false.
Proof. reflexivity. Qed.

#[local] Opaque MAX_DEPTH MAX_NODES.

(** ** The walk to the root *)

(** [None]: the fuel is out.  [find_root_ends] shows that it never is. *)
(* @src rustvello-monitoring/src/family_tree/tree.rs 58-72 find_root *)
Fixpoint find_root_loop (fuel : nat) (fm : Family) (visited : gset InvocationId) (current : InvocationId)
    : option InvocationId :=
  match fuel with
  | O => None
  | S fuel =>
      if bool_decide (current ∈ visited) then Some current
      else
        match fm_invocation fm current with
        | Some inv =>
            match inv_parent inv with
            | Some parent => find_root_loop fuel fm ({[current]} ∪ visited) parent
            | None => Some current
            end
        | None => Some current
        end
  end.

(* @src rustvello-monitoring/src/family_tree/tree.rs 51-75 find_root *)
Definition find_root (fuel : nat) (fm : Family) (id : InvocationId) : option InvocationId :=
  find_root_loop fuel fm ∅ id.

(** ** The tree *)

(** The loop over the children, while nodes are left: the nodes built, whether it
    stopped early, and the count of nodes. *)
(* @src rustvello-monitoring/src/family_tree/tree.rs 124-141 build_node *)
Fixpoint build_children (build : InvocationId → nat → option FamilyTreeNode * nat)
    (ids : list InvocationId) (count : nat) : list FamilyTreeNode * bool * nat :=
  match ids with
  | [] => ([], false, count)
  | id :: ids =>
      if (MAX_NODES <=? count)%nat then ([], true, count)
      else
        let '(node, count) := build id count in
        let '(nodes, stopped, count) := build_children build ids count in
        (option_list node ++ nodes, stopped, count)
  end.

(** [depth < 2 || expand_ids.contains(id)]. *)
Definition expanded (expand_ids : list InvocationId) (depth : nat) (id : InvocationId) : bool :=
  (depth <? 2)%nat || bool_decide (id ∈ expand_ids).

(** [format!("{}::{}", language, module)]. *)
Definition node_module (inv : InvocationDTO) : string :=
  language_as_str (task_language (inv_task_id inv)) +:+ "::" +:+ task_module (inv_task_id inv).

(** [(updated_at - created_at).num_milliseconds() as f64 / 1000.0]. *)
Definition node_elapsed (inv : InvocationDTO) : f64 :=
  f64_div (f64_of_u64 (Z.quot (inv_updated_at inv - inv_created_at inv) 1000000)) 0x408F400000000000.

(** A node [levels] levels above the limit of depth. *)
(* @src rustvello-monitoring/src/family_tree/tree.rs 78-165 build_node *)
Fixpoint build_node (levels : nat) (fm : Family) (expand_ids : list InvocationId) (id : InvocationId)
    (count : nat) : option FamilyTreeNode * nat :=
  if (MAX_NODES <=? count)%nat then (None, count)
  else
    let count := S count in
    match fm_invocation fm id with
    | None => (None, count)
    | Some inv =>
        let child_ids := default [] (fm_children fm id) in
        let node := mkNode id (node_module inv) (task_name (inv_task_id inv))
                      (default Registered (fm_status fm id)) (inv_created_at inv) (node_elapsed inv) in
        match levels with
        | O => (Some (node [] (negb (bool_decide (child_ids = [])))), count)
        | S levels' =>
            if expanded expand_ids (MAX_DEPTH - levels) id then
              let '(nodes, stopped, count) := build_children (build_node levels' fm expand_ids) child_ids count in
              (Some (node nodes (stopped || (length nodes <? length child_ids)%nat)), count)
            else (Some (node [] false), count)
        end
    end.

(* @src rustvello-monitoring/src/family_tree/tree.rs 28-48 build_family_tree *)
Definition build_family_tree (fuel : nat) (fm : Family) (expand_ids : list InvocationId) (id : InvocationId)
    : option (option FamilyTreeNode) :=
  root ← find_root fuel fm id;
  Some (build_node MAX_DEPTH fm expand_ids root 0).1.

(** ** Trees *)

(** The number of nodes. *)
Fixpoint tree_size (n : FamilyTreeNode) : nat := S (sum_list_with tree_size (nd_children n)).

(** A node at [depth] shows the stored invocation.  Its children are stored children
    of it, in their order; it is marked as truncated exactly when it should show
    children and does not show all of them, or is at the limit of depth and has some. *)
Inductive faithful (fm : Family) (expand_ids : list InvocationId) : nat → FamilyTreeNode → Prop :=
| faithful_node depth n inv :
    fm_invocation fm (nd_invocation_id n) = Some inv →
    nd_task_module n = node_module inv → nd_task_func n = task_name (inv_task_id inv) →
    nd_status n = default Registered (fm_status fm (nd_invocation_id n)) →
    nd_created_at n = inv_created_at inv → nd_elapsed_secs n = node_elapsed inv →
    (depth ≤ MAX_DEPTH)%nat →
    (nd_invocation_id <$> nd_children n) `sublist_of` default [] (fm_children fm (nd_invocation_id n)) →
    (nd_children n ≠ [] → (depth < MAX_DEPTH)%nat ∧ expanded expand_ids depth (nd_invocation_id n) = true) →
    (nd_truncated n = true ↔
      nd_invocation_id <$> nd_children n ≠ default [] (fm_children fm (nd_invocation_id n)) ∧
      (depth = MAX_DEPTH ∨ expanded expand_ids depth (nd_invocation_id n) = true)) →
    Forall (faithful fm expand_ids (S depth)) (nd_children n) →
    faithful fm expand_ids depth n.

(** The record of the invocation is there. *)
Definition stored (fm : Family) (id : InvocationId) : bool := bool_decide (fm_invocation fm id ≠ None).

(** A node at [depth] is one whose children are shown. *)
Definition shows_children (expand_ids : list InvocationId) (depth : nat) (id : InvocationId) : bool :=
  (depth <? MAX_DEPTH)%nat && expanded expand_ids depth id.

(** Nothing is left out for want of nodes: a node that shows its children shows all
    those whose records are there. *)
Inductive complete (fm : Family) (expand_ids : list InvocationId) : nat → FamilyTreeNode → Prop :=
| complete_node depth n :
    nd_invocation_id <$> nd_children n =
      (if shows_children expand_ids depth (nd_invocation_id n)
       then bfilter (stored fm) (default [] (fm_children fm (nd_invocation_id n))) else []) →
    Forall (complete fm expand_ids (S depth)) (nd_children n) →
    complete fm expand_ids depth n.

(** The children listed below a node at [depth] whose records are gone: each uses up
    a node of the budget. *)
Fixpoint gone (fm : Family) (expand_ids : list InvocationId) (depth : nat) (n : FamilyTreeNode) {struct n} : nat :=
  ((if shows_children expand_ids depth (nd_invocation_id n)
    then length (bfilter (λ id, negb (stored fm id)) (default [] (fm_children fm (nd_invocation_id n)))) else 0) +
   sum_list_with (gone fm expand_ids (S depth)) (nd_children n))%nat.

Section facts.
Context (fm : Family) (expand_ids : list InvocationId).

(** *** The walk *)

(** [b] is stored as the parent of [a]. *)
Definition parent_of (a b : InvocationId) : Prop :=
  ∃ inv, fm_invocation fm a = Some inv ∧ inv_parent inv = Some b.

Lemma find_root_loop_spec fuel visited current root :
  (∀ v, v ∈ visited → tc parent_of v current) →
  find_root_loop fuel fm visited current = Some root →
  rtc parent_of current root ∧ ((∀ p, ¬ parent_of root p) ∨ tc parent_of root root).
Proof.
  revert visited current. induction fuel as [|fuel IH]; intros visited current Hv; simpl; [done|].
  case_bool_decide as Hin; [intros [= <-]; split; [done|right; by apply Hv]|].
  destruct (fm_invocation fm current) as [inv|] eqn:Hinv.
  2:{ intros [= <-]. split; [done|left]. intros p (inv & ? & _). congruence. }
  destruct (inv_parent inv) as [parent|] eqn:Hparent.
  2:{ intros [= <-]. split; [done|left]. intros p (inv' & ? & ?). congruence. }
  assert (parent_of current parent) as Hstep by by exists inv.
  intros Hrun. apply IH in Hrun as [Hreach Hroot].
  - split; [by eapply rtc_l|done].
  - intros v. rewrite elem_of_union, elem_of_singleton. intros [->|Hin']; [by apply tc_once|].
    eapply tc_r; [by apply Hv|done].
Qed.

Lemma find_root_loop_ends (known : gset InvocationId) fuel visited current :
  (∀ a inv, fm_invocation fm a = Some inv → a ∈ known) → (size (known ∖ visited) < fuel)%nat →
  is_Some (find_root_loop fuel fm visited current).
Proof.
  intros Hknown. revert visited current. induction fuel as [|fuel IH]; intros visited current Hf; [lia|]. simpl.
  case_bool_decide as Hin; [done|]. destruct (fm_invocation fm current) as [inv|] eqn:Hinv; [|done].
  destruct (inv_parent inv) as [parent|]; [|done]. apply IH.
  assert (size (known ∖ ({[current]} ∪ visited)) < size (known ∖ visited))%nat; [|lia].
  apply subset_size. specialize (Hknown _ _ Hinv). set_solver.
Qed.

(** *** Building *)

(** What a node costs: the count grows by at least its size, within the limit. *)
Definition counted (build : InvocationId → nat → option FamilyTreeNode * nat) : Prop :=
  ∀ id count n count', build id count = (n, count') →
    (count + match n with Some n => tree_size n | None => 0 end ≤ count')%nat ∧
    (count ≤ MAX_NODES → count' ≤ MAX_NODES)%nat.

Lemma build_children_counted build ids count nodes stopped count' :
  counted build → build_children build ids count = (nodes, stopped, count') →
  (count + sum_list_with tree_size nodes ≤ count')%nat ∧ (count ≤ MAX_NODES → count' ≤ MAX_NODES)%nat.
Proof.
  intros Hb. revert count nodes stopped count'. induction ids as [|id ids IH]; intros count nodes stopped count'; simpl.
  { intros [= <- _ <-]. simpl. lia. }
  case_match; [intros [= <- _ <-]; simpl; lia|].
  destruct (build id count) as [n c1] eqn:Hone. destruct (Hb _ _ _ _ Hone) as [H1 H2].
  destruct (build_children build ids c1) as [[nodes' stopped'] c2] eqn:Hrest.
  destruct (IH _ _ _ _ Hrest) as [H3 H4]. intros [= <- _ <-].
  rewrite sum_list_with_app. destruct n; simpl; split; lia.
Qed.

Lemma build_node_counted levels : counted (build_node levels fm expand_ids).
Proof.
  induction levels as [|levels IH]; intros id count n count'; simpl;
    (destruct (Nat.leb_spec MAX_NODES count) as [Hc|Hc]; [intros [= <- <-]; lia|]);
    (destruct (fm_invocation fm id) as [inv|]; [|intros [= <- <-]; lia]).
  - intros [= <- <-]. simpl. lia.
  - destruct (expanded _ _ _); [|intros [= <- <-]; simpl; lia].
    destruct (build_children _ _ _) as [[nodes stopped] c1] eqn:Hch.
    destruct (build_children_counted _ _ _ _ _ _ IH Hch) as [H1 H2]. intros [= <- <-]. simpl. lia.
Qed.

Lemma build_children_nodes build ids count nodes stopped count' (P : FamilyTreeNode → Prop) :
  (∀ id count n count', build id count = (Some n, count') → nd_invocation_id n = id ∧ P n) →
  build_children build ids count = (nodes, stopped, count') →
  (nd_invocation_id <$> nodes) `sublist_of` ids ∧ Forall P nodes ∧
  (stopped = true → (length nodes < length ids)%nat).
Proof.
  intros Hb. revert count nodes stopped count'. induction ids as [|id ids IH]; intros count nodes stopped count'; simpl.
  { intros [= <- <- _]. by split_and!. }
  case_match; [intros [= <- <- _]; split_and!; [apply sublist_nil_l|done|simpl; lia]|].
  destruct (build id count) as [n c1] eqn:Hone.
  destruct (build_children build ids c1) as [[nodes' stopped'] c2] eqn:Hrest.
  destruct (IH _ _ _ _ Hrest) as (Hsub & Hall & Hstop). intros [= <- <- _]. destruct n as [n|]; simpl.
  - destruct (Hb _ _ _ _ Hone) as [<- Hn]. split_and!; [by apply sublist_skip|by constructor|].
    intros Hs. specialize (Hstop Hs). lia.
  - split_and!; [by apply sublist_cons|done|]. intros Hs. specialize (Hstop Hs). lia.
Qed.

Lemma sublist_same_length {A} (l k : list A) : l `sublist_of` k → (length k ≤ length l)%nat → l = k.
Proof.
  intros Hs Hl. induction Hs as [|x l k Hs IH|x l k Hs IH]; simpl in *; [done| |].
  - f_equal. apply IH. lia.
  - apply sublist_length in Hs. lia.
Qed.

Lemma build_node_faithful levels id count n count' :
  (levels ≤ MAX_DEPTH)%nat → build_node levels fm expand_ids id count = (Some n, count') →
  nd_invocation_id n = id ∧ faithful fm expand_ids (MAX_DEPTH - levels) n.
Proof.
  revert id count n count'. induction levels as [|levels IH]; intros id count n count' Hl; simpl;
    (case_match; [done|]); (destruct (fm_invocation fm id) as [inv|] eqn:Hinv; [|done]).
  - intros [= <- _]. split; [done|]. eapply faithful_node; simpl; try done.
    + apply sublist_nil_l.
    + rewrite negb_true_iff, bool_decide_eq_false. split; [|naive_solver]. intros Hne. split; [done|by left].
  - assert (MAX_DEPTH - S levels < MAX_DEPTH)%nat as Hdepth by lia.
    destruct (expanded expand_ids (MAX_DEPTH - S levels) id) eqn:Hex.
    2:{ intros [= <- _]. split; [done|]. eapply faithful_node; simpl; try done.
        - lia.
        - apply sublist_nil_l.
        - split; [done|]. intros [_ [?|?]]; [lia|congruence]. }
    destruct (build_children _ _ _) as [[nodes stopped] c1] eqn:Hch. intros [= <- _]. split; [done|].
    destruct (build_children_nodes _ _ _ _ _ _ (faithful fm expand_ids (S (MAX_DEPTH - S levels))) ltac:(
      intros id' c' n' c'' Hn; replace (S (MAX_DEPTH - S levels)) with (MAX_DEPTH - levels)%nat by lia;
      apply (IH id' c' n' c''); [lia|exact Hn]) Hch) as (Hsub & Hall & Hstop).
    eapply faithful_node; simpl; try done; [lia|].
    rewrite orb_true_iff. rewrite Nat.ltb_lt. rewrite <-(length_fmap nd_invocation_id nodes) in Hstop |- *.
    split.
    + intros Ht. split; [|by right]. intros He. rewrite He in *. naive_solver lia.
    + intros [Hne _]. right. destruct (decide (length (nd_invocation_id <$> nodes) <
        length (default [] (fm_children fm id)))%nat); [done|]. destruct Hne.
      apply sublist_same_length; [done|lia].
Qed.

(** What a build at [depth] uses of the budget, and that it is complete when it leaves
    some. *)
Definition thrifty (depth : nat) (build : InvocationId → nat → option FamilyTreeNode * nat) : Prop :=
  ∀ id count n count', build id count = (n, count') →
    (count' ≤ count + match n with
                      | Some n => tree_size n + gone fm expand_ids depth n
                      | None => if stored fm id then 0 else 1
                      end)%nat ∧
    ((count' < MAX_NODES)%nat →
     match n with
     | Some n => nd_invocation_id n = id ∧ stored fm id = true ∧ complete fm expand_ids depth n
     | None => stored fm id = false
     end).

Lemma build_children_thrifty depth build ids count nodes stopped count' :
  counted build → thrifty depth build → build_children build ids count = (nodes, stopped, count') →
  (count' ≤ count + sum_list_with tree_size nodes + sum_list_with (gone fm expand_ids depth) nodes +
            length (bfilter (λ id, negb (stored fm id)) ids))%nat ∧
  ((count' < MAX_NODES)%nat → nd_invocation_id <$> nodes = bfilter (stored fm) ids ∧
    Forall (complete fm expand_ids depth) nodes).
Proof.
  intros Hcnt Hb. revert count nodes stopped count'. induction ids as [|id ids IH]; intros count nodes stopped count'; simpl.
  { intros [= <- _ <-]. simpl. split; [lia|done]. }
  destruct (Nat.leb_spec MAX_NODES count); [intros [= <- _ <-]; simpl; lia|].
  destruct (build id count) as [n c1] eqn:Hone. destruct (Hb _ _ _ _ Hone) as [Hc1 Hn].
  destruct (build_children build ids c1) as [[nodes' stopped'] c2] eqn:Hrest.
  destruct (IH _ _ _ _ Hrest) as [Hc2 Hall].
  destruct (build_children_counted _ _ _ _ _ _ Hcnt Hrest) as [Hmono _]. intros [= <- _ <-].
  unfold bfilter in *. simpl. rewrite !sum_list_with_app, fmap_app. split.
  - destruct n as [n|]; simpl; destruct (stored fm id); simpl; lia.
  - intros Hlt. specialize (Hall Hlt) as [-> Hf]. specialize (Hn ltac:(lia)). destruct n as [n|]; simpl.
    + destruct Hn as (<- & -> & Hn). split; [done|by constructor].
    + by rewrite Hn.
Qed.

Lemma build_node_thrifty levels :
  (levels ≤ MAX_DEPTH)%nat → thrifty (MAX_DEPTH - levels) (build_node levels fm expand_ids).
Proof.
  induction levels as [|levels IH]; intros Hl id count n count'; simpl;
    (destruct (Nat.leb_spec MAX_NODES count) as [Hc|Hc]; [intros [= <- <-]; lia|]);
    unfold stored; (destruct (fm_invocation fm id) as [inv|] eqn:Hinv; [|intros [= <- <-]; simpl; by split; [lia|]]).
  - intros [= <- <-]. simpl. split; [lia|]. intros _. split_and!; [done..|]. constructor; [|done]. simpl.
    unfold shows_children. by rewrite (proj2 (Nat.ltb_ge _ _)) by lia.
  - assert (shows_children expand_ids (MAX_DEPTH - S levels) id = expanded expand_ids (MAX_DEPTH - S levels) id) as Hs
      by (unfold shows_children; by rewrite (proj2 (Nat.ltb_lt _ _)) by lia).
    destruct (expanded expand_ids (MAX_DEPTH - S levels) id) eqn:Hex.
    2:{ intros [= <- <-]. simpl. split; [lia|]. intros _. split_and!; [done..|]. constructor; [|done].
        simpl. by rewrite Hs. }
    destruct (build_children _ _ _) as [[nodes stopped] c1] eqn:Hch. intros [= <- <-]. simpl. rewrite Hs.
    apply (build_children_thrifty (S (MAX_DEPTH - S levels))) in Hch as [Hcost Hall]; [|apply build_node_counted|].
    + split; [lia|]. intros Hlt. specialize (Hall Hlt) as [Hids Hf].
      split_and!; [done..|]. constructor; simpl; [by rewrite Hs|done].
    + replace (S (MAX_DEPTH - S levels)) with (MAX_DEPTH - levels)%nat by lia. apply IH. lia.
Qed.

Lemma build_node_found levels id :
  is_Some (build_node levels fm expand_ids id 0).1 ↔ is_Some (fm_invocation fm id).
Proof.
  destruct levels as [|levels]; simpl; rewrite some_nodes; (destruct (fm_invocation fm id);
    [|split; by intros []]); simpl.
  - split; by eauto.
  - case_match; [|split; by eauto]. destruct (build_children _ _ _) as [[nodes stopped] c]. split; by eauto.
Qed.

(** C35: the family tree of an invocation.  The walk to the root ends for every
    snapshot of the backends, cycles of parents included: it follows parents, and
    stops at an invocation that has none or whose record is gone, or on a cycle.
    There is a tree exactly when the root is stored.  It starts at the root, has at
    most 60 nodes, and shows what is stored: at most 8 levels below the root, each
    node with stored children of its own, in order.  The nodes of the first two levels
    and those the caller asked to expand show all their children whose records are
    there, unless the budget is used up: the nodes shown and the children listed
    below them whose records are gone then come to 60 or more.  A node is marked as
    truncated exactly when children it should show are missing, or it is at the limit
    of depth and has some; a child whose record is gone counts as missing, although
    the comment on the mark (tree.rs:20) names the two limits only. *)
Theorem family_tree_behaviour (known : gset InvocationId) id :
  (∀ a inv, fm_invocation fm a = Some inv → a ∈ known) →
  ∃ root tree,
    build_family_tree (S (size known)) fm expand_ids id = Some tree ∧
    rtc parent_of id root ∧ ((∀ p, ¬ parent_of root p) ∨ tc parent_of root root) ∧
    (is_Some tree ↔ is_Some (fm_invocation fm root)) ∧
    ∀ n, tree = Some n →
      nd_invocation_id n = root ∧ (tree_size n ≤ MAX_NODES)%nat ∧ faithful fm expand_ids 0 n ∧
      (complete fm expand_ids 0 n ∨ (MAX_NODES ≤ tree_size n + gone fm expand_ids 0 n)%nat).
Proof.
  intros Hknown.
  destruct (find_root_loop_ends known (S (size known)) ∅ id Hknown) as [root Hroot].
  { rewrite difference_empty_L. lia. }
  destruct (find_root_loop_spec _ ∅ id root ltac:(set_solver) Hroot) as [Hreach Hend].
  exists root, (build_node MAX_DEPTH fm expand_ids root 0).1.
  destruct (build_node MAX_DEPTH fm expand_ids root 0) as [tree count] eqn:Hb. simpl.
  split_and!; [|done|done| |].
  - unfold build_family_tree, find_root. rewrite Hroot. cbv [mbind option_bind]. by rewrite Hb.
  - rewrite <-(build_node_found MAX_DEPTH root). by rewrite Hb.
  - intros n ->. destruct (build_node_faithful MAX_DEPTH root 0 n count ltac:(lia) Hb) as [<- Hf].
    destruct (build_node_counted MAX_DEPTH _ _ _ _ Hb) as [H1 H2].
    destruct (build_node_thrifty MAX_DEPTH ltac:(lia) _ _ _ _ Hb) as [H3 H4]. rewrite Nat.sub_diag in *.
    split_and!; [done|lia|done|]. destruct (decide (count < MAX_NODES)%nat) as [Hlt|Hge]; [left|right; lia].
    by apply H4.
Qed.

(** An invocation whose parent's record is gone has no tree, though it is stored. *)
Lemma missing_parent_hides_the_tree fuel id p :
  parent_of id p → fm_invocation fm p = None →
  build_family_tree (S (S fuel)) fm expand_ids id = Some None.
Proof.
  intros (inv & Hid & Hp) Hgone.
  assert (find_root (S (S fuel)) fm id = Some p) as Hr.
  { unfold find_root. simpl. rewrite Hid, Hp, bool_decide_false by set_solver. rewrite Hgone. by case_bool_decide. }
  unfold build_family_tree. rewrite Hr. cbv [mbind option_bind]. f_equal.
  apply eq_None_not_Some. rewrite build_node_found, Hgone. by intros [].
Qed.
End facts.

(** ** A child whose record is gone *)

(** The root "a" lists one child, which is not stored. *)
Definition demo_orphans : Family :=
  {| fm_invocation id := if bool_decide (id = "a") then
       Some (mkInvocation "a" (mkTaskId Rust "appwork" 3) (mkCallId (mkTaskId Rust "appwork" 3) "no_args") Success
               0 0 None None trace_context_default) else None;
     fm_children id := if bool_decide (id = "a") then Some ["b"] else None;
     fm_status id := Some Success |}.

(** The tree of one node is marked as truncated, though neither limit is near. *)
Lemma gone_child_is_called_truncated :
  option_map (option_map (λ n, (tree_size n, nd_truncated n))) (build_family_tree 3 demo_orphans [] "a") = Some (Some (1%nat, true)).
Proof. vm_compute. reflexivity. Qed.

(** ** Witness *)

(** Two invocations that are each other's parent. *)
Definition demo_member (id parent : InvocationId) : InvocationDTO :=
  mkInvocation id (mkTaskId Rust "appwork" 3) (mkCallId (mkTaskId Rust "appwork" 3) "no_args") Success 0 1500000000
    (Some parent) None trace_context_default.

Definition demo_family : Family :=
  {| fm_invocation id := if bool_decide (id = "a") then Some (demo_member "a" "b")
                         else if bool_decide (id = "b") then Some (demo_member "b" "a") else None;
     fm_children id := if bool_decide (id = "a") then Some ["b"] else Some ["a"];
     fm_status id := Some Success |}.

Lemma family_tree_behaviour_witness :
  ∃ n, build_family_tree 3 demo_family [] "a" = Some (Some n) ∧ nd_invocation_id n = "a" ∧
    (tree_size n ≤ MAX_NODES)%nat.
Proof.
  destruct (family_tree_behaviour demo_family [] {["a"; "b"]} "a") as (root & tree & Hrun & _ & _ & Htree & Hn).
  - intros a inv. simpl. repeat case_bool_decide; set_solver.
  - change (S (size ({["a"; "b"]} : gset string))) with 3%nat in Hrun.
    assert (nd_invocation_id <$> (build_family_tree 3 demo_family [] "a" ≫= λ n, n) = Some "a") as Ha
      by (vm_compute; reflexivity).
    rewrite Hrun in Ha. destruct tree as [n|]; [|done]. injection Ha as Ha.
    destruct (Hn n eq_refl) as (_ & Hsize & _ & _). by exists n.
Defined.
