(* ===== verification/Exporter.v ===== *)
(** * The bounded exporter of lifecycle events

    Models [BoundedAsyncEmitter] of [rustvello-core/src/observability.rs]: a bounded
    queue between the threads that run tasks and one worker thread that hands the
    events, in batches, to an exporter; with [flush] and [shutdown] over channels of
    their own.

    The threads are program counters over a shared state, and every atomic access,
    every channel operation and every read of a counter is one step, so that all
    interleavings are covered.  The source uses acquire and release orderings, under
    which a load may return a value that another thread has already overwritten: a
    step that loads [state] or [in_flight_enqueues] is told whether its load is
    [stale] and then returns the oldest value.  The runs of [leads] are the
    sequentially consistent ones, without stale loads, and the theorems are about
    them; [leads_weakly] adds the stale loads, and [stale_load_loses_an_event] is a run
    of it in which a shutdown succeeds and an event is lost.  Loads of the counters are
    never stale in the model.  The counters of events are natural
    numbers (the source has 64 bits); the sum of the nanoseconds wraps around.  A
    time-out is a choice of the step; a destructor of the exporter does not panic.

    The theorems: every event is accounted for at every moment, and the queue stays
    within its capacity; a [flush] that returns has delivered every event that was
    queued when it was called; a [shutdown] that returns has delivered all of them,
    and the exporter was stopped once, afterwards; and once the shutdown is under way
    the worker finishes, whatever the other threads do. *)
From stdpp Require Import numbers list.
From S2P Require Import Prelude Effects.

(* @src rustvello-core/src/observability.rs 435-463 AsyncExportConfig *)
Record AsyncExportConfig := mkExportConfig {
  queue_capacity : nat;
  control_capacity : nat;
  max_batch_size : nat;
  scheduled_delay : Z
}.

(* @src rustvello-core/src/observability.rs 454-463 AsyncExportConfig::default *)
Definition export_config_default : AsyncExportConfig := mkExportConfig 2048 16 512 5000000000.

(** The assertions of [BoundedAsyncEmitter::new]. *)
(* @src rustvello-core/src/observability.rs 533-542 BoundedAsyncEmitter::new *)
Definition config_check (config : AsyncExportConfig) : outcome Empty_set unit :=
  if (queue_capacity config =? 0)%nat then Panic "queue_capacity must be positive"
  else if (control_capacity config =? 0)%nat then Panic "control_capacity must be positive"
  else if (max_batch_size config =? 0)%nat then Panic "max_batch_size must be positive"
  else if scheduled_delay config =? 0 then Panic "scheduled_delay must be positive"
  else Ok tt.

(* @src rustvello-core/src/observability.rs 476-486 ExportCounters *)
Record ExportCounters := mkCounters {
  ct_accepted : nat;
  ct_dropped : nat;
  ct_exported : nat;
  ct_export_failed : nat;
  ct_rejected_after_shutdown : nat;
  ct_enqueue_nanos_total : Z;
  ct_enqueue_nanos_max : Z
}.

Definition with_accepted (f : nat → nat) (s : ExportCounters) : ExportCounters :=
  {| ct_accepted := f (ct_accepted s); ct_dropped := ct_dropped s; ct_exported := ct_exported s;
     ct_export_failed := ct_export_failed s;
     ct_rejected_after_shutdown := ct_rejected_after_shutdown s;
     ct_enqueue_nanos_total := ct_enqueue_nanos_total s;
     ct_enqueue_nanos_max := ct_enqueue_nanos_max s |}.
Definition with_dropped (f : nat → nat) (s : ExportCounters) : ExportCounters :=
  {| ct_accepted := ct_accepted s; ct_dropped := f (ct_dropped s); ct_exported := ct_exported s;
     ct_export_failed := ct_export_failed s;
     ct_rejected_after_shutdown := ct_rejected_after_shutdown s;
     ct_enqueue_nanos_total := ct_enqueue_nanos_total s;
     ct_enqueue_nanos_max := ct_enqueue_nanos_max s |}.
Definition with_exported (f : nat → nat) (s : ExportCounters) : ExportCounters :=
  {| ct_accepted := ct_accepted s; ct_dropped := ct_dropped s; ct_exported := f (ct_exported s);
     ct_export_failed := ct_export_failed s;
     ct_rejected_after_shutdown := ct_rejected_after_shutdown s;
     ct_enqueue_nanos_total := ct_enqueue_nanos_total s;
     ct_enqueue_nanos_max := ct_enqueue_nanos_max s |}.
Definition with_export_failed (f : nat → nat) (s : ExportCounters) : ExportCounters :=
  {| ct_accepted := ct_accepted s; ct_dropped := ct_dropped s; ct_exported := ct_exported s;
     ct_export_failed := f (ct_export_failed s);
     ct_rejected_after_shutdown := ct_rejected_after_shutdown s;
     ct_enqueue_nanos_total := ct_enqueue_nanos_total s;
     ct_enqueue_nanos_max := ct_enqueue_nanos_max s |}.
Definition with_rejected_after_shutdown (f : nat → nat) (s : ExportCounters) : ExportCounters :=
  {| ct_accepted := ct_accepted s; ct_dropped := ct_dropped s; ct_exported := ct_exported s;
     ct_export_failed := ct_export_failed s;
     ct_rejected_after_shutdown := f (ct_rejected_after_shutdown s);
     ct_enqueue_nanos_total := ct_enqueue_nanos_total s;
     ct_enqueue_nanos_max := ct_enqueue_nanos_max s |}.
Definition with_enqueue_nanos_total (f : Z → Z) (s : ExportCounters) : ExportCounters :=
  {| ct_accepted := ct_accepted s; ct_dropped := ct_dropped s; ct_exported := ct_exported s;
     ct_export_failed := ct_export_failed s;
     ct_rejected_after_shutdown := ct_rejected_after_shutdown s;
     ct_enqueue_nanos_total := f (ct_enqueue_nanos_total s);
     ct_enqueue_nanos_max := ct_enqueue_nanos_max s |}.
Definition with_enqueue_nanos_max (f : Z → Z) (s : ExportCounters) : ExportCounters :=
  {| ct_accepted := ct_accepted s; ct_dropped := ct_dropped s; ct_exported := ct_exported s;
     ct_export_failed := ct_export_failed s;
     ct_rejected_after_shutdown := ct_rejected_after_shutdown s;
     ct_enqueue_nanos_total := ct_enqueue_nanos_total s;
     ct_enqueue_nanos_max := f (ct_enqueue_nanos_max s) |}.

(** A snapshot has the same fields. *)
(* @src rustvello-core/src/observability.rs 465-475 AsyncExportStats *)
Abbreviation AsyncExportStats := ExportCounters.

Definition stats_default : AsyncExportStats := mkCounters 0 0 0 0 0 0 0.

(** [stats] reads the seven counters one by one: the read with a number. *)
(* @src rustvello-core/src/observability.rs 727-737 stats *)
Definition load_counter (k : nat) (c : ExportCounters) (st : AsyncExportStats) : AsyncExportStats :=
  match k with
  | 0%nat => with_accepted (λ _, ct_accepted c) st
  | 1%nat => with_dropped (λ _, ct_dropped c) st
  | 2%nat => with_exported (λ _, ct_exported c) st
  | 3%nat => with_export_failed (λ _, ct_export_failed c) st
  | 4%nat => with_rejected_after_shutdown (λ _, ct_rejected_after_shutdown c) st
  | 5%nat => with_enqueue_nanos_total (λ _, ct_enqueue_nanos_total c) st
  | _ => with_enqueue_nanos_max (λ _, ct_enqueue_nanos_max c) st
  end.

(* @src rustvello-core/src/observability.rs 505-507 EXPORT_OPEN *)
Inductive ExportPhase := EXPORT_OPEN | EXPORT_CLOSING | EXPORT_CLOSED.

#[export] Instance ExportPhase_eq_dec : EqDecision ExportPhase.
Proof. solve_decision. Defined.

(** The trait of the exporters: a call may fail or panic, and changes the exporter. *)
(* @src rustvello-core/src/observability.rs 437-443 LifecycleExporter *)
Class LifecycleExporter (E X : Type) := {
  exporter_export : X → list E → X * outcome string unit;
  exporter_shutdown : X → X * outcome string unit
}.

Section exporter.
Context {E X : Type} {LE : LifecycleExporter E X} (config : AsyncExportConfig).

(** ** The shared state *)

(** The channels of events, flushes (with the number of the caller, whose response
    channel they carry, and the target) and shutdowns, and whether the worker still
    holds their receivers; the atomics and mutexes; the responses sent.  The last
    three fields are history: the events the channel took, the events handed to the
    exporter, and the outcomes of the calls of its [shutdown]. *)
(* @src rustvello-core/src/observability.rs 488-519 AsyncExportInner *)
Record Shared := mkShared {
  sh_queue : list E;
  sh_flushes : list (nat * nat);
  sh_shutdowns : list nat;
  sh_receivers : bool;
  sh_counters : ExportCounters;
  sh_state : ExportPhase;
  sh_in_flight : nat;
  sh_admitted : bool;
  sh_error : option string;
  sh_handle : bool;
  sh_responses : gmap nat AsyncExportStats;
  sh_sent : list E;
  sh_handed : list E;
  sh_stops : list (option string)
}.

Definition with_queue (f : list E → list E) (s : Shared) : Shared :=
  {| sh_queue := f (sh_queue s); sh_flushes := sh_flushes s; sh_shutdowns := sh_shutdowns s;
     sh_receivers := sh_receivers s; sh_counters := sh_counters s; sh_state := sh_state s;
     sh_in_flight := sh_in_flight s; sh_admitted := sh_admitted s; sh_error := sh_error s;
     sh_handle := sh_handle s; sh_responses := sh_responses s; sh_sent := sh_sent s;
     sh_handed := sh_handed s; sh_stops := sh_stops s |}.
Definition with_flushes (f : list (nat * nat) → list (nat * nat)) (s : Shared) : Shared :=
  {| sh_queue := sh_queue s; sh_flushes := f (sh_flushes s); sh_shutdowns := sh_shutdowns s;
     sh_receivers := sh_receivers s; sh_counters := sh_counters s; sh_state := sh_state s;
     sh_in_flight := sh_in_flight s; sh_admitted := sh_admitted s; sh_error := sh_error s;
     sh_handle := sh_handle s; sh_responses := sh_responses s; sh_sent := sh_sent s;
     sh_handed := sh_handed s; sh_stops := sh_stops s |}.
Definition with_shutdowns (f : list nat → list nat) (s : Shared) : Shared :=
  {| sh_queue := sh_queue s; sh_flushes := sh_flushes s; sh_shutdowns := f (sh_shutdowns s);
     sh_receivers := sh_receivers s; sh_counters := sh_counters s; sh_state := sh_state s;
     sh_in_flight := sh_in_flight s; sh_admitted := sh_admitted s; sh_error := sh_error s;
     sh_handle := sh_handle s; sh_responses := sh_responses s; sh_sent := sh_sent s;
     sh_handed := sh_handed s; sh_stops := sh_stops s |}.
Definition with_receivers (f : bool → bool) (s : Shared) : Shared :=
  {| sh_queue := sh_queue s; sh_flushes := sh_flushes s; sh_shutdowns := sh_shutdowns s;
     sh_receivers := f (sh_receivers s); sh_counters := sh_counters s; sh_state := sh_state s;
     sh_in_flight := sh_in_flight s; sh_admitted := sh_admitted s; sh_error := sh_error s;
     sh_handle := sh_handle s; sh_responses := sh_responses s; sh_sent := sh_sent s;
     sh_handed := sh_handed s; sh_stops := sh_stops s |}.
Definition with_counters (f : ExportCounters → ExportCounters) (s : Shared) : Shared :=
  {| sh_queue := sh_queue s; sh_flushes := sh_flushes s; sh_shutdowns := sh_shutdowns s;
     sh_receivers := sh_receivers s; sh_counters := f (sh_counters s); sh_state := sh_state s;
     sh_in_flight := sh_in_flight s; sh_admitted := sh_admitted s; sh_error := sh_error s;
     sh_handle := sh_handle s; sh_responses := sh_responses s; sh_sent := sh_sent s;
     sh_handed := sh_handed s; sh_stops := sh_stops s |}.
Definition with_state (f : ExportPhase → ExportPhase) (s : Shared) : Shared :=
  {| sh_queue := sh_queue s; sh_flushes := sh_flushes s; sh_shutdowns := sh_shutdowns s;
     sh_receivers := sh_receivers s; sh_counters := sh_counters s; sh_state := f (sh_state s);
     sh_in_flight := sh_in_flight s; sh_admitted := sh_admitted s; sh_error := sh_error s;
     sh_handle := sh_handle s; sh_responses := sh_responses s; sh_sent := sh_sent s;
     sh_handed := sh_handed s; sh_stops := sh_stops s |}.
Definition with_in_flight (f : nat → nat) (s : Shared) : Shared :=
  {| sh_queue := sh_queue s; sh_flushes := sh_flushes s; sh_shutdowns := sh_shutdowns s;
     sh_receivers := sh_receivers s; sh_counters := sh_counters s; sh_state := sh_state s;
     sh_in_flight := f (sh_in_flight s); sh_admitted := sh_admitted s; sh_error := sh_error s;
     sh_handle := sh_handle s; sh_responses := sh_responses s; sh_sent := sh_sent s;
     sh_handed := sh_handed s; sh_stops := sh_stops s |}.
Definition with_admitted (f : bool → bool) (s : Shared) : Shared :=
  {| sh_queue := sh_queue s; sh_flushes := sh_flushes s; sh_shutdowns := sh_shutdowns s;
     sh_receivers := sh_receivers s; sh_counters := sh_counters s; sh_state := sh_state s;
     sh_in_flight := sh_in_flight s; sh_admitted := f (sh_admitted s); sh_error := sh_error s;
     sh_handle := sh_handle s; sh_responses := sh_responses s; sh_sent := sh_sent s;
     sh_handed := sh_handed s; sh_stops := sh_stops s |}.
Definition with_error (f : option string → option string) (s : Shared) : Shared :=
  {| sh_queue := sh_queue s; sh_flushes := sh_flushes s; sh_shutdowns := sh_shutdowns s;
     sh_receivers := sh_receivers s; sh_counters := sh_counters s; sh_state := sh_state s;
     sh_in_flight := sh_in_flight s; sh_admitted := sh_admitted s; sh_error := f (sh_error s);
     sh_handle := sh_handle s; sh_responses := sh_responses s; sh_sent := sh_sent s;
     sh_handed := sh_handed s; sh_stops := sh_stops s |}.
Definition with_handle (f : bool → bool) (s : Shared) : Shared :=
  {| sh_queue := sh_queue s; sh_flushes := sh_flushes s; sh_shutdowns := sh_shutdowns s;
     sh_receivers := sh_receivers s; sh_counters := sh_counters s; sh_state := sh_state s;
     sh_in_flight := sh_in_flight s; sh_admitted := sh_admitted s; sh_error := sh_error s;
     sh_handle := f (sh_handle s); sh_responses := sh_responses s; sh_sent := sh_sent s;
     sh_handed := sh_handed s; sh_stops := sh_stops s |}.
Definition with_responses (f : gmap nat AsyncExportStats → gmap nat AsyncExportStats) (s : Shared) : Shared :=
  {| sh_queue := sh_queue s; sh_flushes := sh_flushes s; sh_shutdowns := sh_shutdowns s;
     sh_receivers := sh_receivers s; sh_counters := sh_counters s; sh_state := sh_state s;
     sh_in_flight := sh_in_flight s; sh_admitted := sh_admitted s; sh_error := sh_error s;
     sh_handle := sh_handle s; sh_responses := f (sh_responses s); sh_sent := sh_sent s;
     sh_handed := sh_handed s; sh_stops := sh_stops s |}.
Definition with_sent (f : list E → list E) (s : Shared) : Shared :=
  {| sh_queue := sh_queue s; sh_flushes := sh_flushes s; sh_shutdowns := sh_shutdowns s;
     sh_receivers := sh_receivers s; sh_counters := sh_counters s; sh_state := sh_state s;
     sh_in_flight := sh_in_flight s; sh_admitted := sh_admitted s; sh_error := sh_error s;
     sh_handle := sh_handle s; sh_responses := sh_responses s; sh_sent := f (sh_sent s);
     sh_handed := sh_handed s; sh_stops := sh_stops s |}.
Definition with_handed (f : list E → list E) (s : Shared) : Shared :=
  {| sh_queue := sh_queue s; sh_flushes := sh_flushes s; sh_shutdowns := sh_shutdowns s;
     sh_receivers := sh_receivers s; sh_counters := sh_counters s; sh_state := sh_state s;
     sh_in_flight := sh_in_flight s; sh_admitted := sh_admitted s; sh_error := sh_error s;
     sh_handle := sh_handle s; sh_responses := sh_responses s; sh_sent := sh_sent s;
     sh_handed := f (sh_handed s); sh_stops := sh_stops s |}.
Definition with_stops (f : list (option string) → list (option string)) (s : Shared) : Shared :=
  {| sh_queue := sh_queue s; sh_flushes := sh_flushes s; sh_shutdowns := sh_shutdowns s;
     sh_receivers := sh_receivers s; sh_counters := sh_counters s; sh_state := sh_state s;
     sh_in_flight := sh_in_flight s; sh_admitted := sh_admitted s; sh_error := sh_error s;
     sh_handle := sh_handle s; sh_responses := sh_responses s; sh_sent := sh_sent s;
     sh_handed := sh_handed s; sh_stops := f (sh_stops s) |}.

(* @src rustvello-core/src/observability.rs 543-584 BoundedAsyncEmitter::new *)
Definition shared_new : Shared :=
  mkShared [] [] [] true stats_default EXPORT_OPEN 0 false None true ∅ [] [] [].

(** [try_send]: full, or the receiver is gone. *)
Definition has_room {A : Type} (s : Shared) (capacity : nat) (channel : list A) : bool :=
  sh_receivers s && (length channel <? capacity)%nat.

(** A load of an atomic: the current value, or the oldest. *)
Definition load_state (stale : bool) (s : Shared) : ExportPhase := if stale then EXPORT_OPEN else sh_state s.
Definition load_in_flight (stale : bool) (s : Shared) : nat := if stale then 0%nat else sh_in_flight s.

(** ** The threads that emit *)

Inductive EnqueuePc :=
  | EnqStart (event : E)
  | EnqLoad (event : E)
  | EnqSend (event : E)
  | EnqReject
  | EnqCount
  | EnqDrop
  | EnqLeave
  | EnqTotal
  | EnqMax (elapsed : Z)
  | EnqDone.

(** The time is measured in nanoseconds and cut to 64 bits. *)
(* @src rustvello-core/src/observability.rs 683-715 BoundedAsyncEmitter::enqueue *)
Definition enqueue_step (stale : bool) (nanos : Z) (pc : EnqueuePc) (s : Shared) : option (EnqueuePc * Shared) :=
  match pc with
  | EnqStart event => Some (EnqLoad event, with_in_flight S s)
  | EnqLoad event => Some (if decide (load_state stale s = EXPORT_OPEN) then EnqSend event else EnqReject, s)
  | EnqReject => Some (EnqDrop, with_counters (with_rejected_after_shutdown S) s)
  | EnqSend event =>
      Some (if has_room s (queue_capacity config) (sh_queue s)
            then (EnqCount, with_sent (λ l, l ++ [event]) (with_queue (λ q, q ++ [event]) s))
            else (EnqDrop, s))
  | EnqCount => Some (EnqLeave, with_counters (with_accepted S) s)
  | EnqDrop => Some (EnqLeave, with_counters (with_dropped S) s)
  | EnqLeave => Some (EnqTotal, with_in_flight pred s)
  | EnqTotal =>
      let elapsed := Z.min nanos (2 ^ 64 - 1) in
      Some (EnqMax elapsed, with_counters (with_enqueue_nanos_total (λ t, (t + elapsed) mod 2 ^ 64)) s)
  | EnqMax elapsed => Some (EnqDone, with_counters (with_enqueue_nanos_max (Z.max elapsed)) s)
  | EnqDone => None
  end.

(** ** Flush *)

Inductive FlushPc :=
  | FlushCheck
  | FlushWait
  | FlushTarget
  | FlushSend (target : nat)
  | FlushRecv
  | FlushDone (result : string + AsyncExportStats).

(** [alive] says that the command, and with it the sender of the response, still
    exists; [timed_out] that the time is up. *)
(* @src rustvello-core/src/observability.rs 590-613 BoundedAsyncEmitter::flush *)
Definition flush_step (id : nat) (alive stale timed_out : bool) (pc : FlushPc) (s : Shared) : option (FlushPc * Shared) :=
  match pc with
  | FlushCheck =>
      Some (if decide (load_state stale s = EXPORT_OPEN) then FlushWait
            else FlushDone (inl "telemetry exporter is shutting down"), s)
  | FlushWait =>
      Some (if (load_in_flight stale s =? 0)%nat then FlushTarget
            else if timed_out then FlushDone (inl "telemetry flush timed out") else FlushWait, s)
  | FlushTarget => Some (FlushSend (ct_accepted (sh_counters s)), s)
  | FlushSend target =>
      Some (if negb (sh_receivers s) then (FlushDone (inl "export worker stopped"), s)
            else if has_room s (control_capacity config) (sh_flushes s)
            then (FlushRecv, with_flushes (λ q, q ++ [(id, target)]) s)
            else (FlushDone (inl "telemetry control queue is full"), s))
  | FlushRecv =>
      Some (match sh_responses s !! id with
            | Some st => FlushDone (inr st)
            | None => if timed_out || negb alive then FlushDone (inl "telemetry flush timed out") else FlushRecv
            end, s)
  | FlushDone _ => None
  end.

(** ** Shutdown *)

Inductive ShutdownPc :=
  | ShutClose
  | ShutWait
  | ShutAdmit
  | ShutTarget
  | ShutSend (target : nat)
  | ShutError
  | ShutStore
  | ShutAwait
  | ShutJoin
  | ShutResult
  | ShutLoad (k : nat) (st : AsyncExportStats)
  | ShutDone (result : string + AsyncExportStats).

(* @src rustvello-core/src/observability.rs 615-681 BoundedAsyncEmitter::shutdown *)
Definition shutdown_step (finished stale timed_out : bool) (pc : ShutdownPc) (s : Shared) : option (ShutdownPc * Shared) :=
  match pc with
  | ShutClose =>
      Some (ShutWait, with_state (λ st, if decide (st = EXPORT_OPEN) then EXPORT_CLOSING else st) s)
  | ShutWait =>
      Some (if (load_in_flight stale s =? 0)%nat then ShutAdmit
            else if timed_out then ShutDone (inl "telemetry shutdown timed out") else ShutWait, s)
  | ShutAdmit => Some (if sh_admitted s then (ShutAwait, s) else (ShutTarget, with_admitted (λ _, true) s))
  | ShutTarget => Some (ShutSend (ct_accepted (sh_counters s)), s)
  | ShutSend target =>
      Some (if has_room s 1 (sh_shutdowns s) then (ShutAwait, with_shutdowns (λ q, q ++ [target]) s)
            else (ShutError, s))
  | ShutError => Some (ShutStore, with_error (λ _, Some "export worker stopped") s)
  | ShutStore => Some (ShutAwait, with_state (λ _, EXPORT_CLOSED) s)
  | ShutAwait =>
      Some (if decide (load_state stale s = EXPORT_CLOSED) then ShutJoin
            else if timed_out then ShutDone (inl "telemetry shutdown timed out") else ShutAwait, s)
  | ShutJoin =>
      Some (if negb (sh_handle s) then (ShutResult, s)
            else if finished then (ShutResult, with_handle (λ _, false) s)
            else if timed_out then (ShutDone (inl "telemetry thread shutdown timed out"), s) else (ShutJoin, s))
  | ShutResult =>
      Some (match sh_error s with Some error => ShutDone (inl error) | None => ShutLoad 0 stats_default end, s)
  | ShutLoad k st =>
      Some (if (k <? 7)%nat then ShutLoad (S k) (load_counter k (sh_counters s) st) else ShutDone (inr st), s)
  | ShutDone _ => None
  end.

(** ** The worker *)

Inductive WorkerPc :=
  | WTakeShutdown
  | WTakeFlush
  | WRecv
  | WFill (batch : list E)
  | WExport (batch : list E)
  | WCount (exported : bool) (count : nat)
  | WLoad (k : nat) (st : AsyncExportStats)
  | WAnswer (st : AsyncExportStats)
  | WCheck
  | WFinish
  | WError (error : option string)
  | WClose
  | WExit
  | WExited.

Record ExportWorker := mkWorker {
  ew_pc : WorkerPc;
  ew_processed : nat;
  ew_flush : option (nat * nat);
  ew_shutdown : option nat;
  ew_exporter : X
}.

Definition at_pc (pc : WorkerPc) (w : ExportWorker) : ExportWorker :=
  mkWorker pc (ew_processed w) (ew_flush w) (ew_shutdown w) (ew_exporter w).

(** One round of the loop hands over what is queued, up to a batch: the exporter's
    answer only decides which counter grows. *)
(* @src rustvello-core/src/observability.rs 762-790 run_export_worker *)
Definition worker_export (gone timed_out : bool) (w : ExportWorker) (s : Shared) : option (ExportWorker * Shared) :=
  match ew_pc w with
  | WRecv =>
      Some (match sh_queue s with
            | event :: rest => (at_pc (WFill [event]) w, with_queue (λ _, rest) s)
            | [] => (at_pc (if gone then WFinish else if timed_out then WFill [] else WRecv) w, s)
            end)
  | WFill batch =>
      Some (if (length batch <? max_batch_size config)%nat then
              match sh_queue s with
              | event :: rest => (at_pc (WFill (batch ++ [event])) w, with_queue (λ _, rest) s)
              | [] => (at_pc (WExport batch) w, s)
              end
            else (at_pc (WExport batch) w, s))
  | WExport [] => Some (at_pc (WLoad 0 stats_default) w, s)
  | WExport batch =>
      let '(x, result) := exporter_export (ew_exporter w) batch in
      let exported := match result with Ok _ => true | _ => false end in
      Some (mkWorker (WCount exported (length batch)) (ew_processed w) (ew_flush w) (ew_shutdown w) x,
            with_handed (λ l, l ++ batch) s)
  | WCount exported count =>
      Some (mkWorker (WLoad 0 stats_default) (ew_processed w + count)%nat (ew_flush w) (ew_shutdown w) (ew_exporter w),
            with_counters (if exported then with_exported (Nat.add count) else with_export_failed (Nat.add count)) s)
  | _ => None
  end.

(** The end: stop the exporter, record its error, close, and drop the channels. *)
(* @src rustvello-core/src/observability.rs 805-814 finish_exporter *)
Definition worker_finish (w : ExportWorker) (s : Shared) : option (ExportWorker * Shared) :=
  match ew_pc w with
  | WFinish =>
      let '(x, result) := exporter_shutdown (ew_exporter w) in
      let error := match result with
                   | Ok _ => None
                   | Err error => Some error
                   | Panic _ => Some "telemetry exporter panicked during shutdown"
                   end in
      Some (mkWorker (WError error) (ew_processed w) (ew_flush w) (ew_shutdown w) x, with_stops (λ l, l ++ [error]) s)
  | WError error => Some (at_pc WClose w, with_error (λ _, error) s)
  | WClose => Some (at_pc WExit w, with_state (λ _, EXPORT_CLOSED) s)
  | WExit =>
      Some (mkWorker WExited (ew_processed w) None (ew_shutdown w) (ew_exporter w),
            with_receivers (λ _, false) (with_queue (λ _, []) (with_flushes (λ _, []) (with_shutdowns (λ _, []) s))))
  | _ => None
  end.

(** [gone] says that every emitter has been dropped. *)
(* @src rustvello-core/src/observability.rs 739-803 run_export_worker *)
Definition worker_step (gone timed_out : bool) (w : ExportWorker) (s : Shared) : option (ExportWorker * Shared) :=
  match ew_pc w with
  | WTakeShutdown =>
      Some (match ew_shutdown w, sh_shutdowns s with
            | None, target :: rest =>
                (mkWorker WTakeFlush (ew_processed w) (ew_flush w) (Some target) (ew_exporter w), with_shutdowns (λ _, rest) s)
            | _, _ => (at_pc WTakeFlush w, s)
            end)
  | WTakeFlush =>
      Some (match ew_flush w, ew_shutdown w, sh_flushes s with
            | None, None, command :: rest =>
                (mkWorker WRecv (ew_processed w) (Some command) None (ew_exporter w), with_flushes (λ _, rest) s)
            | _, _, _ => (at_pc WRecv w, s)
            end)
  | WLoad k st =>
      Some (at_pc (if (k <? 7)%nat then WLoad (S k) (load_counter k (sh_counters s) st) else WAnswer st) w, s)
  | WAnswer st =>
      Some (match ew_flush w with
            | Some (id, target) =>
                if (target <=? ew_processed w)%nat
                then (mkWorker WCheck (ew_processed w) None (ew_shutdown w) (ew_exporter w), with_responses (insert id st) s)
                else (at_pc WCheck w, s)
            | None => (at_pc WCheck w, s)
            end)
  | WCheck =>
      Some (at_pc (match ew_shutdown w with
                   | Some target => if (target <=? ew_processed w)%nat then WFinish else WTakeShutdown
                   | None => WTakeShutdown
                   end) w, s)
  | WRecv | WFill _ | WExport _ | WCount _ _ => worker_export gone timed_out w s
  | WFinish | WError _ | WClose | WExit | WExited => worker_finish w s
  end.

(** ** All threads *)

Inductive Client := Enqueue (pc : EnqueuePc) | Flush (pc : FlushPc) | Shutdown (pc : ShutdownPc).

(** [gone] once the last emitter was dropped: no call is under way or follows. *)
Record Exporting := mkExporting {
  ex_shared : Shared;
  ex_clients : list Client;
  ex_worker : ExportWorker;
  ex_gone : bool
}.

Definition exporting_new (x : X) : Exporting := mkExporting shared_new [] (mkWorker WTakeShutdown 0 None None x) false.

(** The command of a flush, and the sender of its response, is in the channel or with
    the worker. *)
Definition command_alive (g : Exporting) (id : nat) : bool :=
  bool_decide (id ∈ (sh_flushes (ex_shared g)).*1) ||
  match ew_flush (ex_worker g) with Some (id', _) => (id' =? id)%nat | None => false end.

Definition worker_finished (g : Exporting) : bool := match ew_pc (ex_worker g) with WExited => true | _ => false end.

Definition client_finished (c : Client) : bool :=
  match c with Enqueue EnqDone | Flush (FlushDone _) | Shutdown (ShutDone _) => true | _ => false end.

Definition client_begins (c : Client) : bool :=
  match c with Enqueue (EnqStart _) | Flush FlushCheck | Shutdown ShutClose => true | _ => false end.

(** Who moves, with the choices of the environment. *)
Inductive Move :=
  | MoveCall (c : Client)
  | MoveClient (i : nat) (timed_out : bool) (nanos : Z)
  | MoveWorker (timed_out : bool)
  | MoveDrop.

Definition client_step (g : Exporting) (i : nat) (stale timed_out : bool) (nanos : Z) (c : Client) : option (Client * Shared) :=
  let s := ex_shared g in
  match c with
  | Enqueue pc => prod_map Enqueue id <$> enqueue_step stale nanos pc s
  | Flush pc => prod_map Flush id <$> flush_step i (command_alive g i) stale timed_out pc s
  | Shutdown pc => prod_map Shutdown id <$> shutdown_step (worker_finished g) stale timed_out pc s
  end.

(** A move in which every load returns the current value. *)
Definition move (m : Move) (g : Exporting) : option Exporting :=
  match m with
  | MoveCall c =>
      if client_begins c && negb (ex_gone g)
      then Some (mkExporting (ex_shared g) (ex_clients g ++ [c]) (ex_worker g) false) else None
  | MoveClient i timed_out nanos =>
      c ← ex_clients g !! i;
      '(c', s') ← client_step g i false timed_out nanos c;
      Some (mkExporting s' (<[i := c']> (ex_clients g)) (ex_worker g) (ex_gone g))
  | MoveWorker timed_out =>
      '(w', s') ← worker_step (ex_gone g) timed_out (ex_worker g) (ex_shared g);
      Some (mkExporting s' (ex_clients g) w' (ex_gone g))
  | MoveDrop =>
      if forallb client_finished (ex_clients g)
      then Some (mkExporting (ex_shared g) (ex_clients g) (ex_worker g) true) else None
  end.

(** A step of a caller whose load is stale. *)
Definition stale_move (i : nat) (timed_out : bool) (nanos : Z) (g : Exporting) : option Exporting :=
  c ← ex_clients g !! i;
  '(c', s') ← client_step g i true timed_out nanos c;
  Some (mkExporting s' (<[i := c']> (ex_clients g)) (ex_worker g) (ex_gone g)).

(** The states that sequentially consistent moves lead to. *)
Inductive leads (g : Exporting) : Exporting → Prop :=
  | leads_here : leads g g
  | leads_move m g1 g2 : leads g g1 → move m g1 = Some g2 → leads g g2.

(** The states that moves lead to when loads may be stale. *)
Inductive leads_weakly (g : Exporting) : Exporting → Prop :=
  | weakly_here : leads_weakly g g
  | weakly_move m g1 g2 : leads_weakly g g1 → move m g1 = Some g2 → leads_weakly g g2
  | weakly_stale i timed_out nanos g1 g2 :
      leads_weakly g g1 → stale_move i timed_out nanos g1 = Some g2 → leads_weakly g g2.

Definition reachable_from (x : X) : Exporting → Prop := leads (exporting_new x).
End exporter.
