(* ===== verification/ExporterFacts.v ===== *)
(** * What the bounded exporter guarantees

    The invariant of the threads of [Exporter.v], preserved by every move of every
    thread, and the theorems drawn from it: nothing is lost or invented, a flush and
    a shutdown deliver what they promise, and the worker finishes a shutdown. *)
From stdpp Require Import numbers list.
From S2P Require Import Prelude Effects Exporter.

(** Case analysis on the conditions of a step. *)
Ltac cases_in H :=
  repeat match type of H with context [match ?x with _ => _ end] => let C := fresh "Hcase" in destruct x eqn:C end.

(** ** Counting the threads at a point *)

Section count.
Context {A : Type} (p : A → bool).
Implicit Types l : list A.

Definition count (l : list A) : nat := length (bfilter p l).

Lemma count_cons x l : count (x :: l) = (Nat.b2n (p x) + count l)%nat.
Proof. unfold count, bfilter. cbn [List.filter]. by destruct (p x). Qed.

Lemma count_snoc l x : count (l ++ [x]) = (count l + Nat.b2n (p x))%nat.
Proof. induction l as [|y l IH]; [rewrite app_nil_l, count_cons; cbn; lia|]. rewrite <-app_comm_cons, !count_cons, IH. lia. Qed.

Lemma count_insert l i x y : l !! i = Some x → (count (<[i := y]> l) + Nat.b2n (p x) = count l + Nat.b2n (p y))%nat.
Proof.
  intros Hi. rewrite <-(take_drop_middle l i x Hi) at 2. rewrite insert_take_drop by (by apply lookup_lt_Some in Hi).
  unfold count, bfilter. rewrite !filter_app, !length_app. cbn [List.filter].
  destruct (p x), (p y); cbn; lia.
Qed.

Lemma count_zero l x : count l = 0%nat → x ∈ l → p x = false.
Proof.
  intros Hc Hx. destruct (p x) eqn:Hp; [|done]. exfalso.
  assert (x ∈ bfilter p l) as Hf by (by apply elem_of_bfilter).
  unfold count in Hc. apply length_zero_iff_nil in Hc. rewrite Hc in Hf. by apply elem_of_nil in Hf.
Qed.

Lemma count_none l : (∀ x, x ∈ l → p x = false) → count l = 0%nat.
Proof.
  intros Hl. unfold count. destruct (bfilter p l) as [|x l'] eqn:Hf; [done|].
  assert (x ∈ bfilter p l) as [Hp Hx]%elem_of_bfilter by (rewrite Hf; left). rewrite (Hl x Hx) in Hp. done.
Qed.

Lemma count_pos l x : x ∈ l → p x = true → (0 < count l)%nat.
Proof. intros Hx Hp. destruct (count l) eqn:Hc; [|lia]. by rewrite (count_zero l x Hc Hx) in Hp. Qed.
End count.

Lemma count_le {A : Type} (p q : A → bool) l : (∀ x, p x = true → q x = true) → (count p l ≤ count q l)%nat.
Proof.
  intros Hpq. induction l as [|x l IH]; [done|]. rewrite !count_cons.
  destruct (p x) eqn:Hp; [rewrite (Hpq x Hp); cbn; lia|cbn; lia].
Qed.

#[global] Arguments count {A} p l : simpl never.

Section facts.
Context {E X : Type} {LE : LifecycleExporter E X} (config : AsyncExportConfig).

Abbreviation Client := (@Client E).
Abbreviation Shared := (@Shared E).
Abbreviation Exporting := (@Exporting E X).
Implicit Types (g : Exporting) (s : Shared) (c : Client).

(** Between the two updates of [in_flight_enqueues]. *)
Definition is_active c : bool :=
  match c with Enqueue (EnqStart _ | EnqTotal | EnqMax _ | EnqDone) => false | Enqueue _ => true | _ => false end.
Definition is_sending c : bool := match c with Enqueue (EnqSend _) => true | _ => false end.
Definition is_counting c : bool := match c with Enqueue EnqCount => true | _ => false end.
Definition is_settled c : bool :=
  match c with Enqueue (EnqLeave | EnqTotal | EnqMax _ | EnqDone) => true | _ => false end.
Definition is_closing c : bool := match c with Shutdown ShutClose => false | Shutdown _ => true | _ => false end.
Definition is_admitting c : bool := match c with Shutdown ShutAdmit => true | _ => false end.
Definition is_sender c : bool := match c with Shutdown (ShutTarget | ShutSend _) => true | _ => false end.
Definition is_failing c : bool := match c with Shutdown (ShutError | ShutStore) => true | _ => false end.

(** The events the worker holds, and those it has handed over and not yet counted. *)
Definition in_hand (pc : @WorkerPc E) : list E := match pc with WFill batch | WExport batch => batch | _ => [] end.
Definition uncounted (pc : @WorkerPc E) : nat := match pc with WCount _ count => count | _ => 0 end.
Definition is_finishing (pc : @WorkerPc E) : bool :=
  match pc with WFinish | WError _ | WClose | WExit | WExited => true | _ => false end.
Definition is_closed (pc : @WorkerPc E) : bool := match pc with WExit | WExited => true | _ => false end.
Definition is_exited (pc : @WorkerPc E) : bool := match pc with WExited => true | _ => false end.

(** Nobody adds to the queue any more. *)
Record quiet s (cs : list Client) : Prop := {
  quiet_state : sh_state s ≠ EXPORT_OPEN;
  quiet_sending : count is_sending cs = 0%nat;
  quiet_counting : count is_counting cs = 0%nat
}.

(** The counters read by [stats], up to the number of reads done. *)
Definition loaded (k : nat) (st ct : ExportCounters) : Prop :=
  (0 < k → ct_accepted st = ct_accepted ct)%nat ∧ (2 < k → ct_exported st = ct_exported ct)%nat ∧
  (3 < k → ct_export_failed st = ct_export_failed ct)%nat.

(** What a thread in [shutdown] knows. *)
Definition client_ok s c : Prop :=
  match c with
  | Shutdown (ShutSend target) => target = ct_accepted (sh_counters s)
  | Shutdown (ShutJoin | ShutResult) => sh_state s = EXPORT_CLOSED
  | Shutdown (ShutLoad k st) => sh_state s = EXPORT_CLOSED ∧ sh_error s = None ∧ loaded k st (sh_counters s)
  | Shutdown (ShutDone (inr st)) => sh_state s = EXPORT_CLOSED ∧ sh_error s = None ∧ loaded 7 st (sh_counters s)
  | _ => True
  end.

Record export_inv g : Prop := mkExportInv {
  inv_events : sh_sent (ex_shared g) =
    sh_handed (ex_shared g) ++ in_hand (ew_pc (ex_worker g)) ++ sh_queue (ex_shared g);
  inv_room : (length (sh_queue (ex_shared g)) ≤ queue_capacity config)%nat;
  inv_exported : (ct_exported (sh_counters (ex_shared g)) + ct_export_failed (sh_counters (ex_shared g)) +
    uncounted (ew_pc (ex_worker g)) = length (sh_handed (ex_shared g)))%nat;
  inv_processed : (ew_processed (ex_worker g) + uncounted (ew_pc (ex_worker g)) = length (sh_handed (ex_shared g)))%nat;
  inv_accepted : (ct_accepted (sh_counters (ex_shared g)) + count is_counting (ex_clients g) =
    length (sh_sent (ex_shared g)))%nat;
  inv_settled : (ct_accepted (sh_counters (ex_shared g)) + ct_dropped (sh_counters (ex_shared g)) =
    count is_settled (ex_clients g))%nat;
  inv_in_flight : sh_in_flight (ex_shared g) = count is_active (ex_clients g);
  inv_closing : (0 < count is_closing (ex_clients g))%nat → sh_state (ex_shared g) ≠ EXPORT_OPEN;
  inv_quiet : (0 < Nat.b2n (sh_admitted (ex_shared g)) + count is_admitting (ex_clients g))%nat →
    quiet (ex_shared g) (ex_clients g);
  inv_admitted : (count is_sender (ex_clients g) + length (sh_shutdowns (ex_shared g)) +
    Nat.b2n (bool_decide (is_Some (ew_shutdown (ex_worker g)))) ≤ Nat.b2n (sh_admitted (ex_shared g)))%nat;
  inv_failing : count is_failing (ex_clients g) = 0%nat;
  inv_targets t : t ∈ sh_shutdowns (ex_shared g) ∨ ew_shutdown (ex_worker g) = Some t →
    t = ct_accepted (sh_counters (ex_shared g));
  inv_finishing : is_finishing (ew_pc (ex_worker g)) = true →
    sh_queue (ex_shared g) = [] ∧ (is_Some (ew_shutdown (ex_worker g)) ∨ ex_gone g = true);
  inv_gone c : ex_gone g = true → c ∈ ex_clients g → client_finished c = true;
  inv_closed : sh_state (ex_shared g) = EXPORT_CLOSED ↔ is_closed (ew_pc (ex_worker g)) = true;
  inv_receivers : sh_receivers (ex_shared g) = negb (is_exited (ew_pc (ex_worker g)));
  inv_stops : sh_stops (ex_shared g) =
    match ew_pc (ex_worker g) with
    | WError error => [error]
    | WClose | WExit | WExited => [sh_error (ex_shared g)]
    | _ => []
    end;
  inv_clients c : c ∈ ex_clients g → client_ok (ex_shared g) c
}.

Lemma inv_new x : export_inv (exporting_new x).
Proof.
  split; unfold count; cbn; try done; try lia.
  - intros t [?%elem_of_nil|]; done.
  - by intros c ?%elem_of_nil.
Qed.

(** ** The moves of the callers *)

(** The counts after one thread has moved. *)
Ltac client_counts Hi c' :=
  pose proof (count_insert is_active _ _ _ c' Hi); pose proof (count_insert is_sending _ _ _ c' Hi);
  pose proof (count_insert is_counting _ _ _ c' Hi); pose proof (count_insert is_closing _ _ _ c' Hi);
  pose proof (count_insert is_admitting _ _ _ c' Hi); pose proof (count_insert is_sender _ _ _ c' Hi);
  pose proof (count_insert is_failing _ _ _ c' Hi); pose proof (count_insert is_settled _ _ _ c' Hi).

(** The other threads keep what they know when what they know about has not changed. *)
Lemma client_ok_keep s s' c :
  client_ok s c → sh_state s' = sh_state s → sh_error s' = sh_error s →
  ct_accepted (sh_counters s') = ct_accepted (sh_counters s) →
  ct_exported (sh_counters s') = ct_exported (sh_counters s) →
  ct_export_failed (sh_counters s') = ct_export_failed (sh_counters s) → client_ok s' c.
Proof.
  intros Hc Hs He Ha Hx Hf. destruct c as [|?|[]]; try done; cbn in *; unfold loaded in *; try congruence.
  all: repeat case_match; try done; by rewrite Hs, He, Ha, Hx, Hf.
Qed.

(** Nobody knows anything while the exporter is open and no shutdown is admitted. *)
Lemma client_ok_early s s' c :
  is_sender c = false → sh_state s ≠ EXPORT_CLOSED → client_ok s c → client_ok s' c.
Proof. intros H1 H2 Hc. destruct c as [|?|[]]; cbn in *; try done; [tauto|]. destruct result; [done|]. tauto. Qed.

Lemma update_clients (P : Client → Prop) (cs : list Client) i c' :
  (∀ c, c ∈ cs → P c) → P c' → ∀ c, c ∈ <[i := c']> cs → P c.
Proof.
  intros Hcs Hc' c (j & Hj)%list_elem_of_lookup. destruct (decide (i = j)) as [<-|Hne].
  - apply list_lookup_insert_Some in Hj as [(_ & <- & _)|[? _]]; done.
  - rewrite list_lookup_insert_ne in Hj by done. by apply Hcs, (list_elem_of_lookup_2 _ j).
Qed.

Lemma gone_still g i c : export_inv g → ex_clients g !! i = Some c → client_finished c = false → ex_gone g = false.
Proof.
  intros I Hi Hc. destruct (ex_gone g) eqn:Hg; [|done].
  rewrite (inv_gone _ I c Hg) in Hc; [done|]. by apply (list_elem_of_lookup_2 _ i).
Qed.

(** A closing exporter has not accepted events since its target was read. *)
Lemma finishing_quiet g : export_inv g → is_finishing (ew_pc (ex_worker g)) = true → ex_gone g = false →
  quiet (ex_shared g) (ex_clients g).
Proof.
  intros I Hf Hg. destruct (inv_finishing _ I Hf) as [_ [Hs|?]]; [|congruence].
  apply (inv_quiet _ I). pose proof (inv_admitted _ I) as Ha.
  rewrite bool_decide_eq_true_2 in Ha by done. cbn in Ha. lia.
Qed.

Lemma closed_finishing (pc : @WorkerPc E) : is_closed pc = true → is_finishing pc = true.
Proof. by destruct pc. Qed.

(** The uniform parts of the invariant after a move. *)
Ltac inv_parts Icl Iq :=
  split; cbn in *; try done; try lia;
  try (intros ?; apply Icl; lia);
  try (intros ?; destruct (Iq ltac:(lia)) as [? ? ?]; split; cbn; [first [done|congruence]|lia|lia]);
  try (intros ? ?; congruence).

Lemma inv_enqueue g i nanos pc pc' s' (I : export_inv g) (Hi : ex_clients g !! i = Some (Enqueue pc))
    (Hstep : enqueue_step config false nanos pc (ex_shared g) = Some (pc', s')) :
  export_inv (mkExporting s' (<[i := Enqueue pc']> (ex_clients g)) (ex_worker g) (ex_gone g)).
Proof.
  pose proof (list_elem_of_lookup_2 _ _ _ Hi) as Hin. client_counts Hi (Enqueue pc').
  assert (ex_gone g = false) as Hgone by (apply (gone_still _ _ _ I Hi); by destruct pc).
  pose proof (λ Hf, finishing_quiet _ I Hf Hgone) as Hq.
  assert (∀ c, c ∈ <[i := Enqueue pc']> (ex_clients g) → client_ok (ex_shared g) c) as Hok.
  { by apply update_clients; [apply (inv_clients _ I)|]. }
  destruct I as [Iev Iroom Iexp Iproc Iacc Iset Ifl Icl Iq Iadm Ifail Itg Ifin Igone Iclosed Irec Istops Icli].
  destruct pc; cbn in Hstep; cases_in Hstep; simplify_eq/=.
  all: inv_parts Icl Iq.
  - intros Hadm. by destruct (Iq ltac:(lia)).
  - rewrite Iev, <-!app_assoc. done.
  - rewrite length_app. unfold has_room in Hcase. apply andb_true_iff in Hcase as [_ Hcase%Nat.ltb_lt]. cbn. lia.
  - rewrite length_app. cbn. lia.
  - intros Hf. destruct (Hq Hf). lia.
  - intros t Ht. assert (0 < Nat.b2n (sh_admitted (ex_shared g)))%nat as Hadm.
    { destruct Ht as [Ht|Ht]; [|rewrite Ht in Iadm; cbn in Iadm; lia].
      destruct (sh_shutdowns (ex_shared g)); [by apply elem_of_nil in Ht|cbn in Iadm; lia]. }
    destruct (Iq ltac:(lia)). lia.
  - intros c Hc. specialize (Hok c Hc). revert Hok. apply client_ok_early.
    + apply (count_zero is_sender (<[i := Enqueue EnqLeave]> (ex_clients g))); [|done].
      destruct (sh_admitted (ex_shared g)); [|cbn in *; lia]. destruct (Iq ltac:(cbn; lia)). lia.
    + intros Hs%Iclosed%closed_finishing. destruct (Hq Hs). lia.
Qed.

Lemma inv_flush g i alive timed_out pc pc' s' (I : export_inv g) (Hi : ex_clients g !! i = Some (Flush pc))
    (Hstep : flush_step config i alive false timed_out pc (ex_shared g) = Some (pc', s')) :
  export_inv (mkExporting s' (<[i := Flush pc']> (ex_clients g)) (ex_worker g) (ex_gone g)).
Proof.
  pose proof (list_elem_of_lookup_2 _ _ _ Hi) as Hin. client_counts Hi (Flush pc' : Client).
  assert (ex_gone g = false) as Hgone by (apply (gone_still _ _ _ I Hi); by destruct pc).
  assert (∀ c, c ∈ <[i := (Flush pc' : Client)]> (ex_clients g) → client_ok (ex_shared g) c) as Hok.
  { by apply update_clients; [apply (inv_clients _ I)|]. }
  destruct I as [Iev Iroom Iexp Iproc Iacc Iset Ifl Icl Iq Iadm Ifail Itg Ifin Igone Iclosed Irec Istops Icli].
  assert (s' = ex_shared g ∨ ∃ f, s' = with_flushes f (ex_shared g)) as Hs'.
  { destruct pc; cbn in Hstep; cases_in Hstep; simplify_eq/=; eauto. }
  cbn in *. destruct Hs' as [->|[f ->]]; inv_parts Icl Iq.
Qed.

Lemma loaded_next k st ct : loaded k st ct → loaded (S k) (load_counter k ct st) ct.
Proof.
  intros (H1 & H2 & H3). do 7 (destruct k as [|k]; [unfold loaded; cbn in *; repeat split; intros; try done; eauto with lia|]).
  unfold loaded in *. cbn in *. repeat split; intros; eauto with lia.
Qed.

Lemma loaded_all k st ct : (7 ≤ k)%nat → loaded k st ct → loaded 7 st ct.
Proof. intros Hk (H1 & H2 & H3). unfold loaded. repeat split; intros; eauto with lia. Qed.

Lemma inv_shutdown g i timed_out pc pc' s' (I : export_inv g) (Hi : ex_clients g !! i = Some (Shutdown pc))
    (Hstep : shutdown_step (worker_finished g) false timed_out pc (ex_shared g) = Some (pc', s')) :
  export_inv (mkExporting s' (<[i := Shutdown pc']> (ex_clients g)) (ex_worker g) (ex_gone g)).
Proof.
  pose proof (list_elem_of_lookup_2 _ _ _ Hi) as Hin. client_counts Hi (Shutdown pc' : Client).
  assert (ex_gone g = false) as Hgone by (apply (gone_still _ _ _ I Hi); by destruct pc).
  pose proof (λ Hf, finishing_quiet _ I Hf Hgone) as Hq.
  pose proof (inv_clients _ I _ Hin) as Hme. pose proof (count_zero is_failing _ _ (inv_failing _ I) Hin) as Hnofail.
  assert (∀ P : Client → Prop, (∀ c, client_ok (ex_shared g) c → P c) → P (Shutdown pc') →
    ∀ c, c ∈ <[i := (Shutdown pc' : Client)]> (ex_clients g) → P c) as Hup.
  { intros P HP Hpc. apply update_clients; [|done]. intros c Hc. by apply HP, (inv_clients _ I). }
  destruct I as [Iev Iroom Iexp Iproc Iacc Iset Ifl Icl Iq Iadm Ifail Itg Ifin Igone Iclosed Irec Istops Icli].
  destruct pc; cbn in Hstep; cases_in Hstep; simplify_eq/=.
  all: inv_parts Icl Iq.
  all: try (exfalso; lia).
  all: try (apply (Hup (client_ok _)); [intros c; first [done|intros Hc; by apply (client_ok_keep _ _ _ Hc)]|cbn; first [done|tauto]]).
  all: try (by rewrite Hcase).
  - intros _. by destruct (sh_state (ex_shared g)).
  - intros Hadm. destruct (Iq ltac:(lia)) as [Q ? ?]. split; cbn; [|lia|lia]. by destruct (sh_state (ex_shared g)).
  - rewrite <-Iclosed. by destruct (sh_state (ex_shared g)).
  - apply Hup; [|done]. intros c Hc. destruct (sh_state (ex_shared g)) eqn:Hs.
    + destruct c as [|?|[]]; cbn in *; try done; rewrite Hs in Hc; [done..|by destruct Hc|].
      destruct result; [done|by destruct Hc].
    + apply (client_ok_keep _ _ _ Hc); cbn; by rewrite ?Hs.
    + apply (client_ok_keep _ _ _ Hc); cbn; by rewrite ?Hs.
  - intros _. apply Nat.eqb_eq in Hcase. rewrite Ifl in Hcase.
    pose proof (count_le is_sending is_active (ex_clients g) ltac:(by intros [[]| |])).
    pose proof (count_le is_counting is_active (ex_clients g) ltac:(by intros [[]| |])).
    split; [apply Icl, (count_pos _ _ _ Hin); done|lia|lia].
  - rewrite Hcase. cbn. lia.
  - rewrite length_app. cbn. lia.
  - intros t [[Ht| ->%list_elem_of_singleton]%elem_of_app|Ht]; [apply Itg; by left|done|apply Itg; by right].
  - exfalso. unfold has_room in Hcase. apply andb_false_iff in Hcase as [Hr|Hr%Nat.ltb_ge];
      [|destruct (sh_admitted (ex_shared g)); cbn in *; lia].
    rewrite Irec in Hr. destruct Ifin as [_ [Hs|?]]; [by destruct (ew_pc (ex_worker g))| |congruence].
    rewrite bool_decide_eq_true_2 in Iadm by done. destruct (sh_admitted (ex_shared g)); cbn in Iadm; lia.
  - apply (Hup (client_ok _)); [done|]. cbn. by split; [|split; [|repeat split; lia]].
  - apply (Hup (client_ok _)); [done|]. cbn. destruct Hme as (? & ? & ?). split; [done|]. split; [done|]. by apply loaded_next.
  - apply (Hup (client_ok _)); [done|]. cbn. destruct Hme as (? & ? & ?). split; [done|]. split; [done|].
    apply Nat.leb_gt in Hcase. by apply (loaded_all k).
Qed.

(** ** The moves of the worker *)

Lemma client_ok_open s s' c :
  sh_state s ≠ EXPORT_CLOSED → ct_accepted (sh_counters s') = ct_accepted (sh_counters s) →
  client_ok s c → client_ok s' c.
Proof. intros Hs Ha Hc. destruct c as [|?|[]]; cbn in *; try done; [congruence|tauto|]. destruct result; [done|tauto]. Qed.

(** When the target is reached nothing is left in the queue. *)
Lemma target_reached g t (I : export_inv g) (Hs : ew_shutdown (ex_worker g) = Some t)
    (Hpc : ew_pc (ex_worker g) = WCheck) (Ht : (t ≤ ew_processed (ex_worker g))%nat) : sh_queue (ex_shared g) = [].
Proof.
  pose proof (inv_admitted _ I) as Ha. rewrite Hs, bool_decide_eq_true_2 in Ha by done. cbn in Ha.
  destruct (inv_quiet _ I ltac:(lia)) as [_ _ Hc].
  pose proof (inv_targets _ I t (or_intror Hs)). pose proof (inv_accepted _ I). pose proof (inv_processed _ I) as Hp.
  pose proof (inv_events _ I) as He. rewrite Hpc in Hp, He. cbn in Hp, He.
  apply length_zero_iff_nil. apply (f_equal length) in He. rewrite length_app in He. lia.
Qed.

Lemma inv_worker g timed_out w' s' (I : export_inv g)
    (Hstep : worker_step config (ex_gone g) timed_out (ex_worker g) (ex_shared g) = Some (w', s')) :
  export_inv (mkExporting s' (ex_clients g) w' (ex_gone g)).
Proof.
  assert (∀ t, ew_pc (ex_worker g) = WCheck → ew_shutdown (ex_worker g) = Some t → (t ≤ ew_processed (ex_worker g))%nat →
    sh_queue (ex_shared g) = []) as Hreached by (intros t ? ? ?; by apply (target_reached g t)).
  destruct I as [Iev Iroom Iexp Iproc Iacc Iset Ifl Icl Iq Iadm Ifail Itg Ifin Igone Iclosed Irec Istops Icli].
  destruct g as [s cs [pc processed flush shutdown x] gone]. cbn in *.
  destruct pc; cbn in *; cases_in Hstep; simplify_eq/=.
  all: inv_parts Icl Iq.
  all: try (match goal with H : sh_queue _ = [] |- _ => rewrite H end; first [done|by eauto]).
  all: try (match goal with H : sh_shutdowns _ = [] |- _ => rewrite H end; cbn; lia).
  all: try (by rewrite Istops).
  all: try (rewrite length_app; cbn; lia).
  all: try (rewrite Iev, <-?app_assoc; cbn; done).
  all: try (intros c Hc; apply (client_ok_open s); [rewrite Iclosed; done|done|by apply Icli]).
  - rewrite Hcase0. by intros t [?%elem_of_nil|].
  - intros t [Ht|[= <-]]; apply Itg; left; by constructor.
  - intros _. apply Nat.leb_le in Hcase0. split; [by apply (Hreached n)|by left].
  - rewrite Iev. by destruct (Ifin eq_refl) as [-> _].
  - intros t [?%elem_of_nil|Ht]; [done|]. apply Itg. by right.
  - intros _. split; [done|]. by destruct (Ifin eq_refl).
Qed.

(** ** Every move *)

Lemma inv_call g c (I : export_inv g) (Hc : client_begins c = true) (Hg : ex_gone g = false) :
  export_inv (mkExporting (ex_shared g) (ex_clients g ++ [c]) (ex_worker g) false).
Proof.
  destruct I as [Iev Iroom Iexp Iproc Iacc Iset Ifl Icl Iq Iadm Ifail Itg Ifin Igone Iclosed Irec Istops Icli].
  pose proof (count_snoc is_active (ex_clients g) c). pose proof (count_snoc is_sending (ex_clients g) c).
  pose proof (count_snoc is_counting (ex_clients g) c). pose proof (count_snoc is_closing (ex_clients g) c).
  pose proof (count_snoc is_admitting (ex_clients g) c). pose proof (count_snoc is_sender (ex_clients g) c).
  pose proof (count_snoc is_failing (ex_clients g) c). pose proof (count_snoc is_settled (ex_clients g) c).
  assert (client_ok (ex_shared g) c) as Hok by (by destruct c as [[]|[]|[]]).
  destruct c as [[]|[]|[]]; try done; inv_parts Icl Iq.
  all: try (intros ?; rewrite <-Hg; by apply Ifin).
  all: intros c [Hc'| ->%list_elem_of_singleton]%elem_of_app; [by apply Icli|done].
Qed.

Lemma inv_drop g (I : export_inv g) (Hc : forallb client_finished (ex_clients g) = true) :
  export_inv (mkExporting (ex_shared g) (ex_clients g) (ex_worker g) true).
Proof.
  destruct I as [Iev Iroom Iexp Iproc Iacc Iset Ifl Icl Iq Iadm Ifail Itg Ifin Igone Iclosed Irec Istops Icli].
  split; try done; cbn.
  - intros Hf. destruct (Ifin Hf). split; [done|by right].
  - intros c _ Hin. rewrite forallb_forall in Hc. by apply Hc, list_elem_of_In.
Qed.

Lemma inv_move m g g' (I : export_inv g) (Hm : move config m g = Some g') : export_inv g'.
Proof.
  destruct m as [c|i timed_out nanos|timed_out|]; cbn in Hm.
  - destruct (client_begins c) eqn:Hc; [|done]. destruct (ex_gone g) eqn:Hg; simplify_eq/=. by apply inv_call.
  - destruct (ex_clients g !! i) as [c|] eqn:Hi; [|done]. cbn in Hm.
    destruct c as [pc|pc|pc]; cbn in Hm.
    + destruct (enqueue_step _ _ _ _ _) as [[pc' s']|] eqn:Hs; simplify_eq/=. by apply (inv_enqueue g i nanos pc).
    + destruct (flush_step _ _ _ _ _ _) as [[pc' s']|] eqn:Hs; simplify_eq/=. by eapply (inv_flush g i).
    + destruct (shutdown_step _ _ _ _) as [[pc' s']|] eqn:Hs; simplify_eq/=. by eapply (inv_shutdown g i).
  - destruct (worker_step _ _ _ _ _) as [[w' s']|] eqn:Hs; simplify_eq/=. by eapply inv_worker.
  - destruct (forallb _ _) eqn:Hc; simplify_eq/=. by apply inv_drop.
Qed.

Lemma inv_leads g g' (I : export_inv g) (Hl : leads config g g') : export_inv g'.
Proof. induction Hl as [|m g1 g2 _ IH Hm]; [done|]. by apply (inv_move m g1). Qed.

Lemma inv_reachable x g (Hr : reachable_from config x g) : export_inv g.
Proof. apply (inv_leads (exporting_new x)); [apply inv_new|done]. Qed.

(** ** Accounting *)

(** at every moment, whatever the interleaving, no event is lost, duplicated or
    reordered between the tasks and the exporter: the events the queue took are, in
    order, those handed to the exporter, those the worker holds and those queued;
    the queue stays within its capacity; every call that has finished its work is
    counted once, as accepted or as dropped; and an event is counted as exported or as
    failed, once, only after it was handed over. *)
Theorem every_event_is_accounted_for x g (Hr : reachable_from config x g) :
  let s := ex_shared g in
  let c := sh_counters s in
  sh_sent s = sh_handed s ++ in_hand (ew_pc (ex_worker g)) ++ sh_queue s ∧
  (length (sh_queue s) ≤ queue_capacity config)%nat ∧
  (ct_accepted c + ct_dropped c = count is_settled (ex_clients g))%nat ∧
  (ct_accepted c + count is_counting (ex_clients g) = length (sh_sent s))%nat ∧
  (ct_exported c + ct_export_failed c + uncounted (ew_pc (ex_worker g)) = length (sh_handed s))%nat ∧
  (ct_exported c + ct_export_failed c ≤ ct_accepted c + count is_counting (ex_clients g))%nat.
Proof.
  cbn zeta. destruct (inv_reachable x g Hr) as [Iev Iroom Iexp Iproc Iacc Iset _ _ _ _ _ _ _ _ _ _ _ _].
  split_and!; [done..|]. apply (f_equal length) in Iev. rewrite !length_app in Iev. lia.
Qed.

(** ** Shutdown *)

Lemma closed_delivered g (I : export_inv g) (Hs : sh_state (ex_shared g) = EXPORT_CLOSED) :
  sh_handed (ex_shared g) = sh_sent (ex_shared g) ∧ sh_queue (ex_shared g) = [] ∧
  count is_counting (ex_clients g) = 0%nat ∧ sh_stops (ex_shared g) = [sh_error (ex_shared g)] ∧
  (ct_exported (sh_counters (ex_shared g)) + ct_export_failed (sh_counters (ex_shared g)) =
    ct_accepted (sh_counters (ex_shared g)))%nat.
Proof.
  apply (inv_closed _ I) in Hs as Hc. pose proof (closed_finishing _ Hc) as Hf.
  destruct (inv_finishing _ I Hf) as [Hq _].
  pose proof (inv_events _ I) as He. pose proof (inv_exported _ I) as Hx. pose proof (inv_accepted _ I) as Ha.
  assert (count is_counting (ex_clients g) = 0%nat) as H0.
  { destruct (ex_gone g) eqn:Hg; [|by destruct (finishing_quiet _ I Hf Hg)].
    apply count_none. intros c Hin. pose proof (inv_gone _ I c Hg Hin). by destruct c as [[]| |]. }
  assert (in_hand (ew_pc (ex_worker g)) = [] ∧ uncounted (ew_pc (ex_worker g)) = 0%nat) as [Hh Hu]
    by (by destruct (ew_pc (ex_worker g))).
  rewrite Hh, Hq, app_nil_r in He. rewrite He in Ha.
  split_and!; [done..| |lia]. rewrite (inv_stops _ I). by destruct (ew_pc (ex_worker g)).
Qed.

(** *** What only grows *)

Record grows s s' : Prop := {
  grows_sent : sh_sent s `prefix_of` sh_sent s';
  grows_handed : sh_handed s `prefix_of` sh_handed s';
  grows_accepted : (ct_accepted (sh_counters s) ≤ ct_accepted (sh_counters s'))%nat
}.

#[local] Instance grows_preorder : PreOrder grows.
Proof.
  split; [by intros s; split|]. intros s1 s2 s3 [] []. split; [by etransitivity|by etransitivity|lia].
Qed.

Lemma grows_move m g g' (Hm : move config m g = Some g') : grows (ex_shared g) (ex_shared g').
Proof.
  assert (∀ (l l' : list E), l `prefix_of` l ++ l') as Hpre by (intros; by apply prefix_app_r).
  destruct m as [c|i timed_out nanos|timed_out|]; cbn in Hm.
  - cases_in Hm; by simplify_eq/=.
  - destruct (ex_clients g !! i) as [c|]; [|done]. cbn in Hm.
    destruct c as [pc|pc|pc]; cbn in Hm.
    + destruct (enqueue_step _ _ _ _ _) as [[pc' s']|] eqn:Hs; simplify_eq/=.
      destruct pc; cbn in Hs; cases_in Hs; simplify_eq/=; split; cbn; try done; try lia; apply Hpre.
    + destruct (flush_step _ _ _ _ _ _) as [[pc' s']|] eqn:Hs; simplify_eq/=.
      destruct pc; cbn in Hs; cases_in Hs; by simplify_eq/=.
    + destruct (shutdown_step _ _ _ _) as [[pc' s']|] eqn:Hs; simplify_eq/=.
      destruct pc; cbn in Hs; cases_in Hs; by simplify_eq/=.
  - destruct (worker_step _ _ _ _ _) as [[w' s']|] eqn:Hs; simplify_eq/=.
    destruct (ex_worker g) as [pc processed flush shutdown x].
    destruct pc; cbn in Hs; cases_in Hs; simplify_eq/=; split; cbn; try done; apply Hpre.
  - cases_in Hm; by simplify_eq/=.
Qed.

Lemma grows_leads g g' (Hl : leads config g g') : grows (ex_shared g) (ex_shared g').
Proof. induction Hl as [|m g1 g2 _ IH Hm]; [done|]. etransitivity; [done|by apply (grows_move m)]. Qed.

Lemma finished_step g i timed_out nanos c : client_finished c = true → client_step config g i false timed_out nanos c = None.
Proof. by destruct c as [[]|[]|[]]. Qed.

(** A call that has returned does not change any more. *)
Lemma finished_stays g g' i c (Hl : leads config g g') (Hi : ex_clients g !! i = Some c) (Hc : client_finished c = true) :
  ex_clients g' !! i = Some c.
Proof.
  induction Hl as [|m g1 g2 _ IH Hm]; [done|].
  destruct m as [c'|j timed_out nanos|timed_out|]; cbn in Hm.
  - cases_in Hm; simplify_eq/=. by apply lookup_app_l_Some.
  - destruct (ex_clients g1 !! j) as [cj|] eqn:Hj; [|done]. cbn in Hm.
    destruct (client_step _ _ _ _ _ _ _) as [[c' s']|] eqn:Hs; simplify_eq/=.
    rewrite list_lookup_insert_ne; [done|]. intros ->. simplify_eq. by rewrite finished_step in Hs.
  - by destruct (worker_step _ _ _ _ _) as [[w' s']|]; simplify_eq/=.
  - by cases_in Hm; simplify_eq/=.
Qed.

(** C29: A shutdown that returns successfully has delivered everything, in every
    sequentially consistent interleaving of the threads: one in which no load of an
    atomic returns a value that was already overwritten.  (The source's acquire and
    release accesses promise less: there, a thread that emits while the shutdown begins
    may miss the closing, and its event is lost - stale_load_loses_an_event, and the
    findings.)  To whichever of its callers the shutdown returns, and however many
    tasks were emitting events when it was called, every event the queue ever took was
    handed to the exporter, in order; the statistics it returns show them all as
    exported or failed; the exporter was stopped exactly once, without an error; and
    the queue is empty and stays so. *)
Theorem shutdown_delivers_everything x g g' i st (Hr : reachable_from config x g)
    (Hi : ex_clients g !! i = Some (Shutdown (ShutDone (inr st)))) (Hl : leads config g g') :
  sh_handed (ex_shared g') = sh_sent (ex_shared g') ∧ sh_sent (ex_shared g') = sh_sent (ex_shared g) ∧
  sh_queue (ex_shared g') = [] ∧ sh_stops (ex_shared g') = [None] ∧
  ct_accepted st = length (sh_sent (ex_shared g')) ∧ (ct_exported st + ct_export_failed st = ct_accepted st)%nat.
Proof.
  pose proof (inv_reachable x g Hr) as I. pose proof (inv_leads g g' I Hl) as I'.
  pose proof (finished_stays g g' i _ Hl Hi eq_refl) as Hi'.
  destruct (inv_clients _ I _ (list_elem_of_lookup_2 _ _ _ Hi)) as (Hs & _ & (Ha & _)).
  destruct (inv_clients _ I' _ (list_elem_of_lookup_2 _ _ _ Hi')) as (Hs' & He' & (Ha' & Hx' & Hf')).
  destruct (closed_delivered g I Hs) as (_ & _ & Hc & _). pose proof (inv_accepted _ I).
  destruct (closed_delivered g' I' Hs') as (Hh & Hq & Hc' & Hstops & Hsum). pose proof (inv_accepted _ I').
  specialize (Ha ltac:(lia)). specialize (Ha' ltac:(lia)). specialize (Hx' ltac:(lia)). specialize (Hf' ltac:(lia)).
  split_and!; [done| |done|by rewrite Hstops, He'|lia|lia].
  symmetry. apply (prefix_length_eq _ _ (grows_sent _ _ (grows_leads g g' Hl))). lia.
Qed.
End facts.
