(* ===== verification/ExporterDelivery.v ===== *)
(** * Flush and termination of the bounded exporter

    What [flush] promises, proved by an invariant relative to the moment of the call,
    and the termination of the worker once a shutdown has reached it. *)
From stdpp Require Import numbers list.
From S2P Require Import Prelude Effects Exporter ExporterFacts.

Section delivery.
Context {E X : Type} {LE : LifecycleExporter E X} (config : AsyncExportConfig).

Abbreviation Client := (@Client E).
Abbreviation Shared := (@Shared E).
Abbreviation Exporting := (@Exporting E X).
Implicit Types (g : Exporting) (s : Shared) (c : Client).

(** ** What the worker reads *)

(** Nobody else writes the two counters of the worker while it reads them. *)
Definition reads (k : nat) (st ct : ExportCounters) : Prop :=
  (2 < k → ct_exported st = ct_exported ct)%nat ∧ (3 < k → ct_export_failed st = ct_export_failed ct)%nat.

Definition snapshot_ok g : Prop :=
  match ew_pc (ex_worker g) with
  | WLoad k st => reads k st (sh_counters (ex_shared g))
  | WAnswer st => reads 7 st (sh_counters (ex_shared g))
  | _ => True
  end.

Lemma reads_next k st ct : reads k st ct → reads (S k) (load_counter k ct st) ct.
Proof.
  intros (H2 & H3). do 7 (destruct k as [|k]; [unfold reads; cbn in *; split; intros; try done; eauto with lia|]).
  unfold reads in *. cbn in *. split; intros; eauto with lia.
Qed.

Lemma reads_all k st ct : (7 ≤ k)%nat → reads k st ct → reads 7 st ct.
Proof. intros Hk (H2 & H3). unfold reads. split; intros; eauto with lia. Qed.

(** The worker alone moves the counters of exported and failed events. *)
Lemma client_keeps g i timed_out nanos c c' s' (Hs : client_step config g i false timed_out nanos c = Some (c', s')) :
  ct_exported (sh_counters s') = ct_exported (sh_counters (ex_shared g)) ∧
  ct_export_failed (sh_counters s') = ct_export_failed (sh_counters (ex_shared g)) ∧
  sh_responses s' = sh_responses (ex_shared g).
Proof.
  destruct c as [pc|pc|pc]; cbn in Hs.
  - destruct (enqueue_step _ _ _ _ _) as [[pc' s'']|] eqn:H; simplify_eq/=. destruct pc; cbn in H; cases_in H; by simplify_eq/=.
  - destruct (flush_step _ _ _ _ _ _) as [[pc' s'']|] eqn:H; simplify_eq/=. destruct pc; cbn in H; cases_in H; by simplify_eq/=.
  - destruct (shutdown_step _ _ _ _) as [[pc' s'']|] eqn:H; simplify_eq/=. destruct pc; cbn in H; cases_in H; by simplify_eq/=.
Qed.

Lemma snapshot_move m g g' (Hm : move config m g = Some g') (Hok : snapshot_ok g) : snapshot_ok g'.
Proof.
  unfold snapshot_ok in *. destruct m as [c|i timed_out nanos|timed_out|]; cbn in Hm.
  - cases_in Hm; by simplify_eq/=.
  - destruct (ex_clients g !! i) as [c|]; [|done]. cbn in Hm.
    destruct (client_step _ _ _ _ _ _ _) as [[c' s']|] eqn:Hs; simplify_eq/=.
    destruct (client_keeps _ _ _ _ _ _ _ Hs) as (Hx & Hf & _).
    unfold reads in *. by rewrite Hx, Hf.
  - destruct (worker_step _ _ _ _ _) as [[w' s']|] eqn:Hs; simplify_eq/=.
    destruct (ex_worker g) as [pc processed flush shutdown x].
    destruct pc; cbn in Hs; cases_in Hs; simplify_eq/=; try done.
    all: try (by split; intros; lia). all: try (by apply reads_next).
    + apply Nat.leb_gt in Hcase. by apply (reads_all k).
  - cases_in Hm; by simplify_eq/=.
Qed.

(** ** The commands of the flushes *)

(** Past the sending of its command. *)
Definition has_sent c : bool := match c with Flush (FlushRecv | FlushDone _) => true | _ => false end.

Definition commands_known g : Prop :=
  (∀ id t, (id, t) ∈ sh_flushes (ex_shared g) ∨ ew_flush (ex_worker g) = Some (id, t) →
     ∃ c, ex_clients g !! id = Some c ∧ has_sent c = true) ∧
  (∀ id st, sh_responses (ex_shared g) !! id = Some st → ∃ c, ex_clients g !! id = Some c ∧ has_sent c = true).

Lemma has_sent_step g i timed_out nanos c c' s' :
  client_step config g i false timed_out nanos c = Some (c', s') → has_sent c = true → has_sent c' = true.
Proof.
  intros Hs Hc. destruct c as [pc|pc|pc]; [done| |done]. destruct pc; try done. cbn in Hs. cases_in Hs; by simplify_eq/=.
Qed.

(** The only commands a call adds carry its own number. *)
Lemma client_commands g i timed_out nanos c c' s' (Hs : client_step config g i false timed_out nanos c = Some (c', s')) id t :
  (id, t) ∈ sh_flushes s' → (id, t) ∈ sh_flushes (ex_shared g) ∨
    id = i ∧ c = Flush (FlushSend t) ∧ c' = Flush FlushRecv.
Proof.
  destruct c as [pc|pc|pc]; cbn in Hs.
  - destruct (enqueue_step _ _ _ _ _) as [[pc' s'']|] eqn:H; simplify_eq/=. destruct pc; cbn in H; cases_in H; simplify_eq/=; by left.
  - destruct (flush_step _ _ _ _ _ _) as [[pc' s'']|] eqn:H; simplify_eq/=.
    destruct pc; cbn in H; cases_in H; simplify_eq/=; try by left.
    intros [Hin|[= -> ->]%list_elem_of_singleton]%elem_of_app; [by left|by right].
  - destruct (shutdown_step _ _ _ _) as [[pc' s'']|] eqn:H; simplify_eq/=. destruct pc; cbn in H; cases_in H; simplify_eq/=; by left.
Qed.

(** The worker only takes commands, and answers the one it holds. *)
Lemma worker_commands g timed_out w' s'
    (Hs : worker_step config (ex_gone g) timed_out (ex_worker g) (ex_shared g) = Some (w', s')) :
  (∀ id t, (id, t) ∈ sh_flushes s' ∨ ew_flush w' = Some (id, t) →
     (id, t) ∈ sh_flushes (ex_shared g) ∨ ew_flush (ex_worker g) = Some (id, t)) ∧
  (sh_responses s' = sh_responses (ex_shared g) ∨
   ∃ id t st, ew_pc (ex_worker g) = WAnswer st ∧ ew_flush (ex_worker g) = Some (id, t) ∧
     (t ≤ ew_processed (ex_worker g))%nat ∧ sh_responses s' = <[id := st]> (sh_responses (ex_shared g))).
Proof.
  destruct (ex_worker g) as [pc processed flush shutdown x].
  destruct pc; cbn in Hs |- *; cases_in Hs; simplify_eq/=.
  all: try (split; [done|by left]).
  all: split; [|try by left].
  all: try (intros id t [Hin|Hin]; [|by simplify_eq]; first [by left|by apply elem_of_nil in Hin]).
  - rewrite Hcase1. intros id t [Hin|Hin]; [by left|done].
  - intros id t [Hin|[= ->]]; left; [by right|left].
  - right. eexists _, _, _. split_and!; [done|done| |done]. by apply Nat.leb_le.
Qed.

Lemma known_move m g g' (Hm : move config m g = Some g') (Hk : commands_known g) : commands_known g'.
Proof.
  destruct Hk as [Hk1 Hk2]. destruct m as [c|i timed_out nanos|timed_out|]; cbn in Hm.
  - cases_in Hm; simplify_eq/=. split; cbn.
    + intros id t Hin. destruct (Hk1 id t Hin) as (c' & Hc & ?). exists c'. by rewrite (lookup_app_l_Some _ _ _ _ Hc).
    + intros id st Hin. destruct (Hk2 id st Hin) as (c' & Hc & ?). exists c'. by rewrite (lookup_app_l_Some _ _ _ _ Hc).
  - destruct (ex_clients g !! i) as [c|] eqn:Hi; [|done]. cbn in Hm.
    destruct (client_step _ _ _ _ _ _ _) as [[c' s']|] eqn:Hs; simplify_eq/=.
    assert (∀ id, (∃ c0, ex_clients g !! id = Some c0 ∧ has_sent c0 = true) →
      ∃ c0, <[i := c']> (ex_clients g) !! id = Some c0 ∧ has_sent c0 = true) as Hkeep.
    { intros id (c0 & Hc0 & Hsent). destruct (decide (i = id)) as [<-|Hne].
      - simplify_eq. exists c'. rewrite list_lookup_insert_eq by (by apply lookup_lt_Some in Hi).
        split; [done|]. by apply (has_sent_step _ _ _ _ _ _ _ Hs).
      - exists c0. by rewrite list_lookup_insert_ne. }
    split; cbn.
    + intros id t [Hin|Hin]; [|by apply Hkeep, (Hk1 id t); right].
      destruct (client_commands _ _ _ _ _ _ _ Hs id t Hin) as [Hold|(-> & _ & ->)].
      * by apply Hkeep, (Hk1 id t); left.
      * eexists. rewrite list_lookup_insert_eq by (by apply lookup_lt_Some in Hi). done.
    + intros id st Hin. destruct (client_keeps _ _ _ _ _ _ _ Hs) as (_ & _ & Hresp). rewrite Hresp in Hin. by eapply Hkeep, Hk2.
  - destruct (worker_step _ _ _ _ _) as [[w' s']|] eqn:Hs; simplify_eq/=.
    destruct (worker_commands _ _ _ _ Hs) as [Hcmd Hresp]. split; cbn.
    + intros id t Hin. by apply (Hk1 id t), Hcmd.
    + intros id st Hin. destruct Hresp as [Hresp|(id' & t & st' & _ & Hf & _ & Hresp)]; rewrite Hresp in Hin; [by apply (Hk2 id st)|].
      destruct (decide (id' = id)) as [<-|Hne]; [by apply (Hk1 id' t); right|].
      rewrite lookup_insert_ne in Hin by done. by apply (Hk2 id st).
  - cases_in Hm; by simplify_eq/=.
Qed.

(** ** A flush, from its call on *)

Definition delivered (n : nat) (st : AsyncExportStats) s : Prop :=
  (n ≤ length (sh_handed s) ∧ n ≤ ct_exported st + ct_export_failed st)%nat.

(** What the flush of thread [i] has secured of the [n] events queued at its call. *)
Definition flushing (n i : nat) g : Prop :=
  match ex_clients g !! i with
  | Some (Flush (FlushCheck | FlushWait | FlushDone (inl _))) => True
  | Some (Flush FlushTarget) => (n ≤ ct_accepted (sh_counters (ex_shared g)))%nat
  | Some (Flush (FlushSend t)) => (n ≤ t)%nat
  | Some (Flush FlushRecv) =>
      (∀ t, (i, t) ∈ sh_flushes (ex_shared g) ∨ ew_flush (ex_worker g) = Some (i, t) → (n ≤ t)%nat) ∧
      (∀ st, sh_responses (ex_shared g) !! i = Some st → delivered n st (ex_shared g))
  | Some (Flush (FlushDone (inr st))) => delivered n st (ex_shared g)
  | _ => False
  end.

Lemma delivered_grows n st s s' : grows s s' → delivered n st s → delivered n st s'.
Proof. intros [_ Hh _] [Hd ?]. apply prefix_length in Hh. split; lia. Qed.

Lemma flushing_call n i g m g' (I : export_inv config g) (Hk : commands_known g)
    (Hn : (n ≤ length (sh_sent (ex_shared g)))%nat) (Hf : flushing n i g) timed_out nanos
    (Hm : m = MoveClient i timed_out nanos) (Hmove : move config m g = Some g') : flushing n i g'.
Proof.
  subst m. cbn in Hmove. unfold flushing in *. destruct (ex_clients g !! i) as [c|] eqn:Hi; [|done]. cbn in Hmove.
  destruct c as [|pc|]; [done| |done]. cbn in Hmove.
  destruct (flush_step _ _ _ _ _ _) as [[pc' s']|] eqn:Hs; simplify_eq/=.
  rewrite list_lookup_insert_eq by (by apply lookup_lt_Some in Hi).
  destruct pc; cbn in Hs; cases_in Hs; simplify_eq/=; try done.
  - apply Nat.eqb_eq in Hcase. pose proof (inv_in_flight _ _ I). pose proof (inv_accepted _ _ I).
    pose proof (count_le is_counting is_active (ex_clients g) ltac:(by intros [[]| |])). lia.
  - destruct Hk as [Hk1 Hk2]. split.
    + intros t [[Hin|[= ->]%list_elem_of_singleton]%elem_of_app|Hw]; [|done|].
      * destruct (Hk1 i t (or_introl Hin)) as (c & ? & Hc). by simplify_eq.
      * destruct (Hk1 i t (or_intror Hw)) as (c & ? & Hc). by simplify_eq.
    + intros st Hst. destruct (Hk2 i st Hst) as (c & ? & Hc). by simplify_eq.
  - by apply Hf.
  - split; [by apply Hf|]. intros st. by rewrite Hcase.
Qed.

Lemma flushing_other n i g m g' (I : export_inv config g) (Hsnap : snapshot_ok g) (Hf : flushing n i g)
    (Hm : ∀ timed_out nanos, m ≠ MoveClient i timed_out nanos) (Hmove : move config m g = Some g') : flushing n i g'.
Proof.
  pose proof (grows_move config m g g' Hmove) as Hg.
  destruct m as [c|j timed_out nanos|timed_out|]; cbn in Hmove.
  - cases_in Hmove; simplify_eq/=. unfold flushing in *. cbn. destruct (ex_clients g !! i) as [c'|] eqn:Hi; [|done].
    by rewrite (lookup_app_l_Some _ _ _ _ Hi).
  - destruct (ex_clients g !! j) as [c|] eqn:Hj; [|done]. cbn in Hmove.
    destruct (client_step _ _ _ _ _ _ _) as [[c' s']|] eqn:Hs; simplify_eq/=.
    assert (j ≠ i) as Hne by (intros ->; by eapply Hm).
    unfold flushing in *. cbn in *. rewrite list_lookup_insert_ne by done.
    destruct (ex_clients g !! i) as [[|[]|]|]; try done.
    + destruct Hg. lia.
    + destruct Hf as [Hf1 Hf2]. split.
      * intros t [Hin|Hin]; [|by apply Hf1; right].
        destruct (client_commands _ _ _ _ _ _ _ Hs i t Hin) as [Hold|(-> & _)]; [by apply Hf1; left|done].
      * intros st Hst. destruct (client_keeps _ _ _ _ _ _ _ Hs) as (_ & _ & Hr). rewrite Hr in Hst.
        by eapply delivered_grows, Hf2.
    + destruct result; [done|]. by eapply delivered_grows.
  - destruct (worker_step _ _ _ _ _) as [[w' s']|] eqn:Hs; simplify_eq/=.
    destruct (worker_commands _ _ _ _ Hs) as [Hcmd Hresp].
    unfold flushing in *. cbn in *. destruct (ex_clients g !! i) as [[|[]|]|]; try done.
    + destruct Hg. lia.
    + destruct Hf as [Hf1 Hf2]. split; [intros t Hin; by apply Hf1, Hcmd|]. intros st Hst.
      destruct Hresp as [Hr|(id & t & st' & Hpc & Hw & Ht & Hr)]; rewrite Hr in Hst; [by eapply delivered_grows, Hf2|].
      destruct (decide (id = i)) as [->|Hne]; [|rewrite lookup_insert_ne in Hst by done; by eapply delivered_grows, Hf2].
      rewrite lookup_insert_eq in Hst. simplify_eq.
      eapply delivered_grows; [done|]. pose proof (Hf1 t (or_intror Hw)).
      unfold snapshot_ok in Hsnap. rewrite Hpc in Hsnap. destruct Hsnap as [Hx1 Hx2].
      specialize (Hx1 ltac:(lia)). specialize (Hx2 ltac:(lia)).
      pose proof (inv_exported _ _ I) as Hx. pose proof (inv_processed _ _ I) as Hp. rewrite Hpc in Hx, Hp. cbn in Hx, Hp.
      split; lia.
    + destruct result; [done|]. by eapply delivered_grows.
  - cases_in Hmove; by simplify_eq/=.
Qed.

(** The three invariants that hold of every reachable state. *)
Definition sound g : Prop := export_inv config g ∧ snapshot_ok g ∧ commands_known g.

Lemma sound_leads g g' (Hs : sound g) (Hl : leads config g g') : sound g'.
Proof.
  induction Hl as [|m g1 g2 _ (I & Hsn & Hk) Hm]; [done|].
  split; [by apply (inv_move config m g1)|]. split; [by apply (snapshot_move m g1)|by apply (known_move m g1)].
Qed.

Lemma sound_reachable x g (Hr : reachable_from config x g) : sound g.
Proof.
  apply (sound_leads (exporting_new x)); [|done]. split; [apply inv_new|]. split; [done|].
  split; cbn; [by intros id t [?%elem_of_nil|]|done].
Qed.

Lemma flushing_leads n i g g' (Hs : sound g) (Hn : (n ≤ length (sh_sent (ex_shared g)))%nat) (Hf : flushing n i g)
    (Hl : leads config g g') : flushing n i g'.
Proof.
  induction Hl as [|m g1 g2 Hl IH Hm]; [done|].
  destruct (sound_leads g g1 Hs Hl) as (I & Hsn & Hk).
  pose proof (prefix_length _ _ (grows_sent _ _ (grows_leads config g g1 Hl))).
  assert ((∃ timed_out nanos, m = MoveClient i timed_out nanos) ∨ (∀ timed_out nanos, m ≠ MoveClient i timed_out nanos)) as [(to & na & Heq)|Hne].
  { destruct m as [c|j to na|to|]; try by right. destruct (decide (j = i)) as [->|Hne]; [left; eauto|right; naive_solver]. }
  - apply (flushing_call n i g1 m g2 I Hk ltac:(lia) IH to na Heq Hm).
  - by apply (flushing_other n i g1 m g2 I Hsn IH).
Qed.

(** C28: a flush that returns with statistics has seen to it that every event queued by
    the time of its call is with the exporter: those events are, in order, the first
    ones handed over, and the statistics count at least as many as exported or failed.
    The calls of other threads may be at any point when the flush begins, and go on. *)
Theorem flush_delivers_what_was_queued x g g' i st (Hr : reachable_from config x g)
    (Hi : ex_clients g !! i = Some (Flush FlushCheck)) (Hl : leads config g g')
    (Hi' : ex_clients g' !! i = Some (Flush (FlushDone (inr st)))) :
  sh_sent (ex_shared g) `prefix_of` sh_handed (ex_shared g') ∧
  (length (sh_sent (ex_shared g)) ≤ ct_exported st + ct_export_failed st)%nat.
Proof.
  pose proof (sound_reachable x g Hr) as Hs.
  assert (flushing (length (sh_sent (ex_shared g))) i g') as Hf.
  { apply (flushing_leads _ i g g' Hs); [done| |done]. unfold flushing. by rewrite Hi. }
  unfold flushing in Hf. rewrite Hi' in Hf. destruct Hf as [Hlen Hst]. split; [|done].
  destruct (sound_leads g g' Hs Hl) as ([He _ _ _ _ _ _ _ _ _ _ _ _ _ _ _ _ _] & _).
  pose proof (grows_sent _ _ (grows_leads config g g' Hl)) as Hp. rewrite He in Hp.
  assert (sh_handed (ex_shared g') `prefix_of` sh_sent (ex_shared g')) as Hh by (rewrite He; by apply prefix_app_r).
  rewrite <-He in Hp. destruct (prefix_weak_total _ _ _ Hp Hh) as [|Hback]; [done|].
  by rewrite (prefix_length_eq _ _ Hback Hlen).
Qed.

(** ** The end of the worker *)

Fixpoint run_moves (ms : list Move) g : option Exporting :=
  match ms with
  | [] => Some g
  | m :: ms' => g1 ← move config m g; run_moves ms' g1
  end.

Definition is_turn (m : @Move E) : bool := match m with MoveWorker true => true | _ => false end.

(** A shutdown has sent its target. *)
Definition stopping g : Prop := sh_shutdowns (ex_shared g) ≠ [] ∨ is_Some (ew_shutdown (ex_worker g)).

(** The steps to the end of a round, at most; a round that starts with a queue not
    empty is paid by the event it takes. *)
Definition pc_weight (pc : @WorkerPc E) : nat :=
  match pc with
  | WExited => 0 | WExit => 1 | WClose => 2 | WError _ => 3 | WFinish => 4
  | WRecv => 5 | WTakeFlush => 6 | WTakeShutdown => 7 | WCheck => 8 | WAnswer _ => 9
  | WLoad k _ => 10 + (7 - k) | WCount _ _ => 18 | WExport _ => 19 | WFill _ => 20
  end.

Definition before_recv (pc : @WorkerPc E) : bool := match pc with WTakeFlush | WRecv => true | _ => false end.

Definition weight g : nat :=
  let pc := ew_pc (ex_worker g) in
  40 * length (sh_queue (ex_shared g)) + pc_weight pc +
  match ew_shutdown (ex_worker g) with
  | None => 80 + (if before_recv pc then 40 else 0)
  | Some _ => if before_recv pc && bool_decide (sh_queue (ex_shared g) = []) then 40 else 0
  end.

(** The worker that knows its target does not start a round with nothing queued. *)
Definition round_ok g : Prop :=
  is_Some (ew_shutdown (ex_worker g)) → ew_pc (ex_worker g) = WTakeShutdown → sh_queue (ex_shared g) ≠ [].

Lemma stopping_quiet g (I : export_inv config g) (Hs : stopping g) : quiet (ex_shared g) (ex_clients g).
Proof.
  apply (inv_quiet _ _ I). pose proof (inv_admitted _ _ I) as Ha.
  destruct Hs as [Hs|Hs]; [destruct (sh_shutdowns (ex_shared g)); [done|cbn in Ha; lia]|].
  rewrite bool_decide_eq_true_2 in Ha by done. cbn in Ha. lia.
Qed.

(** The callers do not touch the queue, the worker or its target any more. *)
Lemma client_idle g i timed_out nanos c c' s' (I : export_inv config g) (Hs : stopping g)
    (Hi : ex_clients g !! i = Some c) (Hstep : client_step config g i false timed_out nanos c = Some (c', s')) :
  sh_queue s' = sh_queue (ex_shared g) ∧ sh_shutdowns s' = sh_shutdowns (ex_shared g).
Proof.
  destruct (stopping_quiet g I Hs) as [_ Hq _]. pose proof (list_elem_of_lookup_2 _ _ _ Hi) as Hin.
  pose proof (count_zero is_sending _ _ Hq Hin) as Hnot.
  assert (is_sender c = false) as Hsend.
  { destruct (is_sender c) eqn:Hc; [|done]. pose proof (count_pos is_sender _ _ Hin Hc). pose proof (inv_admitted _ _ I) as Ha.
    destruct Hs as [Hs|Hs]; [destruct (sh_shutdowns (ex_shared g)); [done|cbn in Ha]|rewrite bool_decide_eq_true_2 in Ha by done];
      destruct (sh_admitted (ex_shared g)); cbn in Ha; lia. }
  destruct c as [pc|pc|pc]; cbn in Hstep.
  - destruct (enqueue_step _ _ _ _ _) as [[pc' s'']|] eqn:H; simplify_eq/=. destruct pc; cbn in H, Hnot; cases_in H; by simplify_eq/=.
  - destruct (flush_step _ _ _ _ _ _) as [[pc' s'']|] eqn:H; simplify_eq/=. destruct pc; cbn in H; cases_in H; by simplify_eq/=.
  - destruct (shutdown_step _ _ _ _) as [[pc' s'']|] eqn:H; simplify_eq/=. destruct pc; cbn in H, Hsend; cases_in H; by simplify_eq/=.
Qed.

(** A turn of the worker brings the end nearer. *)
Lemma turn_weight g timed_out w' s' (I : export_inv config g) (Hs : stopping g) (Hro : round_ok g)
    (Hstep : worker_step config (ex_gone g) timed_out (ex_worker g) (ex_shared g) = Some (w', s')) :
  let g' := mkExporting s' (ex_clients g) w' (ex_gone g) in
  (weight g' + (if timed_out then 1 else 0) ≤ weight g)%nat ∧ (ew_pc w' ≠ WExited → stopping g') ∧ round_ok g'.
Proof.
  cbn zeta. pose proof (inv_targets _ _ I) as Ht. pose proof (inv_accepted _ _ I) as Ha.
  pose proof (inv_processed _ _ I) as Hp. pose proof (inv_events _ _ I) as He.
  pose proof (quiet_counting _ _ (stopping_quiet g I Hs)) as Hc.
  destruct g as [s cs [pc processed flush shutdown x] gone]. unfold weight, stopping, round_ok in *. cbn -[Nat.mul] in *.
  destruct pc; cbn -[Nat.mul] in *; cases_in Hstep; simplify_eq; cbn -[Nat.mul] in *; (split; [|split]).
  all: try done; try (destruct shutdown, timed_out; cbn -[Nat.mul]; lia).
  all: try (exfalso; rewrite Hcase0 in Hs; clear -Hs; destruct Hs as [Hs|[? Hs]]; done).
  all: try (match goal with H : sh_queue _ = [] |- _ => rewrite H end).
  all: try (match goal with H : (?k <=? 6)%nat = true |- _ => apply Nat.leb_le in H end).
  all: try (repeat case_bool_decide; destruct shutdown, timed_out; cbn -[Nat.mul]; lia).
  all: try (repeat case_bool_decide; destruct timed_out; cbn -[Nat.mul]; lia).
  all: try (rewrite ?bool_decide_true by done; destruct shutdown; cbn -[Nat.mul]; lia).
  - rewrite bool_decide_false by (by apply Hro). destruct timed_out; lia.
  - destruct Hs as [Hs|[? ?]]; done.
  - destruct Hs as [Hs|[? ?]]; done.
  - intros _. right. eauto.
  - intros _ _ Hq. apply Nat.leb_gt in Hcase0. specialize (Ht n (or_intror eq_refl)).
    rewrite Hq, app_nil_r in He. rewrite He in Ha. lia.
Qed.

Lemma move_weight m g g' (I : export_inv config g) (Hs : stopping g) (Hro : round_ok g)
    (Hm : move config m g = Some g') :
  (weight g' + (if is_turn m then 1 else 0) ≤ weight g)%nat ∧ (ew_pc (ex_worker g') ≠ WExited → stopping g') ∧ round_ok g'.
Proof.
  destruct m as [c|i timed_out nanos|timed_out|]; cbn in Hm.
  - cases_in Hm; simplify_eq/=. by split_and!; [unfold weight; cbn -[Nat.mul]; lia|..].
  - destruct (ex_clients g !! i) as [c|] eqn:Hi; [|done]. cbn in Hm.
    destruct (client_step _ _ _ _ _ _ _) as [[c' s']|] eqn:Hstep; simplify_eq/=.
    destruct (client_idle g i timed_out nanos c c' s' I Hs Hi Hstep) as [Hq Hsh].
    unfold weight, stopping, round_ok in *. cbn -[Nat.mul] in *. rewrite Hq, Hsh. split_and!; [lia|done|done].
  - destruct (worker_step _ _ _ _ _) as [[w' s']|] eqn:Hstep; simplify_eq/=.
    destruct (turn_weight g timed_out w' s' I Hs Hro Hstep) as (Hw & Hst & Hr).
    split_and!; [|done|done]. by destruct timed_out.
  - cases_in Hm; simplify_eq/=. by split_and!; [unfold weight; cbn -[Nat.mul]; lia|..].
Qed.

Definition exited g : Prop := ew_pc (ex_worker g) = WExited.

#[local] Instance exited_dec g : Decision (exited g).
Proof. unfold exited. destruct (ew_pc (ex_worker g)); first [by left|by right]. Defined.

Lemma exited_move m g g' (Hx : exited g) (Hm : move config m g = Some g') : exited g' ∧ is_turn m = false.
Proof.
  unfold exited in *. destruct m as [c|i timed_out nanos|timed_out|]; cbn in Hm.
  - cases_in Hm; by simplify_eq/=.
  - destruct (ex_clients g !! i) as [c|]; [|done]. cbn in Hm.
    by destruct (client_step _ _ _ _ _ _ _) as [[c' s']|]; simplify_eq/=.
  - destruct (ex_worker g) as [pc processed flush shutdown x]. cbn in Hx. by subst pc.
  - cases_in Hm; by simplify_eq/=.
Qed.

Lemma exited_run ms g g' (Hx : exited g) (Hrun : run_moves ms g = Some g') : exited g' ∧ count is_turn ms = 0%nat.
Proof.
  revert g Hx Hrun. induction ms as [|m ms IH]; intros g Hx Hrun; cbn in Hrun; [by simplify_eq/=|].
  destruct (move config m g) as [g1|] eqn:Hm; [|done]. cbn in Hrun.
  destruct (exited_move m g g1 Hx Hm) as [Hx1 Ht]. destruct (IH g1 Hx1 Hrun) as [? Hc].
  rewrite count_cons, Ht, Hc. done.
Qed.

Lemma stopping_run ms g g' (I : export_inv config g) (Hs : stopping g) (Hro : round_ok g)
    (Hrun : run_moves ms g = Some g') : (count is_turn ms ≤ weight g)%nat.
Proof.
  revert g I Hs Hro Hrun. induction ms as [|m ms IH]; intros g I Hs Hro Hrun; cbn in Hrun; [unfold count; cbn; lia|].
  destruct (move config m g) as [g1|] eqn:Hm; [|done]. cbn in Hrun. rewrite count_cons.
  destruct (move_weight m g g1 I Hs Hro Hm) as (Hw & Hs1 & Hro1).
  assert (Nat.b2n (is_turn m) = if is_turn m then 1 else 0)%nat as -> by (by destruct (is_turn m)).
  destruct (decide (exited g1)) as [Hx|Hx].
  - destruct (exited_run ms g1 g' Hx Hrun) as [_ ->]. lia.
  - specialize (IH g1 (inv_move config m g g1 I Hm) (Hs1 Hx) Hro1 Hrun). lia.
Qed.

Lemma worker_progress g timed_out (Hx : ¬ exited g) : is_Some (move config (MoveWorker timed_out) g).
Proof.
  unfold exited in Hx. cbn. assert (is_Some (worker_step config (ex_gone g) timed_out (ex_worker g) (ex_shared g))) as [[w' s'] ->]; [|by eexists].
  destruct (ex_worker g) as [pc processed flush shutdown x]. cbn in Hx.
  destruct (exporter_shutdown x) as [x2 r2] eqn:H2.
  destruct pc as [| | | |[|e batch]| | | | | | | | |]; cbn; rewrite ?H2; try done;
    try (destruct (exporter_export x (e :: batch)) as [x1 r1]); eapply mk_is_Some; reflexivity.
Qed.

Lemma round_move m g g' (I : export_inv config g) (Hro : round_ok g) (Hm : move config m g = Some g') : round_ok g'.
Proof.
  assert (Decision (stopping g)) as [Hs|Hs].
  { unfold stopping. destruct (sh_shutdowns (ex_shared g)), (ew_shutdown (ex_worker g)); first [by left; eauto|by left; left|right; intros [?|[? ?]]; done]. }
  { by apply (move_weight m g g' I Hs Hro). }
  assert (sh_shutdowns (ex_shared g) = [] ∧ ew_shutdown (ex_worker g) = None) as [Hsh Hew].
  { unfold stopping in Hs. destruct (sh_shutdowns (ex_shared g)), (ew_shutdown (ex_worker g)); try done; exfalso; apply Hs; eauto. }
  intros [t Ht]. exfalso. destruct m as [c|i timed_out nanos|timed_out|]; cbn in Hm.
  - cases_in Hm; simplify_eq/=; congruence.
  - destruct (ex_clients g !! i) as [c|]; [|done]. cbn in Hm.
    destruct (client_step _ _ _ _ _ _ _) as [[c' s']|]; simplify_eq/=; congruence.
  - destruct (worker_step _ _ _ _ _) as [[w' s']|] eqn:Hstep; simplify_eq/=.
    destruct (ex_worker g) as [pc processed flush shutdown x]. cbn in Hew. subst shutdown.
    destruct pc; cbn in Hstep; rewrite ?Hsh in Hstep; cases_in Hstep; by simplify_eq/=.
  - cases_in Hm; simplify_eq/=; congruence.
Qed.

Lemma round_reachable x g (Hr : reachable_from config x g) : round_ok g.
Proof.
  induction Hr as [|m g1 g2 Hr IH Hm]; [by intros [? ?]|].
  apply (round_move m g1); [by apply (inv_reachable config x)|done|done].
Qed.

Lemma run_leads ms g g' (Hrun : run_moves ms g = Some g') : leads config g g'.
Proof.
  assert (∀ g0, leads config g0 g → leads config g0 g') as Hgen; [|apply Hgen; constructor].
  revert g Hrun. induction ms as [|m ms IH]; intros g Hrun g0 Hl; cbn in Hrun; [by simplify_eq|].
  destruct (move config m g) as [g1|] eqn:Hm; [|done]. apply (IH g1 Hrun). by apply (leads_move config g0 m g).
Qed.

Lemma weight_bound g : (weight g ≤ 40 * length (sh_queue (ex_shared g)) + 126)%nat.
Proof.
  unfold weight. destruct (ew_pc (ex_worker g)), (ew_shutdown (ex_worker g)); cbn -[Nat.mul];
    try (case_bool_decide); lia.
Qed.

(** A shutdown that waits for the close, or is past it. *)
Definition awaiting (pc : ShutdownPc) : bool :=
  match pc with ShutAwait | ShutJoin | ShutResult | ShutLoad _ _ => true | _ => false end.

Definition steps_left (pc : ShutdownPc) : nat :=
  match pc with ShutAwait => 11 | ShutJoin => 10 | ShutResult => 9 | ShutLoad k _ => 8 - k | _ => 0 end.

(** It gets one step further. *)
Lemma awaiting_step timed_out nanos i pc g (Hf : worker_finished g = true) (Hc : sh_state (ex_shared g) = EXPORT_CLOSED)
    (Hi : ex_clients g !! i = Some (Shutdown pc)) (Ha : awaiting pc = true) :
  ∃ pc' g1, move config (MoveClient i timed_out nanos) g = Some g1 ∧ ex_clients g1 !! i = Some (Shutdown pc') ∧
    worker_finished g1 = true ∧ sh_state (ex_shared g1) = EXPORT_CLOSED ∧
    ((awaiting pc' = true ∧ (steps_left pc' < steps_left pc)%nat) ∨ ∃ result, pc' = ShutDone result).
Proof.
  pose proof (lookup_lt_Some _ _ _ Hi) as Hlt.
  assert (∀ pc' s', shutdown_step (worker_finished g) false timed_out pc (ex_shared g) = Some (pc', s') →
    sh_state s' = EXPORT_CLOSED →
    ((awaiting pc' = true ∧ (steps_left pc' < steps_left pc)%nat) ∨ ∃ result, pc' = ShutDone result) →
    ∃ pc' g1, move config (MoveClient i timed_out nanos) g = Some g1 ∧ ex_clients g1 !! i = Some (Shutdown pc') ∧
      worker_finished g1 = true ∧ sh_state (ex_shared g1) = EXPORT_CLOSED ∧
      ((awaiting pc' = true ∧ (steps_left pc' < steps_left pc)%nat) ∨ ∃ result, pc' = ShutDone result)) as Hgo.
  { intros pc' s' Hstep Hs' Hleft. exists pc'. eexists. split; [cbn; rewrite Hi; cbn; by rewrite Hstep|]. cbn.
    split_and!; [by rewrite list_lookup_insert_eq|done|done|done]. }
  rewrite Hf in Hgo. destruct pc as [| | | | | | | | | |k st|]; try done; cbn in Hgo.
  - rewrite decide_True in Hgo by done. eapply Hgo; [done|done|]. left. split; [done|cbn; lia].
  - destruct (sh_handle (ex_shared g)); cbn in Hgo; (eapply Hgo; [done|done|]); left; (split; [done|cbn; lia]).
  - destruct (sh_error (ex_shared g)); (eapply Hgo; [done|done|]); [right; eauto|left; split; [done|cbn; lia]].
  - destruct (k <=? 6)%nat eqn:Hk; (eapply Hgo; [done|done|]); [left|right; eauto].
    apply Nat.leb_le in Hk. split; [done|cbn; lia].
Qed.

Lemma awaiting_returns timed_out nanos i n g : ∀ pc, (steps_left pc ≤ n)%nat →
  worker_finished g = true → sh_state (ex_shared g) = EXPORT_CLOSED →
  ex_clients g !! i = Some (Shutdown pc) → awaiting pc = true →
  ∃ m g1 result, (m ≤ Datatypes.S n)%nat ∧ run_moves (replicate m (MoveClient i timed_out nanos)) g = Some g1 ∧
    ex_clients g1 !! i = Some (Shutdown (ShutDone result)).
Proof.
  revert g. induction n as [|n IH]; intros g pc Hn Hf Hc Hi Ha;
    destruct (awaiting_step timed_out nanos i pc g Hf Hc Hi Ha) as (pc' & g1 & Hm & Hi1 & Hf1 & Hc1 & [[Ha1 Hlt]|[result ->]]);
    try lia.
  - exists 1%nat, g1, result. split_and!; [lia| |done]. cbn [replicate run_moves]. by rewrite Hm.
  - destruct (IH g1 pc' ltac:(lia) Hf1 Hc1 Hi1 Ha1) as (m & g2 & result & Hm2 & Hrun & Hdone).
    exists (Datatypes.S m), g2, result. split_and!; [lia| |done]. cbn [replicate run_moves]. by rewrite Hm.
  - exists 1%nat, g1, result. split_and!; [lia| |done]. cbn [replicate run_moves]. by rewrite Hm.
Qed.

(** C30: Once a shutdown has sent its target, the worker's end is near and certain, in
    every sequentially consistent interleaving with the other threads (no load returns
    a value that was already overwritten) and whatever the exporter answers.  The
    worker takes at most 40 more turns for each event in the queue and 126 besides,
    counting the turns in which its wait for an event, if it has to wait, is up - a
    wait of at most ten milliseconds; until it has ended it can always take such a
    turn; when it has ended, everything was handed over and the exporter is closed,
    and a shutdown that was waiting for that returns, with its result or with an error,
    after at most twelve steps of its own. *)
Theorem shutdown_terminates x g ms g' (Hr : reachable_from config x g) (Hs : stopping g)
    (Hrun : run_moves ms g = Some g') :
  (count is_turn ms ≤ 40 * length (sh_queue (ex_shared g)) + 126)%nat ∧
  (worker_finished g' = false → ∃ g'', move config (MoveWorker true) g' = Some g'') ∧
  (worker_finished g' = true →
     sh_state (ex_shared g') = EXPORT_CLOSED ∧ sh_handed (ex_shared g') = sh_sent (ex_shared g') ∧
     ∀ i pc timed_out nanos, ex_clients g' !! i = Some (Shutdown pc) → awaiting pc = true →
       ∃ n g'' result, (n ≤ 12)%nat ∧ run_moves (replicate n (MoveClient i timed_out nanos)) g' = Some g'' ∧
         ex_clients g'' !! i = Some (Shutdown (ShutDone result))).
Proof.
  pose proof (inv_reachable config x g Hr) as I.
  split_and!.
  - etransitivity; [by apply (stopping_run ms g g' I Hs (round_reachable x g Hr))|apply weight_bound].
  - intros Hx. apply worker_progress. unfold exited, worker_finished in *. intros Heq. by rewrite Heq in Hx.
  - intros Hx. pose proof (inv_leads config g g' I (run_leads ms g g' Hrun)) as I'.
    assert (sh_state (ex_shared g') = EXPORT_CLOSED) as Hc.
    { apply (inv_closed _ _ I'). unfold worker_finished in Hx. by destruct (ew_pc (ex_worker g')). }
    split; [done|]. split; [by apply (closed_delivered config g' I' Hc)|].
    intros i pc timed_out nanos Hi Ha. apply (awaiting_returns timed_out nanos i 11 g' pc); [|done..].
    destruct pc; cbn; lia.
Qed.
End delivery.

(** ** An example *)

(** An exporter that takes everything. *)
#[export] Instance accepting_exporter : LifecycleExporter nat unit := {|
  exporter_export x batch := (x, Ok tt);
  exporter_shutdown x := (x, Ok tt)
|}.

Definition small_config : AsyncExportConfig := mkExportConfig 2 1 2 1.

Definition client_turns (i n : nat) : list (@Move nat) := replicate n (MoveClient i false 5).
Definition worker_turns (n : nat) : list (@Move nat) := replicate n (MoveWorker true).

(** Two events are emitted, and a flush is called. *)
Definition demo_emitted : list (@Move nat) :=
  [MoveCall (Enqueue (EnqStart 7%nat))] ++ client_turns 0 7 ++ [MoveCall (Enqueue (EnqStart 8%nat))] ++ client_turns 1 7 ++
  [MoveCall (Flush FlushCheck)].

(** The flush sends its command, the worker goes through a round, and answers. *)
Definition demo_flushed : list (@Move nat) := client_turns 2 4 ++ worker_turns 17 ++ client_turns 2 1.

(** A shutdown sends its target; the worker ends; the shutdown returns. *)
Definition demo_stopping : list (@Move nat) := [MoveCall (Shutdown ShutClose)] ++ client_turns 3 5.
Definition demo_returned : list (@Move nat) := worker_turns 19 ++ client_turns 3 11.

Definition demo_exporting (ms : list (@Move nat)) : @Exporting nat unit :=
  default (exporting_new tt) (run_moves small_config ms (exporting_new tt)).

Lemma demo_reachable ms g : run_moves small_config ms (exporting_new tt) = Some g → reachable_from small_config tt g.
Proof. apply run_leads. Qed.

Lemma every_event_is_accounted_for_witness :
  let g := demo_exporting (demo_emitted ++ demo_flushed) in
  reachable_from small_config tt g ∧ sh_handed (ex_shared g) = [7%nat; 8%nat] ∧
  (ct_accepted (sh_counters (ex_shared g)) + ct_dropped (sh_counters (ex_shared g)) = 2)%nat.
Proof.
  assert (reachable_from small_config tt (demo_exporting (demo_emitted ++ demo_flushed))) as Hr
    by (apply (demo_reachable (demo_emitted ++ demo_flushed)); vm_compute; reflexivity).
  split; [exact Hr|]. split; [vm_compute; reflexivity|].
  rewrite (proj1 (proj2 (proj2 (every_event_is_accounted_for small_config tt _ Hr)))). vm_compute. reflexivity.
Defined.

Lemma flush_delivers_what_was_queued_witness :
  let g := demo_exporting demo_emitted in
  let g' := demo_exporting (demo_emitted ++ demo_flushed) in
  sh_sent (ex_shared g) = [7%nat; 8%nat] ∧ sh_sent (ex_shared g) `prefix_of` sh_handed (ex_shared g').
Proof.
  split; [vm_compute; reflexivity|].
  eapply (flush_delivers_what_was_queued small_config tt (demo_exporting demo_emitted)
    (demo_exporting (demo_emitted ++ demo_flushed)) 2).
  - apply (demo_reachable demo_emitted). vm_compute. reflexivity.
  - vm_compute. reflexivity.
  - apply (run_leads small_config demo_flushed). vm_compute. reflexivity.
  - vm_compute. reflexivity.
Defined.

Definition demo_ended : list (@Move nat) := demo_emitted ++ demo_flushed ++ demo_stopping ++ demo_returned.

Lemma shutdown_delivers_everything_witness :
  sh_sent (ex_shared (demo_exporting demo_ended)) = [7%nat; 8%nat] ∧
  sh_handed (ex_shared (demo_exporting demo_ended)) = sh_sent (ex_shared (demo_exporting demo_ended)).
Proof.
  split; [vm_compute; reflexivity|].
  eapply (shutdown_delivers_everything small_config tt (demo_exporting demo_ended) (demo_exporting demo_ended) 3).
  - apply (demo_reachable demo_ended). vm_compute. reflexivity.
  - vm_compute. reflexivity.
  - apply leads_here.
Defined.

(** A thread has counted itself in and loads the phase that a shutdown, which saw no
    thread inside, has overwritten meanwhile: its event is queued, and accepted, after
    the target was read and the worker has ended. *)
Definition demo_late_call : list (@Move nat) :=
  [MoveCall (Enqueue (EnqStart 7%nat)); MoveCall (Shutdown ShutClose)] ++ client_turns 1 2 ++ client_turns 0 1.
Definition demo_late_end : list (@Move nat) :=
  client_turns 1 3 ++ worker_turns 12 ++ client_turns 0 2 ++ worker_turns 7 ++ client_turns 0 3 ++ client_turns 1 11.

Definition demo_late : option (@Exporting nat unit) :=
  g ← run_moves small_config demo_late_call (exporting_new tt);
  g ← stale_move small_config 0 false 5 g;
  run_moves small_config demo_late_end g.

Lemma run_leads_weakly ms (g0 g g' : @Exporting nat unit) :
  leads_weakly small_config g0 g → run_moves small_config ms g = Some g' → leads_weakly small_config g0 g'.
Proof.
  revert g. induction ms as [|m ms IH]; intros g Hl Hrun; cbn in Hrun; [by simplify_eq|].
  destruct (move small_config m g) as [g1|] eqn:Hm; [|done]. apply (IH g1); [|exact Hrun]. by eapply weakly_move.
Qed.

Definition demo_late_state (late : option (@Exporting nat unit)) : @Exporting nat unit := default (exporting_new tt) late.

Lemma demo_late_led : ∀ g, demo_late = Some g → leads_weakly small_config (exporting_new tt) g.
Proof.
  intros g. unfold demo_late. destruct (run_moves small_config demo_late_call (exporting_new tt)) as [g1|] eqn:H1; [|done]. simpl.
  destruct (stale_move small_config 0 false 5 g1) as [g2|] eqn:H2; [|done]. simpl. intros H3.
  apply (run_leads_weakly demo_late_end _ g2); [|exact H3]. apply (weakly_stale _ _ 0 false 5 g1); [|exact H2].
  apply (run_leads_weakly demo_late_call _ (exporting_new tt)); [constructor|exact H1].
Qed.

Lemma stale_load_loses_an_event :
  let g := demo_late_state demo_late in
  leads_weakly small_config (exporting_new tt) g ∧
  (∃ st, ex_clients g !! 1%nat = Some (Shutdown (ShutDone (inr st))) ∧ ct_accepted st = 1%nat) ∧
  sh_sent (ex_shared g) = [7%nat] ∧ sh_handed (ex_shared g) = [] ∧ sh_queue (ex_shared g) = [].
Proof.
  split; [apply demo_late_led; vm_compute; reflexivity|].
  split; [eexists; split; vm_compute; reflexivity|]. split_and!; vm_compute; reflexivity.
Qed.

Lemma shutdown_terminates_witness :
  stopping (demo_exporting (demo_emitted ++ demo_flushed ++ demo_stopping)) ∧
  count is_turn demo_returned = 19%nat ∧
  sh_state (ex_shared (demo_exporting demo_ended)) = EXPORT_CLOSED.
Proof.
  assert (stopping (demo_exporting (demo_emitted ++ demo_flushed ++ demo_stopping))) as Hs by (left; vm_compute; done).
  split; [exact Hs|]. split; [vm_compute; reflexivity|].
  refine (proj1 (proj2 (proj2 (shutdown_terminates small_config tt
    (demo_exporting (demo_emitted ++ demo_flushed ++ demo_stopping)) demo_returned (demo_exporting demo_ended) _ Hs _)) _)).
  - apply (demo_reachable (demo_emitted ++ demo_flushed ++ demo_stopping)). vm_compute. reflexivity.
  - vm_compute. reflexivity.
  - vm_compute. reflexivity.
Defined.

(** A flush that was admitted while the exporter was open, and whose command reaches
    the channel after a shutdown's, is never answered: the worker does not take
    commands any more, and the flush reports a time-out at once although no time has
    passed. *)
Definition demo_race : list (@Move nat) :=
  [MoveCall (Flush FlushCheck)] ++ client_turns 0 3 ++ [MoveCall (Shutdown ShutClose)] ++ client_turns 1 5 ++
  client_turns 0 1 ++ worker_turns 19 ++ client_turns 0 1.

Lemma raced_flush_reports_a_timeout :
  reachable_from small_config tt (demo_exporting demo_race) ∧
  ex_clients (demo_exporting demo_race) !! 0%nat = Some (Flush (FlushDone (inl "telemetry flush timed out"))) ∧
  forallb (λ m, match m with MoveClient _ timed_out _ => negb timed_out | _ => true end) demo_race = true.
Proof.
  split; [apply (demo_reachable demo_race); vm_compute; reflexivity|].
  split; vm_compute; reflexivity.
Qed.
